(* ===== verification/_CoqProject ===== *)
-Q . S2P
Prelude.v
PyNum.v
PyStr.v
Json.v
Sha256.v
Protocol.v
Journal.v
JournalFacts.v
Transaction.v
Health.v
Restrictions.v
Metadata.v
Reporting.v
Liveness.v
Group.v
Service.v
Relay.v
Setup.v
Presets.v
Bridge.v
Ingress.v
Control.v
Policy.v
Admin.v
Ownership.v
Boundary.v
Xml.v
Protected.v
Radio.v
Profiles.v
Settings.v
Zones.v
Slots.v
Store.v
Removal.v
Writer.v
Gate.v
