(* ===== verification/Prelude.v ===== *)
(** * BASSWIESN verification library

    BASSWIESN is a local replacement of the cloud service of network radios: a web
    application with many small services (src/basswiesn/app) and a host updater
    (src/basswiesn/update_helper).  This library models the parts of it that keep state
    or guard something - journals, queues, leases, gates, grants, budgets - and proves
    what they are meant to guarantee.

    ** Files and sources

    Foundations.  Prelude: outcomes of code that may raise ([res]), the state monad of
    methods ([ST]), automation, lists.  PyNum: [int], binary64 [float] with exact
    rounding, [datetime].  PyStr: strings as UTF-8 bytes, regular expressions by
    derivatives.  Json: the reader and the compact writer of [json].  Sha256.  Xml: the
    elements of [ElementTree].

    Host updater (update_helper/).  Protocol: [protocol.py], the frames of the local
    socket.  Journal and JournalFacts: [journal.py], the durable job journal, on the bytes
    of [state.json].  Transaction: [transaction.py] and [service.py], the journalled
    upgrade over the Journal's operations, authenticated by Protocol's [check]; the host
    is a record of operations on a world of its own.

    Live state of a radio (app/services/).  Health: [health_models.py].  Restrictions:
    [restrictions.py].  Metadata: [metadata_engine.py], with the coalescer and the
    scheduler as step relations.  Reporting: [reporting_scheduler.py], one session and its
    single-flight sender, cut at its two suspension points.

    AirPlay bridge (app/services/airplay_bridge/).  Liveness: [heartbeat.py],
    [control_lease.py], [lifecycle.py], [volume.py], [control_owner.py] - who may let
    audio through, judged from the bytes of private files.  Group: [native_group.py],
    [group_session.py] - plans on fresh evidence of the owner's devices; it uses
    Liveness's observations.  Service: [session_service.py] - reservations and grants of
    sessions through crashes; Control: [service_control.py] - the socket protocol above
    Service, server and client.  Relay: [audio.py], [startup.py] - the PCM buffer and the
    window that releases audio.  Bridge: [metadata.py] with [display_composition.py]; its
    snapshots are made by Metadata's [normalize_metadata].

    Setup and configuration.  Setup: setup_rebuild/[states.py], [lease.py] and the verdict
    of [audio_safety.py].  Presets: [preset_transactions.py] (Module Mutation) and
    [radio_patch_policy.py] (Module Patch).

    Network boundary.  Ingress: core/[device_ingress.py], [ingress_budget.py] and
    [protocol_identity.py] - all requests of all workers over the shared lock files and
    rate rows.  Admin: core/[admin_store.py] and [api_tokens.py] - the transactions of the
    authentication database, with a history of what they granted.  Boundary: core/
    [admin_boundary.py], [route_policy.py], [token_policy.py], [admin_protocols.py] and
    [browser_headers.py] - the decision about every request, made of Admin's transactions.

    Care of the radios.  Policy: [device_policy.py] - what a device may be asked, from its
    class, its settings and the failures recorded for it.  Ownership:
    [device_ownership.py] and [device_transactions.py] - the locks of radios between the
    tasks of several workers, as steps of all tasks over the shared lock files.
    Protected: [protected_devices.py] - the radios nobody may touch, under every spelling
    of their addresses.  Radio: what the services that change radios share - requests,
    guards, ownership, a database session, the log of a transaction and the contract it
    is read by.  Profiles: setup_rebuild/profiles/ and [verify_settings_identity] - which
    radio answers.  Settings: [settings_contract.py] and [device_settings_writer.py] over
    Radio, each write under Profiles's identity and Protected's policy.  Zones:
    [zone_changes.py] and [zone_creation.py] over Radio, around an orchestration that is
    any program of the caller's.

    Presets of a radio.  Slots: [preset_contract.py] and the documents of
    [preset_observation.py] - what a radio shows on its six buttons, and the verdict on two
    such documents.  Store: the rest of [preset_observation.py] over a database session that
    other sessions interrupt.  Removal: [preset_recovery.py], and Writer: [preset_writer.py],
    both over Slots, Store, Profiles and the state machine of Presets.

    Playback.  Gate: [playback_safety_gate.py] - the row that keeps audio from a radio until
    its volume and mute were read back, between the processes that write it and the provider
    that waits on it.

    A definition carries the name of the function, class or field it models; operations
    of a class are functions of a record with the class's name or of its state.  Where a
    source suspends ([await]), the model has a step per segment, and the theorems speak
    of every interleaving of them ([rtc] of a step relation, or runs over event lists).

    ** What the theorems show

    Journals and crashes: JournalFacts (histories append-only and never corrupted under
    write faults and restarts, what is saved is read back, the validator is exact,
    recovery ends every job), Transaction (host calls are announced before they are made,
    every transaction concludes with the state that its host's answers call for, no
    request is executed twice, nothing without authority), Service (devices reserved once,
    grants used once, a crash is recovered). Protocols: Protocol (round trip, only
    declared forms decode), Control (the client accepts every answer of the server).
    Authority over audio: Liveness (lease history, audio commands ordered, a held gate is
    closed, volume never above the owner's maximum, the reader follows the writer), Group
    (one group per grant, plans only on fresh evidence, observations are a history), Relay
    (the relay refines a stream, silence is bounded, READY needs evidence). Queues and
    schedulers: Reporting (at most six sends while nobody cancels a request in flight, a
    bounded queue, the retry ladder), Metadata (nothing pending is stranded, only the
    latest generation runs, partial updates keep the rest). Text: Bridge (what is visible
    is one complete batch, the display text is bounded). Setup (no step without its gates,
    one coordinator). Presets (a composed image is an overlay). Ingress (no handler
    without authority, slots exclusive and bounded, the rate bounded in spite of
    rounding). Admin (every accepted cookie and token is traced to its login or its issue,
    the login budget). Boundary (no handler without its authority, the response headers).
    Ownership (transactions are exclusive, nothing leaks, no deadlock). Policy (an open
    circuit holds). Protected (no spelling of a protected address escapes). Profiles (what
    a detected profile means). Settings (no request without owning its radio, no write
    without a durable intent and a checked backup, the answer is true of the radio that
    proved its identity, a batch looks at every radio before it writes the first). Zones
    (a zone change asks once, of radios that are still as the backup has them, and reports
    what was read back, a creation writes only what its plan holds, a step is done only
    when its read-back says so). Slots (the comparison is exact: no difference is hidden).
    Removal and Writer (a radio is asked once per slot, after durable intents and a
    backup, and the local rows change only in one transaction that found the rows as they
    were before the radio was asked, after readbacks that stayed the same over the
    stability window; a download changes nothing on the radio, closes confirmed mutations
    only and keeps the row of a slot only for an open one). Gate (no audio under an armed
    gate without a fresh readback of the safe volume and of mute, a wait ends within 201
    looks). Restrictions and Health: exact decision rules. The examples named in the
    findings evaluate the places where the code departs from what it says.

    ** Fuel and bounds

    Functions are structural where the code's loop is.  [Json.parse] has the fuel
    [2 * length + 2], enough because every two nested calls consume a character; the
    reader's round trip ([loads_dumps]) shows it for every document the journals write.
    [digits] has a digit per power of two.  Nothing else has fuel; retries and runs are
    event lists of any length.

    ** Abstractions

    [upper], [lower] and the digit tests of strings follow Python on ASCII only.  The
    interpreter's recursion limit, [MemoryError] and signals are not modelled.  [str] of
    arbitrary objects, [isoformat], the text of a float, [urlsplit], the tables of
    [isprintable] and [casefold] and the XML parsers are parameters; theorems that need
    something of them say so.  Files: an atomic replace either happened or not, and may
    have happened although the call raised; descriptors, permissions and symbolic links
    are fields of an environment where the code branches on them and absent elsewhere.
    Databases are rows and lists of rows changed by atomic statements; in Radio they and
    the radios are an environment on a world of its own, whose every call may fail and
    whose attributes may have changed since the last look.  In Store the session is modelled
    itself: what other sessions commit ([others]) is visible to every statement made without
    the write reservation, loaded objects keep their attributes until the end of the
    transaction, and rows of mutations are known by their [mutation_id].  What
    [ET.tostring], [urlparse] and the lookup of a station answer is a parameter.  The rows of
    the action journal hold the values before they are redacted and cut to length.  Clocks are
    arguments of every call and may go backwards.  A run is read by the log of its session:
    requests with their answers, commits, waiting and the rows a version was taken of are
    events that the modelled operations append; the code never reads them.

    ** Not modelled

    Sockets, HTTP and XML framing, subprocesses and Docker (the host adapter, the pilot's
    own run, the relay server), radio and SSH conversations (the setup coordinator and
    its adapters), the web routes, the ORM declarations, discovery, catalogues and
    providers, the lab and telemetry tools, and the static user interface: input and
    output with little state.  The playback session history, the recovery after
    lost playback, the setup coordinator and the group controllers have logic of their own
    that is woven into such conversations and into ORM rows; it is left out too. *)
From Stdlib Require Export ZArith Lia Bool.
From stdpp Require Export base tactics list strings option gmap numbers.

#[global] Open Scope list_scope.
#[global] Open Scope Z_scope.

(** ** Outcomes of code that may raise

    [Ok a] is a normal return and [Err e] the exception that left the
    function; the monad is the sequencing of Python statements. *)
Inductive res (E A : Type) : Type :=
| Ok (a : A)
| Err (e : E).
Arguments Ok {E A} a.
Arguments Err {E A} e.

#[export] Instance res_ret E : MRet (res E) := fun _ a => Ok a.
#[export] Instance res_bind E : MBind (res E) := fun _ _ f m =>
  match m with Ok a => f a | Err e => Err e end.
#[export] Instance res_fmap E : FMap (res E) := fun _ _ f m =>
  match m with Ok a => Ok (f a) | Err e => Err e end.

Declare Scope py_scope.
Delimit Scope py_scope with py.
(** [ensure c else e in k] is [if not c: raise e] followed by [k]. *)
Notation "'ensure' c 'else' e 'in' k" :=
  (if c then k else Err e)
  (at level 10, c at level 100, e at level 100, k at level 200,
   format "'[v' 'ensure'  c  'else'  e  'in' '/' k ']'") : py_scope.
(** [unless c raise e in k] is [if c: raise e] followed by [k]. *)
Notation "'refuse' c 'with' e 'in' k" :=
  (if c then Err e else k)
  (at level 10, c at level 100, e at level 100, k at level 200,
   format "'[v' 'refuse'  c  'with'  e  'in' '/' k ']'") : py_scope.
#[global] Open Scope py_scope.

(** [try m except e => h]. *)
Definition catch {E E' A} (m : res E A) (h : E -> res E' A) : res E' A :=
  match m with Ok a => Ok a | Err e => h e end.

Definition is_ok {E A} (m : res E A) : bool :=
  match m with Ok _ => true | Err _ => false end.

(** [x is not None] and Python's [or] on an optional value. *)
Definition is_some {A} (o : option A) : bool :=
  match o with Some _ => true | None => false end.
Definition is_none {A} (o : option A) : bool := negb (is_some o).

(** ** Stateful code

    A method that reads and changes an object and may raise: the state after an
    exception is the one the raising statement left. *)
Definition ST (S E A : Type) : Type := S -> res E A * S.

#[export] Instance st_ret S E : MRet (ST S E) := fun _ a s => (Ok a, s).
#[export] Instance st_bind S E : MBind (ST S E) := fun _ _ f m s =>
  match m s with
  | (Ok a, s') => f a s'
  | (Err e, s') => (Err e, s')
  end.

Definition raise {S E A} (e : E) : ST S E A := fun s => (Err e, s).
Definition gets {S E A} (f : S -> A) : ST S E A := fun s => (Ok (f s), s).
Definition modify {S E} (f : S -> S) : ST S E unit := fun s => (Ok tt, f s).
Definition of_res {S E A} (r : res E A) : ST S E A := fun s => (r, s).
(** [try m finally f]. *)
Definition finally {S E A} (m : ST S E A) (f : S -> S) : ST S E A :=
  fun s => let '(r, s') := m s in (r, f s').
(** [try m except e => h e]. *)
Definition try_except {S E E' A} (m : ST S E A) (h : E -> ST S E' A) : ST S E' A :=
  fun s => match m s with
           | (Ok a, s') => (Ok a, s')
           | (Err e, s') => h e s'
           end.
(** The statements of a [for] loop over a list. *)
Fixpoint for_each {S E A} (l : list A) (f : A -> ST S E unit) : ST S E unit :=
  match l with
  | [] => mret tt
  | x :: l => f x ≫= fun _ => for_each l f
  end.

(** ** Proof automation *)
Create HintDb py discriminated.
Create Rewrite HintDb pydb.

(** Splits boolean connectives in the hypotheses. *)
Ltac bdestr :=
  repeat match goal with
  | H : (_ && _) = true |- _ => apply andb_true_iff in H; destruct H
  | H : (_ || _) = false |- _ => apply orb_false_iff in H; destruct H
  | H : negb _ = true |- _ => apply negb_true_iff in H
  | H : negb _ = false |- _ => apply negb_false_iff in H
  | H : (_ <=? _)%Z = true |- _ => apply Z.leb_le in H
  | H : (_ <=? _)%Z = false |- _ => apply Z.leb_gt in H
  | H : (_ <? _)%Z = true |- _ => apply Z.ltb_lt in H
  | H : (_ <? _)%Z = false |- _ => apply Z.ltb_ge in H
  | H : (_ =? _)%Z = true |- _ => apply Z.eqb_eq in H
  | H : (_ =? _)%Z = false |- _ => apply Z.eqb_neq in H
  | H : bool_decide _ = true |- _ => apply bool_decide_eq_true in H
  | H : bool_decide _ = false |- _ => apply bool_decide_eq_false in H
  end.

(** Case analysis on every test of the goal or of a hypothesis, keeping
    the equations; closes the branches that raise. *)
Ltac res_inv :=
  repeat match goal with
  | H : Ok _ = Ok _ |- _ => injection H as H; subst
  | H : Err _ = Err _ |- _ => injection H as H; subst
  | H : Ok _ = Err _ |- _ => discriminate H
  | H : Err _ = Ok _ |- _ => discriminate H
  | H : Some _ = Some _ |- _ => injection H as H; subst
  | H : Some _ = None |- _ => discriminate H
  | H : None = Some _ |- _ => discriminate H
  | H : (_, _) = (_, _) |- _ => injection H as H; subst
  end.

Ltac step_in H :=
  match type of H with
  | context [match ?x with _ => _ end] => destruct x eqn:?; res_inv
  end.

Lemma bind_Ok {E A B} (m : res E A) (f : A -> res E B) b :
  (m ≫= f) = Ok b <-> exists a, m = Ok a /\ f a = Ok b.
Proof.
  destruct m as [a|e]; cbn; split.
  - intros H. exists a. done.
  - intros (a' & [= <-] & H). exact H.
  - discriminate.
  - intros (a' & [=] & _).
Qed.

Lemma st_bind_Ok {S E A B} (m : ST S E A) (f : A -> ST S E B) s b s' :
  (m ≫= f) s = (Ok b, s') <-> exists a s1, m s = (Ok a, s1) /\ f a s1 = (Ok b, s').
Proof.
  unfold mbind, st_bind. destruct (m s) as [[a|e] s1]; split.
  - intros H. exists a, s1. done.
  - by intros (a' & s2 & [= <- <-] & H).
  - discriminate.
  - by intros (a' & s2 & [=] & _).
Qed.

Lemma catch_Ok {E E' A} (m : res E A) (h : E -> res E' A) a :
  m = Ok a -> catch m h = Ok a.
Proof. intros ->. reflexivity. Qed.

(** ** Lists *)

(** [any(p(x) for x in l)] and [all(...)] as booleans. *)
Lemma forallb_Forall {A} (p : A -> bool) (l : list A) :
  forallb p l = true <-> Forall (fun x => p x = true) l.
Proof. rewrite forallb_forall, List.Forall_forall. done. Qed.

(** [len(set(l)) == len(l)]: no element occurs twice. *)
Fixpoint distinct {A} `{EqDecision A} (l : list A) : bool :=
  match l with
  | [] => true
  | x :: l => negb (bool_decide (x ∈ l)) && distinct l
  end.

Lemma distinct_NoDup {A} `{EqDecision A} (l : list A) :
  distinct l = true <-> NoDup l.
Proof.
  induction l as [|x l IH]; cbn; [split; [constructor|done]|].
  rewrite andb_true_iff, negb_true_iff, bool_decide_eq_false, IH.
  split; [intros []; by constructor | by inversion 1].
Qed.

(** [l[-1]]. *)
Fixpoint last_opt {A} (l : list A) : option A :=
  match l with
  | [] => None
  | x :: l' => match l' with [] => Some x | _ => last_opt l' end
  end.

Lemma last_opt_snoc {A} (l : list A) x : last_opt (l ++ [x]) = Some x.
Proof. induction l as [|y [|z l] IH]; [done..|exact IH]. Qed.

Lemma last_opt_cons {A} (x : A) l : l <> [] -> last_opt (x :: l) = last_opt l.
Proof. by destruct l. Qed.

(** [set(l1) == set(l2)] for lists of keys without duplicates. *)
Definition same_set {A} `{EqDecision A} (l1 l2 : list A) : bool :=
  forallb (fun x => bool_decide (x ∈ l2)) l1 &&
  forallb (fun x => bool_decide (x ∈ l1)) l2.

Lemma same_set_spec {A} `{EqDecision A} (l1 l2 : list A) :
  same_set l1 l2 = true <-> (forall x, x ∈ l1 <-> x ∈ l2).
Proof.
  unfold same_set. rewrite andb_true_iff, !forallb_forall. split.
  - intros [H1 H2] x. rewrite !list_elem_of_In in *. split; intros Hx.
    + apply H1 in Hx. rewrite bool_decide_eq_true, list_elem_of_In in Hx. done.
    + apply H2 in Hx. rewrite bool_decide_eq_true, list_elem_of_In in Hx. done.
  - intros H; split; intros x Hx; apply bool_decide_eq_true, H;
      by apply list_elem_of_In.
Qed.

(** The reflexive transitive closure of a step relation, with the rule
    induction that carries an invariant from the initial states. *)
Lemma rtc_invariant {A} (R : A -> A -> Prop) (P : A -> Prop) :
  (forall x y, P x -> R x y -> P y) ->
  forall x y, rtc R x y -> P x -> P y.
Proof. intros Hstep x y Hrtc. induction Hrtc; eauto. Qed.

(** A symmetric relation between all members of a list does not depend on their order. *)
Lemma ForallOrdPairs_perm {A} (R : A -> A -> Prop) :
  (forall x y, R x y -> R y x) -> forall l l', l ≡ₚ l' -> ForallOrdPairs R l -> ForallOrdPairs R l'.
Proof.
  intros Hs. induction 1 as [|x l l' Hp IH|x y l|l1 l2 l3 _ IH1 _ IH2]; auto.
  - intros H. inversion H as [|? ? Hf Ho]; subst. constructor; [|by apply IH].
    rewrite List.Forall_forall in *. intros z Hz. apply Hf. by rewrite Hp.
  - intros H. inversion H as [|? ? Hf Ho]; subst. inversion Ho as [|? ? Hf' Ho']; subst. inversion Hf; subst.
    constructor; [constructor; [by apply Hs|done]|by constructor].
Qed.

(** ** What a stateful computation does to its state

    [steps_in R m]: whatever the outcome, [m] relates the state it is given to
    the one it leaves; for a preorder this composes along the statements. *)
Definition steps_in {S E A} (R : S -> S -> Prop) (m : ST S E A) : Prop :=
  forall s, R s (m s).2.

Section StepsIn.
Context {S E : Type} (R : S -> S -> Prop) `{!PreOrder R}.

Lemma steps_in_ret {A} (a : A) : steps_in R (mret a : ST S E A).
Proof. intros s. reflexivity. Qed.
Lemma steps_in_raise {A} (e : E) : steps_in R (raise e : ST S E A).
Proof. intros s. reflexivity. Qed.
Lemma steps_in_of_res {A} (r : res E A) : steps_in R (of_res r).
Proof. intros s. reflexivity. Qed.
Lemma steps_in_gets {A} (f : S -> A) : steps_in R (gets f : ST S E A).
Proof. intros s. reflexivity. Qed.

Lemma steps_in_bind {A B} (m : ST S E A) (f : A -> ST S E B) :
  steps_in R m -> (forall a, steps_in R (f a)) -> steps_in R (m ≫= f).
Proof.
  intros Hm Hf s. specialize (Hm s). unfold mbind, st_bind.
  destruct (m s) as [[a|e] s']; [|exact Hm]. etransitivity; [exact Hm|apply Hf].
Qed.

Lemma steps_in_for_each {A} (l : list A) (f : A -> ST S E unit) :
  (forall a, steps_in R (f a)) -> steps_in R (for_each l f).
Proof.
  intros Hf. induction l as [|x l IH]; [apply steps_in_ret|].
  apply steps_in_bind; [apply Hf|intros _; exact IH].
Qed.

Lemma steps_in_try {E' A} (m : ST S E A) (h : E -> ST S E' A) :
  steps_in R m -> (forall e, steps_in R (h e)) -> steps_in R (try_except m h).
Proof.
  intros Hm Hh s. specialize (Hm s). unfold try_except.
  destruct (m s) as [[a|e] s']; [exact Hm|]. etransitivity; [exact Hm|apply Hh].
Qed.

Lemma steps_in_if {A} (b : bool) (m1 m2 : ST S E A) :
  steps_in R m1 -> steps_in R m2 -> steps_in R (if b then m1 else m2).
Proof. by destruct b. Qed.
End StepsIn.
#[export] Hint Resolve steps_in_ret steps_in_raise steps_in_of_res steps_in_gets
  steps_in_bind steps_in_for_each steps_in_try steps_in_if : py.

(** Decomposes [steps_in] along the statements of a program. *)
Ltac steps :=
  repeat (first
    [ solve [auto with py typeclass_instances]
    | apply steps_in_bind; [apply _| |intros ?]
    | apply steps_in_try; [apply _| |intros ?]
    | apply steps_in_for_each; [apply _|intros ?]
    | match goal with
      | |- steps_in _ (let '_ := ?x in _) => destruct x
      | |- steps_in _ (match ?x with _ => _ end) => destruct x
      | |- steps_in _ (if ?x then _ else _) => destruct x
      end
    | progress cbv beta zeta ]).

(** ** The exceptions a stateful computation may raise *)
Definition raises_in {S E A} (X : E -> Prop) (m : ST S E A) : Prop :=
  forall s, match (m s).1 with Ok _ => True | Err e => X e end.

Section RaisesIn.
Context {S E : Type} (X : E -> Prop).

Lemma raises_in_ret {A} (a : A) : raises_in X (mret a : ST S E A).
Proof. by intros s. Qed.
Lemma raises_in_raise {A} (e : E) : X e -> raises_in X (raise e : ST S E A).
Proof. by intros He s. Qed.
Lemma raises_in_gets {A} (f : S -> A) : raises_in X (gets f : ST S E A).
Proof. by intros s. Qed.
Lemma raises_in_modify (f : S -> S) : raises_in X (modify f : ST S E unit).
Proof. by intros s. Qed.
Lemma raises_in_bind {A B} (m : ST S E A) (f : A -> ST S E B) :
  raises_in X m -> (forall a, raises_in X (f a)) -> raises_in X (m ≫= f).
Proof.
  intros Hm Hf s. specialize (Hm s). unfold mbind, st_bind. destruct (m s) as [[a|e] s']; [apply Hf|exact Hm].
Qed.
Lemma raises_in_for_each {A} (l : list A) (f : A -> ST S E unit) :
  (forall a, raises_in X (f a)) -> raises_in X (for_each l f).
Proof.
  intros Hf. induction l as [|x l IH]; [apply raises_in_ret|]. apply raises_in_bind; [apply Hf|intros _; exact IH].
Qed.
Lemma raises_in_handled {E' A} (Y : E' -> Prop) (m : ST S E' A) (h : E' -> ST S E A) :
  raises_in Y m -> (forall e, Y e -> raises_in X (h e)) -> raises_in X (try_except m h).
Proof.
  intros Hm Hh s. specialize (Hm s). unfold try_except. destruct (m s) as [[a|e] s']; [done|]. by apply Hh.
Qed.
Lemma raises_in_try {E' A} (m : ST S E' A) (h : E' -> ST S E A) :
  (forall e, raises_in X (h e)) -> raises_in X (try_except m h).
Proof. intros Hh. apply (raises_in_handled (fun _ => True)); [|auto]. intros s. by destruct (m s) as [[]]. Qed.
End RaisesIn.
#[export] Hint Resolve raises_in_ret raises_in_raise raises_in_gets raises_in_modify : py.

(** Decomposes [raises_in] along the statements of a program. *)
Ltac raising :=
  repeat (first
    [ solve [auto with py]
    | apply raises_in_bind; [|intros ?]
    | apply raises_in_try; intros ?
    | apply raises_in_for_each; intros ?
    | apply raises_in_raise
    | match goal with
      | |- raises_in _ (let '_ := ?x in _) => destruct x
      | |- raises_in _ (match ?x with _ => _ end) => destruct x
      | |- raises_in _ (if ?x then _ else _) => destruct x
      end
    | progress cbv beta zeta ]).

#[export] Instance st_fmap S E : FMap (ST S E) := fun _ _ f m s =>
  match m s with
  | (Ok a, s') => (Ok (f a), s')
  | (Err e, s') => (Err e, s')
  end.

(** ** Triples: what holds after a return and after an exception *)
Definition hoare {S E A} (P : S -> Prop) (m : ST S E A)
    (Q : A -> S -> Prop) (X : E -> S -> Prop) : Prop :=
  forall s, P s -> match m s with (Ok a, s') => Q a s' | (Err e, s') => X e s' end.

Section Hoare.
Context {S E : Type}.
Implicit Types (P : S -> Prop) (X : E -> S -> Prop).

Lemma hoare_ret {A} (a : A) P (Q : A -> S -> Prop) X :
  (forall s, P s -> Q a s) -> hoare P (mret a) Q X.
Proof. intros H s Hs. by apply H. Qed.

Lemma hoare_raise {A} (e : E) P (Q : A -> S -> Prop) X :
  (forall s, P s -> X e s) -> hoare P (raise e) Q X.
Proof. intros H s Hs. by apply H. Qed.

Lemma hoare_bind {A B} (m : ST S E A) (f : A -> ST S E B) P (Q : A -> S -> Prop) Q' X :
  hoare P m Q X -> (forall a, hoare (Q a) (f a) Q' X) -> hoare P (m ≫= f) Q' X.
Proof.
  intros Hm Hf s Hs. specialize (Hm s Hs). unfold mbind, st_bind.
  destruct (m s) as [[a|e] s']; [by apply Hf|done].
Qed.

Lemma hoare_fmap {A B} (f : A -> B) (m : ST S E A) P (Q : B -> S -> Prop) X :
  hoare P m (fun a s => Q (f a) s) X -> hoare P (f <$> m) Q X.
Proof.
  intros Hm s Hs. specialize (Hm s Hs). unfold fmap, st_fmap.
  by destruct (m s) as [[a|e] s'].
Qed.

Lemma hoare_conseq {A} (m : ST S E A) (P P' : S -> Prop) (Q Q' : A -> S -> Prop)
    (X X' : E -> S -> Prop) :
  hoare P m Q X -> (forall s, P' s -> P s) -> (forall a s, Q a s -> Q' a s) ->
  (forall e s, X e s -> X' e s) -> hoare P' m Q' X'.
Proof.
  intros Hm HP HQ HX s Hs. specialize (Hm s (HP s Hs)).
  destruct (m s) as [[a|e] s']; auto.
Qed.

Lemma hoare_try {E' A} (m : ST S E A) (h : E -> ST S E' A) P (Q : A -> S -> Prop) X
    (X' : E' -> S -> Prop) :
  hoare P m Q X -> (forall e, hoare (X e) (h e) Q X') -> hoare P (try_except m h) Q X'.
Proof.
  intros Hm Hh s Hs. specialize (Hm s Hs). unfold try_except.
  destruct (m s) as [[a|e] s']; [done|by apply Hh].
Qed.

Lemma hoare_pure {A} (m : ST S E A) P (F : Prop) Q X :
  (F -> hoare P m Q X) -> hoare (fun s => P s /\ F) m Q X.
Proof. intros H s [Hs HF]. by apply H. Qed.

Lemma hoare_pre {A} (m : ST S E A) P P' Q X :
  hoare P m Q X -> (forall s, P' s -> P s) -> hoare P' m Q X.
Proof. intros H HP s Hs. by apply H, HP. Qed.
End Hoare.

(** ** What a computation tells: the events it adds, with its outcome and the state it leaves

    [lg] reads the log of a component's state. *)
Section Told.
Context {S Ev : Type} (lg : S -> list Ev).

Definition told {E A} (m : ST S E A) (s : S) (Q : list Ev -> res E A -> S -> Prop) : Prop :=
  exists l, lg (m s).2 = lg s ++ l /\ Q l (m s).1 (m s).2.

Lemma told_bind {E A B} (m : ST S E A) (f : A -> ST S E B) s Q (P : list Ev -> res E B -> S -> Prop) :
  told m s Q -> (forall e l s1, Q l (Err e) s1 -> P l (Err e) s1) ->
  (forall a l1 s1, Q l1 (Ok a) s1 -> told (f a) s1 (fun l2 r s2 => P (l1 ++ l2) r s2)) -> told (m ≫= f) s P.
Proof.
  intros (l & L & H) He Hf. unfold told, mbind, st_bind. destruct (m s) as [[a|e] s1]; cbn in L, H.
  - destruct (Hf a l s1 H) as (l2 & L2 & H2). exists (l ++ l2). by rewrite L2, L, app_assoc.
  - exists l. split; [exact L|]. by apply He.
Qed.

Lemma told_weaken {E A} (m : ST S E A) s (Q R : list Ev -> res E A -> S -> Prop) :
  told m s Q -> (forall l r s', Q l r s' -> R l r s') -> told m s R.
Proof. intros (l & L & H) HR. exists l. auto. Qed.

Lemma told_both {E A} (m : ST S E A) s (Q R : list Ev -> res E A -> S -> Prop) :
  told m s Q -> told m s R -> told m s (fun l r s' => Q l r s' /\ R l r s').
Proof. intros (l & L & H) (l' & L' & H'). rewrite L in L'. apply app_inv_head in L' as <-. exists l. auto. Qed.

Lemma told_ret {E A} (a : A) s (Q : list Ev -> res E A -> S -> Prop) : Q [] (Ok a) s -> told (mret a) s Q.
Proof. intros H. exists []. by rewrite app_nil_r. Qed.
Lemma told_raise {E A} (e : E) s (Q : list Ev -> res E A -> S -> Prop) : Q [] (Err e) s -> told (raise e) s Q.
Proof. intros H. exists []. by rewrite app_nil_r. Qed.
Lemma told_gets {E A} (f : S -> A) s (Q : list Ev -> res E A -> S -> Prop) : Q [] (Ok (f s)) s -> told (gets f) s Q.
Proof. intros H. exists []. by rewrite app_nil_r. Qed.
Lemma told_of_res {E A} (r : res E A) s (Q : list Ev -> res E A -> S -> Prop) : Q [] r s -> told (of_res r) s Q.
Proof. intros H. exists []. by rewrite app_nil_r. Qed.

(** A statement that only reads the state. *)
Lemma told_bind_now {E A B} (m : ST S E A) (f : A -> ST S E B) s a (P : list Ev -> res E B -> S -> Prop) :
  m s = (Ok a, s) -> told (f a) s P -> told (m ≫= f) s P.
Proof. intros Hm H. unfold told, mbind, st_bind. by rewrite Hm. Qed.
Lemma told_gets_now {E A} (f : S -> A) s :
  told (gets f) s (fun l (r : res E A) s' => l = [] /\ r = Ok (f s) /\ s' = s).
Proof. by apply told_gets. Qed.
Lemma told_of_res_now {E A} (x : res E A) s : told (of_res x) s (fun l r s' => l = [] /\ r = x /\ s' = s).
Proof. by apply told_of_res. Qed.

(** [if c: raise e]. *)
Lemma told_unless {E} (c : bool) (e : E) s :
  told (if c then raise e else mret tt) s (fun l r s' => l = [] /\ s' = s /\ match r with Ok _ => c = false | Err _ => c = true end).
Proof. exists []. rewrite app_nil_r. by destruct c. Qed.

Lemma told_try {E E' A} (m : ST S E A) (h : E -> ST S E' A) s Q (P : list Ev -> res E' A -> S -> Prop) :
  told m s Q -> (forall a l s1, Q l (Ok a) s1 -> P l (Ok a) s1) ->
  (forall e l1 s1, Q l1 (Err e) s1 -> told (h e) s1 (fun l2 r s2 => P (l1 ++ l2) r s2)) -> told (try_except m h) s P.
Proof.
  intros (l & L & H) Ha Hh. unfold told, try_except. destruct (m s) as [[a|e] s1]; cbn in L, H.
  - exists l. split; [exact L|]. by apply Ha.
  - destruct (Hh e l s1 H) as (l2 & L2 & H2). exists (l ++ l2). by rewrite L2, L, app_assoc.
Qed.

(** A fact of a stretch that holds of every longer one. *)
Definition lasting (F : list Ev -> Prop) : Prop := forall l1 l l2, F l -> F (l1 ++ l ++ l2).

Lemma told_for_each {E A} (p : Ev -> bool) (F : A -> list Ev -> Prop) (X : E -> Prop) (f : A -> ST S E unit) xs s :
  (forall x, lasting (F x)) ->
  (forall x s, told (f x) s (fun l r _ => forallb p l = true /\ match r with Ok _ => F x l | Err e => X e end)) ->
  told (for_each xs f) s (fun l r _ => forallb p l = true /\ match r with Ok _ => forall x, x ∈ xs -> F x l | Err e => X e end).
Proof.
  intros HF Hf. revert s. induction xs as [|x xs IH]; intros s; cbn [for_each].
  { apply told_ret. split; [done|]. by intros x ?%elem_of_nil. }
  eapply told_bind; [apply Hf|done|]. intros [] l1 s1 [K1 H1]. eapply told_weaken; [apply IH|].
  intros l r s' [K H]. rewrite forallb_app, K1, K. split; [done|]. destruct r as [[]|e]; [|done].
  intros y [->|Hy]%elem_of_cons; [exact (HF x [] l1 l H1)|]. specialize (HF y l1 l []). rewrite app_nil_r in HF. auto.
Qed.
End Told.
