(* ===== verification/PyNum.v ===== *)
(** * Python numbers and times

    The numbers the components test and compare: [int], [float] and the
    microsecond [datetime].  A finite binary64 value is an integer number of
    [2^-1074] ticks, so a float is kept exactly as that integer and every
    comparison, also between an [int] and a [float], is the exact one Python
    makes.  The results of float arithmetic are rounded to 53 significant bits,
    ties to even, by [rnd_ratio]. *)
From S2P Require Import Prelude.

(** One second (or any other unit) in ticks. *)
Definition UNIT : Z := 2 ^ 1074.

Lemma UNIT_pos : 0 < UNIT.
Proof. unfold UNIT. lia. Qed.

Lemma UNIT_pow : UNIT = 2 ^ 1074.
Proof. reflexivity. Qed.
#[global] Opaque UNIT.

(** ** Rounding

    [round_half_even n d] is [n / d] rounded to an integer, for [0 < d]. *)
Definition round_half_even (n d : Z) : Z :=
  let q := n / d in
  let r := n mod d in
  if (d <? 2 * r) || ((2 * r =? d) && Z.odd q) then q + 1 else q.

(** The ticks of the binary64 value next to the positive rational [n / d]
    ticks: below [2^53] ticks every integer is representable, above it the last
    of 53 bits weighs [2^e]. *)
Definition rnd_pos (n d : Z) : Z :=
  let e := Z.max 0 (Z.log2 (n / d) - 52) in
  round_half_even n (d * 2 ^ e) * 2 ^ e.

Definition rnd_ratio (n d : Z) : Z :=
  if n <? 0 then - rnd_pos (- n) d else rnd_pos n d.

Inductive pyfloat : Type :=
| FFin (ticks : Z)
| FInf (negative : bool)
| FNaN.

#[export] Instance pyfloat_eq_dec : EqDecision pyfloat.
Proof. solve_decision. Defined.

(** Results at or above [2^1024] overflow to an infinity. *)
Definition FLOAT_LIMIT : Z := 2 ^ 2098.

Definition mk_float (n d : Z) : pyfloat :=
  let z := rnd_ratio n d in
  if FLOAT_LIMIT <=? Z.abs z then FInf (z <? 0) else FFin z.

(** A Python number: [int] or [float] ([bool] is a separate JSON value and
    never passes the [type(x) in (int, float)] tests of the sources). *)
Inductive pynum : Type :=
| PInt (n : Z)
| PFloat (f : pyfloat).

#[export] Instance pynum_eq_dec : EqDecision pynum.
Proof. solve_decision. Defined.

(** [math.isfinite]: the exact value in ticks, when there is one. *)
Definition finite (x : pynum) : option Z :=
  match x with
  | PInt n => Some (n * UNIT)
  | PFloat (FFin z) => Some z
  | PFloat _ => None
  end.

(** [a - b] of two finite numbers: exact on ints, otherwise each int operand
    is first converted to a float and the difference is rounded. *)
Definition to_float (x : pynum) : pyfloat :=
  match x with
  | PInt n => mk_float (n * UNIT) 1
  | PFloat f => f
  end.

Definition float_sub (a b : pyfloat) : pyfloat :=
  match a, b with
  | FFin x, FFin y => mk_float (x - y) 1
  | FInf s, FInf s' => if Bool.eqb s s' then FNaN else FInf s
  | FInf s, FFin _ => FInf s
  | FFin _, FInf s => FInf (negb s)
  | _, _ => FNaN
  end.

Definition num_sub (a b : pynum) : pynum :=
  match a, b with
  | PInt x, PInt y => PInt (x - y)
  | _, _ => PFloat (float_sub (to_float a) (to_float b))
  end.

(** [a <= b] and [a < b]; every comparison with a NaN is false. *)
Definition num_le (a b : pynum) : bool :=
  match a, b with
  | PFloat FNaN, _ | _, PFloat FNaN => false
  | PFloat (FInf s), PFloat (FInf s') => s || negb s'
  | PFloat (FInf s), _ => s
  | _, PFloat (FInf s) => negb s
  | _, _ => match finite a, finite b with
            | Some x, Some y => x <=? y
            | _, _ => false
            end
  end.

Definition num_lt (a b : pynum) : bool :=
  match a, b with
  | PFloat FNaN, _ | _, PFloat FNaN => false
  | _, _ => negb (num_le b a)
  end.

(** [a == b] by value: [5 == 5.0]. *)
Definition num_eq (a b : pynum) : bool := num_le a b && num_le b a.

(** [math.isfinite(x)]: an int beyond the range of a float raises [OverflowError]. *)
Definition isfinite (x : pynum) : res unit bool :=
  match x with
  | PInt _ => match to_float x with FFin _ => Ok true | _ => Err tt end
  | PFloat (FFin _) => Ok true
  | PFloat _ => Ok false
  end.

(** [a + b], [a * b] and [a / b]: exact on ints but for the quotient, otherwise on
    floats.  The sources only use them on finite operands and a nonzero divisor. *)
Definition fin (f : pyfloat) : Z := match f with FFin t => t | _ => 0 end.

Definition num_add (a b : pynum) : pynum :=
  match a, b with
  | PInt x, PInt y => PInt (x + y)
  | _, _ => PFloat (mk_float (fin (to_float a) + fin (to_float b)) 1)
  end.

Definition num_mul (a b : pynum) : pynum :=
  match a, b with
  | PInt x, PInt y => PInt (x * y)
  | _, _ => PFloat (mk_float (fin (to_float a) * fin (to_float b)) UNIT)
  end.

Definition num_div (a b : pynum) : pynum :=
  match a, b with
  | PInt x, PInt y => PFloat (mk_float (x * UNIT) y)
  | _, _ => PFloat (mk_float (fin (to_float a) * UNIT) (fin (to_float b)))
  end.

(** [int(math.floor(x))] of a finite number. *)
Definition num_floor (x : pynum) : Z :=
  match finite x with Some t => t / UNIT | None => 0 end.

(** ** The rounding of a quotient compared with a representable value

    A value [m * 2^k] with a 53-bit significand [m] is a fixed point of the
    rounding, and rounding never moves a quotient across it. *)
Section Representable.
Context (m k : Z).
Hypothesis Hm : 0 <= m < 2 ^ 53.
Hypothesis Hk : 0 <= k.

Let v := m * 2 ^ k.

Lemma round_half_even_ge n d M :
  0 < d -> M * d <= n -> M <= round_half_even n d.
Proof.
  intros Hd HM. unfold round_half_even.
  assert (M <= n / d) by (apply Z.div_le_lower_bound; lia).
  destruct (_ || _); lia.
Qed.

Lemma round_half_even_le n d M :
  0 < d -> n <= M * d -> round_half_even n d <= M.
Proof.
  intros Hd HM. unfold round_half_even.
  pose proof (Z.div_mod n d ltac:(lia)) as Hdm.
  pose proof (Z.mod_pos_bound n d Hd) as Hr.
  assert (n / d <= M) as Hq.
  { enough (n / d < M + 1) by lia. apply Z.div_lt_upper_bound; lia. }
  destruct ((d <? 2 * (n mod d)) || ((2 * (n mod d) =? d) && Z.odd (n / d))) eqn:E;
    [|lia].
  assert (n / d <> M) as Hne.
  { intros Heq. assert (n mod d = 0) as H0 by nia. rewrite H0 in E.
    apply orb_true_iff in E as [E|E]; bdestr; lia. }
  lia.
Qed.

(** Splitting the exponent of the representable value at the ulp. *)
Lemma pow_split e : 0 <= e <= k -> v = m * 2 ^ (k - e) * 2 ^ e.
Proof.
  intros He. unfold v. rewrite <- Z.mul_assoc, <- Z.pow_add_r by lia.
  f_equal. f_equal. lia.
Qed.

Lemma v_small e : k < e -> v < 2 ^ (52 + e).
Proof.
  intros He. unfold v.
  apply Z.lt_le_trans with (2 ^ 53 * 2 ^ k).
  - apply Z.mul_lt_mono_pos_r; [apply Z.pow_pos_nonneg|]; lia.
  - rewrite <- Z.pow_add_r by lia. apply Z.pow_le_mono_r; lia.
Qed.

Lemma ulp_floor n d e :
  0 < d -> 0 < e -> e = Z.log2 (n / d) - 52 -> 2 ^ (52 + e) <= n / d.
Proof.
  intros Hd He Heq. replace (52 + e) with (Z.log2 (n / d)) by lia.
  apply Z.log2_spec. destruct (Z.le_gt_cases (n / d) 0) as [Hle|]; [|done].
  rewrite (Z.log2_nonpos _ Hle) in Heq. lia.
Qed.

Lemma rnd_pos_ge n d : 0 < d -> v * d <= n -> v <= rnd_pos n d.
Proof.
  intros Hd Hn. unfold rnd_pos.
  set (e := Z.max 0 (Z.log2 (n / d) - 52)).
  assert (0 <= e) as He by lia.
  assert (0 < 2 ^ e) as Hp by (apply Z.pow_pos_nonneg; lia).
  destruct (Z.le_gt_cases e k) as [Hek|Hek].
  - rewrite (pow_split e) by lia.
    apply Z.mul_le_mono_nonneg_r; [lia|].
    apply round_half_even_ge; [nia|].
    rewrite (pow_split e) in Hn by lia. nia.
  - assert (2 ^ (52 + e) <= n / d) as Hfl by (apply ulp_floor; lia).
    pose proof (v_small e Hek) as Hv.
    assert (2 ^ 52 <= round_half_even n (d * 2 ^ e)) as Hq.
    { apply round_half_even_ge; [nia|].
      pose proof (Z.mul_div_le n d Hd). rewrite Z.pow_add_r in Hfl by lia. nia. }
    rewrite Z.pow_add_r in Hv by lia. nia.
Qed.

Lemma rnd_pos_le n d : 0 < d -> 0 <= n -> n <= v * d -> rnd_pos n d <= v.
Proof.
  intros Hd Hn0 Hn. unfold rnd_pos.
  set (e := Z.max 0 (Z.log2 (n / d) - 52)).
  assert (0 <= e) as He by lia.
  assert (0 < 2 ^ e) as Hp by (apply Z.pow_pos_nonneg; lia).
  destruct (Z.le_gt_cases e k) as [Hek|Hek].
  - rewrite (pow_split e) by lia.
    apply Z.mul_le_mono_nonneg_r; [lia|].
    apply round_half_even_le; [nia|].
    rewrite (pow_split e) in Hn by lia. nia.
  - assert (2 ^ (52 + e) <= n / d) as Hfl by (apply ulp_floor; lia).
    pose proof (v_small e Hek).
    assert (n / d <= v).
    { enough (n / d < v + 1) by lia. apply Z.div_lt_upper_bound; lia. }
    lia.
Qed.
End Representable.

(** ** Small numbers and clock readings *)

(** An int below [2^53] is converted to a float without rounding. *)
Lemma rnd_pos_int n : 0 <= n < 2 ^ 53 -> rnd_pos (n * UNIT) 1 = n * UNIT.
Proof.
  intros Hn. pose proof UNIT_pos. apply Z.le_antisymm; rewrite UNIT_pow.
  - apply rnd_pos_le; nia.
  - apply rnd_pos_ge; nia.
Qed.

Lemma rnd_ratio_int n : Z.abs n < 2 ^ 53 -> rnd_ratio (n * UNIT) 1 = n * UNIT.
Proof.
  intros Hn. pose proof UNIT_pos. unfold rnd_ratio.
  destruct (n * UNIT <? 0) eqn:E; bdestr.
  - replace (- (n * UNIT)) with (- n * UNIT) by lia.
    rewrite rnd_pos_int by nia. lia.
  - apply rnd_pos_int. nia.
Qed.

Lemma small_below_limit n : Z.abs n <= 2 ^ 53 -> Z.abs (n * UNIT) < FLOAT_LIMIT.
Proof.
  intros Hn. pose proof UNIT_pos. rewrite Z.abs_mul, (Z.abs_eq UNIT) by lia.
  apply Z.le_lt_trans with (2 ^ 53 * UNIT); [nia|].
  rewrite UNIT_pow. unfold FLOAT_LIMIT. rewrite <- Z.pow_add_r by lia.
  apply Z.pow_lt_mono_r; lia.
Qed.

(** A clock reading: a finite number below [2^53] seconds. *)
Definition clock_reading (x : pynum) (ticks : Z) : Prop :=
  finite x = Some ticks /\ 0 <= ticks < 2 ^ 53 * UNIT.

Lemma to_float_clock x t : clock_reading x t -> to_float x = FFin t.
Proof.
  intros [Hf Ht]. pose proof UNIT_pos. destruct x as [n|[z|s|]]; cbn in *;
    try discriminate; simplify_eq; [|done].
  unfold mk_float. rewrite rnd_ratio_int by nia.
  pose proof (small_below_limit n ltac:(nia)) as Hl.
  replace (FLOAT_LIMIT <=? Z.abs (n * UNIT)) with false; [done|].
  symmetry. by apply Z.leb_gt.
Qed.

(** A computed age that is below a whole number of seconds really is. *)
Lemma num_sub_lt_unit a b x y m :
  clock_reading a x -> clock_reading b y -> y <= x -> 0 <= m < 2 ^ 53 ->
  num_le (PInt m) (num_sub a b) = false -> x - y < m * UNIT.
Proof.
  intros Ha Hb Hyx Hm Hlt. pose proof UNIT_pos.
  destruct (Z.lt_ge_cases (x - y) (m * UNIT)) as [|Hge]; [done|exfalso].
  enough (num_le (PInt m) (num_sub a b) = true) by congruence. clear Hlt.
  unfold num_sub.
  assert (num_le (PInt m) (PFloat (float_sub (to_float a) (to_float b))) = true) as Hf.
  { rewrite (to_float_clock a x), (to_float_clock b y) by done. cbn.
    unfold mk_float, rnd_ratio.
    replace (x - y <? 0) with false by (symmetry; apply Z.ltb_ge; lia).
    assert (m * UNIT <= rnd_pos (x - y) 1) as Hr.
    { rewrite UNIT_pow. apply rnd_pos_ge; [lia..|]. rewrite <- UNIT_pow. lia. }
    destruct (FLOAT_LIMIT <=? _).
    - cbn. apply negb_true_iff, Z.ltb_ge. nia.
    - cbn. by apply Z.leb_le. }
  destruct a as [n|f], b as [n'|f']; try exact Hf.
  destruct Ha as [Ha _], Hb as [Hb _]. cbn in *. simplify_eq.
  apply Z.leb_le. nia.
Qed.

(** ** Dates and durations

    A [datetime] is a number of microseconds since 1970-01-01 UTC, with the UTC
    offset of an aware value; a naive value carries no offset and its
    microseconds are those of its wall clock. *)
Record datetime := { dt_us : Z; dt_offset : option Z }.

#[export] Instance datetime_eq_dec : EqDecision datetime.
Proof. solve_decision. Defined.

Definition SECOND : Z := 1000000.
(** [datetime.min] and [datetime.max] in UTC. *)
Definition DT_MIN : Z := -62135596800 * SECOND.
Definition DT_MAX : Z := 253402300800 * SECOND - 1.

Definition utc (us : Z) : datetime := {| dt_us := us; dt_offset := Some 0 |}.

(** [value.replace(tzinfo=UTC)] of a naive value, [value.astimezone(UTC)] of an
    aware one: both keep the microseconds of this representation. *)
Definition to_utc (d : datetime) : datetime := utc (dt_us d).

(** [d + timedelta(seconds=n)]; [None] is the [OverflowError]. *)
Definition add_seconds (d : datetime) (n : Z) : option datetime :=
  let us := dt_us d + n * SECOND in
  if (DT_MIN <=? us) && (us <=? DT_MAX) && (Z.abs n <=? 999999999 * 86400)
  then Some {| dt_us := us; dt_offset := dt_offset d |} else None.

(** [(a - b).total_seconds()]: the float next to the exact quotient. *)
Definition total_seconds (us : Z) : pynum :=
  PFloat (mk_float (us * UNIT) SECOND).

Lemma to_utc_idem d : to_utc (to_utc d) = to_utc d.
Proof. reflexivity. Qed.
#[export] Hint Rewrite to_utc_idem : pydb.

(** A duration of at least [m] whole seconds is reported as such, and one of at
    most [m] seconds never as more. *)
Lemma total_seconds_ge us m :
  0 <= m < 2 ^ 53 -> m * SECOND <= us -> num_le (PInt m) (total_seconds us) = true.
Proof.
  intros Hm Hus. pose proof UNIT_pos. unfold total_seconds, mk_float, rnd_ratio.
  replace (us * UNIT <? 0) with false
    by (symmetry; apply Z.ltb_ge; unfold SECOND in *; nia).
  assert (m * UNIT <= rnd_pos (us * UNIT) SECOND) as Hr.
  { rewrite UNIT_pow. apply rnd_pos_ge; [lia|lia|unfold SECOND; lia|].
    rewrite <- UNIT_pow. unfold SECOND in *. nia. }
  destruct (FLOAT_LIMIT <=? _); cbn.
  - apply negb_true_iff, Z.ltb_ge. nia.
  - by apply Z.leb_le.
Qed.

Lemma total_seconds_le us m :
  0 <= m < 2 ^ 53 -> 0 <= us <= m * SECOND ->
  num_le (total_seconds us) (PInt m) = true.
Proof.
  intros Hm Hus. pose proof UNIT_pos. unfold total_seconds, mk_float, rnd_ratio.
  replace (us * UNIT <? 0) with false by (symmetry; apply Z.ltb_ge; nia).
  assert (rnd_pos (us * UNIT) SECOND <= m * UNIT) as Hr.
  { rewrite UNIT_pow.
    apply rnd_pos_le; [lia|lia|unfold SECOND; lia|rewrite <- UNIT_pow; nia|].
    rewrite <- UNIT_pow. unfold SECOND in *. nia. }
  assert (0 <= rnd_pos (us * UNIT) SECOND) as H0.
  { replace 0 with (0 * 2 ^ 1074) by lia. apply rnd_pos_ge; unfold SECOND; nia. }
  pose proof (small_below_limit m ltac:(lia)) as Hl.
  replace (FLOAT_LIMIT <=? Z.abs (rnd_pos (us * UNIT) SECOND)) with false.
  - cbn. by apply Z.leb_le.
  - symmetry. apply Z.leb_gt. nia.
Qed.
