(* ===== verification/PyStr.v ===== *)
(** * Python strings

    A Python [str] is kept as the byte string of its UTF-8 encoding, so equality
    is Python's.  The methods the components call are defined here on that
    representation; [strip] removes all of Python's white space, [upper], [lower]
    and the digit tests follow Python on ASCII and leave other characters alone.  [fullmatch] runs the regular expressions
    of the sources by Brzozowski derivatives. *)
From Stdlib Require Import Ascii String.
From S2P Require Import Prelude.
#[local] Open Scope string_scope.
#[local] Open Scope list_scope.
#[local] Open Scope Z_scope.

(** stdpp keeps [append] folded; these strings are computed with. *)
#[global] Arguments String.append !_ _ /.

(** ** Characters *)
Definition code (c : ascii) : Z := Z.of_N (N_of_ascii c).
Definition chr (z : Z) : ascii := ascii_of_N (Z.to_N z).

Lemma chr_code c : chr (code c) = c.
Proof. unfold chr, code. rewrite N2Z.id. apply ascii_N_embedding. Qed.

Lemma code_chr z : 0 <= z < 256 -> code (chr z) = z.
Proof.
  intros Hz. unfold chr, code. rewrite N_ascii_embedding by lia. lia.
Qed.

Lemma code_range c : 0 <= code c < 256.
Proof. unfold code. pose proof (N_ascii_bounded c). lia. Qed.

Definition in_range (lo hi : Z) (c : ascii) : bool := (lo <=? code c) && (code c <=? hi).
Definition is_digit : ascii -> bool := in_range 48 57.
Definition is_lower : ascii -> bool := in_range 97 122.
Definition is_upper : ascii -> bool := in_range 65 90.
(** ASCII whitespace of [str.strip()]: tab to CR, FS to US, and space. *)
Definition is_space (c : ascii) : bool :=
  in_range 9 13 c || in_range 28 32 c.

Definition upper_char (c : ascii) : ascii :=
  if is_lower c then chr (code c - 32) else c.
Definition lower_char (c : ascii) : ascii :=
  if is_upper c then chr (code c + 32) else c.

Fixpoint smap (f : ascii -> ascii) (s : string) : string :=
  match s with
  | EmptyString => EmptyString
  | String c s => String (f c) (smap f s)
  end.

Fixpoint sall (p : ascii -> bool) (s : string) : bool :=
  match s with
  | EmptyString => true
  | String c s => p c && sall p s
  end.

(** ** Methods *)
Definition py_upper : string -> string := smap upper_char.
Definition py_lower : string -> string := smap lower_char.

(** The white space of [str.strip()] beyond ASCII, in UTF-8: U+0085, U+00A0,
    then U+1680, U+2000 to U+200A, U+2028, U+2029, U+202F, U+205F, U+3000. *)
Definition is_space2 (a b : ascii) : bool :=
  (code a =? 194) && ((code b =? 133) || (code b =? 160)).
Definition is_space3 (a b c : ascii) : bool :=
  ((code a =? 225) && (code b =? 154) && (code c =? 128))
  || ((code a =? 226) && (code b =? 128)
      && (in_range 128 138 c || (code c =? 168) || (code c =? 169) || (code c =? 175)))
  || ((code a =? 226) && (code b =? 129) && (code c =? 159))
  || ((code a =? 227) && (code b =? 128) && (code c =? 128)).

Fixpoint lstrip (s : string) : string :=
  match s with
  | EmptyString => EmptyString
  | String a s1 =>
      if is_space a then lstrip s1
      else match s1 with
           | EmptyString => s
           | String b s2 =>
               if is_space2 a b then lstrip s2
               else match s2 with
                    | EmptyString => s
                    | String c s3 => if is_space3 a b c then lstrip s3 else s
                    end
           end
  end.

(** The longest beginning that does not end in white space; a continuation
    byte never starts a space. *)
Fixpoint rstrip (s : string) : string :=
  match s with
  | EmptyString => EmptyString
  | String c s' =>
      match lstrip s with
      | EmptyString => EmptyString
      | _ => String c (rstrip s')
      end
  end.

Definition py_strip (s : string) : string := lstrip (rstrip s).

(** [len(s)]: the code points, that is the bytes that do not continue one. *)
Fixpoint py_len (s : string) : Z :=
  match s with
  | EmptyString => 0
  | String c s => (if in_range 128 191 c then 0 else 1) + py_len s
  end.

(** [s or d] and [not s]. *)
Definition empty_str (s : string) : bool := bool_decide (s = EmptyString).
Definition or_str (s d : string) : string := if empty_str s then d else s.

(** [s.isdigit()] and [int(s, 10)] of a string of digits. *)
Definition py_isdigit (s : string) : bool := negb (empty_str s) && sall is_digit s.

Fixpoint digits_value (acc : Z) (s : string) : Z :=
  match s with
  | EmptyString => acc
  | String c s => digits_value (acc * 10 + (code c - 48)) s
  end.

(** [int(s)] of a string of ASCII digits: an optional sign, and underscores
    only between digits; [None] is [ValueError]. *)
Definition MAX_STR_DIGITS : Z := 4300.

Fixpoint int_digits (after_digit : bool) (acc count : Z) (s : string) : option (Z * Z) :=
  match s with
  | EmptyString => if after_digit then Some (acc, count) else None
  | String c s =>
      if is_digit c then int_digits true (acc * 10 + (code c - 48)) (count + 1) s
      else if bool_decide (c = "_"%char) && after_digit then int_digits false acc count s
      else None
  end.

Definition py_int (s : string) : option Z :=
  let s := py_strip s in
  let '(sign, s) :=
    match s with
    | String "+"%char s' => (1, s')
    | String "-"%char s' => (-1, s')
    | _ => (1, s)
    end in
  match int_digits false 0 0 s with
  | Some (n, count) => if count <=? MAX_STR_DIGITS then Some (sign * n) else None
  | None => None
  end.

(** [s[:n]] on an ASCII string. *)
Definition py_take (n : nat) (s : string) : string := substring 0 n s.

Fixpoint starts_with (p s : string) : bool :=
  match p, s with
  | EmptyString, _ => true
  | String a p, String b s => bool_decide (a = b) && starts_with p s
  | _, EmptyString => false
  end.

(** [s.split(c)]: never empty. *)
Fixpoint split_on (c : ascii) (s : string) : list string :=
  match s with
  | EmptyString => [EmptyString]
  | String a s =>
      if bool_decide (a = c) then EmptyString :: split_on c s
      else match split_on c s with
           | w :: ws => String a w :: ws
           | [] => [String a EmptyString]
           end
  end.

(** ** Regular expressions *)
Inductive regex : Type :=
| RNone                      (* no string *)
| REps
| RChar (p : ascii -> bool)
| RCat (a b : regex)
| RAlt (a b : regex)
| RStar (a : regex).

Fixpoint nullable (r : regex) : bool :=
  match r with
  | RNone | RChar _ => false
  | REps | RStar _ => true
  | RCat a b => nullable a && nullable b
  | RAlt a b => nullable a || nullable b
  end.

(** Concatenation and alternation that drop dead branches. *)
Definition cat (a b : regex) : regex :=
  match a with
  | RNone => RNone
  | REps => b
  | _ => match b with RNone => RNone | _ => RCat a b end
  end.
Definition alt (a b : regex) : regex :=
  match a, b with
  | RNone, _ => b
  | _, RNone => a
  | _, _ => RAlt a b
  end.

Fixpoint deriv (c : ascii) (r : regex) : regex :=
  match r with
  | RNone | REps => RNone
  | RChar p => if p c then REps else RNone
  | RCat a b => alt (cat (deriv c a) b) (if nullable a then deriv c b else RNone)
  | RAlt a b => alt (deriv c a) (deriv c b)
  | RStar a => cat (deriv c a) (RStar a)
  end.

(** [re.fullmatch(r, s)]. *)
Fixpoint fullmatch (r : regex) (s : string) : bool :=
  match s with
  | EmptyString => nullable r
  | String c s => fullmatch (deriv c r) s
  end.

(** The language of a regular expression, and the matcher's correctness. *)
Inductive matches : regex -> string -> Prop :=
| m_eps : matches REps EmptyString
| m_char p c : p c = true -> matches (RChar p) (String c EmptyString)
| m_cat a b s t : matches a s -> matches b t -> matches (RCat a b) (s ++ t)%string
| m_altl a b s : matches a s -> matches (RAlt a b) s
| m_altr a b s : matches b s -> matches (RAlt a b) s
| m_star0 a : matches (RStar a) EmptyString
| m_star a s t : matches a s -> matches (RStar a) t -> matches (RStar a) (s ++ t)%string.
#[export] Hint Constructors matches : py.

(** Shorthands for the sources' patterns. *)
Fixpoint rep (n : nat) (r : regex) : regex :=
  match n with O => REps | S n => RCat r (rep n r) end.
Fixpoint upto (n : nat) (r : regex) : regex :=
  match n with O => REps | S n => RAlt REps (RCat r (upto n r)) end.
Definition lit (c : ascii) : regex := RChar (fun x => bool_decide (x = c)).
Definition is_hex (c : ascii) : bool := is_digit c || in_range 97 102 c.
Definition hex (n : nat) : regex := rep n (RChar is_hex).

(** [re.fullmatch(r"[a-f0-9]{n}", s)]. *)
Definition is_hex_string (n : nat) (s : string) : bool := fullmatch (hex n) s.

Lemma app_nil_str (s : string) : (s ++ EmptyString)%string = s.
Proof. induction s; cbn; congruence. Qed.

Lemma nullable_spec r : nullable r = true <-> matches r EmptyString.
Proof.
  split.
  - induction r; cbn; intros; bdestr; try discriminate; auto with py.
    + change EmptyString with (EmptyString ++ EmptyString)%string. auto with py.
    + apply orb_true_iff in H as []; auto with py.
  - remember EmptyString as e eqn:He. induction 1; cbn; auto; try discriminate.
    + destruct s; [|discriminate]. cbn in He. by rewrite IHmatches1, IHmatches2.
    + by rewrite IHmatches.
    + rewrite IHmatches by done. apply orb_true_r.
Qed.

Lemma matches_cat a b s : matches (cat a b) s <-> matches (RCat a b) s.
Proof.
  split.
  - destruct a; cbn.
    2: { intros H. apply (m_cat REps b EmptyString s); auto with py. }
    1: { inversion 1. }
    all: destruct b; auto; inversion 1.
  - inversion 1 as [| |x1 x2 u t Ha Hb Hx Hs| | | |]; subst.
    destruct a; cbn.
    1: { inversion Ha. }
    1: { inversion Ha; subst. done. }
    all: destruct b; auto with py; inversion Hb.
Qed.

Lemma matches_alt a b s : matches (alt a b) s <-> matches a s \/ matches b s.
Proof.
  split.
  - unfold alt. destruct a, b; auto; inversion 1; subst; auto.
  - unfold alt. intros [H|H]; destruct a, b; auto with py; inversion H.
Qed.

Lemma star_inv a c s :
  matches (RStar a) (String c s) ->
  exists u v, s = (u ++ v)%string /\ matches a (String c u) /\ matches (RStar a) v.
Proof.
  intros H. remember (RStar a) as r eqn:Hr. remember (String c s) as w eqn:Hw.
  revert s Hw. induction H; intros s' Hw; try discriminate; simplify_eq.
  destruct s as [|c' u]; cbn in Hw; [eauto|]. simplify_eq. eauto 6.
Qed.

Lemma deriv_spec c r s : matches (deriv c r) s <-> matches r (String c s).
Proof.
  revert s. induction r as [| |p|a IHa b IHb|a IHa b IHb|a IHa]; intros s; cbn.
  - split; inversion 1.
  - split; inversion 1.
  - destruct (p c) eqn:E; split; inversion 1; subst; auto with py; congruence.
  - rewrite matches_alt, matches_cat. split.
    + intros [H|H].
      * inversion H as [| |x1 x2 u t Ha Hb Hx Hs| | | |]; subst. apply IHa in Ha.
        change (String c (u ++ t)) with (String c u ++ t)%string. auto with py.
      * destruct (nullable a) eqn:E; [|inversion H].
        apply IHb in H. apply nullable_spec in E.
        change (String c s) with (EmptyString ++ String c s)%string. auto with py.
    + inversion 1 as [| |x1 x2 u t Ha Hb Hx Hs| | | |]; subst.
      destruct u as [|c' u]; cbn in Hs; simplify_eq.
      * right. apply nullable_spec in Ha. rewrite Ha. by apply IHb.
      * left. constructor; [by apply IHa|done].
  - rewrite matches_alt, IHa, IHb. split; [intros []; auto with py|].
    inversion 1; auto.
  - rewrite matches_cat. split.
    + inversion 1 as [| |x1 x2 u t Ha Hb Hx Hs| | | |]; subst. apply IHa in Ha.
      change (String c (u ++ t)) with (String c u ++ t)%string. auto with py.
    + intros H. apply star_inv in H as (u & v & -> & Hu & Hv).
      constructor; [by apply IHa|done].
Qed.

(** [fullmatch] decides the language of the pattern. *)
Lemma fullmatch_spec r s : fullmatch r s = true <-> matches r s.
Proof.
  revert r. induction s as [|c s IH]; intros r; cbn.
  - apply nullable_spec.
  - rewrite IH. apply deriv_spec.
Qed.

(** ** Characters and lengths of the strings a pattern accepts *)
Fixpoint chars_in (p : ascii -> bool) (r : regex) : Prop :=
  match r with
  | RNone | REps => True
  | RChar q => forall c, q c = true -> p c = true
  | RCat a b | RAlt a b => chars_in p a /\ chars_in p b
  | RStar a => chars_in p a
  end.

Lemma sall_app p s t : sall p (s ++ t) = sall p s && sall p t.
Proof. induction s; cbn; [done|]. by rewrite IHs, andb_assoc. Qed.

Lemma sall_impl (p q : ascii -> bool) s :
  (forall c, p c = true -> q c = true) -> sall p s = true -> sall q s = true.
Proof.
  intros Hpq. induction s as [|c s IH]; cbn; [done|].
  rewrite !andb_true_iff. naive_solver.
Qed.

Lemma matches_chars p r s : chars_in p r -> matches r s -> sall p s = true.
Proof.
  intros Hp. induction 1; cbn in *; try tauto.
  - by rewrite Hp.
  - destruct Hp. rewrite sall_app, andb_true_iff. auto.
  - rewrite sall_app, andb_true_iff. auto.
Qed.

Lemma chars_in_rep p n q :
  (forall c, q c = true -> p c = true) -> chars_in p (rep n (RChar q)).
Proof. intros H. by induction n. Qed.

(** The longest match; a pattern with a star has none. *)
Fixpoint max_len (r : regex) : option nat :=
  match r with
  | RNone | REps => Some 0%nat
  | RChar _ => Some 1%nat
  | RCat a b => match max_len a, max_len b with
                | Some x, Some y => Some (x + y)%nat | _, _ => None end
  | RAlt a b => match max_len a, max_len b with
                | Some x, Some y => Some (Nat.max x y) | _, _ => None end
  | RStar _ => None
  end.

Lemma length_app_str s t : String.length (s ++ t) = (String.length s + String.length t)%nat.
Proof. induction s; cbn; congruence. Qed.

Lemma matches_max_len r s n :
  matches r s -> max_len r = Some n -> (String.length s <= n)%nat.
Proof.
  intros H. revert n. induction H; intros n Hn; cbn in *; simplify_eq; try (cbn; lia).
  - destruct (max_len a) as [x|], (max_len b) as [y|]; simplify_eq.
    rewrite length_app_str. specialize (IHmatches1 x eq_refl).
    specialize (IHmatches2 y eq_refl). lia.
  - destruct (max_len a) as [x|], (max_len b) as [y|]; simplify_eq.
    specialize (IHmatches x eq_refl). lia.
  - destruct (max_len a) as [x|], (max_len b) as [y|]; simplify_eq.
    specialize (IHmatches y eq_refl). lia.
Qed.

(** ** Stripped strings

    [lstrip s = ""] says that [s] is white space; a string is its stripped beginning and
    white space. *)
Lemma lstrip_cases s :
  lstrip s = s \/
  (exists a t, s = String a t /\ is_space a = true /\ lstrip s = lstrip t) \/
  (exists a b t, s = String a (String b t) /\ is_space a = false /\ is_space2 a b = true /\ lstrip s = lstrip t) \/
  (exists a b c t, s = String a (String b (String c t)) /\ is_space a = false /\ is_space2 a b = false /\ is_space3 a b c = true
     /\ lstrip s = lstrip t).
Proof.
  destruct s as [|a s]; [by left|]. cbn [lstrip]. destruct (is_space a) eqn:E1; [right; left; eauto|].
  destruct s as [|b s]; [by left|]. destruct (is_space2 a b) eqn:E2; [right; right; left; eauto 10|].
  destruct s as [|c s]; [by left|]. destruct (is_space3 a b c) eqn:E3; [right; right; right; eauto 10|by left].
Qed.


(** Induction along [lstrip]. *)
Lemma lstrip_ind (P : string -> Prop) :
  (forall s, lstrip s = s -> P s) ->
  (forall a t, is_space a = true -> P t -> P (String a t)) ->
  (forall a b t, is_space a = false -> is_space2 a b = true -> P t -> P (String a (String b t))) ->
  (forall a b c t, is_space a = false -> is_space2 a b = false -> is_space3 a b c = true -> P t ->
     P (String a (String b (String c t)))) ->
  forall s, P s.
Proof.
  intros H0 H1 H2 H3 s. assert (forall n s, (String.length s < n)%nat -> P s) as H; [|by apply (H (S (String.length s))); lia].
  clear s. induction n as [|n IH]; intros s Hs; [lia|].
  destruct (lstrip_cases s) as [E|[(a & t & -> & E & _)|[(a & b & t & -> & E1 & E2 & _)|(a & b & c & t & -> & E1 & E2 & E3 & _)]]].
  - by apply H0.
  - apply H1; [done|]. apply IH. cbn in Hs. lia.
  - apply H2; try done. apply IH. cbn in Hs. lia.
  - apply H3; try done. apply IH. cbn in Hs. lia.
Qed.

Lemma lstrip_app u w : lstrip u = EmptyString -> lstrip (u ++ w)%string = lstrip w.
Proof.
  induction u as [u E|a t E1 IH|a b t E1 E2 IH|a b c t E1 E2 E3 IH] using lstrip_ind; intros H.
  - rewrite E in H. by subst u.
  - cbn in H |- *. rewrite E1 in H |- *. by apply IH.
  - cbn in H |- *. rewrite E1, E2 in H |- *. by apply IH.
  - cbn in H |- *. rewrite E1, E2, E3 in H |- *. by apply IH.
Qed.

Lemma lstrip_suffix s : exists u, s = (u ++ lstrip s)%string.
Proof.
  induction s as [u E|a t E1 [u IH]|a b t E1 E2 [u IH]|a b c t E1 E2 E3 [u IH]] using lstrip_ind.
  - exists EmptyString. by rewrite E.
  - exists (String a u). cbn. rewrite E1. by rewrite <- IH.
  - exists (String a (String b u)). cbn. rewrite E1, E2. by rewrite <- IH.
  - exists (String a (String b (String c u))). cbn. rewrite E1, E2, E3. by rewrite <- IH.
Qed.

Lemma rstrip_prefix s : exists w, s = (rstrip s ++ w)%string /\ lstrip w = EmptyString.
Proof.
  induction s as [|a s (w & E & Hw)]; [by exists EmptyString|]. cbn [rstrip].
  destruct (lstrip (String a s)) eqn:El; [exists (String a s); by rewrite El|].
  exists w. cbn [String.append]. by rewrite <- E.
Qed.

Lemma rstrip_cons c s : lstrip (String c s) <> EmptyString -> rstrip (String c s) = String c (rstrip s).
Proof. intros H. cbn [rstrip]. by destruct (lstrip (String c s)). Qed.

Lemma rstrip_idem s : rstrip (rstrip s) = rstrip s.
Proof.
  induction s as [|a s IH]; [done|]. destruct (decide (lstrip (String a s) = EmptyString)) as [E|E].
  - cbn [rstrip]. by rewrite E.
  - rewrite (rstrip_cons a s E). rewrite rstrip_cons; [by rewrite IH|]. intros E'. apply E.
    destruct (rstrip_prefix s) as (w & Es & Hw). rewrite Es.
    change (String a (rstrip s ++ w)%string) with (String a (rstrip s) ++ w)%string. by rewrite (lstrip_app _ _ E').
Qed.

(** Nothing at the end of a suffix either. *)
Lemma rstrip_fixed_app u s : rstrip (u ++ s)%string = (u ++ s)%string -> rstrip s = s.
Proof.
  induction u as [|a u IH]; [done|]. cbn [String.append]. intros H. apply IH.
  destruct (decide (lstrip (String a (u ++ s)%string) = EmptyString)) as [E|E].
  - cbn [rstrip] in H. rewrite E in H. discriminate H.
  - rewrite (rstrip_cons _ _ E) in H. by injection H.
Qed.

Lemma lstrip_idem s : lstrip (lstrip s) = lstrip s.
Proof.
  induction s as [u E|a t E1 IH|a b t E1 E2 IH|a b c t E1 E2 E3 IH] using lstrip_ind.
  - by rewrite !E.
  - cbn [lstrip]. by rewrite E1.
  - cbn [lstrip]. by rewrite E1, E2.
  - cbn [lstrip]. by rewrite E1, E2, E3.
Qed.

Lemma strip_fixed s : py_strip s = s <-> rstrip s = s /\ lstrip s = s.
Proof.
  unfold py_strip. split; [|by intros [-> ->]]. intros H.
  assert (forall t, (String.length (lstrip t) <= String.length t)%nat) as Hl.
  { intros t. destruct (lstrip_suffix t) as (u & E). rewrite E at 2. clear E. induction u; cbn; lia. }
  destruct (rstrip_prefix s) as (w & E & _).
  assert (w = EmptyString) as ->.
  { destruct w as [|c w]; [done|]. exfalso. specialize (Hl (rstrip s)). rewrite H in Hl. rewrite E in Hl at 1. clear -Hl.
    induction (rstrip s); cbn in *; lia. }
  assert (rstrip s = s) as Hr. { rewrite E at 2. clear. by induction (rstrip s) as [|c t IH]; cbn; [|rewrite <- IH]. }
  split; [done|]. by rewrite Hr in H.
Qed.

Lemma strip_idem s : py_strip (py_strip s) = py_strip s.
Proof.
  apply strip_fixed. unfold py_strip. split; [|apply lstrip_idem].
  destruct (lstrip_suffix (rstrip s)) as (u & E). apply (rstrip_fixed_app u). rewrite <- E. apply rstrip_idem.
Qed.

(** Text of ASCII characters none of which is white space. *)
Definition tidy (s : string) : bool := sall (fun c => negb (is_space c) && (code c <? 128)) s.

Lemma lstrip_tidy a s : negb (is_space a) && (code a <? 128) = true -> lstrip (String a s) = String a s.
Proof.
  intros [Ha Hc]%andb_true_iff. apply negb_true_iff in Ha. apply Z.ltb_lt in Hc. cbn [lstrip]. rewrite Ha.
  assert (forall b, is_space2 a b = false) as H2 by (intros b; unfold is_space2; replace (code a =? 194) with false; [done|symmetry; apply Z.eqb_neq; lia]).
  destruct s as [|b s]; [done|]. rewrite H2. destruct s as [|c s]; [done|].
  replace (is_space3 a b c) with false; [done|]. unfold is_space3.
  replace (code a =? 225) with false by (symmetry; apply Z.eqb_neq; lia). replace (code a =? 226) with false by (symmetry; apply Z.eqb_neq; lia).
  replace (code a =? 227) with false by (symmetry; apply Z.eqb_neq; lia). done.
Qed.

Lemma strip_tidy_app u w : u <> EmptyString -> tidy u = true -> rstrip w = w -> py_strip (u ++ w)%string = (u ++ w)%string.
Proof.
  intros Hu Ht Hw. apply strip_fixed. split.
  - clear Hu. induction u as [|a u IH]; [done|]. cbn in Ht. apply andb_true_iff in Ht as [Ha Ht]. cbn [String.append].
    rewrite rstrip_cons; [by rewrite IH|]. by rewrite (lstrip_tidy a _ Ha).
  - destruct u as [|a u]; [done|]. cbn in Ht. apply andb_true_iff in Ht as [Ha _]. cbn [String.append]. by apply lstrip_tidy.
Qed.
