(* ===== verification/Json.v ===== *)
(** * JSON documents

    [json.loads] of a byte string with an [object_pairs_hook], and the compact
    [json.dumps] the host journal writes.  The components that read private
    files and local sockets (the update protocol and journal, the AirPlay
    control lease and native-group cursor) all go through this reader, so
    malformed, duplicated and non-ASCII input is part of their models.

    Bytes and strings are Rocq byte strings; the reader works on the list of
    code points of the decoded document.  The interpreter's nesting limit
    ([RecursionError]) is not modelled. *)
From Stdlib Require Import Ascii String.
From S2P Require Import Prelude PyNum PyStr.
#[local] Open Scope string_scope.
#[local] Open Scope list_scope.
#[local] Open Scope Z_scope.

#[global] Arguments String.append !_ _ /.

#[warnings="-register-all"]
Inductive json : Type :=
| JNull
| JBool (b : bool)
| JNum (n : pynum)
| JStr (s : string)
| JList (l : list json)
| JObj (kvs : list (string * json)).

(** Induction through the nested lists. *)
Section JsonInd.
Context (P : json -> Prop).
Hypothesis Hnull : P JNull.
Hypothesis Hbool : forall b, P (JBool b).
Hypothesis Hnum : forall n, P (JNum n).
Hypothesis Hstr : forall s, P (JStr s).
Hypothesis Hlist : forall l, Forall P l -> P (JList l).
Hypothesis Hobj : forall kvs, Forall (fun kv => P kv.2) kvs -> P (JObj kvs).

Fixpoint json_ind' (v : json) : P v :=
  match v with
  | JNull => Hnull
  | JBool b => Hbool b
  | JNum n => Hnum n
  | JStr s => Hstr s
  | JList l =>
      Hlist l ((fix go (l : list json) : Forall P l :=
        match l with
        | [] => List.Forall_nil _
        | v :: l => List.Forall_cons _ _ _ (json_ind' v) (go l)
        end) l)
  | JObj kvs =>
      Hobj kvs ((fix go (l : list (string * json)) : Forall (fun kv => P kv.2) l :=
        match l with
        | [] => List.Forall_nil _
        | kv :: l => List.Forall_cons _ _ _ (json_ind' kv.2) (go l)
        end) kvs)
  end.
End JsonInd.

(** ** Text encodings *)
Fixpoint bytes_of (s : string) : list Z :=
  match s with EmptyString => [] | String c s => code c :: bytes_of s end.

Fixpoint string_of (l : list Z) : string :=
  match l with [] => EmptyString | z :: l => String (chr z) (string_of l) end.

Definition is_cont (b : Z) : bool := (128 <=? b) && (b <=? 191).
Definition is_high (u : Z) : bool := (55296 <=? u) && (u <=? 56319).
Definition is_low (u : Z) : bool := (56320 <=? u) && (u <=? 57343).
Definition join_surrogates (h l : Z) : Z := 65536 + (h - 55296) * 1024 + (l - 56320).

(** [bytes.decode("utf-8", "surrogatepass")]. *)
Fixpoint utf8_decode (l : list Z) : option (list Z) :=
  match l with
  | [] => Some []
  | a :: l1 =>
      if a <? 128 then cons a <$> utf8_decode l1
      else if a <? 194 then None
      else match l1 with
      | [] => None
      | b :: l2 =>
          if negb (is_cont b) then None
          else if a <? 224 then
            cons ((a - 192) * 64 + (b - 128)) <$> utf8_decode l2
          else match l2 with
          | [] => None
          | c :: l3 =>
              if negb (is_cont c) then None
              else if a <? 240 then
                let u := (a - 224) * 4096 + (b - 128) * 64 + (c - 128) in
                if u <? 2048 then None else cons u <$> utf8_decode l3
              else match l3 with
              | [] => None
              | d :: l4 =>
                  let u := (a - 240) * 262144 + (b - 128) * 4096
                           + (c - 128) * 64 + (d - 128) in
                  if is_cont d && (65536 <=? u) && (u <=? 1114111)
                  then cons u <$> utf8_decode l4 else None
              end
          end
      end
  end.

(** [bytes.decode("utf-8")]: strict, an encoded surrogate is an error. *)
Definition utf8_strict (l : list Z) : option (list Z) :=
  t ← utf8_decode l; if existsb (fun u => is_high u || is_low u) t then None else Some t.

(** The UTF-8 bytes of one code point, surrogates included. *)
Definition utf8_encode (u : Z) : string :=
  if u <? 128 then string_of [u]
  else if u <? 2048 then string_of [192 + u / 64; 128 + u mod 64]
  else if u <? 65536 then
    string_of [224 + u / 4096; 128 + (u / 64) mod 64; 128 + u mod 64]
  else string_of [240 + u / 262144; 128 + (u / 4096) mod 64;
                  128 + (u / 64) mod 64; 128 + u mod 64].

Definition str_of_points (l : list Z) : string :=
  fold_right (fun u s => (utf8_encode u ++ s)%string) EmptyString l.

(** UTF-16 and UTF-32 code units, little or big endian. *)
Fixpoint units16 (le : bool) (l : list Z) : option (list Z) :=
  match l with
  | [] => Some []
  | a :: b :: l => cons (if le then a + 256 * b else 256 * a + b) <$> units16 le l
  | _ => None
  end.

Fixpoint pair_units (l : list Z) : list Z :=
  match l with
  | [] => []
  | h :: l1 =>
      match l1 with
      | lo :: l2 => if is_high h && is_low lo
                    then join_surrogates h lo :: pair_units l2
                    else h :: pair_units l1
      | [] => [h]
      end
  end.

Fixpoint units32 (le : bool) (l : list Z) : option (list Z) :=
  match l with
  | [] => Some []
  | a :: b :: c :: d :: l =>
      let u := if le then a + 256 * b + 65536 * c + 16777216 * d
               else 16777216 * a + 65536 * b + 256 * c + d in
      if u <=? 1114111 then cons u <$> units32 le l else None
  | _ => None
  end.

Definition utf16_decode (le : bool) (l : list Z) : option (list Z) :=
  pair_units <$> units16 le l.

Fixpoint strip_prefix (p s : list Z) : option (list Z) :=
  match p, s with
  | [], _ => Some s
  | a :: p, b :: s => if a =? b then strip_prefix p s else None
  | _, [] => None
  end.

(** [json.detect_encoding] followed by the decoding: first the byte-order
    marks, then the position of the zero bytes. *)
Definition decode_document (raw : list Z) : option (list Z) :=
  match strip_prefix [0; 0; 254; 255] raw, strip_prefix [255; 254; 0; 0] raw with
  | Some l, _ => units32 false l
  | None, Some l => units32 true l
  | None, None =>
  match strip_prefix [254; 255] raw, strip_prefix [255; 254] raw with
  | Some l, _ => utf16_decode false l
  | None, Some l => utf16_decode true l
  | None, None =>
  match strip_prefix [239; 187; 191] raw with
  | Some l => utf8_decode l
  | None =>
  match raw with
  | a :: b :: c :: d :: _ =>
      if a =? 0 then if b =? 0 then units32 false raw else utf16_decode false raw
      else if b =? 0 then
        if (c =? 0) && (d =? 0) then units32 true raw else utf16_decode true raw
      else utf8_decode raw
  | [a; b] =>
      if a =? 0 then utf16_decode false raw
      else if b =? 0 then utf16_decode true raw
      else utf8_decode raw
  | _ => utf8_decode raw
  end end end end.

(** ** The scanner *)
Definition is_ws (c : Z) : bool := (c =? 32) || (c =? 9) || (c =? 10) || (c =? 13).

Fixpoint skip_ws (s : list Z) : list Z :=
  match s with
  | c :: s' => if is_ws c then skip_ws s' else s
  | [] => []
  end.

Definition is_dig (c : Z) : bool := (48 <=? c) && (c <=? 57).

Fixpoint span_digits (s : list Z) : list Z * list Z :=
  match s with
  | c :: s' => if is_dig c then let '(d, r) := span_digits s' in (c :: d, r)
               else ([], s)
  | [] => ([], [])
  end.

Definition digits_of (acc : Z) (d : list Z) : Z :=
  fold_left (fun a c => a * 10 + (c - 48)) d acc.

Definition hex_digit (c : Z) : option Z :=
  if is_dig c then Some (c - 48)
  else if (97 <=? c) && (c <=? 102) then Some (c - 87)
  else if (65 <=? c) && (c <=? 70) then Some (c - 55)
  else None.

Definition hex4 (a b c d : Z) : option Z :=
  a' ← hex_digit a; b' ← hex_digit b; c' ← hex_digit c; d' ← hex_digit d;
  Some (((a' * 16 + b') * 16 + c') * 16 + d').

Definition simple_escape (c : Z) : option Z :=
  if (c =? 34) || (c =? 92) || (c =? 47) then Some c
  else if c =? 98 then Some 8
  else if c =? 102 then Some 12
  else if c =? 110 then Some 10
  else if c =? 114 then Some 13
  else if c =? 116 then Some 9
  else None.

(** The body of a string literal after its opening quote: the code points and
    the text after the closing quote. *)
Fixpoint scan_string (s : list Z) : option (list Z * list Z) :=
  match s with
  | [] => None
  | c :: s1 =>
      if c =? 34 then Some ([], s1)
      else if c =? 92 then
        match s1 with
        | [] => None
        | e :: s2 =>
            if e =? 117 then
              match s2 with
              | a :: b :: c2 :: d :: s3 =>
                  match hex4 a b c2 d with
                  | None => None
                  | Some u =>
                      let one := prod_map (cons u) id <$> scan_string s3 in
                      if is_high u then
                        match s3 with
                        | bs :: uu :: a2 :: b2 :: c3 :: d2 :: s4 =>
                            if (bs =? 92) && (uu =? 117) then
                              match hex4 a2 b2 c3 d2 with
                              | None => None
                              | Some u2 =>
                                  if is_low u2
                                  then prod_map (cons (join_surrogates u u2)) id
                                         <$> scan_string s4
                                  else one
                              end
                            else one
                        | _ => one
                        end
                      else one
                  end
              | _ => None
              end
            else match simple_escape e with
                 | Some u => prod_map (cons u) id <$> scan_string s2
                 | None => None
                 end
        end
      else if c <? 32 then None
      else prod_map (cons c) id <$> scan_string s1
  end.

(** [int(text)] refuses more than 4300 digits. *)
Definition MAX_INT_DIGITS : nat := 4300.

(** The float literal [(-1)^neg * digits * 10^exp]. *)
Definition float_literal (neg : bool) (digits exp : Z) : pyfloat :=
  let f := if exp <? 0 then mk_float (digits * UNIT) (10 ^ (- exp))
           else mk_float (digits * UNIT * 10 ^ exp) 1 in
  match f with
  | FFin z => FFin (if neg then - z else z)
  | FInf _ => FInf neg
  | FNaN => FNaN
  end.

(** [.digits] when at least one digit follows, and [e[+-]digits] likewise. *)
Definition scan_fraction (s : list Z) : option (list Z) * list Z :=
  match s with
  | c :: s1 =>
      if c =? 46 then
        match span_digits s1 with
        | ([], _) => (None, s)
        | (d, r) => (Some d, r)
        end
      else (None, s)
  | [] => (None, s)
  end.

Definition scan_exponent (s : list Z) : option Z * list Z :=
  match s with
  | c :: s1 =>
      if (c =? 101) || (c =? 69) then
        let '(sg, s2) := match s1 with
                         | x :: s2 => if x =? 45 then (-1, s2)
                                      else if x =? 43 then (1, s2) else (1, s1)
                         | [] => (1, s1)
                         end in
        match span_digits s2 with
        | ([], _) => (None, s)
        | (d, r) => (Some (sg * digits_of 0 d), r)
        end
      else (None, s)
  | [] => (None, s)
  end.

Definition scan_number (s : list Z) : option (pynum * list Z) :=
  let '(neg, s1) := match s with
                    | c :: s1 => if c =? 45 then (true, s1) else (false, s)
                    | [] => (false, s)
                    end in
  let int_part :=
    match s1 with
    | c :: s2 => if c =? 48 then Some ([c], s2)
                 else if is_dig c then Some (span_digits s1) else None
    | [] => None
    end in
  match int_part with
  | None => None
  | Some (ds, r) =>
      let '(frac, r1) := scan_fraction r in
      let '(exp, r2) := scan_exponent r1 in
      match frac, exp with
      | None, None =>
          if (length ds <=? MAX_INT_DIGITS)%nat then
            let n := digits_of 0 ds in
            Some (PInt (if neg then - n else n), r2)
          else None
      | _, _ =>
          let fr := default [] frac in
          Some (PFloat (float_literal neg (digits_of 0 (ds ++ fr))
                  (default 0 exp - Z.of_nat (length fr))), r2)
      end
  end.

(** The literal words: [null], [true], [false], [NaN], [Infinity] and
    [-Infinity]. *)
Definition WORDS : list (list Z * json) :=
  [([110; 117; 108; 108], JNull);
   ([116; 114; 117; 101], JBool true);
   ([102; 97; 108; 115; 101], JBool false);
   ([78; 97; 78], JNum (PFloat FNaN));
   ([73; 110; 102; 105; 110; 105; 116; 121], JNum (PFloat (FInf false)));
   ([45; 73; 110; 102; 105; 110; 105; 116; 121], JNum (PFloat (FInf true)))].

Fixpoint scan_word (ws : list (list Z * json)) (s : list Z) : option (json * list Z) :=
  match ws with
  | [] => None
  | (w, v) :: ws =>
      match strip_prefix w s with
      | Some r => Some (v, r)
      | None => scan_word ws s
      end
  end.

Definition scan_key (s : list Z) : option (string * list Z) :=
  match s with
  | c :: s1 => if c =? 34
               then prod_map str_of_points id <$> scan_string s1 else None
  | [] => None
  end.

Definition eat (c : Z) (s : list Z) : option (list Z) :=
  match s with
  | x :: s1 => if x =? c then Some s1 else None
  | [] => None
  end.

(** One value, the members of an object and the elements of an array, each
    starting at a character that is not white space.  [hook] is the
    [object_pairs_hook]; [None] is its exception. *)
Section Parser.
Context (hook : list (string * json) -> option (list (string * json))).

Fixpoint parse (n : nat) (s : list Z) : option (json * list Z) :=
  match n with
  | O => None
  | S n =>
      match s with
      | [] => None
      | c :: s1 =>
          if c =? 34 then
            prod_map (fun l => JStr (str_of_points l)) id <$> scan_string s1
          else if c =? 123 then
            match eat 125 (skip_ws s1) with
            | Some r => kvs ← hook []; Some (JObj kvs, r)
            | None =>
                '(kvs, r) ← members n (skip_ws s1);
                kvs ← hook kvs; Some (JObj kvs, r)
            end
          else if c =? 91 then
            match eat 93 (skip_ws s1) with
            | Some r => Some (JList [], r)
            | None => '(l, r) ← elements n (skip_ws s1); Some (JList l, r)
            end
          else match scan_word WORDS s with
               | Some x => Some x
               | None => '(x, r) ← scan_number s; Some (JNum x, r)
               end
      end
  end
with members (n : nat) (s : list Z) : option (list (string * json) * list Z) :=
  match n with
  | O => None
  | S n =>
      '(k, r) ← scan_key s;
      r ← eat 58 (skip_ws r);
      '(v, r) ← parse n (skip_ws r);
      let r := skip_ws r in
      match eat 44 r with
      | Some r => '(kvs, r) ← members n (skip_ws r); Some ((k, v) :: kvs, r)
      | None => r ← eat 125 r; Some ([(k, v)], r)
      end
  end
with elements (n : nat) (s : list Z) : option (list json * list Z) :=
  match n with
  | O => None
  | S n =>
      '(v, r) ← parse n s;
      let r := skip_ws r in
      match eat 44 r with
      | Some r => '(l, r) ← elements n (skip_ws r); Some (v :: l, r)
      | None => r ← eat 93 r; Some ([v], r)
      end
  end.

(** [json.loads(raw, object_pairs_hook=hook)]. *)
Definition loads (raw : string) : option json :=
  doc ← decode_document (bytes_of raw);
  let s := skip_ws doc in
  '(v, r) ← parse (2 * length s + 2) s;
  match skip_ws r with [] => Some v | _ => None end.
End Parser.

(** [json.loads(text, object_pairs_hook=hook)] of a [str]: no detection of the
    encoding, and a leading byte-order mark is refused. *)
Definition loads_text hook (text : string) : option json :=
  doc ← utf8_decode (bytes_of text);
  let s := skip_ws doc in
  if bool_decide (head doc = Some 65279) then None else
  '(v, r) ← parse hook (2 * length s + 2) s;
  match skip_ws r with [] => Some v | _ => None end.

(** The hook of every reader in the sources: a repeated key raises. *)
Definition unique_pairs (kvs : list (string * json)) : option (list (string * json)) :=
  if distinct (kvs.*1) then Some kvs else None.

(** Without a hook a later value replaces an earlier one in place. *)
Definition dict_pairs (kvs : list (string * json)) : option (list (string * json)) :=
  Some (fold_left (fun d kv =>
    if bool_decide (kv.1 ∈ d.*1)
    then map (fun x => if bool_decide (x.1 = kv.1) then kv else x) d
    else d ++ [kv]) kvs []).

(** [d.get(k)] and the key set of a decoded object. *)
Fixpoint get (k : string) (kvs : list (string * json)) : option json :=
  match kvs with
  | [] => None
  | (k', v) :: kvs => if bool_decide (k = k') then Some v else get k kvs
  end.

(** ** Values of a document *)
Definition truthy (v : json) : bool :=
  match v with
  | JNull => false
  | JBool b => b
  | JNum n => negb (num_eq n (PInt 0))
  | JStr s => negb (empty_str s)
  | JList l => match l with [] => false | _ => true end
  | JObj kvs => match kvs with [] => false | _ => true end
  end.

(** [int(value)]: [Ok None] is a [TypeError] or a [ValueError], [Err tt] the
    [OverflowError] of an infinity. *)
Definition int_of (v : json) : res unit (option Z) :=
  match v with
  | JNum (PInt n) => Ok (Some n)
  | JNum (PFloat (FFin t)) => Ok (Some (Z.quot t UNIT))
  | JNum (PFloat (FInf _)) => Err tt
  | JNum (PFloat FNaN) => Ok None
  | JStr s => Ok (py_int s)
  | JBool b => Ok (Some (if b then 1 else 0))
  | JNull | JList _ | JObj _ => Ok None
  end.

(** ** Writing: [json.dumps(v, sort_keys=True, separators=(",", ":"))] *)
Fixpoint digits (f : nat) (n : Z) (acc : list Z) : list Z :=
  match f with
  | O => acc
  | S f => if n <? 10 then (48 + n) :: acc
           else digits f (n / 10) ((48 + n mod 10) :: acc)
  end.

(** Enough steps for every digit: [n < 10^f]. *)
Definition digit_fuel (n : Z) : nat := S (Z.to_nat (Z.log2 n)).

Definition print_int (n : Z) : list Z :=
  if n <? 0 then 45 :: digits (digit_fuel (- n)) (- n) []
  else digits (digit_fuel n) n [].

Definition hex_char (n : Z) : Z := if n <? 10 then 48 + n else 87 + n.

Definition u_escape (u : Z) : list Z :=
  [92; 117; hex_char (u / 4096); hex_char ((u / 256) mod 16);
   hex_char ((u / 16) mod 16); hex_char (u mod 16)].

(** One code point under [ensure_ascii]. *)
Definition escape (u : Z) : list Z :=
  if u =? 34 then [92; 34]
  else if u =? 92 then [92; 92]
  else if u =? 10 then [92; 110]
  else if u =? 13 then [92; 114]
  else if u =? 9 then [92; 116]
  else if u =? 12 then [92; 102]
  else if u =? 8 then [92; 98]
  else if (32 <=? u) && (u <=? 126) then [u]
  else if u <? 65536 then u_escape u
  else u_escape (55296 + (u - 65536) / 1024) ++ u_escape (56320 + (u - 65536) mod 1024).

Definition print_string (s : string) : list Z :=
  34 :: List.concat (map escape (default [] (utf8_decode (bytes_of s)))) ++ [34].

(** Items separated by commas. *)
Fixpoint commas (l : list (list Z)) : list Z :=
  match l with
  | [] => []
  | [x] => x
  | x :: l => x ++ 44 :: commas l
  end.

(** Keys in increasing code-point order (that of the UTF-8 bytes). *)
Fixpoint insert_key {A} (k : string) (v : A) (l : list (string * A)) : list (string * A) :=
  match l with
  | [] => [(k, v)]
  | (k', v') :: l' => if String.ltb k' k then (k', v') :: insert_key k v l'
                      else (k, v) :: l
  end.
Definition sort_keys {A} (l : list (string * A)) : list (string * A) :=
  fold_right (fun kv => insert_key kv.1 kv.2) [] l.

Section Printer.
(** [float.__repr__] of a finite value. *)
Context (float_repr : Z -> list Z).

Definition print_num (n : pynum) : list Z :=
  match n with
  | PInt z => print_int z
  | PFloat (FFin t) => float_repr t
  | PFloat FNaN => bytes_of "NaN"
  | PFloat (FInf false) => bytes_of "Infinity"
  | PFloat (FInf true) => bytes_of "-Infinity"
  end.

Fixpoint print (v : json) : list Z :=
  match v with
  | JNull => bytes_of "null"
  | JBool true => bytes_of "true"
  | JBool false => bytes_of "false"
  | JNum n => print_num n
  | JStr s => print_string s
  | JList l => 91 :: commas (map print l) ++ [93]
  | JObj kvs =>
      123 :: commas (map (fun kv => print_string kv.1 ++ 58 :: kv.2)
                       (sort_keys (map (fun kv => (kv.1, print kv.2)) kvs))) ++ [125]
  end.

Definition dumps (v : json) : string := string_of (print v).
End Printer.

(** ** Reading back what was written *)

(** The documents of the journals: ASCII strings, ints of at most 63 bits, no
    floats, and objects whose keys are written in increasing order. *)
Definition ascii_str (s : string) : bool := sall (in_range 0 127) s.

Fixpoint increasing (l : list string) : bool :=
  match l with
  | a :: l' => match l' with
               | b :: _ => String.ltb a b && increasing l'
               | [] => true
               end
  | [] => true
  end.

Fixpoint plain (v : json) : bool :=
  match v with
  | JNull | JBool _ => true
  | JNum (PInt n) => Z.abs n <? 2 ^ 63
  | JNum (PFloat _) => false
  | JStr s => ascii_str s
  | JList l => forallb plain l
  | JObj kvs => increasing (kvs.*1) && distinct (kvs.*1)
                && forallb (fun kv => ascii_str kv.1 && plain kv.2) kvs
  end.

(** The text after a printed value never continues a number. *)
Definition ends_number (r : list Z) : bool :=
  match r with
  | c :: _ => negb (is_dig c || (c =? 46) || (c =? 101) || (c =? 69))
  | [] => true
  end.

Lemma digits_acc f n acc :
  0 <= n < 10 ^ Z.of_nat f -> digits_of 0 (digits f n acc) = digits_of n acc.
Proof.
  revert n acc. induction f as [|f IH]; intros n acc Hn.
  - change (10 ^ Z.of_nat 0) with 1 in Hn. assert (n = 0) as -> by lia. done.
  - cbn [digits]. destruct (n <? 10) eqn:E; bdestr.
    + unfold digits_of. cbn. f_equal. lia.
    + rewrite IH.
      * unfold digits_of. cbn. f_equal. pose proof (Z.div_mod n 10). lia.
      * split; [apply Z.div_pos; lia|]. apply Z.div_lt_upper_bound; [lia|].
        replace (Z.of_nat (S f)) with (Z.of_nat f + 1) in Hn by lia.
        rewrite Z.pow_add_r in Hn by lia. lia.
Qed.

Lemma digits_are_digits f n acc :
  0 <= n -> forallb is_dig acc = true -> forallb is_dig (digits f n acc) = true.
Proof.
  revert n acc. induction f as [|f IH]; intros n acc Hn Hacc; [done|].
  cbn [digits]. destruct (n <? 10) eqn:E; bdestr.
  - cbn. rewrite Hacc, andb_true_r. unfold is_dig.
    apply andb_true_iff; split; apply Z.leb_le; lia.
  - apply IH; [apply Z.div_pos; lia|]. cbn. rewrite Hacc, andb_true_r.
    pose proof (Z.mod_pos_bound n 10). unfold is_dig.
    apply andb_true_iff; split; apply Z.leb_le; lia.
Qed.

Lemma digits_length f n acc : (length (digits f n acc) <= f + length acc)%nat.
Proof.
  revert n acc. induction f as [|f IH]; intros n acc; cbn; [lia|].
  destruct (n <? 10); cbn; [lia|]. specialize (IH (n / 10) ((48 + n mod 10) :: acc)).
  cbn in IH. lia.
Qed.

(** The leading digit, which is zero only for zero itself. *)
Lemma digits_head f n acc :
  (0 < f)%nat -> 0 <= n < 10 ^ Z.of_nat f ->
  exists c t, digits f n acc = c :: t /\ is_dig c = true /\ (c = 48 -> n = 0 /\ t = acc).
Proof.
  revert n acc. induction f as [|f IH]; intros n acc Hf Hn; [lia|].
  cbn [digits]. destruct (n <? 10) eqn:E; bdestr.
  - exists (48 + n), acc. refine (conj eq_refl (conj _ _)); [|split; [lia|done]].
    unfold is_dig. apply andb_true_iff; split; apply Z.leb_le; lia.
  - destruct f as [|f]; [cbn in Hn; lia|].
    destruct (IH (n / 10) ((48 + n mod 10) :: acc)) as (c & t & Heq & Hd & Hz);
      [lia| |].
    + split; [apply Z.div_pos; lia|]. apply Z.div_lt_upper_bound; [lia|].
      replace (Z.of_nat (S (S f))) with (Z.of_nat (S f) + 1) in Hn by lia.
      rewrite Z.pow_add_r in Hn by lia. lia.
    + exists c, t. refine (conj Heq (conj Hd _)).
      intros Hc. apply Hz in Hc as [Hc _].
      pose proof (Z.div_mod n 10). pose proof (Z.mod_pos_bound n 10). lia.
Qed.

Lemma span_digits_app d r :
  forallb is_dig d = true -> ends_number r = true -> span_digits (d ++ r) = (d, r).
Proof.
  induction d as [|c d IH]; intros Hd Hr; cbn in *.
  - destruct r as [|c r]; [done|]. cbn in *.
    destruct (is_dig c) eqn:E; [|done]. cbn in Hr. discriminate.
  - apply andb_true_iff in Hd as [Hc Hd]. rewrite Hc, (IH Hd Hr). done.
Qed.

Lemma digit_fuel_enough n : 0 <= n -> 0 <= n < 10 ^ Z.of_nat (digit_fuel n).
Proof.
  intros Hn. split; [done|]. unfold digit_fuel.
  destruct (Z.eq_dec n 0) as [->|Hne]; [done|].
  rewrite Nat2Z.inj_succ, Z2Nat.id by apply Z.log2_nonneg.
  destruct (Z.log2_spec n ltac:(lia)) as [_ H2].
  apply Z.lt_le_trans with (2 ^ Z.succ (Z.log2 n)); [done|].
  apply Z.pow_le_mono_l. pose proof (Z.log2_nonneg n). lia.
Qed.

Lemma digits_of_print n : 0 <= n -> digits_of 0 (digits (digit_fuel n) n []) = n.
Proof. intros Hn. by rewrite digits_acc by (by apply digit_fuel_enough). Qed.

Lemma digits_short n :
  0 <= n < 2 ^ 63 -> (length (digits (digit_fuel n) n []) <= MAX_INT_DIGITS)%nat.
Proof.
  intros Hn.
  assert (Z.log2 n < 63) as Hlog.
  { destruct (Z.eq_dec n 0) as [->|]; [done|]. apply Z.log2_lt_pow2; [lia|apply Hn]. }
  clear Hn. etrans; [apply digits_length|].
  unfold MAX_INT_DIGITS, digit_fuel. cbn [length]. lia.
Qed.

(** The sign-free part of a number, read back from its decimal digits. *)
Lemma scan_digits n r :
  0 <= n < 2 ^ 63 -> ends_number r = true ->
  scan_number (digits (digit_fuel n) n [] ++ r) = Some (PInt n, r).
Proof.
  intros Hn Hr.
  destruct (digits_head (digit_fuel n) n []) as (c & t & Heq & Hc & Hz);
    [unfold digit_fuel; lia|apply digit_fuel_enough; lia|].
  pose proof (digits_are_digits (digit_fuel n) n [] ltac:(lia) eq_refl) as Hd.
  pose proof (digits_of_print n ltac:(lia)) as Hv.
  pose proof (digits_short n Hn) as Hl.
  assert (scan_fraction r = (None, r) /\ scan_exponent r = (None, r)) as [Hf He].
  { destruct r as [|x r]; [done|]. cbn in Hr |- *. apply negb_true_iff in Hr.
    repeat (apply orb_false_iff in Hr as [Hr ?]).
    by repeat match goal with H : (x =? _) = false |- _ => rewrite H; clear H end. }
  unfold scan_number. rewrite Heq in *. cbn [app] in *.
  assert ((c =? 45) = false) as ->.
  { unfold is_dig in Hc. bdestr. apply Z.eqb_neq. lia. }
  cbv beta iota.
  destruct (c =? 48) eqn:E.
  - apply Z.eqb_eq in E. destruct (Hz E) as [-> ->]. subst c. cbn [app].
    rewrite Hf, He. done.
  - rewrite Hc. change (c :: t ++ r) with ((c :: t) ++ r).
    rewrite (span_digits_app _ _ Hd Hr), Hf, He.
    apply Nat.leb_le in Hl. rewrite Hl, Hv. done.
Qed.

Lemma scan_print_int n r :
  Z.abs n < 2 ^ 63 -> ends_number r = true ->
  scan_number (print_int n ++ r) = Some (PInt n, r).
Proof.
  intros Hn Hr. unfold print_int. destruct (n <? 0) eqn:E; bdestr.
  - pose proof (scan_digits (- n) r ltac:(lia) Hr) as H.
    destruct (digits_head (digit_fuel (- n)) (- n) []) as (c & t & Heq & Hc & Hz);
      [unfold digit_fuel; lia|apply digit_fuel_enough; lia|].
    rewrite Heq in *. cbn [app] in *. unfold scan_number in *.
    assert ((c =? 45) = false) as Hc45.
    { unfold is_dig in Hc. bdestr. apply Z.eqb_neq. lia. }
    rewrite Hc45 in H. change (45 =? 45) with true. cbv beta iota in H |- *.
    destruct (if c =? 48 then Some ([c], t ++ r)
              else if is_dig c then Some (span_digits (c :: t ++ r)) else None)
      as [[ds r0]|]; [|discriminate].
    destruct (scan_fraction r0) as [[fr|] r1], (scan_exponent r1) as [[ex|] r2];
      try discriminate.
    destruct (_ <=? _)%nat; [|discriminate]. simplify_eq.
    do 3 f_equal. lia.
  - apply scan_digits; [lia|done].
Qed.

Lemma strip_prefix_ne a p b s : a <> b -> strip_prefix (a :: p) (b :: s) = None.
Proof. intros H. cbn [strip_prefix]. by rewrite (proj2 (Z.eqb_neq a b) H). Qed.

Lemma strip_prefix_eq a p s : strip_prefix (a :: p) (a :: s) = strip_prefix p s.
Proof. cbn [strip_prefix]. by rewrite Z.eqb_refl. Qed.

(** No word of the grammar starts with a digit or is a signed number. *)
Lemma scan_word_int n r : scan_word WORDS (print_int n ++ r) = None.
Proof.
  assert (forall m, 0 <= m -> exists c t, digits (digit_fuel m) m [] = c :: t
            /\ 48 <= c <= 57) as Hd.
  { intros m Hm. destruct (digits_head (digit_fuel m) m []) as (c & t & Heq & Hc & _);
      [unfold digit_fuel; lia|apply digit_fuel_enough; lia|].
    exists c, t. unfold is_dig in Hc. bdestr. split; [exact Heq|lia]. }
  unfold print_int, WORDS. destruct (n <? 0) eqn:E; bdestr.
  - destruct (Hd (- n) ltac:(lia)) as (c & t & -> & Hc). cbn [app scan_word].
    rewrite strip_prefix_eq, !strip_prefix_ne by lia. done.
  - destruct (Hd n ltac:(lia)) as (c & t & -> & Hc). cbn [app scan_word].
    rewrite !strip_prefix_ne by lia. done.
Qed.

(** ASCII text: each code point survives escaping. *)
Lemma utf8_decode_ascii s : ascii_str s = true -> utf8_decode (bytes_of s) = Some (bytes_of s).
Proof.
  induction s as [|c s IH]; cbn; intros H; [done|].
  apply andb_true_iff in H as [Hc Hs]. unfold in_range in Hc. bdestr.
  replace (code c <? 128) with true by (symmetry; apply Z.ltb_lt; lia).
  by rewrite (IH Hs).
Qed.

Lemma str_of_points_ascii s : ascii_str s = true -> str_of_points (bytes_of s) = s.
Proof.
  induction s as [|c s IH]; cbn; intros H; [done|].
  apply andb_true_iff in H as [Hc Hs]. unfold in_range in Hc. bdestr.
  unfold utf8_encode.
  replace (code c <? 128) with true by (symmetry; apply Z.ltb_lt; lia).
  cbn. rewrite chr_code. f_equal. by apply IH.
Qed.

Lemma scan_escape u r :
  0 <= u < 128 -> scan_string (escape u ++ r) = prod_map (cons u) id <$> scan_string r.
Proof.
  intros Hu. assert (exists k : nat, (k < 128)%nat /\ u = Z.of_nat k) as (k & Hk & ->).
  { exists (Z.to_nat u). lia. }
  do 128 (destruct k as [|k]; [reflexivity|]). lia.
Qed.

Lemma scan_escapes s r :
  ascii_str s = true ->
  scan_string (List.concat (map escape (bytes_of s)) ++ 34 :: r) = Some (bytes_of s, r).
Proof.
  induction s as [|c s IH]; cbn; intros H; [done|].
  apply andb_true_iff in H as [Hc Hs]. unfold in_range in Hc. bdestr.
  rewrite <- app_assoc, scan_escape by lia. by rewrite (IH Hs).
Qed.

Lemma scan_print_string s r :
  ascii_str s = true -> exists t, print_string s ++ r = 34 :: t /\
    scan_string t = Some (bytes_of s, r).
Proof.
  intros Hs. unfold print_string. rewrite utf8_decode_ascii by done. cbn.
  eexists. split; [reflexivity|]. rewrite <- app_assoc. cbn. by apply scan_escapes.
Qed.

(** ** The document level *)
Definition text (l : list Z) : Prop := Forall (fun c => 1 <= c < 128) l.

Lemma text_app l1 l2 : text (l1 ++ l2) <-> text l1 /\ text l2.
Proof. apply Forall_app. Qed.

Lemma bytes_of_string_of l : text l -> bytes_of (string_of l) = l.
Proof.
  induction 1 as [|c l Hc Hl IH]; cbn; [done|]. rewrite code_chr by lia. by f_equal.
Qed.

Lemma utf8_decode_text l : text l -> utf8_decode l = Some l.
Proof.
  induction 1 as [|c l Hc Hl IH]; cbn; [done|].
  rewrite (proj2 (Z.ltb_lt c 128)) by lia. by rewrite IH.
Qed.

(** Text without zero or high bytes is read as UTF-8. *)
Lemma decode_document_text l : text l -> decode_document l = Some l.
Proof.
  intros Hl. pose proof (utf8_decode_text l Hl) as Hu. unfold decode_document.
  destruct l as [|a l]; [done|]. inversion Hl as [|? ? Ha Hl']; subst.
  rewrite !strip_prefix_ne by lia.
  destruct l as [|b l]; [done|]. inversion Hl' as [|? ? Hb _]; subst.
  assert ((a =? 0) = false) as -> by (apply Z.eqb_neq; lia).
  assert ((b =? 0) = false) as -> by (apply Z.eqb_neq; lia).
  by destruct l as [|c [|d l]].
Qed.

Section RoundTrip.
Context (float_repr : Z -> list Z).
Abbreviation print := (print float_repr).

Fixpoint need (v : json) : nat :=
  match v with
  | JList l => S (list_sum (map (fun v => S (need v)) l))
  | JObj kvs => S (list_sum (map (fun kv => S (need kv.2)) kvs))
  | _ => 1%nat
  end.

Lemma skip_ws_id c s : is_ws c = false -> skip_ws (c :: s) = c :: s.
Proof. intros H. cbn. by rewrite H. Qed.

Lemma eat_ne c x s : x <> c -> eat c (x :: s) = None.
Proof. intros H. cbn. by rewrite (proj2 (Z.eqb_neq x c) H). Qed.

Lemma eat_eq c s : eat c (c :: s) = Some s.
Proof. cbn. by rewrite Z.eqb_refl. Qed.

Lemma int_head n : exists c t, print_int n = c :: t /\ 45 <= c <= 57.
Proof.
  unfold print_int. destruct (n <? 0) eqn:E; bdestr; [exists 45; eauto with lia|].
  destruct (digits_head (digit_fuel n) n []) as (c & t & Heq & Hc & _);
    [unfold digit_fuel; lia|apply digit_fuel_enough; lia|].
  exists c, t. unfold is_dig in Hc. bdestr. split; [exact Heq|lia].
Qed.

(** A printed value starts neither with white space nor with a bracket that
    closes its container. *)
Lemma print_head v :
  plain v = true -> exists c t, print v = c :: t /\ is_ws c = false /\ c <> 93.
Proof.
  destruct v as [|[]|[n|]|s|l|kvs]; cbn [plain]; intros H; try discriminate.
  4: { destruct (int_head n) as (c & t & Heq & Hc). exists c, t. split; [exact Heq|].
       unfold is_ws. split; [|lia]. rewrite !orb_false_iff, !Z.eqb_neq. lia. }
  all: cbn; eexists _, _; split; [reflexivity|]; split; [reflexivity|discriminate].
Qed.

Lemma sort_keys_id {A} (kvs : list (string * A)) :
  increasing (kvs.*1) = true -> sort_keys kvs = kvs.
Proof.
  induction kvs as [|[k v] kvs IH]; [done|]. intros H.
  assert (increasing (kvs.*1) = true) as Hi.
  { destruct kvs as [|[k' v'] kvs]; [done|]. cbn in H.
    by apply andb_true_iff in H as [_ H]. }
  cbn. change (fold_right _ [] kvs) with (sort_keys kvs). rewrite (IH Hi).
  destruct kvs as [|[k' v'] kvs]; [done|]. cbn in H |- *.
  apply andb_true_iff in H as [H _]. unfold String.ltb in *.
  rewrite String.compare_antisym. by destruct (String.compare k k').
Qed.

(** What the induction gives for every part of a value. *)
Definition reads (v : json) : Prop :=
  forall n r, (need v <= n)%nat -> ends_number r = true ->
  parse unique_pairs n (print v ++ r) = Some (v, r).

Lemma reads_elements l n r :
  Forall reads l -> forallb plain l = true -> l <> [] ->
  (list_sum (map (fun v => S (need v)) l) <= n)%nat ->
  elements unique_pairs n (commas (map print l) ++ 93 :: r) = Some (l, r).
Proof.
  revert n. induction l as [|v l IH]; intros n Hl Hp Hne Hn; [done|].
  inversion Hl as [|? ? Hv Hl']; subst. cbn in Hp. apply andb_true_iff in Hp as [Hpv Hp].
  cbn [map list_sum fold_right] in Hn. destruct n as [|n]; [lia|].
  destruct l as [|w l].
  - cbn [map commas elements]. rewrite (Hv n (93 :: r)) by (done || lia). done.
  - change (commas (map print (v :: w :: l)))
      with (print v ++ 44 :: commas (map print (w :: l))).
    rewrite <- app_assoc. cbn [app elements].
    rewrite (Hv n) by (done || lia). cbn [mbind option_bind].
    rewrite (skip_ws_id 44) by done. rewrite eat_eq.
    assert (exists c t, commas (map print (w :: l)) ++ 93 :: r = c :: t
              /\ is_ws c = false) as (c & t & Heq & Hc).
    { cbn in Hp. apply andb_true_iff in Hp as [Hpw _].
      destruct (print_head w Hpw) as (c & t & Hpr & Hc & _).
      destruct l; cbn; rewrite Hpr; cbn; eauto. }
    assert (skip_ws (commas (map print (w :: l)) ++ 93 :: r)
            = commas (map print (w :: l)) ++ 93 :: r) as Hskip.
    { rewrite Heq. by apply skip_ws_id. }
    rewrite Hskip, IH; [done|done|done|done|]. cbn [map list_sum fold_right] in *. lia.
Qed.

Definition member (kv : string * json) : list Z :=
  print_string kv.1 ++ 58 :: print kv.2.

Lemma reads_members kvs n r :
  Forall (fun kv => reads kv.2) kvs ->
  forallb (fun kv => ascii_str kv.1 && plain kv.2) kvs = true -> kvs <> [] ->
  (list_sum (map (fun kv => S (need kv.2)) kvs) <= n)%nat ->
  members unique_pairs n (commas (map member kvs) ++ 125 :: r) = Some (kvs, r).
Proof.
  revert n. induction kvs as [|[k v] l IH]; intros n Hl Hp Hne Hn; [done|].
  inversion Hl as [|? ? Hv Hl']; subst. cbn in Hp, Hv.
  apply andb_true_iff in Hp as [Hpv Hp]. apply andb_true_iff in Hpv as [Hk Hpv].
  cbn [map list_sum fold_right] in Hn. destruct n as [|n]; [lia|].
  assert (forall s, scan_key (member (k, v) ++ s)
            = Some (k, 58 :: print v ++ s)) as Hkey.
  { intros s. unfold member. cbn [fst snd]. rewrite <- app_assoc. cbn [app].
    destruct (scan_print_string k (58 :: print v ++ s) Hk) as (t & -> & Ht).
    cbn. rewrite Ht. cbn. by rewrite str_of_points_ascii. }
  destruct (print_head v Hpv) as (c & t & Hpr & Hc & _).
  assert (forall s, skip_ws (print v ++ s) = print v ++ s) as Hsk.
  { intros s. rewrite Hpr. by apply skip_ws_id. }
  destruct l as [|[k' v'] l].
  - cbn [map commas members]. rewrite Hkey. cbn [mbind option_bind].
    rewrite (skip_ws_id 58) by done. rewrite eat_eq. cbn [mbind option_bind].
    rewrite Hsk, (Hv n (125 :: r)) by (done || (cbn in *; lia)). done.
  - change (commas (map member ((k, v) :: (k', v') :: l)))
      with (member (k, v) ++ 44 :: commas (map member ((k', v') :: l))).
    rewrite <- app_assoc. cbn [app members]. rewrite Hkey. cbn [mbind option_bind].
    rewrite (skip_ws_id 58) by done. rewrite eat_eq. cbn [mbind option_bind].
    rewrite Hsk, (Hv n) by (done || (cbn in *; lia)). cbn [mbind option_bind].
    rewrite (skip_ws_id 44) by done. rewrite eat_eq.
    assert (skip_ws (commas (map member ((k', v') :: l)) ++ 125 :: r)
            = commas (map member ((k', v') :: l)) ++ 125 :: r) as ->
      by (destruct l; reflexivity).
    rewrite IH; [done|done|done|done|]. cbn [map list_sum fold_right snd] in *. lia.
Qed.

Lemma print_obj kvs :
  increasing (kvs.*1) = true ->
  print (JObj kvs) = 123 :: commas (map member kvs) ++ [125].
Proof.
  intros H. cbn [Json.print]. rewrite sort_keys_id.
  - rewrite map_map. done.
  - rewrite <- list_fmap_compose. done.
Qed.

(** Every plain document is read back from its printed text. *)
Lemma reads_plain v : plain v = true -> reads v.
Proof.
  induction v as [|[]|[z|]|s|l IH|kvs IH] using json_ind'; cbn [plain];
    intros Hp n r Hn Hr; try discriminate;
    (destruct n as [|n]; [cbn in Hn; lia|]).
  1-3: reflexivity.
  - bdestr. destruct (int_head z) as (c & t & Heq & Hc).
    cbn [Json.print print_num]. cbn [parse]. rewrite Heq. cbn [app].
    rewrite !(proj2 (Z.eqb_neq c _)) by lia.
    change (c :: t ++ r) with ((c :: t) ++ r). rewrite <- Heq, scan_word_int.
    by rewrite scan_print_int.
  - cbn [Json.print]. destruct (scan_print_string s r Hp) as (t & -> & Ht).
    cbn [parse]. rewrite Z.eqb_refl, Ht. cbn. by rewrite str_of_points_ascii.
  - assert (Forall reads l) as Hl.
    { apply List.Forall_forall. intros x Hx.
      rewrite List.Forall_forall in IH. apply IH; [done|].
      rewrite forallb_forall in Hp. by apply Hp. }
    destruct l as [|v l]; [reflexivity|].
    cbn [Json.print]. change (91 :: commas (map print (v :: l)) ++ [93])
      with ([91] ++ commas (map print (v :: l)) ++ [93]).
    rewrite <- !app_assoc. cbn [app]. cbn [parse].
    change (91 =? 34) with false. change (91 =? 123) with false.
    change (91 =? 91) with true. cbv beta iota.
    assert (exists c t, commas (map print (v :: l)) ++ 93 :: r = c :: t
              /\ is_ws c = false /\ c <> 93) as (c & t & Heq & Hc & Hc93).
    { pose proof Hp as Hq. cbn in Hq. apply andb_true_iff in Hq as [Hpv _].
      destruct (print_head v Hpv) as (c & t & Hpr & Hc & Hc93).
      destruct l; cbn; rewrite Hpr; cbn; eauto. }
    rewrite Heq, (skip_ws_id c), (eat_ne 93 c), <- Heq by done.
    rewrite reads_elements; [done|done|done|done|].
    cbn [need map list_sum fold_right] in *. lia.
  - apply andb_true_iff in Hp as [Hp1 Hp3]. apply andb_true_iff in Hp1 as [Hp1 Hp2].
    assert (Forall (fun kv => reads kv.2) kvs) as Hl.
    { apply List.Forall_forall. intros x Hx.
      rewrite List.Forall_forall in IH. apply IH; [done|].
      rewrite forallb_forall in Hp3. specialize (Hp3 x Hx).
      by apply andb_true_iff in Hp3 as [_ Hp3]. }
    rewrite print_obj by done. destruct kvs as [|kv kvs]; [reflexivity|].
    change ((123 :: commas (map member (kv :: kvs)) ++ [125]) ++ r)
      with (123 :: (commas (map member (kv :: kvs)) ++ [125]) ++ r).
    rewrite <- app_assoc. cbn [app]. cbn [parse].
    change (123 =? 34) with false. change (123 =? 123) with true. cbv beta iota.
    assert (exists t, commas (map member (kv :: kvs)) ++ 125 :: r = 34 :: t) as (t & Heq)
      by (destruct kvs; cbn; eauto).
    rewrite Heq, (skip_ws_id 34), (eat_ne 125 34), <- Heq by done.
    rewrite reads_members; [|done|done|done|].
    + cbn [mbind option_bind]. unfold unique_pairs. by rewrite Hp2.
    + cbn [need map list_sum fold_right] in *. lia.
Qed.

(** The printed text is ASCII, and long enough for the reader's fuel. *)
Lemma text_of_bool l :
  forallb (fun c => (1 <=? c) && (c <? 128)) l = true -> text l.
Proof.
  intros H. apply List.Forall_forall. intros c Hc. rewrite forallb_forall in H.
  specialize (H c Hc). bdestr. lia.
Qed.

Lemma escape_text u : 0 <= u < 128 -> text (escape u).
Proof.
  intros Hu. assert (exists k : nat, (k < 128)%nat /\ u = Z.of_nat k) as (k & Hk & ->).
  { exists (Z.to_nat u). lia. }
  do 128 (destruct k as [|k]; [apply text_of_bool; reflexivity|]). lia.
Qed.

Lemma print_string_text s : ascii_str s = true -> text (print_string s).
Proof.
  intros Hs. unfold print_string. rewrite utf8_decode_ascii by done. cbn [default].
  constructor; [lia|]. apply text_app. split; [|by apply text_of_bool].
  induction s as [|c s IH]; cbn in Hs |- *; [constructor|].
  apply andb_true_iff in Hs as [Hc Hs]. unfold in_range in Hc. bdestr.
  apply text_app. split; [apply escape_text; lia|by apply IH].
Qed.

Lemma commas_text ls : Forall text ls -> text (commas ls).
Proof.
  induction 1 as [|x l Hx Hl IH]; [constructor|].
  destruct l; cbn [commas]; [done|]. apply text_app. split; [done|].
  constructor; [lia|done].
Qed.

Lemma digits_text l : forallb is_dig l = true -> text l.
Proof.
  intros H. apply List.Forall_forall. intros c Hc. rewrite forallb_forall in H.
  specialize (H c Hc). unfold is_dig in H. bdestr. lia.
Qed.

Lemma print_text v : plain v = true -> text (print v).
Proof.
  induction v as [|[]|[z|]|s|l IH|kvs IH] using json_ind'; cbn [plain];
    intros Hp; try discriminate.
  1-3: by apply text_of_bool.
  - cbn. unfold print_int. destruct (z <? 0) eqn:E; bdestr; [constructor; [lia|]|];
      apply digits_text, digits_are_digits; done || lia.
  - by apply print_string_text.
  - cbn [Json.print]. constructor; [lia|]. apply text_app.
    split; [|by apply text_of_bool]. apply commas_text.
    apply List.Forall_forall. intros x Hx. apply in_map_iff in Hx as (w & <- & Hw).
    rewrite List.Forall_forall in IH. rewrite forallb_forall in Hp. auto.
  - apply andb_true_iff in Hp as [Hp1 Hp3]. apply andb_true_iff in Hp1 as [Hp1 _].
    rewrite print_obj by done. constructor; [lia|]. apply text_app.
    split; [|by apply text_of_bool]. apply commas_text.
    apply List.Forall_forall. intros x Hx. apply in_map_iff in Hx as (w & <- & Hw).
    rewrite List.Forall_forall in IH. rewrite forallb_forall in Hp3.
    specialize (Hp3 w Hw). apply andb_true_iff in Hp3 as [Hk Hv].
    unfold member. apply text_app. split; [by apply print_string_text|].
    constructor; [lia|]. by apply IH.
Qed.

Lemma commas_length ls :
  ls <> [] ->
  S (length (commas ls)) = list_sum (map (fun l => S (length l)) ls).
Proof.
  induction ls as [|x l IH]; [done|]. intros _. destruct l as [|y l].
  - cbn. lia.
  - change (commas (x :: y :: l)) with (x ++ 44 :: commas (y :: l)).
    rewrite length_app. cbn [length]. rewrite IH by done.
    cbn [map list_sum fold_right]. lia.
Qed.

Lemma list_sum_le {A} (f g : A -> nat) l :
  Forall (fun x => f x <= g x)%nat l ->
  (list_sum (map f l) <= list_sum (map g l))%nat.
Proof.
  induction 1 as [|x l Hx Hl IH]; [done|].
  change (f x + list_sum (map f l) <= g x + list_sum (map g l))%nat. lia.
Qed.

Lemma list_sum_double {A} (f : A -> nat) l :
  list_sum (map (fun x => 2 * f x)%nat l) = (2 * list_sum (map f l))%nat.
Proof.
  induction l as [|x l IH]; [done|].
  change (2 * f x + list_sum (map (fun x => 2 * f x) l)
          = 2 * (f x + list_sum (map f l)))%nat. lia.
Qed.

Lemma commas_need {A} (sz : A -> nat) (pr : A -> list Z) l :
  Forall (fun x => sz x <= 2 * length (pr x))%nat l ->
  (list_sum (map (fun x => S (sz x)) l) <= 2 * length (commas (map pr l)) + 2)%nat.
Proof.
  intros H. destruct l as [|x l]; [cbn; lia|].
  pose proof (commas_length (map pr (x :: l)) ltac:(done)) as Hc.
  rewrite map_map in Hc.
  assert (list_sum (map (fun x => S (sz x)) (x :: l))
          <= list_sum (map (fun x => 2 * S (length (pr x))) (x :: l)))%nat as Hle.
  { apply list_sum_le. eapply List.Forall_impl; [|exact H]. intros a Ha. cbv beta in Ha |- *. lia. }
  rewrite list_sum_double in Hle. lia.
Qed.

Lemma need_le v : plain v = true -> (need v <= 2 * length (print v))%nat.
Proof.
  induction v as [|[]|[z|]|s|l IH|kvs IH] using json_ind'; cbn [plain];
    intros Hp; try discriminate.
  1-3: cbn; lia.
  - cbn [Json.print print_num need]. destruct (int_head z) as (c & t & -> & _). cbn. lia.
  - cbn. lia.
  - cbn [Json.print need length]. rewrite length_app.
    pose proof (commas_need need print l) as Hc. cbn [length].
    enough (Forall (fun x => need x <= 2 * length (print x))%nat l) as Hf
      by (specialize (Hc Hf); lia).
    apply List.Forall_forall. intros x Hx. rewrite List.Forall_forall in IH.
    rewrite forallb_forall in Hp. auto.
  - apply andb_true_iff in Hp as [Hp1 Hp3]. apply andb_true_iff in Hp1 as [Hp1 _].
    rewrite print_obj by done. cbn [need length]. rewrite length_app.
    pose proof (commas_need (fun kv => need kv.2) member kvs) as Hc. cbn [length].
    enough (Forall (fun x => need x.2 <= 2 * length (member x))%nat kvs) as Hf
      by (specialize (Hc Hf); lia).
    apply List.Forall_forall. intros x Hx. rewrite List.Forall_forall in IH.
    rewrite forallb_forall in Hp3. specialize (Hp3 x Hx).
    apply andb_true_iff in Hp3 as [_ Hv]. specialize (IH x Hx Hv).
    unfold member. rewrite length_app. cbn [length]. lia.
Qed.

(** [json.loads(json.dumps(v))] is [v]. *)
Lemma loads_dumps v :
  plain v = true -> loads unique_pairs (dumps float_repr v) = Some v.
Proof.
  intros Hp. pose proof (print_text v Hp) as Ht. unfold loads, dumps.
  rewrite bytes_of_string_of, decode_document_text by done.
  cbn [mbind option_bind].
  destruct (print_head v Hp) as (c & t & Heq & Hc & _).
  assert (skip_ws (print v) = print v) as -> by (rewrite Heq; by apply skip_ws_id).
  pose proof (need_le v Hp) as Hn.
  pose proof (reads_plain v Hp (2 * length (print v) + 2)%nat [] ltac:(lia) eq_refl) as Hr.
  rewrite app_nil_r in Hr. rewrite Hr. done.
Qed.
End RoundTrip.

(** ** The size of written documents *)

(** Characters that are written as they are. *)
Definition verbatim (c : ascii) : bool :=
  (32 <=? code c) && (code c <=? 126) && negb (code c =? 34) && negb (code c =? 92).

Lemma verbatim_ascii s : sall verbatim s = true -> ascii_str s = true.
Proof.
  apply sall_impl. unfold verbatim, in_range. intros c Hc. bdestr.
  apply andb_true_iff; split; apply Z.leb_le; lia.
Qed.

Lemma escape_verbatim c : verbatim c = true -> escape (code c) = [code c].
Proof.
  unfold verbatim. intros H. bdestr. unfold escape.
  repeat (rewrite (proj2 (Z.eqb_neq _ _)) by lia).
  by rewrite (proj2 (Z.leb_le _ _)), (proj2 (Z.leb_le _ _)) by lia.
Qed.

Lemma print_string_length s :
  sall verbatim s = true -> length (print_string s) = (String.length s + 2)%nat.
Proof.
  intros Hs. unfold print_string. rewrite utf8_decode_ascii by by apply verbatim_ascii.
  cbn [default length]. rewrite length_app. cbn [length id].
  enough (length (List.concat (map escape (bytes_of s))) = String.length s) by lia.
  induction s as [|c s IH]; [done|]. cbn in Hs |- *. apply andb_true_iff in Hs as [Hc Hs].
  rewrite (escape_verbatim c Hc). cbn. by rewrite IH.
Qed.

Lemma digits_length_bound f k n acc :
  0 <= n < 10 ^ Z.of_nat (S k) -> (length (digits f n acc) <= S k + length acc)%nat.
Proof.
  revert k n acc. induction f as [|f IH]; intros k n acc Hn; cbn [digits]; [lia|].
  destruct (n <? 10) eqn:E; bdestr; [cbn; lia|].
  destruct k as [|k]; [cbn in Hn; lia|].
  etrans; [apply (IH k)|cbn [length]; lia].
  rewrite Nat2Z.inj_succ, Z.pow_succ_r in Hn by lia.
  split; [apply Z.div_pos; lia|]. apply Z.div_lt_upper_bound; lia.
Qed.

Lemma print_int_length k n :
  0 <= n < 10 ^ Z.of_nat (S k) -> (length (print_int n) <= S k)%nat.
Proof.
  intros Hn. unfold print_int. rewrite (proj2 (Z.ltb_ge n 0)) by lia.
  pose proof (digits_length_bound (digit_fuel n) k n [] Hn). cbn [length] in *. lia.
Qed.

Lemma commas_bound (b : nat) ls :
  Forall (fun l => length l <= b)%nat ls -> (length (commas ls) <= S b * length ls)%nat.
Proof.
  induction 1 as [|x l Hx Hl IH]; [cbn; lia|].
  destruct l as [|y l]; [cbn; lia|].
  change (commas (x :: y :: l)) with (x ++ 44 :: commas (y :: l)).
  rewrite length_app. cbn [length] in *. lia.
Qed.

Lemma print_list_bound float_repr (b : nat) l :
  Forall (fun v => length (print float_repr v) <= b)%nat l ->
  (length (print float_repr (JList l)) <= 2 + S b * length l)%nat.
Proof.
  intros H. cbn [print length]. rewrite length_app. cbn [length].
  pose proof (commas_bound b (map (print float_repr) l)) as Hc.
  rewrite length_map in Hc. specialize (Hc ltac:(by apply Forall_map)). lia.
Qed.

Lemma length_string_of l : String.length (string_of l) = length l.
Proof. induction l; cbn; congruence. Qed.

(** An object with increasing keys, given a bound for each member. *)
Lemma print_object_bound float_repr kvs (bs : list nat) :
  increasing (kvs.*1) = true ->
  Forall2 (fun kv b => S (length (print_string kv.1) + length (print float_repr kv.2)) <= b)%nat
    kvs bs ->
  (length (print float_repr (JObj kvs)) <= 2 + list_sum (map S bs))%nat.
Proof.
  intros Hk Hb. rewrite print_obj by done. cbn [length]. rewrite length_app. cbn [length].
  enough (length (commas (map (member float_repr) kvs)) <= list_sum (map S bs))%nat by lia.
  clear Hk. induction Hb as [|kv b kvs bs Hx Hl IH]; [cbn; lia|].
  cbn [map list_sum fold_right]. unfold member at 1.
  assert (length (print_string kv.1 ++ 58%Z :: print float_repr kv.2) <= b)%nat
    by (rewrite length_app; cbn [length]; lia).
  destruct kvs as [|kv' kvs]; [cbn [map commas]; lia|].
  cbn [map] in IH |- *.
  change (commas (?x :: ?y :: ?l)) with (x ++ 44 :: commas (y :: l)).
  rewrite length_app. cbn [length].
  change (fold_right Nat.add 0%nat ?l) with (list_sum l) in *. lia.
Qed.

Lemma is_digit_verbatim c : is_digit c = true -> verbatim c = true.
Proof.
  unfold is_digit, in_range, verbatim. intros H. bdestr.
  repeat (apply andb_true_iff; split);
    try (apply Z.leb_le; lia); apply negb_true_iff, Z.eqb_neq; lia.
Qed.

Lemma lit_verbatim x c : verbatim x = true -> bool_decide (c = x) = true -> verbatim c = true.
Proof. intros Hx Hc. bdestr. by subst. Qed.

Lemma range_verbatim lo hi c :
  35 <= lo -> hi <= 91 \/ (93 <= lo /\ hi <= 126) ->
  in_range lo hi c = true -> verbatim c = true.
Proof.
  unfold in_range, verbatim. intros Hlo Hhi H. bdestr.
  repeat (apply andb_true_iff; split);
    try (apply Z.leb_le; lia); apply negb_true_iff, Z.eqb_neq; lia.
Qed.

Lemma is_hex_verbatim c : is_hex c = true -> verbatim c = true.
Proof.
  unfold is_hex. rewrite orb_true_iff. intros [H|H].
  - by apply is_digit_verbatim.
  - revert H. apply range_verbatim; lia.
Qed.
#[export] Hint Resolve is_digit_verbatim is_hex_verbatim : py.

(** A printed object of known keys, given a bound for each member. *)
Lemma plain_object kvs :
  increasing (kvs.*1) && distinct (kvs.*1) && forallb ascii_str (kvs.*1) = true ->
  Forall (fun kv => plain kv.2 = true) kvs -> plain (JObj kvs) = true.
Proof.
  intros Hk Hv. bdestr. cbn [plain]. repeat (apply andb_true_iff; split); [done..|].
  apply forallb_forall. intros kv Hin. apply andb_true_iff. split.
  - rewrite forallb_forall in H0. apply H0, list_elem_of_In, list_elem_of_fmap.
    exists kv. by rewrite list_elem_of_In.
  - rewrite List.Forall_forall in Hv. auto.
Qed.

Lemma int_printed float_repr k n :
  0 <= n < 10 ^ Z.of_nat (S k) -> n < 2 ^ 63 ->
  plain (JNum (PInt n)) = true /\ (length (print float_repr (JNum (PInt n))) <= S k)%nat.
Proof.
  intros Hn Hm. split; [cbn -[Z.pow]; apply Z.ltb_lt; lia|]. by apply print_int_length.
Qed.

(** The bound of one member: its key evaluates, its value has a bound. *)
Ltac member_bound :=
  cbn [fst snd];
  match goal with
  | |- (S (?k + _) <= _)%nat => let n := eval vm_compute in k in change k with n
  end; first [lia | apply Nat.leb_le; reflexivity | cbn [print] in *; lia].

Ltac members_bound := repeat first
  [apply List.Forall2_nil | apply List.Forall2_cons; [member_bound|]].
