(* ===== verification/Protocol.v ===== *)
(** * The host updater's local protocol  (update_helper/protocol.py)

    Request identifiers, versions and digests, the frozen request and
    authorization objects, and [decode_request], the strict reader of one frame
    of the Unix socket. *)
From Stdlib Require Import Ascii String.
From S2P Require Import Prelude PyNum PyStr Json Sha256.
#[local] Open Scope string_scope.
#[local] Open Scope list_scope.
#[local] Open Scope Z_scope.

Definition MAX_REQUEST_BYTES : Z := 2048.

(** ** Patterns *)
Definition D : regex := RChar is_digit.
Definition D19 : regex := RChar (in_range 49 57).
Definition dot : regex := lit "."%char.
Definition dash : regex := lit "-"%char.

(** [(?:0|[1-9][0-9]{0,3})], three times between dots. *)
Definition NUMBER : regex := RAlt (lit "0"%char) (RCat D19 (upto 3 D)).
Definition VERSION : regex :=
  RCat NUMBER (RCat dot (RCat NUMBER (RCat dot NUMBER))).

Definition REQUEST_ID : regex :=
  RCat (hex 8) (RCat dash (RCat (hex 4) (RCat dash (RCat (lit "4"%char) (RCat (hex 3)
    (RCat dash (RCat (RChar (fun c => in_range 56 57 c || in_range 97 98 c))
    (RCat (hex 3) (RCat dash (hex 12)))))))))).

Definition DIGEST : regex := hex 64.

Definition CREDENTIAL : regex :=
  rep 43 (RChar (fun c => is_upper c || is_lower c || is_digit c
                          || bool_decide (c = "_"%char) || bool_decide (c = "-"%char))).

(** ** Result codes *)
Inductive Code : Type :=
| BAD_REQUEST | PEER_DENIED | AUTHORIZATION_REQUIRED | BUSY | REQUEST_ID_REUSED
| CURRENT_VERSION_CHANGED | NOT_AN_UPGRADE | JOURNAL_CAPACITY | JOURNAL_UNSAFE
| JOURNAL_CORRUPT | JOURNAL_IO | INVALID_TRANSITION | INTERRUPTED_BEFORE_CUTOVER
| RECOVERY_REQUIRED | PREFLIGHT_FAILED | SOURCE_VERIFICATION_FAILED
| STAGING_FAILED | STOP_FAILED | BACKUP_FAILED | START_FAILED | HEALTH_FAILED
| RESTORE_FAILED | EXECUTOR_UNAVAILABLE | INTERNAL_ERROR.

#[export] Instance Code_eq_dec : EqDecision Code.
Proof. solve_decision. Defined.

Definition ALL_CODES : list Code :=
  [BAD_REQUEST; PEER_DENIED; AUTHORIZATION_REQUIRED; BUSY; REQUEST_ID_REUSED;
   CURRENT_VERSION_CHANGED; NOT_AN_UPGRADE; JOURNAL_CAPACITY; JOURNAL_UNSAFE;
   JOURNAL_CORRUPT; JOURNAL_IO; INVALID_TRANSITION; INTERRUPTED_BEFORE_CUTOVER;
   RECOVERY_REQUIRED; PREFLIGHT_FAILED; SOURCE_VERIFICATION_FAILED;
   STAGING_FAILED; STOP_FAILED; BACKUP_FAILED; START_FAILED; HEALTH_FAILED;
   RESTORE_FAILED; EXECUTOR_UNAVAILABLE; INTERNAL_ERROR].

(** The enumeration's values are its names. *)
Definition code_value (c : Code) : string :=
  match c with
  | BAD_REQUEST => "BAD_REQUEST" | PEER_DENIED => "PEER_DENIED"
  | AUTHORIZATION_REQUIRED => "AUTHORIZATION_REQUIRED" | BUSY => "BUSY"
  | REQUEST_ID_REUSED => "REQUEST_ID_REUSED"
  | CURRENT_VERSION_CHANGED => "CURRENT_VERSION_CHANGED"
  | NOT_AN_UPGRADE => "NOT_AN_UPGRADE" | JOURNAL_CAPACITY => "JOURNAL_CAPACITY"
  | JOURNAL_UNSAFE => "JOURNAL_UNSAFE" | JOURNAL_CORRUPT => "JOURNAL_CORRUPT"
  | JOURNAL_IO => "JOURNAL_IO" | INVALID_TRANSITION => "INVALID_TRANSITION"
  | INTERRUPTED_BEFORE_CUTOVER => "INTERRUPTED_BEFORE_CUTOVER"
  | RECOVERY_REQUIRED => "RECOVERY_REQUIRED" | PREFLIGHT_FAILED => "PREFLIGHT_FAILED"
  | SOURCE_VERIFICATION_FAILED => "SOURCE_VERIFICATION_FAILED"
  | STAGING_FAILED => "STAGING_FAILED" | STOP_FAILED => "STOP_FAILED"
  | BACKUP_FAILED => "BACKUP_FAILED" | START_FAILED => "START_FAILED"
  | HEALTH_FAILED => "HEALTH_FAILED" | RESTORE_FAILED => "RESTORE_FAILED"
  | EXECUTOR_UNAVAILABLE => "EXECUTOR_UNAVAILABLE" | INTERNAL_ERROR => "INTERNAL_ERROR"
  end.

(** What leaves a function of the helper: [UpdateRejected(code)], or another
    Python exception. *)
Inductive exn : Type :=
| UpdateRejected (c : Code)
| OtherException.

#[export] Instance exn_eq_dec : EqDecision exn.
Proof. solve_decision. Defined.

(** ** Checked strings *)
Definition require (r : regex) (v : json) : res exn string :=
  match v with
  | JStr s => ensure fullmatch r s else UpdateRejected BAD_REQUEST in Ok s
  | _ => Err (UpdateRejected BAD_REQUEST)
  end.

Definition require_version : json -> res exn string := require VERSION.
Definition require_digest : json -> res exn string := require DIGEST.
Definition require_request_id : json -> res exn string := require REQUEST_ID.

(** [tuple(map(int, v.split(".")))] and the tuple comparison. *)
Definition version_tuple (v : string) : list Z :=
  map (digits_value 0) (split_on "."%char v).

Fixpoint tuple_lt (a b : list Z) : bool :=
  match a, b with
  | _, [] => false
  | [], _ :: _ => true
  | x :: a, y :: b => (x <? y) || ((x =? y) && tuple_lt a b)
  end.

Definition newer (target current : string) : res exn bool :=
  _ ← require_version (JStr target);
  _ ← require_version (JStr current);
  Ok (tuple_lt (version_tuple current) (version_tuple target)).

(** ** Requests and authorization *)
Record Request := {
  action : string;
  request_id : string;
  target_version : string;
  expected_current_version : string;
  credential : string }.

Record Authorization := {
  allowed_peer_uid : Z;
  credential_sha256 : string }.

(** [Authorization.__post_init__] on an int uid. *)
Definition make_authorization (uid : Z) (sha : string) : res exn Authorization :=
  refuse uid <? 0 with UpdateRejected PEER_DENIED in
  _ ← require_digest (JStr sha);
  Ok {| allowed_peer_uid := uid; credential_sha256 := sha |}.

Definition is_install (a : string) : bool :=
  bool_decide (a ∈ ["install"; "submit"]).

(** [Authorization.check]; the peer uid comes from [SO_PEERCRED]. *)
Definition check (auth : Authorization) (request : Request) (peer_uid : Z)
    : res exn unit :=
  ensure peer_uid =? allowed_peer_uid auth else UpdateRejected PEER_DENIED in
  ensure is_install (action request) || bool_decide (action request = "status")
  else UpdateRejected BAD_REQUEST in
  if is_install (action request) then
    ensure fullmatch CREDENTIAL (credential request)
    else UpdateRejected AUTHORIZATION_REQUIRED in
    let digest := sha256_hex (credential request) in
    ensure bool_decide (digest = credential_sha256 auth)
    else UpdateRejected AUTHORIZATION_REQUIRED in
    Ok tt
  else Ok tt.

Definition STATUS_KEYS : list string := ["protocol"; "action"].
Definition INSTALL_KEYS : list string :=
  ["protocol"; "action"; "request_id"; "target_version";
   "expected_current_version"; "approve"; "credential"].

(** [value[key]] of a key known to be present. *)
Definition item (k : string) (kvs : list (string * json)) : json := default JNull (get k kvs).

(** [v is True]. *)
Definition is_json_true (v : json) : bool :=
  match v with JBool true => true | _ => false end.

(** [value["action"] not in {"install", "submit"}]: hashing a list or a dict
    raises [TypeError]. *)
Definition in_actions (v : json) : res exn bool :=
  match v with
  | JStr s => Ok (is_install s)
  | JList _ | JObj _ => Err OtherException
  | _ => Ok false
  end.

(** [value.get("action") == "status"]. *)
Definition is_status (v : option json) : bool :=
  match v with Some (JStr s) => bool_decide (s = "status") | _ => false end.

Definition decode_request (data : string) : res exn Request :=
  let bad := UpdateRejected BAD_REQUEST in
  let n := Z.of_nat (String.length data) in
  ensure (0 <? n) && (n <=? MAX_REQUEST_BYTES) else bad in
  match loads unique_pairs data with
  | Some (JObj value) =>
      match get "protocol" value with
      | Some (JNum (PInt 1)) =>
          if is_status (get "action" value) then
              ensure same_set (value.*1) STATUS_KEYS else bad in
              Ok {| action := "status"; request_id := ""; target_version := "";
                    expected_current_version := ""; credential := "" |}
          else
              ensure same_set (value.*1) INSTALL_KEYS else bad in
              known ← in_actions (item "action" value);
              ensure (known : bool) else bad in
              ensure is_json_true (item "approve" value) else bad in
              match item "credential" value, item "action" value with
              | JStr cred, JStr act =>
                  ensure fullmatch CREDENTIAL cred
                  else UpdateRejected AUTHORIZATION_REQUIRED in
                  rid ← require_request_id (item "request_id" value);
                  tv ← require_version (item "target_version" value);
                  cv ← require_version (item "expected_current_version" value);
                  Ok {| action := act; request_id := rid; target_version := tv;
                        expected_current_version := cv; credential := cred |}
              | _, _ => Err (UpdateRejected AUTHORIZATION_REQUIRED)
              end
      | _ => Err bad
      end
  | _ => Err bad
  end.

(** ** Lemmas *)
Lemma require_Ok r v s : require r v = Ok s <-> v = JStr s /\ matches r s.
Proof.
  unfold require. destruct v; try (split; [discriminate|intros [[=] _]]).
  destruct (fullmatch r s0) eqn:E.
  - apply fullmatch_spec in E. split; [intros [= ->]; done|by intros [[= ->] _]].
  - split; [discriminate|]. intros [[= ->] H]. apply fullmatch_spec in H. congruence.
Qed.

Lemma require_err r v e : require r v = Err e -> e = UpdateRejected BAD_REQUEST.
Proof. unfold require. destruct v; try (by intros [= <-]). destruct fullmatch; congruence. Qed.

Lemma code_value_inj c c' : code_value c = code_value c' -> c = c'.
Proof. by destruct c, c'. Qed.

Lemma ALL_CODES_complete c : c ∈ ALL_CODES.
Proof. apply list_elem_of_In. destruct c; cbn; tauto. Qed.

(** The tuple order on versions is a strict total order on their numbers. *)
Lemma tuple_lt_irrefl a : tuple_lt a a = false.
Proof. induction a; cbn; [done|]. by rewrite Z.ltb_irrefl, Z.eqb_refl. Qed.

Lemma tuple_lt_trans a b c :
  tuple_lt a b = true -> tuple_lt b c = true -> tuple_lt a c = true.
Proof.
  revert b c. induction a as [|x a IH]; intros [|y b] [|z c]; cbn; try done.
  rewrite !orb_true_iff, !andb_true_iff, !Z.ltb_lt, !Z.eqb_eq.
  intros [?|[? ?]] [?|[? ?]]; [left; lia..|]. right. split; [lia|eauto].
Qed.

Lemma tuple_lt_total a b : tuple_lt a b = false -> tuple_lt b a = false -> a = b.
Proof.
  revert b. induction a as [|x a IH]; intros [|y b]; cbn; try done.
  rewrite !orb_false_iff, !andb_false_iff, !Z.ltb_ge, !Z.eqb_neq.
  intros [? H1] [? H2]. assert (x = y) as -> by lia. f_equal. apply IH; tauto.
Qed.

(** ** The checked strings are written in their own characters *)
Lemma VERSION_verbatim : chars_in verbatim VERSION.
Proof.
  assert (chars_in verbatim NUMBER) as HN.
  { split; [intros c; by apply lit_verbatim|]. split; [|cbn; auto 10 with py].
    intros c. apply range_verbatim; lia. }
  assert (chars_in verbatim dot) as Hd by (intros c; by apply lit_verbatim).
  split; [done|]. split; [done|]. split; [done|]. by split.
Qed.

Lemma hex_verbatim n : chars_in verbatim (hex n).
Proof. apply chars_in_rep. auto with py. Qed.

Lemma REQUEST_ID_verbatim : chars_in verbatim REQUEST_ID.
Proof.
  unfold REQUEST_ID. cbn [chars_in].
  repeat match goal with |- _ /\ _ => split end;
    try apply hex_verbatim; try (intros c; by apply lit_verbatim).
  intros c. rewrite orb_true_iff. intros [H|H]; revert H; apply range_verbatim; lia.
Qed.

(** A checked field is written in its own characters, with a known length. *)
Lemma field_printed r (n : nat) s :
  chars_in verbatim r -> max_len r = Some n -> matches r s ->
  ascii_str s = true /\ (length (print_string s) <= n + 2)%nat.
Proof.
  intros Hc Hn Hs. pose proof (matches_chars _ _ _ Hc Hs) as Hv.
  split; [by apply verbatim_ascii|]. rewrite print_string_length by done.
  pose proof (matches_max_len _ _ _ Hs Hn). lia.
Qed.

(** ** Requests on the wire *)

(** The frame the console writes for an install or submit request. *)
Definition request_json (r : Request) : json :=
  JObj [("action", JStr (action r)); ("approve", JBool true);
        ("credential", JStr (credential r));
        ("expected_current_version", JStr (expected_current_version r));
        ("protocol", JNum (PInt 1)); ("request_id", JStr (request_id r));
        ("target_version", JStr (target_version r))].

(** An install request whose fields have their declared forms. *)
Record well_formed (r : Request) : Prop := {
  wr_action : is_install (action r) = true;
  wr_id : matches REQUEST_ID (request_id r);
  wr_target : matches VERSION (target_version r);
  wr_expected : matches VERSION (expected_current_version r);
  wr_credential : matches CREDENTIAL (credential r) }.

Lemma CREDENTIAL_verbatim : chars_in verbatim CREDENTIAL.
Proof.
  apply chars_in_rep. intros c. rewrite !orb_true_iff.
  intros [[[[H|H]|H]|H]|H]; revert H.
  - apply range_verbatim; lia.
  - apply range_verbatim; lia.
  - apply is_digit_verbatim.
  - by apply lit_verbatim.
  - by apply lit_verbatim.
Qed.

Lemma is_install_cases a : is_install a = true <-> a = "install" \/ a = "submit".
Proof. unfold is_install. rewrite bool_decide_eq_true, !elem_of_cons, elem_of_nil. tauto. Qed.

Lemma request_printed float_repr r :
  well_formed r -> plain (request_json r) = true /\
  (length (print float_repr (request_json r)) <= 300)%nat.
Proof.
  intros [Ha Hid Ht He Hc].
  destruct (field_printed _ 36 _ REQUEST_ID_verbatim eq_refl Hid) as [Hid1 Hid2].
  destruct (field_printed _ 14 _ VERSION_verbatim eq_refl Ht) as [Ht1 Ht2].
  destruct (field_printed _ 14 _ VERSION_verbatim eq_refl He) as [He1 He2].
  destruct (field_printed _ 43 _ CREDENTIAL_verbatim eq_refl Hc) as [Hc1 Hc2].
  assert (ascii_str (action r) = true /\ (length (print_string (action r)) <= 9)%nat) as [Ha1 Ha2].
  { apply is_install_cases in Ha as [-> | ->]; (split; [done|apply Nat.leb_le; reflexivity]). }
  split.
  - apply plain_object; [reflexivity|]. repeat constructor; done.
  - etrans; [apply (print_object_bound _ _ [18; 15; 58; 43; 12; 51; 33]%nat);
      [reflexivity|members_bound]|apply Nat.leb_le; reflexivity].
Qed.

Lemma item_get k kvs v : get k kvs = Some v -> item k kvs = v.
Proof. unfold item. by intros ->. Qed.

(** The strict reader accepts every well-formed request: the compact
    sorted-key frame of an install or submit request, whatever its strings, is
    within the 2048 bytes and decodes to that request. *)
Theorem decode_encoded_request r :
  well_formed r -> decode_request (dumps (fun _ => []) (request_json r)) = Ok r.
Proof.
  intros Hr. destruct (request_printed (fun _ => []) r Hr) as [Hp Hn].
  unfold decode_request, dumps. rewrite length_string_of.
  assert (1 <= Z.of_nat (length (print (fun _ => []) (request_json r)))) as H1.
  { unfold request_json. rewrite print_obj by reflexivity. cbn [length]. lia. }
  rewrite (proj2 (Z.ltb_lt 0 _)), (proj2 (Z.leb_le _ MAX_REQUEST_BYTES))
    by (unfold MAX_REQUEST_BYTES; lia).
  fold (dumps (fun _ => []) (request_json r)). rewrite loads_dumps by done.
  destruct r as [act rid tv cv cred], Hr as [Ha Hid Ht Hc Hcr].
  cbn [action request_id target_version expected_current_version credential] in *.
  apply fullmatch_spec in Hid, Ht, Hc, Hcr.
  apply is_install_cases in Ha as [-> | ->];
    lazy -[fullmatch REQUEST_ID VERSION CREDENTIAL]; by rewrite Hcr, Hid, Ht, Hc.
Qed.

(** What the reader lets through: a decoded request is either the bare
    status request or an install or submit request whose identifier, versions
    and credential have their declared forms; the frame was not larger than
    2048 bytes. *)
Theorem decoded_request_valid data r :
  decode_request data = Ok r ->
  Z.of_nat (String.length data) <= MAX_REQUEST_BYTES /\
  (well_formed r \/
   r = {| action := "status"; request_id := ""; target_version := "";
          expected_current_version := ""; credential := "" |}).
Proof.
  unfold decode_request. destruct (_ && _) eqn:En; [|done].
  apply andb_true_iff in En as [_ Hsize]. apply Z.leb_le in Hsize.
  destruct (loads unique_pairs data) as [[| | | | |value]|]; try done.
  destruct (get "protocol" value) as [[| |[[|[| |]|]|]| | |]|]; try done.
  destruct (is_status _).
  { destruct (same_set _ _); [|done]. intros [= <-]. auto. }
  destruct (same_set _ _); [|done]. intros (known & Hk & H)%bind_Ok. split; [done|]. left.
  destruct known; [|done]. destruct (is_json_true _); [|done].
  destruct (item "credential" value) as [| | |cred| |]; try done.
  destruct (item "action" value) as [| | |act| |]; try done.
  destruct (fullmatch CREDENTIAL cred) eqn:Ec; [|done].
  apply bind_Ok in H as (rid & H1 & (tv & H2 & (cv & H3 & [= <-])%bind_Ok)%bind_Ok).
  apply require_Ok in H1 as [_ ?], H2 as [_ ?], H3 as [_ ?].
  apply fullmatch_spec in Ec. cbn in Hk. injection Hk as Hk. by split.
Qed.

(** ** The properties at a concrete request *)
Definition sample_install : Request :=
  {| action := "submit"; request_id := "0f8fad5b-d9cb-469f-a165-70867728950e";
     target_version := "2.4.0"; expected_current_version := "2.3.9";
     credential := "abcdefghijklmnopqrstuvwxyzABCDEFGHIJKLMNOPQ" |}.

Lemma sample_install_ok : well_formed sample_install.
Proof. split; [reflexivity|apply fullmatch_spec; vm_compute; reflexivity..]. Qed.

Lemma decode_encoded_request_witness :
  decode_request (dumps (fun _ => []) (request_json sample_install)) = Ok sample_install.
Proof. apply decode_encoded_request. exact sample_install_ok. Defined.

Lemma decoded_request_valid_witness :
  Z.of_nat (String.length (dumps (fun _ => []) (request_json sample_install))) <= MAX_REQUEST_BYTES
  /\ (well_formed sample_install \/
      sample_install = {| action := "status"; request_id := ""; target_version := "";
                          expected_current_version := ""; credential := "" |}).
Proof. apply decoded_request_valid. vm_compute. reflexivity. Defined.

(** An [action] that is an array cannot be hashed: the reader raises [TypeError],
    not [UpdateRejected]. *)
Example unhashable_action :
  decode_request (dumps (fun _ => [])
    (JObj [("action", JList []); ("approve", JBool true); ("credential", JStr "");
           ("expected_current_version", JStr ""); ("protocol", JNum (PInt 1));
           ("request_id", JStr ""); ("target_version", JStr "")])) = Err OtherException.
Proof. vm_compute. reflexivity. Qed.
