(* ===== verification/Journal.v ===== *)
(** * The host journal  (update_helper/journal.py)

    A file [state.json] in a private directory that holds every update job and
    its events, written under an exclusive lock.  [_validate_state] is modelled
    on the raw JSON document; the operations work on the typed view of a
    validated document.  The file system and the clock are the fields of
    [journal] that say which write fails and what [time.time()] returns. *)
From Stdlib Require Import Ascii String.
From S2P Require Import Prelude PyNum PyStr Json Protocol.
#[local] Open Scope string_scope.
#[local] Open Scope list_scope.
#[local] Open Scope Z_scope.

Definition MAX_BYTES : Z := 512 * 1024.
Definition MAX_JOBS : Z := 128.
Definition MAX_EVENTS : Z := 32.
Definition MAX_TIME : Z := 253402300799.

(** ** Job states *)
Inductive State : Type :=
| REQUESTED | VALIDATED | STAGING | STAGED | STOP_REQUESTED | STOPPED
| BACKUP_STARTED | BACKED_UP | START_REQUESTED | STARTED | VERIFIED | COMPLETE
| ROLLING_BACK | RESTORED | FAILED | MANUAL_ACTION_REQUIRED.

#[export] Instance State_eq_dec : EqDecision State.
Proof. solve_decision. Defined.

Definition STATES : list State :=
  [REQUESTED; VALIDATED; STAGING; STAGED; STOP_REQUESTED; STOPPED; BACKUP_STARTED;
   BACKED_UP; START_REQUESTED; STARTED; VERIFIED; COMPLETE; ROLLING_BACK; RESTORED;
   FAILED; MANUAL_ACTION_REQUIRED].

Definition state_value (s : State) : string :=
  match s with
  | REQUESTED => "REQUESTED" | VALIDATED => "VALIDATED" | STAGING => "STAGING"
  | STAGED => "STAGED" | STOP_REQUESTED => "STOP_REQUESTED" | STOPPED => "STOPPED"
  | BACKUP_STARTED => "BACKUP_STARTED" | BACKED_UP => "BACKED_UP"
  | START_REQUESTED => "START_REQUESTED" | STARTED => "STARTED"
  | VERIFIED => "VERIFIED" | COMPLETE => "COMPLETE" | ROLLING_BACK => "ROLLING_BACK"
  | RESTORED => "RESTORED" | FAILED => "FAILED"
  | MANUAL_ACTION_REQUIRED => "MANUAL_ACTION_REQUIRED"
  end.

Definition TERMINAL (s : State) : bool :=
  bool_decide (s ∈ [COMPLETE; RESTORED; FAILED; MANUAL_ACTION_REQUIRED]).
Definition BEFORE_CUTOVER (s : State) : bool :=
  bool_decide (s ∈ [REQUESTED; VALIDATED; STAGING; STAGED]).

Definition ORDER : list State :=
  [REQUESTED; VALIDATED; STAGING; STAGED; STOP_REQUESTED; STOPPED; BACKUP_STARTED;
   BACKED_UP; START_REQUESTED; STARTED; VERIFIED; COMPLETE].

(** [NEXT.get(state, set())], as the module builds it: the successor in
    [ORDER], then the failure exits, then the override of [ROLLING_BACK]. *)
Definition order_next (s : State) : list State :=
  flat_map (fun p => if bool_decide (p.1 = s) then [p.2] else [])
    (combine ORDER (drop 1 ORDER)).

Definition NEXT (s : State) : list State :=
  if bool_decide (s = ROLLING_BACK) then [RESTORED; MANUAL_ACTION_REQUIRED]
  else order_next s
    ++ (if BEFORE_CUTOVER s then [FAILED] else [])
    ++ (if negb (TERMINAL s) && negb (BEFORE_CUTOVER s)
        then [ROLLING_BACK; MANUAL_ACTION_REQUIRED] else []).

Definition allowed (s t : State) : bool := bool_decide (t ∈ NEXT s).

(** Membership of a string in the enumerations. *)
Definition state_of (s : string) : option State :=
  find (fun x => bool_decide (state_value x = s)) STATES.
Definition code_of (s : string) : option Code :=
  find (fun x => bool_decide (code_value x = s)) ALL_CODES.

(** ** The typed journal *)
Record event := {
  sequence : Z;
  ev_state : State;
  time : Z;
  code : option Code }.

Record job := {
  job_request_id : string;
  job_target_version : string;
  job_expected_version : string;
  state : State;
  events : list event;
  backup_sha256 : option string;
  artifact_sha256 : option string }.

#[export] Instance event_eq_dec : EqDecision event.
Proof. solve_decision. Defined.
#[export] Instance job_eq_dec : EqDecision job.
Proof. solve_decision. Defined.

(** The dictionaries, with their keys in the order [sort_keys] writes. *)
Definition opt_str (o : option string) : json :=
  match o with Some s => JStr s | None => JNull end.

Definition json_of_event (e : event) : json :=
  JObj [("code", opt_str (code_value <$> code e));
        ("sequence", JNum (PInt (sequence e)));
        ("state", JStr (state_value (ev_state e)));
        ("time", JNum (PInt (time e)))].

Definition json_of_job (j : job) : json :=
  JObj [("artifact_sha256", opt_str (artifact_sha256 j));
        ("backup_sha256", opt_str (backup_sha256 j));
        ("events", JList (map json_of_event (events j)));
        ("expected_current_version", JStr (job_expected_version j));
        ("request_id", JStr (job_request_id j));
        ("state", JStr (state_value (state j)));
        ("target_version", JStr (job_target_version j))].

Definition json_of_jobs (l : list job) : json :=
  JObj [("jobs", JList (map json_of_job l)); ("schema", JNum (PInt 1))].

(** The typed view of a document. *)
Definition as_str (v : json) : option string :=
  match v with JStr s => Some s | _ => None end.
Definition as_int (v : json) : option Z :=
  match v with JNum (PInt n) => Some n | _ => None end.
Definition as_opt_str (v : json) : option (option string) :=
  match v with JNull => Some None | JStr s => Some (Some s) | _ => None end.

Definition get_int (k : string) (kvs : list (string * json)) : option Z :=
  match get k kvs with Some v => as_int v | None => None end.
Definition get_str (k : string) (kvs : list (string * json)) : option string :=
  match get k kvs with Some v => as_str v | None => None end.
Definition get_opt_str (k : string) (kvs : list (string * json)) : option (option string) :=
  match get k kvs with Some v => as_opt_str v | None => None end.
Definition get_state (k : string) (kvs : list (string * json)) : option State :=
  match get_str k kvs with Some s => state_of s | None => None end.

Definition EVENT_KEYS : list string := ["sequence"; "state"; "time"; "code"].
Definition JOB_KEYS : list string :=
  ["request_id"; "target_version"; "expected_current_version"; "state"; "events";
   "backup_sha256"; "artifact_sha256"].

(** An event with exactly the four keys, an int [sequence] and [time], a known
    [state], and a [code] that is null or known. *)
Definition event_of_json (v : json) : option event :=
  match v with
  | JObj kvs =>
      if same_set (kvs.*1) EVENT_KEYS then
        match get_int "sequence" kvs, get_state "state" kvs,
              get_int "time" kvs, get_opt_str "code" kvs with
        | Some sq, Some st, Some t, Some None =>
            Some {| sequence := sq; ev_state := st; time := t; code := None |}
        | Some sq, Some st, Some t, Some (Some c) =>
            match code_of c with
            | Some c => Some {| sequence := sq; ev_state := st; time := t;
                                code := Some c |}
            | None => None
            end
        | _, _, _, _ => None
        end
      else None
  | _ => None
  end.

Definition get_events (kvs : list (string * json)) : option (list event) :=
  match get "events" kvs with
  | Some (JList l) => mapM event_of_json l
  | _ => None
  end.

(** A job with exactly the seven keys and fields of the right types. *)
Definition job_of_json (v : json) : option job :=
  match v with
  | JObj kvs =>
      if same_set (kvs.*1) JOB_KEYS then
        match get_str "request_id" kvs, get_str "target_version" kvs,
              get_str "expected_current_version" kvs, get_state "state" kvs,
              get_events kvs, get_opt_str "backup_sha256" kvs,
              get_opt_str "artifact_sha256" kvs with
        | Some rid, Some tv, Some cv, Some st, Some evs, Some b, Some a =>
            Some {| job_request_id := rid; job_target_version := tv;
                    job_expected_version := cv; state := st; events := evs;
                    backup_sha256 := b; artifact_sha256 := a |}
        | _, _, _, _, _, _, _ => None
        end
      else None
  | _ => None
  end.

Definition jobs_of_json (v : json) : option (list job) :=
  match v with
  | JObj kvs =>
      if same_set (kvs.*1) ["schema"; "jobs"] && bool_decide (get_int "schema" kvs = Some 1)
      then match get "jobs" kvs with
           | Some (JList l) => mapM job_of_json l
           | _ => None
           end
      else None
  | _ => None
  end.

(** ** [_validate_state] *)

(** The first event is [REQUESTED], each later one a successor; every event
    carries its position and a time before the year 10000. *)
Fixpoint check_events (index : Z) (previous : option State) (evs : list event) : bool :=
  match evs with
  | [] => true
  | e :: evs =>
      (sequence e =? index) && (0 <=? time e) && (time e <=? MAX_TIME)
      && match previous with
         | None => bool_decide (ev_state e = REQUESTED)
         | Some p => allowed p (ev_state e)
         end
      && check_events (index + 1) (Some (ev_state e)) evs
  end.

Definition optional_digest (d : option string) : bool :=
  match d with None => true | Some d => fullmatch DIGEST d end.

Definition has_state (s : State) (evs : list event) : bool :=
  existsb (fun e => bool_decide (ev_state e = s)) evs.

Definition check_job (j : job) : bool :=
  let n := Z.of_nat (length (events j)) in
  fullmatch REQUEST_ID (job_request_id j)
  && fullmatch VERSION (job_target_version j)
  && fullmatch VERSION (job_expected_version j)
  && optional_digest (backup_sha256 j)
  && optional_digest (artifact_sha256 j)
  && (1 <=? n) && (n <=? MAX_EVENTS)
  && check_events 0 None (events j)
  && bool_decide (ev_state <$> last_opt (events j) = Some (state j))
  && Bool.eqb (has_state BACKED_UP (events j)) (is_some (backup_sha256 j))
  && Bool.eqb (has_state STAGED (events j)) (is_some (artifact_sha256 j)).

(** A job that has not ended or awaits an operator. *)
Definition is_active (s : State) : bool :=
  negb (TERMINAL s) || bool_decide (s = MANUAL_ACTION_REQUIRED).

(** The jobs in order: identifiers seen so far, active jobs so far; an active
    job is the last one. *)
Fixpoint check_jobs (ids : list string) (active : Z) (l : list job) : bool :=
  match l with
  | [] => negb (1 <? active)
  | j :: l =>
      let active := active + (if is_active (state j) then 1 else 0) in
      check_job j
      && negb (bool_decide (job_request_id j ∈ ids))
      && negb (negb (active =? 0) && match l with [] => false | _ => true end)
      && check_jobs (job_request_id j :: ids) active l
  end.

Definition valid_jobs (l : list job) : bool :=
  (Z.of_nat (length l) <=? MAX_JOBS) && check_jobs [] 0 l.

Definition _validate_state (payload : json) : bool :=
  match jobs_of_json payload with
  | Some l => valid_jobs l
  | None => false
  end.

(** ** The journal object and its environment *)

(** How one write of [state.json] ends: it succeeds, it fails before the
    rename, or it fails after the rename (the directory [fsync]). *)
Inductive fault : Type := NoFault | BeforeReplace | AfterReplace.

(** What opening [operation.lock] meets. *)
Inductive lock_file : Type := LockOk | LockUnsafe | LockUnavailable | LockBusy.

Record journal := {
  file : option string;              (* the bytes of state.json *)
  file_safe : bool;                  (* _check_file and open succeed *)
  operation_lock : lock_file;
  io_failed : bool;
  local_lock : bool;                 (* the threading.Lock is taken *)
  lock_owner : option Z;             (* thread holding operation.lock *)
  write_fault : nat -> fault;        (* outcome of the n-th write *)
  writes : nat;
  clock : nat -> Z;                  (* int(time.time()) of the n-th call *)
  reads : nat }.

Definition set_file f j := {| file := f; file_safe := file_safe j;
  operation_lock := operation_lock j; io_failed := io_failed j;
  local_lock := local_lock j; lock_owner := lock_owner j;
  write_fault := write_fault j; writes := writes j; clock := clock j; reads := reads j |}.
Definition set_io_failed j := {| file := file j; file_safe := file_safe j;
  operation_lock := operation_lock j; io_failed := true;
  local_lock := local_lock j; lock_owner := lock_owner j;
  write_fault := write_fault j; writes := writes j; clock := clock j; reads := reads j |}.
Definition set_lock b o j := {| file := file j; file_safe := file_safe j;
  operation_lock := operation_lock j; io_failed := io_failed j;
  local_lock := b; lock_owner := o;
  write_fault := write_fault j; writes := writes j; clock := clock j; reads := reads j |}.
Definition count_write j := {| file := file j; file_safe := file_safe j;
  operation_lock := operation_lock j; io_failed := io_failed j;
  local_lock := local_lock j; lock_owner := lock_owner j;
  write_fault := write_fault j; writes := S (writes j); clock := clock j; reads := reads j |}.
Definition count_read j := {| file := file j; file_safe := file_safe j;
  operation_lock := operation_lock j; io_failed := io_failed j;
  local_lock := local_lock j; lock_owner := lock_owner j;
  write_fault := write_fault j; writes := writes j; clock := clock j; reads := S (reads j) |}.

Definition rejected (c : Code) : exn := UpdateRejected c.

(** The object that owns a journal: the journal itself, or a component whose
    state contains it. *)
Class HasJournal (S : Type) := {
  journal_of : S -> journal;
  with_journal : journal -> S -> S;
  journal_of_with : forall j s, journal_of (with_journal j s) = j;
  with_journal_of : forall s, with_journal (journal_of s) s = s;
  with_with : forall j j' s, with_journal j (with_journal j' s) = with_journal j s }.

#[export] Instance journal_has_journal : HasJournal journal.
Proof. by refine {| journal_of j := j; with_journal j _ := j |}. Defined.

Definition on_journal {S} `{HasJournal S} {A} (m : ST journal exn A) : ST S exn A :=
  fun s => let '(r, j) := m (journal_of s) in (r, with_journal j s).

(** ** Methods *)
Definition read : ST journal exn (list job) := fun j =>
  if negb (file_safe j) then (Err (rejected JOURNAL_UNSAFE), j)
  else match file j with
  | None => (Err (rejected JOURNAL_CORRUPT), j)
  | Some data =>
      if MAX_BYTES <? Z.of_nat (String.length data)
      then (Err (rejected JOURNAL_CORRUPT), j)
      else match loads unique_pairs data with
      | None => (Err (rejected JOURNAL_CORRUPT), j)
      | Some value =>
          match jobs_of_json value with
          | Some jobs => if _validate_state value then (Ok jobs, j)
                         else (Err (rejected JOURNAL_CORRUPT), j)
          | None => (Err (rejected JOURNAL_CORRUPT), j)
          end
      end
  end.

(** The text of the journal; it holds no floats. *)
Definition encode (jobs : list job) : string :=
  dumps (fun _ => []) (json_of_jobs jobs).

(** [save], called on the thread [me]. *)
Definition save (me : Z) (jobs : list job) : ST journal exn unit := fun j =>
  if negb (bool_decide (lock_owner j = Some me)) then (Err (rejected BUSY), j)
  else if io_failed j then (Err (rejected JOURNAL_IO), j)
  else if negb (_validate_state (json_of_jobs jobs))
  then (Err (rejected JOURNAL_CORRUPT), j)
  else
    let data := encode jobs in
    if MAX_BYTES <? Z.of_nat (String.length data)
    then (Err (rejected JOURNAL_CAPACITY), j)
    else
      let j' := count_write j in
      match write_fault j (writes j) with
      | NoFault => (Ok tt, set_file (Some data) j')
      | BeforeReplace => (Err (rejected JOURNAL_IO), set_io_failed j')
      | AfterReplace => (Err (rejected JOURNAL_IO), set_io_failed (set_file (Some data) j'))
      end.

(** [with self._exclusive(): m] on the thread [me]. *)
Definition exclusive {S} `{HasJournal S} {A} (me : Z) (m : ST S exn A) : ST S exn A :=
  fun s =>
  let j := journal_of s in
  if local_lock j then (Err (rejected BUSY), s)
  else if io_failed j then (Err (rejected JOURNAL_IO), s)
  else match operation_lock j with
  | LockUnsafe => (Err (rejected JOURNAL_UNSAFE), s)
  | LockUnavailable => (Err (rejected JOURNAL_IO), with_journal (set_io_failed j) s)
  | LockBusy => (Err (rejected BUSY), s)
  | LockOk =>
      let '(r, s1) := m (with_journal (set_lock true (Some me) j) s) in
      (r, with_journal (set_lock false None (journal_of s1)) s1)
  end.

(** [int(time.time())]. *)
Definition now : ST journal exn Z := fun j => (Ok (clock j (reads j)), count_read j).

Definition find_job (rid : string) (l : list job) : option job :=
  find (fun x => bool_decide (job_request_id x = rid)) l.

Definition begin (me : Z) (request : Request) : ST journal exn (job * bool) :=
  jobs ← read;
  match find_job (request_id request) jobs with
  | Some j =>
      if bool_decide (job_target_version j = target_version request)
         && bool_decide (job_expected_version j = expected_current_version request)
      then mret (j, false)
      else raise (rejected REQUEST_ID_REUSED)
  | None =>
      if existsb (fun j => is_active (state j)) jobs
      then raise (rejected RECOVERY_REQUIRED)
      else if MAX_JOBS <=? Z.of_nat (length jobs)
      then raise (rejected JOURNAL_CAPACITY)
      else
        t ← now;
        let j := {| job_request_id := request_id request;
                    job_target_version := target_version request;
                    job_expected_version := expected_current_version request;
                    state := REQUESTED;
                    events := [{| sequence := 0; ev_state := REQUESTED; time := t;
                                  code := None |}];
                    backup_sha256 := None; artifact_sha256 := None |} in
        _ ← save me (jobs ++ [j]);
        mret (j, true)
  end.

(** The fields [transition] sets in the job it found. *)
Definition step_job (j : job) (st : State) (t : Z) (c : option Code)
    (backup artifact : option string) : job :=
  {| job_request_id := job_request_id j;
     job_target_version := job_target_version j;
     job_expected_version := job_expected_version j;
     state := st;
     events := events j ++ [{| sequence := Z.of_nat (length (events j)); ev_state := st;
                               time := t; code := c |}];
     backup_sha256 := match backup with Some b => Some b | None => backup_sha256 j end;
     artifact_sha256 := match artifact with Some a => Some a | None => artifact_sha256 j end |}.

(** [require_digest] where [expected], refusal of the argument elsewhere. *)
Definition check_receipt (expected : bool) (digest : option string) : res exn unit :=
  if expected then _ ← require_digest (opt_str digest); Ok tt
  else match digest with
       | None => Ok tt
       | Some _ => Err (rejected INVALID_TRANSITION)
       end.

(** The update of the first job with this identifier, in place. *)
Fixpoint update_job (rid : string) (j' : job) (l : list job) : list job :=
  match l with
  | [] => []
  | j :: l => if bool_decide (job_request_id j = rid) then j' :: l
              else j :: update_job rid j' l
  end.

Definition transition (me : Z) (rid : string) (st : State) (c : option Code)
    (backup artifact : option string) : ST journal exn job :=
  jobs ← read;
  match find_job rid jobs with
  | None => raise (rejected INVALID_TRANSITION)
  | Some j =>
      if negb (allowed (state j) st) then raise (rejected INVALID_TRANSITION)
      else
        _ ← of_res (check_receipt (bool_decide (st = BACKED_UP)) backup);
        _ ← of_res (check_receipt (bool_decide (st = STAGED)) artifact);
        t ← now;
        let j' := step_job j st t c backup artifact in
        _ ← save me (update_job rid j' jobs);
        mret j'
  end.

(** One interrupted job: failed before the cutover, otherwise handed over. *)
Definition recover_job (me : Z) (j : job) : ST journal exn unit :=
  if TERMINAL (state j) then mret tt
  else
    let before := BEFORE_CUTOVER (state j) in
    _ ← transition me (job_request_id j)
          (if before then FAILED else MANUAL_ACTION_REQUIRED)
          (Some (if before then INTERRUPTED_BEFORE_CUTOVER else RECOVERY_REQUIRED))
          None None;
    mret tt.

Definition recover_interrupted (me : Z) : ST journal exn unit :=
  exclusive me (jobs ← read; for_each jobs (recover_job me)).

(** What a job shows: the dictionary of [public_job]. *)
Record public := {
  pub_state : State;
  pub_request_id : string;
  pub_target_version : string;
  pub_version_before : string;
  pub_code : option Code;
  pub_events : list event;
  pub_recovery_required : bool }.

(** [job["events"][-1]] of a validated job, which has an event. *)
Definition public_job (j : job) : public :=
  {| pub_state := state j;
     pub_request_id := job_request_id j;
     pub_target_version := job_target_version j;
     pub_version_before := job_expected_version j;
     pub_code := last_opt (events j) ≫= code;
     pub_events := events j;
     pub_recovery_required := bool_decide (state j = MANUAL_ACTION_REQUIRED) |}.

(** [None] is the idle status of an empty journal. *)
Definition public_status : ST journal exn (option public) :=
  jobs ← read;
  mret (public_job <$> last_opt jobs).

(** [initialize]: [before] and [after] are the directory listings it makes
    before taking and while holding the newly created lock. *)
Definition initialize (me : Z) (before after : list string) : ST journal exn unit :=
  if negb (bool_decide (before = [])) then raise (rejected JOURNAL_UNSAFE)
  else exclusive me
    (if same_set after ["operation.lock"] then save me []
     else raise (rejected JOURNAL_UNSAFE)).

(** ** Lemmas on the enumerations and on dictionaries *)
Lemma state_of_value s : state_of (state_value s) = Some s.
Proof. by destruct s. Qed.

Lemma state_of_Some x s : state_of x = Some s -> x = state_value s.
Proof.
  unfold state_of. intros H. apply find_some in H as [_ H]. by bdestr.
Qed.

Lemma code_of_value c : code_of (code_value c) = Some c.
Proof. by destruct c. Qed.

Lemma code_of_Some x c : code_of x = Some c -> x = code_value c.
Proof. unfold code_of. intros H. apply find_some in H as [_ H]. by bdestr. Qed.

Lemma get_member k kvs : k ∈ kvs.*1 -> get k kvs = Some (item k kvs).
Proof.
  unfold item. induction kvs as [|[k' v] kvs IH]; cbn; [by inversion 1|].
  intros H. destruct (decide (k = k')) as [->|Hne].
  - by rewrite bool_decide_eq_true_2.
  - rewrite bool_decide_eq_false_2 by done. apply IH.
    by apply elem_of_cons in H as [?|?].
Qed.

Lemma same_set_get kvs keys k :
  same_set (kvs.*1) keys = true -> k ∈ keys -> get k kvs = Some (item k kvs).
Proof. intros H Hk. apply get_member. by apply (proj1 (same_set_spec _ _) H). Qed.

(** [NEXT] in one table. *)
Lemma allowed_spec s t : allowed s t = true <-> t ∈ NEXT s.
Proof. unfold allowed. apply bool_decide_eq_true. Qed.

Lemma terminal_stuck s t : TERMINAL s = true -> t ∉ NEXT s.
Proof. destruct s; try discriminate; intros _; apply (bool_decide_unpack _); reflexivity. Qed.
