(* ===== verification/JournalFacts.v ===== *)
(** * What the host journal guarantees

    The validator decides the declared shape of a journal; a written journal is
    read back; every operation keeps a readable journal readable and only
    extends its histories; recovery ends every interrupted job.  The properties
    are in the last section. *)
From Stdlib Require Import Ascii String.
From S2P Require Import Prelude PyNum PyStr Json Protocol Journal.
#[local] Open Scope string_scope.
#[local] Open Scope list_scope.
#[local] Open Scope Z_scope.

(** ** Well-formed journals *)

(** A history starts at [REQUESTED] and follows [NEXT]. *)
Definition valid_history (sts : list State) : Prop :=
  sts !! 0%nat = Some REQUESTED /\
  forall i s t, sts !! i = Some s -> sts !! S i = Some t -> t ∈ NEXT s.

Record wf_job (j : job) : Prop := {
  wf_id : matches REQUEST_ID (job_request_id j);
  wf_target : matches VERSION (job_target_version j);
  wf_expected : matches VERSION (job_expected_version j);
  wf_backup : forall d, backup_sha256 j = Some d -> matches DIGEST d;
  wf_artifact : forall d, artifact_sha256 j = Some d -> matches DIGEST d;
  wf_length : 1 <= Z.of_nat (length (events j)) <= MAX_EVENTS;
  wf_history : valid_history (ev_state <$> events j);
  wf_state : last_opt (ev_state <$> events j) = Some (state j);
  wf_event : forall i e, events j !! i = Some e ->
    sequence e = Z.of_nat i /\ 0 <= time e <= MAX_TIME;
  wf_backed_up : BACKED_UP ∈ (ev_state <$> events j) <-> is_Some (backup_sha256 j);
  wf_staged : STAGED ∈ (ev_state <$> events j) <-> is_Some (artifact_sha256 j) }.

Record wf_jobs (l : list job) : Prop := {
  wf_count : Z.of_nat (length l) <= MAX_JOBS;
  wf_unique : NoDup (job_request_id <$> l);
  wf_all : Forall wf_job l;
  wf_active : forall i j, l !! i = Some j -> is_active (state j) = true ->
    S i = length l }.

(** ** The validator decides well-formedness *)
Lemma check_events_spec i prev evs :
  check_events i prev evs = true <->
  (forall k e, evs !! k = Some e -> sequence e = i + Z.of_nat k /\ 0 <= time e <= MAX_TIME)
  /\ (forall e, evs !! 0%nat = Some e -> match prev with
        | None => ev_state e = REQUESTED | Some p => ev_state e ∈ NEXT p end)
  /\ (forall k e e', evs !! k = Some e -> evs !! S k = Some e' -> ev_state e' ∈ NEXT (ev_state e)).
Proof.
  revert i prev. induction evs as [|e evs IH]; intros i prev; cbn [check_events].
  - split; [intros _|done]. repeat split; intros; simplify_eq/=; done.
  - rewrite !andb_true_iff, IH, Z.eqb_eq, !Z.leb_le. split.
    + intros [[[[Hs H0] Ht] Hp] (Hseq & Hhd & Hnext)]. split; [|split].
      * intros [|k] x Hx; cbn in Hx; simplify_eq; [lia|].
        destruct (Hseq k x Hx). lia.
      * intros x [= <-]. destruct prev; [by apply allowed_spec|by bdestr].
      * intros [|k] x y Hx Hy; cbn in Hx, Hy; simplify_eq; [|by eapply Hnext].
        by apply Hhd.
    + intros (Hseq & Hhd & Hnext). destruct (Hseq 0%nat e eq_refl) as [Hs Ht].
      split; [|split; [|split]].
      * repeat split; try lia. specialize (Hhd e eq_refl).
        destruct prev; [by apply allowed_spec|by apply bool_decide_eq_true].
      * intros k x Hx. destruct (Hseq (S k) x Hx). lia.
      * intros x Hx. by apply (Hnext 0%nat).
      * intros k x y Hx Hy. by apply (Hnext (S k)).
Qed.

Lemma has_state_spec s evs : has_state s evs = true <-> s ∈ (ev_state <$> evs).
Proof.
  unfold has_state. rewrite existsb_exists, list_elem_of_fmap. split.
  - intros (e & He & Hs). exists e. bdestr. split; [done|by apply list_elem_of_In].
  - intros (e & -> & He). exists e. split; [by apply list_elem_of_In|].
    by apply bool_decide_eq_true.
Qed.

Lemma optional_digest_spec d :
  optional_digest d = true <-> forall x, d = Some x -> matches DIGEST x.
Proof.
  destruct d as [d|]; cbn; [rewrite fullmatch_spec; naive_solver|naive_solver].
Qed.

Lemma eqb_iff b P {A} (o : option A) :
  (b = true <-> P) -> Bool.eqb b (is_some o) = true <-> (P <-> is_Some o).
Proof.
  intros Hb. rewrite Bool.eqb_true_iff. destruct o; cbn; split.
  - intros ->. split; [eauto|]. intros _. by apply Hb.
  - intros H. apply Hb, H. eauto.
  - intros ->. split; [|by intros [? [=]]]. intros HP. apply Hb in HP. done.
  - intros H. destruct b; [|done]. destruct (proj1 H) as [? [=]]. by apply Hb.
Qed.

Lemma last_opt_fmap {A B} (f : A -> B) l : last_opt (f <$> l) = f <$> last_opt l.
Proof. induction l as [|x [|y l] IH]; [done..|exact IH]. Qed.

Lemma check_job_spec j : check_job j = true <-> wf_job j.
Proof.
  unfold check_job. rewrite !andb_true_iff, !fullmatch_spec, !optional_digest_spec,
    !Z.leb_le, check_events_spec, bool_decide_eq_true, <- last_opt_fmap,
    (eqb_iff _ _ _ (has_state_spec BACKED_UP (events j))),
    (eqb_iff _ _ _ (has_state_spec STAGED (events j))).
  split.
  - intros [[[[[[[[[[Hid Htv] Hcv] Hb] Ha] Hn1] Hn2] (Hseq & Hhd & Hnext)] Hst] HB] HS].
    split; try done.
    split.
    + rewrite list_lookup_fmap. destruct (events j) as [|e l]; cbn in *; [lia|].
      f_equal. by apply Hhd.
    + intros i s t. rewrite !list_lookup_fmap.
      destruct (events j !! i) as [e|] eqn:E1, (events j !! S i) as [e'|] eqn:E2;
        cbn; try discriminate. intros [= <-] [= <-]. by eapply Hnext.
  - intros [Hid Htv Hcv Hb Ha [Hn1 Hn2] [H0 Hh] Hst Hev HB HS].
    repeat split; try done; try (by apply HB || by apply HS);
      try (by eapply Hev).
    + intros e He. rewrite list_lookup_fmap, He in H0. cbn in H0. congruence.
    + intros k e e' H1 H2. apply (Hh k); by rewrite list_lookup_fmap, ?H1, ?H2.
Qed.

Lemma check_jobs_spec ids l :
  check_jobs ids 0 l = true <->
  Forall wf_job l /\ NoDup (job_request_id <$> l)
  /\ (forall x, x ∈ ids -> x ∉ (job_request_id <$> l))
  /\ (forall i j, l !! i = Some j -> is_active (state j) = true -> S i = length l).
Proof.
  revert ids. induction l as [|j l IH]; intros ids.
  { cbn. split; [intros _|done]. split; [done|]. split; [constructor|].
    split; [by intros ? ? ?%elem_of_nil|]. intros; simplify_eq/=. }
  assert (Hstep : check_jobs ids 0 (j :: l) = true <->
    wf_job j /\ (job_request_id j ∉ ids) /\ (is_active (state j) = true -> l = [])
    /\ check_jobs (job_request_id j :: ids) 0 l = true).
  { cbn [check_jobs]. rewrite !andb_true_iff, check_job_spec, negb_true_iff,
      bool_decide_eq_false.
    destruct (is_active (state j)), l; cbn; intuition (done || congruence). }
  rewrite Hstep, IH, fmap_cons, list.Forall_cons, list.NoDup_cons. clear Hstep IH. split.
  - intros (Hj & Hid & Hact & Hall & Hnd & Hfresh & Hlast). split; [done|].
    split; [split; [apply Hfresh; left|done]|]. split.
    + intros x Hx [->|Hx']%elem_of_cons; [done|]. by apply (Hfresh x); [right|].
    + intros [|i] j' Hi Ha; cbn in *; simplify_eq; [by rewrite Hact|].
      f_equal. by eapply Hlast.
  - intros ([Hj Hall] & [Hid Hnd] & Hfresh & Hlast). split; [done|].
    split; [intros Hin; eapply Hfresh; [exact Hin|left]|]. split.
    { intros Ha. specialize (Hlast 0%nat j eq_refl Ha). by destruct l. }
    split; [done|]. split; [done|]. split.
    + intros x [->|Hx]%elem_of_cons; [done|]. intros Hx'. by eapply Hfresh; [|right].
    + intros i j' Hi Ha. specialize (Hlast (S i) j' Hi Ha). cbn in Hlast. lia.
Qed.

Lemma valid_jobs_spec l : valid_jobs l = true <-> wf_jobs l.
Proof.
  unfold valid_jobs. rewrite andb_true_iff, Z.leb_le, check_jobs_spec. split.
  - intros (? & ? & ? & ? & ?). by split.
  - intros []. split; [done|]. split; [done|]. split; [done|].
    split; [by intros ? ?%elem_of_nil|done].
Qed.

(** ** The typed view of a written journal *)
Lemma event_of_json_of e : event_of_json (json_of_event e) = Some e.
Proof.
  destruct e as [sq st t [c|]]; cbv -[state_of state_value code_of code_value];
    rewrite state_of_value; [by rewrite code_of_value|done].
Qed.

Lemma mapM_fmap_id {A B} (f : B -> option A) (g : A -> B) l :
  (forall x, f (g x) = Some x) -> mapM f (map g l) = Some l.
Proof. intros H. induction l; cbn; [done|]. by rewrite H, IHl. Qed.

Lemma job_of_json_of j : job_of_json (json_of_job j) = Some j.
Proof.
  destruct j as [rid tv cv st evs b a].
  cbv -[state_of state_value mapM option_bind option_ret map event_of_json json_of_event].
  rewrite state_of_value, (mapM_fmap_id _ json_of_event evs event_of_json_of).
  by destruct b, a.
Qed.

Lemma jobs_of_json_of l : jobs_of_json (json_of_jobs l) = Some l.
Proof.
  cbv -[mapM option_bind option_ret map job_of_json json_of_job]. apply mapM_fmap_id, job_of_json_of.
Qed.

Lemma validate_json_of l : _validate_state (json_of_jobs l) = valid_jobs l.
Proof. unfold _validate_state. by rewrite jobs_of_json_of. Qed.

(** ** The written journal is plain and within [MAX_BYTES] *)
Lemma state_printed s : ascii_str (state_value s) = true
  /\ (length (print_string (state_value s)) <= 24)%nat.
Proof. by destruct s; (split; [done|]; apply Nat.leb_le). Qed.

Lemma code_printed c : ascii_str (code_value c) = true
  /\ (length (print_string (code_value c)) <= 28)%nat.
Proof. by destruct c; (split; [done|]; apply Nat.leb_le). Qed.

Section Written.
Context (float_repr : Z -> list Z).
Local Abbreviation pr := (print float_repr).

Lemma opt_str_printed (n : nat) o :
  (2 <= n)%nat ->
  (forall s, o = Some s -> ascii_str s = true /\ (length (print_string s) <= n + 2)%nat) ->
  plain (opt_str o) = true /\ (length (pr (opt_str o)) <= n + 2)%nat.
Proof.
  intros Hn Ho. destruct o as [s|]; [exact (Ho s eq_refl)|]. split; [done|]. cbn. lia.
Qed.

Lemma event_printed i e :
  sequence e = Z.of_nat i -> Z.of_nat i < MAX_EVENTS -> 0 <= time e <= MAX_TIME ->
  plain (json_of_event e) = true /\ (length (pr (json_of_event e)) <= 105)%nat.
Proof.
  intros Hs Hi Ht. unfold MAX_EVENTS, MAX_TIME in *.
  destruct (opt_str_printed 26 (code_value <$> code e)) as [Hc1 Hc2]; [lia| |].
  { intros s Hcs. apply fmap_Some in Hcs as (c & _ & ->). apply code_printed. }
  destruct (state_printed (ev_state e)) as [Hs1 Hs2].
  destruct (int_printed float_repr 1 (sequence e)) as [Hq1 Hq2]; [cbn; lia..|].
  destruct (int_printed float_repr 11 (time e)) as [Ht1 Ht2]; [cbn; lia..|].
  unfold json_of_event. split.
  - apply plain_object; [reflexivity|]. repeat constructor; done.
  - etrans; [apply (print_object_bound _ _ [35; 13; 32; 19]%nat); [reflexivity|]|
      apply Nat.leb_le; reflexivity].
    members_bound.
Qed.

Lemma job_printed j :
  wf_job j -> plain (json_of_job j) = true /\ (length (pr (json_of_job j)) <= 3737)%nat.
Proof.
  intros [Hid Htv Hcv Hb Ha Hn _ _ Hev _ _].
  destruct (field_printed _ 36 _ REQUEST_ID_verbatim eq_refl Hid) as [Hid1 Hid2].
  destruct (field_printed _ 14 _ VERSION_verbatim eq_refl Htv) as [Htv1 Htv2].
  destruct (field_printed _ 14 _ VERSION_verbatim eq_refl Hcv) as [Hcv1 Hcv2].
  destruct (state_printed (state j)) as [Hs1 Hs2].
  destruct (opt_str_printed 64 (backup_sha256 j)) as [Hb1 Hb2]; [lia| |].
  { intros d Hd. apply (field_printed DIGEST); [apply hex_verbatim|done|auto]. }
  destruct (opt_str_printed 64 (artifact_sha256 j)) as [Ha1 Ha2]; [lia| |].
  { intros d Hd. apply (field_printed DIGEST); [apply hex_verbatim|done|auto]. }
  assert (Forall (fun v => plain v = true /\ length (pr v) <= 105)%nat
            (map json_of_event (events j))) as Hevs.
  { apply List.Forall_forall. intros v Hv. apply in_map_iff in Hv as (e & <- & He).
    apply list_elem_of_In, list_elem_of_lookup in He as [i Hi].
    destruct (Hev i e Hi) as [Hq Ht]. apply lookup_lt_Some in Hi.
    apply (event_printed i); [done|unfold MAX_EVENTS in *; lia|done]. }
  apply list.Forall_and in Hevs as [He1 He2].
  assert (length (pr (JList (map json_of_event (events j)))) <= 3394)%nat as He3.
  { etrans; [by apply print_list_bound|]. rewrite length_map.
    unfold MAX_EVENTS in Hn. lia. }
  unfold json_of_job. split.
  - apply plain_object; [reflexivity|]. repeat constructor; try done.
    cbn [plain snd]. by apply forallb_Forall.
  - etrans; [apply (print_object_bound _ _ [84; 82; 3403; 43; 51; 32; 33]%nat);
      [reflexivity|]|apply Nat.leb_le; reflexivity].
    members_bound.
Qed.

Lemma jobs_printed l :
  wf_jobs l -> plain (json_of_jobs l) = true /\
  Z.of_nat (length (pr (json_of_jobs l))) <= MAX_BYTES.
Proof.
  intros [Hn _ Hall _].
  assert (Forall (fun v => plain v = true /\ length (pr v) <= 3737)%nat
            (map json_of_job l)) as Hl.
  { apply Forall_map. eapply List.Forall_impl; [|exact Hall]. apply job_printed. }
  apply list.Forall_and in Hl as [Hl1 Hl2].
  pose proof (print_list_bound _ _ _ Hl2) as Hb. rewrite length_map in Hb.
  unfold json_of_jobs. split.
  - apply plain_object; [reflexivity|]. repeat constructor.
    cbn [plain snd]. by apply forallb_Forall.
  - pose proof (print_object_bound float_repr
      [("jobs", JList (map json_of_job l)); ("schema", JNum (PInt 1))]
      [7 + length (pr (JList (map json_of_job l))); 10]%nat eq_refl) as Ho.
    assert (length (pr (JObj [("jobs", JList (map json_of_job l)); ("schema", JNum (PInt 1))]))
      <= 21 + length (pr (JList (map json_of_job l))))%nat as Ho'.
    { etrans; [apply Ho|cbn [map list_sum fold_right]; lia].
      members_bound. }
    unfold MAX_BYTES, MAX_JOBS in *. lia.
Qed.
End Written.

(** ** Reading and saving *)
Lemma loads_encode l :
  wf_jobs l -> loads unique_pairs (encode l) = Some (json_of_jobs l).
Proof. intros Hl. apply loads_dumps, (jobs_printed (fun _ => []) _ Hl). Qed.

Lemma encode_size l : wf_jobs l -> Z.of_nat (String.length (encode l)) <= MAX_BYTES.
Proof.
  intros Hl. unfold encode, dumps. rewrite length_string_of.
  apply (jobs_printed (fun _ => []) _ Hl).
Qed.

Lemma read_same j : (read j).2 = j.
Proof.
  unfold read. destruct (file_safe j), (file j) as [d|]; cbn [negb]; try done.
  destruct (MAX_BYTES <? _); [done|]. destruct (loads _ _); [|done].
  destruct (jobs_of_json _); [|done]. by destruct (_validate_state _).
Qed.

(** [read] returns these jobs. *)
Definition holds (j : journal) (l : list job) : Prop := read j = (Ok l, j).

Lemma read_Ok j l j' : read j = (Ok l, j') -> j' = j /\ holds j l /\ wf_jobs l.
Proof.
  intros H. pose proof (read_same j) as Hs. rewrite H in Hs. cbn in Hs. subst j'.
  split; [done|]. split; [done|]. unfold read in H.
  destruct (file_safe j), (file j) as [d|]; cbn [negb] in H; try discriminate.
  destruct (MAX_BYTES <? _); [discriminate|]. destruct (loads _ _) as [v|]; [|discriminate].
  destruct (jobs_of_json v) as [l'|] eqn:El; [|discriminate].
  unfold _validate_state in H. rewrite El in H.
  destruct (valid_jobs l') eqn:Ev; [|discriminate]. apply valid_jobs_spec. congruence.
Qed.

Lemma holds_wf j l : holds j l -> wf_jobs l.
Proof. intros H. by apply read_Ok in H as (_ & _ & ?). Qed.

Lemma holds_ext j j' l :
  file j' = file j -> file_safe j' = file_safe j -> holds j l -> holds j' l.
Proof.
  unfold holds. intros Hf Hs H. pose proof (read_same j') as Hj'.
  destruct (read j') as [r j''] eqn:E. cbn in Hj'. subst j''.
  unfold read in *. rewrite Hf, Hs in E.
  destruct (file_safe j), (file j) as [d|]; cbn [negb] in *; try congruence.
  destruct (MAX_BYTES <? _); [congruence|]. destruct (loads _ _); [|congruence].
  destruct (jobs_of_json _); [|congruence]. destruct (_validate_state _); congruence.
Qed.

Lemma holds_fun j l l' : holds j l -> holds j l' -> l = l'.
Proof. unfold holds. congruence. Qed.

Lemma holds_encoded j l :
  file_safe j = true -> file j = Some (encode l) -> wf_jobs l -> holds j l.
Proof.
  intros Hs Hf Hl. unfold holds, read. rewrite Hs, Hf. cbn [negb].
  rewrite (proj2 (Z.ltb_ge _ _)) by by apply encode_size.
  rewrite loads_encode, jobs_of_json_of, validate_json_of by done.
  by rewrite (proj2 (valid_jobs_spec l) Hl).
Qed.

Definition may_save (me : Z) (j : journal) : Prop :=
  lock_owner j = Some me /\ io_failed j = false.

(** The cases of [save]. *)
Lemma save_cases me l j r j' :
  save me l j = (r, j') ->
  (j' = j /\ r <> Ok tt) \/
  (may_save me j /\ wf_jobs l /\
   ((r = Ok tt /\ write_fault j (writes j) = NoFault
     /\ j' = set_file (Some (encode l)) (count_write j))
    \/ (r = Err (rejected JOURNAL_IO) /\
        (j' = set_io_failed (count_write j)
         \/ j' = set_io_failed (set_file (Some (encode l)) (count_write j)))))).
Proof.
  unfold save. intros H.
  destruct (bool_decide (lock_owner j = Some me)) eqn:E1; cbn [negb] in H;
    [|left; by simplify_eq].
  destruct (io_failed j) eqn:E2; [left; by simplify_eq|].
  rewrite validate_json_of in H. destruct (valid_jobs l) eqn:E3; cbn [negb] in H;
    [|left; by simplify_eq].
  apply valid_jobs_spec in E3. bdestr.
  destruct (MAX_BYTES <? _); [left; by simplify_eq|].
  right. split; [done|]. split; [done|].
  destruct (write_fault _ _) eqn:Ew; simplify_eq; auto.
Qed.

Lemma save_Ok me l j j' :
  save me l j = (Ok tt, j') ->
  may_save me j /\ wf_jobs l /\ j' = set_file (Some (encode l)) (count_write j).
Proof.
  intros H. apply save_cases in H as [[_ []]|(? & ? & [(? & ? & ?)|([=] & _)])]; done.
Qed.

(** A well-formed journal is always saved when the file system obeys. *)
Lemma save_total me l j :
  may_save me j -> wf_jobs l -> write_fault j (writes j) = NoFault ->
  save me l j = (Ok tt, set_file (Some (encode l)) (count_write j)).
Proof.
  intros [Ho Hf] Hl Hw. unfold save. rewrite bool_decide_eq_true_2, Hf by done.
  cbn [negb]. rewrite validate_json_of, (proj2 (valid_jobs_spec l) Hl). cbn [negb].
  rewrite (proj2 (Z.ltb_ge _ _)) by by apply encode_size. by rewrite Hw.
Qed.

(** ** One more event keeps a job well-formed *)

(** The longest run of the state machine: every step raises this rank. *)
Definition rank (s : State) : nat :=
  match s with
  | REQUESTED => 0 | VALIDATED => 1 | STAGING => 2 | STAGED => 3 | STOP_REQUESTED => 4
  | STOPPED => 5 | BACKUP_STARTED => 6 | BACKED_UP => 7 | START_REQUESTED => 8
  | STARTED => 9 | VERIFIED => 10 | COMPLETE => 11 | ROLLING_BACK => 12
  | RESTORED | FAILED | MANUAL_ACTION_REQUIRED => 13
  end.

Lemma next_rank s t : t ∈ NEXT s -> (rank s < rank t)%nat.
Proof.
  destruct s, t; intros H; try (apply Nat.ltb_lt; reflexivity);
    exfalso; revert H; apply (bool_decide_unpack _); reflexivity.
Qed.

Lemma history_rank sts i s : valid_history sts -> sts !! i = Some s -> (i <= rank s)%nat.
Proof.
  intros [_ Hn]. revert s. induction i as [|i IH]; intros s Hs; [lia|].
  destruct (lookup_lt_is_Some_2 sts i) as [p Hp].
  { apply lookup_lt_Some in Hs. lia. }
  specialize (IH p Hp). pose proof (next_rank p s (Hn i p s Hp Hs)). lia.
Qed.

Lemma rank_bound s : (rank s <= 13)%nat.
Proof. destruct s; cbn; lia. Qed.

Lemma history_length sts : valid_history sts -> (length sts <= 14)%nat.
Proof.
  intros Hh. destruct (decide (length sts <= 14)%nat) as [|Hl]; [done|].
  destruct (lookup_lt_is_Some_2 sts 14) as [s Hs]; [lia|].
  pose proof (history_rank _ _ _ Hh Hs). pose proof (rank_bound s). lia.
Qed.

Lemma last_opt_lookup {A} (l : list A) x :
  last_opt l = Some x <-> l !! pred (length l) = Some x.
Proof.
  induction l as [|y [|z l] IH]; [done..|]. exact IH.
Qed.

Lemma valid_history_snoc sts s t :
  valid_history sts -> last_opt sts = Some s -> t ∈ NEXT s -> valid_history (sts ++ [t]).
Proof.
  intros [H0 Hn] Hs Ht. split; [by apply lookup_app_l_Some|].
  apply last_opt_lookup in Hs. intros i a b Ha Hb.
  apply lookup_app_Some in Hb as [Hb|[Hi Hb]].
  - rewrite lookup_app_l in Ha by (apply lookup_lt_Some in Hb; lia). by apply (Hn i).
  - apply list_lookup_singleton_Some in Hb as [Hi' <-].
    rewrite lookup_app_l in Ha by (destruct sts; [done|cbn in *; lia]).
    replace (pred (length sts)) with i in Hs by lia. congruence.
Qed.

(** The receipts [transition] accepts, and those it stores. *)
Lemma check_receipt_Ok expected d :
  check_receipt expected d = Ok tt <->
  if expected then exists x, d = Some x /\ matches DIGEST x else d = None.
Proof.
  unfold check_receipt, require_digest. destruct expected, d as [x|]; cbn -[fullmatch DIGEST].
  - destruct (fullmatch DIGEST x) eqn:E; split; try done.
    + intros _. exists x. split; [done|by apply fullmatch_spec].
    + intros (y & [= <-] & Hy). apply fullmatch_spec in Hy. congruence.
  - split; [done|]. by intros (x & [=] & _).
  - split; [done|]. intros [=].
  - done.
Qed.

(** A receipt is recorded exactly when its state is reached. *)
Lemma receipt_step (target st : State) sts new (old : option string) :
  (target ∈ sts <-> is_Some old) ->
  (if bool_decide (st = target) then exists x, new = Some x /\ matches DIGEST x else new = None) ->
  target ∈ sts ++ [st] <-> is_Some (match new with Some b => Some b | None => old end).
Proof.
  intros Hold Hnew. rewrite elem_of_app, list_elem_of_singleton.
  destruct (bool_decide (st = target)) eqn:E; bdestr.
  - destruct Hnew as (x & -> & _). split; [eauto|]. by right.
  - subst new. rewrite Hold. split; [by intros [|]|]. by left.
Qed.

Lemma receipt_matches (b : bool) new (old : option string) d :
  (forall d, old = Some d -> matches DIGEST d) ->
  (if b then exists x, new = Some x /\ matches DIGEST x else new = None) ->
  (match new with Some b => Some b | None => old end) = Some d -> matches DIGEST d.
Proof.
  intros Ho Hn. destruct b; [destruct Hn as (x & -> & Hx)|subst; apply Ho].
  by intros [= <-].
Qed.

Lemma step_job_wf j st t c b a :
  wf_job j -> allowed (state j) st = true -> 0 <= t <= MAX_TIME ->
  check_receipt (bool_decide (st = BACKED_UP)) b = Ok tt ->
  check_receipt (bool_decide (st = STAGED)) a = Ok tt ->
  wf_job (step_job j st t c b a).
Proof.
  intros [Hid Htv Hcv Hb Ha [Hn1 Hn2] Hh Hst Hev HB HS] Hal Ht Hrb Hra.
  apply allowed_spec in Hal. apply check_receipt_Ok in Hrb, Hra.
  assert (valid_history (ev_state <$> events (step_job j st t c b a))) as Hh'.
  { cbn. rewrite fmap_app. by apply (valid_history_snoc _ (state j)). }
  split; cbn; try done.
  - intros d. by apply receipt_matches with (b := bool_decide (st = BACKED_UP)).
  - intros d. by apply receipt_matches with (b := bool_decide (st = STAGED)).
  - apply history_length in Hh'. rewrite length_fmap in Hh'. cbn in Hh'.
    unfold MAX_EVENTS. rewrite length_app in *. cbn in *. lia.
  - rewrite fmap_app. apply last_opt_snoc.
  - intros i e Hi. apply lookup_app_Some in Hi as [Hi|[Hi He]]; [by apply Hev|].
    apply list_lookup_singleton_Some in He as [Hz <-]. cbn. split; [lia|done].
  - rewrite fmap_app. by apply receipt_step.
  - rewrite fmap_app. by apply receipt_step.
Qed.

(** ** The operations on a stored journal *)
Lemma find_job_update rid l j :
  find_job rid l = Some j ->
  job_request_id j = rid /\
  exists i, l !! i = Some j /\ forall j', update_job rid j' l = <[i := j']> l.
Proof.
  unfold find_job. induction l as [|x l IH]; cbn; [done|].
  destruct (bool_decide (job_request_id x = rid)) eqn:E.
  - intros [= ->]. bdestr. split; [done|]. by exists 0%nat.
  - intros H. destruct (IH H) as (Hid & i & Hi & Hu). split; [done|].
    exists (S i). split; [done|]. intros j'. by rewrite Hu.
Qed.

Lemma find_job_None rid l : find_job rid l = None <-> rid ∉ (job_request_id <$> l).
Proof.
  unfold find_job. induction l as [|x l IH]; cbn; [split; [intros _; apply not_elem_of_nil|done]|].
  rewrite not_elem_of_cons. destruct (bool_decide (job_request_id x = rid)) eqn:E; bdestr.
  - split; [done|]. intros [Hne _]. congruence.
  - rewrite IH. split; [|tauto]. intros H. split; [congruence|done].
Qed.

Lemma update_wf l i j j' :
  wf_jobs l -> l !! i = Some j -> wf_job j' -> job_request_id j' = job_request_id j ->
  is_active (state j) = true -> wf_jobs (<[i := j']> l).
Proof.
  intros [Hc Hu Ha Hact] Hi Hj' Hid Hactive. split.
  - by rewrite length_insert.
  - rewrite list_fmap_insert, Hid, list_insert_id; [done|]. by rewrite list_lookup_fmap, Hi.
  - by apply Forall_insert.
  - intros k x Hk Hx. rewrite length_insert.
    destruct (decide (k = i)) as [->|Hne]; [by apply (Hact i j)|].
    rewrite list_lookup_insert_ne in Hk by done. by apply (Hact k x).
Qed.

Lemma append_wf l j :
  wf_jobs l -> wf_job j -> Z.of_nat (length l) < MAX_JOBS ->
  job_request_id j ∉ (job_request_id <$> l) ->
  (forall x, x ∈ l -> is_active (state x) = false) -> wf_jobs (l ++ [j]).
Proof.
  intros [Hc Hu Ha Hact] Hj Hn Hid Hidle. split.
  - rewrite length_app. cbn. unfold MAX_JOBS in *. lia.
  - rewrite fmap_app. apply list.NoDup_app. split; [done|].
    split; [|apply NoDup_singleton]. intros x Hx ->%list_elem_of_singleton. done.
  - apply Forall_app. split; [done|]. by apply Forall_singleton.
  - intros i x Hi Hx. rewrite length_app. cbn.
    apply lookup_app_Some in Hi as [Hi|[Hi He]].
    + apply list_elem_of_lookup_2, Hidle in Hi. congruence.
    + apply list_lookup_singleton_Some in He as [? _]. lia.
Qed.

(** What later journals keep of earlier ones: every job stays in its place
    with its identity, and its history only grows. *)
Definition job_le (j j' : job) : Prop :=
  job_request_id j' = job_request_id j
  /\ job_target_version j' = job_target_version j
  /\ job_expected_version j' = job_expected_version j
  /\ events j `prefix_of` events j'.

Definition extends (l l' : list job) : Prop :=
  forall i j, l !! i = Some j -> exists j', l' !! i = Some j' /\ job_le j j'.

#[export] Instance job_le_preorder : PreOrder job_le.
Proof.
  split.
  - by intros j.
  - intros x y z (?&?&?&?) (?&?&?&?). repeat split; try congruence. by etrans.
Qed.

#[export] Instance extends_preorder : PreOrder extends.
Proof.
  split.
  - intros l i j Hi. by exists j.
  - intros x y z Hxy Hyz i j Hi. destruct (Hxy i j Hi) as (j1 & H1 & L1).
    destruct (Hyz i j1 H1) as (j2 & H2 & L2). exists j2. split; [done|by etrans].
Qed.

Lemma extends_insert l i j j' :
  l !! i = Some j -> job_le j j' -> extends l (<[i := j']> l).
Proof.
  intros Hi Hle k x Hk. destruct (decide (k = i)) as [->|Hne].
  - exists j'. rewrite list_lookup_insert_eq by (by eapply lookup_lt_Some).
    split; [done|]. by simplify_eq.
  - exists x. by rewrite list_lookup_insert_ne.
Qed.

Lemma extends_app l k : extends l (l ++ k).
Proof. intros i j Hi. exists j. split; [by apply lookup_app_l_Some|done]. Qed.

Lemma step_job_le j st t c b a : job_le j (step_job j st t c b a).
Proof. repeat split. by apply prefix_app_r. Qed.

(** The journal between two moments: the environment is the same, a failed
    journal is never written again, and a readable one stays readable with its
    histories extended. *)
Record journal_le (x y : journal) : Prop := {
  le_safe : file_safe y = file_safe x;
  le_lock : operation_lock y = operation_lock x;
  le_clock : clock y = clock x;
  le_fault : write_fault y = write_fault x;
  le_failed : io_failed x = true -> io_failed y = true /\ file y = file x;
  le_jobs : forall l, holds x l -> exists l', holds y l' /\ extends l l' }.

#[export] Instance journal_le_preorder : PreOrder journal_le.
Proof.
  split.
  - intros j. split; try done. intros l Hl. by exists l.
  - intros x y z [] []. split; try congruence.
    + intros Hx. destruct (le_failed0 Hx) as [Hy ?]. destruct (le_failed1 Hy). split; congruence.
    + intros l Hl. destruct (le_jobs0 l Hl) as (l1 & H1 & E1).
      destruct (le_jobs1 l1 H1) as (l2 & H2 & E2). exists l2. split; [done|by etrans].
Qed.

Lemma save_le me l' j :
  (forall l, holds j l -> extends l l') -> journal_le j (save me l' j).2.
Proof.
  intros Hext. destruct (save me l' j) as [r j'] eqn:E. cbn.
  apply save_cases in E as [[-> _]|([_ Hf] & Hl' & Hcase)]; [done|].
  assert (forall j1, file_safe j1 = file_safe j -> file j1 = Some (encode l') ->
    forall l, holds j l -> exists l1, holds j1 l1 /\ extends l l1) as Hnew.
  { intros j1 Hs1 Hf1 l Hl. exists l'. split; [|by apply Hext].
    apply holds_encoded; [|done..]. rewrite Hs1. unfold holds, read in Hl.
    by destruct (file_safe j). }
  destruct Hcase as [(_ & _ & ->)|(_ & [->| ->])]; split; try done; cbn; try congruence.
  - by apply Hnew.
  - intros l Hl. exists l. split; [|done]. by apply (holds_ext j).
  - by apply Hnew.
Qed.

Lemma count_read_le j : journal_le j (count_read j).
Proof. split; try done. intros l Hl. exists l. split; [by apply (holds_ext j)|done]. Qed.

Lemma read_cases j : (exists l, holds j l) \/ exists e, read j = (Err e, j).
Proof.
  pose proof (read_same j) as H. unfold holds.
  destruct (read j) as [[l|e] j'] eqn:E; cbn in H; subst; eauto.
Qed.

Lemma holds_count_read j l : holds (count_read j) l <-> holds j l.
Proof. split; by apply holds_ext. Qed.

(** The save of a new version after one clock reading. *)
Lemma commit_le me l l' j :
  holds j l -> extends l l' -> journal_le j (save me l' (count_read j)).2.
Proof.
  intros Hl He. etrans; [apply count_read_le|]. apply save_le.
  intros l1 H1. apply (proj1 (holds_count_read _ _)) in H1.
  by rewrite (holds_fun _ _ _ H1 Hl).
Qed.

(** [transition] on a stored journal: refused, or one event appended to the
    job and committed. *)
Lemma transition_eq me rid st c b a j l x :
  holds j l -> find_job rid l = Some x -> allowed (state x) st = true ->
  check_receipt (bool_decide (st = BACKED_UP)) b = Ok tt ->
  check_receipt (bool_decide (st = STAGED)) a = Ok tt ->
  transition me rid st c b a j =
    let x' := step_job x st (clock j (reads j)) c b a in
    match save me (update_job rid x' l) (count_read j) with
    | (Ok _, j') => (Ok x', j')
    | (Err e, j') => (Err e, j')
    end.
Proof.
  intros Hl Hx Hal Hb Ha. unfold transition.
  unfold mbind at 1, st_bind at 1. rewrite Hl, Hx, Hal. cbn [negb].
  unfold of_res. unfold mbind, st_bind. rewrite Hb, Ha. cbn.
  by destruct (save _ _ _) as [[[]|] ?].
Qed.

Lemma transition_cases me rid st c b a j r j' :
  transition me rid st c b a j = (r, j') ->
  (j' = j /\ exists e, r = Err e) \/
  exists l x, holds j l /\ find_job rid l = Some x /\ allowed (state x) st = true
    /\ check_receipt (bool_decide (st = BACKED_UP)) b = Ok tt
    /\ check_receipt (bool_decide (st = STAGED)) a = Ok tt.
Proof.
  unfold transition. unfold mbind at 1, st_bind at 1. intros H.
  destruct (read_cases j) as [[l Hl]|[e He]];
    [rewrite Hl in H|left; rewrite He in H; simplify_eq; eauto].
  destruct (find_job rid l) as [x|] eqn:Hx; [|left; unfold raise in H; simplify_eq; eauto].
  destruct (allowed (state x) st) eqn:Hal; cbn [negb] in H;
    [|left; unfold raise in H; simplify_eq; eauto].
  unfold of_res, mbind, st_bind in H.
  destruct (check_receipt (bool_decide (st = BACKED_UP)) b) as [[]|eb] eqn:Hb;
    [|left; simplify_eq; eauto].
  destruct (check_receipt (bool_decide (st = STAGED)) a) as [[]|ea] eqn:Ha;
    [|left; simplify_eq; eauto].
  right. eauto 10.
Qed.

Lemma transition_le me rid st c b a : steps_in journal_le (transition me rid st c b a).
Proof.
  intros j. destruct (transition me rid st c b a j) as [r j'] eqn:E. cbn.
  destruct (transition_cases _ _ _ _ _ _ _ _ _ E) as [[-> _]|(l & x & Hl & Hx & Hal & Hb & Ha)];
    [done|].
  rewrite (transition_eq _ _ _ _ _ _ _ _ _ Hl Hx Hal Hb Ha) in E. cbn in E.
  destruct (find_job_update _ _ _ Hx) as (_ & i & Hi & Hu). rewrite Hu in E.
  pose proof (commit_le me l (<[i:=step_job x st (clock j (reads j)) c b a]> l) j Hl) as Hc.
  specialize (Hc (extends_insert _ _ _ _ Hi (step_job_le _ _ _ _ _ _))).
  destruct (save _ _ _) as [[[]|] j1]; cbn in Hc; by simplify_eq.
Qed.

Lemma begin_le me request : steps_in journal_le (begin me request).
Proof.
  intros j. unfold begin, mbind at 1, st_bind at 1.
  destruct (read_cases j) as [[l Hl]|[e He]]; [rewrite Hl|by rewrite He].
  destruct (find_job _ l); [by destruct (_ && _)|].
  destruct (existsb _ l); [done|]. destruct (MAX_JOBS <=? _); [done|].
  unfold mbind, st_bind. cbn.
  pose proof (commit_le me l (l ++ [{| job_request_id := request_id request;
    job_target_version := target_version request;
    job_expected_version := expected_current_version request; state := REQUESTED;
    events := [{| sequence := 0; ev_state := REQUESTED; time := clock j (reads j); code := None |}];
    backup_sha256 := None; artifact_sha256 := None |}]) j Hl (extends_app _ _)) as Hc.
  destruct (save _ _ _) as [[[]|] j1]; exact Hc.
Qed.

Lemma read_le : steps_in journal_le read.
Proof. intros j. by rewrite read_same. Qed.

Lemma set_lock_le b o j : journal_le j (set_lock b o j).
Proof. split; try done. intros l Hl. exists l. split; [by apply (holds_ext j)|done]. Qed.

Lemma set_io_failed_le j : journal_le j (set_io_failed j).
Proof. split; try done. intros l Hl. exists l. split; [by apply (holds_ext j)|done]. Qed.

(** The same along a computation of an object that owns the journal. *)
Definition owner_le {S} `{HasJournal S} (s s' : S) : Prop :=
  journal_le (journal_of s) (journal_of s').

#[export] Instance owner_le_preorder {S} `{HasJournal S} : PreOrder owner_le.
Proof. unfold owner_le. split; [by intros s|intros x y z ? ?; by etrans]. Qed.

Lemma exclusive_le {S} `{HasJournal S} {A} me (m : ST S exn A) :
  steps_in owner_le m -> steps_in owner_le (exclusive me m).
Proof.
  intros Hm s. unfold exclusive. destruct (local_lock _); [done|].
  destruct (io_failed _); [done|]. destruct (operation_lock _); try done.
  - specialize (Hm (with_journal (set_lock true (Some me) (journal_of s)) s)).
    destruct (m _) as [r s1]. unfold owner_le in *. cbn in *.
    rewrite !journal_of_with in *. etrans; [apply set_lock_le|].
    etrans; [exact Hm|apply set_lock_le].
  - unfold owner_le. cbn. rewrite journal_of_with. apply set_io_failed_le.
Qed.

Lemma on_journal_le {S} `{HasJournal S} {A} (m : ST journal exn A) :
  steps_in journal_le m -> steps_in owner_le (on_journal m : ST S exn A).
Proof.
  intros Hm s. unfold on_journal, owner_le. specialize (Hm (journal_of s)).
  destruct (m (journal_of s)) as [r j]. cbn in *. by rewrite journal_of_with.
Qed.
#[export] Hint Resolve transition_le begin_le read_le exclusive_le on_journal_le : py.

(** ** Success of the operations *)
Lemma save_holds me l j :
  file_safe j = true -> may_save me j -> wf_jobs l -> write_fault j (writes j) = NoFault ->
  exists j', save me l j = (Ok tt, j') /\ holds j' l.
Proof.
  intros Hs Hm Hl Hw. eexists. split; [by apply save_total|]. by apply holds_encoded.
Qed.

Lemma holds_safe j l : holds j l -> file_safe j = true.
Proof. unfold holds, read. by destruct (file_safe j). Qed.

Lemma transition_total me rid st c b a j l x :
  holds j l -> may_save me j -> write_fault j (writes j) = NoFault ->
  0 <= clock j (reads j) <= MAX_TIME -> find_job rid l = Some x ->
  allowed (state x) st = true ->
  check_receipt (bool_decide (st = BACKED_UP)) b = Ok tt ->
  check_receipt (bool_decide (st = STAGED)) a = Ok tt ->
  let x' := step_job x st (clock j (reads j)) c b a in
  let j' := set_file (Some (encode (update_job rid x' l))) (count_write (count_read j)) in
  transition me rid st c b a j = (Ok x', j') /\ holds j' (update_job rid x' l).
Proof.
  intros Hl Hm Hw Ht Hx Hal Hb Ha x' j'.
  destruct (find_job_update _ _ _ Hx) as (Hid & i & Hi & Hu).
  pose proof (holds_wf _ _ Hl) as Hwf.
  assert (wf_job x) as Hwx by (eapply list.Forall_lookup_1; [apply Hwf|done]).
  assert (wf_jobs (update_job rid x' l)) as Hl'.
  { rewrite Hu. apply (update_wf l i x); [done|done|by apply step_job_wf|done|].
    apply allowed_spec in Hal. unfold is_active.
    destruct (TERMINAL (state x)) eqn:E; [|done]. by apply (terminal_stuck _ st) in E. }
  rewrite (transition_eq _ _ _ _ _ _ _ _ _ Hl Hx Hal Hb Ha). cbn zeta.
  rewrite (save_total me _ (count_read j)); [|done..]. split; [done|].
  apply holds_encoded; [exact (holds_safe _ _ Hl)|done|done].
Qed.

Lemma find_job_terminal rid l x : find_job rid l = Some x -> x ∈ l.
Proof. unfold find_job. intros H. apply find_some in H as [H _]. by apply list_elem_of_In. Qed.

(** ** Recovery *)
Lemma recover_terminal me l j :
  Forall (fun x => TERMINAL (state x) = true) l ->
  for_each l (recover_job me) j = (Ok tt, j).
Proof.
  induction 1 as [|x l Hx Hl IH]; [done|]. cbn [for_each].
  assert (recover_job me x j = (Ok tt, j)) as Hr by (unfold recover_job; by rewrite Hx).
  unfold mbind, st_bind. rewrite Hr. exact IH.
Qed.

Lemma for_each_app {S E A} (l k : list A) (f : A -> ST S E unit) s :
  for_each (l ++ k) f s =
  match for_each l f s with (Ok _, s') => for_each k f s' | (Err e, s') => (Err e, s') end.
Proof.
  revert s. induction l as [|x l IH]; intros s; [done|].
  cbn. unfold mbind, st_bind. destruct (f x s) as [[a|e] s']; [apply IH|done].
Qed.

(** An environment without faults. *)
Record calm (j : journal) : Prop := {
  calm_lock : operation_lock j = LockOk;
  calm_local : local_lock j = false;
  calm_failed : io_failed j = false;
  calm_writes : forall n, write_fault j n = NoFault;
  calm_clock : forall n, 0 <= clock j n <= MAX_TIME }.

Lemma recover_target s :
  TERMINAL s = false -> allowed s (if BEFORE_CUTOVER s then FAILED else MANUAL_ACTION_REQUIRED) = true.
Proof. by destruct s. Qed.

Lemma wf_jobs_split l :
  wf_jobs l -> l = [] \/ exists k x, l = k ++ [x] /\
    Forall (fun x => TERMINAL (state x) = true) k.
Proof.
  intros [_ _ _ Hact]. destruct l as [|x l _] using rev_ind; [by left|]. right.
  exists l, x. split; [done|]. apply list.Forall_lookup. intros i y Hi.
  destruct (TERMINAL (state y)) eqn:E; [done|].
  specialize (Hact i y). rewrite lookup_app_l in Hact by by eapply lookup_lt_Some.
  unfold is_active in Hact. rewrite E, length_app in Hact.
  specialize (Hact Hi eq_refl). apply lookup_lt_Some in Hi. cbn in Hact. lia.
Qed.

Lemma find_job_NoDup l x :
  NoDup (job_request_id <$> l) -> x ∈ l -> find_job (job_request_id x) l = Some x.
Proof.
  unfold find_job. induction l as [|y l IH]; [intros _ H; by apply elem_of_nil in H|].
  cbn. intros [Hy Hnd]%list.NoDup_cons [->|Hx]%elem_of_cons.
  - by rewrite bool_decide_eq_true_2.
  - rewrite bool_decide_eq_false_2; [by apply IH|]. intros Heq. apply Hy.
    rewrite Heq. by apply list_elem_of_fmap_2.
Qed.

Lemma update_last k x x' :
  NoDup (job_request_id <$> k ++ [x]) ->
  update_job (job_request_id x) x' (k ++ [x]) = k ++ [x'].
Proof.
  rewrite fmap_app. intros (_ & Hd & _)%list.NoDup_app.
  induction k as [|y k IH]; cbn; [by rewrite bool_decide_eq_true_2|].
  rewrite bool_decide_eq_false_2, IH; [done| |].
  - intros z Hz. apply Hd. by right.
  - intros He. apply (Hd (job_request_id y)); [left|]. rewrite He.
    by apply list_elem_of_singleton.
Qed.

Lemma recover_last me j l k x :
  holds j l -> l = k ++ [x] -> may_save me j -> write_fault j (writes j) = NoFault ->
  0 <= clock j (reads j) <= MAX_TIME -> TERMINAL (state x) = false ->
  exists j' x', recover_job me x j = (Ok tt, j') /\ holds j' (k ++ [x'])
    /\ TERMINAL (state x') = true /\ job_le x x'.
Proof.
  intros Hl -> Hm Hw Ht Hx. pose proof (holds_wf _ _ Hl) as [_ Hnd _ _].
  assert (find_job (job_request_id x) (k ++ [x]) = Some x) as Hfind.
  { apply find_job_NoDup; [done|]. apply elem_of_app. right. by apply list_elem_of_singleton. }
  set (st := if BEFORE_CUTOVER (state x) then FAILED else MANUAL_ACTION_REQUIRED).
  set (c := Some (if BEFORE_CUTOVER (state x) then INTERRUPTED_BEFORE_CUTOVER else RECOVERY_REQUIRED)).
  destruct (transition_total me _ st c None None j _ x Hl Hm Hw Ht Hfind) as [Heq Hh];
    [by apply recover_target|by unfold st; destruct (BEFORE_CUTOVER _)..|].
  set (x' := step_job _ _ _ _ _ _) in *.
  rewrite (update_last k x x' Hnd) in *. eexists _, x'. split.
  { unfold recover_job. rewrite Hx. fold st c. unfold mbind, st_bind. rewrite Heq. reflexivity. }
  split; [exact Hh|]. split; [|apply step_job_le].
  by cbn; unfold st; destruct (BEFORE_CUTOVER _).
Qed.

Lemma recover_all me j l :
  holds j l -> may_save me j -> (forall n, write_fault j n = NoFault) ->
  (forall n, 0 <= clock j n <= MAX_TIME) ->
  exists j' l', for_each l (recover_job me) j = (Ok tt, j') /\ holds j' l' /\ extends l l'
    /\ length l' = length l /\ Forall (fun x => TERMINAL (state x) = true) l'.
Proof.
  intros Hl Hm Hw Hc. destruct (wf_jobs_split l (holds_wf _ _ Hl)) as [->|(k & x & -> & Hk)].
  { exists j, []. repeat split; try done. }
  rewrite for_each_app, recover_terminal by done. cbn [for_each].
  destruct (TERMINAL (state x)) eqn:Hx.
  - exists j, (k ++ [x]). unfold recover_job, mbind, st_bind. rewrite Hx.
    split; [done|]. split; [done|]. split; [done|]. split; [done|].
    apply list.Forall_app. split; [done|]. by constructor.
  - destruct (recover_last me j _ k x Hl eq_refl Hm (Hw _) (Hc _) Hx) as (j' & x' & He & Hh & Hx' & Hle).
    exists j', (k ++ [x']). unfold mbind, st_bind. rewrite He.
    split; [done|]. split; [done|]. split.
    { replace (k ++ [x']) with (<[length k := x']> (k ++ [x])).
      - apply (extends_insert _ _ x); [|done]. by rewrite list_lookup_middle.
      - rewrite <- (Nat.add_0_r (length k)), insert_app_r. done. }
    split; [by rewrite !length_app|]. apply list.Forall_app. split; [done|]. by constructor.
Qed.

(** ** Accepting a request *)
Definition new_job (request : Request) (t : Z) : job :=
  {| job_request_id := request_id request;
     job_target_version := target_version request;
     job_expected_version := expected_current_version request;
     state := REQUESTED;
     events := [{| sequence := 0; ev_state := REQUESTED; time := t; code := None |}];
     backup_sha256 := None; artifact_sha256 := None |}.

Lemma find_job_app rid l x :
  find_job rid l = None -> job_request_id x = rid -> find_job rid (l ++ [x]) = Some x.
Proof.
  unfold find_job. intros Hf Hx. induction l as [|y l IH]; cbn in *.
  - by rewrite bool_decide_eq_true_2.
  - destruct (bool_decide _); [done|]. by apply IH.
Qed.

Lemma begin_Ok me request j x created j' :
  begin me request j = (Ok (x, created), j') ->
  exists l, holds j l
    /\ job_target_version x = target_version request
    /\ job_expected_version x = expected_current_version request
    /\ if created : bool
       then holds j' (l ++ [x]) /\ find_job (request_id request) l = None
            /\ x = new_job request (clock j (reads j)) /\ may_save me j /\ may_save me j'
            /\ Forall (fun y => is_active (state y) = false) l
       else j' = j /\ find_job (request_id request) l = Some x.
Proof.
  unfold begin, mbind at 1, st_bind at 1. intros H.
  destruct (read_cases j) as [[l Hl]|[e He]]; [rewrite Hl in H|by rewrite He in H].
  exists l. split; [done|].
  destruct (find_job _ l) as [y|] eqn:Hf.
  - destruct (_ && _) eqn:E; [|done]. bdestr. unfold mret, st_ret in H. by simplify_eq.
  - destruct (existsb _ l) eqn:Ha; [done|]. destruct (MAX_JOBS <=? _); [done|].
    unfold mbind, st_bind in H. cbn in H. unfold mret, st_ret in H.
    destruct (save _ _ _) as [[[]|] j1] eqn:Es; simplify_eq.
    pose proof (holds_safe _ _ Hl) as Hsafe.
    apply save_Ok in Es as (Hm & Hwf & ->).
    split; [done|]. split; [done|]. split; [by apply holds_encoded|]. split; [done|].
    split; [done|]. split; [done|]. split; [done|].
    apply List.Forall_forall. intros y Hy. destruct (is_active (state y)) eqn:E; [|done].
    rewrite <- Ha. symmetry. apply existsb_exists. eauto.
Qed.

Lemma begin_again me request j l x :
  holds j l -> find_job (request_id request) l = Some x ->
  job_target_version x = target_version request ->
  job_expected_version x = expected_current_version request ->
  begin me request j = (Ok (x, false), j).
Proof.
  intros Hl Hf Ht He. unfold begin, mbind, st_bind. rewrite Hl, Hf.
  by rewrite !bool_decide_eq_true_2.
Qed.

Definition acceptable (request : Request) : Prop :=
  matches REQUEST_ID (request_id request) /\ matches VERSION (target_version request)
  /\ matches VERSION (expected_current_version request).

Lemma new_job_wf request t :
  acceptable request -> 0 <= t <= MAX_TIME -> wf_job (new_job request t).
Proof.
  intros (Hid & Htv & Hcv) Ht. split; cbn; try done.
  - intros [|i] e; cbn; [intros [= <-]; cbn; lia|done].
  - split; [|by intros [? [=]]]. by intros H%list_elem_of_singleton.
  - split; [|by intros [? [=]]]. by intros H%list_elem_of_singleton.
Qed.

Lemma begin_new me request j l :
  holds j l -> may_save me j -> write_fault j (writes j) = NoFault ->
  0 <= clock j (reads j) <= MAX_TIME -> acceptable request ->
  find_job (request_id request) l = None ->
  Forall (fun y => is_active (state y) = false) l -> Z.of_nat (length l) < MAX_JOBS ->
  exists j', begin me request j = (Ok (new_job request (clock j (reads j)), true), j').
Proof.
  intros Hl Hm Hw Ht Hacc Hf Hidle Hn. unfold begin, mbind at 1, st_bind at 1. rewrite Hl, Hf.
  assert (existsb (fun j => is_active (state j)) l = false) as ->.
  { apply not_true_is_false. intros (y & Hy & Ha)%existsb_exists.
    rewrite List.Forall_forall in Hidle. rewrite Hidle in Ha by done. discriminate. }
  rewrite (proj2 (Z.leb_gt _ _)) by done. unfold mbind, st_bind. cbn.
  fold (new_job request (clock j (reads j))).
  rewrite (save_total me _ (count_read j)); [eexists; reflexivity|done| |done].
  apply append_wf; [by eapply holds_wf|by apply new_job_wf|done|by apply find_job_None|].
  intros y Hy. rewrite List.Forall_forall in Hidle. apply Hidle. by apply list_elem_of_In.
Qed.

(** ** Properties *)

(** The journal over a helper's life: its own operations under the exclusive
    lock, whatever their outcome, and restarts that keep only the file. *)
Inductive journal_step (j : journal) : journal -> Prop :=
| step_begin me request : journal_step j (exclusive me (begin me request) j).2
| step_transition me rid st c b a :
    journal_step j (exclusive me (transition me rid st c b a) j).2
| step_recover me : journal_step j (recover_interrupted me j).2
| step_status : journal_step j (public_status j).2
| step_restart j' : file j' = file j -> file_safe j' = file_safe j -> journal_step j j'.

Definition jobs_le (x y : journal) : Prop :=
  forall l, holds x l -> exists l', holds y l' /\ extends l l'.

Lemma journal_step_le x y : journal_step x y -> jobs_le x y.
Proof.
  assert (forall A (m : ST journal exn A), steps_in (owner_le (S := journal)) m ->
    jobs_le x (m x).2) as Hm.
  { intros A m H l Hl. by apply (le_jobs _ _ (H x)). }
  assert (forall me y, steps_in (owner_le (S := journal)) (recover_job me y)) as Hr.
  { intros me y1. unfold recover_job. destruct (TERMINAL _); [by intros j|].
    apply steps_in_bind; [apply _|apply transition_le|]; auto with py typeclass_instances. }
  destruct 1.
  - apply Hm, exclusive_le, begin_le.
  - apply Hm, exclusive_le, transition_le.
  - apply Hm, exclusive_le. apply steps_in_bind; [apply _|apply read_le|].
    intros l. apply steps_in_for_each; [apply _|apply Hr].
  - apply Hm. apply steps_in_bind; [apply _|apply read_le|].
    intros l. apply steps_in_ret; apply _.
  - intros l Hl. exists l. split; [by apply (holds_ext x)|done].
Qed.

(** C1. Histories are append-only and never corrupted: from a readable journal,
    whatever sequence of operations, I/O faults (before or after the rename)
    and restarts happens, the file still reads as a valid journal in which every
    earlier job keeps its place, its identity and its recorded events. *)
Theorem histories_append_only j j' l :
  holds j l -> rtc journal_step j j' ->
  exists l', holds j' l' /\ wf_jobs l' /\ extends l l'.
Proof.
  intros Hl Hs. revert l Hl. induction Hs as [j|x y z Hxy Hyz IH]; intros l Hl.
  - exists l. split; [done|]. split; [by eapply holds_wf|done].
  - destruct (journal_step_le _ _ Hxy l Hl) as (l1 & H1 & E1).
    destruct (IH l1 H1) as (l2 & H2 & W2 & E2). exists l2. split; [done|].
    split; [done|by etrans].
Qed.

(** C7. What is saved is read back: a well-formed journal always fits in the
    512 KiB the reader accepts, so under the lock, without an I/O fault, [save]
    succeeds and [read] returns exactly the saved jobs. *)
Theorem save_then_read me l j :
  file_safe j = true -> may_save me j -> wf_jobs l -> write_fault j (writes j) = NoFault ->
  exists j', save me l j = (Ok tt, j') /\ read j' = (Ok l, j').
Proof. apply save_holds. Qed.

(** ** Documents

    Two documents are the same when their objects hold the same values under the same
    keys, in whatever order; everything else is compared with its type. *)
Inductive same_document : json -> json -> Prop :=
| SameValue v : match v with JList _ | JObj _ => False | _ => True end -> same_document v v
| SameList l l' : Forall2 same_document l l' -> same_document (JList l) (JList l')
| SameObject kvs kvs' : (forall k, k ∈ kvs.*1 <-> k ∈ kvs'.*1) ->
    (forall k v v', get k kvs = Some v -> get k kvs' = Some v' -> same_document v v') ->
    same_document (JObj kvs) (JObj kvs').

Lemma get_Some_member k kvs : k ∈ kvs.*1 <-> exists v, get k kvs = Some v.
Proof.
  split; [intros H; eexists; by apply get_member|].
  intros [v Hv]. induction kvs as [|[k' v'] kvs IH]; [done|]. cbn in *.
  destruct (bool_decide (k = k')) eqn:E; bdestr; [subst; by left|right; by apply IH].
Qed.

(** Against the fields of a record: each of them, and no other key. *)
Lemma same_fields kvs fields : NoDup fields.*1 ->
  same_document (JObj kvs) (JObj fields) <->
  (forall k, k ∈ kvs.*1 <-> k ∈ fields.*1) /\
  Forall (fun kv => exists v, get kv.1 kvs = Some v /\ same_document v kv.2) fields.
Proof.
  intros Hnd. assert (forall k v, (k, v) ∈ fields -> get k fields = Some v) as Hget.
  { clear -Hnd. induction fields as [|[k' v'] fields IH]; [by intros ? ? ?%elem_of_nil|].
    cbn in *. apply list.NoDup_cons in Hnd as [Hk Hnd]. intros k v [[= -> ->]|H]%elem_of_cons.
    - by rewrite bool_decide_eq_true_2.
    - rewrite bool_decide_eq_false_2; [by apply IH|]. intros ->. apply Hk.
      apply list_elem_of_fmap. by exists (k', v). }
  split.
  - inversion 1 as [? Hf| |? ? Hk Hv]; subst; [done|]. split; [done|]. apply list.Forall_forall. intros [k v] Hin.
    assert (k ∈ kvs.*1) as [x Hx]%get_Some_member by (apply Hk, list_elem_of_fmap; by exists (k, v)).
    exists x. split; [done|]. cbn. eapply Hv; [exact Hx|by apply Hget].
  - intros [Hk Hf]. constructor; [done|]. intros k v v' Hv Hv'. rewrite list.Forall_forall in Hf.
    assert ((k, v') ∈ fields) as Hin.
    { clear -Hv'. induction fields as [|[k' w] fields IH]; [done|]. cbn in Hv'.
      destruct (bool_decide (k = k')) eqn:E; bdestr; [injection Hv' as ->; subst; by left|right; by apply IH]. }
    destruct (Hf _ Hin) as (x & Hx & Hs). cbn in *. congruence.
Qed.

Lemma same_str v s : same_document v (JStr s) <-> v = JStr s.
Proof. split; [by inversion 1|intros ->; by constructor]. Qed.
Lemma same_int v n : same_document v (JNum (PInt n)) <-> v = JNum (PInt n).
Proof. split; [by inversion 1|intros ->; by constructor]. Qed.
Lemma same_opt_str v o : same_document v (opt_str o) <-> v = opt_str o.
Proof. split; [destruct o; by inversion 1|intros ->; constructor; by destruct o]. Qed.
Lemma same_JList v l : same_document v (JList l) <-> exists l', v = JList l' /\ Forall2 same_document l' l.
Proof.
  split; [inversion 1 as [? Hf|? ? H'|]; subst; [done|eauto]|]. intros (l' & -> & H). by constructor.
Qed.
Lemma same_JObj v kvs : same_document v (JObj kvs) -> exists kvs', v = JObj kvs'.
Proof. inversion 1 as [? Hf| |]; subst; [done|eauto]. Qed.

(** The checked fields of an object are its dictionary. *)
Lemma field_str k kvs s : get_str k kvs = Some s <-> exists v, get k kvs = Some v /\ same_document v (JStr s).
Proof.
  unfold get_str. setoid_rewrite same_str. split.
  - destruct (get k kvs) as [[]|]; try done. cbn. intros [= ->]. eauto.
  - by intros (v & -> & ->).
Qed.
Lemma field_int k kvs n : get_int k kvs = Some n <-> exists v, get k kvs = Some v /\ same_document v (JNum (PInt n)).
Proof.
  unfold get_int. setoid_rewrite same_int. split.
  - destruct (get k kvs) as [[| |[]| | |]|]; try done. cbn. intros [= ->]. eauto.
  - by intros (v & -> & ->).
Qed.
Lemma field_opt_str k kvs o : get_opt_str k kvs = Some o <-> exists v, get k kvs = Some v /\ same_document v (opt_str o).
Proof.
  unfold get_opt_str. setoid_rewrite same_opt_str. split.
  - destruct (get k kvs) as [[]|]; try done; cbn; intros [= <-]; eauto.
  - intros (v & -> & ->). by destruct o.
Qed.
Lemma field_state k kvs st : get_state k kvs = Some st <->
  exists v, get k kvs = Some v /\ same_document v (JStr (state_value st)).
Proof.
  rewrite <- field_str. unfold get_state. split.
  - destruct (get_str k kvs) as [x|]; [|done]. by intros ->%state_of_Some.
  - intros ->. apply state_of_value.
Qed.

(** Case analysis on the fields of a record of the journal. *)
Ltac each_field :=
  rewrite ?list.Forall_cons; cbn [fst snd]; rewrite <- ?field_state, <- ?field_str, <- ?field_int, <- ?field_opt_str.

Lemma event_document v e : event_of_json v = Some e <-> same_document v (json_of_event e).
Proof.
  split.
  - destruct v as [| | | | |kvs]; try done. cbn [event_of_json].
    destruct (same_set kvs.*1 EVENT_KEYS) eqn:Ek; [|done]. rewrite same_set_spec in Ek.
    intros H. unfold json_of_event. apply same_fields; [by apply (bool_decide_unpack _)|]. split.
    { intros k. rewrite Ek. cbn. set_solver. }
    repeat case_match; try done; injection H as <-; each_field; cbn [sequence ev_state time code fmap option_fmap option_map];
      (repeat split; [..|by constructor]); try done.
    + match goal with H : code_of _ = Some _ |- _ => apply code_of_Some in H as <- end. done.
  - intros H. destruct (same_JObj _ _ H) as [kvs ->].
    apply same_fields in H as [Hk H]; [|by apply (bool_decide_unpack _)].
    revert H. each_field. intros (Hc & Hq & Hs & Ht & _). cbn [event_of_json].
    rewrite (proj2 (same_set_spec _ _)) by (intros k; rewrite Hk; cbn; set_solver).
    rewrite Hq, Hs, Ht, Hc. destruct e as [? ? ? [c|]]; [|done]. by destruct c.
Qed.

Lemma mapM_document {A} (f : json -> option A) (g : A -> json) l xs :
  (forall v x, f v = Some x <-> same_document v (g x)) ->
  mapM f l = Some xs <-> Forall2 same_document l (map g xs).
Proof.
  intros Hf. rewrite mapM_Some. rewrite Forall2_fmap_r. split; apply Forall2_impl; intros v x; apply Hf.
Qed.

Lemma job_document v x : job_of_json v = Some x <-> same_document v (json_of_job x).
Proof.
  assert (forall kvs evs, get_events kvs = Some evs <->
    exists w, get "events" kvs = Some w /\ same_document w (JList (map json_of_event evs))) as field_events.
  { intros kvs evs. unfold get_events. setoid_rewrite same_JList. split.
    - destruct (get "events" kvs) as [[]|]; try done. intros H. eexists. split; [done|].
      eexists. split; [done|]. by apply (mapM_document _ _ _ _ event_document).
    - intros (? & -> & l & -> & H). by apply (mapM_document _ _ _ _ event_document). }
  split.
  - destruct v as [| | | | |kvs]; try done. cbn [job_of_json].
    destruct (same_set kvs.*1 JOB_KEYS) eqn:Ek; [|done]. rewrite same_set_spec in Ek.
    intros H. unfold json_of_job. apply same_fields; [by apply (bool_decide_unpack _)|]. split.
    { intros k. rewrite Ek. cbn. set_solver. }
    repeat case_match; try done; injection H as <-; each_field; rewrite <- field_events; cbn.
    (repeat split; [..|by constructor]); done.
  - intros H. destruct (same_JObj _ _ H) as [kvs ->].
    apply same_fields in H as [Hk H]; [|by apply (bool_decide_unpack _)].
    revert H. each_field. rewrite <- field_events. intros (Ha & Hb & He & Hc & Hr & Hs & Ht & _). cbn [job_of_json].
    rewrite (proj2 (same_set_spec _ _)) by (intros k; rewrite Hk; cbn; set_solver).
    rewrite Hr, Ht, Hc, Hs, He, Hb, Ha. by destruct x.
Qed.

Lemma journal_document v l : jobs_of_json v = Some l <-> same_document v (json_of_jobs l).
Proof.
  split.
  - destruct v as [| | | | |kvs]; try done. cbn [jobs_of_json].
    destruct (same_set kvs.*1 _) eqn:Ek; [|done]. rewrite same_set_spec in Ek. cbn [andb].
    destruct (bool_decide _) eqn:E1; [|done]. bdestr. intros H.
    destruct (get "jobs" kvs) as [[]|] eqn:Ej; try done.
    apply same_fields; [by apply (bool_decide_unpack _)|]. split.
    { intros k. rewrite Ek. cbn. set_solver. }
    rewrite !list.Forall_cons. split; [|split; [by apply field_int|by constructor]].
    eexists. split; [exact Ej|]. constructor. by apply (mapM_document _ _ _ _ job_document).
  - intros H. destruct (same_JObj _ _ H) as [kvs ->].
    apply same_fields in H as [Hk H]; [|by apply (bool_decide_unpack _)].
    rewrite !list.Forall_cons in H. destruct H as ((w & Hw & Hj) & Hn & _). apply field_int in Hn.
    apply same_JList in Hj as (ws & -> & Hj). cbn [jobs_of_json fst] in *.
    rewrite (proj2 (same_set_spec _ _)) by (intros k; rewrite Hk; cbn; set_solver).
    rewrite bool_decide_eq_true_2 by done. cbn [andb]. rewrite Hw.
    by apply (mapM_document _ _ _ _ job_document).
Qed.

(** C39. The validator is exact: a document is accepted by [_validate_state]
    if and only if it is the document of a well-formed journal: every object in it has
    exactly the keys of the dictionaries the journal writes, in any order, each with a
    value of its type - and the journal has at most 128 jobs with distinct identifiers, only the last
    active, each with a history of at most 32 events that starts at REQUESTED,
    follows NEXT, ends in the job's state and holds a receipt exactly for the
    states that need one. *)
Theorem validator_exact v :
  _validate_state v = true <-> exists l, same_document v (json_of_jobs l) /\ wf_jobs l.
Proof.
  setoid_rewrite <- journal_document. unfold _validate_state. destruct (jobs_of_json v) as [l|].
  - rewrite valid_jobs_spec. split; [eauto|]. by intros (? & [= <-] & ?).
  - split; [done|]. by intros (? & [=] & _).
Qed.

(** [begin] is idempotent: a request it accepted is in the journal with the
    versions it asked for; nothing else was changed but, for a new request, one
    REQUESTED job at the end of a journal without an active job; and asking
    again returns the same job, not created, and writes nothing. *)
Theorem begin_idempotent me request j x created j' :
  begin me request j = (Ok (x, created), j') ->
  exists l, holds j l
    /\ holds j' (if created : bool then l ++ [x] else l)
    /\ (created = true -> Forall (fun y => is_active (state y) = false) l
                          /\ state x = REQUESTED)
    /\ job_target_version x = target_version request
    /\ job_expected_version x = expected_current_version request
    /\ begin me request j' = (Ok (x, false), j').
Proof.
  intros H. apply begin_Ok in H as (l & Hl & Ht & He & H). exists l. split; [done|].
  destruct created.
  - destruct H as (Hl' & Hf & -> & _ & _ & Hidle). split; [done|]. split; [done|].
    split; [done|]. split; [done|]. eapply begin_again; [done| |done|done].
    by apply find_job_app.
  - destruct H as [-> Hf]. split; [done|]. split; [done|]. split; [done|]. split; [done|].
    by eapply begin_again.
Qed.

(** Recovery terminates every interrupted job and replays nothing: in an
    environment without faults, [recover_interrupted] returns, every job of the
    journal is then in a terminal state, and the earlier events are all still
    there. *)
Theorem recovery_ends_every_job me j l :
  holds j l -> calm j ->
  exists j' l', recover_interrupted me j = (Ok tt, j') /\ holds j' l' /\ extends l l'
    /\ length l' = length l /\ Forall (fun x => TERMINAL (state x) = true) l'
    /\ lock_owner j' = None.
Proof.
  intros Hl [Hlock Hlocal Hfailed Hw Hc].
  destruct (recover_all me (set_lock true (Some me) j) l) as (j1 & l' & He & Hh & Hx & Hn & Ht);
    [by apply (holds_ext j)|by split|done..|].
  exists (set_lock false None j1), l'. split.
  { unfold recover_interrupted, exclusive. cbn [journal_of journal_has_journal].
    rewrite Hlocal, Hfailed, Hlock. unfold mbind, st_bind. cbn [with_journal journal_has_journal].
    rewrite (holds_ext j (set_lock true (Some me) j) l) by done. rewrite He. done. }
  split; [by apply (holds_ext j1)|]. done.
Qed.

(** ** The properties at concrete journals *)
Definition fresh : journal :=
  {| file := Some (encode []); file_safe := true; operation_lock := LockOk;
     io_failed := false; local_lock := false; lock_owner := None;
     write_fault := fun _ => NoFault; writes := 0;
     clock := fun _ => 1700000000; reads := 0 |}.

Definition sample_request : Request :=
  {| action := "install"; request_id := "0f8fad5b-d9cb-469f-a165-70867728950e";
     target_version := "2.4.0"; expected_current_version := "2.3.9";
     credential := "" |}.

Definition locked : journal := set_lock true (Some 7) fresh.
Definition begun : journal := (begin 7 sample_request locked).2.
Definition sample_job : job :=
  {| job_request_id := "0f8fad5b-d9cb-469f-a165-70867728950e";
     job_target_version := "2.4.0"; job_expected_version := "2.3.9"; state := REQUESTED;
     events := [{| sequence := 0; ev_state := REQUESTED; time := 1700000000; code := None |}];
     backup_sha256 := None; artifact_sha256 := None |}.

Lemma fresh_holds : holds fresh [].
Proof. vm_compute. reflexivity. Qed.
Lemma begun_holds : holds begun [sample_job].
Proof. vm_compute. reflexivity. Qed.

Lemma histories_append_only_witness :
  exists l', holds (exclusive 7 (begin 7 sample_request) fresh).2 l' /\ wf_jobs l' /\ extends [] l'.
Proof.
  apply (histories_append_only fresh _ []); [exact fresh_holds|].
  apply rtc_once, step_begin.
Defined.

Lemma save_then_read_witness :
  exists j', save 7 [sample_job] locked = (Ok tt, j') /\ read j' = (Ok [sample_job], j').
Proof.
  apply save_then_read; [reflexivity|split; reflexivity| |reflexivity].
  apply valid_jobs_spec. vm_compute. reflexivity.
Defined.

Lemma begin_idempotent_witness :
  exists l, holds locked l /\ holds begun (l ++ [sample_job])
    /\ (true = true -> Forall (fun y => is_active (state y) = false) l /\ state sample_job = REQUESTED)
    /\ job_target_version sample_job = "2.4.0"
    /\ job_expected_version sample_job = "2.3.9"
    /\ begin 7 sample_request begun = (Ok (sample_job, false), begun).
Proof. apply (begin_idempotent 7 sample_request locked sample_job true). vm_compute. reflexivity. Defined.

(** A clock that stands still, with an interrupted job in the journal. *)
Definition interrupted : journal :=
  {| file := file begun; file_safe := true; operation_lock := LockOk; io_failed := false;
     local_lock := false; lock_owner := None; write_fault := fun _ => NoFault; writes := 0;
     clock := fun _ => 1700000100; reads := 0 |}.

Lemma recovery_ends_every_job_witness :
  exists j' l', recover_interrupted 7 interrupted = (Ok tt, j') /\ holds j' l'
    /\ extends [sample_job] l' /\ length l' = 1%nat
    /\ Forall (fun x => TERMINAL (state x) = true) l' /\ lock_owner j' = None.
Proof.
  apply (recovery_ends_every_job 7 interrupted [sample_job]).
  - vm_compute. reflexivity.
  - split; try reflexivity. intros n. split; vm_compute; discriminate.
Defined.
