(* ===== verification/Transaction.v ===== *)
(** * The journalled update transaction  (update_helper/transaction.py, service.py)

    [TransactionRunner] drives a host adapter through an upgrade, every step
    announced in the journal before it is taken; [UpdateService.handle]
    authenticates one request and runs it.  The host adapter is a parameter: a
    record of operations on a world of its own, each of which may raise.  The
    runner's state also carries a ghost [log] of the host calls, each with the
    journal as it was when the call was made. *)
From Stdlib Require Import Ascii String.
From S2P Require Import Prelude PyNum PyStr Json Sha256 Protocol Journal JournalFacts.
#[local] Open Scope string_scope.
#[local] Open Scope list_scope.
#[local] Open Scope Z_scope.

Record Plan := {
  plan_request_id : string;
  plan_target_version : string;
  plan_current_version : string }.

(** [Plan(...)] with its [__post_init__]. *)
Definition make_plan (rid target current : string) : res exn Plan :=
  _ ← require_request_id (JStr rid);
  _ ← require_version (JStr target);
  _ ← require_version (JStr current);
  Ok {| plan_request_id := rid; plan_target_version := target;
        plan_current_version := current |}.

Record Candidate := {
  cand_request_id : string; cand_version : string; archive_sha256 : string }.
Record Backup := {
  back_request_id : string; back_version : string; manifest_sha256 : string }.

#[export] Instance Plan_eq_dec : EqDecision Plan.
Proof. solve_decision. Defined.
#[export] Instance Candidate_eq_dec : EqDecision Candidate.
Proof. solve_decision. Defined.
#[export] Instance Backup_eq_dec : EqDecision Backup.
Proof. solve_decision. Defined.

(** The host adapter over a world [W]: [None] is any exception.  The receipts of
    [prepare_candidate] and [backup_original] are [None] inside when the object
    returned is not of the receipt's class. *)
Record HostExecutor (W : Type) := {
  current_version : W -> option string * W;
  preflight : Plan -> W -> option unit * W;
  prepare_candidate : Plan -> W -> option (option Candidate) * W;
  stop_original : Plan -> W -> option unit * W;
  backup_original : Plan -> W -> option (option Backup) * W;
  start_candidate : Plan -> Candidate -> Backup -> W -> option unit * W;
  verify_candidate : Plan -> W -> option unit * W;
  restore_original : Plan -> option Backup -> bool -> W -> option unit * W;
  verify_original : Plan -> W -> option unit * W }.
Arguments current_version {W}. Arguments preflight {W}. Arguments prepare_candidate {W}.
Arguments stop_original {W}. Arguments backup_original {W}. Arguments start_candidate {W}.
Arguments verify_candidate {W}. Arguments restore_original {W}. Arguments verify_original {W}.

(** Ghost: the calls the runner makes to the host, and the acknowledgement. *)
Inductive call : Type :=
| CurrentVersion | Preflight | Prepare | Stop | TakeBackup
| Start (c : Candidate) (b : Backup) | Verify
| Restore (b : option Backup) (may_have_started : bool) | VerifyOriginal
| Acknowledge (p : public).

Record runner (W : Type) := {
  runner_journal : journal;
  world : W;
  log : list (call * journal) }.
Arguments runner_journal {W}. Arguments world {W}. Arguments log {W}.

#[export] Instance runner_has_journal W : HasJournal (runner W).
Proof.
  refine {| journal_of := runner_journal;
            with_journal j s := {| runner_journal := j; world := world s; log := log s |} |}.
  - done.
  - by intros [].
  - done.
Defined.

(** What [_run] raises inside: [_ActionFailed(code)], or another exception. *)
Inductive run_exn : Type :=
| ActionFailed (c : Code)
| Propagate (e : exn).

Section Runner.
Context {W : Type} (host : HostExecutor W) (me : Z).
Local Abbreviation M := (ST (runner W) exn).
Local Abbreviation R := (ST (runner W) run_exn).

Definition record_call (c : call) : M unit := fun s =>
  (Ok tt, {| runner_journal := runner_journal s; world := world s;
             log := log s ++ [(c, runner_journal s)] |}).

(** One call of a host method. *)
Definition on_host {A} (c : call) (f : W -> option A * W) : M A := fun s =>
  let '(r, w) := f (world s) in
  (match r with Some a => Ok a | None => Err OtherException end,
   {| runner_journal := runner_journal s; world := w;
      log := log s ++ [(c, runner_journal s)] |}).

Definition _action {A} (c : Code) (m : M A) : R A :=
  try_except m (fun _ => raise (ActionFailed c)).

(** An exception that is not [_ActionFailed] goes through. *)
Definition lift {A} (m : M A) : R A := try_except m (fun e => raise (Propagate e)).

Definition step (plan : Plan) (st : State) (c : option Code)
    (backup artifact : option string) : R job :=
  lift (on_journal (transition me (plan_request_id plan) st c backup artifact)).

Definition prepare (plan : Plan) : M Candidate :=
  receipt ← on_host Prepare (prepare_candidate host plan);
  match receipt with
  | Some r =>
      if bool_decide (cand_request_id r = plan_request_id plan)
         && bool_decide (cand_version r = plan_target_version plan)
      then (_ ← of_res (require_digest (JStr (archive_sha256 r))); mret r)
      else raise (rejected SOURCE_VERIFICATION_FAILED)
  | None => raise (rejected SOURCE_VERIFICATION_FAILED)
  end.

Definition capture (plan : Plan) : M Backup :=
  receipt ← on_host TakeBackup (backup_original host plan);
  match receipt with
  | Some r =>
      if bool_decide (back_request_id r = plan_request_id plan)
         && bool_decide (back_version r = plan_current_version plan)
      then (_ ← of_res (require_digest (JStr (manifest_sha256 r))); mret r)
      else raise (rejected BACKUP_FAILED)
  | None => raise (rejected BACKUP_FAILED)
  end.

(** The check made before staging and again before the downtime. *)
Definition check_current (plan : Plan) : R unit :=
  actual ← _action PREFLIGHT_FAILED (on_host CurrentVersion (current_version host));
  if negb (bool_decide (actual = plan_current_version plan))
  then raise (ActionFailed CURRENT_VERSION_CHANGED)
  else _action PREFLIGHT_FAILED (on_host Preflight (preflight host plan)).

(** The [except _ActionFailed] handler, with the local variables [backup] and
    [candidate_may_have_started] as they are when the action fails. *)
Definition rollback (plan : Plan) (backup : option Backup) (may_have_started : bool)
    (e : run_exn) : R public :=
  match e with
  | Propagate _ => raise e
  | ActionFailed failure =>
      jobs ← lift (on_journal read);
      match find_job (plan_request_id plan) jobs with
      | None => raise (Propagate OtherException)
      | Some j =>
          if BEFORE_CUTOVER (state j) then
            public_job <$> step plan FAILED (Some failure) None None
          else
            _ ← step plan ROLLING_BACK (Some failure) None None;
            restored ← try_except
              (_ ← _action RESTORE_FAILED
                     (on_host (Restore backup may_have_started)
                        (restore_original host plan backup may_have_started));
               _ ← _action RESTORE_FAILED (on_host VerifyOriginal (verify_original host plan));
               mret true)
              (fun e => match e with
                        | ActionFailed _ => mret false
                        | Propagate _ => raise e
                        end);
            if restored : bool
            then public_job <$> step plan RESTORED (Some failure) None None
            else public_job <$> step plan MANUAL_ACTION_REQUIRED (Some RESTORE_FAILED) None None
      end
  end.

(** The [try] block up to the backup, and its two continuations: each suite of
    statements runs under the handler with the locals it has set. *)
Definition until_backup (plan : Plan) : R (Candidate * Backup) :=
  is_newer ← lift (of_res (newer (plan_target_version plan) (plan_current_version plan)));
  if negb is_newer then raise (ActionFailed NOT_AN_UPGRADE) else
  _ ← check_current plan;
  _ ← step plan VALIDATED None None None;
  _ ← step plan STAGING None None None;
  candidate ← _action SOURCE_VERIFICATION_FAILED (prepare plan);
  _ ← step plan STAGED None None (Some (archive_sha256 candidate));
  _ ← check_current plan;
  _ ← step plan STOP_REQUESTED None None None;
  _ ← _action STOP_FAILED (on_host Stop (stop_original host plan));
  _ ← step plan STOPPED None None None;
  _ ← step plan BACKUP_STARTED None None None;
  backup ← _action BACKUP_FAILED (capture plan);
  mret (candidate, backup).

Definition until_start (plan : Plan) (backup : Backup) : R unit :=
  _ ← step plan BACKED_UP None (Some (manifest_sha256 backup)) None;
  _ ← step plan START_REQUESTED None None None;
  mret tt.

Definition until_complete (plan : Plan) (candidate : Candidate) (backup : Backup) : R public :=
  _ ← _action START_FAILED
        (on_host (Start candidate backup) (start_candidate host plan candidate backup));
  _ ← step plan STARTED None None None;
  _ ← _action HEALTH_FAILED (on_host Verify (verify_candidate host plan));
  _ ← step plan VERIFIED None None None;
  public_job <$> step plan COMPLETE None None None.

(** [m] then [k], where an action that fails in [m] is handled by [h]. *)
Definition guarded {A B} (m : R A) (h : run_exn -> R B) (k : A -> R B) : R B := fun s =>
  match m s with
  | (Ok a, s') => k a s'
  | (Err e, s') => h e s'
  end.

Definition _run (plan : Plan) : R public :=
  guarded (until_backup plan) (rollback plan None false)
    (fun '(candidate, backup) =>
  guarded (until_start plan backup) (rollback plan (Some backup) false)
    (fun _ =>
  guarded (until_complete plan candidate backup) (rollback plan (Some backup) true)
    mret)).

(** [_ActionFailed] never leaves [_run]; see [run_never_leaks]. *)
Definition unlift {A} (m : R A) : M A :=
  try_except m (fun e => match e with
                         | Propagate e => raise e
                         | ActionFailed _ => raise OtherException
                         end).
End Runner.

(** The body of [execute] under the lock, with an executor. *)
Definition reserve_and_run {W} (host : HostExecutor W) (me : Z) (request : Request)
    (acknowledge : bool) (plan : Plan) : ST (runner W) exn public :=
  '(j, created) ← on_journal (begin me request);
  _ ← (if acknowledge then record_call (Acknowledge (public_job j)) else mret tt);
  if negb created then mret (public_job j)
  else unlift (_run host me plan).

(** [TransactionRunner.execute]; [acknowledge]: a callback was given. *)
Definition execute {W} (executor : option (HostExecutor W)) (me : Z) (request : Request)
    (acknowledge : bool) : ST (runner W) exn public :=
  if negb (is_install (action request)) then raise (rejected BAD_REQUEST) else
  plan ← of_res (make_plan (request_id request) (target_version request)
                   (expected_current_version request));
  exclusive me
    match executor with
    | None => raise (rejected EXECUTOR_UNAVAILABLE)
    | Some host => reserve_and_run host me request acknowledge plan
    end.

(** The reply of the service, before it is written to the socket. *)
Inductive reply : Type :=
| StatusReply (status : option public) (executor_available : bool)
| JobReply (result : public)
| Refused (c : Code).

Definition refusal (e : exn) : reply :=
  match e with UpdateRejected c => Refused c | OtherException => Refused INTERNAL_ERROR end.

(** [UpdateService.handle]: the reply and the state it leaves. *)
Definition handle {W} (auth : Authorization) (executor : option (HostExecutor W)) (me : Z)
    (data : string) (peer_uid : Z) (acknowledge : bool) : runner W -> reply * runner W :=
  fun s =>
  let body : ST (runner W) exn reply :=
    if negb (peer_uid =? allowed_peer_uid auth) then raise (rejected PEER_DENIED) else
    request ← of_res (decode_request data);
    _ ← of_res (check auth request peer_uid);
    if bool_decide (action request = "status")
    then (status ← on_journal public_status; mret (StatusReply status (is_some executor)))
    else JobReply <$> execute executor me request
                        (acknowledge && bool_decide (action request = "submit")) in
  match body s with
  | (Ok r, s') => (r, s')
  | (Err e, s') => (refusal e, s')
  end.

(** ** The calls of one transaction *)

(** A call without its arguments, and the calls of a run without failures. *)
Inductive kind : Type :=
| KCurrentVersion | KPreflight | KPrepare | KStop | KTakeBackup | KStart | KVerify
| KRestore | KVerifyOriginal | KAcknowledge.

Definition kind_of (c : call) : kind :=
  match c with
  | CurrentVersion => KCurrentVersion | Preflight => KPreflight | Prepare => KPrepare
  | Stop => KStop | TakeBackup => KTakeBackup | Start _ _ => KStart | Verify => KVerify
  | Restore _ _ => KRestore | VerifyOriginal => KVerifyOriginal
  | Acknowledge _ => KAcknowledge
  end.

Definition SCRIPT : list kind :=
  [KCurrentVersion; KPreflight; KPrepare; KCurrentVersion; KPreflight;
   KStop; KTakeBackup; KStart; KVerify].
Definition UNDO : list kind := [KRestore; KVerifyOriginal].

(** A beginning of the script; once the original was stopped, possibly
    followed by the restoration. *)
Definition legal (cs : list call) : Prop :=
  exists k r, (k <= 9)%nat /\ (r <= 2)%nat /\ (r = 0%nat \/ (6 <= k)%nat)
    /\ kind_of <$> cs = take k SCRIPT ++ take r UNDO.

(** What the host answered to a call it got in the world [w], with the world after it:
    [true] when it returned, with the version or the receipt the plan asks for. *)
Definition answer {W} (host : HostExecutor W) (plan : Plan) (c : call) (w : W) : bool * W :=
  let returned (r : option unit * W) := (is_some r.1, r.2) in
  match c with
  | CurrentVersion =>
      let '(r, w) := current_version host w in (bool_decide (r = Some (plan_current_version plan)), w)
  | Preflight => returned (preflight host plan w)
  | Prepare =>
      let '(r, w) := prepare_candidate host plan w in
      (match r with
       | Some (Some c) => bool_decide (cand_request_id c = plan_request_id plan)
           && bool_decide (cand_version c = plan_target_version plan) && fullmatch DIGEST (archive_sha256 c)
       | _ => false end, w)
  | Stop => returned (stop_original host plan w)
  | TakeBackup =>
      let '(r, w) := backup_original host plan w in
      (match r with
       | Some (Some b) => bool_decide (back_request_id b = plan_request_id plan)
           && bool_decide (back_version b = plan_current_version plan) && fullmatch DIGEST (manifest_sha256 b)
       | _ => false end, w)
  | Start c b => returned (start_candidate host plan c b w)
  | Verify => returned (verify_candidate host plan w)
  | Restore b m => returned (restore_original host plan b m w)
  | VerifyOriginal => returned (verify_original host plan w)
  | Acknowledge _ => (true, w)
  end.

(** The answers to the calls of a transaction, one after the other from the world [w]. *)
Definition answers {W} (host : HostExecutor W) (plan : Plan) (cs : list call) (w : W) : list bool * W :=
  fold_left (fun vw c => let '(v, w) := answer host plan c vw.2 in (vw.1 ++ [v], w)) cs ([], w).

(** [k] answers of which the last is the first bad one. *)
Definition broke (k : nat) : list bool :=
  match k with O => [] | S k => replicate k true ++ [false] end.

(** The target is newer than the version the plan starts from. *)
Definition is_upgrade (plan : Plan) : bool :=
  match newer (plan_target_version plan) (plan_current_version plan) with Ok b => b | Err _ => false end.

(** What the calls of a finished transaction were and what the host answered, by its
    final state; [upgrade]: the target is newer than the current version. *)
Definition outcome (upgrade : bool) (st : State) (cs : list call) (vs : list bool) : Prop :=
  match st with
  | COMPLETE => upgrade = true /\ kind_of <$> cs = SCRIPT /\ vs = replicate 9 true
  | FAILED => exists k, (k <= 5)%nat /\ kind_of <$> cs = take k SCRIPT
                /\ upgrade = negb (Nat.eqb k 0) /\ vs = broke k
  | RESTORED => exists k, (6 <= k <= 9)%nat /\ kind_of <$> cs = take k SCRIPT ++ UNDO
                /\ upgrade = true /\ vs = broke k ++ [true; true]
  | MANUAL_ACTION_REQUIRED =>
      exists k r, (6 <= k <= 9)%nat /\ (1 <= r <= 2)%nat
        /\ kind_of <$> cs = take k SCRIPT ++ take r UNDO
        /\ upgrade = true /\ vs = broke k ++ broke r
  | _ => False
  end.

(** The journal announces a call: the state the job is recorded in, and the
    receipts that must be durable by then. *)
Definition announced (c : call) (x : job) : Prop :=
  match c with
  | CurrentVersion | Preflight => state x = REQUESTED \/ state x = STAGED
  | Prepare => state x = STAGING
  | Stop => state x = STOP_REQUESTED
  | TakeBackup => state x = BACKUP_STARTED
  | Start c b => state x = START_REQUESTED /\ artifact_sha256 x = Some (archive_sha256 c)
                 /\ backup_sha256 x = Some (manifest_sha256 b)
  | Verify => state x = STARTED
  | Restore b may_have_started =>
      state x = ROLLING_BACK /\ backup_sha256 x = manifest_sha256 <$> b
      /\ may_have_started = is_some b
  | VerifyOriginal => state x = ROLLING_BACK
  | Acknowledge p => p = public_job x
  end.

(** A logged call was announced by the job [rid] of the journal on disk. *)
Definition entry_ok (rid : string) (e : call * journal) : Prop :=
  exists l x, holds e.2 l /\ find_job rid l = Some x /\ announced e.1 x.

(** The file system and the clock obey. *)
Definition obeys (write_fault : nat -> fault) (clock : nat -> Z) : Prop :=
  (forall n, write_fault n = NoFault) /\ (forall n, 0 <= clock n <= MAX_TIME).

Section Run.
Context {W : Type} (host : HostExecutor W) (me : Z) (plan : Plan)
        (log0 : list (call * journal)) (world0 : W) (fault0 : nat -> fault) (clock0 : nat -> Z).
Local Abbreviation rid := (plan_request_id plan).
Local Abbreviation verdicts cs := (answers host plan cs world0).1.
Local Abbreviation world_after cs := (answers host plan cs world0).2.

Lemma answers_snoc cs c :
  answers host plan (cs ++ [c]) world0 =
  (verdicts cs ++ [(answer host plan c (world_after cs)).1], (answer host plan c (world_after cs)).2).
Proof.
  unfold answers. rewrite fold_left_app. cbn. by destruct (answer host plan c _).
Qed.

(** Between two statements: the job as the journal holds it, the lock, and
    the calls made so far. *)
Record at_job (x : job) (cs : list call) (s : runner W) : Prop := {
  at_stored : exists l, holds (runner_journal s) l /\ find_job rid l = Some x;
  at_save : may_save me (runner_journal s);
  at_fault : write_fault (runner_journal s) = fault0;
  at_clock : clock (runner_journal s) = clock0;
  at_world : world s = world_after cs;
  at_log : exists t, log s = log0 ++ t /\ t.*1 = cs /\ Forall (entry_ok rid) t }.

Definition at_state (st : State) (backup artifact : option string) (cs : list call)
    (x : job) (s : runner W) : Prop :=
  at_job x cs s /\ state x = st /\ backup_sha256 x = backup /\ artifact_sha256 x = artifact.

Definition in_state st backup artifact cs s : Prop := exists x, at_state st backup artifact cs x s.

(** A journal that could not be written. *)
Definition stuck (cs : list call) (s : runner W) : Prop :=
  (exists t, log s = log0 ++ t /\ t.*1 = cs /\ Forall (entry_ok rid) t)
  /\ ~ obeys fault0 clock0.

(** The exceptional exit of a computation of [_run]. *)
Definition exits (F : Code -> runner W -> Prop) (e : run_exn) (s : runner W) : Prop :=
  match e with
  | ActionFailed c => F c s
  | Propagate _ => exists cs, legal cs /\ stuck cs s
  end.

Lemma step_spec st0 bk art cs st c b a F :
  allowed st0 st = true -> legal cs ->
  check_receipt (bool_decide (st = BACKED_UP)) b = Ok tt ->
  check_receipt (bool_decide (st = STAGED)) a = Ok tt ->
  hoare (in_state st0 bk art cs) (step me plan st c b a)
    (at_state st (match b with Some b => Some b | None => bk end)
                 (match a with Some a => Some a | None => art end) cs)
    (exits F).
Proof.
  intros Hal Hcs Hb Ha s (x & [(l & Hl & Hx) Hm Hf Hc Hw (t & Ht & Htc & Htok)] & Hst & Hbk & Hart).
  set (j := runner_journal s) in *.
  unfold step, lift, try_except, on_journal. cbn [journal_of with_journal runner_has_journal].
  fold j. rewrite <- Hst in Hal.
  destruct (transition me rid st c b a j) as [r j'] eqn:E.
  pose proof (transition_le me rid st c b a j) as Hle. rewrite E in Hle. cbn in Hle.
  rewrite (transition_eq _ _ _ _ _ _ _ _ _ Hl Hx Hal Hb Ha) in E. cbn zeta in E.
  set (x' := step_job _ _ _ _ _ _) in E.
  destruct (save me (update_job rid x' l) (count_read j)) as [[u|e] j1] eqn:Es; injection E as <- <-.
  - destruct u. apply save_Ok in Es as ([Ho Hio] & Hwf & ->).
    destruct (find_job_update _ _ _ Hx) as (Hid & i & Hi & Hu).
    split; [split|split; [done|split; cbn; by rewrite ?Hbk, ?Hart]].
    + eexists. split; [apply holds_encoded; [exact (holds_safe _ _ Hl)|reflexivity|done]|].
      assert (job_request_id x' = rid) as Hid' by exact Hid. revert Hx Hid'. clear.
      generalize x'. clear x'. intros x' Hx Hid'. unfold find_job in *.
      induction l as [|y l IH]; cbn in *; [done|].
      destruct (bool_decide (job_request_id y = rid)) eqn:E; cbn.
      * by rewrite bool_decide_eq_true_2.
      * rewrite E. by apply IH.
    + done.
    + done.
    + done.
    + done.
    + by exists t.
  - exists cs. split; [done|]. split; [by exists t|]. intros [Hnf Hct].
    destruct (transition_total me rid st c b a j l x Hl Hm) as [Heq _];
      [by rewrite Hf|by rewrite Hc|done..|].
    rewrite (transition_eq _ _ _ _ _ _ _ _ _ Hl Hx Hal Hb Ha) in Heq. cbn zeta in Heq.
    fold x' in Heq. rewrite Es in Heq. done.
Qed.

(** [ok]: the values with which the host's method serves the plan. *)
Lemma on_host_spec {A} (c : call) (f : W -> option A * W) (ok : A -> bool) st bk art cs :
  (forall x, state x = st -> backup_sha256 x = bk -> artifact_sha256 x = art -> announced c x) ->
  (forall w, answer host plan c w = (match (f w).1 with Some a => ok a | None => false end, (f w).2)) ->
  hoare (in_state st bk art cs) (on_host c f)
    (fun a s => in_state st bk art (cs ++ [c]) s /\ verdicts (cs ++ [c]) = verdicts cs ++ [ok a])
    (fun _ s => in_state st bk art (cs ++ [c]) s /\ verdicts (cs ++ [c]) = verdicts cs ++ [false]).
Proof.
  intros Hann Hok s (x & [(l & Hl & Hx) Hm Hf Hc Hw (t & Ht & Htc & Htok)] & Hst & Hbk & Hart).
  specialize (Hok (world s)). rewrite Hw in Hok.
  assert (in_state st bk art (cs ++ [c])
    {| runner_journal := runner_journal s; world := (f (world s)).2;
       log := log s ++ [(c, runner_journal s)] |}) as Hin.
  { exists x. split; [split; cbn; eauto|done].
    - by rewrite answers_snoc, Hok, Hw.
    - exists (t ++ [(c, runner_journal s)]). split; [by rewrite Ht, app_assoc|].
      split; [by rewrite fmap_app, Htc|]. apply list.Forall_app. split; [done|].
      constructor; [|done]. exists l, x. split; [done|]. split; [done|]. by apply Hann. }
  unfold on_host. rewrite answers_snoc, Hok. rewrite <- Hw. destruct (f (world s)) as [[a|] w]; by split.
Qed.

Lemma action_spec {A} (c : Code) (m : ST (runner W) exn A) P Q P' (F : Code -> runner W -> Prop) :
  hoare P m Q (fun _ => P') -> (forall s, P' s -> F c s) ->
  hoare P (_action c m) Q (exits F).
Proof.
  intros Hm HF. eapply hoare_try; [exact Hm|]. intros e. apply hoare_raise. exact HF.
Qed.

(** The receipt checks of [prepare] and [capture]. *)
Lemma digest_spec d P (Q : string -> runner W -> Prop) (X : exn -> runner W -> Prop) :
  (forall s, P s -> matches DIGEST d -> Q d s) -> (forall e s, P s -> ~ matches DIGEST d -> X e s) ->
  hoare P (of_res (require_digest (JStr d))) Q X.
Proof.
  intros HQ HX s Hs. unfold of_res. destruct (require_digest (JStr d)) as [v|e] eqn:E.
  - apply require_Ok in E as [[= <-] Hd]. by apply HQ.
  - apply HX; [done|]. intros Hd. unfold require_digest in E.
    by rewrite (proj2 (require_Ok _ _ _) (conj eq_refl Hd)) in E.
Qed.

Lemma prepare_spec art cs bk :
  hoare (in_state STAGING bk art cs) (prepare host plan)
    (fun c s => (in_state STAGING bk art (cs ++ [Prepare]) s /\ verdicts (cs ++ [Prepare]) = verdicts cs ++ [true])
                /\ matches DIGEST (archive_sha256 c))
    (fun _ s => in_state STAGING bk art (cs ++ [Prepare]) s /\ verdicts (cs ++ [Prepare]) = verdicts cs ++ [false]).
Proof.
  unfold prepare. eapply hoare_bind.
  { apply (on_host_spec Prepare _ (fun r => match r with
      | Some r => bool_decide (cand_request_id r = plan_request_id plan) && bool_decide (cand_version r = plan_target_version plan) && fullmatch DIGEST (archive_sha256 r) | None => false end)).
    - by cbn.
    - intros w. cbn. by destruct (prepare_candidate host plan w) as [[[?|]|] ?]. }
  intros [r|]; [|by apply hoare_raise].
  destruct (bool_decide (cand_request_id r = plan_request_id plan) && bool_decide (cand_version r = plan_target_version plan)); [|by apply hoare_raise]. cbn [andb].
  eapply hoare_bind; [apply (digest_spec _ _ (fun _ s => (in_state STAGING bk art (cs ++ [Prepare]) s
    /\ verdicts (cs ++ [Prepare]) = verdicts cs ++ [true]) /\ matches DIGEST (archive_sha256 r)))|].
  - intros s [Hs Hv] Hd. by rewrite (proj2 (fullmatch_spec _ _) Hd) in Hv.
  - intros _ s [Hs Hv] Hd. destruct (fullmatch DIGEST (archive_sha256 r)) eqn:E; [|done].
    by apply fullmatch_spec in E.
  - intros d. by apply hoare_ret.
Qed.

Lemma capture_spec art cs bk :
  hoare (in_state BACKUP_STARTED bk art cs) (capture host plan)
    (fun c s => (in_state BACKUP_STARTED bk art (cs ++ [TakeBackup]) s /\ verdicts (cs ++ [TakeBackup]) = verdicts cs ++ [true])
                /\ matches DIGEST (manifest_sha256 c))
    (fun _ s => in_state BACKUP_STARTED bk art (cs ++ [TakeBackup]) s /\ verdicts (cs ++ [TakeBackup]) = verdicts cs ++ [false]).
Proof.
  unfold capture. eapply hoare_bind.
  { apply (on_host_spec TakeBackup _ (fun r => match r with
      | Some r => bool_decide (back_request_id r = plan_request_id plan) && bool_decide (back_version r = plan_current_version plan) && fullmatch DIGEST (manifest_sha256 r) | None => false end)).
    - by cbn.
    - intros w. cbn. by destruct (backup_original host plan w) as [[[?|]|] ?]. }
  intros [r|]; [|by apply hoare_raise].
  destruct (bool_decide (back_request_id r = plan_request_id plan) && bool_decide (back_version r = plan_current_version plan)); [|by apply hoare_raise]. cbn [andb].
  eapply hoare_bind; [apply (digest_spec _ _ (fun _ s => (in_state BACKUP_STARTED bk art (cs ++ [TakeBackup]) s
    /\ verdicts (cs ++ [TakeBackup]) = verdicts cs ++ [true]) /\ matches DIGEST (manifest_sha256 r)))|].
  - intros s [Hs Hv] Hd. by rewrite (proj2 (fullmatch_spec _ _) Hd) in Hv.
  - intros _ s [Hs Hv] Hd. destruct (fullmatch DIGEST (manifest_sha256 r)) eqn:E; [|done].
    by apply fullmatch_spec in E.
  - intros d. by apply hoare_ret.
Qed.

(** The target is newer than the version the plan starts from. *)
Local Abbreviation upgrade := (is_upgrade plan).

(** The calls of the first [k] steps of the script, all answered as the plan asks; and
    those of which the last was the first that was not. *)
Definition served (k : nat) (cs : list call) : Prop :=
  kind_of <$> cs = take k SCRIPT /\ verdicts cs = replicate k true.
Definition refused (k : nat) (cs : list call) : Prop :=
  kind_of <$> cs = take k SCRIPT /\ verdicts cs = broke k.

(** Where an action may fail: a state, the receipts and the calls so far. *)
Definition failing (bk : option Backup) (m : bool) (s : runner W) : Prop :=
  exists st art cs k, in_state st (manifest_sha256 <$> bk) art cs s /\ m = is_some bk
    /\ refused k cs /\ upgrade = negb (Nat.eqb k 0)
    /\ if BEFORE_CUTOVER st then (k <= 5)%nat
       else (6 <= k <= 9)%nat /\ allowed st ROLLING_BACK = true.

Lemma failing_in bk m st art cs k s :
  in_state st (manifest_sha256 <$> bk) art cs s -> m = is_some bk ->
  refused k cs -> upgrade = negb (Nat.eqb k 0) ->
  (if BEFORE_CUTOVER st then (k <= 5)%nat
   else (6 <= k <= 9)%nat /\ allowed st ROLLING_BACK = true) ->
  failing bk m s.
Proof. intros. exists st, art, cs, k. auto. Qed.

Lemma legal_take cs k : (k <= 9)%nat -> kind_of <$> cs = take k SCRIPT -> legal cs.
Proof. intros Hk Hcs. exists k, 0%nat. rewrite take_0, app_nil_r. repeat split; auto with lia. Qed.

Lemma kinds_snoc cs k c :
  kind_of <$> cs = take k SCRIPT -> SCRIPT !! k = Some (kind_of c) ->
  kind_of <$> (cs ++ [c]) = take (S k) SCRIPT.
Proof. intros H Hc. by rewrite fmap_app, H, (take_S_r _ _ _ Hc). Qed.

Lemma served_snoc cs k c :
  served k cs -> SCRIPT !! k = Some (kind_of c) ->
  verdicts (cs ++ [c]) = verdicts cs ++ [true] -> served (S k) (cs ++ [c]).
Proof.
  intros [Hk Hv] Hc E. split; [by apply kinds_snoc|]. by rewrite E, Hv, replicate_S_end.
Qed.

Lemma refused_snoc cs k c :
  served k cs -> SCRIPT !! k = Some (kind_of c) ->
  verdicts (cs ++ [c]) = verdicts cs ++ [false] -> refused (S k) (cs ++ [c]).
Proof. intros [Hk Hv] Hc E. split; [by apply kinds_snoc|]. by rewrite E, Hv. Qed.

(** The next call of the script: it is served, or the transaction is left failing. *)
Lemma call_spec {A} (code : Code) (c : call) (m : ST (runner W) exn A) (good : A -> Prop) bk m0 st art cs k :
  served k cs -> SCRIPT !! k = Some (kind_of c) -> upgrade = true -> m0 = is_some bk ->
  (if BEFORE_CUTOVER st then (S k <= 5)%nat else (6 <= S k <= 9)%nat /\ allowed st ROLLING_BACK = true) ->
  hoare (in_state st (manifest_sha256 <$> bk) art cs) m
    (fun a s => (in_state st (manifest_sha256 <$> bk) art (cs ++ [c]) s
                 /\ verdicts (cs ++ [c]) = verdicts cs ++ [true]) /\ good a)
    (fun _ s => in_state st (manifest_sha256 <$> bk) art (cs ++ [c]) s
                /\ verdicts (cs ++ [c]) = verdicts cs ++ [false]) ->
  hoare (in_state st (manifest_sha256 <$> bk) art cs) (_action code m)
    (fun a s => in_state st (manifest_sha256 <$> bk) art (cs ++ [c]) s /\ served (S k) (cs ++ [c]) /\ good a)
    (exits (fun _ => failing bk m0)).
Proof.
  intros Hs Hc Hup Hm Hst Hh. eapply action_spec.
  - eapply hoare_conseq; [exact Hh|done| |by intros ?].
    intros a s [[Hin Hv] Hg]. split; [done|]. split; [by apply served_snoc|done].
  - intros s [Hin Hv]. apply (failing_in bk m0 st art (cs ++ [c]) (S k) s Hin); [done| |done|done].
    by apply refused_snoc.
Qed.

(** Calls that return nothing. *)
Lemma unit_call_spec (code : Code) (c : call) (f : W -> option unit * W) bk m0 st art cs k :
  (forall x, state x = st -> backup_sha256 x = manifest_sha256 <$> bk -> artifact_sha256 x = art -> announced c x) ->
  (forall w, answer host plan c w = (is_some (f w).1, (f w).2)) ->
  served k cs -> SCRIPT !! k = Some (kind_of c) -> upgrade = true -> m0 = is_some bk ->
  (if BEFORE_CUTOVER st then (S k <= 5)%nat else (6 <= S k <= 9)%nat /\ allowed st ROLLING_BACK = true) ->
  hoare (in_state st (manifest_sha256 <$> bk) art cs) (_action code (on_host c f))
    (fun _ s => in_state st (manifest_sha256 <$> bk) art (cs ++ [c]) s /\ served (S k) (cs ++ [c]))
    (exits (fun _ => failing bk m0)).
Proof.
  intros Hann Hf Hs Hc Hup Hm Hst. eapply hoare_conseq.
  - eapply (call_spec code c _ (fun _ => True)); [exact Hs|done..|].
    eapply hoare_conseq; [apply (on_host_spec c f (fun _ => true)); [done|]|done| |done].
    + intros w. rewrite Hf. by destruct (f w) as [[]].
    + intros a s H. split; [exact H|done].
  - done.
  - intros a s (H1 & H2 & _). by split.
  - by intros ?.
Qed.

Lemma check_current_spec st art cs k :
  (st = REQUESTED \/ st = STAGED) -> served k cs -> upgrade = true -> (k = 0 \/ k = 3)%nat ->
  hoare (in_state st None art cs) (check_current host plan)
    (fun _ s => in_state st None art (cs ++ [CurrentVersion; Preflight]) s
                /\ served (S (S k)) (cs ++ [CurrentVersion; Preflight]))
    (exits (fun _ => failing None false)).
Proof.
  intros Hst Hcs Hup Hk.
  assert (BEFORE_CUTOVER st = true) as Hb by (by destruct Hst as [-> | ->]).
  assert (SCRIPT !! k = Some KCurrentVersion /\ SCRIPT !! S k = Some KPreflight) as [Hk1 Hk2]
    by (destruct Hk as [-> | ->]; done).
  assert (forall c, (c = CurrentVersion \/ c = Preflight) -> forall x, state x = st ->
    backup_sha256 x = None -> artifact_sha256 x = art -> announced c x) as Hann.
  { intros c Hc x <- _ _. by destruct Hc as [-> | ->]. }
  replace (cs ++ [CurrentVersion; Preflight]) with ((cs ++ [CurrentVersion]) ++ [Preflight])
    by by rewrite <- app_assoc.
  unfold check_current. eapply hoare_bind.
  { eapply action_spec; [apply (on_host_spec CurrentVersion _
        (fun v => bool_decide (v = plan_current_version plan))); [by apply Hann; left|]|].
    - intros w. cbn. destruct (current_version host w) as [[v|] w']; cbn; [|done].
      f_equal. apply bool_decide_ext. split; [by intros [= ->]|by intros ->].
    - intros s [Hs Hv]. apply (failing_in None false st art (cs ++ [CurrentVersion]) (S k) s Hs);
        [done|by apply refused_snoc|done|]. rewrite Hb. lia. }
  intros v. cbv beta. destruct (bool_decide _) eqn:Ev; cbn [negb].
  - apply hoare_pure. intros Hv.
    apply (unit_call_spec _ Preflight _ None false st art (cs ++ [CurrentVersion]) (S k)); try done.
    + by apply Hann; right.
    + by apply served_snoc.
    + rewrite Hb. lia.
  - apply hoare_raise. intros s [Hs Hv].
    apply (failing_in None false st art (cs ++ [CurrentVersion]) (S k) s Hs);
      [done|by apply refused_snoc|done|]. rewrite Hb. lia.
Qed.

Lemma step_next st0 bk art cs st c b a F :
  allowed st0 st = true -> legal cs ->
  check_receipt (bool_decide (st = BACKED_UP)) b = Ok tt ->
  check_receipt (bool_decide (st = STAGED)) a = Ok tt ->
  hoare (in_state st0 bk art cs) (step me plan st c b a)
    (fun _ => in_state st (match b with Some b => Some b | None => bk end)
                          (match a with Some a => Some a | None => art end) cs)
    (exits F).
Proof.
  intros Hal Hcs Hb Ha. eapply hoare_conseq; [by apply (step_spec st0 bk art cs st c b a F)|done| |done].
  intros x s Hs. by exists x.
Qed.

Lemma step_public st0 bk art cs st c F :
  allowed st0 st = true -> legal cs -> st <> BACKED_UP -> st <> STAGED ->
  hoare (in_state st0 bk art cs) (public_job <$> step me plan st c None None)
    (fun p s => exists x, at_job x cs s /\ p = public_job x /\ state x = st) (exits F).
Proof.
  intros Hal Hcs Hb Ha. apply hoare_fmap.
  eapply hoare_conseq; [apply (step_spec st0 bk art cs st c None None F)|done| |done]; try done.
  - by rewrite bool_decide_eq_false_2.
  - by rewrite bool_decide_eq_false_2.
  - intros x s (Hx & Hst & _). by exists x.
Qed.

Lemma plain_step st0 bk art cs st c F k :
  allowed st0 st = true -> kind_of <$> cs = take k SCRIPT -> (k <= 9)%nat ->
  st <> BACKED_UP -> st <> STAGED ->
  hoare (in_state st0 bk art cs) (step me plan st c None None)
    (fun _ => in_state st bk art cs) (exits F).
Proof.
  intros Hal Hcs Hk Hb Ha. apply (step_next st0 bk art cs st c None None F);
    [done|by apply (legal_take _ k)| |]; by rewrite bool_decide_eq_false_2.
Qed.

Definition calls_checked : list call := [CurrentVersion; Preflight].
Definition calls_staged : list call := calls_checked ++ [Prepare].
Definition calls_rechecked : list call := calls_staged ++ calls_checked.
Definition calls_stopped : list call := calls_rechecked ++ [Stop].
Definition calls_backed_up : list call := calls_stopped ++ [TakeBackup].

Lemma digest_receipt d : matches DIGEST d -> check_receipt true (Some d) = Ok tt.
Proof. intros Hd. apply check_receipt_Ok. by exists d. Qed.

Lemma newer_spec :
  matches VERSION (plan_target_version plan) -> matches VERSION (plan_current_version plan) ->
  newer (plan_target_version plan) (plan_current_version plan) = Ok upgrade.
Proof.
  intros Ht Hc. unfold is_upgrade, newer, require_version.
  rewrite (proj2 (require_Ok _ _ _) (conj eq_refl Ht)). cbn [mbind res_bind].
  by rewrite (proj2 (require_Ok _ _ _) (conj eq_refl Hc)).
Qed.

Lemma until_backup_spec :
  matches VERSION (plan_target_version plan) -> matches VERSION (plan_current_version plan) ->
  hoare (in_state REQUESTED None None []) (until_backup host me plan)
    (fun r s => in_state BACKUP_STARTED None (Some (archive_sha256 r.1)) calls_backed_up s
                /\ (upgrade = true /\ served 7 calls_backed_up) /\ matches DIGEST (manifest_sha256 r.2))
    (exits (fun _ => failing None false)).
Proof.
  intros Ht Hc. unfold until_backup.
  eapply (hoare_bind _ _ _ (fun b s => in_state REQUESTED None None [] s /\ b = upgrade)).
  { intros s Hs. unfold lift, try_except, of_res. by rewrite newer_spec. }
  intros newer. cbv beta. apply hoare_pure. intros ->. destruct upgrade eqn:Hup; cbn [negb].
  2:{ apply hoare_raise. intros s Hs. apply (failing_in None false REQUESTED None [] 0 s Hs); [done|done|done|].
    change (0 <= 5)%nat. lia. }
  eapply hoare_bind; [by apply (check_current_spec REQUESTED None [] 0); auto|]. intros ?. cbv beta.
  apply hoare_pure. intros Hs2.
  eapply hoare_bind; [by apply (plain_step _ _ _ _ _ _ _ 2); try lia|]. intros ?. cbv beta.
  eapply hoare_bind; [by apply (plain_step _ _ _ _ _ _ _ 2); try lia|]. intros ?. cbv beta.
  eapply hoare_bind.
  { apply (call_spec _ Prepare _ (fun c => matches DIGEST (archive_sha256 c)) None false STAGING None calls_checked 2);
      [done..|change (3 <= 5)%nat; lia|apply prepare_spec]. }
  intros c. cbv beta. apply hoare_pure. intros [Hs3 Hd].
  eapply hoare_bind.
  { apply (step_next _ None None calls_staged STAGED None None (Some (archive_sha256 c)));
      [done|by apply (legal_take _ 3); try lia|done|by apply digest_receipt]. }
  intros ?. cbv beta match.
  eapply hoare_bind; [by apply (check_current_spec STAGED _ calls_staged 3); auto|]. intros ?. cbv beta.
  apply hoare_pure. intros Hs5.
  eapply hoare_bind; [by apply (plain_step _ _ _ _ _ _ _ 5); try lia|]. intros ?. cbv beta.
  eapply hoare_bind.
  { apply (unit_call_spec _ Stop _ None false STOP_REQUESTED _ calls_rechecked 5);
      [by cbn|done..|change ((6 <= 6 <= 9)%nat /\ true = true); lia]. }
  intros ?. cbv beta. apply hoare_pure. intros Hs6.
  eapply hoare_bind; [by apply (plain_step _ _ _ _ _ _ _ 6); try lia|]. intros ?. cbv beta.
  eapply hoare_bind; [by apply (plain_step _ _ _ _ _ _ _ 6); try lia|]. intros ?. cbv beta.
  eapply hoare_bind.
  { apply (call_spec _ TakeBackup _ (fun b => matches DIGEST (manifest_sha256 b)) None false BACKUP_STARTED _ calls_stopped 6);
      [done..|change ((6 <= 7 <= 9)%nat /\ true = true); lia|apply capture_spec]. }
  intros b. cbv beta. apply hoare_pure. intros [Hs7 Hd']. by apply hoare_ret.
Qed.

Lemma until_start_spec c b :
  matches DIGEST (manifest_sha256 b) ->
  hoare (in_state BACKUP_STARTED None (Some (archive_sha256 c)) calls_backed_up)
    (until_start me plan b)
    (fun _ => in_state START_REQUESTED (Some (manifest_sha256 b)) (Some (archive_sha256 c))
                calls_backed_up)
    (exits (fun _ _ => False)).
Proof.
  intros Hd. unfold until_start. eapply hoare_bind.
  { apply (step_next _ None _ calls_backed_up BACKED_UP None (Some (manifest_sha256 b)) None);
      [done|by apply (legal_take _ 7); try lia|by apply digest_receipt|done]. }
  intros ?. cbv beta match.
  eapply hoare_bind; [by apply (plain_step _ _ _ _ _ _ _ 7); try lia|]. intros ?.
  by apply hoare_ret.
Qed.

(** What a finished transaction leaves: the job in its final state, as shown. *)
Definition finished (p : public) (s : runner W) : Prop :=
  exists x cs, at_job x cs s /\ p = public_job x /\ outcome upgrade (state x) cs (verdicts cs).

Definition calls_started c b : list call := calls_backed_up ++ [Start c b].

Lemma until_complete_spec c b :
  upgrade = true -> served 7 calls_backed_up ->
  hoare (in_state START_REQUESTED (Some (manifest_sha256 b)) (Some (archive_sha256 c)) calls_backed_up)
    (until_complete host me plan c b) finished (exits (fun _ => failing (Some b) true)).
Proof.
  intros Hup Hs7. unfold until_complete. eapply hoare_bind.
  { apply (unit_call_spec _ (Start c b) _ (Some b) true START_REQUESTED _ calls_backed_up 7);
      [by cbn|done..|change ((6 <= 8 <= 9)%nat /\ true = true); lia]. }
  intros ?. cbv beta. apply hoare_pure. intros Hs8.
  eapply hoare_bind; [by apply (plain_step _ _ _ _ _ _ _ 8); try lia|]. intros ?. cbv beta.
  eapply hoare_bind.
  { apply (unit_call_spec _ Verify _ (Some b) true STARTED _ (calls_started c b) 8);
      [by cbn|done..|change ((6 <= 9 <= 9)%nat /\ true = true); lia]. }
  intros ?. cbv beta. apply hoare_pure. intros [Hk9 Hv9].
  eapply hoare_bind; [by apply (plain_step _ _ _ _ _ _ _ 9); try lia|]. intros ?. cbv beta.
  eapply hoare_conseq; [apply (step_public VERIFIED (Some (manifest_sha256 b)) (Some (archive_sha256 c))
      (calls_started c b ++ [Verify])); [done|by apply (legal_take _ 9); try lia|done|done]|done| |done].
  intros p s (x & Hx & -> & Hst). exists x, (calls_started c b ++ [Verify]).
  split; [exact Hx|]. split; [done|]. by rewrite Hst.
Qed.

Lemma read_spec st bk art cs F :
  hoare (in_state st bk art cs) (lift (on_journal read))
    (fun l s => in_state st bk art cs s /\ exists j, find_job rid l = Some j /\ state j = st)
    (exits F).
Proof.
  intros s (x & [(l & Hl & Hx) Hm Hf Hc Hw Ht] & Hst & Hbk & Hart).
  unfold lift, try_except, on_journal. cbn [journal_of with_journal runner_has_journal].
  rewrite Hl. split; [|eauto]. exists x. split; [|done]. split; try done; by exists l.
Qed.

Lemma legal_undo cs k r :
  (6 <= k <= 9)%nat -> (r <= 2)%nat -> kind_of <$> cs = take k SCRIPT ++ take r UNDO -> legal cs.
Proof. intros Hk Hr Hcs. exists k, r. split; [lia|]. split; [done|]. split; [right; lia|done]. Qed.

(** The end of a transaction whose host action failed. *)
Lemma rollback_spec bk m c F :
  hoare (failing bk m) (rollback host me plan bk m (ActionFailed c)) finished (exits F).
Proof.
  intros s0 (st & art & cs & k & Hs0 & Hm & [Hk Hv] & Hup & Hkst). revert s0 Hs0.
  change (hoare (in_state st (manifest_sha256 <$> bk) art cs)
    (rollback host me plan bk m (ActionFailed c)) finished (exits F)).
  unfold rollback. eapply hoare_bind; [apply read_spec|]. intros l. cbv beta.
  apply hoare_pure. intros (j & -> & ->).
  destruct (BEFORE_CUTOVER st) eqn:Hb.
  - eapply hoare_conseq; [apply (step_public st (manifest_sha256 <$> bk) art cs); [by destruct st|by apply (legal_take _ k); try lia|done|done]|done| |done].
    intros p s (x & Hx & -> & Hst). exists x, cs. split; [done|]. split; [done|].
    rewrite Hst. by exists k.
  - destruct Hkst as [Hk69 Hal].
    assert (take 1 UNDO = [KRestore]) as Hu1 by done. assert (take 2 UNDO = UNDO) as Hu2 by done.
    set (cs1 := cs ++ [Restore bk m]). set (cs2 := cs1 ++ [VerifyOriginal]).
    assert (kind_of <$> cs1 = take k SCRIPT ++ take 1 UNDO) as Hk1
      by (unfold cs1; by rewrite fmap_app, Hk).
    assert (kind_of <$> cs2 = take k SCRIPT ++ take 2 UNDO) as Hk2
      by (unfold cs2; by rewrite fmap_app, Hk1, <- app_assoc).
    eapply hoare_bind; [apply (plain_step _ _ _ _ _ _ _ k); [done|done|lia|done|done]|].
    intros ?. cbv beta.
    eapply (hoare_bind _ _ _ (fun ok s => if ok : bool
      then in_state ROLLING_BACK (manifest_sha256 <$> bk) art cs2 s /\ verdicts cs2 = broke k ++ [true; true]
      else exists r cs', (1 <= r <= 2)%nat /\ (kind_of <$> cs' = take k SCRIPT ++ take r UNDO
             /\ verdicts cs' = broke k ++ broke r)
           /\ in_state ROLLING_BACK (manifest_sha256 <$> bk) art cs' s)).
    { eapply (hoare_try _ _ _ _ (exits (fun _ s => exists r cs', (1 <= r <= 2)%nat
        /\ (kind_of <$> cs' = take k SCRIPT ++ take r UNDO /\ verdicts cs' = broke k ++ broke r)
        /\ in_state ROLLING_BACK (manifest_sha256 <$> bk) art cs' s))).
      - eapply hoare_bind.
        { eapply action_spec; [apply (on_host_spec (Restore bk m) _ (fun _ => true)); [intros x Hst Hbk _; by subst|]|].
          - intros w. cbn. by destruct (restore_original host plan bk m w) as [[]].
          - intros s [Hs Hv1]. exists 1%nat, cs1. split; [lia|]. split; [|done]. split; [done|].
            unfold cs1. by rewrite Hv1, Hv. }
        intros ?. cbv beta. apply hoare_pure. intros Hv1. eapply hoare_bind.
        { eapply action_spec; [apply (on_host_spec VerifyOriginal _ (fun _ => true)); [intros x Hst _ _; by cbn|]|].
          - intros w. cbn. by destruct (verify_original host plan w) as [[]].
          - intros s [Hs Hv2]. exists 2%nat, cs2. split; [lia|]. split; [|done]. split; [done|].
            unfold cs2, cs1. by rewrite Hv2, Hv1, Hv, <- app_assoc. }
        intros ?. cbv beta. apply hoare_pure. intros Hv2. apply hoare_ret. intros s Hs. split; [done|].
        unfold cs2, cs1. by rewrite Hv2, Hv1, Hv, <- app_assoc.
      - intros [c'|e]; [by apply hoare_ret|by apply hoare_raise]. }
    intros [|]; cbv beta match.
    + apply hoare_pure. intros Hv2.
      eapply hoare_conseq; [apply (step_public ROLLING_BACK (manifest_sha256 <$> bk) art cs2);
        [done|by apply (legal_undo _ k 2); try lia|done|done]|done| |done].
      intros p s (x & Hx & -> & Hst). exists x, cs2. split; [done|]. split; [done|].
      rewrite Hst. exists k. repeat split; [lia..|done|by rewrite Hup; destruct k; [lia|]|done].
    + intros s (r & cs' & Hr & [Hk' Hv'] & Hs). revert s Hs.
      change (hoare (in_state ROLLING_BACK (manifest_sha256 <$> bk) art cs')
        (public_job <$> step me plan MANUAL_ACTION_REQUIRED (Some RESTORE_FAILED) None None)
        finished (exits F)).
      eapply hoare_conseq; [apply (step_public ROLLING_BACK (manifest_sha256 <$> bk) art cs');
        [done|by apply (legal_undo _ k r); try lia|done|done]|done| |done].
      intros p s (x & Hx & -> & Hst). exists x, cs'. split; [done|]. split; [done|].
      rewrite Hst. exists k, r. repeat split; [lia..|done|by rewrite Hup; destruct k; [lia|]|done].
Qed.

Lemma hoare_guarded {A B} (m : ST (runner W) run_exn A) h (k : A -> ST (runner W) run_exn B)
    P Q F (Q' : B -> runner W -> Prop) :
  hoare P m Q (exits F) -> (forall c, hoare (F c) (h (ActionFailed c)) Q' (exits (fun _ _ => False))) ->
  (forall e, h (Propagate e) = raise (Propagate e)) ->
  (forall a, hoare (Q a) (k a) Q' (exits (fun _ _ => False))) ->
  hoare P (guarded m h k) Q' (exits (fun _ _ => False)).
Proof.
  intros Hm Hh He Hk s Hs. specialize (Hm s Hs). unfold guarded.
  destruct (m s) as [[a|[c|e]] s']; [by apply Hk|by apply Hh|]. rewrite He. exact Hm.
Qed.

Lemma run_spec :
  matches VERSION (plan_target_version plan) -> matches VERSION (plan_current_version plan) ->
  hoare (in_state REQUESTED None None []) (_run host me plan) finished (exits (fun _ _ => False)).
Proof.
  intros Ht Hc. unfold _run.
  eapply hoare_guarded; [by apply until_backup_spec|intros c; apply rollback_spec|done|].
  intros [c b]. apply hoare_pure. intros [[Hup Hs7] Hd]. cbn [fst snd] in *.
  eapply hoare_guarded; [by apply until_start_spec|intros e s []|done|].
  intros ?. cbv beta.
  eapply hoare_guarded; [by apply until_complete_spec|intros e; apply rollback_spec|done|].
  intros p. by apply hoare_ret.
Qed.
End Run.

(** ** A whole transaction *)
Lemma make_plan_Ok rid target current plan :
  make_plan rid target current = Ok plan <->
  plan = {| plan_request_id := rid; plan_target_version := target;
            plan_current_version := current |}
  /\ matches REQUEST_ID rid /\ matches VERSION target /\ matches VERSION current.
Proof.
  unfold make_plan, require_request_id, require_version. split.
  - intros (r1 & H1 & (r2 & H2 & (r3 & H3 & [= <-])%bind_Ok)%bind_Ok)%bind_Ok.
    apply require_Ok in H1 as [E1 ?], H2 as [E2 ?], H3 as [E3 ?].
    repeat match goal with H : JStr _ = JStr _ |- _ => injection H as <- end. done.
  - intros (-> & H1 & H2 & H3).
    rewrite (proj2 (require_Ok _ _ _) (conj eq_refl H1)). cbn [mbind res_bind].
    rewrite (proj2 (require_Ok _ _ _) (conj eq_refl H2)). cbn [mbind res_bind].
    by rewrite (proj2 (require_Ok _ _ _) (conj eq_refl H3)).
Qed.

Lemma outcome_legal up st cs vs : outcome up st cs vs -> legal cs.
Proof.
  destruct st; cbn [outcome]; try done.
  - intros (_ & H & _). by apply (legal_take _ 9).
  - intros (k & Hk & H & _). by apply (legal_undo _ k 2); [|lia|].
  - intros (k & Hk & H & _). apply (legal_take _ k); [lia|done].
  - intros (k & r & Hk & Hr & H & _). by apply (legal_undo _ k r); [|lia|].
Qed.

(** The acknowledgement, if one was asked for, with the journal it follows. *)
Definition ack_entry (acknowledge : bool) (x : job) (j : journal) : list (call * journal) :=
  if acknowledge then [(Acknowledge (public_job x), j)] else [].

Definition add_log {W} (t : list (call * journal)) (s : runner W) : runner W :=
  {| runner_journal := runner_journal s; world := world s; log := log s ++ t |}.

(** The plan of an acceptable request. *)
Definition plan_of (request : Request) : Plan :=
  {| plan_request_id := request_id request; plan_target_version := target_version request;
     plan_current_version := expected_current_version request |}.

(** What the reserved part of [execute] does, when it did not stop in [begin]. *)
Definition executed {W} (host : HostExecutor W) (request : Request) (acknowledge : bool) (s : runner W) (x : job)
    (created : bool) (j : journal) (r : res exn public) (s' : runner W) : Prop :=
  if created then
    exists t, log s' = log s ++ ack_entry acknowledge x j ++ t
      /\ Forall (entry_ok (request_id request)) t
      /\ match r with
         | Ok p => exists x' l', p = public_job x'
                     /\ (world s' = (answers host (plan_of request) t.*1 (world s)).2
                         /\ outcome (is_upgrade (plan_of request)) (state x') t.*1
                              (answers host (plan_of request) t.*1 (world s)).1)
                     /\ holds (runner_journal s') l' /\ find_job (request_id request) l' = Some x'
         | Err e => legal t.*1 /\ ~ obeys (write_fault j) (clock j)
         end
  else r = Ok (public_job x)
       /\ s' = add_log (ack_entry acknowledge x j) (with_journal j s).

Lemma reserve_and_run_spec {W} (host : HostExecutor W) me request ack plan s r s' :
  make_plan (request_id request) (target_version request) (expected_current_version request)
    = Ok plan ->
  reserve_and_run host me request ack plan s = (r, s') ->
  (exists e j, begin me request (runner_journal s) = (Err e, j) /\ r = Err e
               /\ s' = with_journal j s)
  \/ exists x created j, begin me request (runner_journal s) = (Ok (x, created), j)
      /\ executed host request ack s x created j r s'.
Proof.
  intros (-> & _ & Htv & Hcv)%make_plan_Ok. change {| plan_request_id := _ |} with (plan_of request). set (plan := plan_of request).
  unfold reserve_and_run, mbind, st_bind, on_journal. cbn [journal_of with_journal runner_has_journal].
  destruct (begin me request (runner_journal s)) as [[[x created]|e] j] eqn:Eb;
    [|intros [= <- <-]; left; eauto]. intros H. right. exists x, created, j. split; [done|].
  set (s1 := {| runner_journal := j; world := world s; log := log s |}) in H.
  assert ((if ack then record_call (Acknowledge (public_job x)) else mret tt) s1
    = (Ok tt, add_log (ack_entry ack x j) s1)) as Hack.
  { destruct ack; [done|]. cbn. unfold add_log. cbn. by rewrite app_nil_r. }
  rewrite Hack in H. destruct created; cbn [negb] in H; [|by injection H as <- <-].
  apply begin_Ok in Eb as (l & Hl & _ & _ & Hl' & Hf & -> & _ & Hm & _).
  set (s2 := add_log (ack_entry ack _ j) s1) in *.
  pose proof (run_spec host me plan (log s2) (world s) (write_fault j) (clock j) Htv Hcv s2) as Hrun.
  unfold unlift, try_except in H. destruct (_run host me plan s2) as [rr s3] eqn:Er.
  assert (in_state host me plan (log s2) (world s) (write_fault j) (clock j) REQUESTED None None [] s2) as Hin.
  { exists (new_job request (clock (runner_journal s) (reads (runner_journal s)))).
    split; [|done]. split; try done.
    - exists (l ++ [new_job request (clock (runner_journal s) (reads (runner_journal s)))]).
      split; [done|]. by apply find_job_app.
    - exists []. split; [by rewrite app_nil_r|done]. }
  specialize (Hrun Hin). unfold raise in H.
  destruct rr as [p|[c|e]]; [|destruct Hrun|]; injection H as <- <-.
  - destruct Hrun as (x' & cs & [(l' & Hl1 & Hx') _ _ _ Hw (t & Ht & Htc & Htok)] & -> & Hout).
    exists t. split; [rewrite Ht; unfold s2, s1, add_log; cbn; by rewrite <- app_assoc|]. split; [done|].
    exists x', l'. by rewrite Htc.
  - destruct Hrun as (cs & Hleg & (t & Ht & Htc & Htok) & Hob).
    exists t. split; [rewrite Ht; unfold s2, s1, add_log; cbn; by rewrite <- app_assoc|]. split; [done|].
    by rewrite Htc.
Qed.

(** The cases of [execute] on an installation with an executor. *)
Lemma execute_cases {W} (host : HostExecutor W) me request ack s :
  let '(r, s') := execute (Some host) me request ack s in
  (log s' = log s /\ world s' = world s /\ exists e, r = Err e)
  \/ exists x created j,
      begin me request (set_lock true (Some me) (runner_journal s)) = (Ok (x, created), j)
      /\ io_failed (runner_journal s) = false
      /\ exists s1, executed host request ack s x created j r s1
                   /\ s' = with_journal (set_lock false None (runner_journal s1)) s1.
Proof.
  unfold execute. destruct (negb _); [left; cbn; eauto|].
  unfold mbind at 1, st_bind at 1, of_res. destruct (make_plan _ _ _) as [plan|e] eqn:Ep;
    [|left; cbn; eauto].
  unfold exclusive. cbn [journal_of with_journal runner_has_journal].
  destruct (local_lock (runner_journal s)); [left; cbn; eauto|].
  destruct (io_failed (runner_journal s)) eqn:Eio; [left; cbn; eauto|].
  destruct (operation_lock (runner_journal s)); [|left; cbn; eauto..].
  set (s1 := {| runner_journal := set_lock true (Some me) (runner_journal s);
                world := world s; log := log s |}).
  destruct (reserve_and_run host me request ack plan s1) as [r s2] eqn:Er.
  apply (reserve_and_run_spec _ _ _ _ _ _ _ _ Ep) in Er
    as [(e & j & Eb & -> & ->)|(x & created & j & Eb & Hex)]; [left; cbn; eauto|].
  right. exists x, created, j. split; [done|]. split; [done|]. exists s2. split; [|done].
  unfold executed in *. by destruct created.
Qed.

Lemma handle_spec {W} auth (executor : option (HostExecutor W)) me data peer_uid ack s r s' :
  handle auth executor me data peer_uid ack s = (r, s') ->
  (s' = s /\ exists e, r = refusal e) \/
  (peer_uid = allowed_peer_uid auth /\ exists request,
     decode_request data = Ok request /\ check auth request peer_uid = Ok tt
     /\ ((action request = "status" /\ runner_journal s' = runner_journal s
          /\ world s' = world s /\ log s' = log s /\ forall p, r <> JobReply p)
         \/ exists ack' rr, (action request <> "status") /\
              execute executor me request ack' s = (rr, s')
              /\ r = match rr with Ok p => JobReply p | Err e => refusal e end)).
Proof.
  unfold handle. destruct (peer_uid =? allowed_peer_uid auth) eqn:Ep; cbn [negb];
    [|intros [= <- <-]; left; split; [done|by exists (rejected PEER_DENIED)]].
  unfold mbind, st_bind, of_res. destruct (decode_request data) as [req|e] eqn:Ed;
    [|intros [= <- <-]; left; eauto].
  destruct (check auth req peer_uid) as [[]|e] eqn:Ec; [|intros [= <- <-]; left; eauto].
  intros H. right. split; [by bdestr|]. exists req. split; [done|]. split; [done|].
  destruct (bool_decide (action req = "status")) eqn:Ea; bdestr.
  - left. split; [done|].
    assert (forall j, (public_status j).2 = j) as Hps.
    { intros j. unfold public_status, mbind, st_bind. pose proof (read_same j) as Hr.
      destruct (read j) as [[l|e] j']; exact Hr. }
    unfold on_journal in H. cbn [journal_of with_journal runner_has_journal] in H.
    specialize (Hps (runner_journal s)).
    destruct (public_status (runner_journal s)) as [[p|e] j]; cbn in Hps; subst;
      injection H as <- <-; cbn; (repeat split; try done).
    by destruct e.
  - right. destruct (execute executor me req (ack && bool_decide (action req = "submit")) s) as [rr s1] eqn:Ee.
    exists (ack && bool_decide (action req = "submit")), rr.
    split; [done|]. unfold fmap, st_fmap in H. rewrite Ee in H.
    destruct rr as [p|e]; injection H as <- <-; by split; [exact Ee|].
Qed.

Lemma execute_no_host {W} me request ack (s : runner W) :
  let '(r, s') := execute None me request ack s in
  log s' = log s /\ world s' = world s /\ exists e, r = Err e.
Proof.
  unfold execute. destruct (negb _); [cbn; eauto|].
  unfold mbind, st_bind, of_res. destruct (make_plan _ _ _) as [plan|e]; [|cbn; eauto].
  unfold exclusive. cbn [journal_of with_journal runner_has_journal].
  destruct (local_lock _); [cbn; eauto|]. destruct (io_failed _); [cbn; eauto|].
  destruct (operation_lock _); cbn; eauto.
Qed.

(** ** Properties *)

(** C2. Intent before action: in any run of [execute], with any host, any journal
    faults and any outcome, every call to the host is made while [state.json]
    holds the job of this request in the state that announces the call: the stop
    under STOP_REQUESTED, the backup under BACKUP_STARTED, the start under
    START_REQUESTED with the digests of the very candidate and backup it is given
    already recorded, the restore under ROLLING_BACK with the recorded backup.
    The calls are a beginning of the upgrade script (backup after stop, start
    after backup), followed by a restoration only if the original was stopped. *)
Theorem host_calls_announced {W} (host : HostExecutor W) me request ack s :
  let s' := (execute (Some host) me request ack s).2 in
  exists acks t, log s' = log s ++ acks ++ t
    /\ Forall (entry_ok (request_id request)) t
    /\ legal t.*1
    /\ (acks = [] \/ ack = true /\ exists p j, acks = [(Acknowledge p, j)]).
Proof.
  cbn zeta. pose proof (execute_cases host me request ack s) as H.
  destruct (execute (Some host) me request ack s) as [r s'].
  assert (legal []) as Hnil by (by apply (legal_take _ 0); [lia|]).
  destruct H as [(Hl & _)|(x & created & j & _ & _ & s1 & Hex & ->)].
  { exists [], []. rewrite !app_nil_r. split; [exact Hl|]. auto. }
  assert (ack_entry ack x j = [] \/ ack = true /\ exists p j', ack_entry ack x j = [(Acknowledge p, j')])
    as Hack by (unfold ack_entry; destruct ack; eauto).
  exists (ack_entry ack x j). unfold executed in Hex. destruct created.
  - destruct Hex as (t & Ht & Htok & Hr). exists t. split; [exact Ht|]. split; [done|].
    split; [|done]. destruct r; [|by destruct Hr].
    destruct Hr as (x' & l' & _ & [_ Hout] & _). by eapply outcome_legal.
  - destruct Hex as [_ ->]. exists []. rewrite app_nil_r. auto.
Qed.

(** C8. Every transaction concludes: on an idle, fault-free journal, [execute] of
    a new valid request returns for every host, however it fails, the job it
    leaves in the journal, and its final state says what the host answered.  COMPLETE:
    every call of the script was made and returned, with the version, the receipt or
    nothing as the plan asks.  FAILED: the request was no upgrade and the host was not
    called, or a call before the stop was the first not to be answered so, and nothing
    was called after it.  RESTORED: the stop or a later call was the first, and the
    restoration and its verification both returned.  MANUAL_ACTION_REQUIRED: the same,
    but one of these two did not return. *)
Theorem transaction_concludes {W} (host : HostExecutor W) me request ack s l :
  holds (runner_journal s) l -> calm (runner_journal s) -> acceptable request ->
  is_install (action request) = true -> find_job (request_id request) l = None ->
  Forall (fun y => is_active (state y) = false) l -> Z.of_nat (length l) < MAX_JOBS ->
  exists x s' l' acks t,
    execute (Some host) me request ack s = (Ok (public_job x), s')
    /\ holds (runner_journal s') l' /\ find_job (request_id request) l' = Some x
    /\ log s' = log s ++ acks ++ t
    /\ world s' = (answers host (plan_of request) t.*1 (world s)).2
    /\ outcome (is_upgrade (plan_of request)) (state x) t.*1
         (answers host (plan_of request) t.*1 (world s)).1.
Proof.
  intros Hl [Hlock Hlocal Hfailed Hw Hc] Hacc Hact Hf Hidle Hn.
  set (j1 := set_lock true (Some me) (runner_journal s)) in *.
  destruct (begin_new me request j1 l) as (j2 & Eb);
    [by apply (holds_ext (runner_journal s))|done|apply Hw|apply Hc|done..|].
  assert (execute (Some host) me request ack s =
    let '(r, s1) := reserve_and_run host me request ack
      {| plan_request_id := request_id request; plan_target_version := target_version request;
         plan_current_version := expected_current_version request |} (with_journal j1 s) in
    (r, with_journal (set_lock false None (runner_journal s1)) s1)) as He.
  { unfold execute. rewrite Hact. cbn [negb].
    unfold mbind, st_bind, of_res. rewrite (proj2 (make_plan_Ok _ _ _ _) (conj eq_refl Hacc)).
    unfold exclusive. cbn [journal_of runner_has_journal]. by rewrite Hlocal, Hfailed, Hlock. }
  destruct (execute (Some host) me request ack s) as [r s'] eqn:Ee.
  destruct (reserve_and_run _ _ _ _ _ _) as [r1 s1] eqn:Er. injection He as -> ->.
  apply reserve_and_run_spec in Er; [|by apply make_plan_Ok].
  cbn [runner_journal with_journal runner_has_journal] in Er. rewrite Eb in Er.
  destruct Er as [(e & j & [=] & _)|(x & created & j & [= <- <- <-] & t & Ht & Htok & Hr)].
  pose proof (begin_le me request j1) as [_ _ Hck Hft _ _]. rewrite Eb in Hck, Hft. cbn in Hck, Hft.
  destruct r1 as [p|e].
  - destruct Hr as (x' & l' & -> & [Hw' Hout] & Hl' & Hx'). eexists x', _, l', (ack_entry ack _ j2), t.
    split; [reflexivity|]. split; [by apply (holds_ext (runner_journal s1))|]. done.
  - destruct Hr as [_ Hob]. exfalso. apply Hob. split; [intros n|intros n].
    + rewrite Hft. apply Hw.
    + rewrite Hck. apply Hc.
Qed.

(** A request is never executed twice: when the journal already holds a job
    with this identifier and these versions, [execute] calls no host operation
    and writes nothing; it reports that job. *)
Theorem known_request_not_replayed {W} (host : HostExecutor W) me request ack s l x p s' :
  holds (runner_journal s) l -> find_job (request_id request) l = Some x ->
  execute (Some host) me request ack s = (Ok p, s') ->
  p = public_job x /\ world s' = world s /\ file (runner_journal s') = file (runner_journal s)
  /\ (forall c j, (c, j) ∈ log s' -> (c, j) ∈ log s \/ c = Acknowledge p).
Proof.
  intros Hl Hx He. pose proof (execute_cases host me request ack s) as H. rewrite He in H.
  destruct H as [(_ & _ & e & [=])|(y & created & j & Eb & _ & s1 & Hex & ->)].
  apply begin_Ok in Eb as (l1 & Hl1 & _ & _ & Hcase).
  assert (l1 = l) as -> by (eapply holds_fun; [exact Hl1|by apply (holds_ext (runner_journal s))]).
  destruct created; [destruct Hcase as (_ & Hnone & _); congruence|].
  destruct Hcase as [-> Hy]. assert (y = x) as -> by congruence.
  destruct Hex as [[= ->] ->]. split; [done|]. split; [done|]. split; [done|].
  intros c j. cbn. rewrite elem_of_app. unfold ack_entry. destruct ack; [|by intros [?|?%elem_of_nil]; left].
  intros [?|[= -> ->]%list_elem_of_singleton]; auto.
Qed.

(** Authentication precedes everything: the journal, the host and the log are
    untouched unless the peer is the authorized one and the frame decodes to a
    request; and a host operation is attempted, or a job reported, only for an
    install or submit request whose credential hashes to the enrolled digest. *)
Theorem only_authorized_requests {W} auth (executor : option (HostExecutor W)) me data peer_uid ack s :
  let '(r, s') := handle auth executor me data peer_uid ack s in
  (peer_uid <> allowed_peer_uid auth -> r = Refused PEER_DENIED /\ s' = s) /\
  ((log s' <> log s \/ exists p, r = JobReply p) ->
   exists request, decode_request data = Ok request /\ is_install (action request) = true
     /\ sha256_hex (credential request) = credential_sha256 auth).
Proof.
  destruct (handle auth executor me data peer_uid ack s) as [r s'] eqn:Eh. split.
  - intros Hp. unfold handle in Eh. rewrite (proj2 (Z.eqb_neq _ _) Hp) in Eh. by injection Eh as <- <-.
  - intros Hs. apply handle_spec in Eh as [[-> [e ->]]|(Hp & req & Hd & Hc & Hcase)].
    { exfalso. destruct Hs as [?|[p Hr]]; [done|]. by destruct e. }
    exists req. split; [done|]. unfold check in Hc. rewrite Hp, Z.eqb_refl in Hc.
    destruct Hcase as [(Hst & _ & _ & Hlog & Hr)|(ack' & rr & Hns & _ & _)].
    { exfalso. destruct Hs as [?|[p Hp']]; [done|]. by eapply Hr. }
    destruct (is_install (action req)) eqn:Ei; cbn [negb orb] in Hc.
    + split; [done|]. destruct (fullmatch _ _); [|done].
      destruct (bool_decide _) eqn:E; [by bdestr|done].
    + rewrite bool_decide_eq_false_2 in Hc by done. done.
Qed.

(** ** The properties at concrete installations *)
Definition zeros : string := "0000000000000000000000000000000000000000000000000000000000000000".

(** A host on which everything works. *)
Definition good_host : HostExecutor unit := {|
  current_version w := (Some "2.3.9", w);
  preflight _ w := (Some tt, w);
  prepare_candidate p w := (Some (Some {| cand_request_id := plan_request_id p;
    cand_version := plan_target_version p; archive_sha256 := zeros |}), w);
  stop_original _ w := (Some tt, w);
  backup_original p w := (Some (Some {| back_request_id := plan_request_id p;
    back_version := plan_current_version p; manifest_sha256 := zeros |}), w);
  start_candidate _ _ _ w := (Some tt, w);
  verify_candidate _ w := (Some tt, w);
  restore_original _ _ _ w := (Some tt, w);
  verify_original _ w := (Some tt, w) |}.

Definition idle : runner unit := {| runner_journal := fresh; world := tt; log := [] |}.
Definition reserved : runner unit :=
  {| runner_journal := interrupted; world := tt; log := [] |}.
Definition sample_auth : Authorization :=
  {| allowed_peer_uid := 0; credential_sha256 := zeros |}.

Example good_host_completes :
  match (execute (Some good_host) 7 sample_request false idle).1 with
  | Ok p => pub_state p = COMPLETE | Err _ => False end.
Proof. vm_compute. reflexivity. Qed.

Lemma acceptable_sample : acceptable sample_request.
Proof. split; [|split]; apply fullmatch_spec; vm_compute; reflexivity. Qed.

Lemma transaction_concludes_witness :
  exists x s' l' acks t,
    execute (Some good_host) 7 sample_request true idle = (Ok (public_job x), s')
    /\ holds (runner_journal s') l' /\ find_job (request_id sample_request) l' = Some x
    /\ log s' = log idle ++ acks ++ t
    /\ world s' = (answers good_host (plan_of sample_request) t.*1 tt).2
    /\ outcome (is_upgrade (plan_of sample_request)) (state x) t.*1
         (answers good_host (plan_of sample_request) t.*1 tt).1.
Proof.
  apply (transaction_concludes good_host 7 sample_request true idle []).
  - exact fresh_holds.
  - split; try reflexivity. intros n. split; vm_compute; discriminate.
  - exact acceptable_sample.
  - reflexivity.
  - reflexivity.
  - constructor.
  - reflexivity.
Defined.

Lemma known_request_not_replayed_witness :
  let s' := (execute (Some good_host) 7 sample_request true reserved).2 in
  public_job sample_job = public_job sample_job /\ world s' = tt
  /\ file (runner_journal s') = file interrupted
  /\ (forall c j, (c, j) ∈ log s' -> (c, j) ∈ log reserved \/ c = Acknowledge (public_job sample_job)).
Proof.
  apply (known_request_not_replayed good_host 7 sample_request true reserved [sample_job] sample_job).
  - vm_compute. reflexivity.
  - vm_compute. reflexivity.
  - vm_compute. reflexivity.
Defined.

Lemma only_authorized_requests_witness :
  handle sample_auth (Some good_host) 7 "{}" 5 true idle = (Refused PEER_DENIED, idle).
Proof.
  pose proof (only_authorized_requests sample_auth (Some good_host) 7 "{}" 5 true idle) as H.
  destruct (handle _ _ _ _ _ _ _) as [r s']. destruct H as [H _].
  destruct H as [-> ->]; [discriminate|reflexivity].
Defined.
