(* ===== verification/Health.v ===== *)
(** * Provider and playback health  (app/services/health_models.py)

    The two reducers from observed signals to one health assessment, and the
    classification of an INVALID_SOURCE.  Both are first-match decision lists;
    the properties say for which signals the positive states are given. *)
From Stdlib Require Import Ascii String.
From S2P Require Import Prelude PyNum PyStr Json.
#[local] Open Scope string_scope.
#[local] Open Scope list_scope.
#[local] Open Scope Z_scope.

Module Health.

(** ** The enumerations *)
Inductive ProviderHealth : Type :=
| HEALTHY | DEGRADED | REPORTING_DEGRADED | METADATA_STALE | AUTH_REFRESH_REQUIRED
| SERVICE_UNAVAILABLE | SOURCE_INVALID | PROVIDER_RECOVERING | PROVIDER_FAILED.

Inductive PlaybackHealth : Type :=
| STOPPED | STARTING | BUFFERING | PLAYING | PAUSED | STALLED | RECOVERING | FAILED.

Inductive MetadataHealth : Type :=
| MD_UNKNOWN | MD_CURRENT | MD_STALE | MD_FAILED | MD_RECOVERING.

Inductive ReportingHealth : Type :=
| RP_UNKNOWN | RP_HEALTHY | RP_DEGRADED | RP_FAILED | RP_RECOVERED.

Inductive StreamHealth : Type :=
| ST_UNKNOWN | ST_REACHABLE | ST_CONNECTING | ST_BUFFERING | ST_STALLED | ST_FAILED.

Inductive InvalidSourceCause : Type :=
| INACTIVITY_TIMEOUT | PROVIDER_UNAVAILABLE | ACCOUNT_UNAVAILABLE | CAUSE_REPORTING_DEGRADED
| STREAM_FAILURE | UNSUPPORTED_STREAM | SOURCE_REMOVED | INTERNAL_SERVICE_FAILURE | UNKNOWN.

#[export] Instance ProviderHealth_eq_dec : EqDecision ProviderHealth.
Proof. solve_decision. Defined.
#[export] Instance PlaybackHealth_eq_dec : EqDecision PlaybackHealth.
Proof. solve_decision. Defined.
#[export] Instance MetadataHealth_eq_dec : EqDecision MetadataHealth.
Proof. solve_decision. Defined.
#[export] Instance ReportingHealth_eq_dec : EqDecision ReportingHealth.
Proof. solve_decision. Defined.
#[export] Instance InvalidSourceCause_eq_dec : EqDecision InvalidSourceCause.
Proof. solve_decision. Defined.

(** ** Signals and results; a row of evidence is a JSON object *)
Record HealthAssessment (S : Type) := {
  state : S;
  cause : string;
  evidence : list json;
  last_success : option datetime;
  since : datetime;
  recovery_action : string;
  user_visible_reason : string;
  confidence : Z }.
Arguments state {S}. Arguments cause {S}. Arguments evidence {S}.
Arguments last_success {S}. Arguments since {S}. Arguments recovery_action {S}.
Arguments user_visible_reason {S}. Arguments confidence {S}.

Record ProviderSignals := {
  source_invalid : bool;
  source_visible : option bool;
  service_available : option bool;
  account_available : option bool;
  auth_valid : option bool;
  auth_refresh_required : bool;
  reporting_health : ReportingHealth;
  reporting_semantic_persistent : bool;
  metadata_health : MetadataHealth;
  recovering : bool;
  failure_budget_exhausted : bool;
  p_last_success : option datetime;
  p_evidence : list json }.

Record PlaybackSignals := {
  radio_status : option string;
  source : option string;
  source_valid : option bool;
  position_advancing : option bool;
  progress_observed_for_s : option pynum;
  stall_after_s : pynum;
  stream_health : StreamHealth;
  pb_recovering : bool;
  recovery_failed : bool;
  pb_last_success : option datetime;
  pb_evidence : list json }.

Record InvalidSourceDiagnosis := {
  diag_cause : InvalidSourceCause;
  diag_confidence : Z;
  diag_evidence : list json;
  diag_reason : string }.

(** [x is True] and [x is False] of an optional bool. *)
Definition is_true (x : option bool) : bool := bool_decide (x = Some true).
Definition is_false (x : option bool) : bool := bool_decide (x = Some false).

(** [_now(value)], with the reading of the clock it makes on [None]. *)
Definition _now (clock : datetime) (value : option datetime) : datetime :=
  match value with None => to_utc clock | Some v => to_utc v end.

Definition reduce_provider_health (clock : datetime) (signals : ProviderSignals)
    (since : option datetime) : HealthAssessment ProviderHealth :=
  let observed := _now clock since in
  let result st c action reason conf :=
    {| state := st; cause := c; evidence := p_evidence signals;
       last_success := p_last_success signals; since := observed;
       recovery_action := action; user_visible_reason := reason; confidence := conf |} in
  if recovering signals then
    result PROVIDER_RECOVERING "TARGETED_RECOVERY_ACTIVE" "Recovery-Ergebnis abwarten"
      "Der Provider wird kontrolliert wiederhergestellt." 100
  else if failure_budget_exhausted signals then
    result PROVIDER_FAILED "RECOVERY_BUDGET_EXHAUSTED" "Manuelle Diagnose öffnen"
      "Der Provider konnte innerhalb des sicheren Budgets nicht wiederhergestellt werden." 95
  else if source_invalid signals then
    result SOURCE_INVALID "AUTHORITATIVE_SOURCE_INVALID"
      "Ursache klassifizieren; noch nicht neu auswählen"
      "Das Radio meldet die Quelle als ungültig." 100
  else if auth_refresh_required signals || is_false (auth_valid signals) then
    result AUTH_REFRESH_REQUIRED "AUTHENTICATION_EXPIRED_OR_REJECTED"
      "Provider-Anmeldung einmalig aktualisieren"
      "Die Provider-Anmeldung muss aktualisiert werden."
      (if auth_refresh_required signals then 95 else 80)
  else if is_false (service_available signals) || is_false (source_visible signals) then
    result SERVICE_UNAVAILABLE "SERVICE_OR_SOURCE_UNAVAILABLE"
      "Service- und Quellenstatus aktualisieren"
      "Der Dienst oder seine Quelle ist derzeit nicht verfügbar." 95
  else if is_false (account_available signals) then
    result SERVICE_UNAVAILABLE "ACCOUNT_UNAVAILABLE" "Kontozuordnung prüfen"
      "Die lokale Provider-Zuordnung ist nicht verfügbar." 85
  else if reporting_semantic_persistent signals then
    result DEGRADED "PERSISTENT_REPORTING_SEMANTIC_ERROR"
      "Providerstatus aktualisieren; Wiedergabe beibehalten"
      "Der Provider meldet einen dauerhaften Reportingfehler." 90
  else if bool_decide (reporting_health signals ∈ [RP_DEGRADED; RP_FAILED]) then
    result REPORTING_DEGRADED "REPORTING_TRANSPORT_DEGRADED"
      "Reporting separat mit Backoff wiederholen"
      "Statusberichte sind gestört; die Wiedergabe wird nicht unterbrochen." 100
  else if bool_decide (metadata_health signals ∈ [MD_STALE; MD_FAILED]) then
    result METADATA_STALE "METADATA_STALE" "Nur Metadaten aktualisieren"
      "Die Wiedergabe läuft, aber die Titelinformationen sind veraltet." 100
  else if is_true (service_available signals) && is_true (source_visible signals)
       && is_true (account_available signals) && is_true (auth_valid signals) then
    result HEALTHY "ALL_OBSERVED_PROVIDER_SIGNALS_OK" "Keine" "Provider ist verfügbar." 90
  else
    result DEGRADED "INSUFFICIENT_OR_PARTIAL_EVIDENCE" "Read-only Providerstatus ergänzen"
      "Der Providerstatus ist nur teilweise bekannt." 45.

(** [(x or "").strip().upper()]. *)
Definition normalized (x : option string) : string := py_upper (py_strip (default "" x)).

(** [elapsed is not None and elapsed > stall_after_s]. *)
Definition over_time (signals : PlaybackSignals) : bool :=
  match progress_observed_for_s signals with
  | Some elapsed => num_lt (stall_after_s signals) elapsed
  | None => false
  end.

Definition reduce_playback_health (clock : datetime) (signals : PlaybackSignals)
    (since : option datetime) : HealthAssessment PlaybackHealth :=
  let observed := _now clock since in
  let result st c action reason conf :=
    {| state := st; cause := c; evidence := pb_evidence signals;
       last_success := pb_last_success signals; since := observed;
       recovery_action := action; user_visible_reason := reason; confidence := conf |} in
  let status := normalized (radio_status signals) in
  let src := normalized (source signals) in
  if pb_recovering signals then
    result RECOVERING "TARGETED_RECOVERY_ACTIVE" "Recovery-Ergebnis per Radio-Readback prüfen"
      "Die Wiedergabe wird kontrolliert wiederhergestellt." 100
  else if recovery_failed signals then
    result FAILED "RECOVERY_FAILED" "Manuelle Diagnose"
      "Die Wiedergabe konnte nicht sicher wiederhergestellt werden." 100
  else if bool_decide (src = "INVALID_SOURCE") || is_false (source_valid signals) then
    result FAILED "AUTHORITATIVE_INVALID_SOURCE" "INVALID_SOURCE-Ursache klassifizieren"
      "Das Radio meldet eine ungültige Quelle." 100
  else if empty_str status then
    result FAILED "NO_AUTHORITATIVE_RADIO_READBACK" "Autoritativen Readback ergänzen"
      "Der Wiedergabestatus ist noch nicht durch das Radio belegt." 0
  else if bool_decide (status ∈ ["STOPPED"; "STOP_STATE"; "STANDBY"])
       || bool_decide (src = "STANDBY") then
    result STOPPED "RADIO_STOPPED" "Keine" "Das Radio spielt nicht."
      (if empty_str status then 60 else 95)
  else if bool_decide (status ∈ ["PAUSED"; "PAUSE_STATE"]) then
    result PAUSED "RADIO_PAUSED" "Keine" "Die Wiedergabe ist pausiert." 100
  else if bool_decide (status ∈ ["STARTING"; "CONNECTING"; "CONNECT_STATE"]) then
    result STARTING "RADIO_STARTING" "Verbindungszeitlimit abwarten"
      "Die Wiedergabe wird gestartet." 95
  else if bool_decide (status ∈ ["BUFFERING"; "BUFFERING_STATE"]) then
    if over_time signals then
      result STALLED "BUFFERING_TIMEOUT" "Stream prüfen und URL kontrolliert neu auflösen"
        "Das Radio puffert länger als erwartet." 95
    else
      result BUFFERING "RADIO_BUFFERING" "Pufferzeitlimit abwarten"
        "Das Radio puffert den Stream." 100
  else if bool_decide (status ∈ ["PLAYING"; "PLAY_STATE"]) then
    if is_false (position_advancing signals) && over_time signals then
      result STALLED "NO_PLAYBACK_PROGRESS" "Readback wiederholen und Stream prüfen"
        "Das Radio meldet Wiedergabe, zeigt aber keinen Fortschritt." 90
    else
      result PLAYING "AUTHORITATIVE_RADIO_PLAY_STATE" "Keine"
        "Das Radio meldet laufende Wiedergabe."
        (if is_true (position_advancing signals) then 95 else 80)
  else
    result FAILED "UNKNOWN_RADIO_PLAYER_STATE" "Autoritativen Readback wiederholen"
      "Der Playerzustand konnte nicht eingeordnet werden." 50.

(** The keyword arguments of [classify_invalid_source]. *)
Record InvalidSourceSignals := {
  restriction_expired : bool;
  provider_available : option bool;
  is_account_available : option bool;
  semantic_persistent : bool;
  stream_failed : bool;
  unsupported_stream : bool;
  source_removed : bool;
  internal_service_failed : bool;
  is_evidence : option (list json) }.

Definition candidates (s : InvalidSourceSignals) : list (bool * InvalidSourceCause * Z * string) :=
  [(restriction_expired s, INACTIVITY_TIMEOUT, 96,
    "Der Provider-Inaktivitätstimer ist nachweislich abgelaufen.");
   (unsupported_stream s, UNSUPPORTED_STREAM, 97,
    "Der Streamtyp oder Codec wird vom Radio nicht unterstützt.");
   (stream_failed s, STREAM_FAILURE, 95,
    "Der Audiostream ist ausgefallen oder nicht auflösbar.");
   (source_removed s, SOURCE_REMOVED, 96,
    "Die Quelle wurde aus der Quellenliste entfernt.");
   (is_false (provider_available s), PROVIDER_UNAVAILABLE, 94,
    "Der Provider ist nicht verfügbar.");
   (is_false (is_account_available s), ACCOUNT_UNAVAILABLE, 78,
    "Die Provider-Zuordnung ist nicht verfügbar.");
   (internal_service_failed s, INTERNAL_SERVICE_FAILURE, 86,
    "Ein zugeordneter lokaler Radio-Dienst ist ausgefallen.");
   (semantic_persistent s, CAUSE_REPORTING_DEGRADED, 85,
    "Ein dauerhafter semantischer Reportingfehler könnte den Provider degradiert haben.")].

Definition classify_invalid_source (s : InvalidSourceSignals) : InvalidSourceDiagnosis :=
  let rows := default [] (is_evidence s) in
  let matches := List.filter (fun entry => entry.1.1.1) (candidates s) in
  match matches with
  | [(_, c, conf, reason)] =>
      {| diag_cause := c; diag_confidence := conf; diag_evidence := rows; diag_reason := reason |}
  | _ :: _ :: _ =>
      {| diag_cause := UNKNOWN; diag_confidence := 35; diag_evidence := rows;
         diag_reason := "Mehrere Ursachen passen zur Evidenz; eine eindeutige Ursache ist nicht belegt." |}
  | [] =>
      {| diag_cause := UNKNOWN; diag_confidence := 0; diag_evidence := rows;
         diag_reason := "Für INVALID_SOURCE liegt noch keine belastbare Ursache vor." |}
  end.

(** ** Properties *)

(** Decides the tests of a reducer one after the other. *)
Ltac by_tests :=
  repeat match goal with
  | |- context [if ?b then _ else _] => destruct b eqn:?; cbn [state]
  end.

(** Nothing adverse was observed about a provider. *)
Definition no_adverse_signal (s : ProviderSignals) : Prop :=
  recovering s = false /\ failure_budget_exhausted s = false /\ source_invalid s = false
  /\ auth_refresh_required s = false /\ reporting_semantic_persistent s = false
  /\ reporting_health s <> RP_DEGRADED /\ reporting_health s <> RP_FAILED
  /\ metadata_health s <> MD_STALE /\ metadata_health s <> MD_FAILED.

(** HEALTHY is a positive assertion: a provider is called healthy exactly when all
    four gates (service, source, account, authentication) were observed positively
    and nothing adverse was; an unknown gate is never enough, and the confidence
    stays between 0 and 100. *)
Theorem provider_healthy_iff clock s t :
  (state (reduce_provider_health clock s t) = HEALTHY <->
   service_available s = Some true /\ source_visible s = Some true
   /\ account_available s = Some true /\ auth_valid s = Some true /\ no_adverse_signal s)
  /\ 0 <= confidence (reduce_provider_health clock s t) <= 100.
Proof.
  split; [split|].
  - unfold reduce_provider_health. by_tests; intros Hst; try discriminate.
    unfold is_true, is_false in *. bdestr.
    repeat match goal with H : _ ∉ _ |- _ => rewrite !not_elem_of_cons in H; destruct H as (? & ? & _) end.
    by repeat split.
  - intros (Hsa & Hsv & Haa & Hav & Hrc & Hfb & Hsi & Har & Hrs & Hr1 & Hr2 & Hm1 & Hm2).
    unfold reduce_provider_health, is_true, is_false.
    rewrite Hsa, Hsv, Haa, Hav, Hrc, Hfb, Hsi, Har, Hrs.
    by destruct (reporting_health s), (metadata_health s).
  - unfold reduce_provider_health. by_tests; cbn [confidence]; lia.
Qed.

(** PLAYING is what the radio itself says: the state is given exactly when the
    radio reports a playing state on a source it calls neither invalid nor
    standby, outside a recovery, and no lack of progress beyond the limit was
    observed.  Provider, reporting and metadata health have no part in it. *)
Theorem playback_playing_iff clock s t :
  state (reduce_playback_health clock s t) = PLAYING <->
  pb_recovering s = false /\ recovery_failed s = false
  /\ normalized (source s) <> "INVALID_SOURCE" /\ normalized (source s) <> "STANDBY"
  /\ source_valid s <> Some false
  /\ (normalized (radio_status s) = "PLAYING" \/ normalized (radio_status s) = "PLAY_STATE")
  /\ ~ (position_advancing s = Some false /\ over_time s = true).
Proof.
  split.
  - unfold reduce_playback_health. by_tests; intros Hst; try discriminate.
    unfold is_false in *. bdestr.
    repeat match goal with
    | H : bool_decide _ && _ = false |- _ => apply andb_false_iff in H
    | H : _ ∈ [_; _] |- _ => rewrite !elem_of_cons, elem_of_nil in H
    end.
    repeat split; try done; [tauto|].
    intros [Hp Ho]. rewrite Ho, bool_decide_eq_true_2 in * by done. intuition congruence.
  - intros (Hr & Hf & Hi & Hs & Hv & Hst & Hp).
    unfold reduce_playback_health, is_false. rewrite Hr, Hf.
    rewrite (bool_decide_eq_false_2 _ Hi), (bool_decide_eq_false_2 _ Hv).
    rewrite (bool_decide_eq_false_2 _ Hs).
    assert ((bool_decide (position_advancing s = Some false) && over_time s) = false) as Ho.
    { apply not_true_is_false. intros [Ha Hb]%andb_true_iff. bdestr. auto. }
    by destruct Hst as [-> | ->]; cbn -[over_time]; rewrite Ho.
Qed.

(** An unambiguous diagnosis: a cause is named exactly when one candidate fits
    the evidence, and then it is that one; with none or several the cause is
    UNKNOWN and the confidence at most 35. *)
Theorem invalid_source_unambiguous s :
  let d := classify_invalid_source s in
  (forall b c conf reason, List.filter (fun e => e.1.1.1) (candidates s) = [(b, c, conf, reason)] ->
     diag_cause d = c /\ diag_confidence d = conf /\ c <> UNKNOWN)
  /\ (length (List.filter (fun e => e.1.1.1) (candidates s)) <> 1%nat ->
     diag_cause d = UNKNOWN /\ diag_confidence d <= 35).
Proof.
  cbn zeta. unfold classify_invalid_source.
  destruct (List.filter _ (candidates s)) as [|[[[b c] conf] reason] [|e l]] eqn:E; split;
    try (intros; cbn; lia); try (intros; split; [done|cbn; lia]); try done.
  intros b' c' conf' reason' [= <- <- <- <-]. cbn. split; [done|]. split; [done|].
  intros ->. assert (In (b, UNKNOWN, conf, reason) (candidates s)) as Hin.
  { apply (filter_In (fun e => e.1.1.1)). rewrite E. by left. }
  repeat (destruct Hin as [Hin|Hin]; [discriminate|]). done.
Qed.

(** ** The properties at concrete signals *)
Definition noon : datetime := utc (1700000000 * SECOND).
Definition one_cause : InvalidSourceSignals :=
  {| restriction_expired := false; provider_available := None; is_account_available := Some false;
     semantic_persistent := false; stream_failed := false; unsupported_stream := false;
     source_removed := false; internal_service_failed := false; is_evidence := None |}.

Example one_cause_named : diag_cause (classify_invalid_source one_cause) = ACCOUNT_UNAVAILABLE.
Proof. reflexivity. Qed.

Lemma invalid_source_unambiguous_witness :
  diag_cause (classify_invalid_source one_cause) = ACCOUNT_UNAVAILABLE.
Proof. eapply (proj1 (invalid_source_unambiguous one_cause)). reflexivity. Defined.

End Health.
