(* ===== verification/Restrictions.v ===== *)
(** * Provider restrictions  (app/services/restrictions.py)

    The reader of [BMX.Restrictions.inactivityTimeout] in a provider response
    and the projection of its deadline. *)
From Stdlib Require Import Ascii String.
From S2P Require Import Prelude PyNum PyStr Json.
#[local] Open Scope string_scope.
#[local] Open Scope list_scope.
#[local] Open Scope Z_scope.

Module Restrictions.

Definition UINT64_MAX : Z := Z.shiftl 1 64 - 1.

(** What the module raises: its own error with its message, or the
    [ValueError] of [bytes.decode] and of [int]. *)
Inductive error : Type :=
| RestrictionParseError (message : string)
| ValueError.

Record ParsedRestrictions := {
  inactivity_timeout_s : option Z;
  timer_enabled : bool;
  received_at : datetime;
  source : string;
  origin : string;
  timer_started_at : option datetime;
  effective_until : option datetime;
  evidence : json }.

(** A provider response: a decoded object, bytes, text or anything else. *)
Inductive payload : Type :=
| PMapping (kvs : list (string * json))
| PBytes (raw : string)
| PText (text : string)
| POther.

Definition _utc (clock : datetime) (value : option datetime) : datetime :=
  match value with None => to_utc clock | Some v => to_utc v end.

Definition decode_text (text : string) : res error (list (string * json)) :=
  match loads_text dict_pairs text with
  | Some (JObj kvs) => Ok kvs
  | Some _ => Err (RestrictionParseError "provider response must be a JSON object")
  | None => Err (RestrictionParseError "malformed provider response")
  end.

Definition _decode (p : payload) : res error (list (string * json)) :=
  match p with
  | PMapping kvs => Ok kvs
  | PBytes raw => match utf8_strict (bytes_of raw) with
                  | Some _ => decode_text raw
                  | None => Err ValueError
                  end
  | PText text => decode_text text
  | POther => Err (RestrictionParseError "provider response must be a JSON object")
  end.

(** [isinstance(v, Mapping)] of [d.get(k)], and the refusal of another value. *)
Definition restrictions_of (kvs : list (string * json))
    : res error (option (list (string * json))) :=
  match get "restrictions" kvs with
  | Some (JObj r) => Ok (Some r)
  | None | Some JNull => Ok None
  | Some _ => Err (RestrictionParseError "restrictions must be an object")
  end.

Definition WRAPPERS : list string := ["station"; "trackList"; "tracklist"; "_embedded"].

Fixpoint find_in_wrappers (names : list string) (kvs : list (string * json))
    : res error (option (list (string * json)) * string) :=
  match names with
  | [] => Ok (None, "ABSENT")
  | name :: names =>
      match get name kvs with
      | Some (JObj wrapper) =>
          nested ← restrictions_of wrapper;
          match nested with
          | Some r => Ok (Some r, "SERVER_RESPONSE")
          | None => find_in_wrappers names kvs
          end
      | _ => find_in_wrappers names kvs
      end
  end.

Definition _find_restrictions (kvs : list (string * json))
    : res error (option (list (string * json)) * string) :=
  direct ← restrictions_of kvs;
  match direct with
  | Some r => Ok (Some r, "SERVER_RESPONSE")
  | None => find_in_wrappers WRAPPERS kvs
  end.

Definition check_uint64 (parsed : Z) : res error Z :=
  if (parsed <? 0) || (UINT64_MAX <? parsed)
  then Err (RestrictionParseError "inactivityTimeout is outside uint64 range")
  else Ok parsed.

Definition _parse_uint64 (value : json) : res error Z :=
  let bad := Err (RestrictionParseError "inactivityTimeout must be uint64 seconds") in
  match value with
  | JNum (PInt n) => check_uint64 n
  | JStr s =>
      if py_isdigit (py_strip s) then
        match py_int (py_strip s) with
        | Some n => check_uint64 n
        | None => Err ValueError
        end
      else bad
  | _ => bad
  end.

(** [deadline_from_play]; [None] also when the date cannot be represented. *)
Definition deadline_from_play (play_started_at : datetime) (seconds : Z) : option datetime :=
  if seconds <=? 0 then None else add_seconds (to_utc play_started_at) seconds.

Definition absent_evidence : json :=
  JObj [("contract", JStr "BMX.Restrictions"); ("field_present", JBool false)].
Definition present_evidence : json :=
  JObj [("contract", JStr "BMX.Restrictions"); ("field_present", JBool true);
        ("value_kind", JStr "uint64_seconds")].

Definition parse_restrictions (clock : datetime) (p : payload) (received : option datetime)
    (source : string) : res error ParsedRestrictions :=
  decoded ← _decode p;
  '(restrictions, origin) ← _find_restrictions decoded;
  let observed_at := _utc clock received in
  match restrictions ≫= get "inactivityTimeout" with
  | None =>
      Ok {| inactivity_timeout_s := None; timer_enabled := false; received_at := observed_at;
            source := source; origin := "ABSENT"; timer_started_at := None;
            effective_until := None; evidence := absent_evidence |}
  | Some value =>
      timeout ← _parse_uint64 value;
      Ok {| inactivity_timeout_s := Some timeout; timer_enabled := 0 <? timeout;
            received_at := observed_at; source := source; origin := origin;
            timer_started_at := None; effective_until := None;
            evidence := present_evidence |}
  end.

(** ** Properties *)
Lemma check_uint64_Ok n m : check_uint64 n = Ok m <-> m = n /\ 0 <= n < 2 ^ 64.
Proof.
  unfold check_uint64, UINT64_MAX. change (Z.shiftl 1 64) with (2 ^ 64).
  destruct (_ || _) eqn:E.
  - split; [done|]. intros [_ Hn]. apply orb_true_iff in E as [E|E]; bdestr; lia.
  - bdestr. split; [intros [= <-]; split; [done|lia]|by intros [-> _]].
Qed.

Lemma parse_uint64_Ok v n :
  _parse_uint64 v = Ok n ->
  0 <= n < 2 ^ 64 /\ (v = JNum (PInt n) \/
    exists s, v = JStr s /\ py_isdigit (py_strip s) = true /\ py_int (py_strip s) = Some n).
Proof.
  destruct v as [| |[z|]|s| |]; cbn; try done.
  - intros [-> H]%check_uint64_Ok. auto.
  - destruct (py_isdigit (py_strip s)) eqn:E; [|done].
    destruct (py_int (py_strip s)) eqn:Ei; [|done]. intros [-> H]%check_uint64_Ok. eauto 6.
Qed.

Lemma find_in_wrappers_origin names kvs r o :
  find_in_wrappers names kvs = Ok (r, o) -> o = if r is Some _ then "SERVER_RESPONSE" else "ABSENT".
Proof.
  induction names as [|n names IH]; cbn; [by intros [= <- <-]|].
  destruct (get n kvs) as [[| | | | |w]|]; try done.
  intros ([r'|] & _ & H)%bind_Ok; [by injection H as <- <-|auto].
Qed.

Lemma find_restrictions_origin kvs r o :
  _find_restrictions kvs = Ok (r, o) -> o = if r is Some _ then "SERVER_RESPONSE" else "ABSENT".
Proof.
  unfold _find_restrictions. intros ([r'|] & _ & H)%bind_Ok; [by injection H as <- <-|].
  by apply find_in_wrappers_origin in H.
Qed.

(** No invented default: a parsed response either shows no timeout, and then the
    field is absent and the timer off, or the uint64 the provider itself sent,
    with the timer on exactly when it is not zero; the response alone never starts
    the timer or sets a deadline. *)
Theorem restrictions_not_invented clock p received src r :
  parse_restrictions clock p received src = Ok r ->
  timer_started_at r = None /\ effective_until r = None
  /\ exists kvs found o, _decode p = Ok kvs /\ _find_restrictions kvs = Ok (found, o)
  /\ match inactivity_timeout_s r with
     | None => found ≫= get "inactivityTimeout" = None
               /\ timer_enabled r = false /\ origin r = "ABSENT"
     | Some n => 0 <= n < 2 ^ 64 /\ timer_enabled r = negb (n =? 0)
                 /\ origin r = "SERVER_RESPONSE"
                 /\ exists v, found ≫= get "inactivityTimeout" = Some v
                    /\ (v = JNum (PInt n) \/ exists s, v = JStr s /\ py_int (py_strip s) = Some n)
     end.
Proof.
  unfold parse_restrictions. intros (kvs & Hd & ([found o] & Hf & H)%bind_Ok)%bind_Ok.
  destruct (found ≫= get "inactivityTimeout") as [v|] eqn:Ev.
  - apply bind_Ok in H as (n & Hn & [= <-]). split; [done|]. split; [done|].
    exists kvs, found, o. split; [done|]. split; [done|]. cbn.
    apply parse_uint64_Ok in Hn as [Hn Hv]. split; [done|]. split.
    + destruct (Z.ltb_spec 0 n), (Z.eqb_spec n 0); try done; lia.
    + split; [|destruct Hv as [-> | (s & -> & _ & Hs)]; eauto 6]. apply find_restrictions_origin in Hf. by destruct found.
  - injection H as <-. split; [done|]. split; [done|]. exists kvs, found, o. done.
Qed.

(** The deadline is exact: it is set only for a positive timeout, lies exactly that
    many seconds after the observed play, in UTC and within the calendar, and it
    exists for every timeout the calendar can hold. *)
Theorem deadline_exact t seconds d :
  DT_MIN <= dt_us t <= DT_MAX ->
  deadline_from_play t seconds = Some d <->
  0 < seconds /\ d = utc (dt_us t + seconds * SECOND) /\ dt_us t + seconds * SECOND <= DT_MAX
  /\ seconds <= 999999999 * 86400.
Proof.
  intros Ht. unfold deadline_from_play, add_seconds, to_utc, utc. cbn [dt_us dt_offset].
  destruct (Z.leb_spec seconds 0); [split; [done|lia]|].
  destruct (_ && _) eqn:E; bdestr.
  - split; [intros [= <-]; split; [lia|split; [done|lia]]|by intros (_ & -> & _)].
  - split; [done|]. intros (_ & _ & H1 & H2).
    assert (DT_MIN <= dt_us t + seconds * SECOND) by (unfold SECOND; lia).
    rewrite !(proj2 (Z.leb_le _ _)) in E by lia. done.
Qed.

Definition play : datetime := utc (1700000000 * SECOND).


Lemma deadline_exact_witness :
  deadline_from_play play 1200 = Some (utc (1700001200 * SECOND)).
Proof.
  apply (deadline_exact play 1200); [split; vm_compute; discriminate|].
  split; [lia|]. split; [reflexivity|]. split; vm_compute; discriminate.
Defined.

Definition station_response : list (string * json) :=
  [("station", JObj [("restrictions", JObj [("inactivityTimeout", JStr "1200")])])].

Definition station_parsed : ParsedRestrictions :=
  {| inactivity_timeout_s := Some 1200; timer_enabled := true; received_at := play;
     source := "tunein"; origin := "SERVER_RESPONSE"; timer_started_at := None;
     effective_until := None; evidence := present_evidence |}.

Lemma restrictions_not_invented_witness :
  timer_started_at station_parsed = None /\ effective_until station_parsed = None
  /\ exists kvs found o, _decode (PText (dumps (fun _ => []) (JObj station_response))) = Ok kvs
     /\ _find_restrictions kvs = Ok (found, o)
     /\ 0 <= 1200 < 2 ^ 64 /\ timer_enabled station_parsed = negb (1200 =? 0)
     /\ origin station_parsed = "SERVER_RESPONSE"
     /\ exists v, found ≫= get "inactivityTimeout" = Some v
        /\ (v = JNum (PInt 1200) \/ exists s, v = JStr s /\ py_int (py_strip s) = Some 1200).
Proof.
  apply (restrictions_not_invented play (PText (dumps (fun _ => []) (JObj station_response)))
    None "tunein" station_parsed).
  vm_compute. reflexivity.
Defined.

End Restrictions.
