(* ===== verification/Metadata.v ===== *)
(** * Live metadata  (app/services/metadata_engine.py)

    Normalization of provider metadata into a snapshot, the staleness and display
    projections, and the two asyncio components as step relations: the coalescer,
    which publishes the latest state of a key once per window, and the scheduler,
    whose generations keep a superseded callback from running. *)
From Stdlib Require Import Ascii String.
From stdpp Require Import gmap sets.
From S2P Require Import Prelude PyNum PyStr Json.
#[local] Open Scope string_scope.
#[local] Open Scope list_scope.
#[local] Open Scope Z_scope.

Module Metadata.

Definition METADATA_POLL_FLOOR_SECONDS : Z := 5.
Definition BOSEAPP_COALESCE_SECONDS : Z := 2.
Definition DEFAULT_METADATA_STALE_AFTER_SECONDS : Z := 300.

Inductive MetadataProvenance : Type :=
| RADIO | PROVIDER | STREAM | PRESET | BASSWIESN | UNKNOWN.

Inductive ClockMetadataMode : Type := OFF | MISSING_TITLE | APPEND.

Record MetadataSnapshot := {
  station_name : option string;
  station_id : option string;
  track : option string;
  artist : option string;
  album : option string;
  image_url : option string;
  provider : option string;
  source : option string;
  updated_at : option datetime;
  provenance : MetadataProvenance;
  confidence : Z;
  ask_again_after_s : option Z;
  next_due_at : option datetime;
  stale : bool;
  display_projection : option string }.

(** [MetadataSnapshot()]. *)
Definition empty_snapshot : MetadataSnapshot :=
  {| station_name := None; station_id := None; track := None; artist := None; album := None;
     image_url := None; provider := None; source := None; updated_at := None;
     provenance := UNKNOWN; confidence := 0; ask_again_after_s := None; next_due_at := None;
     stale := true; display_projection := None |}.

Definition _aware (clock : datetime) (value : option datetime) : datetime :=
  to_utc (default clock value).

(** What the module may raise: the [OverflowError] of a date or of [int(inf)]. *)
Inductive error : Type := OverflowError.

(** ** Values of a payload *)
Definition HINT_MAX : Z := Z.shiftl 1 32 - 1.

Definition _server_hint (value : option json) : res error (option Z) :=
  match value with
  | None | Some JNull | Some (JBool _) | Some (JStr EmptyString) => Ok None
  | Some v =>
      match int_of v with
      | Err _ => Err OverflowError
      | Ok None => Ok None
      | Ok (Some n) => Ok (if (n <=? 0) || (HINT_MAX <? n) then None else Some n)
      end
  end.

Section Normalize.
(** [str(value)] of a value that is not a string: a Python library function. *)
Context (str_of : json -> string).

Definition optional_str (text : string) : option string :=
  let text := py_strip text in if empty_str text then None else Some text.

Definition _optional_text (value : json) : option string :=
  match value with
  | JNull => None
  | JStr s => optional_str s
  | v => optional_str (str_of v)
  end.

Fixpoint _runtime_field (payload : list (string * json)) (names : list string)
    (previous : option string) : option string :=
  match names with
  | [] => previous
  | name :: names =>
      match get name payload with
      | Some v => _optional_text v
      | None => _runtime_field payload names previous
      end
  end.

(** The keyword arguments that identify the selection. *)
Record selection := {
  sel_station_name : option string;
  sel_station_id : option string;
  sel_provider : option string;
  sel_source : option string }.

Definition no_selection : selection :=
  {| sel_station_name := None; sel_station_id := None; sel_provider := None; sel_source := None |}.

(** [candidate is not None and _optional_text(candidate) != current]. *)
Definition differs (candidate current : option string) : bool :=
  match candidate with
  | None => false
  | Some c => negb (bool_decide (optional_str c = current))
  end.

Definition identity_changed (previous : option MetadataSnapshot) (sel : selection) : bool :=
  match previous with
  | None => false
  | Some before =>
      differs (sel_station_name sel) (station_name before)
      || differs (sel_station_id sel) (station_id before)
      || differs (sel_provider sel) (provider before)
      || differs (sel_source sel) (source before)
  end.

(** The object that holds the runtime fields. *)
Definition unwrap (payload : list (string * json)) : list (string * json) :=
  match get "_embedded" payload with
  | Some (JObj embedded) =>
      let candidate :=
        match get "bmx_nowplaying" embedded with
        | Some v => if truthy v then Some v else get "nowPlaying" embedded
        | None => get "nowPlaying" embedded
        end in
      match candidate with Some (JObj c) => c | _ => payload end
  | _ => payload
  end.

Definition normalize_metadata (clock : datetime) (payload : list (string * json))
    (previous : option MetadataSnapshot) (prov : MetadataProvenance) (conf : Z)
    (observed_at : option datetime) (sel : selection) : res error MetadataSnapshot :=
  let before := default empty_snapshot previous in
  let selected_station_name :=
    match sel_station_name sel with Some s => optional_str s | None => station_name before end in
  let selected_station_id :=
    match sel_station_id sel with Some s => optional_str s | None => station_id before end in
  let selected_provider :=
    match sel_provider sel with Some s => Some s | None => provider before end in
  let selected_source :=
    match sel_source sel with Some s => Some s | None => source before end in
  let changed := identity_changed previous sel in
  let runtime_before := if changed then empty_snapshot else before in
  let payload := unwrap payload in
  let updated := _aware clock observed_at in
  hint ← _server_hint (get "askAgainAfter" payload);
  due ← match hint with
        | Some h => match add_seconds updated (Z.max h METADATA_POLL_FLOOR_SECONDS) with
                    | Some d => Ok (Some d)
                    | None => Err OverflowError
                    end
        | None => Ok None
        end;
  Ok {| station_name := selected_station_name;
        station_id := selected_station_id;
        track := _runtime_field payload ["track"; "title"] (track runtime_before);
        artist := _runtime_field payload ["artist"] (artist runtime_before);
        album := _runtime_field payload ["album"] (album runtime_before);
        image_url := _runtime_field payload ["imageUrl"; "artUrl"] (image_url runtime_before);
        provider := selected_provider;
        source := selected_source;
        updated_at := Some updated;
        provenance := prov;
        confidence := Z.max 0 (Z.min 100 conf);
        ask_again_after_s := hint;
        next_due_at := due;
        stale := false;
        display_projection := if changed then None else display_projection before |}.
End Normalize.

Definition RUNTIME_FIELDS : list (string * (MetadataSnapshot -> option string)) :=
  [("track", track); ("artist", artist); ("album", album); ("image_url", image_url)].

Definition metadata_changes (before : option MetadataSnapshot) (after : MetadataSnapshot)
    : list string :=
  match before with
  | None => (List.filter (fun f => is_some (f.2 after)) RUNTIME_FIELDS).*1
  | Some b => (List.filter (fun f => negb (bool_decide (f.2 b = f.2 after))) RUNTIME_FIELDS).*1
  end.

Definition with_stale (b : bool) (s : MetadataSnapshot) : MetadataSnapshot :=
  {| station_name := station_name s; station_id := station_id s; track := track s;
     artist := artist s; album := album s; image_url := image_url s; provider := provider s;
     source := source s; updated_at := updated_at s; provenance := provenance s;
     confidence := confidence s; ask_again_after_s := ask_again_after_s s;
     next_due_at := next_due_at s; stale := b; display_projection := display_projection s |}.

Definition mark_metadata_stale (clock : datetime) (snapshot : MetadataSnapshot)
    (now : option datetime) (stale_after_s : Z) : MetadataSnapshot :=
  let observed := _aware clock now in
  let limit := PInt (Z.max METADATA_POLL_FLOOR_SECONDS stale_after_s) in
  let is_stale :=
    match updated_at snapshot with
    | None => true
    | Some t => num_le limit (total_seconds (dt_us observed - dt_us (to_utc t)))
    end in
  with_stale is_stale snapshot.

(** [strftime("%H:%M")] in a zone with this offset in seconds. *)
Definition two_digits (n : Z) : string :=
  String (chr (48 + n / 10)) (String (chr (48 + n mod 10)) EmptyString).
Definition hh_mm (us offset_s : Z) : string :=
  let minute := ((us / SECOND + offset_s) / 60) mod 1440 in
  (two_digits (minute / 60) ++ ":" ++ two_digits (minute mod 60))%string.

(** [zone]: the UTC offset in seconds of the display zone at an instant. *)
Definition clock_display_projection (clock : datetime) (zone : Z -> Z)
    (snapshot : MetadataSnapshot) (mode : ClockMetadataMode) (now : option datetime)
    : option string :=
  match mode with
  | OFF => track snapshot
  | _ =>
      let t := dt_us (_aware clock now) in
      let shown := hh_mm t (zone t) in
      let title := py_strip (default "" (track snapshot)) in
      match mode with
      | MISSING_TITLE => Some (or_str title shown)
      | _ => if empty_str title then Some shown else Some (title ++ " " ++ shown)%string
      end
  end.

(** ** The coalescer

    [pending] and [tasks] are the two dictionaries.  A task that is not done is in
    [running], with the await it is suspended at; [cancelled] says that
    [task.cancel()] was called on it.  [published] lists the callback calls. *)
Inductive phase : Type := Sleeping | Publishing.

Record runner_task := { rt_key : string; rt_phase : phase; rt_cancelled : bool }.

Record coalescer := {
  pending : gmap string (MetadataSnapshot * gset string);
  tasks : gmap string nat;
  running : gmap nat runner_task;
  next_task : nat;
  published : list (string * MetadataSnapshot * gset string) }.

Definition empty_coalescer : coalescer :=
  {| pending := ∅; tasks := ∅; running := ∅; next_task := 0; published := [] |}.

Definition set_pending p c := {| pending := p; tasks := tasks c; running := running c;
  next_task := next_task c; published := published c |}.
Definition set_tasks t c := {| pending := pending c; tasks := t; running := running c;
  next_task := next_task c; published := published c |}.
Definition set_running r c := {| pending := pending c; tasks := tasks c; running := r;
  next_task := next_task c; published := published c |}.

Definition _start_runner (key : string) (c : coalescer) : coalescer :=
  {| pending := pending c; tasks := <[key := next_task c]> (tasks c);
     running := <[next_task c := {| rt_key := key; rt_phase := Sleeping;
                                    rt_cancelled := false |}]> (running c);
     next_task := S (next_task c); published := published c |}.

(** [task is not None and not task.done()] of [tasks.get(key)]. *)
Definition has_live_task (key : string) (c : coalescer) : bool :=
  match tasks c !! key with
  | Some id => is_some (running c !! id)
  | None => false
  end.

Definition submit (key : string) (snapshot : MetadataSnapshot) (changed : list string)
    (c : coalescer) : coalescer :=
  match changed with
  | [] => c
  | _ =>
      let combined := match pending c !! key with
                      | Some previous => list_to_set changed ∪ previous.2
                      | None => list_to_set changed
                      end in
      let c := set_pending (<[key := (snapshot, combined)]> (pending c)) c in
      if has_live_task key c then c else _start_runner key c
  end.

(** The [finally] block of a runner, and the end of its task. *)
Definition finish (id : nat) (t : runner_task) (c : coalescer) : coalescer :=
  let key := rt_key t in
  let c := set_running (delete id (running c)) c in
  let c := if bool_decide (tasks c !! key = Some id)
           then set_tasks (delete key (tasks c)) c else c in
  if is_some (pending c !! key) && is_none (tasks c !! key)
  then _start_runner key c else c.

Definition set_phase (id : nat) (t : runner_task) (ph : phase) (c : coalescer) : coalescer :=
  set_running (<[id := {| rt_key := rt_key t; rt_phase := ph;
                          rt_cancelled := rt_cancelled t |}]> (running c)) c.

(** The sleep is over: take the pending value and call the publisher. *)
Definition wake (id : nat) (t : runner_task) (c : coalescer) : coalescer :=
  match pending c !! rt_key t with
  | None => finish id t c
  | Some (value, fields) =>
      let c := set_phase id t Publishing (set_pending (delete (rt_key t) (pending c)) c) in
      {| pending := pending c; tasks := tasks c; running := running c;
         next_task := next_task c; published := published c ++ [(rt_key t, value, fields)] |}
  end.

(** The publisher returned. *)
Definition returned (id : nat) (t : runner_task) (c : coalescer) : coalescer :=
  if is_none (pending c !! rt_key t) then finish id t c else set_phase id t Sleeping c.

Definition cancel_task (id : nat) (c : coalescer) : coalescer :=
  match running c !! id with
  | Some t => set_running (<[id := {| rt_key := rt_key t; rt_phase := rt_phase t;
                                      rt_cancelled := true |}]> (running c)) c
  | None => c
  end.

Definition cancel (key : string) (c : coalescer) : coalescer :=
  let c := set_pending (delete key (pending c)) c in
  match tasks c !! key with
  | Some id => cancel_task id (set_tasks (delete key (tasks c)) c)
  | None => c
  end.

(** One step of the event loop or of a caller.  A runner ends abnormally when the
    publisher raises or when its cancellation is delivered. *)
Inductive coalescer_step (c : coalescer) : coalescer -> Prop :=
| c_submit key snapshot changed : coalescer_step c (submit key snapshot changed c)
| c_cancel key : coalescer_step c (cancel key c)
| c_wake id t : running c !! id = Some t -> rt_phase t = Sleeping -> rt_cancelled t = false ->
    coalescer_step c (wake id t c)
| c_returned id t : running c !! id = Some t -> rt_phase t = Publishing ->
    coalescer_step c (returned id t c)
| c_raised id t : running c !! id = Some t -> rt_phase t = Publishing \/ rt_cancelled t = true ->
    coalescer_step c (finish id t c).

(** ** The scheduler *)
Record sleeper := { sl_key : string; sl_generation : nat; sl_cancelled : bool }.

Record scheduler := {
  s_tasks : gmap string nat;
  generations : gmap string nat;
  sleeping : gmap nat sleeper;
  s_next : nat;
  ran : list (string * nat) }.       (* callbacks started: key and generation *)

Definition empty_scheduler : scheduler :=
  {| s_tasks := ∅; generations := ∅; sleeping := ∅; s_next := 0; ran := [] |}.

Definition generation (s : scheduler) (key : string) : nat := default 0%nat (generations s !! key).

Definition s_cancel (key : string) (s : scheduler) : scheduler :=
  {| s_tasks := delete key (s_tasks s);
     generations := <[key := S (generation s key)]> (generations s);
     sleeping := match s_tasks s !! key with
                 | Some id => alter (fun t => {| sl_key := sl_key t; sl_generation := sl_generation t;
                                                 sl_cancelled := true |}) id (sleeping s)
                 | None => sleeping s
                 end;
     s_next := s_next s; ran := ran s |}.

Definition schedule (key : string) (s : scheduler) : scheduler :=
  let s := s_cancel key s in
  {| s_tasks := <[key := s_next s]> (s_tasks s); generations := generations s;
     sleeping := <[s_next s := {| sl_key := key; sl_generation := generation s key;
                                  sl_cancelled := false |}]> (sleeping s);
     s_next := S (s_next s); ran := ran s |}.

(** The task is over; its entry goes if it is still its own. *)
Definition s_finish (id : nat) (key : string) (s : scheduler) : scheduler :=
  {| s_tasks := if bool_decide (s_tasks s !! key = Some id)
                then delete key (s_tasks s) else s_tasks s;
     generations := generations s; sleeping := delete id (sleeping s);
     s_next := s_next s; ran := ran s |}.

(** The due time is reached: the generation is checked, then the callback runs. *)
Definition s_wake (id : nat) (t : sleeper) (s : scheduler) : scheduler :=
  let s' := s_finish id (sl_key t) s in
  if negb (bool_decide (generation s (sl_key t) = sl_generation t)) then s'
  else {| s_tasks := s_tasks s'; generations := generations s'; sleeping := sleeping s';
          s_next := s_next s'; ran := ran s' ++ [(sl_key t, sl_generation t)] |}.

Inductive scheduler_step (s : scheduler) : scheduler -> Prop :=
| s_step_schedule key : scheduler_step s (schedule key s)
| s_step_cancel key : scheduler_step s (s_cancel key s)
| s_step_wake id t : sleeping s !! id = Some t -> sl_cancelled t = false ->
    scheduler_step s (s_wake id t s)
| s_step_cancelled id t : sleeping s !! id = Some t -> sl_cancelled t = true ->
    scheduler_step s (s_finish id (sl_key t) s).


(** ** Properties of the snapshots *)
Lemma runtime_field_absent str_of payload names previous :
  Forall (fun n => get n payload = None) names ->
  _runtime_field str_of payload names previous = previous.
Proof. induction 1 as [|n names Hn _ IH]; cbn; [done|]. by rewrite Hn. Qed.

Lemma runtime_field_present str_of payload names previous previous' :
  ~ Forall (fun n => get n payload = None) names ->
  _runtime_field str_of payload names previous = _runtime_field str_of payload names previous'.
Proof.
  induction names as [|n names IH]; cbn; [intros []; constructor|].
  intros H. destruct (get n payload) eqn:E; [done|]. apply IH. intros Hf. apply H. by constructor.
Qed.

(** A field looked up again with what it gave before gives the same. *)
Lemma runtime_field_idem str_of payload names previous :
  _runtime_field str_of payload names (_runtime_field str_of payload names previous)
  = _runtime_field str_of payload names previous.
Proof.
  induction names as [|n names IH]; cbn; [done|]. by destruct (get n payload).
Qed.

Lemma normalize_Ok str_of clock payload previous prov conf observed sel s :
  normalize_metadata str_of clock payload previous prov conf observed sel = Ok s ->
  let before := default empty_snapshot previous in
  let runtime := if identity_changed previous sel then empty_snapshot else before in
  let p := unwrap payload in
  station_name s = match sel_station_name sel with Some x => optional_str x | None => station_name before end
  /\ station_id s = match sel_station_id sel with Some x => optional_str x | None => station_id before end
  /\ provider s = match sel_provider sel with Some x => Some x | None => provider before end
  /\ source s = match sel_source sel with Some x => Some x | None => source before end
  /\ track s = _runtime_field str_of p ["track"; "title"] (track runtime)
  /\ artist s = _runtime_field str_of p ["artist"] (artist runtime)
  /\ album s = _runtime_field str_of p ["album"] (album runtime)
  /\ image_url s = _runtime_field str_of p ["imageUrl"; "artUrl"] (image_url runtime)
  /\ updated_at s = Some (_aware clock observed)
  /\ confidence s = Z.max 0 (Z.min 100 conf) /\ stale s = false
  /\ _server_hint (get "askAgainAfter" p) = Ok (ask_again_after_s s)
  /\ next_due_at s = (ask_again_after_s s ≫= fun h =>
       add_seconds (_aware clock observed) (Z.max h METADATA_POLL_FLOOR_SECONDS))
  /\ (is_Some (ask_again_after_s s) -> is_Some (next_due_at s)).
Proof.
  unfold normalize_metadata. intros (hint & Hh & (due & Hd & [= <-])%bind_Ok)%bind_Ok. cbn.
  repeat match goal with |- _ /\ _ => split; [done|] end.
  destruct hint as [h|]; [|injection Hd as <-; split; [done|by intros [? [=]]]].
  cbn. destruct (add_seconds _ _); [injection Hd as <-|done]. split; [done|eauto].
Qed.

Lemma server_hint_range v n : _server_hint v = Ok (Some n) -> 0 < n < 2 ^ 32.
Proof.
  unfold _server_hint, HINT_MAX. change (Z.shiftl 1 32) with (2 ^ 32). intros H.
  assert (exists w, match int_of w with
      | Err _ => Err OverflowError
      | Ok None => Ok None
      | Ok (Some n) => Ok (if (n <=? 0) || (2 ^ 32 - 1 <? n) then None else Some n)
      end = Ok (Some n)) as (w & Hw).
  { destruct v as [[| | |[|]| |]|]; try discriminate; eauto. }
  destruct (int_of w) as [[m|]|]; [|discriminate..]. injection Hw as Hw.
  destruct (_ || _) eqn:E; [discriminate|]. injection Hw as <-. bdestr. lia.
Qed.

(** A partial update: without a new selection the identity fields are those of the
    previous snapshot, a runtime field the payload does not mention keeps its
    value, the confidence is a percentage, and the next poll is due at least five
    seconds, and exactly the granted delay, after the observation. *)
Theorem partial_update_preserves str_of clock payload b prov conf observed s :
  normalize_metadata str_of clock payload (Some b) prov conf observed no_selection = Ok s ->
  (station_name s, station_id s, provider s, source s)
    = (station_name b, station_id b, provider b, source b)
  /\ (get "track" (unwrap payload) = None -> get "title" (unwrap payload) = None -> track s = track b)
  /\ (get "artist" (unwrap payload) = None -> artist s = artist b)
  /\ (get "album" (unwrap payload) = None -> album s = album b)
  /\ (get "imageUrl" (unwrap payload) = None -> get "artUrl" (unwrap payload) = None ->
        image_url s = image_url b)
  /\ 0 <= confidence s <= 100
  /\ forall n, ask_again_after_s s = Some n -> 0 < n < 2 ^ 32 /\
       exists d, next_due_at s = Some d /\
         dt_us d = dt_us (_aware clock observed) + Z.max n 5 * SECOND.
Proof.
  intros H. apply normalize_Ok in H as (H1 & H2 & H3 & H4 & Ht & Ha & Hl & Hi & Hu & Hc & Hs & Hh & Hd & Hdd).
  cbn in *. rewrite H1, H2, H3, H4, Ht, Ha, Hl, Hi, Hc. split; [done|].
  split; [by intros -> ->|]. split; [by intros ->|]. split; [by intros ->|].
  split; [by intros -> ->|].
  split; [lia|]. intros n Hn. rewrite Hn in *. split; [by apply server_hint_range in Hh|].
  destruct (Hdd ltac:(eauto)) as [d Hd']. exists d. split; [done|]. rewrite Hd' in Hd.
  cbn in Hd. unfold add_seconds, METADATA_POLL_FLOOR_SECONDS in Hd.
  destruct (_ && _); [by injection Hd as ->|done].
Qed.

(** No inheritance across selections: once an identity argument differs from the
    snapshot's, the runtime fields of the result are those of the payload alone,
    whatever the previous snapshot held. *)
Theorem new_selection_starts_empty str_of clock payload b prov conf observed sel s :
  normalize_metadata str_of clock payload (Some b) prov conf observed sel = Ok s ->
  identity_changed (Some b) sel = true ->
  let p := unwrap payload in
  track s = _runtime_field str_of p ["track"; "title"] None
  /\ artist s = _runtime_field str_of p ["artist"] None
  /\ album s = _runtime_field str_of p ["album"] None
  /\ image_url s = _runtime_field str_of p ["imageUrl"; "artUrl"] None
  /\ display_projection s = None.
Proof.
  intros H Hid. assert (display_projection s = None) as Hp.
  { unfold normalize_metadata in H. apply bind_Ok in H as (hint & _ & (due & _ & [= <-])%bind_Ok).
    cbn in Hid |- *. by rewrite Hid. }
  apply normalize_Ok in H as (_ & _ & _ & _ & Ht & Ha & Hl & Hi & _).
  cbn in *. rewrite Hid in Ht, Ha, Hl, Hi. done.
Qed.

Lemma changes_Some_nil b a :
  track b = track a -> artist b = artist a -> album b = album a -> image_url b = image_url a ->
  metadata_changes (Some b) a = [].
Proof.
  intros H1 H2 H3 H4. unfold metadata_changes, RUNTIME_FIELDS.
  cbn [List.filter snd]. by rewrite !bool_decide_eq_true_2 by done.
Qed.

(** Refreshing is idempotent: a provider that answers the same again publishes no
    change, so a poll without news never rewrites the display. *)
Theorem refresh_idempotent str_of clock payload previous prov conf observed observed' s s' :
  normalize_metadata str_of clock payload previous prov conf observed no_selection = Ok s ->
  normalize_metadata str_of clock payload (Some s) prov conf observed' no_selection = Ok s' ->
  metadata_changes (Some s) s' = [].
Proof.
  intros H H'. apply normalize_Ok in H as (_ & _ & _ & _ & Ht & Ha & Hl & Hi & _).
  apply normalize_Ok in H' as (_ & _ & _ & _ & Ht' & Ha' & Hl' & Hi' & _).
  cbn -[_runtime_field] in *. apply changes_Some_nil.
  - rewrite Ht', Ht. symmetry. apply runtime_field_idem.
  - rewrite Ha', Ha. symmetry. apply runtime_field_idem.
  - rewrite Hl', Hl. symmetry. apply runtime_field_idem.
  - rewrite Hi', Hi. symmetry. apply runtime_field_idem.
Qed.

(** ** The coalescer strands nothing *)
Record coalescer_ok (c : coalescer) : Prop := {
  ok_owner : forall k id, tasks c !! k = Some id ->
    exists t, running c !! id = Some t /\ rt_key t = k /\ rt_cancelled t = false;
  ok_fresh : forall id, is_Some (running c !! id) -> (id < next_task c)%nat;
  ok_pending : forall k, is_Some (pending c !! k) -> is_Some (tasks c !! k) }.

Lemma live_task_owner c key : coalescer_ok c -> has_live_task key c = is_some (tasks c !! key).
Proof.
  intros [Ho _ _]. unfold has_live_task. destruct (tasks c !! key) as [id|] eqn:E; [|done].
  destruct (Ho _ _ E) as (t & -> & _). done.
Qed.

(** All but the pending keys of [k]. *)
Record coalescer_almost (k : string) (c : coalescer) : Prop := {
  al_owner : forall k' id, tasks c !! k' = Some id ->
    exists t, running c !! id = Some t /\ rt_key t = k' /\ rt_cancelled t = false;
  al_fresh : forall id, is_Some (running c !! id) -> (id < next_task c)%nat;
  al_pending : forall k', k' <> k -> is_Some (pending c !! k') -> is_Some (tasks c !! k') }.

Lemma start_runner_ok k c : coalescer_almost k c -> coalescer_ok (_start_runner k c).
Proof.
  intros [Ho Hf Hp]. split; cbn.
  - intros k' id. rewrite lookup_insert_Some. intros [[<- <-]|[Hne Hid]].
    + eexists. by rewrite lookup_insert_eq.
    + destruct (Ho _ _ Hid) as (t & Ht & Hk & Hc). exists t. split; [|done].
      rewrite lookup_insert_ne; [done|]. intros <-. pose proof (Hf (next_task c) ltac:(eauto)). lia.
  - intros id. rewrite lookup_insert_is_Some. intros [<-|[_ H]]; [lia|].
    apply Hf in H. lia.
  - intros k' Hk'. rewrite lookup_insert_is_Some. destruct (decide (k = k')) as [|Hne]; [by left|].
    right. split; [done|]. by apply Hp.
Qed.

Lemma submit_ok k v changed c : coalescer_ok c -> coalescer_ok (submit k v changed c).
Proof.
  intros Hok. unfold submit. destruct changed as [|x changed]; [done|].
  generalize (match pending c !! k with
              | Some previous => (list_to_set (x :: changed) : gset string) ∪ previous.2
              | None => list_to_set (x :: changed) end). intros entry. cbn zeta.
  set (c1 := set_pending (<[k := (v, entry)]> (pending c)) c).
  assert (coalescer_almost k c1) as Hal.
  { destruct Hok as [Ho Hf Hp]. split; [done|done|]. intros k' Hne. cbn.
    rewrite lookup_insert_ne by done. apply Hp. }
  change (has_live_task k c1) with (has_live_task k c).
  rewrite (live_task_owner c k Hok).
  destruct (tasks c !! k) as [id|] eqn:E; cbn [is_some]; [|by apply start_runner_ok].
  destruct Hal as [Ho Hf Hp]. split; [done|done|]. intros k' Hk'.
  destruct (decide (k' = k)) as [->|Hne]; [cbn; by rewrite E|by apply Hp].
Qed.

Lemma finish_ok id t c :
  coalescer_ok c -> running c !! id = Some t -> coalescer_ok (finish id t c).
Proof.
  intros [Ho Hf Hp] Ht. unfold finish. cbn zeta.
  set (c1 := set_running _ c). set (c2 := if bool_decide _ then _ else _).
  assert (coalescer_almost (rt_key t) c2) as Hal.
  { unfold c2. destruct (bool_decide _) eqn:E; bdestr; split; cbn.
    - intros k' id'. rewrite lookup_delete_Some. intros [Hne Hid].
      destruct (Ho _ _ Hid) as (t' & Ht' & Hk & Hc). exists t'. split; [|done].
      rewrite lookup_delete_ne; [done|]. intros <-. congruence.
    - intros id' Hid. apply Hf. rewrite lookup_delete_is_Some in Hid. tauto.
    - intros k' Hne Hk. rewrite lookup_delete_ne by done. by apply Hp.
    - intros k' id' Hid. destruct (Ho _ _ Hid) as (t' & Ht' & Hk & Hc). exists t'. split; [|done].
      rewrite lookup_delete_ne; [done|]. intros <-. cbn in E. congruence.
    - intros id' Hid. apply Hf. rewrite lookup_delete_is_Some in Hid. tauto.
    - intros k' Hne Hk. by apply Hp. }
  destruct (is_some (pending c2 !! rt_key t) && is_none (tasks c2 !! rt_key t)) eqn:E;
    [by apply start_runner_ok|].
  destruct Hal as [Ho2 Hf2 Hp2]. split; [done|done|]. intros k' Hk'.
  destruct (decide (k' = rt_key t)) as [->|Hne]; [|by apply Hp2].
  destruct Hk' as [v Hv]. rewrite Hv in E. cbn in E.
  destruct (tasks c2 !! rt_key t); [eauto|done].
Qed.

(** Changing the phase or the pending values of a task keeps the rest. *)
Lemma set_phase_ok id t ph p c :
  coalescer_ok c -> running c !! id = Some t ->
  (forall k, is_Some (p !! k) -> is_Some (pending c !! k)) ->
  coalescer_ok (set_phase id t ph (set_pending p c)).
Proof.
  intros [Ho Hf Hp] Ht Hsub. split; cbn.
  - intros k' id' Hid. destruct (Ho _ _ Hid) as (t' & Ht' & Hk & Hc).
    destruct (decide (id = id')) as [<-|Hne].
    + eexists. rewrite lookup_insert_eq. split; [done|]. cbn. by simplify_eq.
    + exists t'. by rewrite lookup_insert_ne.
  - intros id'. rewrite lookup_insert_is_Some. intros [<-|[_ H]]; [|by apply Hf].
    apply Hf. by exists t.
  - intros k' Hk'. by apply Hp, Hsub.
Qed.

Lemma cancel_ok k c : coalescer_ok c -> coalescer_ok (cancel k c).
Proof.
  intros [Ho Hf Hp]. unfold cancel. cbn zeta. cbn [tasks set_pending].
  destruct (tasks c !! k) as [id|] eqn:E.
  - destruct (Ho _ _ E) as (t & Ht & Hk & Hc).
    unfold cancel_task. cbn [running set_tasks set_pending]. rewrite Ht. split; cbn.
    + intros k' id'. rewrite lookup_delete_Some. intros [Hne Hid].
      destruct (Ho _ _ Hid) as (t' & Ht' & Hk' & Hc'). exists t'. split; [|done].
      rewrite lookup_insert_ne; [done|]. intros <-. congruence.
    + intros id'. rewrite lookup_insert_is_Some. intros [<-|[_ H]]; [apply Hf; eauto|by apply Hf].
    + intros k'. rewrite lookup_delete_is_Some. intros [Hne H]. rewrite lookup_delete_ne by done.
      by apply Hp.
  - split; cbn; [done|done|]. intros k'. rewrite lookup_delete_is_Some. intros [_ H]. by apply Hp.
Qed.

Lemma coalescer_step_ok c c' : coalescer_ok c -> coalescer_step c c' -> coalescer_ok c'.
Proof.
  intros Hok Hs. destruct Hs as [k v changed|k|id t Ht Hph Hc|id t Ht Hph|id t Ht _].
  - by apply submit_ok.
  - by apply cancel_ok.
  - unfold wake. destruct (pending c !! rt_key t) as [[v fs]|] eqn:E; [|by apply finish_ok].
    pose proof (set_phase_ok id t Publishing (delete (rt_key t) (pending c)) c Hok Ht) as [Ho Hf Hp].
    { intros k. rewrite lookup_delete_is_Some. by intros [_ ?]. }
    by split.
  - unfold returned. destruct (is_none _); [by apply finish_ok|].
    by apply (set_phase_ok id t Sleeping (pending c) c).
  - by apply finish_ok.
Qed.

Lemma coalescer_reachable c : rtc coalescer_step empty_coalescer c -> coalescer_ok c.
Proof.
  intros H. refine (rtc_invariant _ coalescer_ok coalescer_step_ok _ _ H _).
  split; cbn.
  - intros k id. by rewrite lookup_empty.
  - intros id [? Hid]. by rewrite lookup_empty in Hid.
  - intros k [? Hk]. by rewrite lookup_empty in Hk.
Qed.

(** No update is stranded: whatever was submitted, cancelled, published or failed
    before, a pending value always has a live runner of its own key that was not
    cancelled, and at most two steps of that runner publish exactly this value
    with exactly its accumulated fields. *)
Theorem pending_gets_published c k v fields :
  rtc coalescer_step empty_coalescer c -> pending c !! k = Some (v, fields) ->
  exists c', rtc coalescer_step c c' /\ published c' = published c ++ [(k, v, fields)].
Proof.
  intros Hc Hk. destruct (coalescer_reachable c Hc) as [Ho _ Hp].
  destruct (Hp k ltac:(eauto)) as [id Hid]. destruct (Ho _ _ Hid) as (t & Ht & Hkey & Hcan).
  assert (forall c1, pending c1 = pending c -> published c1 = published c ->
    forall t1, running c1 !! id = Some t1 -> rt_key t1 = k -> rt_phase t1 = Sleeping ->
      rt_cancelled t1 = false ->
      exists c', rtc coalescer_step c1 c' /\ published c' = published c ++ [(k, v, fields)]) as Hwake.
  { intros c1 Hp1 Hpub t1 Ht1 Hk1 Hph Hc1. exists (wake id t1 c1). split.
    - by apply rtc_once, c_wake.
    - unfold wake. rewrite Hk1, Hp1, Hk. cbn. by rewrite Hpub. }
  destruct (rt_phase t) eqn:Hph; [by apply (Hwake c eq_refl eq_refl t)|].
  destruct (Hwake (set_phase id t Sleeping c) eq_refl eq_refl
    {| rt_key := rt_key t; rt_phase := Sleeping; rt_cancelled := rt_cancelled t |})
    as (c' & Hr & Hpub); [cbn; by rewrite lookup_insert_eq|done..|].
  exists c'. split; [|done]. eapply rtc_l; [|exact Hr].
  replace (set_phase id t Sleeping c) with (returned id t c); [by apply c_returned|].
  unfold returned. by rewrite Hkey, Hk.
Qed.

(** ** The scheduler runs the latest *)
Record scheduler_ok (s : scheduler) : Prop := {
  so_fresh : forall id, is_Some (sleeping s !! id) -> (id < s_next s)%nat;
  so_current : forall id t, sleeping s !! id = Some t -> sl_cancelled t = false ->
    s_tasks s !! sl_key t = Some id /\ sl_generation t = generation s (sl_key t);
  so_owner : forall k id, s_tasks s !! k = Some id ->
    exists t, sleeping s !! id = Some t /\ sl_key t = k;
  so_past : forall id t, sleeping s !! id = Some t -> (sl_generation t <= generation s (sl_key t))%nat;
  so_ran : forall k g, (k, g) ∈ ran s -> (g <= generation s k)%nat;
  so_once : forall id t, sleeping s !! id = Some t -> (sl_key t, sl_generation t) ∉ ran s;
  so_distinct : forall id id' t t', sleeping s !! id = Some t -> sleeping s !! id' = Some t' ->
    sl_key t = sl_key t' -> sl_generation t = sl_generation t' -> id = id';
  so_nodup : NoDup (ran s) }.

Lemma generation_cancel key s k :
  generation (s_cancel key s) k = if decide (k = key) then S (generation s key) else generation s k.
Proof.
  unfold generation, s_cancel. cbn. destruct (decide (k = key)) as [->|Hne].
  - by rewrite lookup_insert_eq.
  - by rewrite lookup_insert_ne.
Qed.

(** A task that survives [cancel] is the same, or the one just cancelled. *)
Lemma cancel_sleeping key s id t :
  sleeping (s_cancel key s) !! id = Some t ->
  exists t0, sleeping s !! id = Some t0 /\ sl_key t = sl_key t0 /\ sl_generation t = sl_generation t0
    /\ (t = t0 /\ s_tasks s !! key <> Some id \/ s_tasks s !! key = Some id /\ sl_cancelled t = true).
Proof.
  unfold s_cancel. cbn. destruct (s_tasks s !! key) as [id'|] eqn:E; [|eauto 8].
  destruct (decide (id = id')) as [<-|Hne].
  - rewrite lookup_alter_eq. destruct (sleeping s !! id) as [t0|]; [|done].
    intros [= <-]. exists t0. split; [done|]. split; [done|]. split; [done|]. by right.
  - rewrite lookup_alter_ne by done. intros H. exists t. split; [done|]. split; [done|].
    split; [done|]. left. split; [done|congruence].
Qed.

Lemma s_cancel_ok key s : scheduler_ok s -> scheduler_ok (s_cancel key s).
Proof.
  intros [Hf Hc Ho Hp Hr Ho1 Hd Hn]. split.
  - intros id [t Ht]. apply cancel_sleeping in Ht as (t0 & Ht0 & _). cbn. apply Hf. eauto.
  - intros id t Ht Hcan. apply cancel_sleeping in Ht as (t0 & Ht0 & Hk & Hg & [[-> Hne]|[_ Hx]]);
      [|congruence]. destruct (Hc _ _ Ht0 Hcan) as [Hs Hgen].
    assert (sl_key t0 <> key) by congruence.
    rewrite generation_cancel, decide_False by done. cbn. by rewrite lookup_delete_ne.
  - intros k id. cbn. rewrite lookup_delete_Some. intros [Hne Hid].
    destruct (Ho _ _ Hid) as (t & Ht & Hk). destruct (s_tasks s !! key) as [id'|] eqn:E; [|eauto].
    rewrite lookup_alter_ne; [eauto|]. intros ->.
    destruct (Ho _ _ E) as (t' & Ht' & Hk'). congruence.
  - intros id t Ht. apply cancel_sleeping in Ht as (t0 & Ht0 & -> & -> & _).
    rewrite generation_cancel. specialize (Hp _ _ Ht0). destruct (decide _); [subst; lia|done].
  - intros k g Hkg. rewrite generation_cancel. specialize (Hr _ _ Hkg).
    destruct (decide _); [subst; lia|done].
  - intros id t Ht. apply cancel_sleeping in Ht as (t0 & Ht0 & -> & -> & _). by apply (Ho1 id).
  - intros id id' t t' Ht Ht' Hk Hg.
    apply cancel_sleeping in Ht as (t0 & Ht0 & Hk0 & Hg0 & _).
    apply cancel_sleeping in Ht' as (t1 & Ht1 & Hk1 & Hg1 & _).
    apply (Hd id id' t0 t1); congruence.
  - done.
Qed.

(** The task [schedule] creates, for a key whose other tasks are superseded. *)
Lemma push_ok key s :
  scheduler_ok s ->
  (forall id t, sleeping s !! id = Some t -> sl_key t = key ->
     sl_cancelled t = true /\ sl_generation t <> generation s key) ->
  (key, generation s key) ∉ ran s ->
  scheduler_ok {| s_tasks := <[key := s_next s]> (s_tasks s); generations := generations s;
    sleeping := <[s_next s := {| sl_key := key; sl_generation := generation s key;
                                 sl_cancelled := false |}]> (sleeping s);
    s_next := S (s_next s); ran := ran s |}.
Proof.
  intros [Hf Hc Ho Hp Hr Ho1 Hd Hn] Hnew Hran.
  assert (forall id t, sleeping s !! id = Some t -> s_next s <> id) as Hne.
  { intros id t Ht Heq. pose proof (Hf id ltac:(eauto)). lia. }
  split; cbn; unfold generation in *; cbn [generations].
  - intros id. rewrite lookup_insert_is_Some. intros [<-|[_ H]]; [lia|]. apply Hf in H. lia.
  - intros id t. rewrite lookup_insert_Some. intros [[<- <-]|[Hid Ht]] Hcan; cbn.
    + by rewrite lookup_insert_eq.
    + rewrite lookup_insert_ne; [by apply Hc|]. intros Hk.
      destruct (Hnew _ _ Ht (eq_sym Hk)). congruence.
  - intros k id. rewrite lookup_insert_Some. intros [[<- <-]|[Hk Hid]].
    + eexists. by rewrite lookup_insert_eq.
    + destruct (Ho _ _ Hid) as (t & Ht & Hkt). exists t. split; [|done].
      rewrite lookup_insert_ne; [done|by eapply Hne].
  - intros id t. rewrite lookup_insert_Some. intros [[<- <-]|[_ Ht]]; [done|by apply (Hp id)].
  - done.
  - intros id t. rewrite lookup_insert_Some. intros [[<- <-]|[_ Ht]]; [done|by apply (Ho1 id)].
  - intros id id' t t'. rewrite !lookup_insert_Some.
    intros [[<- <-]|[_ Ht]] [[<- <-]|[_ Ht']] Hk Hg; cbn in *; try done.
    + by destruct (Hnew _ _ Ht' (eq_sym Hk)).
    + by destruct (Hnew _ _ Ht Hk).
    + by apply (Hd id id' t t').
  - done.
Qed.

Lemma schedule_ok key s : scheduler_ok s -> scheduler_ok (schedule key s).
Proof.
  intros Hs. assert (generation (s_cancel key s) key = S (generation s key)) as Hgen
    by (by rewrite generation_cancel, decide_True).
  apply (push_ok key (s_cancel key s)); [by apply s_cancel_ok| |].
  - intros id t Ht Hk. apply cancel_sleeping in Ht as (t0 & Ht0 & Hk0 & Hg0 & Hcase).
    pose proof (so_past s Hs _ _ Ht0) as Hp. split; [|rewrite Hgen, Hg0, <- Hk, Hk0; lia].
    destruct Hcase as [[-> Hne]|[_ Hx]]; [|done].
    destruct (sl_cancelled t0) eqn:E; [done|]. exfalso. apply Hne.
    destruct (so_current s Hs _ _ Ht0 E) as [H _]. congruence.
  - rewrite Hgen. intros Hr. apply (so_ran s Hs) in Hr. lia.
Qed.

Lemma s_finish_ok id t s :
  scheduler_ok s -> sleeping s !! id = Some t -> scheduler_ok (s_finish id (sl_key t) s).
Proof.
  intros [Hf Hc Ho Hp Hr Ho1 Hd Hn] Ht.
  assert (forall id' t', delete id (sleeping s) !! id' = Some t' -> id <> id' /\ sleeping s !! id' = Some t')
    as Hdel by (intros id' t'; by rewrite lookup_delete_Some).
  split; cbn; unfold generation in *; cbn [generations]; try done.
  - intros id' [t' Ht']. apply Hdel in Ht' as [_ Ht']. eauto.
  - intros id' t' [Hne Ht']%Hdel Hcan. destruct (Hc _ _ Ht' Hcan) as [H1 H2]. split; [|done].
    destruct (bool_decide _) eqn:E; bdestr; [|done].
    rewrite lookup_delete_ne; [done|]. intros Hk. rewrite Hk in E. congruence.
  - intros k id' Hid.
    assert (s_tasks s !! k = Some id' /\ id <> id') as [Hid' Hne].
    { destruct (bool_decide _) eqn:E; bdestr.
      - apply lookup_delete_Some in Hid as [Hk Hid]. split; [done|]. intros <-.
        destruct (Ho _ _ Hid) as (t1 & Ht1 & Hk1). congruence.
      - split; [done|]. intros <-. destruct (Ho _ _ Hid) as (t1 & Ht1 & Hk1). congruence. }
    destruct (Ho _ _ Hid') as (t1 & Ht1 & Hk1). exists t1. by rewrite lookup_delete_ne.
  - intros id' t' [_ Ht']%Hdel. by apply (Hp id').
  - intros id' t' [_ Ht']%Hdel. by apply (Ho1 id').
  - intros id1 id2 t1 t2 [_ H1]%Hdel [_ H2]%Hdel. by apply Hd.
Qed.

Lemma s_wake_ok id t s :
  scheduler_ok s -> sleeping s !! id = Some t -> scheduler_ok (s_wake id t s).
Proof.
  intros Hs Ht. pose proof (s_finish_ok id t s Hs Ht) as [Hf Hc Ho Hp Hr Ho1 Hd Hn].
  unfold s_wake. destruct (bool_decide _) eqn:E; bdestr; cbn [negb]; [|by split].
  assert ((sl_key t, sl_generation t) ∉ ran s) as Hnew by by apply (so_once s Hs id).
  split; cbn in *; unfold generation in *; cbn [generations] in *; try done.
  - intros k g. rewrite elem_of_app, list_elem_of_singleton. intros [H|[= -> ->]]; [by apply Hr|lia].
  - intros id' t' Ht'. rewrite elem_of_app, list_elem_of_singleton. intros [H|[= Hk Hg]].
    + by apply (Ho1 id' t').
    + apply lookup_delete_Some in Ht' as [Hne Ht'].
      by apply Hne, (so_distinct s Hs id id' t t').
  - apply list.NoDup_app. split; [done|]. split; [|apply NoDup_singleton].
    by intros x Hx ->%list_elem_of_singleton.
Qed.

Lemma scheduler_step_ok s s' : scheduler_ok s -> scheduler_step s s' -> scheduler_ok s'.
Proof.
  intros Hs []; [by apply schedule_ok|by apply s_cancel_ok|by apply s_wake_ok|by apply s_finish_ok].
Qed.

Lemma scheduler_reachable s : rtc scheduler_step empty_scheduler s -> scheduler_ok s.
Proof.
  intros H. refine (rtc_invariant _ scheduler_ok scheduler_step_ok _ _ H _).
  assert (forall k, (∅ : gmap string nat) !! k = None) as He by (intros; apply lookup_empty).
  assert (forall k, (∅ : gmap nat sleeper) !! k = None) as He' by (intros; apply lookup_empty).
  split; cbn; try (intros; rewrite ?He, ?He' in *; done).
  - by intros k g ?%elem_of_nil.
  - constructor.
Qed.

Lemma generation_mono s s' k :
  scheduler_step s s' -> (generation s k <= generation s' k)%nat.
Proof.
  intros []; try done.
  - unfold schedule. change (generation _ k) with (generation (s_cancel key s) k) at 2.
    rewrite generation_cancel. destruct (decide _); [subst; lia|done].
  - rewrite generation_cancel. destruct (decide _); [subst; lia|done].
  - unfold s_wake. by destruct (negb _).
Qed.

(** Only the latest callback of a key runs, and only once: in every reachable state
    no scheduled callback has run twice; at most one task of a key is still to run
    its callback, and it is the one of the current generation. *)
Theorem latest_runs_once s :
  rtc scheduler_step empty_scheduler s ->
  NoDup (ran s) /\
  (forall id id' t t', sleeping s !! id = Some t -> sleeping s !! id' = Some t' ->
     sl_cancelled t = false -> sl_cancelled t' = false -> sl_key t = sl_key t' -> id = id') /\
  (forall id t, sleeping s !! id = Some t -> sl_cancelled t = false ->
     ran (s_wake id t s) = ran s ++ [(sl_key t, generation s (sl_key t))]).
Proof.
  intros Hs%scheduler_reachable. split; [apply Hs|]. split.
  - intros id id' t t' Ht Ht' Hc Hc' Hk. destruct (so_current s Hs _ _ Ht Hc) as [H1 _].
    destruct (so_current s Hs _ _ Ht' Hc') as [H2 _]. congruence.
  - intros id t Ht Hc. destruct (so_current s Hs _ _ Ht Hc) as [_ Hg]. unfold s_wake.
    by rewrite bool_decide_eq_true_2, Hg.
Qed.

(** A superseded callback never runs: after [cancel], and so after any [schedule] of
    the same key, no later step starts a callback that was scheduled before. *)
Theorem cancelled_never_runs s s' key g :
  rtc scheduler_step empty_scheduler s -> rtc scheduler_step (s_cancel key s) s' ->
  (g <= generation s key)%nat -> (key, g) ∉ ran s -> (key, g) ∉ ran s'.
Proof.
  intros Hs Hs' Hg Hran. pose proof (s_cancel_ok key s (scheduler_reachable s Hs)) as Hok.
  assert (g < generation (s_cancel key s) key)%nat as Hlt
    by (rewrite generation_cancel, decide_True by done; lia).
  assert ((key, g) ∉ ran (s_cancel key s)) as Hran' by done. clear Hs Hg Hran.
  induction Hs' as [x|x y z Hxy Hyz IH]; [done|].
  apply IH; [by eapply scheduler_step_ok|eapply Nat.lt_le_trans; [done|by apply generation_mono]|].
  destruct Hxy as [k|k|id t Ht Hc|id t Ht Hc]; [done|done| |done].
  unfold s_wake. destruct (bool_decide _) eqn:E; bdestr; cbn; [|done].
  rewrite elem_of_app, list_elem_of_singleton. intros [?|[= -> ->]]; [done|].
  destruct (so_current x Hok _ _ Ht Hc). lia.
Qed.

(** ** The properties at concrete values *)
Definition noon : datetime := utc (1700000000 * SECOND).
Definition plain_str (v : json) : string := "".

Definition playing : MetadataSnapshot :=
  {| station_name := Some "FIP"; station_id := Some "s15198"; track := Some "So What";
     artist := Some "Miles Davis"; album := None; image_url := None; provider := Some "TUNEIN";
     source := Some "TUNEIN"; updated_at := Some noon; provenance := PROVIDER; confidence := 90;
     ask_again_after_s := None; next_due_at := None; stale := false; display_projection := None |}.

Definition news : list (string * json) :=
  [("artist", JStr " Bill Evans "); ("askAgainAfter", JNum (PInt 3))].

Definition normalized previous sel : MetadataSnapshot :=
  match normalize_metadata plain_str noon news previous PROVIDER 90 None sel with
  | Ok s => s | Err _ => empty_snapshot end.

Definition elsewhere : selection :=
  {| sel_station_name := Some "TSF Jazz"; sel_station_id := None; sel_provider := None; sel_source := None |}.

Lemma partial_update_preserves_witness :
  track (normalized (Some playing) no_selection) = Some "So What" /\
  exists d, next_due_at (normalized (Some playing) no_selection) = Some d
            /\ dt_us d = dt_us noon + 5 * SECOND.
Proof.
  destruct (partial_update_preserves plain_str noon news playing PROVIDER 90 None
    (normalized (Some playing) no_selection)) as (_ & Ht & _ & _ & _ & _ & Hd);
    [vm_compute; reflexivity|].
  split; [exact (Ht eq_refl eq_refl)|]. exact (proj2 (Hd 3 ltac:(vm_compute; reflexivity))).
Defined.

Lemma new_selection_starts_empty_witness :
  track (normalized (Some playing) elsewhere) = None.
Proof.
  apply (new_selection_starts_empty plain_str noon news playing PROVIDER 90 None elsewhere);
    vm_compute; reflexivity.
Defined.

Lemma refresh_idempotent_witness :
  metadata_changes (Some (normalized (Some playing) no_selection))
    (normalized (Some (normalized (Some playing) no_selection)) no_selection) = [].
Proof.
  apply (refresh_idempotent plain_str noon news (Some playing) PROVIDER 90 None None);
    vm_compute; reflexivity.
Defined.

Definition one_pending : coalescer := submit "kitchen" playing ["track"] empty_coalescer.

Lemma pending_gets_published_witness :
  exists c', rtc coalescer_step one_pending c'
    /\ published c' = published one_pending ++ [("kitchen", playing, list_to_set ["track"])].
Proof.
  apply pending_gets_published; [apply rtc_once, c_submit|]. vm_compute. reflexivity.
Defined.

Lemma latest_runs_once_witness :
  NoDup (ran (schedule "kitchen" empty_scheduler)).
Proof. apply (latest_runs_once (schedule "kitchen" empty_scheduler)). apply rtc_once, s_step_schedule. Defined.

Lemma cancelled_never_runs_witness :
  ("kitchen", 1%nat) ∉ ran (s_cancel "kitchen" (schedule "kitchen" empty_scheduler)).
Proof.
  apply (cancelled_never_runs (schedule "kitchen" empty_scheduler)); [apply rtc_once, s_step_schedule
    |apply rtc_refl|apply Nat.leb_le; reflexivity|apply not_elem_of_nil].
Defined.

(** A provider argument with surrounding white space is stored as it is but compared
    stripped, so repeating the same selection counts as a change of identity and
    clears the runtime fields. *)
Definition padded : selection :=
  {| sel_station_name := None; sel_station_id := None; sel_provider := Some "TUNEIN ";
     sel_source := None |}.
Example padded_provider_resets :
  let first := normalized (Some playing) padded in
  provider first = Some "TUNEIN " /\ identity_changed (Some first) padded = true.
Proof. split; reflexivity. Qed.

(** [askAgainAfter: Infinity] is not caught: [int(inf)] raises [OverflowError]. *)
Example infinite_hint :
  normalize_metadata plain_str noon [("askAgainAfter", JNum (PFloat (FInf false)))] None
    PROVIDER 90 None no_selection = Err OverflowError.
Proof. reflexivity. Qed.

End Metadata.
