(* ===== verification/Reporting.v ===== *)
(** * The reporting scheduler  (app/services/reporting_scheduler.py)

    The queue of one reporting session and its single-flight sender, as an
    asyncio program: [process_due] is cut at its two suspension points (the save
    before the request, and the request itself), and the other operations may
    run there.  Sessions of different keys share nothing but [_closed], so the
    state is that of one key.  A store save is an effect of its own and changes
    nothing here. *)
From Stdlib Require Import Ascii String.
From stdpp Require Import gmap.
From S2P Require Import Prelude PyNum PyStr Json.
#[local] Open Scope string_scope.
#[local] Open Scope list_scope.
#[local] Open Scope Z_scope.

Module Reporting.

Definition REPORT_QUEUE_CAPACITY : Z := 20.
Definition REPORT_MAX_RETRIES : Z := 5.
Definition REPORT_MAX_ATTEMPTS : Z := 1 + REPORT_MAX_RETRIES.
Definition DEFAULT_RETRY_BACKOFF_SECONDS : list Z := [5; 15; 60; 300; 900].

Inductive ReportingStatus : Type :=
| IDLE | QUEUED | SENDING | SUCCESS | RETRY_WAIT | DEGRADED | FAILED | RECOVERED.

#[export] Instance ReportingStatus_eq_dec : EqDecision ReportingStatus.
Proof. solve_decision. Defined.

Inductive error : Type :=
| ReportingQueueFull | ReportingCancelled | ValueError | IndexError | OverflowError.

Record ReportPayload := {
  timeStamp : string;
  eventType : string;
  reason : string;
  timeIntoTrack : Z;
  playbackDelay : Z;
  absolutePlayPoint : string;
  reasonSubCode : string }.

(** [oid] is the identity of the Python object: a queue holds references. *)
Record ReportingQueueItem := {
  oid : nat;
  item_id : string;
  payload : ReportPayload;
  attempts : Z;
  due_at : option datetime;
  last_error : option string;
  created_at : datetime }.

Definition item_retry_count (i : ReportingQueueItem) : Z := Z.max 0 (attempts i - 1).

Record ReportingSession := {
  report_url : option string;
  status : ReportingStatus;
  queue : list ReportingQueueItem;
  next_due_at : option datetime;
  last_http_status : option Z;
  last_success_at : option datetime;
  last_failure : option string;
  semantic_persistent_error : bool;
  generation : nat }.

Definition queue_depth (s : ReportingSession) : Z := Z.of_nat (length (queue s)).
Definition retry_count (s : ReportingSession) : Z :=
  match queue s with i :: _ => item_retry_count i | [] => 0 end.

Record ReportingResult := {
  r_status : ReportingStatus;
  r_queue_depth : Z;
  r_retry_count : Z;
  r_next_due_at : option datetime;
  r_last_http_status : option Z;
  embedded_result : option (list (string * json));
  playback_action : string }.

Definition _result (s : ReportingSession) (embedded : option (list (string * json)))
    : ReportingResult :=
  {| r_status := status s; r_queue_depth := queue_depth s; r_retry_count := retry_count s;
     r_next_due_at := next_due_at s; r_last_http_status := last_http_status s;
     embedded_result := embedded; playback_action := "NONE" |}.

(** Field updates. *)
Definition set_queue q s := {| report_url := report_url s; status := status s; queue := q;
  next_due_at := next_due_at s; last_http_status := last_http_status s;
  last_success_at := last_success_at s; last_failure := last_failure s;
  semantic_persistent_error := semantic_persistent_error s; generation := generation s |}.
Definition set_status st s := {| report_url := report_url s; status := st; queue := queue s;
  next_due_at := next_due_at s; last_http_status := last_http_status s;
  last_success_at := last_success_at s; last_failure := last_failure s;
  semantic_persistent_error := semantic_persistent_error s; generation := generation s |}.
Definition set_next_due d s := {| report_url := report_url s; status := status s; queue := queue s;
  next_due_at := d; last_http_status := last_http_status s;
  last_success_at := last_success_at s; last_failure := last_failure s;
  semantic_persistent_error := semantic_persistent_error s; generation := generation s |}.
Definition set_http h s := {| report_url := report_url s; status := status s; queue := queue s;
  next_due_at := next_due_at s; last_http_status := h;
  last_success_at := last_success_at s; last_failure := last_failure s;
  semantic_persistent_error := semantic_persistent_error s; generation := generation s |}.
Definition set_failure f s := {| report_url := report_url s; status := status s; queue := queue s;
  next_due_at := next_due_at s; last_http_status := last_http_status s;
  last_success_at := last_success_at s; last_failure := f;
  semantic_persistent_error := semantic_persistent_error s; generation := generation s |}.
Definition set_url u s := {| report_url := u; status := status s; queue := queue s;
  next_due_at := next_due_at s; last_http_status := last_http_status s;
  last_success_at := last_success_at s; last_failure := last_failure s;
  semantic_persistent_error := semantic_persistent_error s; generation := generation s |}.
Definition set_semantic b s := {| report_url := report_url s; status := status s; queue := queue s;
  next_due_at := next_due_at s; last_http_status := last_http_status s;
  last_success_at := last_success_at s; last_failure := last_failure s;
  semantic_persistent_error := b; generation := generation s |}.
Definition set_success d s := {| report_url := report_url s; status := status s; queue := queue s;
  next_due_at := next_due_at s; last_http_status := last_http_status s;
  last_success_at := d; last_failure := last_failure s;
  semantic_persistent_error := semantic_persistent_error s; generation := generation s |}.
Definition bump_generation s := {| report_url := report_url s; status := status s;
  queue := queue s; next_due_at := next_due_at s; last_http_status := last_http_status s;
  last_success_at := last_success_at s; last_failure := last_failure s;
  semantic_persistent_error := semantic_persistent_error s; generation := S (generation s) |}.

Definition with_attempt (i : ReportingQueueItem) : ReportingQueueItem :=
  {| oid := oid i; item_id := item_id i; payload := payload i; attempts := attempts i + 1;
     due_at := due_at i; last_error := last_error i; created_at := created_at i |}.
Definition with_due (d : option datetime) (i : ReportingQueueItem) : ReportingQueueItem :=
  {| oid := oid i; item_id := item_id i; payload := payload i; attempts := attempts i;
     due_at := d; last_error := last_error i; created_at := created_at i |}.
Definition with_error (e : option string) (i : ReportingQueueItem) : ReportingQueueItem :=
  {| oid := oid i; item_id := item_id i; payload := payload i; attempts := attempts i;
     due_at := due_at i; last_error := e; created_at := created_at i |}.

(** The mutation of an object that the queue may or may not still reference. *)
Definition store_item (i : ReportingQueueItem) (q : list ReportingQueueItem)
    : list ReportingQueueItem :=
  map (fun x => if Nat.eqb (oid x) (oid i) then i else x) q.

(** ** Links: [urlsplit] is the library's, [None] its [ValueError] *)
Record url_parts := {
  scheme : string; hostname : option string; username : option string;
  password : option string }.

Section Scheduler.
Context (urlsplit : string -> option url_parts) (str_of : json -> string).

Definition text_of (value : json) : string :=
if truthy value then match value with JStr s => s | v => str_of v end else "".

Definition _report_url (value : option json) : res error (option string) :=
let text := py_strip (text_of (default JNull value)) in
if empty_str text then Ok None
else match urlsplit text with
| None => Err ValueError
| Some p =>
    if negb (bool_decide (scheme p ∈ ["http"; "https"]))
       || match hostname p with None => true | Some h => empty_str h end
       || is_some (username p) || is_some (password p)
    then Ok None else Ok (Some text)
end.

Definition UINT32_MAX : Z := Z.shiftl 1 32 - 1.

Definition _uint32_seconds (value : option json) : res error (option Z) :=
match value with
| None | Some JNull | Some (JBool _) => Ok None
| Some v =>
    match int_of v with
    | Err _ => Err OverflowError
    | Ok None => Ok None
    | Ok (Some n) => Ok (if (n <=? 0) || (UINT32_MAX <? n) then None else Some n)
    end
end.

(** [_response_json]: [None] when [response.json()] raised. *)
Definition _response_json (body : option json) : list (string * json) :=
match body with Some (JObj kvs) => kvs | _ => [] end.

Definition reporting_link (payload : list (string * json)) : res error (option string) :=
match get "_links" payload with
| Some (JObj links) =>
    match get "bmx_reporting" links with
    | Some (JObj link) => _report_url (get "href" link)
    | link => _report_url link
    end
| _ => Ok None
end.

Definition embedded_now_playing (payload : list (string * json))
  : option (list (string * json)) :=
match get "_embedded" payload with
| Some (JObj embedded) =>
    let candidate :=
      match get "bmx_nowplaying" embedded with
      | Some v => if truthy v then Some v else get "nowPlaying" embedded
      | None => get "nowPlaying" embedded
      end in
    match candidate with Some (JObj c) => Some c | _ => None end
| _ => None
end.

(** ** Operations between the suspension points *)

(** [enqueue], with the new object's identity and the clock's reading; on an error
  the session is the one the raising statement left. *)
Definition enqueue (id : nat) (now : datetime) (name : string) (p : ReportPayload)
  (url : option string) (due : option datetime) (s : ReportingSession)
  : res error unit * ReportingSession :=
if REPORT_QUEUE_CAPACITY <=? queue_depth s then
  (Err ReportingQueueFull, set_failure (Some "REPORT_QUEUE_FULL") (set_status DEGRADED s))
else
  match _report_url (JStr <$> url) with
  | Err e => (Err e, s)
  | Ok candidate =>
      if is_some url && is_none candidate then (Err ValueError, s)
      else
        let s := if is_some candidate then set_url candidate s else s in
        let created := to_utc now in
        let item := {| oid := id; item_id := name; payload := p; attempts := 0;
                       due_at := Some (to_utc (default created due)); last_error := None;
                       created_at := created |} in
        let s := set_status QUEUED (set_queue (queue s ++ [item]) s) in
        (Ok tt, set_next_due (match queue s with i :: _ => due_at i | [] => None end) s)
  end.

Definition update_report_url (url : string) (s : ReportingSession)
  : res error unit * ReportingSession :=
match _report_url (Some (JStr url)) with
| Err e => (Err e, s)
| Ok None => (Err ValueError, s)
| Ok (Some candidate) =>
    let s := set_url (Some candidate) s in
    (Ok tt,
     if bool_decide (last_failure s = Some "REPORT_URL_REFRESH_REQUIRED")
     then set_status (match queue s with [] => IDLE | _ => QUEUED end) (set_failure None s)
     else s)
end.

Definition mark_semantic_error (persistent : bool) (s : ReportingSession) : ReportingSession :=
set_failure (Some (if persistent then "PERSISTENT_BMX_ERROR" else "TEMPORARY_BMX_ERROR"))
  (set_status DEGRADED (set_semantic persistent s)).

Definition restore (s : ReportingSession) : ReportingSession :=
match queue s with
| _ :: _ => if bool_decide (status s = IDLE) then set_status QUEUED s else s
| [] => s
end.

(** *** [process_due] up to its first suspension point

  The request about to be made: the object at the head, the generation and the
  status seen, and the time of the observation. *)
Record inflight := {
if_item : ReportingQueueItem;
if_generation : nat;
if_previous : ReportingStatus;
if_observed : datetime }.

Definition due_later (d observed : datetime) : bool := dt_us observed <? dt_us (to_utc d).

(** The part after the queue was found, or made, non-empty. *)
Definition prepare_head (observed : datetime) (s : ReportingSession)
  : ReportingSession * option inflight :=
match queue s with
| [] => (s, None)
| item :: _ =>
    let late := match due_at item with Some d => due_later d observed | None => false end in
    if late then
      (set_next_due (to_utc <$> due_at item)
         (set_status (if attempts item =? 0 then QUEUED else RETRY_WAIT) s), None)
    else if match report_url s with None => true | Some u => empty_str u end then
      (set_failure (Some "REPORT_URL_MISSING") (set_status FAILED s), None)
    else
      let item' := with_attempt item in
      (set_status SENDING (set_queue (store_item item' (queue s)) s),
       Some {| if_item := item'; if_generation := generation s; if_previous := status s;
               if_observed := observed |})
end.

(** [iso]: [datetime.isoformat]; [id]: the identity of a materialized item. *)
Definition prepare (iso : datetime -> string) (name : string) (id : nat) (now : datetime)
  (s : ReportingSession) : ReportingSession * option inflight :=
let observed := to_utc now in
match queue s with
| _ :: _ => prepare_head observed s
| [] =>
    match next_due_at s with
    | None => (set_status IDLE s, None)
    | Some d =>
        if due_later d observed then (set_status IDLE s, None)
        else
          let item := {| oid := id; item_id := name;
                         payload := {| timeStamp := iso observed; eventType := "timed";
                                       reason := ""; timeIntoTrack := 0; playbackDelay := 0;
                                       absolutePlayPoint := ""; reasonSubCode := "" |};
                         attempts := 0; due_at := Some observed; last_error := None;
                         created_at := observed |} in
          prepare_head observed (set_status QUEUED (set_queue [item] s))
    end
end.

(** *** The answer of the request *)
Inductive post_result : Type :=
| Response (status_code : Z) (body : option json)
| Raised (exception : string).       (* type(exc).__name__ *)

(** [session.queue.pop(0)]. *)
Definition pop0 (s : ReportingSession) : res error ReportingSession :=
match queue s with [] => Err IndexError | _ :: q => Ok (set_queue q s) end.

(** The statements after the [try], with the failure's text. *)
Definition failed (backoff : list Z) (f : inflight) (failure : string) (s : ReportingSession)
  : res error unit * ReportingSession :=
let item := with_error (Some failure) (if_item f) in
let s := set_failure (Some failure) (set_queue (store_item item (queue s)) s) in
if REPORT_MAX_ATTEMPTS <=? attempts item then
  match pop0 s with
  | Err e => (Err e, s)
  | Ok s => (Ok tt, set_next_due (match queue s with i :: _ => due_at i | [] => None end)
                      (set_status FAILED s))
  end
else
  match backoff !! Z.to_nat (attempts item - 1) with
  | None => (Err IndexError, s)
  | Some b =>
      match add_seconds (if_observed f) b with
      | None => (Err OverflowError, s)
      | Some d =>
          let item := with_due (Some d) item in
          (Ok tt, set_next_due (Some d)
                    (set_status RETRY_WAIT (set_queue (store_item item (queue s)) s)))
      end
  end.

Definition exception_name (e : error) : string :=
match e with
| ReportingQueueFull => "ReportingQueueFull" | ReportingCancelled => "ReportingCancelled"
| ValueError => "ValueError" | IndexError => "IndexError" | OverflowError => "OverflowError"
end.

(** The body of the [try] for a 200 response: the session is threaded, so that an
  exception keeps what was already assigned. *)
Definition accepted (f : inflight) (body : list (string * json)) (s : ReportingSession)
  : res error unit * ReportingSession :=
match reporting_link body with
| Err e => (Err e, s)
| Ok replacement =>
    let s := if is_some replacement then set_url replacement s else s in
    match pop0 s with
    | Err e => (Err e, s)
    | Ok s =>
        let s := set_semantic false (set_failure None (set_success (Some (if_observed f)) s)) in
        let recovered := bool_decide (if_previous f ∈ [RETRY_WAIT; DEGRADED; FAILED])
                         || (1 <? attempts (if_item f)) in
        let s := set_status (if recovered then RECOVERED else SUCCESS) s in
        match _uint32_seconds (get "nextReportIn" body) with
        | Err e => (Err e, s)
        | Ok hint =>
            match hint ≫= add_seconds (if_observed f), hint with
            | None, Some _ => (Err OverflowError, s)
            | due, _ =>
                let s := set_next_due due s in
                (Ok tt, match queue s with
                        | [] => s
                        | i :: q =>
                            let d := Some (default (if_observed f) (due_at i)) in
                            set_next_due d (set_queue (with_due d i :: q) s)
                        end)
            end
        end
    end
end.

Definition http_failure (dec : Z -> string) (code : Z) : string := ("HTTP_" ++ dec code)%string.

(** The rest of [process_due] once [_post] has answered; [dec] prints an int. *)
Definition complete (dec : Z -> string) (backoff : list Z) (f : inflight) (answer : post_result)
  (s : ReportingSession) : res error unit * ReportingSession :=
match answer with
| Raised e => failed backoff f ("TRANSPORT_" ++ e)%string (set_http None s)
| Response code body =>
    if negb (Nat.eqb (generation s) (if_generation f)) then (Err ReportingCancelled, s)
    else
      let s := set_http (Some code) s in
      if code =? 200 then
        match accepted f (_response_json body) s with
        | (Ok _, s) => (Ok tt, s)
        | (Err e, s) => failed backoff f ("TRANSPORT_" ++ exception_name e)%string (set_http None s)
        end
      else failed backoff f (http_failure dec code) s
end.

(** ** The scheduler of one key: the lock, the timers and the requests sent *)
Record timer := { tm_generation : nat; tm_cancelled : bool; tm_processing : bool }.

(** The holder of the lock: its request, its timer, and whether it was sent. *)
Record operation := { o_request : inflight; o_timer : option nat; o_sent : bool }.

Record scheduler := {
session : ReportingSession;
op : option operation;
timers : gmap nat timer;
task : option nat;
fresh : nat;
_closed : bool;
sent : list (nat * string) }.         (* object and URL of every request *)

Definition with_session r c := {| session := r; op := op c; timers := timers c; task := task c;
fresh := fresh c; _closed := _closed c; sent := sent c |}.
Definition with_op o c := {| session := session c; op := o; timers := timers c; task := task c;
fresh := fresh c; _closed := _closed c; sent := sent c |}.
Definition with_timers t k c := {| session := session c; op := op c; timers := t; task := k;
fresh := fresh c; _closed := _closed c; sent := sent c |}.
Definition use_fresh c := {| session := session c; op := op c; timers := timers c; task := task c;
fresh := S (fresh c); _closed := _closed c; sent := sent c |}.

Definition cancel_task (c : scheduler) : scheduler :=
let c := with_session (bump_generation (session c)) c in
match task c with
| None => c
| Some id => with_timers (alter (fun t => {| tm_generation := tm_generation t;
                            tm_cancelled := true; tm_processing := tm_processing t |}) id (timers c)) None c
end.

Definition has_url (s : ReportingSession) : bool :=
match report_url s with Some u => negb (empty_str u) | None => false end.

Definition _arm_due (gen : nat) (c : scheduler) : scheduler :=
if _closed c || is_none (next_due_at (session c)) || negb (has_url (session c)) then c
else use_fresh (with_timers (<[fresh c := {| tm_generation := gen; tm_cancelled := false;
                                             tm_processing := false |}]> (timers c))
                  (Some (fresh c)) c).

Definition schedule_due (c : scheduler) : scheduler :=
if _closed c then c
else let c := cancel_task c in _arm_due (generation (session c)) c.

(** The [finally] of a timer, then the arming of its successor when the processing
  ended without an exception. *)
Definition end_timer (id : nat) (ok : bool) (gen : nat) (c : scheduler) : scheduler :=
let c := with_timers (delete id (timers c))
           (if bool_decide (task c = Some id) then None else task c) c in
if ok && negb (_closed c) && Nat.eqb (generation (session c)) gen
   && is_some (next_due_at (session c))
then _arm_due gen c else c.

Definition finish_op (owner : option nat) (ok : bool) (c : scheduler) : scheduler :=
let c := with_op None c in
match owner with
| None => c
| Some id => match timers c !! id with
             | Some t => end_timer id ok (tm_generation t) c
             | None => c
             end
end.

(** [process_due] takes the free lock and runs to its first suspension point. *)
Definition begin_process iso name now (owner : option nat) (c : scheduler) : scheduler :=
let '(s, f) := prepare iso name (fresh c) now (session c) in
let c := use_fresh (with_session s c) in
match f with
| None => finish_op owner true c
| Some f => with_op (Some {| o_request := f; o_timer := owner; o_sent := false |}) c
end.

(** The save is over: the request goes to the URL the session has now. *)
Definition send (o : operation) (c : scheduler) : scheduler :=
let c := with_op (Some {| o_request := o_request o; o_timer := o_timer o; o_sent := true |}) c in
{| session := session c; op := op c; timers := timers c; task := task c; fresh := fresh c;
   _closed := _closed c;
   sent := sent c ++ [(oid (if_item (o_request o)), default "" (report_url (session c)))] |}.

(** The request was answered. *)
Definition end_process dec backoff (o : operation) (answer : post_result) (c : scheduler)
  : scheduler :=
let '(r, s) := complete dec backoff (o_request o) answer (session c) in
finish_op (o_timer o) (is_ok r) (with_session s c).

Definition cancel (clear_queue : bool) (c : scheduler) : scheduler :=
let c := cancel_task c in
let s := session c in
let s := if clear_queue then set_queue [] s else s in
with_session (set_next_due None (set_status IDLE s)) c.

(** A timer whose sleep is over: it looks at the generation before it processes. *)
Definition timer_wake iso name now (id : nat) (t : timer) (c : scheduler) : scheduler :=
if negb (Nat.eqb (generation (session c)) (tm_generation t))
then end_timer id false (tm_generation t) c
else begin_process iso name now (Some id)
       (with_timers (<[id := {| tm_generation := tm_generation t; tm_cancelled := tm_cancelled t;
                                tm_processing := true |}]> (timers c)) (task c) c).

(** The cancellation of a timer is delivered: a request in flight is abandoned. *)
Definition timer_cancelled (id : nat) (t : timer) (c : scheduler) : scheduler :=
let c := match op c with
         | Some o => if bool_decide (o_timer o = Some id) then with_op None c else c
         | None => c
         end in
end_timer id false (tm_generation t) c.

Definition shutdown (c : scheduler) : scheduler :=
let c := {| session := session c; op := op c; timers := timers c; task := task c;
            fresh := fresh c; _closed := true; sent := sent c |} in
match task c with Some _ => cancel_task c | None => c end.

(** One step of a caller or of the event loop.  The lock admits one operation. *)
Inductive reporting_step dec iso backoff (c : scheduler) : scheduler -> Prop :=
| r_enqueue now name p url due :
  reporting_step dec iso backoff c
    (use_fresh (with_session (enqueue (fresh c) now name p url due (session c)).2 c))
| r_update_url url :
  reporting_step dec iso backoff c (with_session (update_report_url url (session c)).2 c)
| r_semantic persistent :
  reporting_step dec iso backoff c (with_session (mark_semantic_error persistent (session c)) c)
| r_process name now : op c = None ->
  reporting_step dec iso backoff c (begin_process iso name now None c)
| r_send o : op c = Some o -> o_sent o = false ->
  reporting_step dec iso backoff c (send o c)
| r_answer o answer : op c = Some o -> o_sent o = true ->
  reporting_step dec iso backoff c (end_process dec backoff o answer c)
| r_timer id t name now : timers c !! id = Some t -> tm_cancelled t = false ->
  tm_processing t = false -> op c = None ->
  reporting_step dec iso backoff c (timer_wake iso name now id t c)
| r_timer_cancelled id t : timers c !! id = Some t -> tm_cancelled t = true ->
  reporting_step dec iso backoff c (timer_cancelled id t c)
| r_schedule : reporting_step dec iso backoff c (schedule_due c)
| r_cancel clear_queue : reporting_step dec iso backoff c (cancel clear_queue c)
| r_shutdown : reporting_step dec iso backoff c (shutdown c).

(** The steps that do not bump the generation under a request in flight. *)
Inductive undisturbed_step dec iso backoff (c : scheduler) : scheduler -> Prop :=
| u_step c' : reporting_step dec iso backoff c c' ->
  (op c = None \/ generation (session c') = generation (session c)) ->
  undisturbed_step dec iso backoff c c'.

End Scheduler.

(** ** The objects of the queue *)
Definition oids (s : ReportingSession) : list nat := oid <$> queue s.

Lemma store_item_oids i q : oid <$> store_item i q = oid <$> q.
Proof.
  unfold store_item. rewrite <- list_fmap_compose. apply list_fmap_ext.
  intros k x _. cbn. by destruct (Nat.eqb_spec (oid x) (oid i)).
Qed.

Section Facts.
Context (urlsplit : string -> option url_parts) (str_of : json -> string)
      (dec : Z -> string) (iso : datetime -> string) (backoff : list Z).
Local Abbreviation enqueue := (enqueue urlsplit str_of).
Local Abbreviation update_report_url := (update_report_url urlsplit str_of).
Local Abbreviation complete := (complete urlsplit str_of dec backoff).
Local Abbreviation accepted := (accepted urlsplit str_of).
Local Abbreviation step := (reporting_step urlsplit str_of dec iso backoff).

(** What an operation may do to the generation and to the objects in the queue. *)
Lemma enqueue_oids id now name p url due s :
let s' := (enqueue id now name p url due s).2 in
generation s' = generation s /\
(queue s' = queue s \/ queue_depth s < REPORT_QUEUE_CAPACITY /\
   exists i, oid i = id /\ attempts i = 0 /\ queue s' = queue s ++ [i]).
Proof.
unfold Reporting.enqueue. destruct (Z.leb_spec REPORT_QUEUE_CAPACITY (queue_depth s)); [by auto|].
destruct (_report_url _ _ _) as [candidate|e]; [|by auto].
destruct (_ && _); [by auto|]. cbn zeta. split; [by destruct candidate|].
right. split; [done|]. eexists {| oid := id |}. split; [reflexivity|]. split; [reflexivity|].
by destruct candidate.
Qed.

Lemma update_url_same url s :
let s' := (update_report_url url s).2 in generation s' = generation s /\ queue s' = queue s.
Proof.
unfold Reporting.update_report_url. destruct (_report_url _ _ _) as [[c|]|e]; [|done..].
cbn. by destruct (bool_decide _).
Qed.

(** The request [prepare_head] makes is that of the head, one attempt later. *)
Lemma prepare_head_spec observed s s' f :
prepare_head observed s = (s', f) ->
generation s' = generation s /\
match f with
| None => queue s' = queue s
| Some f => exists i q, queue s = i :: q /\ if_item f = with_attempt i
              /\ queue s' = store_item (with_attempt i) (i :: q)
              /\ if_generation f = generation s /\ if_observed f = observed
end.
Proof.
unfold prepare_head. destruct (queue s) as [|i q] eqn:Eq; [by intros [= <- <-]|].
destruct (match due_at i with Some d => due_later d observed | None => false end);
  [by intros [= <- <-]|].
destruct (match report_url s with None => true | Some u => empty_str u end);
  intros [= <- <-]; [done|].
split; [done|]. by exists i, q.
Qed.

Lemma prepare_event_spec name id now s s' f :
prepare iso name id now s = (s', f) ->
generation s' = generation s /\
exists s1, (queue s1 = queue s \/ queue s = [] /\ exists i, oid i = id /\ attempts i = 0 /\ queue s1 = [i])
  /\ generation s1 = generation s
  /\ match f with
     | None => queue s' = queue s1
     | Some f => exists i q, queue s1 = i :: q /\ if_item f = with_attempt i
                   /\ queue s' = store_item (with_attempt i) (i :: q)
                   /\ if_generation f = generation s
     end.
Proof.
unfold prepare. destruct (queue s) as [|i q] eqn:Eq.
- destruct (next_due_at s) as [d|].
  + destruct (due_later _ _).
    * intros [= <- <-]. split; [done|]. exists (set_status IDLE s). cbn. auto.
    * intros H. apply prepare_head_spec in H as [Hg H]. split; [done|].
      match type of Hg with _ = generation ?x => exists x end.
      split; [right; split; [done|eexists {| oid := id |}; done]|]. split; [done|].
      destruct f as [f|]; [|done].
      destruct H as (i & q & Hq & Hi & Hq' & Hf & _). eauto 6.
  + intros [= <- <-]. split; [done|]. exists (set_status IDLE s). cbn. auto.
- intros H. apply prepare_head_spec in H as [Hg H]. split; [done|].
  exists s. split; [by left|]. split; [done|]. destruct f as [f|]; [|done].
  destruct H as (i' & q' & Hq & Hi & Hq' & Hf & _). eauto 6.
Qed.

Lemma pop0_queue s s' : pop0 s = Ok s' -> exists i, queue s = i :: queue s' /\ s' = set_queue (queue s') s.
Proof. unfold pop0. destruct (queue s) as [|i q]; [done|]. intros [= <-]. by exists i. Qed.

(** [failed] drops the head after the sixth attempt, otherwise it keeps the queue's
  objects and, unless the calendar ends, re-arms the item. *)
Lemma failed_spec f failure s :
let '(r, s') := failed backoff f failure s in
generation s' = generation s /\
if REPORT_MAX_ATTEMPTS <=? attempts (if_item f)
then match oids s with [] => oids s' = [] | _ :: l => oids s' = l /\ status s' = FAILED end
     /\ exists i, queue s' = drop (if decide (oids s = []) then 0 else 1) (store_item i (queue s))
        /\ oid i = oid (if_item f) /\ attempts i = attempts (if_item f)
else exists i, queue s' = store_item i (queue s) /\ oid i = oid (if_item f)
     /\ attempts i = attempts (if_item f).
Proof.
unfold failed. cbn zeta. change (attempts (with_error _ _)) with (attempts (if_item f)).
set (item := with_error (Some failure) (if_item f)).
destruct (REPORT_MAX_ATTEMPTS <=? attempts (if_item f)).
- unfold pop0. cbn [queue set_failure set_queue].
  pose proof (store_item_oids item (queue s)) as Ho. unfold oids.
  destruct (queue s) as [|x q] eqn:Eq; cbn [store_item map] in *.
  + split; [done|]. split; [done|]. exists item. done.
  + split; [done|]. cbn [fmap list_fmap] in Ho |- *. split.
    * cbn. injection Ho as _ Ho. done.
    * exists item. rewrite decide_False by done. done.
- destruct (backoff !! _) as [b|]; [|split; [done|]; by exists item].
  destruct (add_seconds _ _) as [d|]; [|split; [done|]; by exists item].
  split; [done|]. exists (with_due (Some d) item). split; [|done]. cbn.
  unfold store_item. rewrite map_map. apply map_ext. intros x.
  destruct (Nat.eqb_spec (oid x) (oid item)) as [E|E]; cbn; [|done].
  cbn in E. by rewrite E, !Nat.eqb_refl.
Qed.

(** [accepted] removes the head and nothing else, or stops before it did. *)
Lemma accepted_spec f body s :
let '(r, s') := accepted f body s in
generation s' = generation s /\
(r <> Ok tt /\ queue s' = queue s \/
 exists i q, queue s = i :: q /\ oids s' = oid <$> q
   /\ attempts <$> queue s' = attempts <$> q).
Proof.
unfold Reporting.accepted. destruct (reporting_link _ _ _) as [rep|e]; [|by auto].
set (s0 := if is_some rep then set_url rep s else s).
assert (queue s0 = queue s /\ generation s0 = generation s) as [Hq Hg] by (by destruct rep).
unfold pop0. rewrite Hq. destruct (queue s) as [|i q] eqn:Eq.
{ split; [done|]. left. by rewrite Hq. }
destruct (_uint32_seconds _) as [hint|e].
- destruct (hint ≫= _) as [d|] eqn:Ed.
  + split; [by destruct q|]. right. exists i, q. split; [done|]. by destruct q.
  + destruct hint; (split; [by destruct q|]); right; exists i, q; (split; [done|]); by destruct q.
- split; [done|]. right. by exists i, q.
Qed.

Lemma complete_oids f answer s :
let s' := (complete f answer s).2 in
generation s' = generation s /\ oids s' `suffix_of` oids s.
Proof.
assert (forall failure s0, oids s0 `suffix_of` oids s -> generation s0 = generation s ->
  let s' := (failed backoff f failure s0).2 in
  generation s' = generation s /\ oids s' `suffix_of` oids s) as Hfail.
{ intros failure s0 Ho Hg. pose proof (failed_spec f failure s0) as H.
  destruct (failed backoff f failure s0) as [r s1]. cbn. destruct H as [Hg1 H].
  split; [congruence|]. etrans; [|exact Ho].
  destruct (_ <=? _).
  - destruct H as [H _]. destruct (oids s0) as [|x l]; [by rewrite H|].
    destruct H as [-> _]. by apply suffix_cons_r.
  - destruct H as (i & Hi & _). unfold oids. rewrite Hi, store_item_oids. done. }
unfold Reporting.complete. cbn zeta. destruct answer as [code body|e].
- destruct (negb _); [done|]. destruct (code =? 200).
  + pose proof (accepted_spec f (_response_json body) (set_http (Some code) s)) as H.
    destruct (accepted f _ _) as [[u|e] s1]; destruct H as [Hg H].
    * cbn. split; [done|]. destruct H as [[_ Hq]|(i & q & Hq & Ho & _)].
      -- unfold oids. by rewrite Hq.
      -- rewrite Ho. unfold oids. cbn in Hq. rewrite Hq. by apply suffix_cons_r.
    * apply Hfail; [|done]. destruct H as [[_ Hq]|(i & q & Hq & Ho & _)].
      -- unfold oids. cbn. by rewrite Hq.
      -- change (oids (set_http None s1)) with (oids s1). rewrite Ho.
         unfold oids. cbn in Hq. rewrite Hq. by apply suffix_cons_r.
  + by apply Hfail.
- by apply Hfail.
Qed.

(** *** The timers leave the session alone *)
Definition keeps (c c' : scheduler) : Prop :=
session c' = session c /\ (fresh c <= fresh c')%nat /\ sent c' = sent c /\ op c' = op c
/\ forall id t, timers c' !! id = Some t -> timers c !! id = Some t \/ tm_cancelled t = false.

Lemma arm_due_keeps gen c : keeps c (_arm_due gen c).
Proof.
unfold _arm_due, keeps. destruct (_ || _); cbn; [by auto 6|].
repeat (split; [auto|]). intros id t. rewrite lookup_insert_Some. intros [[<- <-]|[_ H]]; auto.
Qed.

Lemma end_timer_keeps id ok gen c : keeps c (end_timer id ok gen c).
Proof.
unfold end_timer. cbn zeta. set (c1 := with_timers _ _ c).
assert (forall i t, timers c1 !! i = Some t -> timers c !! i = Some t) as H1
  by (cbn; intros i t; by rewrite lookup_delete_Some; intros []).
destruct (_ && _).
- destruct (arm_due_keeps gen c1) as (K1 & K2 & K3 & K4 & K5). repeat (split; [done|]).
  intros i t Hi. apply K5 in Hi as [Hi|]; [left; by apply H1|by right].
- repeat (split; [done|]). intros i t Hi. left. by apply H1.
Qed.

Lemma finish_op_keeps owner ok c : keeps (with_op None c) (finish_op owner ok c).
Proof.
assert (keeps (with_op None c) (with_op None c)) as Hrefl
  by (repeat (split; [done|]); by left).
unfold finish_op. destruct owner as [id|]; [|done].
cbn zeta. destruct (_ !! id); [apply end_timer_keeps|done].
Qed.

Lemma cancel_task_same c :
let c' := cancel_task c in
queue (session c') = queue (session c) /\ fresh c' = fresh c /\ sent c' = sent c /\ op c' = op c
/\ generation (session c') = S (generation (session c)).
Proof. unfold cancel_task. by destruct (task _). Qed.

Lemma schedule_due_same c :
let c' := schedule_due c in
queue (session c') = queue (session c) /\ (fresh c <= fresh c')%nat /\ sent c' = sent c
/\ op c' = op c /\ (_closed c = false -> generation (session c') = S (generation (session c)))
/\ (_closed c = true -> c' = c).
Proof.
unfold schedule_due. destruct (_closed c); [by repeat split|]. cbn zeta.
destruct (cancel_task_same c) as (H1 & H2 & H3 & H4 & H5).
destruct (arm_due_keeps (generation (session (cancel_task c))) (cancel_task c)) as (K1 & K2 & K3 & K4 & _).
rewrite K1, K3, K4. repeat split; try congruence; lia.
Qed.

(** ** The queue invariant *)
Record queue_ok (n : nat) (s : ReportingSession) : Prop := {
q_capacity : queue_depth s <= REPORT_QUEUE_CAPACITY;
q_distinct : NoDup (oids s);
q_fresh : forall o, o ∈ oids s -> (o < n)%nat }.

Lemma queue_ok_suffix n m s s' :
queue_ok n s -> oids s' `suffix_of` oids s -> (n <= m)%nat -> queue_ok m s'.
Proof.
intros [Hc Hd Hf] [k Hk] Hle. split.
- unfold queue_depth in *. assert (length (queue s') <= length (queue s))%nat as Hl.
  { rewrite <- (length_fmap oid (queue s)), <- (length_fmap oid (queue s')).
    change (length (oids s') <= length (oids s))%nat. rewrite Hk, length_app. lia. }
  lia.
- rewrite Hk in Hd. by apply list.NoDup_app in Hd as (_ & _ & ?).
- intros o Ho. enough (o < n)%nat by lia. apply Hf. rewrite Hk. apply elem_of_app. by right.
Qed.

Lemma queue_ok_same n m s s' :
queue_ok n s -> oids s' = oids s -> (n <= m)%nat -> queue_ok m s'.
Proof. intros H He. apply queue_ok_suffix with (s := s); [done|by rewrite He]. Qed.

Lemma queue_ok_snoc n s s' i :
queue_ok n s -> queue_depth s < REPORT_QUEUE_CAPACITY -> oid i = n ->
queue s' = queue s ++ [i] -> queue_ok (S n) s'.
Proof.
intros [Hc Hd Hf] Hlt Hi Hq. split.
- unfold queue_depth in *. rewrite Hq, length_app. cbn. lia.
- unfold oids in *. rewrite Hq, fmap_app. cbn. apply list.NoDup_app. split; [done|].
  split; [|apply NoDup_singleton]. intros o Ho ->%list_elem_of_singleton.
  apply Hf in Ho. lia.
- intros o. unfold oids. rewrite Hq, fmap_app, elem_of_app. intros [Ho|Ho].
  + apply Hf in Ho. lia.
  + cbn in Ho. apply list_elem_of_singleton in Ho. lia.
Qed.

Lemma begin_process_ok name now owner c :
queue_ok (fresh c) (session c) ->
let c' := begin_process iso name now owner c in queue_ok (fresh c') (session c').
Proof.
intros Hok. unfold begin_process.
destruct (prepare iso name (fresh c) now (session c)) as [s f] eqn:Ep.
destruct (prepare_event_spec _ _ _ _ _ _ Ep) as [Hg (s1 & Hs1 & _ & Hf)].
assert (queue_ok (S (fresh c)) s1) as Hok1.
{ destruct Hs1 as [Hq|(Hq & i & Hi & _ & Hs1)].
  - apply (queue_ok_same (fresh c) _ (session c)); [done|unfold oids; by rewrite Hq|lia].
  - apply (queue_ok_snoc (fresh c) (session c) s1 i); [done| |done|by rewrite Hs1, Hq].
    unfold queue_depth. by rewrite Hq. }
assert (oids s = oids s1) as Hoids.
{ destruct f as [f|]; [|unfold oids; by rewrite Hf].
  destruct Hf as (i & q & Hq & _ & Hq' & _). unfold oids.
  by rewrite Hq', store_item_oids, Hq. }
assert (queue_ok (S (fresh c)) s) as Hok2 by by apply (queue_ok_same (S (fresh c)) _ s1).
destruct f as [f|]; [exact Hok2|].
pose proof (finish_op_keeps owner true (use_fresh (with_session s c))) as (K1 & K2 & _).
cbn zeta. rewrite K1. eapply queue_ok_same; [exact Hok2|done|]. exact K2.
Qed.

Lemma step_queue_ok c c' :
queue_ok (fresh c) (session c) -> step c c' -> queue_ok (fresh c') (session c').
Proof.
intros Hok Hs. destruct Hs as [now name p url due|url|persistent|name now Hop|o Ho Hsent
  |o answer Ho Hsent|id t name now Ht Hc Hp Hop|id t Ht Hc| |clear| ].
- cbn. destruct (enqueue_oids (fresh c) now name p url due (session c))
    as [_ [Hq|(Hlt & i & Hi & _ & Hq)]].
  + apply (queue_ok_same (fresh c) _ (session c)); [done|unfold oids; by rewrite Hq|lia].
  + by apply (queue_ok_snoc (fresh c) (session c) _ i).
- cbn. destruct (update_url_same url (session c)) as [_ Hq].
  apply (queue_ok_same (fresh c) _ (session c)); [done|unfold oids; by rewrite Hq|done].
- by apply (queue_ok_same (fresh c) _ (session c)).
- by apply begin_process_ok.
- done.
- unfold end_process. pose proof (complete_oids (o_request o) answer (session c)) as [_ Hsuf].
  destruct (complete (o_request o) answer (session c)) as [r s]. cbn in Hsuf.
  pose proof (finish_op_keeps (o_timer o) (is_ok r) (with_session s c)) as (K1 & K2 & _).
  rewrite K1. by apply (queue_ok_suffix (fresh c) _ (session c)).
- unfold timer_wake. destruct (negb _).
  + destruct (end_timer_keeps id false (tm_generation t) c) as (K1 & K2 & _).
    rewrite K1. by apply (queue_ok_same (fresh c) _ (session c)).
  + by apply begin_process_ok.
- unfold timer_cancelled. cbn zeta.
  match goal with |- context [end_timer id false ?g ?x] =>
    destruct (end_timer_keeps id false g x) as (K1 & K2 & _); set (c1 := x) in * end.
  rewrite K1. assert (session c1 = session c /\ fresh c1 = fresh c) as [-> Hf].
  { unfold c1. destruct (op c); [by destruct (bool_decide _)|done]. }
  apply (queue_ok_same (fresh c) _ (session c)); [done|done|rewrite <- Hf; exact K2].
- destruct (schedule_due_same c) as (Hq & Hf & _).
  apply (queue_ok_same (fresh c) _ (session c)); [done|unfold oids; by rewrite Hq|done].
- unfold cancel. destruct (cancel_task_same c) as (Hq & Hf & _).
  apply (queue_ok_suffix (fresh c) _ (session c)); [done| |cbn; lia].
  unfold oids. cbn. destruct clear; cbn; [apply suffix_nil|by rewrite Hq].
- unfold shutdown. cbn zeta. match goal with |- context [cancel_task ?x] => set (c1 := x) end.
  change (task c1) with (task c). destruct (task c) as [id|]; [|exact Hok].
  destruct (cancel_task_same c1) as (Hq & Hf & _).
  apply (queue_ok_same (fresh c) _ (session c)); [done|unfold oids; by rewrite Hq|].
  rewrite Hf. done.
Qed.

Definition empty_session : ReportingSession :=
{| report_url := None; status := IDLE; queue := []; next_due_at := None;
   last_http_status := None; last_success_at := None; last_failure := None;
   semantic_persistent_error := false; generation := 0 |}.
Definition empty_scheduler : scheduler :=
{| session := empty_session; op := None; timers := ∅; task := None; fresh := 0;
   _closed := false; sent := [] |}.

(** The queue is bounded and holds every event once: however callers, timers,
  answers, failures and cancellations interleave, at most twenty events wait and
  no object is in the queue twice. *)
Theorem queue_bounded c :
rtc step empty_scheduler c ->
queue_depth (session c) <= REPORT_QUEUE_CAPACITY /\ NoDup (oids (session c)).
Proof.
intros H. enough (queue_ok (fresh c) (session c)) as [] by done.
refine (rtc_invariant _ (fun c => queue_ok (fresh c) (session c)) step_queue_ok _ _ H _).
split; [done|constructor|by intros o ?%elem_of_nil].
Qed.

(** ** Every event is sent at most six times *)
Definition view (q : list ReportingQueueItem) : list (nat * Z) := (fun i => (oid i, attempts i)) <$> q.

Definition count (l : list (nat * string)) (o : nat) : Z :=
Z.of_nat (length (List.filter (fun e => Nat.eqb e.1 o) l)).

Lemma count_snoc l o u o' :
count (l ++ [(o, u)]) o' = count l o' + (if Nat.eqb o o' then 1 else 0).
Proof.
unfold count. rewrite filter_app, length_app. cbn. destruct (Nat.eqb o o'); cbn; lia.
Qed.

(** Storing an item under its own attempts changes nothing in the view. *)
Lemma store_item_view i q :
(forall x, x ∈ q -> oid x = oid i -> attempts x = attempts i) ->
view (store_item i q) = view q.
Proof.
intros H. unfold view, store_item. rewrite <- list_fmap_compose. apply list_fmap_ext.
intros k x Hx. cbn. destruct (Nat.eqb_spec (oid x) (oid i)) as [E|E]; [|done].
rewrite E, (H x); [done|by eapply list_elem_of_lookup_2|done].
Qed.

Lemma not_in_view o (q : list ReportingQueueItem) x : o ∉ (oid <$> q) -> x ∈ q -> oid x <> o.
Proof. intros Hn Hx <-. apply Hn. by apply list_elem_of_fmap_2. Qed.

Lemma view_oids (q q' : list ReportingQueueItem) : view q = view q' -> oid <$> q = oid <$> q'.
Proof.
intros H. assert (forall q : list ReportingQueueItem, oid <$> q = fst <$> view q) as Hv
  by (intros; unfold view; by rewrite <- list_fmap_compose).
by rewrite !Hv, H.
Qed.

(** [failed] on a queue whose objects with the item's identity have its attempts. *)
Lemma failed_view f failure s :
(forall x, x ∈ queue s -> oid x = oid (if_item f) -> attempts x = attempts (if_item f)) ->
let s' := (failed backoff f failure s).2 in
view (queue s') = (if (REPORT_MAX_ATTEMPTS <=? attempts (if_item f)) && negb (bool_decide (oids s = []))
                   then drop 1 (view (queue s)) else view (queue s)).
Proof.
intros Hx. pose proof (failed_spec f failure s) as H.
destruct (failed backoff f failure s) as [r s']. destruct H as [_ H]. cbn.
assert (forall i, oid i = oid (if_item f) -> attempts i = attempts (if_item f) ->
  view (store_item i (queue s)) = view (queue s)) as Hs.
{ intros i Ho Ha. apply store_item_view. intros x Hin He. rewrite Ha. apply Hx; [done|congruence]. }
destruct (_ <=? _); cbn [andb].
- destruct H as [_ (i & Hq & Ho & Ha)]. rewrite Hq. unfold view at 1. rewrite fmap_drop.
  change ((fun i => (oid i, attempts i)) <$> store_item i (queue s)) with (view (store_item i (queue s))).
  rewrite Hs by done. destruct (decide (oids s = [])) as [E|E].
  + by rewrite bool_decide_eq_true_2.
  + by rewrite bool_decide_eq_false_2.
- destruct H as (i & Hq & Ho & Ha). rewrite Hq. by apply Hs.
Qed.

Lemma complete_view f answer s i q :
queue s = i :: q -> oid i = oid (if_item f) -> attempts i = attempts (if_item f) ->
NoDup (oids s) -> generation s = if_generation f ->
let s' := (complete f answer s).2 in
view (queue s') `suffix_of` view (i :: q)
/\ (REPORT_MAX_ATTEMPTS <= attempts (if_item f) -> view (queue s') `suffix_of` view q).
Proof.
intros Hq Ho Ha Hnd Hg. unfold oids in Hnd. rewrite Hq in Hnd. cbn in Hnd.
apply list.NoDup_cons in Hnd as [Hni Hnd].
assert (forall failure s0, queue s0 = i :: q \/ view (queue s0) = view q ->
  let s' := (failed backoff f failure s0).2 in
  view (queue s') `suffix_of` view (i :: q)
  /\ (REPORT_MAX_ATTEMPTS <= attempts (if_item f) -> view (queue s') `suffix_of` view q)) as Hfail.
{ intros failure s0 Hs0. cbn zeta. rewrite failed_view.
  - destruct Hs0 as [Hs0|Hs0].
    + unfold oids. rewrite Hs0. cbn [fmap list_fmap]. rewrite bool_decide_eq_false_2 by done.
      destruct (Z.leb_spec REPORT_MAX_ATTEMPTS (attempts (if_item f))); cbn.
      * split; [by apply suffix_cons_r|done].
      * split; [done|lia].
    + rewrite Hs0. destruct (_ && _); (split; [|intros _]);
        try (apply suffix_cons_r); try apply suffix_drop; done.
  - intros x Hx He. destruct Hs0 as [Hs0|Hs0].
    + rewrite Hs0 in Hx. apply elem_of_cons in Hx as [->|Hx]; [done|].
      exfalso. rewrite Ho in Hni. by apply (not_in_view _ _ _ Hni Hx).
    + exfalso. apply view_oids in Hs0. rewrite <- Hs0, Ho in Hni.
      by apply (not_in_view _ _ _ Hni Hx). }
unfold Reporting.complete. cbn zeta. destruct answer as [code body|e].
- rewrite Hg, Nat.eqb_refl. cbn [negb]. destruct (code =? 200).
  + pose proof (accepted_spec f (_response_json body) (set_http (Some code) s)) as H.
    destruct (accepted f _ _) as [r s1]. destruct H as [_ H].
    assert (queue s1 = i :: q /\ r <> Ok tt \/ view (queue s1) = view q) as Hs1.
    { destruct H as [[Hr Hqs]|(i' & q' & Hqs & Hos & Has)].
      - left. by rewrite Hqs.
      - right. cbn in Hqs. rewrite Hq in Hqs. injection Hqs as <- <-.
        unfold view. clear -Hos Has. revert Hos Has. unfold oids.
        generalize (queue s1). intros l. revert q. induction l as [|x l IH]; intros [|y q]; try done.
        cbn. intros [= H1 H2] [= H3 H4]. rewrite H1, H3. f_equal. by apply IH. }
    destruct r as [[]|e]; cbn.
    * destruct Hs1 as [[_ Hr]|Hs1]; [done|]. rewrite Hs1.
      split; [by apply suffix_cons_r|done].
    * apply Hfail. cbn. tauto.
  + apply Hfail. by left.
- apply Hfail. by left.
Qed.

(** An event waiting has been sent once per attempt, and fewer than six times. *)
Definition waiting (l : list (nat * string)) (v : list (nat * Z)) : Prop :=
forall o a, (o, a) ∈ v -> count l o = a /\ a < REPORT_MAX_ATTEMPTS.

Record sent_ok (c : scheduler) : Prop := {
sk_queue : queue_ok (fresh c) (session c);
sk_fresh : forall e, e ∈ sent c -> (e.1 < fresh c)%nat;
sk_bound : forall o, count (sent c) o <= REPORT_MAX_ATTEMPTS;
sk_idle : op c = None -> waiting (sent c) (view (queue (session c)));
sk_busy : forall o, op c = Some o ->
  if_generation (o_request o) = generation (session c)
  /\ exists i q, queue (session c) = i :: q /\ oid i = oid (if_item (o_request o))
     /\ attempts i = attempts (if_item (o_request o))
     /\ attempts i <= REPORT_MAX_ATTEMPTS
     /\ count (sent c) (oid i) = attempts i - (if o_sent o then 0 else 1)
     /\ waiting (sent c) (view q);
sk_timer : forall o id t, op c = Some o -> o_timer o = Some id -> timers c !! id = Some t ->
  tm_cancelled t = false }.

Lemma count_fresh c o : sent_ok c -> (fresh c <= o)%nat -> count (sent c) o = 0.
Proof.
intros Hok Ho. unfold count. enough (List.filter (fun e => Nat.eqb e.1 o) (sent c) = []) as -> by done.
pose proof (sk_fresh c Hok) as Hf. revert Hf. generalize (sent c). intros l Hf.
induction l as [|e l IH]; cbn; [done|].
assert (e.1 < fresh c)%nat by (apply Hf; left).
destruct (Nat.eqb_spec e.1 o); [lia|]. apply IH. intros x Hx. apply Hf. by right.
Qed.

Lemma waiting_suffix l v v' : waiting l v -> v' `suffix_of` v -> waiting l v'.
Proof. intros H [k ->] o a Hoa. apply H, elem_of_app. by right. Qed.

Lemma waiting_snoc l v o : waiting l v -> count l o = 0 -> waiting l (v ++ [(o, 0)]).
Proof.
intros H Hc o' a. rewrite elem_of_app, list_elem_of_singleton. intros [Hv|[= -> ->]]; [by apply H|].
split; [done|]. unfold REPORT_MAX_ATTEMPTS, REPORT_MAX_RETRIES. lia.
Qed.

Lemma view_elem i q : i ∈ q -> (oid i, attempts i) ∈ view q.
Proof. intros Hi. apply list_elem_of_fmap. by exists i. Qed.

(** Idle schedulers that agree on the queue, the identities and the requests. *)
Lemma sent_ok_idle c c' :
sent_ok c -> op c = None -> op c' = None -> view (queue (session c')) = view (queue (session c)) ->
(fresh c <= fresh c')%nat -> sent c' = sent c -> sent_ok c'.
Proof.
intros Hok Hop Hop' Hv Hf Hs. split; try (intros; congruence).
- apply (queue_ok_same (fresh c) _ (session c)); [by apply sk_queue| |done].
  by apply view_oids.
- intros e He. rewrite Hs in He. apply (sk_fresh c Hok) in He. lia.
- intros o. rewrite Hs. apply (sk_bound c Hok).
- intros _. rewrite Hs, Hv. by apply sk_idle.
Qed.

Lemma begin_process_sent name now owner c :
sent_ok c -> op c = None ->
(forall id t, owner = Some id -> timers c !! id = Some t -> tm_cancelled t = false) ->
sent_ok (begin_process iso name now owner c).
Proof.
intros Hok Hop Htm.
pose proof (begin_process_ok name now owner c (sk_queue c Hok)) as Hq'. cbn zeta in Hq'.
unfold begin_process in *.
destruct (prepare iso name (fresh c) now (session c)) as [s f] eqn:Ep.
destruct (prepare_event_spec _ _ _ _ _ _ Ep) as [Hg (s1 & Hs1 & Hg1 & Hf)].
assert (waiting (sent c) (view (queue s1))) as Hw1.
{ destruct Hs1 as [Hq|(_ & i & Hi & Ha & Hs1)].
  - rewrite Hq. by apply sk_idle.
  - rewrite Hs1. unfold view. cbn. rewrite Hi, Ha. apply (waiting_snoc _ []).
    + intros o a H. by apply elem_of_nil in H.
    + by apply count_fresh. }
destruct f as [f|].
- destruct Hf as (i & q & Hqs & Hi & Hqs' & Hgf). split; [exact Hq'| | |done| |].
  + intros e He. apply (sk_fresh c Hok) in He. cbn. lia.
  + apply (sk_bound c Hok).
  + intros o [= <-]. cbn. split; [congruence|].
    exists (with_attempt i), (store_item (with_attempt i) q).
    pose proof (q_distinct _ _ Hq') as Hnd. cbn in Hnd. unfold oids in Hnd.
    rewrite Hqs', store_item_oids in Hnd. cbn in Hnd. apply list.NoDup_cons in Hnd as [Hni _].
    assert (view (store_item (with_attempt i) q) = view q) as Hv.
    { apply store_item_view. intros x Hx He. exfalso. by apply (not_in_view _ _ _ Hni Hx). }
    destruct (Hw1 (oid i) (attempts i)) as [Hc Ha].
    { rewrite Hqs. left. }
    split; [rewrite Hqs'; cbn; by rewrite Nat.eqb_refl|]. rewrite Hi. split; [done|].
    split; [done|]. cbn. split; [lia|]. split; [lia|]. rewrite Hv.
    rewrite Hqs in Hw1. apply (waiting_suffix _ _ _ Hw1). by apply suffix_cons_r.
  + intros o id t [= <-]. cbn. intros ->. by apply Htm.
- pose proof (finish_op_keeps owner true (use_fresh (with_session s c))) as (K1 & K2 & K3 & K4 & _).
  split.
  + exact Hq'.
  + intros e. rewrite K3. cbn. intros He. apply (sk_fresh c Hok) in He. cbn in K2. lia.
  + intros o. rewrite K3. apply (sk_bound c Hok).
  + intros _. rewrite K1, K3. cbn. by rewrite Hf.
  + intros o Ho. rewrite K4 in Ho. discriminate Ho.
  + intros o id t Ho. rewrite K4 in Ho. discriminate Ho.
Qed.

Lemma enqueue_sent now name p url due c :
sent_ok c ->
sent_ok (use_fresh (with_session (enqueue (fresh c) now name p url due (session c)).2 c)).
Proof.
intros Hok. pose proof (step_queue_ok c _ (sk_queue c Hok)
  (r_enqueue _ _ _ _ _ _ now name p url due)) as Hq.
destruct (enqueue_oids (fresh c) now name p url due (session c)) as [Hg Hcase].
set (s' := (enqueue (fresh c) now name p url due (session c)).2) in *.
assert (forall v, waiting (sent c) v -> waiting (sent c) (v ++ [(fresh c, 0)])) as Hsnoc.
{ intros v Hv. apply waiting_snoc; [done|]. by apply count_fresh. }
split; [exact Hq| | | | |].
- intros e He. apply (sk_fresh c Hok) in He. cbn. lia.
- apply (sk_bound c Hok).
- intros Hop. cbn in Hop. pose proof (sk_idle c Hok Hop) as Hw.
  destruct Hcase as [Hs|(_ & i & Hi & Ha & Hs)]; cbn; rewrite Hs; [done|].
  unfold view. rewrite fmap_app. cbn. rewrite Hi, Ha. by apply Hsnoc.
- intros o Hop. cbn in Hop. destruct (sk_busy c Hok o Hop) as [Hgen (i & q & Hqs & H1 & H2 & H3 & H4 & H5)].
  cbn. split; [congruence|]. destruct Hcase as [Hs|(_ & i' & Hi & Ha & Hs)].
  + exists i, q. by rewrite Hs.
  + exists i, (q ++ [i']). rewrite Hs, Hqs. repeat (split; [done|]).
    unfold view. rewrite fmap_app. cbn. rewrite Hi, Ha. by apply Hsnoc.
- intros o id t Hop. exact (sk_timer c Hok o id t Hop).
Qed.

(** Operations that leave the queue, the lock, the timers and the requests. *)
Lemma sent_ok_session s c :
sent_ok c -> queue s = queue (session c) -> generation s = generation (session c) ->
sent_ok (with_session s c).
Proof.
intros [Hq Hf Hb Hi Hbu Ht] Hqs Hg. split; cbn; try done.
- apply (queue_ok_same (fresh c) _ (session c)); [done|unfold oids; by rewrite Hqs|done].
- intros Hop. rewrite Hqs. by apply Hi.
- intros o Ho. destruct (Hbu o Ho) as [Hgen H]. rewrite Hqs, Hg. done.
Qed.

Lemma send_sent o c : sent_ok c -> op c = Some o -> o_sent o = false -> sent_ok (send o c).
Proof.
intros Hok Hop Hs. destruct (sk_busy c Hok o Hop) as [Hg (i & q & Hq & Ho & Ha & H6 & Hc & Hw)].
rewrite Hs in Hc. pose proof (sk_queue c Hok) as Hqok.
assert (oid i ∉ (oid <$> q)) as Hni.
{ pose proof (q_distinct _ _ Hqok) as Hnd. unfold oids in Hnd. rewrite Hq in Hnd.
  cbn in Hnd. by apply list.NoDup_cons in Hnd as [? _]. }
split; cbn; [done| | |done| |].
- intros e. rewrite elem_of_app, list_elem_of_singleton. intros [He| ->]; [by apply (sk_fresh c Hok)|].
  cbn. apply (q_fresh _ _ Hqok). unfold oids. rewrite Hq, <- Ho. left.
- intros o'. rewrite count_snoc. pose proof (sk_bound c Hok o').
  destruct (Nat.eqb_spec (oid (if_item (o_request o))) o') as [<-|]; [|lia].
  rewrite <- Ho. lia.
- intros o' [= <-]. cbn. split; [done|]. exists i, q. repeat (split; [done|]).
  split; [rewrite count_snoc, Ho, Nat.eqb_refl, <- Ho; lia|].
  intros o' a Hoa. destruct (Hw o' a Hoa) as [Hco Ha']. split; [|done].
  rewrite count_snoc. destruct (Nat.eqb_spec (oid (if_item (o_request o))) o') as [<-|]; [|lia].
  exfalso. apply Hni. unfold view in Hoa. apply list_elem_of_fmap in Hoa as (x & [= Hx _] & Hin).
  rewrite Ho, Hx. by apply list_elem_of_fmap_2.
- intros o' id t [= <-]. cbn. by apply (sk_timer c Hok).
Qed.

Lemma end_process_sent o answer c :
sent_ok c -> op c = Some o -> o_sent o = true ->
sent_ok (end_process urlsplit str_of dec backoff o answer c).
Proof.
intros Hok Hop Hs. destruct (sk_busy c Hok o Hop) as [Hg (i & q & Hq & Ho & Ha & H6 & Hc & Hw)].
rewrite Hs in Hc. pose proof (sk_queue c Hok) as Hqok.
pose proof (complete_view (o_request o) answer (session c) i q Hq Ho Ha (q_distinct _ _ Hqok) (eq_sym Hg))
  as [Hv Hv6].
pose proof (complete_oids (o_request o) answer (session c)) as [_ Hsuf].
unfold end_process. destruct (complete (o_request o) answer (session c)) as [r s].
pose proof (finish_op_keeps (o_timer o) (is_ok r) (with_session s c)) as (K1 & K2 & K3 & K4 & _).
split.
- rewrite K1. by apply (queue_ok_suffix (fresh c) _ (session c)).
- intros e. rewrite K3. cbn. intros He. apply (sk_fresh c Hok) in He. cbn in K2. lia.
- intros o'. rewrite K3. apply (sk_bound c Hok).
- intros _. rewrite K1, K3. cbn in *.
  destruct (Z.le_gt_cases REPORT_MAX_ATTEMPTS (attempts (if_item (o_request o)))) as [H|H].
  + by apply (waiting_suffix _ (view q)), Hv6.
  + apply (waiting_suffix _ (view (i :: q))); [|done]. cbn.
    intros o' a [[= -> ->]|Hoa]%elem_of_cons; [lia|by apply Hw].
- intros o' Ho'. rewrite K4 in Ho'. discriminate Ho'.
- intros o' id t Ho'. rewrite K4 in Ho'. discriminate Ho'.
Qed.

Lemma step_sent c c' :
sent_ok c -> undisturbed_step urlsplit str_of dec iso backoff c c' -> sent_ok c'.
Proof.
intros Hok [c1 Hs Hund]. clear c'. rename c1 into c'.
destruct Hs as [now name p url due|url|persistent|name now Hop|o Ho Hsent
  |o answer Ho Hsent|id t name now Ht Hc Hp Hop|id t Ht Hc| |clear| ].
- by apply enqueue_sent.
- destruct (update_url_same url (session c)). by apply sent_ok_session.
- by apply sent_ok_session.
- by apply begin_process_sent.
- by apply send_sent.
- by apply end_process_sent.
- unfold timer_wake. destruct (negb _).
  + destruct (end_timer_keeps id false (tm_generation t) c) as (K1 & K2 & K3 & K4 & _).
    apply (sent_ok_idle c); [done|done|congruence|by rewrite K1|done|done].
  + apply begin_process_sent; [|done|].
    * apply (sent_ok_idle c); done.
    * intros id' t' [= <-]. cbn. rewrite lookup_insert_eq. by intros [= <-].
- unfold timer_cancelled. cbn zeta. destruct (op c) as [o|] eqn:Eo.
  + rewrite bool_decide_eq_false_2.
    2: { intros Hid. pose proof (sk_timer c Hok o id t Eo Hid Ht). congruence. }
    destruct (end_timer_keeps id false (tm_generation t) c) as (K1 & K2 & K3 & K4 & K5).
    destruct Hok as [Hq Hf Hb Hi Hbu Htm]. split.
    * rewrite K1. by apply (queue_ok_same (fresh c) _ (session c)).
    * intros e. rewrite K3. intros He. apply Hf in He. lia.
    * intros o'. by rewrite K3.
    * intros H. congruence.
    * intros o'. rewrite K4, K1, K3. apply Hbu.
    * intros o' id' t'. rewrite K4. intros H1 H2 H3%K5. destruct H3 as [H3|]; [|done].
      by apply (Htm o' id' t').
  + destruct (end_timer_keeps id false (tm_generation t) c) as (K1 & K2 & K3 & K4 & _).
    apply (sent_ok_idle c); [done|done|congruence|by rewrite K1|done|done].
- destruct (schedule_due_same c) as (Hq & Hf & Hse & Hop' & Hgen & Hcl).
  destruct (_closed c) eqn:Ec; [by rewrite Hcl|].
  destruct Hund as [Hop|Hg]; [|rewrite Hgen in Hg by done; lia].
  apply (sent_ok_idle c); [done|done|congruence|by rewrite Hq|done|done].
- destruct (cancel_task_same c) as (Hq & Hf & Hse & Hop' & Hgen).
  destruct Hund as [Hop|Hg]; [|unfold cancel in Hg; destruct clear; cbn in Hg; lia].
  destruct Hok as [Hqo Hfr Hb Hi Hbu Htm]. unfold cancel. cbn zeta. split; cbn; try (intros; congruence).
  + apply (queue_ok_suffix (fresh c) _ (session c)); [done| |lia].
    unfold oids. destruct clear; cbn; [apply suffix_nil|by rewrite Hq].
  + intros e. rewrite Hse, Hf. apply Hfr.
  + intros _. rewrite Hse. apply (waiting_suffix _ (view (queue (session c)))); [by apply Hi|].
    destruct clear; cbn; [apply suffix_nil|by rewrite Hq].
- unfold shutdown in *. cbn zeta in *.
  match goal with |- context [cancel_task ?x] => set (c1 := x) in * end.
  change (task c1) with (task c) in *. assert (sent_ok c1) as Hok1 by (destruct Hok; by split).
  destruct (task c) as [id|]; [|done].
  destruct (cancel_task_same c1) as (Hq & Hf & Hse & Hop' & Hgen).
  destruct Hund as [Hop|Hg]; [|change (generation (session c)) with (generation (session c1)) in Hg; lia].
  apply (sent_ok_idle c1); [done|done|by rewrite Hop'|by rewrite Hq|by rewrite Hf|done].
Qed.

(** C32. No event is reported more than six times: in any run in which no cancellation
  or rescheduling hits a request in flight, every event object is posted at most
  once plus five retries, whatever the answers, failures, timers and enqueued
  events; and while it waits it has been posted exactly as often as its attempt
  counter says. *)
Theorem at_most_six_sends c :
rtc (undisturbed_step urlsplit str_of dec iso backoff) empty_scheduler c ->
(forall o, count (sent c) o <= REPORT_MAX_ATTEMPTS) /\
(op c = None -> forall i, i ∈ queue (session c) ->
   count (sent c) (oid i) = attempts i /\ attempts i <= REPORT_MAX_RETRIES).
Proof.
intros H. assert (sent_ok c) as Hok.
{ refine (rtc_invariant _ sent_ok step_sent _ _ H _).
  split; try done.
  - split; [done|constructor|by intros o ?%elem_of_nil].
  - by intros e ?%elem_of_nil.
  - intros _ o a ?%elem_of_nil. done. }
split; [apply Hok|]. intros Hop i Hi.
destruct (sk_idle c Hok Hop _ _ (view_elem i _ Hi)) as [Hc Ha].
split; [done|]. unfold REPORT_MAX_ATTEMPTS in Ha. lia.
Qed.


Lemma store_head i i' q : oid i' = oid i -> NoDup (oid <$> (i :: q)) ->
store_item i' (i :: q) = i' :: q.
Proof.
intros Ho Hnd. cbn in Hnd. apply list.NoDup_cons in Hnd as [Hni _].
unfold store_item. cbn. rewrite Ho, Nat.eqb_refl. f_equal.
rewrite <- (map_id q) at 2. apply map_ext_in. intros x Hx.
destruct (Nat.eqb_spec (oid x) (oid i)) as [E|]; [|done].
exfalso. apply Hni. rewrite <- E. apply list_elem_of_fmap_2. by apply list_elem_of_In.
Qed.

(** The reason recorded for an answer that is not a 200. *)
Definition failure_text (answer : post_result) : option string :=
match answer with
| Raised e => Some ("TRANSPORT_" ++ e)%string
| Response code _ => if code =? 200 then None else Some (http_failure dec code)
end.

Lemma complete_failure f answer s failure :
generation s = if_generation f -> failure_text answer = Some failure ->
exists h, complete f answer s = failed backoff f failure (set_http h s).
Proof.
intros Hg Hf. unfold Reporting.complete. destruct answer as [code body|e]; cbn in Hf.
- rewrite Hg, Nat.eqb_refl. destruct (code =? 200); [done|]. injection Hf as <-. by exists (Some code).
- injection Hf as <-. by exists None.
Qed.

(** The retry ladder: an undisturbed request that is answered by anything but a 200,
  or raises, is counted against the head event only.  Before the sixth attempt the
  event keeps its place, its payload and its attempts and is due again after the
  back-off of that attempt, in RETRY_WAIT; after the sixth it alone is dropped, in
  FAILED, and the next event's due time is armed.  The reason is recorded. *)
Theorem retry_ladder f s q answer failure d :
queue s = if_item f :: q -> NoDup (oids s) -> generation s = if_generation f ->
failure_text answer = Some failure ->
(backoff !! Z.to_nat (attempts (if_item f) - 1)) ≫= add_seconds (if_observed f) = Some d \/
REPORT_MAX_ATTEMPTS <= attempts (if_item f) ->
exists s', complete f answer s = (Ok tt, s') /\ last_failure s' = Some failure /\
  report_url s' = report_url s /\
  if REPORT_MAX_ATTEMPTS <=? attempts (if_item f)
  then queue s' = q /\ status s' = FAILED
       /\ next_due_at s' = match q with i :: _ => due_at i | [] => None end
  else queue s' = with_due (Some d) (with_error (Some failure) (if_item f)) :: q
       /\ status s' = RETRY_WAIT /\ next_due_at s' = Some d.
Proof.
intros Hq Hnd Hg Hf Hd. destruct (complete_failure f answer s failure Hg Hf) as [h ->].
unfold failed. cbn zeta. change (attempts (with_error _ _)) with (attempts (if_item f)).
cbn [queue set_http]. unfold oids in Hnd. rewrite Hq in *.
rewrite (store_head (if_item f) (with_error (Some failure) (if_item f)) q) by done.
destruct (Z.leb_spec REPORT_MAX_ATTEMPTS (attempts (if_item f))) as [H|H].
- cbn. by eexists.
- destruct Hd as [Hd|]; [|lia]. destruct (backoff !! _) as [b|]; [|done]. cbn in Hd. rewrite Hd.
  eexists. split; [reflexivity|]. cbn. rewrite Nat.eqb_refl. repeat split; [done..|].
  f_equal. change (store_item (with_due (Some d) (with_error (Some failure) (if_item f))) q = q).
  pose proof (store_head (if_item f) (with_due (Some d) (with_error (Some failure) (if_item f))) q eq_refl Hnd) as Hs.
  cbn in Hs. rewrite Nat.eqb_refl in Hs. by injection Hs.
Qed.

(** A 200 answer to an undisturbed request takes exactly the head event off the
  queue: the others keep their order, attempts and payloads, the failure is cleared,
  the time of success is that of the observation, and the status says whether the
  session had to recover. *)
Theorem success_consumes_head f s q body link hint :
queue s = if_item f :: q -> generation s = if_generation f ->
reporting_link urlsplit str_of (_response_json body) = Ok link ->
_uint32_seconds (get "nextReportIn" (_response_json body)) = Ok hint ->
(forall n, hint = Some n -> is_Some (add_seconds (if_observed f) n)) ->
exists s', complete f (Response 200 body) s = (Ok tt, s') /\
  (fun i => (oid i, payload i, attempts i)) <$> queue s' = (fun i => (oid i, payload i, attempts i)) <$> q /\
  last_failure s' = None /\ last_success_at s' = Some (if_observed f) /\
  report_url s' = match link with Some u => Some u | None => report_url s end /\
  status s' = (if decide (if_previous f = RETRY_WAIT \/ if_previous f = DEGRADED
                          \/ if_previous f = FAILED \/ 1 < attempts (if_item f))
               then RECOVERED else SUCCESS).
Proof.
intros Hq Hg Hl Hh Hd. unfold Reporting.complete. rewrite Hg, Nat.eqb_refl. cbn [negb].
rewrite Z.eqb_refl. unfold Reporting.accepted. rewrite Hl.
set (s0 := if is_some link then set_url link (set_http (Some 200) s) else set_http (Some 200) s).
assert (queue s0 = if_item f :: q) as Hq0 by (by destruct link).
unfold pop0. rewrite Hq0, Hh.
assert (bool_decide (if_previous f ∈ [RETRY_WAIT; DEGRADED; FAILED]) || (1 <? attempts (if_item f)) =
  bool_decide (if_previous f = RETRY_WAIT \/ if_previous f = DEGRADED
                          \/ if_previous f = FAILED \/ 1 < attempts (if_item f))) as ->.
{ apply Bool.eq_iff_eq_true. rewrite orb_true_iff, !bool_decide_eq_true, Z.ltb_lt.
  rewrite !elem_of_cons, elem_of_nil. tauto. }
rewrite <- decide_bool_decide.
assert (exists due, (match hint ≫= add_seconds (if_observed f), hint with
         None, Some _ => False | d, _ => d = due end)) as [due Hdue].
{ destruct hint as [n|]; [|by exists None]. cbn. destruct (Hd n eq_refl) as [d ->]. by eexists. }
destruct (hint ≫= _) as [dd|]; [|destruct hint; [done|]]; subst due;
  (eexists; split; [reflexivity|]; cbn; destruct q; cbn; repeat split; by destruct link).
Qed.
End Facts.

(** *** Instances and examples *)
Definition url_ok (text : string) : option url_parts :=
  Some {| scheme := "https"; hostname := Some "example.org"; username := None; password := None |}.
Definition no_str (j : json) : string := "".
Definition no_dec (n : Z) : string := "503".
Definition no_iso (d : datetime) : string := "".
Definition at_s (n : Z) : datetime := {| dt_us := n * SECOND; dt_offset := Some 0 |}.
Definition sample_payload : ReportPayload :=
  {| timeStamp := "t"; eventType := "START"; reason := ""; timeIntoTrack := 0;
     playbackDelay := 0; absolutePlayPoint := ""; reasonSubCode := "" |}.
Definition step0 := reporting_step url_ok no_str no_dec no_iso DEFAULT_RETRY_BACKOFF_SECONDS.

Definition enqueued (c : scheduler) : scheduler :=
  use_fresh (with_session (enqueue url_ok no_str (fresh c) (at_s 100) "a" sample_payload
                             (Some "https://example.org/r") None (session c)).2 c).
Definition one_event : scheduler := enqueued empty_scheduler.
Definition in_flight : scheduler := begin_process no_iso "b" (at_s 101) None one_event.
Definition the_op (c : scheduler) : operation :=
  default {| o_request := {| if_item := {| oid := 0; item_id := ""; payload := sample_payload; attempts := 0;
      due_at := None; last_error := None; created_at := at_s 0 |}; if_generation := 0;
      if_previous := IDLE; if_observed := at_s 0 |}; o_timer := None; o_sent := false |} (op c).
Definition posted : scheduler := send (the_op in_flight) in_flight.

(** An exception of a request whose session was cancelled meanwhile: the cancelled,
    empty session is put back into RETRY_WAIT with a due time. *)
Example cancelled_then_transport_error :
  let c := end_process url_ok no_str no_dec DEFAULT_RETRY_BACKOFF_SECONDS (the_op posted)
             (Raised "ReadTimeout") (cancel true posted) in
  queue (session c) = [] /\ status (session c) = RETRY_WAIT /\ next_due_at (session c) = Some (at_s 106).
Proof. vm_compute. by repeat split. Qed.

(** A refused attempt of the event, long after the previous one. *)
Definition attempt (now : Z) (c : scheduler) : scheduler :=
  let c := begin_process no_iso "b" (at_s now) None c in send (the_op c) c.
Definition refused_attempt (c : scheduler) (now : Z) : scheduler :=
  let c := attempt now c in
  end_process url_ok no_str no_dec DEFAULT_RETRY_BACKOFF_SECONDS (the_op c) (Response 503 None) c.

(** A session that is cancelled during the sixth attempt keeps the event: it is posted a
    seventh time. *)
Example sixth_attempt_cancelled :
  let c := attempt 6000 (foldl refused_attempt one_event [1000; 2000; 3000; 4000; 5000]) in
  let c := end_process url_ok no_str no_dec DEFAULT_RETRY_BACKOFF_SECONDS (the_op c) (Response 503 None) (cancel false c) in
  count (sent c) 0 = 6 /\ (attempts <$> queue (session c)) = [6] /\ count (sent (attempt 7000 c)) 0 = 7.
Proof. vm_compute. by repeat split. Qed.

(** An infinite [nextReportIn] after the event was taken off the queue. *)
Example infinite_next_report :
  let c := end_process url_ok no_str no_dec DEFAULT_RETRY_BACKOFF_SECONDS (the_op posted)
             (Response 200 (Some (JObj [("nextReportIn", JNum (PFloat (FInf false)))]))) posted in
  queue (session c) = [] /\ status (session c) = RETRY_WAIT.
Proof. vm_compute. by repeat split. Qed.

Lemma queue_bounded_witness :
  rtc step0 empty_scheduler one_event /\ queue_depth (session one_event) <= REPORT_QUEUE_CAPACITY
  /\ NoDup (oids (session one_event)).
Proof.
  assert (H : rtc step0 empty_scheduler one_event).
  { apply rtc_once. apply (r_enqueue url_ok no_str no_dec no_iso DEFAULT_RETRY_BACKOFF_SECONDS). }
  split; [exact H|]. exact (queue_bounded url_ok no_str no_dec no_iso _ one_event H).
Defined.

Lemma at_most_six_sends_witness :
  rtc (undisturbed_step url_ok no_str no_dec no_iso DEFAULT_RETRY_BACKOFF_SECONDS) empty_scheduler posted
  /\ count (sent posted) 0 = 1 /\ count (sent posted) 0 <= REPORT_MAX_ATTEMPTS.
Proof.
  assert (H : rtc (undisturbed_step url_ok no_str no_dec no_iso DEFAULT_RETRY_BACKOFF_SECONDS)
                empty_scheduler posted).
  { apply rtc_l with one_event.
    { apply u_step; [apply r_enqueue|by left]. }
    apply rtc_l with in_flight.
    { apply u_step; [|by left]. by apply r_process. }
    apply rtc_once, u_step; [|by right]. by apply r_send. }
  split; [exact H|]. split; [reflexivity|].
  exact (proj1 (at_most_six_sends url_ok no_str no_dec no_iso _ posted H) 0%nat).
Defined.

Lemma retry_ladder_witness :
  exists s', complete url_ok no_str no_dec DEFAULT_RETRY_BACKOFF_SECONDS (o_request (the_op posted))
      (Response 503 None) (session posted) = (Ok tt, s')
    /\ status s' = RETRY_WAIT /\ next_due_at s' = Some (at_s 106).
Proof.
  destruct (retry_ladder url_ok no_str no_dec DEFAULT_RETRY_BACKOFF_SECONDS
    (o_request (the_op posted)) (session posted) [] (Response 503 None) "HTTP_503" (at_s 106))
    as (s' & H & _ & _ & _ & Hs & Hn).
  - reflexivity.
  - vm_compute. apply NoDup_singleton.
  - reflexivity.
  - reflexivity.
  - left. reflexivity.
  - exists s'. by split.
Defined.

Lemma success_consumes_head_witness :
  exists s', complete url_ok no_str no_dec DEFAULT_RETRY_BACKOFF_SECONDS (o_request (the_op posted))
      (Response 200 (Some (JObj [("nextReportIn", JNum (PInt 60))]))) (session posted) = (Ok tt, s')
    /\ status s' = SUCCESS.
Proof.
  destruct (success_consumes_head url_ok no_str no_dec DEFAULT_RETRY_BACKOFF_SECONDS
    (o_request (the_op posted)) (session posted) [] (Some (JObj [("nextReportIn", JNum (PInt 60))]))
    None (Some 60)) as (s' & H & _ & _ & _ & _ & Hs).
  - reflexivity.
  - reflexivity.
  - reflexivity.
  - reflexivity.
  - intros n [= <-]. by eexists.
  - exists s'. by split.
Defined.

End Reporting.
