(* ===== verification/Liveness.v ===== *)
(** * AirPlay bridge: liveness, control lease, playback events and volume
    (app/services/airplay_bridge/heartbeat.py, control_lease.py, control_owner.py,
    lifecycle.py, volume.py)

    Observations arrive as decoded JSON objects or as the bytes of a private file,
    so the checks see any JSON value.  [isfinite] of an int beyond the floats raises
    [OverflowError], which the handlers of the sources do not catch; the model keeps
    it apart from the exceptions they turn into their own [ValueError]. *)
From Stdlib Require Import Ascii String Sorted.
From S2P Require Import Prelude PyNum PyStr Json.
#[local] Open Scope string_scope.
#[local] Open Scope list_scope.
#[local] Open Scope Z_scope.

Module Liveness.

Inductive exn : Type := ValueError | OverflowError.

Definition MAX_COUNTER : Z := 2 ^ 53 - 1.
Definition FIVE : pynum := PFloat (FFin (5 * UNIT)).
Definition MINUS_ONE : pynum := PFloat (FFin (- UNIT)).

(** [a or b] of conditions that may raise. *)
Definition ror (a b : res exn bool) : res exn bool :=
  match a with Ok false => b | _ => a end.
Infix "||?" := ror (at level 50, left associativity) : py_scope.

(** [not math.isfinite(n)]. *)
Definition bad_number (n : pynum) : res exn bool :=
  match isfinite n with Ok b => Ok (negb b) | Err _ => Err OverflowError end.

Definition raise_if {S} (c : res exn bool) : ST S exn unit :=
  match c with
  | Ok true => raise ValueError
  | Ok false => mret tt
  | Err e => raise e
  end.

(** [except (ValueError, TypeError): handler; raise ValueError]. *)
Definition guarded {S A} (m : ST S exn A) (handler : S -> S) : ST S exn A :=
  try_except m (fun e => match e with
                         | OverflowError => raise OverflowError
                         | ValueError => modify handler ≫= fun _ => raise ValueError
                         end).

(** ** ReceiverHeartbeat *)
Record heartbeat := {
  max_age : pynum;
  hb_sequence : Z;
  hb_stamp : pynum;
  hb_now : pynum;
  hb_failed : bool }.

Definition ReceiverHeartbeat (age : pynum) : res exn heartbeat :=
  bad ← bad_number age ||? Ok (negb (num_lt (PInt 0) age && num_le age (PInt 5)));
  if (bad : bool) then Err ValueError
  else Ok {| max_age := age; hb_sequence := -1; hb_stamp := MINUS_ONE; hb_now := MINUS_ONE;
             hb_failed := false |}.

Definition default_heartbeat : heartbeat :=
  {| max_age := FIVE; hb_sequence := -1; hb_stamp := MINUS_ONE; hb_now := MINUS_ONE;
     hb_failed := false |}.

Definition hb_at now h := {| max_age := max_age h; hb_sequence := hb_sequence h;
  hb_stamp := hb_stamp h; hb_now := now; hb_failed := hb_failed h |}.
Definition hb_saw q t h := {| max_age := max_age h; hb_sequence := q;
  hb_stamp := t; hb_now := hb_now h; hb_failed := hb_failed h |}.
Definition hb_fail h := {| max_age := max_age h; hb_sequence := hb_sequence h;
  hb_stamp := hb_stamp h; hb_now := hb_now h; hb_failed := true |}.

(** The comparisons of the second [if], after the types and the finiteness. *)
Definition stale (h : heartbeat) (q : Z) (t now : pynum) : bool :=
  negb (num_le (PInt 0) t && num_le t now) || num_le (max_age h) (num_sub now t)
  || (q <? hb_sequence h) || num_lt t (hb_stamp h)
  || ((q =? hb_sequence h) && negb (num_eq t (hb_stamp h)))
  || ((hb_sequence h <? q) && (0 <=? hb_sequence h) && num_le t (hb_stamp h)).

Definition observation (sequence stamp : json) : json :=
  JObj [("sequence", sequence); ("observed_monotonic", stamp)].

Definition check_body (obs : json) (now : pynum) : ST heartbeat exn unit :=
  h ← gets id;
  raise_if (Ok (hb_failed h) ||? bad_number now ||? Ok (num_lt now (hb_now h)));;
  modify (hb_at now);;
  match obs with
  | JObj kvs =>
      if negb (same_set (kvs.*1) ["sequence"; "observed_monotonic"]) then raise ValueError
      else match get "sequence" kvs, get "observed_monotonic" kvs with
      | Some (JNum (PInt q)), Some (JNum t) =>
          raise_if (Ok (negb ((0 <=? q) && (q <=? MAX_COUNTER))) ||? bad_number t
                    ||? Ok (stale h q t now));;
          modify (hb_saw q t)
      | _, _ => raise ValueError
      end
  | _ => raise ValueError
  end.

Definition check (obs : json) (now : pynum) : ST heartbeat exn unit :=
  guarded (check_body obs now) hb_fail.

(** ** ControlLease *)
Record ControlState := {
  c_sequence : Z;
  c_observed : pynum;
  c_allow : bool;
  c_epoch : Z }.

Definition state_eq (a b : ControlState) : bool :=
  (c_sequence a =? c_sequence b) && num_eq (c_observed a) (c_observed b)
  && Bool.eqb (c_allow a) (c_allow b) && (c_epoch a =? c_epoch b).

Record control_lease := {
  cl_nonce : string;
  previous : option ControlState;
  cl_failed : bool;
  cl_heartbeat : heartbeat }.

Definition ControlLease (nonce : string) : res exn control_lease :=
  if is_hex_string 32 nonce
  then Ok {| cl_nonce := nonce; previous := None; cl_failed := false;
             cl_heartbeat := default_heartbeat |}
  else Err ValueError.

Definition cl_with_heartbeat h l := {| cl_nonce := cl_nonce l; previous := previous l;
  cl_failed := cl_failed l; cl_heartbeat := h |}.
Definition cl_saw r l := {| cl_nonce := cl_nonce l; previous := Some r;
  cl_failed := cl_failed l; cl_heartbeat := cl_heartbeat l |}.
Definition cl_fail l := {| cl_nonce := cl_nonce l; previous := previous l;
  cl_failed := true; cl_heartbeat := cl_heartbeat l |}.

Definition lease_check (obs : json) (now : pynum) : ST control_lease exn unit :=
  fun l => let '(r, h) := check obs now (cl_heartbeat l) in (r, cl_with_heartbeat h l).

Definition LEASE_KEYS : list string :=
  ["version"; "nonce"; "sequence"; "observed_monotonic"; "allow_audio"; "hold_epoch"].

(** [type(v) is int and lo <= v <= 2**53-1]. *)
Definition counter (v : option json) : bool :=
  match v with Some (JNum (PInt n)) => (0 <=? n) && (n <=? MAX_COUNTER) | _ => false end.
Definition is_int (n : Z) (v : option json) : bool :=
  match v with Some (JNum (PInt m)) => m =? n | _ => false end.
Definition is_str (s : string) (v : option json) : bool :=
  match v with Some (JStr t) => bool_decide (t = s) | _ => false end.
Definition is_bool (v : option json) : bool :=
  match v with Some (JBool _) => true | _ => false end.

Definition lease_value_ok (nonce : string) (kvs : list (string * json)) : bool :=
  same_set (kvs.*1) LEASE_KEYS
  && is_int 1 (get "version" kvs) && is_str nonce (get "nonce" kvs)
  && is_bool (get "allow_audio" kvs) && counter (get "hold_epoch" kvs).

Definition recheck_previous (now : pynum) : ST control_lease exn unit :=
  l ← gets id;
  match previous l with
  | Some p => lease_check (observation (JNum (PInt (c_sequence p))) (JNum (c_observed p))) now
  | None => mret tt
  end.

(** The record may not go back, and audio closes only under a new epoch. *)
Definition lease_conflict (old : option ControlState) (r : ControlState) : bool :=
  match old with
  | None => false
  | Some o =>
      ((c_sequence r =? c_sequence o) && negb (state_eq r o))
      || (c_epoch r <? c_epoch o)
      || (c_allow o && negb (c_allow r) && (c_epoch r =? c_epoch o))
  end.

Definition accept_record (sq st : json) (allow : bool) (epoch : Z) (now : pynum)
    : ST control_lease exn ControlState :=
  recheck_previous now;;
  lease_check (observation sq st) now;;
  match sq, st with
  | JNum (PInt q), JNum t =>
      let r := {| c_sequence := q; c_observed := t; c_allow := allow; c_epoch := epoch |} in
      l ← gets id;
      if lease_conflict (previous l) r then raise ValueError
      else modify (cl_saw r);; mret r
  | _, _ => raise ValueError          (* refused by the check above *)
  end.

Definition accept_body (raw : string) (now : pynum) : ST control_lease exn ControlState :=
  l ← gets id;
  if cl_failed l || (2048 <? Z.of_nat (String.length raw)) then raise ValueError
  else match loads unique_pairs raw with
  | Some (JObj kvs) =>
      if negb (lease_value_ok (cl_nonce l) kvs) then raise ValueError
      else match get "sequence" kvs, get "observed_monotonic" kvs, get "allow_audio" kvs,
                 get "hold_epoch" kvs with
      | Some sq, Some st, Some (JBool allow), Some (JNum (PInt epoch)) =>
          accept_record sq st allow epoch now
      | _, _, _, _ => raise ValueError
      end
  | _ => raise ValueError
  end.

Definition accept (raw : string) (now : pynum) : ST control_lease exn ControlState :=
  guarded (accept_body raw now) cl_fail.

(** ** PilotPlayback and PlaybackCursor *)
Inductive play_state : Type := WAITING | PLAYING | PAUSED | ENDED.

#[export] Instance play_state_eq_dec : EqDecision play_state.
Proof. solve_decision. Defined.

Definition state_value (s : play_state) : string :=
  match s with WAITING => "WAITING" | PLAYING => "PLAYING" | PAUSED => "PAUSED" | ENDED => "ENDED" end.
Definition STATES : list play_state := [WAITING; PLAYING; PAUSED; ENDED].
Definition state_of (v : string) : option play_state :=
  head (filter (fun s => state_value s = v) STATES).

Definition CONTROL_CODES : list string := ["pbeg"; "pend"; "pfls"; "prsm"; "paus"; "pres"].

Definition ends_stream (kind code : string) : bool :=
  bool_decide (kind = "ssnc") && bool_decide (code = "pend").

Record PilotPlayback := { p_state : play_state; p_sequence : Z; buffer_epoch : Z }.

#[export] Instance PilotPlayback_eq_dec : EqDecision PilotPlayback.
Proof. solve_decision. Defined.

Definition new_playback : PilotPlayback := {| p_state := WAITING; p_sequence := 0; buffer_epoch := 0 |}.

Definition apply_event (kind code : string) (p : PilotPlayback) : bool * PilotPlayback :=
  if bool_decide (kind <> "ssnc") || bool_decide (code ∉ CONTROL_CODES)
     || bool_decide (p_state p = ENDED)
  then (false, p)
  else
    let '(s, e) :=
      if (MAX_COUNTER - 1 <=? p_sequence p) || (MAX_COUNTER - 1 <=? buffer_epoch p)
      then (ENDED, buffer_epoch p)
      else if ends_stream kind code then (ENDED, buffer_epoch p + 1)
      else if bool_decide (code ∈ ["paus"; "pfls"]) then (PAUSED, buffer_epoch p + 1)
      else if bool_decide (code ∈ ["pres"; "prsm"]) || bool_decide (p_state p = WAITING)
      then (PLAYING, buffer_epoch p)
      else (p_state p, buffer_epoch p) in
    (true, {| p_state := s; p_sequence := p_sequence p + 1; buffer_epoch := e |}).

Definition snapshot (p : PilotPlayback) : json :=
  JObj [("state", JStr (state_value (p_state p))); ("sequence", JNum (PInt (p_sequence p)));
        ("buffer_epoch", JNum (PInt (buffer_epoch p)))].

Definition parse_snapshot (value : json) : option PilotPlayback :=
  match value with
  | JObj kvs =>
      if negb (same_set (kvs.*1) ["state"; "sequence"; "buffer_epoch"]) then None
      else match get "state" kvs, get "sequence" kvs, get "buffer_epoch" kvs with
      | Some (JStr s), Some (JNum (PInt q)), Some (JNum (PInt e)) =>
          s ← state_of s;
          if (0 <=? q) && (q <=? MAX_COUNTER) && (0 <=? e) && (e <=? MAX_COUNTER) && (e <=? q)
          then Some {| p_state := s; p_sequence := q; buffer_epoch := e |} else None
      | _, _, _ => None
      end
  | _ => None
  end.

(** [PlaybackCursor.accept]: the state is [_previous]. *)
Definition cursor_accept (value : json) : ST (option PilotPlayback) exn bool :=
  match parse_snapshot value with
  | None => raise ValueError
  | Some v =>
      old ← gets id;
      match old with
      | Some o =>
          if bool_decide (v = o) then mret false
          else if (p_sequence v <=? p_sequence o) || (buffer_epoch v <? buffer_epoch o)
                  || bool_decide (p_state o = ENDED) then raise ValueError
          else modify (fun _ => Some v);; mret true
      | None => modify (fun _ => Some v);; mret true
      end
  end.

(** ** Volume *)
Record VolumeIntent := { requested : Z; applied : Z; muted : bool; limited : bool }.

Definition HALF : pynum := PFloat (FFin (2 ^ 1073)).

Definition slider (db : pynum) : Z :=
  num_floor (num_add (num_div (num_mul (num_add db (PInt 30)) (PInt 100)) (PInt 30)) HALF).

Definition project_volume (db : pynum) (maximum : Z) : res exn VolumeIntent :=
  if negb ((1 <=? maximum) && (maximum <=? 100)) then Err ValueError
  else
    bad ← bad_number db ||? Ok (negb (num_le (PInt (-30)) db && num_le db (PInt 0)
                                      || num_eq db (PInt (-144))));
    if (bad : bool) then Err ValueError
    else
      let m := num_eq db (PInt (-144)) in
      let r := if m then 0 else slider db in
      let a := Z.min r maximum in
      Ok {| requested := r; applied := a; muted := m; limited := negb (r =? a) |}.

Record volume_cursor := { v_generation : Z; v_maximum : Z; v_sequence : Z; v_closed : bool }.

Definition SessionVolumeCursor (generation maximum : Z) : res exn volume_cursor :=
  if generation <? 1 then Err ValueError
  else _ ← project_volume (PInt (-30)) maximum;
       Ok {| v_generation := generation; v_maximum := maximum; v_sequence := -1; v_closed := false |}.

Definition consume (generation sequence : Z) (db : pynum)
    : ST volume_cursor exn (option VolumeIntent) :=
  v ← gets id;
  if v_closed v || negb (generation =? v_generation v) || (sequence <? 0)
     || (sequence <=? v_sequence v) then mret None
  else
    r ← of_res (project_volume db (v_maximum v));
    modify (fun v => {| v_generation := v_generation v; v_maximum := v_maximum v;
                        v_sequence := sequence; v_closed := v_closed v |});;
    mret (Some r).

Definition close (v : volume_cursor) : volume_cursor :=
  {| v_generation := v_generation v; v_maximum := v_maximum v; v_sequence := v_sequence v;
     v_closed := true |}.

(** ** AudioControl

    An exchange awaits the port's [publish] and then its acknowledgements; other
    tasks may run at every await, so the exchange is cut there.  [published] and
    [confirmed] record the commands handed to the port and the acknowledgements
    returned to the callers. *)
Record audio_ack := {
  a_sequence : Z;
  a_observed : pynum;
  a_command : Z;
  a_epoch : Z;
  a_allow : bool;
  a_released : bool }.

Definition ack_eq (a b : audio_ack) : bool :=
  (a_sequence a =? a_sequence b) && num_eq (a_observed a) (a_observed b)
  && (a_command a =? a_command b) && (a_epoch a =? a_epoch b)
  && Bool.eqb (a_allow a) (a_allow b) && Bool.eqb (a_released a) (a_released b).

Record command := { k_sequence : Z; k_allow : bool; k_epoch : Z }.

Inductive phase : Type := Publishing | Awaiting.
Record exchange := { x_revision : nat; x_phase : phase }.

Record audio_control := {
  ac_nonce : string;
  ac_lease : control_lease;
  ac_sequence : Z;
  ac_epoch : Z;
  ac_allowed : bool;
  ac_failed : bool;
  ac_revision : nat;
  ack_heartbeat : heartbeat;
  previous_ack : option audio_ack;
  ac_op : option exchange;               (* the holder of the lock *)
  published : list command;
  confirmed : list audio_ack }.

Definition AudioControl (nonce : string) : res exn audio_control :=
  l ← ControlLease nonce;
  Ok {| ac_nonce := nonce; ac_lease := l; ac_sequence := 0; ac_epoch := 0; ac_allowed := false;
        ac_failed := false; ac_revision := 0; ack_heartbeat := default_heartbeat;
        previous_ack := None; ac_op := None; published := []; confirmed := [] |}.

Definition revoke (c : audio_control) : audio_control :=
  {| ac_nonce := ac_nonce c; ac_lease := ac_lease c; ac_sequence := ac_sequence c;
     ac_epoch := ac_epoch c; ac_allowed := false; ac_failed := true;
     ac_revision := S (ac_revision c); ack_heartbeat := ack_heartbeat c;
     previous_ack := previous_ack c; ac_op := ac_op c; published := published c;
     confirmed := confirmed c |}.
Definition set_op o c :=
  {| ac_nonce := ac_nonce c; ac_lease := ac_lease c; ac_sequence := ac_sequence c;
     ac_epoch := ac_epoch c; ac_allowed := ac_allowed c; ac_failed := ac_failed c;
     ac_revision := ac_revision c; ack_heartbeat := ack_heartbeat c;
     previous_ack := previous_ack c; ac_op := o; published := published c;
     confirmed := confirmed c |}.
Definition set_lease l c :=
  {| ac_nonce := ac_nonce c; ac_lease := l; ac_sequence := ac_sequence c;
     ac_epoch := ac_epoch c; ac_allowed := ac_allowed c; ac_failed := ac_failed c;
     ac_revision := ac_revision c; ack_heartbeat := ack_heartbeat c;
     previous_ack := previous_ack c; ac_op := ac_op c; published := published c;
     confirmed := confirmed c |}.
Definition set_ack_heartbeat h c :=
  {| ac_nonce := ac_nonce c; ac_lease := ac_lease c; ac_sequence := ac_sequence c;
     ac_epoch := ac_epoch c; ac_allowed := ac_allowed c; ac_failed := ac_failed c;
     ac_revision := ac_revision c; ack_heartbeat := h;
     previous_ack := previous_ack c; ac_op := ac_op c; published := published c;
     confirmed := confirmed c |}.
Definition set_previous_ack a c :=
  {| ac_nonce := ac_nonce c; ac_lease := ac_lease c; ac_sequence := ac_sequence c;
     ac_epoch := ac_epoch c; ac_allowed := ac_allowed c; ac_failed := ac_failed c;
     ac_revision := ac_revision c; ack_heartbeat := ack_heartbeat c;
     previous_ack := Some a; ac_op := ac_op c; published := published c;
     confirmed := confirmed c |}.
Definition next_command (allowed : option bool) c :=
  {| ac_nonce := ac_nonce c; ac_lease := ac_lease c; ac_sequence := ac_sequence c + 1;
     ac_epoch := match allowed with Some false => ac_epoch c + 1 | _ => ac_epoch c end;
     ac_allowed := match allowed with Some b => b | None => ac_allowed c end;
     ac_failed := ac_failed c; ac_revision := ac_revision c; ack_heartbeat := ack_heartbeat c;
     previous_ack := previous_ack c; ac_op := ac_op c; published := published c;
     confirmed := confirmed c |}.
Definition hand_over c :=
  {| ac_nonce := ac_nonce c; ac_lease := ac_lease c; ac_sequence := ac_sequence c;
     ac_epoch := ac_epoch c; ac_allowed := ac_allowed c; ac_failed := ac_failed c;
     ac_revision := ac_revision c; ack_heartbeat := ack_heartbeat c;
     previous_ack := previous_ack c;
     ac_op := Some {| x_revision := ac_revision c; x_phase := Publishing |};
     published := published c ++ [{| k_sequence := ac_sequence c; k_allow := ac_allowed c;
                                     k_epoch := ac_epoch c |}];
     confirmed := confirmed c |}.
Definition returned a c :=
  {| ac_nonce := ac_nonce c; ac_lease := ac_lease c; ac_sequence := ac_sequence c;
     ac_epoch := ac_epoch c; ac_allowed := ac_allowed c; ac_failed := ac_failed c;
     ac_revision := ac_revision c; ack_heartbeat := ack_heartbeat c;
     previous_ack := previous_ack c; ac_op := None; published := published c;
     confirmed := confirmed c ++ [a] |}.

Definition ack_check (obs : json) (now : pynum) : ST audio_control exn unit :=
  fun c => let '(r, h) := check obs now (ack_heartbeat c) in (r, set_ack_heartbeat h c).
Definition held_lease_check (obs : json) (now : pynum) : ST audio_control exn unit :=
  fun c => let '(r, l) := lease_check obs now (ac_lease c) in (r, set_lease l c).

Definition num_observation (q : Z) (t : pynum) : json := observation (JNum (PInt q)) (JNum t).

(** [now1], [now2]: the two readings of the clock. *)
Definition require_held (now1 now2 : pynum) : ST audio_control exn unit :=
  c ← gets id;
  if ac_failed c then raise ValueError
  else match previous (ac_lease c), previous_ack c with
  | Some p, Some a =>
      if c_allow p || ac_allowed c || a_allow a || a_released a then raise ValueError
      else guarded (held_lease_check (num_observation (c_sequence p) (c_observed p)) now1;;
                    ack_check (num_observation (a_sequence a) (a_observed a)) now2) revoke
  | _, _ => raise ValueError
  end.

Definition ACK_KEYS : list string :=
  ["version"; "nonce"; "sequence"; "observed_monotonic"; "command_sequence"; "hold_epoch";
   "allow_audio"; "audio_released"].

Definition ack_conflict (old : option audio_ack) (a : audio_ack) : bool :=
  match old with
  | None => false
  | Some o => ((a_sequence o =? a_sequence a) && negb (ack_eq o a))
              || (a_command a <? a_command o) || (a_epoch a <? a_epoch o)
  end.

Definition parse_ack (raw : string) (now : pynum) : ST audio_control exn audio_ack :=
  if 2048 <? Z.of_nat (String.length raw) then raise ValueError
  else match loads unique_pairs raw with
  | Some (JObj kvs) =>
      c ← gets id;
      if negb (same_set (kvs.*1) ACK_KEYS && is_int 1 (get "version" kvs)
               && is_str (ac_nonce c) (get "nonce" kvs)) then raise ValueError
      else match get "command_sequence" kvs, get "hold_epoch" kvs, get "allow_audio" kvs,
                 get "audio_released" kvs, get "sequence" kvs, get "observed_monotonic" kvs with
      | Some (JNum (PInt k)), Some (JNum (PInt e)), Some (JBool al), Some (JBool rel), Some sq, Some st =>
          if negb (counter (get "command_sequence" kvs) && counter (get "hold_epoch" kvs))
          then raise ValueError
          else
            ack_check (observation sq st) now;;
            match sq, st with
            | JNum (PInt q), JNum t =>
                let a := {| a_sequence := q; a_observed := t; a_command := k; a_epoch := e;
                            a_allow := al; a_released := rel |} in
                c ← gets id;
                if ack_conflict (previous_ack c) a then raise ValueError
                else modify (set_previous_ack a);; mret a
            | _, _ => raise ValueError          (* refused by the check above *)
            end
      | _, _, _, _, _, _ => raise ValueError
      end
  | _ => raise ValueError
  end.

(** [except BaseException: self.revoke(); raise], which also ends the exchange. *)
Definition abandon (c : audio_control) : audio_control := set_op None (revoke c).

Definition exchange_ok (x : exchange) (c : audio_control) : bool :=
  negb (ac_failed c) && Nat.eqb (x_revision x) (ac_revision c).

Section Owner.
Context (float_repr : Z -> list Z).

(** [json.dumps] of a flat dict, with the default separators. *)
Fixpoint spaced (l : list (list Z)) : list Z :=
  match l with
  | [] => []
  | [x] => x
  | x :: l => x ++ bytes_of ", " ++ spaced l
  end.
Definition dumps_flat (kvs : list (string * json)) : string :=
  string_of (123 :: spaced (map (fun kv => print_string kv.1 ++ bytes_of ": "
                                            ++ print float_repr kv.2) kvs) ++ [125]).

Definition command_text (c : audio_control) (now : pynum) : string :=
  dumps_flat [("version", JNum (PInt 1)); ("nonce", JStr (ac_nonce c));
              ("sequence", JNum (PInt (ac_sequence c))); ("observed_monotonic", JNum now);
              ("allow_audio", JBool (ac_allowed c)); ("hold_epoch", JNum (PInt (ac_epoch c)))].

(** [_exchange] from the free lock to the call of [publish]. *)
Definition begin_exchange (allowed : option bool) (now : pynum) (c : audio_control)
    : audio_control :=
  if ac_failed c then c
  else
    let c := next_command allowed c in
    match accept (command_text c now) now (ac_lease c) with
    | (Ok _, l) => hand_over (set_lease l c)
    | (Err _, l) => abandon (set_lease l c)
    end.

(** [publish] returned. *)
Definition publish_done (x : exchange) (c : audio_control) : audio_control :=
  if exchange_ok x c
  then set_op (Some {| x_revision := x_revision x; x_phase := Awaiting |}) c
  else abandon c.

(** An acknowledgement was read. *)
Definition ack_read (x : exchange) (raw : string) (now : pynum) (c : audio_control)
    : audio_control :=
  match parse_ack raw now c with
  | (Err _, c) => abandon c
  | (Ok a, c) =>
      if negb (exchange_ok x c) then abandon c
      else if (ac_sequence c <? a_command a) || (ac_epoch c <? a_epoch a) then abandon c
      else if a_command a =? ac_sequence c then
        if negb (a_epoch a =? ac_epoch c) || negb (Bool.eqb (a_allow a) (ac_allowed c))
           || (negb (ac_allowed c) && a_released a) then abandon c
        else returned a c
      else c
  end.

(** There was no file yet. *)
Definition ack_missing (x : exchange) (c : audio_control) : audio_control :=
  if exchange_ok x c then c else abandon c.

Inductive audio_step (c : audio_control) : audio_control -> Prop :=
| a_begin allowed now : ac_op c = None -> audio_step c (begin_exchange allowed now c)
| a_published x : ac_op c = Some x -> x_phase x = Publishing -> audio_step c (publish_done x c)
| a_read x raw now : ac_op c = Some x -> x_phase x = Awaiting -> audio_step c (ack_read x raw now c)
| a_missing x : ac_op c = Some x -> x_phase x = Awaiting -> audio_step c (ack_missing x c)
| a_interrupted x : ac_op c = Some x -> audio_step c (abandon c)
| a_revoked : audio_step c (revoke c)
| a_required now1 now2 : audio_step c (require_held now1 now2 c).2.

End Owner.

(** ** Facts about the checks *)
Lemma ror_false a b : a ||? b = Ok false <-> a = Ok false /\ b = Ok false.
Proof. destruct a as [[|]|e]; cbn; split; try done; by intros []. Qed.

Lemma raise_if_Ok {S} c (s s' : S) u : raise_if c s = (Ok u, s') -> c = Ok false /\ s' = s.
Proof. destruct c as [[|]|e]; cbn; intros H; try discriminate H. by injection H. Qed.

Lemma guarded_Ok {S A} (m : ST S exn A) h s a s' : guarded m h s = (Ok a, s') -> m s = (Ok a, s').
Proof. unfold guarded, try_except. destruct (m s) as [[x|[|]] s1]; cbn; try done. Qed.

Lemma guarded_Err {S A} (m : ST S exn A) h s e s' : guarded m h s = (Err e, s') ->
  (e = OverflowError /\ m s = (Err OverflowError, s')) \/
  (e = ValueError /\ exists s1, m s = (Err ValueError, s1) /\ s' = h s1).
Proof.
  unfold guarded, try_except. destruct (m s) as [[x|[|]] s1]; cbn; try done; intros [= <- <-]; eauto.
Qed.

Lemma bad_number_false n : bad_number n = Ok false <-> isfinite n = Ok true.
Proof. unfold bad_number. destruct (isfinite n) as [[|]|e]; cbn; split; done. Qed.

(** A heartbeat that was accepted. *)
Record beat (h : heartbeat) (q : Z) (t now : pynum) : Prop := {
  b_live : hb_failed h = false;
  b_now : isfinite now = Ok true;
  b_clock : num_lt now (hb_now h) = false;
  b_range : 0 <= q <= MAX_COUNTER;
  b_stamp : isfinite t = Ok true;
  b_fresh : stale h q t now = false }.

Lemma check_Ok obs now h u h' : check obs now h = (Ok u, h') ->
  exists kvs q t, obs = JObj kvs /\ get "sequence" kvs = Some (JNum (PInt q))
    /\ get "observed_monotonic" kvs = Some (JNum t)
    /\ beat h q t now /\ h' = hb_saw q t (hb_at now h).
Proof.
  unfold check. intros H%guarded_Ok. unfold check_body in H.
  apply st_bind_Ok in H as (h0 & s0 & [= <- <-] & H).
  apply st_bind_Ok in H as ([] & s1 & H1 & H). apply raise_if_Ok in H1 as [H1 ->].
  apply ror_false in H1 as [H1 H3]. apply ror_false in H1 as [H1 H2].
  injection H1 as H1. injection H3 as H3. apply bad_number_false in H2.
  apply st_bind_Ok in H as ([] & s2 & [= <-] & H).
  destruct obs as [| | | | |kvs]; try discriminate H.
  destruct (negb _); [discriminate H|].
  destruct (get "sequence" kvs) as [[| |[q|]| | |]|] eqn:Eq; try discriminate H.
  destruct (get "observed_monotonic" kvs) as [[| |t| | |]|] eqn:Et; try discriminate H.
  apply st_bind_Ok in H as ([] & s2 & H4 & [= <-]). apply raise_if_Ok in H4 as [H4 ->].
  apply ror_false in H4 as [H4 H6]. apply ror_false in H4 as [H4 H5].
  injection H4 as H4. injection H6 as H6. apply bad_number_false in H5. bdestr.
  exists kvs, q, t. split; [done|]. split; [done|]. split; [done|]. split; [|done]. by split.
Qed.

Lemma observation_Ok sq st now h u h' : check (observation sq st) now h = (Ok u, h') ->
  exists q t, sq = JNum (PInt q) /\ st = JNum t /\ beat h q t now /\ h' = hb_saw q t (hb_at now h).
Proof.
  intros (kvs & q & t & [= <-] & Hq & Ht & Hb & ->)%check_Ok.
  cbn in Hq, Ht. injection Hq as ->. injection Ht as ->. by exists q, t.
Qed.

(** Failing is for ever, and only [OverflowError] leaves no trace. *)
Lemma check_Err obs now h e h' : check obs now h = (Err e, h') ->
  e = ValueError -> hb_failed h' = true.
Proof. intros [[-> _]|(-> & s1 & _ & ->)]%guarded_Err; done. Qed.

Lemma check_failed obs now h : hb_failed h = true -> check obs now h = (Err ValueError, hb_fail h).
Proof.
  intros Hf. unfold check, guarded, try_except, check_body, mbind, st_bind, gets, id. by rewrite Hf.
Qed.

(** ** The history of a control lease *)
Lemma num_le_FIVE z : num_le FIVE z = num_le (PInt 5) z.
Proof. by destruct z as [n|[]]. Qed.

Lemma num_le_finite a b x y : finite a = Some x -> finite b = Some y -> num_le a b = (x <=? y).
Proof.
  destruct a as [n|[z|s|]], b as [n'|[z'|s'|]]; cbn; intros H1 H2; simplify_eq; done.
Qed.

(** A stamp in the past of a clock reading, by less than five seconds. *)
Definition recent (stamp now : pynum) : Prop :=
  forall x y, finite stamp = Some x -> clock_reading now y -> 0 <= x -> x <= y < x + 5 * UNIT.

Lemma stale_recent h q t now : max_age h = FIVE -> stale h q t now = false ->
  num_le (PInt 0) t = true /\ recent t now.
Proof.
  intros Hm Hs. unfold stale in Hs. rewrite Hm, num_le_FIVE in Hs. bdestr. split; [done|].
  intros x y Hx Hy Hx0.
  assert (x <= y) as Hxy.
  { destruct Hy as [Hf _]. rewrite (num_le_finite t now x y) in * by done. by bdestr. }
  pose proof (num_sub_lt_unit now t y x 5) as Hlt. unfold clock_reading in *.
  destruct Hy as [Hf Hy]. specialize (Hlt ltac:(split; [done|lia]) ltac:(split; [done|lia]) Hxy
    ltac:(lia) ltac:(assumption)). lia.
Qed.

Lemma lease_check_eq obs now l r l' : lease_check obs now l = (r, l') ->
  check obs now (cl_heartbeat l) = (r, cl_heartbeat l') /\ l' = cl_with_heartbeat (cl_heartbeat l') l.
Proof.
  unfold lease_check. destruct (check obs now (cl_heartbeat l)) as [r1 h]. intros [= <- <-]. done.
Qed.

Lemma recheck_Ok now l u l' : recheck_previous now l = (Ok u, l') ->
  l' = cl_with_heartbeat (cl_heartbeat l') l /\
  match previous l with
  | None => cl_heartbeat l' = cl_heartbeat l
  | Some p => beat (cl_heartbeat l) (c_sequence p) (c_observed p) now
              /\ cl_heartbeat l' = hb_saw (c_sequence p) (c_observed p) (hb_at now (cl_heartbeat l))
  end.
Proof.
  unfold recheck_previous. intros H. apply st_bind_Ok in H as (l0 & s0 & [= <- <-] & H).
  change (id l) with l in H. destruct (previous l) as [p|] eqn:Ep.
  - apply lease_check_eq in H as [H ->]. cbn in *. split; [done|].
    apply observation_Ok in H as (q & t & [= <-] & [= <-] & Hb & Hh). done.
  - injection H as _ <-. by destruct l.
Qed.

Record accepted (l : control_lease) (now : pynum) (r : ControlState) (l' : control_lease) : Prop := {
  ac_live : cl_failed l = false;
  ac_live' : cl_failed l' = false;
  ac_saw : previous l' = Some r;
  ac_free : lease_conflict (previous l) r = false;
  ac_epoch_range : 0 <= c_epoch r <= MAX_COUNTER;
  ac_beat : exists h, beat h (c_sequence r) (c_observed r) now
     /\ max_age h = max_age (cl_heartbeat l)
     /\ cl_heartbeat l' = hb_saw (c_sequence r) (c_observed r) (hb_at now h)
     /\ match previous l with
        | None => h = cl_heartbeat l
        | Some p => beat (cl_heartbeat l) (c_sequence p) (c_observed p) now
                    /\ h = hb_saw (c_sequence p) (c_observed p) (hb_at now (cl_heartbeat l))
        end }.

Lemma accept_Ok raw now l r l' : accept raw now l = (Ok r, l') -> accepted l now r l'.
Proof.
  intros H%guarded_Ok. unfold accept_body in H.
  apply st_bind_Ok in H as (l0 & s0 & [= <- <-] & H). change (id l) with l in H.
  destruct (cl_failed l || _) eqn:Ef; [discriminate H|]. bdestr.
  destruct (loads unique_pairs raw) as [[| | | | |kvs]|]; try discriminate H.
  destruct (negb (lease_value_ok _ kvs)) eqn:Ev; [discriminate H|].
  destruct (get "sequence" kvs) as [sq|]; [|discriminate H].
  destruct (get "observed_monotonic" kvs) as [st|]; [|discriminate H].
  destruct (get "allow_audio" kvs) as [[|allow| | | |]|]; try discriminate H.
  destruct (get "hold_epoch" kvs) as [[| |[epoch|]| | |]|] eqn:Ee; try discriminate H.
  unfold lease_value_ok in Ev. rewrite Ee in Ev. cbn [counter] in Ev. bdestr.
  unfold accept_record in H. apply st_bind_Ok in H as (u1 & s1 & Hr & H).
  apply recheck_Ok in Hr as [Hs1 Hp]. apply st_bind_Ok in H as (u2 & s2 & Hk & H).
  apply lease_check_eq in Hk as [Hk Hs2].
  apply observation_Ok in Hk as (q & t & -> & -> & Hb & Hh).
  apply st_bind_Ok in H as (l0 & s0 & [= <- <-] & H). change (id s2) with s2 in H.
  destruct (lease_conflict _ _) eqn:Ec; [discriminate H|].
  apply st_bind_Ok in H as (u3 & s3 & [= <-] & [= <- <-]).
  assert (previous s2 = previous l) as Hpl by (by rewrite Hs2, Hs1). rewrite Hpl in Ec.
  subst s3. split; [done| |done|done|cbn; lia|].
  { change (cl_failed s2 = false). rewrite Hs2, Hs1. done. }
  exists (cl_heartbeat s1). split; [done|]. split.
  - destruct (previous l); [by destruct Hp as [_ ->]|by rewrite Hp].
  - split; [exact Hh|]. destruct (previous l); [by destruct Hp|done].
Qed.

Lemma accept_failed raw now l : cl_failed l = true -> accept raw now l = (Err ValueError, cl_fail l).
Proof.
  intros Hf. unfold accept, guarded, try_except, accept_body, mbind, st_bind, gets, id. by rewrite Hf.
Qed.

Lemma accept_Err raw now l l' : accept raw now l = (Err ValueError, l') -> cl_failed l' = true.
Proof. intros [[? _]|(_ & s1 & _ & ->)]%guarded_Err; done. Qed.

(** The bound of a heartbeat never changes. *)
Definition same_age (h h' : heartbeat) : Prop := max_age h' = max_age h.
#[export] Instance same_age_preorder : PreOrder same_age.
Proof. split; unfold same_age; congruence. Qed.

Lemma raise_if_steps {S} (R : S -> S -> Prop) `{!PreOrder R} c : steps_in R (raise_if c).
Proof. intros s. by destruct c as [[|]|e]. Qed.

Lemma modify_steps {S} (R : S -> S -> Prop) f : (forall s, R s (f s)) -> steps_in R (modify f : ST S exn unit).
Proof. intros H s. apply H. Qed.

Lemma guarded_steps {S A} (R : S -> S -> Prop) `{!PreOrder R} (m : ST S exn A) f :
  steps_in R m -> (forall s, R s (f s)) -> steps_in R (guarded m f).
Proof.
  intros Hm Hf. unfold guarded. apply steps_in_try; [done|done|].
  intros [|]; [|by apply steps_in_raise]. apply steps_in_bind; [done|by apply modify_steps|].
  intros _. by apply steps_in_raise.
Qed.
#[local] Hint Resolve raise_if_steps modify_steps guarded_steps : py.

Lemma check_age obs now : steps_in same_age (check obs now).
Proof.
  apply guarded_steps; [apply _| |done]. unfold check_body.
  apply steps_in_bind; [apply _|apply steps_in_gets, _|intros h].
  apply steps_in_bind; [apply _|by apply raise_if_steps, _|intros _].
  apply steps_in_bind; [apply _|by apply modify_steps|intros _].
  destruct obs as [| | | | |kvs]; try (apply steps_in_raise, _).
  destruct (negb _); [apply steps_in_raise, _|].
  destruct (get _ _) as [[| |[q|]| | |]|]; try (apply steps_in_raise, _).
  destruct (get _ _) as [[| |t| | |]|]; try (apply steps_in_raise, _).
  apply steps_in_bind; [apply _|by apply raise_if_steps, _|intros _]. by apply modify_steps.
Qed.

Definition lease_age (l l' : control_lease) : Prop := same_age (cl_heartbeat l) (cl_heartbeat l').
#[export] Instance lease_age_preorder : PreOrder lease_age.
Proof. split; unfold lease_age, same_age; congruence. Qed.

Lemma lease_check_age obs now : steps_in lease_age (lease_check obs now).
Proof.
  intros l. unfold lease_check. pose proof (check_age obs now (cl_heartbeat l)) as H.
  by destruct (check obs now (cl_heartbeat l)) as [r h].
Qed.

Lemma accept_age raw now : steps_in lease_age (accept raw now).
Proof.
  apply guarded_steps; [apply _| |done]. unfold accept_body.
  apply steps_in_bind; [apply _|apply steps_in_gets, _|intros l].
  destruct (_ || _); [apply steps_in_raise, _|].
  destruct (loads _ _) as [[| | | | |kvs]|]; try (apply steps_in_raise, _).
  destruct (negb _); [apply steps_in_raise, _|].
  destruct (get _ _) as [sq|]; [|apply steps_in_raise, _].
  destruct (get _ _) as [st|]; [|apply steps_in_raise, _].
  destruct (get _ _) as [[|allow| | | |]|]; try (apply steps_in_raise, _).
  destruct (get _ _) as [[| |[epoch|]| | |]|]; try (apply steps_in_raise, _).
  unfold accept_record. apply steps_in_bind; [apply _| |intros _].
  { unfold recheck_previous. apply steps_in_bind; [apply _|apply steps_in_gets, _|intros l'].
    destruct (previous _); [apply lease_check_age|apply steps_in_ret, _]. }
  apply steps_in_bind; [apply _|apply lease_check_age|intros _].
  destruct sq as [| |[q|]| | |]; try (apply steps_in_raise, _).
  destruct st as [| |t| | |]; try (apply steps_in_raise, _).
  apply steps_in_bind; [apply _|apply steps_in_gets, _|intros l'].
  destruct (lease_conflict _ _); [apply steps_in_raise, _|].
  apply steps_in_bind; [apply _|by apply modify_steps|intros _]. apply steps_in_ret, _.
Qed.

(** A refused call leaves the last record. *)
Definition keeps_record (P : option ControlState) (l : control_lease) : Prop := previous l = P.

Lemma accept_keeps raw now P :
  hoare (keeps_record P) (accept raw now) (fun _ _ => True) (fun _ => keeps_record P).
Proof.
  assert (forall A (e : exn) (Q : A -> control_lease -> Prop),
    hoare (keeps_record P) (raise e) Q (fun _ => keeps_record P)) as Hraise
    by (intros; by apply hoare_raise).
  assert (forall obs, hoare (keeps_record P) (lease_check obs now) (fun _ => keeps_record P)
    (fun _ => keeps_record P)) as Hcheck.
  { intros obs l Hl. unfold lease_check. destruct (check _ _ _) as [[u|e] h]; done. }
  unfold accept, guarded. eapply hoare_try with (X := fun _ => keeps_record P).
  2: { intros [|]; [|done]. apply hoare_bind with (Q := fun _ => keeps_record P); [|done].
       intros l Hl. exact Hl. }
  unfold accept_body. apply hoare_bind with (Q := fun _ => keeps_record P); [by intros l Hl|intros l].
  destruct (_ || _); [done|]. destruct (loads _ _) as [[| | | | |kvs]|]; try done.
  destruct (negb _); [done|]. destruct (get _ _) as [sq|]; [|done].
  destruct (get _ _) as [st|]; [|done]. destruct (get _ _) as [[|allow| | | |]|]; try done.
  destruct (get _ _) as [[| |[epoch|]| | |]|]; try done.
  apply hoare_bind with (Q := fun _ => keeps_record P).
  { apply hoare_bind with (Q := fun _ => keeps_record P); [by intros l' Hl|intros l'].
    destruct (previous l'); [apply Hcheck|by intros s Hs]. }
  intros _. apply hoare_bind with (Q := fun _ => keeps_record P); [apply Hcheck|intros _].
  destruct sq as [| |[q|]| | |]; try done. destruct st as [| |t| | |]; try done.
  apply hoare_bind with (Q := fun _ => keeps_record P); [by intros l' Hl|intros l'].
  destruct (lease_conflict _ _); [done|]. intros s Hs. done.
Qed.

(** A reader that calls [accept] for each (bytes, time) in turn. *)
Fixpoint lease_run (calls : list (string * pynum)) (l : control_lease)
    : list (ControlState * pynum) * control_lease :=
  match calls with
  | [] => ([], l)
  | (raw, now) :: calls =>
      match accept raw now l with
      | (Ok r, l) => let '(h, l) := lease_run calls l in ((r, now) :: h, l)
      | (Err _, l) => lease_run calls l
      end
  end.

(** What one accepted command may do after another. *)
Record follows (a b : ControlState * pynum) : Prop := {
  f_sequence : c_sequence a.1 <= c_sequence b.1;
  f_same : c_sequence a.1 = c_sequence b.1 -> state_eq b.1 a.1 = true;
  f_epoch : c_epoch a.1 <= c_epoch b.1;
  f_close : c_allow a.1 = true -> c_allow b.1 = false -> c_epoch a.1 < c_epoch b.1;
  f_gap : recent (c_observed a.1) b.2 }.

Lemma accepted_recent l now r l' : accepted l now r l' -> max_age (cl_heartbeat l) = FIVE ->
  recent (c_observed r) now.
Proof.
  intros [_ _ _ _ _ (h & Hb & Ha & _)] Hm. apply (stale_recent h (c_sequence r)); [congruence|apply Hb].
Qed.

Lemma accepted_follows l now r l' p t : accepted l now r l' -> max_age (cl_heartbeat l) = FIVE ->
  previous l = Some p -> follows (p, t) (r, now).
Proof.
  intros [_ _ _ Hc _ (h & Hb & _ & _ & Hp)] Hm Hpl. rewrite Hpl in Hc, Hp. destruct Hp as [Hbp ->].
  unfold lease_conflict in Hc. bdestr.
  assert (c_sequence p <= c_sequence r) as Hq.
  { destruct Hb as [_ _ _ _ _ Hs]. unfold stale in Hs. bdestr. cbn in *. lia. }
  split; cbn; try lia.
  - intros E. match goal with H : (_ =? _) && negb _ = false |- _ => revert H end.
    rewrite E, Z.eqb_refl. cbn. by intros ?%negb_false_iff.
  - intros Ea Er. match goal with H : c_allow p && _ && _ = false |- _ => revert H end.
    rewrite Ea, Er. cbn. intros ?. bdestr. lia.
  - apply (stale_recent (cl_heartbeat l) (c_sequence p)); [done|apply Hbp].
Qed.

Lemma lease_run_ok calls l : max_age (cl_heartbeat l) = FIVE ->
  let h := (lease_run calls l).1 in
  Forall (fun e => recent (c_observed e.1) e.2) h /\
  match previous l with
  | None => Sorted follows h
  | Some p => forall t, Sorted follows ((p, t) :: h)
  end.
Proof.
  revert l. induction calls as [|[raw now] calls IH]; intros l Hm; cbn.
  { destruct (previous l); split; by repeat constructor. }
  pose proof (accept_age raw now l) as Hage. unfold lease_age, same_age in Hage.
  destruct (accept raw now l) as [[r|e] l'] eqn:Ea; cbn in Hage.
  - apply accept_Ok in Ea as Hacc. specialize (IH l' ltac:(congruence)).
    destruct (lease_run calls l') as [h l''] eqn:Er. cbn in *. destruct IH as [IH1 IH2].
    rewrite (ac_saw _ _ _ _ Hacc) in IH2.
    split; [constructor; [by apply (accepted_recent l _ _ l')|done]|].
    destruct (previous l) as [p|] eqn:Ep; [|apply IH2].
    intros t. constructor; [apply IH2|]. constructor. by apply (accepted_follows l _ _ l').
  - specialize (IH l' ltac:(congruence)).
    pose proof (accept_keeps raw now (previous l) l eq_refl) as Hp. rewrite Ea in Hp.
    unfold keeps_record in Hp. by rewrite Hp in IH.
Qed.

Lemma lease_run_app calls1 calls2 l :
  lease_run (calls1 ++ calls2) l =
    let '(h1, l1) := lease_run calls1 l in
    let '(h2, l2) := lease_run calls2 l1 in (h1 ++ h2, l2).
Proof.
  revert l. induction calls1 as [|[raw now] calls1 IH]; intros l; cbn.
  { by destruct (lease_run calls2 l). }
  destruct (accept raw now l) as [[r|e] l1]; rewrite IH; [|done].
  destruct (lease_run calls1 l1) as [h1 l2]. by destruct (lease_run calls2 l2).
Qed.

Lemma lease_run_failed calls l : cl_failed l = true -> (lease_run calls l).1 = [].
Proof.
  revert l. induction calls as [|[raw now] calls IH]; intros l Hf; cbn; [done|].
  rewrite accept_failed by done. by apply IH.
Qed.


(** ** The playback reader follows the playback writer *)
Inductive pilot_op : Type := Event (kind code : string) | Read.

(** Events of the pilot process and polls of its snapshot by the reader. *)
Fixpoint pilot_run (ops : list pilot_op) (s : PilotPlayback * option PilotPlayback)
    : PilotPlayback * option PilotPlayback :=
  match ops with
  | [] => s
  | Event kind code :: ops => pilot_run ops ((apply_event kind code s.1).2, s.2)
  | Read :: ops => pilot_run ops (s.1, (cursor_accept (snapshot s.1) s.2).2)
  end.

Record pilot_ok (p : PilotPlayback) (c : option PilotPlayback) : Prop := {
  po_range : 0 <= buffer_epoch p <= p_sequence p /\ p_sequence p <= MAX_COUNTER;
  po_live : p_state p <> ENDED -> p_sequence p < MAX_COUNTER;
  po_seen : forall o, c = Some o -> o = p \/
    (p_sequence o < p_sequence p /\ buffer_epoch o <= buffer_epoch p /\ p_state o <> ENDED) }.

Lemma apply_event_ok kind code p c : pilot_ok p c -> pilot_ok (apply_event kind code p).2 c.
Proof.
  intros [Hr Hl Hs]. unfold apply_event. destruct (_ || _ || _) eqn:E; [done|]. bdestr.
  specialize (Hl ltac:(assumption)). unfold MAX_COUNTER in *.
  assert (forall s e, buffer_epoch p <= e <= buffer_epoch p + 1 ->
    (s <> ENDED -> p_sequence p < 2 ^ 53 - 1 - 1) ->
    pilot_ok {| p_state := s; p_sequence := p_sequence p + 1; buffer_epoch := e |} c) as Hok.
  { intros s e He Hse. split; cbn; [unfold MAX_COUNTER; lia|intros Hne; specialize (Hse Hne); unfold MAX_COUNTER; lia|].
    intros o Ho. right.
    destruct (Hs o Ho) as [->|(Ha & Hb & Hc)]; (split; [|split]); (lia || done). }
  destruct (_ || _) eqn:Em; [apply Hok; [lia|done]|]. bdestr.
  destruct (ends_stream kind code); [apply Hok; [lia|done]|].
  destruct (bool_decide _); [apply Hok; lia|]. destruct (_ || _); apply Hok; lia.
Qed.

Lemma parse_snapshot_ok p c : pilot_ok p c -> parse_snapshot (snapshot p) = Some p.
Proof.
  intros [Hr _ _]. unfold parse_snapshot, snapshot.
  assert (state_of (state_value (p_state p)) = Some (p_state p)) as Hst by (by destruct (p_state p)).
  set (kvs := [("state", _); _; _]).
  change (get "state" kvs) with (Some (JStr (state_value (p_state p)))).
  change (get "sequence" kvs) with (Some (JNum (PInt (p_sequence p)))).
  change (get "buffer_epoch" kvs) with (Some (JNum (PInt (buffer_epoch p)))).
  change (same_set (kvs.*1) ["state"; "sequence"; "buffer_epoch"]) with true.
  cbn -[state_of state_value MAX_COUNTER]. rewrite Hst. cbn -[MAX_COUNTER].
  repeat match goal with |- context [?a <=? ?b] => replace (a <=? b) with true by (symmetry; apply Z.leb_le; lia) end.
  cbn. by destruct p.
Qed.

Lemma cursor_accept_ok p c : pilot_ok p c ->
  cursor_accept (snapshot p) c = (Ok (negb (bool_decide (c = Some p))), Some p).
Proof.
  intros Hok. unfold cursor_accept. rewrite (parse_snapshot_ok p c Hok).
  unfold mbind, st_bind, gets, id, modify, mret, st_ret. destruct Hok as [_ _ Hs].
  destruct c as [o|]; [|by rewrite bool_decide_eq_false_2].
  destruct (decide (p = o)) as [<-|Hne].
  { by rewrite !bool_decide_eq_true_2. }
  rewrite (bool_decide_eq_false_2 (p = o)), (bool_decide_eq_false_2 (Some o = Some p)) by congruence.
  destruct (Hs o eq_refl) as [->|(H1 & H2 & H3)]; [done|].
  rewrite (bool_decide_eq_false_2 (p_state o = ENDED)) by done.
  replace (p_sequence p <=? p_sequence o) with false by (symmetry; apply Z.leb_gt; lia).
  replace (buffer_epoch p <? buffer_epoch o) with false by (symmetry; apply Z.ltb_ge; lia). done.
Qed.

Lemma pilot_run_ok ops s : pilot_ok s.1 s.2 -> pilot_ok (pilot_run ops s).1 (pilot_run ops s).2.
Proof.
  revert s. induction ops as [|[kind code|] ops IH]; intros s Hok; cbn; [done| |]; apply IH; cbn.
  - by apply apply_event_ok.
  - rewrite cursor_accept_ok by done. cbn. destruct Hok as [H1 H2 _]. split; [done|done|].
    intros o [= <-]. by left.
Qed.

(** C40. The reader of the pilot's private snapshots follows the writer: whatever control
    events arrive (up to the saturation of the counters) and however rarely the
    snapshot is polled, every poll is accepted, answers whether anything changed
    since the last one, and leaves the cursor at the writer's state. *)
Theorem reader_follows_writer ops :
  let '(p, c) := pilot_run ops (new_playback, None) in
  cursor_accept (snapshot p) c = (Ok (negb (bool_decide (c = Some p))), Some p).
Proof.
  destruct (pilot_run ops (new_playback, None)) as [p c] eqn:E. apply cursor_accept_ok.
  pose proof (pilot_run_ok ops (new_playback, None)) as H. rewrite E in H. apply H.
  split; cbn; [unfold MAX_COUNTER; lia|unfold MAX_COUNTER; lia|done].
Qed.

(** ** The volume never exceeds the owner's maximum *)
Lemma mk_float_between n d m k : 0 < d -> 0 <= n -> n <= m * 2 ^ k * d -> 0 <= m < 2 ^ 53 ->
  0 <= k <= 1074 -> exists t, mk_float n d = FFin t /\ 0 <= t <= m * 2 ^ k.
Proof.
  intros Hd Hn Hle Hm Hk. assert (0 < 2 ^ k) by lia.
  assert (rnd_pos n d <= m * 2 ^ k) as Hr by (apply rnd_pos_le; [done|lia|done|done|lia]).
  assert (0 <= rnd_pos n d) as H0 by (pose proof (rnd_pos_ge 0 0 ltac:(lia) ltac:(lia) n d); lia).
  unfold mk_float, rnd_ratio. replace (n <? 0) with false by (symmetry; apply Z.ltb_ge; lia).
  rewrite Z.abs_eq by done. replace (FLOAT_LIMIT <=? rnd_pos n d) with false.
  { eexists. split; [reflexivity|lia]. }
  symmetry. apply Z.leb_gt. eapply Z.le_lt_trans; [exact Hr|]. unfold FLOAT_LIMIT.
  apply Z.le_lt_trans with (m * 2 ^ 1074).
  { apply Z.mul_le_mono_nonneg_l; [lia|]. apply Z.pow_le_mono_r; lia. }
  replace (2 ^ 2098) with (2 ^ 1024 * 2 ^ 1074) by (rewrite <- Z.pow_add_r; [done|lia..]).
  apply Z.mul_lt_mono_pos_r; [lia|]. assert (2 ^ 53 < 2 ^ 1024) by (apply Z.pow_lt_mono_r; lia). lia.
Qed.

Lemma half_up t m : 0 <= t <= m * UNIT -> 0 <= (t + 2 ^ 1073) / UNIT <= m.
Proof.
  intros Ht. pose proof UNIT_pos. assert (2 ^ 1073 < UNIT) by (rewrite UNIT_pow; apply Z.pow_lt_mono_r; lia).
  assert (0 < 2 ^ 1073) by lia. split; [apply Z.div_pos; lia|].
  enough ((t + 2 ^ 1073) / UNIT < m + 1) by lia. apply Z.div_lt_upper_bound; lia.
Qed.

Lemma to_float_small x t : finite x = Some t -> Z.abs t < 2 ^ 53 * UNIT -> to_float x = FFin t.
Proof.
  intros Hf Ht. pose proof UNIT_pos. destruct x as [n|[z|s|]]; cbn in *; try discriminate; simplify_eq; [|done].
  unfold mk_float. rewrite rnd_ratio_int by nia. pose proof (small_below_limit n ltac:(nia)) as Hl.
  replace (FLOAT_LIMIT <=? Z.abs (n * UNIT)) with false; [done|]. symmetry. by apply Z.leb_gt.
Qed.

Lemma mk_float_small m n d : 0 <= m < 2 ^ 53 -> 0 < d -> 0 <= n -> n <= m * UNIT * d ->
  exists z, finite (PFloat (mk_float n d)) = Some z /\ 0 <= z <= m * UNIT.
Proof.
  intros Hm Hd Hn Hle. rewrite UNIT_pow in *.
  destruct (mk_float_between n d m 1074) as (t & -> & Ht); [lia..|]. by exists t.
Qed.

(** Sums, products and quotients of small numbers stay below an integer bound. *)
Section Small.
Context (a b : pynum) (x y m : Z).
Hypothesis Ha : finite a = Some x.
Hypothesis Hb : finite b = Some y.
Hypothesis Hx : Z.abs x < 2 ^ 53 * UNIT.
Hypothesis Hy : Z.abs y < 2 ^ 53 * UNIT.
Hypothesis Hm : 0 <= m < 2 ^ 53.

Let Hfa : fin (to_float a) = x.
Proof. by rewrite (to_float_small a x). Qed.
Let Hfb : fin (to_float b) = y.
Proof. by rewrite (to_float_small b y). Qed.

Lemma num_add_small : 0 <= x + y <= m * UNIT ->
  exists z, finite (num_add a b) = Some z /\ 0 <= z <= m * UNIT.
Proof.
  intros H. assert (exists z, finite (PFloat (mk_float (fin (to_float a) + fin (to_float b)) 1)) = Some z
    /\ 0 <= z <= m * UNIT) as Hf by (rewrite Hfa, Hfb; apply mk_float_small; lia).
  destruct a as [n|f], b as [n'|f']; try exact Hf. clear Hf. cbn in *. simplify_eq.
  exists ((n + n') * UNIT). split; [done|lia].
Qed.

Lemma num_mul_small : 0 <= x * y <= m * UNIT * UNIT ->
  exists z, finite (num_mul a b) = Some z /\ 0 <= z <= m * UNIT.
Proof.
  intros H. pose proof UNIT_pos. assert (exists z, finite (PFloat (mk_float (fin (to_float a) * fin (to_float b)) UNIT)) = Some z
    /\ 0 <= z <= m * UNIT) as Hf by (rewrite Hfa, Hfb; apply mk_float_small; lia).
  destruct a as [n|f], b as [n'|f']; try exact Hf. clear Hf. cbn in *. simplify_eq.
  exists (n * n' * UNIT). split; [done|nia].
Qed.

Lemma num_div_small : 0 <= x -> 0 < y -> x <= m * y ->
  exists z, finite (num_div a b) = Some z /\ 0 <= z <= m * UNIT.
Proof.
  intros H0 H1 H2. pose proof UNIT_pos.
  assert (exists z, finite (PFloat (mk_float (fin (to_float a) * UNIT) (fin (to_float b)))) = Some z
    /\ 0 <= z <= m * UNIT) as Hf by (rewrite Hfa, Hfb; apply mk_float_small; nia).
  destruct a as [n|f], b as [n'|f']; try exact Hf. clear Hf. cbn [finite] in Ha, Hb. simplify_eq.
  apply mk_float_small; nia.
Qed.
End Small.

(** The slider of a level between -30 and 0. *)
Lemma slider_range db z : finite db = Some z -> -30 * UNIT <= z <= 0 -> 0 <= slider db <= 100.
Proof.
  intros Hf Hz. pose proof UNIT_pos as HU.
  destruct (num_add_small db (PInt 30) z (30 * UNIT) 30) as (a & Ha & Har); [done|done|lia..|].
  destruct (num_mul_small (num_add db (PInt 30)) (PInt 100) a (100 * UNIT) 3000) as (b & Hb & Hbr);
    [done|done|lia|lia|lia|nia|].
  destruct (num_div_small (num_mul (num_add db (PInt 30)) (PInt 100)) (PInt 30) b (30 * UNIT) 100)
    as (c & Hc & Hcr); [done|done|lia..|].
  unfold slider. set (q := num_div _ _) in *.
  assert (finite HALF = Some (2 ^ 1073)) as Hh by done.
  assert (UNIT = 2 * 2 ^ 1073) as HP by (rewrite UNIT_pow; rewrite <- Z.pow_succ_r by lia; done).
  assert (to_float q = FFin c) as Hq by (apply to_float_small; [done|lia]).
  assert (exists s, num_add q HALF = PFloat (FFin s) /\ 0 <= s <= 201 * 2 ^ 1073) as (s & Hs & Hsr).
  { assert (num_add q HALF = PFloat (mk_float (c + 2 ^ 1073) 1)) as ->.
    { unfold num_add. rewrite Hq. by destruct q. }
    destruct (mk_float_between (c + 2 ^ 1073) 1 201 1073) as (t & -> & Ht); [lia..|]. by exists t. }
  rewrite Hs. unfold num_floor. cbn [finite]. split; [apply Z.div_pos; lia|].
  enough (s / UNIT < 101) by lia. apply Z.div_lt_upper_bound; lia.
Qed.

Lemma project_volume_Ok db maximum v : project_volume db maximum = Ok v ->
  0 <= applied v <= requested v /\ requested v <= 100 /\ applied v <= maximum <= 100
  /\ (limited v = true <-> maximum < requested v) /\ (muted v = true -> applied v = 0).
Proof.
  unfold project_volume. destruct (negb _) eqn:Em; [done|]. bdestr.
  intros (bad & Hbad & Hv)%bind_Ok. destruct bad; [done|]. injection Hv as <-.
  apply ror_false in Hbad as [Hfin [= Hr%negb_false_iff]]. apply bad_number_false in Hfin.
  assert (0 <= (if num_eq db (PInt (-144)) then 0 else slider db) <= 100) as Hs.
  { destruct (num_eq db (PInt (-144))) eqn:Ee; [lia|]. rewrite orb_false_r in Hr. bdestr.
    assert (exists z, finite db = Some z) as [z Hz] by (destruct db as [n|[t|s|]]; [by eexists..|done|done]).
    assert (num_le (PInt (-30)) db = true) as Hlo by assumption.
    assert (num_le db (PInt 0) = true) as Hhi by assumption.
    rewrite (num_le_finite _ _ (-30 * UNIT) z) in Hlo by done.
    rewrite (num_le_finite _ _ z 0) in Hhi by done. bdestr.
    apply (slider_range db z); [done|lia]. }
  cbn. set (r := if num_eq db _ then 0 else _) in *. repeat split; try lia.
  intros He. subst r. rewrite He. lia.
Qed.

(** The calls of one session: [None] closes it. *)
Fixpoint volume_run (calls : list (option (Z * Z * pynum))) (v : volume_cursor)
    : list (Z * VolumeIntent) :=
  match calls with
  | [] => []
  | None :: calls => volume_run calls (close v)
  | Some (g, q, db) :: calls =>
      match consume g q db v with
      | (Ok (Some i), v) => (q, i) :: volume_run calls v
      | (_, v) => volume_run calls v
      end
  end.

Definition within (maximum : Z) (i : VolumeIntent) : Prop :=
  0 <= applied i <= maximum /\ applied i <= requested i <= 100
  /\ (muted i = true -> applied i = 0) /\ (limited i = true <-> maximum < requested i).

Lemma consume_inv g q db v r v' : consume g q db v = (r, v') ->
  v_maximum v' = v_maximum v /\ v_generation v' = v_generation v /\ v_closed v' = v_closed v /\
  match r with
  | Ok (Some i) => v_closed v = false /\ g = v_generation v /\ v_sequence v < q /\ v_sequence v' = q
                   /\ within (v_maximum v) i
  | _ => v_sequence v' = v_sequence v
  end.
Proof.
  unfold consume, mbind, st_bind, gets, id, of_res, modify. destruct (_ || _) eqn:E.
  { intros [= <- <-]. done. }
  bdestr. destruct (project_volume db (v_maximum v)) as [i|e] eqn:Ep; intros [= <- <-]; [|done].
  apply project_volume_Ok in Ep. cbn. unfold within. repeat (split; [done || lia || tauto|]). tauto.
Qed.

Lemma volume_run_ok calls v :
  let out := volume_run calls v in
  StronglySorted (fun a b => a.1 < b.1) out /\
  Forall (fun e => v_sequence v < e.1 /\ within (v_maximum v) e.2 /\ v_closed v = false) out.
Proof.
  revert v. induction calls as [|[[[g q] db]|] calls IH]; intros v; cbn; [split; constructor| |].
  - destruct (consume g q db v) as [r v'] eqn:E. apply consume_inv in E as (Hm & Hg & Hc & Hr).
    destruct (IH v') as [H1 H2]. rewrite Hm, Hc in H2.
    destruct r as [[i|]|e]; [|by rewrite Hr in H2..].
    destruct Hr as (Hc' & Hgg & Hlt & Hq & Hw). rewrite Hq in H2. split.
    + constructor; [done|]. eapply list.Forall_impl; [exact H2|]. by intros x [? _].
    + constructor; [done|]. eapply list.Forall_impl; [exact H2|]. cbn. intros x (? & ? & ?). split; [lia|by split].
  - destruct (IH (close v)) as [H1 H2]. split; [done|]. eapply list.Forall_impl; [exact H2|].
    cbn. intros x (? & ? & ?). done.
Qed.

(** No write of the session's volume exceeds the owner's maximum: for any calls of a
    session's cursor (other generations, replays, malformed levels, closing) the
    intents it hands out have strictly increasing sequence numbers, a position
    between 0 and 100, an applied value that is that position capped by the maximum
    of the session, marked as limited exactly when it was capped, and 0 when muted. *)
Theorem volume_intents_bounded generation maximum v calls :
  SessionVolumeCursor generation maximum = Ok v ->
  let out := volume_run calls v in
  StronglySorted (fun a b => a.1 < b.1) out /\ Forall (fun e => 0 <= e.1 /\ within maximum e.2) out.
Proof.
  unfold SessionVolumeCursor. destruct (_ <? 1); [done|]. intros (i & _ & [= <-])%bind_Ok.
  destruct (volume_run_ok calls {| v_generation := generation; v_maximum := maximum; v_sequence := -1;
    v_closed := false |}) as [H1 H2].
  split; [done|]. eapply list.Forall_impl; [exact H2|]. cbn. intros x (? & ? & _). split; [lia|done].
Qed.

(** ** The audio gate *)
Section AudioGate.
Context (float_repr : Z -> list Z).
Local Abbreviation step := (audio_step float_repr).

Record ordered (a b : command) : Prop := {
  o_sequence : k_sequence a < k_sequence b;
  o_epoch : k_epoch a <= k_epoch b;
  o_close : k_allow a = true -> k_allow b = false -> k_epoch a < k_epoch b }.

Definition current (c : audio_control) : command :=
  {| k_sequence := ac_sequence c; k_allow := ac_allowed c; k_epoch := ac_epoch c |}.

(** The acknowledgement answers a published command. *)
Definition answers (a : audio_ack) (k : command) : Prop :=
  k_sequence k = a_command a /\ k_epoch k = a_epoch a /\ k_allow k = a_allow a
  /\ (k_allow k = false -> a_released a = false).

Record audio_ok (c : audio_control) : Prop := {
  g_sorted : StronglySorted ordered (published c);
  g_below : Forall (fun k => k_sequence k <= ac_sequence c /\ k_epoch k <= ac_epoch c) (published c);
  g_closed : ac_failed c = false -> ac_allowed c = false ->
    Forall (fun k => k_allow k = true -> k_epoch k < ac_epoch c) (published c);
  g_confirmed : Forall (fun a => Exists (answers a) (published c)) (confirmed c);
  g_current : ac_failed c = false -> is_Some (ac_op c) -> current c ∈ published c;
  g_acked : ac_failed c = false ->
    Forall (fun k => k = current c /\ is_Some (ac_op c) \/
                     exists a, previous_ack c = Some a /\ k_sequence k <= a_command a) (published c);
  g_age : max_age (cl_heartbeat (ac_lease c)) = FIVE /\ max_age (ack_heartbeat c) = FIVE }.

Lemma check_same_age obs now h r h' : check obs now h = (r, h') -> max_age h' = max_age h.
Proof. intros H. pose proof (check_age obs now h) as Ha. by rewrite H in Ha. Qed.

(** What keeps the invariant: nothing but the heartbeats changes, or the owner fails. *)
Record same_gate (c c' : audio_control) : Prop := {
  sg_op : ac_op c' = ac_op c;
  sg_seq : ac_sequence c' = ac_sequence c;
  sg_epoch : ac_epoch c' = ac_epoch c;
  sg_published : published c' = published c;
  sg_confirmed : confirmed c' = confirmed c;
  sg_failed : ac_failed c = true -> ac_failed c' = true;
  sg_rest : ac_failed c' = false ->
    ac_allowed c' = ac_allowed c /\ (previous_ack c' = previous_ack c \/
      exists a, previous_ack c' = Some a /\ forall o, previous_ack c = Some o -> a_command o <= a_command a);
  sg_age : max_age (cl_heartbeat (ac_lease c)) = FIVE /\ max_age (ack_heartbeat c) = FIVE ->
    max_age (cl_heartbeat (ac_lease c')) = FIVE /\ max_age (ack_heartbeat c') = FIVE }.

Lemma same_gate_ok c c' : audio_ok c -> same_gate c c' -> audio_ok c'.
Proof.
  intros [H1 H2 H3 H4 H5 H6 H7] [E1 E2 E3 E4 E5 E6 E7 E8].
  assert (ac_failed c' = false -> ac_failed c = false) as Hf by (destruct (ac_failed c); intuition congruence).
  assert (ac_failed c' = false -> current c' = current c) as Hc.
  { intros Hf'. unfold current. destruct (E7 Hf') as [-> _]. by rewrite E2, E3. }
  split; rewrite ?E1, ?E2, ?E3, ?E4, ?E5; auto.
  - intros Hf' Ha. destruct (E7 Hf') as [Ha' _]. apply H3; [by apply Hf|congruence].
  - intros Hf'. rewrite Hc by done. apply H5. by apply Hf.
  - intros Hf'. rewrite Hc by done. eapply list.Forall_impl; [apply H6, Hf, Hf'|].
    intros k [Hk|(a & Ha & Hk)]; [by left|right]. destruct (E7 Hf') as [_ [->|(a' & Ha' & Hle)]]; [by exists a|].
    exists a'. split; [done|]. specialize (Hle a Ha). lia.
Qed.

Lemma same_gate_refl c : same_gate c c.
Proof. split; auto. Qed.

Lemma same_gate_trans c1 c2 c3 : same_gate c1 c2 -> same_gate c2 c3 -> same_gate c1 c3.
Proof.
  intros [E1 E2 E3 E4 E5 E6 E7 E8] [F1 F2 F3 F4 F5 F6 F7 F8].
  split; try congruence; auto. intros Hf. destruct (F7 Hf) as [Ha Hp].
  assert (ac_failed c2 = false) as Hf2 by (destruct (ac_failed c2); intuition congruence).
  destruct (E7 Hf2) as [Hb Hq]. split; [congruence|].
  destruct Hp as [->|(a & Ha' & Hle)]; [done|]. right. exists a. split; [done|].
  intros o Ho. destruct Hq as [Hq|(b & Hb' & Hle')]; [apply Hle; congruence|].
  specialize (Hle b Hb'). specialize (Hle' o Ho). lia.
Qed.
#[local] Instance same_gate_preorder : PreOrder same_gate.
Proof. split; [intros c; apply same_gate_refl|intros c1 c2 c3; apply same_gate_trans]. Qed.

Lemma revoke_gate c : same_gate c (revoke c).
Proof. by split. Qed.

Lemma ack_check_gate obs now : steps_in same_gate (ack_check obs now).
Proof.
  intros c. unfold ack_check. destruct (check obs now (ack_heartbeat c)) as [r h] eqn:E.
  apply check_same_age in E. split; try done; cbn; [by auto|]. intros []. split; congruence.
Qed.

Lemma held_lease_check_gate obs now : steps_in same_gate (held_lease_check obs now).
Proof.
  intros c. unfold held_lease_check, lease_check.
  destruct (check obs now (cl_heartbeat (ac_lease c))) as [r h] eqn:E.
  apply check_same_age in E. split; try done; cbn; [by auto|]. intros []. split; congruence.
Qed.

Lemma require_held_gate now1 now2 : steps_in same_gate (require_held now1 now2).
Proof.
  unfold require_held. apply steps_in_bind; [apply _|apply steps_in_gets, _|intros c].
  destruct (ac_failed c); [apply steps_in_raise, _|].
  destruct (previous (ac_lease c)), (previous_ack c); try apply steps_in_raise, _.
  destruct (_ || _); [apply steps_in_raise, _|].
  apply guarded_steps; [apply _| |apply revoke_gate].
  apply steps_in_bind; [apply _|apply held_lease_check_gate|intros _; apply ack_check_gate].
Qed.

Lemma parse_ack_gate raw now : steps_in same_gate (parse_ack raw now).
Proof.
  unfold parse_ack. destruct (_ <? _); [apply steps_in_raise, _|].
  destruct (loads _ _) as [[| | | | |kvs]|]; try apply steps_in_raise, _.
  apply steps_in_bind; [apply _|apply steps_in_gets, _|intros c].
  destruct (negb _); [apply steps_in_raise, _|].
  destruct (get _ _) as [[| |[k|]| | |]|]; try apply steps_in_raise, _.
  destruct (get _ _) as [[| |[e|]| | |]|]; try apply steps_in_raise, _.
  destruct (get _ _) as [[|al| | | |]|]; try apply steps_in_raise, _.
  destruct (get _ _) as [[|rel| | | |]|]; try apply steps_in_raise, _.
  destruct (get _ _) as [sq|]; try apply steps_in_raise, _.
  destruct (get _ _) as [st|]; try apply steps_in_raise, _.
  destruct (negb _); [apply steps_in_raise, _|].
  apply steps_in_bind; [apply _|apply ack_check_gate|intros _].
  destruct sq as [| |[q|]| | |]; try apply steps_in_raise, _.
  destruct st as [| |t| | |]; try apply steps_in_raise, _.
  intros c1. unfold mbind, st_bind, gets, id.
  destruct (ack_conflict _ _) eqn:Ec; [done|]. cbn. split; try done. cbn.
  intros _. split; [done|]. right. eexists. split; [reflexivity|]. intros o Ho. cbn.
  rewrite Ho in Ec. unfold ack_conflict in Ec. bdestr. cbn in *. lia.
Qed.

Lemma parse_ack_Ok raw now c a c' : parse_ack raw now c = (Ok a, c') -> previous_ack c' = Some a.
Proof.
  unfold parse_ack. destruct (_ <? _); [done|].
  destruct (loads _ _) as [[| | | | |kvs]|]; try done. intros (c0 & s0 & [= <- <-] & H)%st_bind_Ok.
  destruct (negb _); [done|].
  destruct (get _ _) as [[| |[k|]| | |]|]; try done. destruct (get _ _) as [[| |[e|]| | |]|]; try done.
  destruct (get _ _) as [[|al| | | |]|]; try done. destruct (get _ _) as [[|rel| | | |]|]; try done.
  destruct (get _ _) as [sq|]; try done. destruct (get _ _) as [st|]; try done.
  destruct (negb _); [done|]. apply st_bind_Ok in H as (u & s1 & _ & H).
  destruct sq as [| |[q|]| | |]; try done. destruct st as [| |t| | |]; try done.
  apply st_bind_Ok in H as (c1 & s2 & [= <- <-] & H). destruct (ack_conflict _ _); [done|].
  apply st_bind_Ok in H as (u' & s3 & [= <-] & [= <- <-]). by subst s3.
Qed.

(** An exchange that is abandoned, wherever it was. *)
Lemma abandon_ok c : audio_ok c -> audio_ok (abandon c).
Proof. intros [H1 H2 H3 H4 H5 H6 H7]. by split. Qed.

Lemma sorted_snoc {A} (R : A -> A -> Prop) l x :
  StronglySorted R l -> Forall (fun a => R a x) l -> StronglySorted R (l ++ [x]).
Proof.
  induction 1 as [|a l Hl IH Ha]; cbn; intros Hx; [by repeat constructor|].
  apply list.Forall_cons in Hx as [Hax Hx]. constructor; [by apply IH|].
  apply list.Forall_app. split; [done|by constructor].
Qed.

Lemma begin_ok allowed now c : audio_ok c -> ac_op c = None ->
  audio_ok (begin_exchange float_repr allowed now c).
Proof.
  intros Hok Hop. unfold begin_exchange. destruct (ac_failed c) eqn:Ef; [done|].
  set (c1 := next_command allowed c).
  pose proof (accept_age (command_text float_repr c1 now) now (ac_lease c1)) as Hage.
  unfold lease_age, same_age in Hage. destruct Hok as [H1 H2 H3 H4 H5 H6 [H7 H8]].
  specialize (H3 Ef). specialize (H6 Ef).
  assert (Forall (fun k => k_sequence k <= ac_sequence c1 /\ k_epoch k <= ac_epoch c1) (published c)) as Hbelow.
  { eapply list.Forall_impl; [exact H2|]. cbn. intros k [Hs He]. destruct allowed as [[|]|]; lia. }
  destruct (accept _ now (ac_lease c1)) as [[r|e] l]; cbn in Hage; [|by split; try done; cbn; split; congruence].
  assert (ac_allowed c1 = false -> Forall (fun k => k_allow k = true -> k_epoch k < ac_epoch c1) (published c)) as Hcl.
  { cbn. destruct allowed as [[|]|]; [done| |done]. intros _. eapply list.Forall_impl; [exact H2|].
    cbn. intros k [_ ?] _. lia. }
  split; cbn [published ac_sequence ac_epoch ac_allowed ac_failed ac_op confirmed previous_ack
              hand_over set_lease ac_lease ack_heartbeat].
  - apply sorted_snoc; [exact H1|]. apply list.Forall_forall. intros k Hk.
    rewrite list.Forall_forall in Hbelow. destruct (Hbelow k Hk) as [Hs He].
    rewrite list.Forall_forall in H2. destruct (H2 k Hk) as [Hs' _].
    split; cbn; [lia|done|]. intros Ha Hb. specialize (Hcl Hb). rewrite list.Forall_forall in Hcl.
    by apply Hcl.
  - apply list.Forall_app. split; [done|]. by constructor.
  - intros _ Ha. apply list.Forall_app. split; [by apply Hcl|]. constructor; [|done]. cbn in *. congruence.
  - eapply list.Forall_impl; [exact H4|]. intros a Ha. apply Exists_app. by left.
  - intros _ _. apply elem_of_app. right. left.
  - intros _. apply list.Forall_app. split.
    + eapply list.Forall_impl; [exact H6|]. intros k [[_ Hs]|Ha]; [|by right].
      rewrite Hop in Hs. by destruct Hs.
    + constructor; [|done]. left. split; [done|by eexists].
  - split; [congruence|done].
Qed.

(** The exchange ended with the acknowledgement of the last command. *)
Lemma returned_ok a c : audio_ok c -> ac_failed c = false -> is_Some (ac_op c) ->
  previous_ack c = Some a -> answers a (current c) -> audio_ok (returned a c).
Proof.
  intros [H1 H2 H3 H4 H5 H6 H7] Hf Hop Hp Ha. split; try done.
  - cbn. apply list.Forall_app. split; [done|]. constructor; [|done].
    apply list.Exists_exists. exists (current c). split; [by apply H5|done].
  - cbn. intros _ [? [=]].
  - cbn. intros _. apply list.Forall_forall. intros k Hk. right. exists a. split; [done|].
    rewrite list.Forall_forall in H2. destruct (H2 k Hk) as [Hs _].
    destruct Ha as [Ha _]. cbn in Ha. lia.
Qed.

Lemma exchange_ok_live x c : exchange_ok x c = true -> ac_failed c = false.
Proof. unfold exchange_ok. intros H. by bdestr. Qed.

Lemma ack_read_ok x raw now c : audio_ok c -> ac_op c = Some x -> audio_ok (ack_read x raw now c).
Proof.
  intros Hok Hop. unfold ack_read. pose proof (parse_ack_gate raw now c) as Hg.
  destruct (parse_ack raw now c) as [[a|e] c'] eqn:Ep; cbn in Hg;
    pose proof (same_gate_ok c c' Hok Hg) as Hok'; [|by apply abandon_ok].
  apply parse_ack_Ok in Ep. destruct (exchange_ok x c') eqn:Ex; cbn [negb]; [|by apply abandon_ok].
  apply exchange_ok_live in Ex. destruct (_ || _); [by apply abandon_ok|].
  destruct (a_command a =? ac_sequence c') eqn:Ek; [|done].
  destruct (negb _ || _ || _) eqn:Em; [by apply abandon_ok|]. bdestr.
  apply returned_ok; [done|done| |done|].
  - rewrite (sg_op _ _ Hg). by exists x.
  - apply Bool.eqb_prop in H1. split; [done|]. split; [done|]. split; [done|].
    cbn. intros Hc. rewrite Hc in H0. by cbn in H0.
Qed.

Lemma step_audio_ok c c' : audio_ok c -> step c c' -> audio_ok c'.
Proof.
  intros Hok Hs. destruct Hs as [allowed now Hop|x Hop Hph|x raw now Hop Hph|x Hop Hph|x Hop| |now1 now2].
  - by apply begin_ok.
  - unfold publish_done. destruct (exchange_ok x c); [|by apply abandon_ok].
    destruct Hok as [H1 H2 H3 H4 H5 H6 H7]. split; try done; cbn.
    + intros Hf _. apply H5; [done|by exists x].
    + intros Hf. eapply list.Forall_impl; [by apply H6|]. intros k [[Hk _]|Hk]; [left|by right].
      split; [done|by eexists].
  - by apply ack_read_ok.
  - unfold ack_missing. destruct (exchange_ok x c); [done|by apply abandon_ok].
  - by apply abandon_ok.
  - by apply (same_gate_ok c), revoke_gate.
  - apply (same_gate_ok c); [done|]. apply require_held_gate.
Qed.

Lemma audio_reachable nonce c0 c : AudioControl nonce = Ok c0 -> rtc step c0 c -> audio_ok c.
Proof.
  unfold AudioControl, ControlLease. destruct (is_hex_string _ _); [|done]. intros [= <-] Hc.
  refine (rtc_invariant _ audio_ok step_audio_ok _ _ Hc _). 
  split; cbn; [apply SSorted_nil|apply list.Forall_nil_2|intros; apply list.Forall_nil_2|apply list.Forall_nil_2|by intros _ [? [=]]|intros; apply list.Forall_nil_2|done].
Qed.

(** After a revocation nothing is published or confirmed any more. *)
Lemma step_revoked c c' : ac_failed c = true -> step c c' ->
  ac_failed c' = true /\ published c' = published c /\ confirmed c' = confirmed c.
Proof.
  intros Hf Hs. destruct Hs as [allowed now Hop|x Hop Hph|x raw now Hop Hph|x Hop Hph|x Hop| |now1 now2]; try done.
  - unfold begin_exchange. by rewrite Hf.
  - unfold publish_done, exchange_ok. by rewrite Hf.
  - unfold ack_read. pose proof (parse_ack_gate raw now c) as Hg.
    destruct (parse_ack raw now c) as [[a|e] c']; cbn in Hg; destruct Hg as [_ _ _ Hp Hc Hf' _ _].
    + unfold exchange_ok. rewrite (Hf' Hf). by rewrite <- Hp, <- Hc.
    + by rewrite <- Hp, <- Hc.
  - unfold ack_missing, exchange_ok. by rewrite Hf.
  - destruct (require_held_gate now1 now2 c) as [_ _ _ Hp Hc Hf' _ _]. rewrite Hp, Hc. by rewrite Hf'.
Qed.

Lemma run_revoked c c' : rtc step c c' -> ac_failed c = true ->
  published c' = published c /\ confirmed c' = confirmed c.
Proof.
  induction 1 as [|c1 c2 c3 Hs _ IH]; intros Hf; [done|].
  destruct (step_revoked c1 c2 Hf Hs) as (Hf2 & Hp & Hcf). destruct (IH Hf2). split; congruence.
Qed.

(** The order of the audio commands.  Whatever the port answers and wherever an
    exchange is interrupted or revoked, the commands the owner publishes have
    strictly increasing sequence numbers and never a smaller epoch, a hold after a
    release always carries a new epoch, every acknowledgement returned to a caller
    answers a published command of that sequence, epoch and permission - for a held
    gate with no released audio - and after a revocation nothing is published or
    confirmed any more. *)
Theorem audio_commands_ordered nonce c0 c :
  AudioControl nonce = Ok c0 -> rtc step c0 c ->
  StronglySorted ordered (published c) /\
  Forall (fun a => Exists (answers a) (published c)) (confirmed c) /\
  (ac_failed c = true -> forall c', rtc step c c' ->
     published c' = published c /\ confirmed c' = confirmed c).
Proof.
  intros H0 Hc. destruct (audio_reachable nonce c0 c H0 Hc) as [H1 _ _ H4 _ _ _].
  split; [done|]. split; [done|]. intros Hf c' Hc'. by apply run_revoked.
Qed.

(** A radio write behind [require_held] happens only while the worker's gate is
    closed: when the check passes, the owner is not revoked, the last acknowledgement
    says that no audio is allowed or released, it is not older than any release ever
    published, and it and the owner's last command are less than five seconds old. *)
Theorem held_gate_is_closed nonce c0 c now1 now2 c' :
  AudioControl nonce = Ok c0 -> rtc step c0 c ->
  require_held now1 now2 c = (Ok tt, c') ->
  ac_failed c = false /\ ac_allowed c = false /\
  exists a p, previous_ack c = Some a /\ previous (ac_lease c) = Some p /\
    a_allow a = false /\ a_released a = false /\ c_allow p = false /\
    Forall (fun k => k_allow k = true -> k_sequence k <= a_command a) (published c) /\
    recent (a_observed a) now2 /\ recent (c_observed p) now1.
Proof.
  intros H0 Hc H. destruct (audio_reachable nonce c0 c H0 Hc) as [_ _ _ _ _ H6 [H7 H8]].
  unfold require_held in H. apply st_bind_Ok in H as (c1 & s1 & [= <- <-] & H).
  change (id c) with c in H. destruct (ac_failed c) eqn:Ef; [done|].
  destruct (previous (ac_lease c)) as [p|] eqn:Ep; [|done].
  destruct (previous_ack c) as [a|] eqn:Ea; [|done].
  destruct (_ || _) eqn:Eb; [done|]. bdestr. apply guarded_Ok in H.
  apply st_bind_Ok in H as (u1 & c1 & Hl & H). split; [done|]. split; [done|].
  exists a, p. repeat (split; [done|]).
  assert (ack_heartbeat c1 = ack_heartbeat c) as Hah.
  { unfold held_lease_check in Hl. destruct (lease_check _ _ _) as [r l]. by injection Hl as _ <-. }
  split; [|split].
  - eapply list.Forall_impl; [by apply H6|]. intros k [[-> _]|(a' & [= <-] & Hk)] Hka; [|done].
    cbn in Hka. congruence.
  - unfold ack_check in H. rewrite Hah in H.
    destruct (check _ now2 (ack_heartbeat c)) as [r h] eqn:Eh. injection H as -> _.
    apply observation_Ok in Eh as (q & t & [= <-] & [= <-] & Hb & _).
    apply (stale_recent (ack_heartbeat c) (a_sequence a)); [done|apply Hb].
  - unfold held_lease_check, lease_check in Hl.
    destruct (check _ now1 (cl_heartbeat (ac_lease c))) as [r h] eqn:Eh. injection Hl as -> _.
    apply observation_Ok in Eh as (q & t & [= <-] & [= <-] & Hb & _).
    apply (stale_recent (cl_heartbeat (ac_lease c)) (c_sequence p)); [done|apply Hb].
Qed.
End AudioGate.

(** *** Instances and examples *)
Definition sample_nonce : string := "0123456789abcdef0123456789abcdef".
Definition no_repr (t : Z) : list Z := [].

Definition fresh_lease : control_lease :=
  {| cl_nonce := sample_nonce; previous := None; cl_failed := false;
     cl_heartbeat := default_heartbeat |}.
Definition fresh_control : audio_control :=
  {| ac_nonce := sample_nonce; ac_lease := fresh_lease; ac_sequence := 0; ac_epoch := 0;
     ac_allowed := false; ac_failed := false; ac_revision := 0;
     ack_heartbeat := default_heartbeat; previous_ack := None; ac_op := None;
     published := []; confirmed := [] |}.

Definition lease_text (sequence stamp : Z) : string :=
  dumps_flat no_repr [("version", JNum (PInt 1)); ("nonce", JStr sample_nonce);
    ("sequence", JNum (PInt sequence)); ("observed_monotonic", JNum (PInt stamp));
    ("allow_audio", JBool false); ("hold_epoch", JNum (PInt 1))].
Definition ack_text : string :=
  dumps_flat no_repr [("version", JNum (PInt 1)); ("nonce", JStr sample_nonce);
    ("sequence", JNum (PInt 1)); ("observed_monotonic", JNum (PInt 10));
    ("command_sequence", JNum (PInt 1)); ("hold_epoch", JNum (PInt 1));
    ("allow_audio", JBool false); ("audio_released", JBool false)].

Definition holding : audio_control := begin_exchange no_repr (Some false) (PInt 10) fresh_control.
Definition awaiting : audio_control :=
  publish_done {| x_revision := 0; x_phase := Publishing |} holding.
Definition held : audio_control :=
  ack_read {| x_revision := 0; x_phase := Awaiting |} ack_text (PInt 11) awaiting.

Lemma held_reached : rtc (audio_step no_repr) fresh_control held.
Proof.
  apply rtc_l with holding; [by apply a_begin|].
  apply rtc_l with awaiting; [apply a_published; vm_compute; reflexivity|].
  apply rtc_once, a_read; vm_compute; reflexivity.
Qed.

(** A stamp beyond the floats escapes as an [OverflowError] and does not retire the
    lease: the next command is accepted. *)
Example overflow_is_not_terminal :
  let '(r, l) := accept (lease_text 1 (10 ^ 400)) (PInt 10) fresh_lease in
  r = Err OverflowError /\ is_ok (accept (lease_text 1 10) (PInt 10) l).1 = true.
Proof. vm_compute. by split. Qed.


Definition fresh_cursor : volume_cursor :=
  {| v_generation := 1; v_maximum := 30; v_sequence := -1; v_closed := false |}.
Definition volume_calls : list (option (Z * Z * pynum)) :=
  [Some (1, 0, PInt (-15)); Some (1, 0, PInt 0); Some (1, 1, PInt 0)].

Lemma volume_intents_bounded_witness :
  (applied ∘ snd) <$> volume_run volume_calls fresh_cursor = [30; 30] /\
  Forall (fun e => 0 <= e.1 /\ within 30 e.2) (volume_run volume_calls fresh_cursor).
Proof.
  assert (H : SessionVolumeCursor 1 30 = Ok fresh_cursor) by (vm_compute; reflexivity).
  split; [vm_compute; reflexivity|].
  exact (proj2 (volume_intents_bounded 1 30 fresh_cursor volume_calls H)).
Defined.

Lemma audio_commands_ordered_witness :
  rtc (audio_step no_repr) fresh_control held /\
  Forall (fun a => Exists (answers a) (published held)) (confirmed held) /\ length (confirmed held) = 1%nat.
Proof.
  split; [exact held_reached|]. split; [|vm_compute; reflexivity].
  exact (proj1 (proj2 (audio_commands_ordered no_repr sample_nonce fresh_control held eq_refl held_reached))).
Defined.

Lemma held_gate_is_closed_witness :
  (require_held (PInt 12) (PInt 12) held).1 = Ok tt /\ ac_failed held = false.
Proof.
  split; [vm_compute; reflexivity|].
  refine (proj1 (held_gate_is_closed no_repr sample_nonce fresh_control held (PInt 12) (PInt 12)
    (require_held (PInt 12) (PInt 12) held).2 eq_refl held_reached _)).
  vm_compute. reflexivity.
Defined.

End Liveness.
