(* ===== verification/Group.v ===== *)
(** * AirPlay bridge: native group observations and the group session
    (app/services/airplay_bridge/native_group.py, group_session.py)

    A group session consumes, for every bound receiver, the bytes of its native
    observer and a heartbeat.  Reading the private file is not modelled; its bytes,
    the clock readings and the liveness of the child processes are arguments. *)
From Stdlib Require Import Ascii String Sorted.
From stdpp Require Import gmap strings.
From S2P Require Import Prelude PyNum PyStr Json Liveness.
#[local] Open Scope string_scope.
#[local] Open Scope list_scope.
#[local] Open Scope Z_scope.
Import Liveness.

Module Group.

(** ** NativeGroupCursor *)
Inductive group_state : Type := IDLE | UNASSIGNED | GROUPED.

#[export] Instance group_state_eq_dec : EqDecision group_state.
Proof. solve_decision. Defined.

Definition group_state_of (v : json) : option group_state :=
  match v with
  | JStr s => if bool_decide (s = "IDLE") then Some IDLE
              else if bool_decide (s = "UNASSIGNED") then Some UNASSIGNED
              else if bool_decide (s = "GROUPED") then Some GROUPED else None
  | _ => None
  end.

Record NativeGroup := {
  revision : Z;
  connection : Z;
  g_state : group_state;
  group_hash : string;
  event_monotonic : pynum }.

Definition group_eq (a b : NativeGroup) : bool :=
  (revision a =? revision b) && (connection a =? connection b)
  && bool_decide (g_state a = g_state b) && bool_decide (group_hash a = group_hash b)
  && num_eq (event_monotonic a) (event_monotonic b).

Record native_cursor := {
  n_nonce : string;
  n_pid : Z;
  n_started : pynum;
  n_previous : option NativeGroup;
  n_now : pynum;
  n_failed : bool;
  n_retired : gset Z }.

Definition NativeGroupCursor (nonce : string) (pid : Z) (started : pynum) : res exn native_cursor :=
  bad ← Ok (negb (is_hex_string 32 nonce) || (pid <=? 0)) ||? bad_number started
        ||? Ok (num_lt started (PInt 0));
  if (bad : bool) then Err ValueError
  else Ok {| n_nonce := nonce; n_pid := pid; n_started := started; n_previous := None;
             n_now := started; n_failed := false; n_retired := ∅ |}.

Definition n_at now c := {| n_nonce := n_nonce c; n_pid := n_pid c; n_started := n_started c;
  n_previous := n_previous c; n_now := now; n_failed := n_failed c; n_retired := n_retired c |}.
Definition n_fail c := {| n_nonce := n_nonce c; n_pid := n_pid c; n_started := n_started c;
  n_previous := n_previous c; n_now := n_now c; n_failed := true; n_retired := n_retired c |}.
Definition n_retire k c := {| n_nonce := n_nonce c; n_pid := n_pid c; n_started := n_started c;
  n_previous := n_previous c; n_now := n_now c; n_failed := n_failed c;
  n_retired := {[k]} ∪ n_retired c |}.
Definition n_saw r c := {| n_nonce := n_nonce c; n_pid := n_pid c; n_started := n_started c;
  n_previous := Some r; n_now := n_now c; n_failed := n_failed c; n_retired := n_retired c |}.

Definition NATIVE_KEYS : list string :=
  ["version"; "nonce"; "pid"; "revision"; "connection"; "state"; "group_hash"; "event_monotonic"].

Definition int_between (lo hi : Z) (v : option json) : bool :=
  match v with Some (JNum (PInt n)) => (lo <=? n) && (n <=? hi) | _ => false end.

(** The checks of the record's own fields and against the retired connections. *)
Definition record_bad (c : native_cursor) (r : NativeGroup) : bool :=
  negb (Bool.eqb (bool_decide (g_state r = IDLE)) (connection r =? 0))
  || (bool_decide (g_state r = GROUPED) && negb (is_hex_string 64 (group_hash r)))
  || (bool_decide (g_state r <> GROUPED) && negb (empty_str (group_hash r)))
  || bool_decide (connection r ∈ n_retired c).

Definition regresses (p r : NativeGroup) : bool :=
  (revision r <? revision p) || num_lt (event_monotonic r) (event_monotonic p)
  || ((revision r =? revision p) && negb (group_eq r p)).

(** The statements after the record was built. *)
Definition take_record (r : NativeGroup) : ST native_cursor exn NativeGroup :=
  c ← gets id;
  if record_bad c r then raise ValueError
  else
    (match n_previous c with
     | None => mret tt
     | Some p =>
         if regresses p r then raise ValueError
         else if negb (connection r =? connection p) && negb (connection p =? 0) then
           modify (n_retire (connection p));;
           c ← gets id;
           if (256 <? Z.of_nat (size (n_retired c))) then raise ValueError else mret tt
         else mret tt
     end);;
    modify (n_saw r);; mret r.

Definition native_body (raw : string) (now : pynum) (alive : bool) : ST native_cursor exn NativeGroup :=
  c ← gets id;
  raise_if (Ok (n_failed c || negb alive || (2048 <? Z.of_nat (String.length raw)))
            ||? bad_number now ||? Ok (num_lt now (n_now c)));;
  modify (n_at now);;
  match loads unique_pairs raw with
  | Some (JObj kvs) =>
      if negb (same_set (kvs.*1) NATIVE_KEYS && is_int 1 (get "version" kvs)
               && is_str (n_nonce c) (get "nonce" kvs) && is_int (n_pid c) (get "pid" kvs)
               && int_between 1 MAX_COUNTER (get "revision" kvs)
               && int_between 0 (2 ^ 31 - 1) (get "connection" kvs)) then raise ValueError
      else match get "revision" kvs, get "connection" kvs, get "event_monotonic" kvs,
                 get "state" kvs ≫= group_state_of, get "group_hash" kvs with
      | Some (JNum (PInt rev)), Some (JNum (PInt conn)), Some (JNum ev), state, hash =>
          raise_if (bad_number ev ||? Ok (negb (num_le (n_started c) ev && num_le ev now)));;
          match state, hash with
          | Some st, Some (JStr h) =>
              take_record {| revision := rev; connection := conn; g_state := st; group_hash := h;
                             event_monotonic := ev |}
          | _, _ => raise ValueError
          end
      | _, _, _, _, _ => raise ValueError
      end
  | _ => raise ValueError
  end.

Definition native_accept (raw : string) (now : pynum) (alive : bool)
    : ST native_cursor exn NativeGroup :=
  guarded (native_body raw now alive) n_fail.

(** ** GroupSession *)
Inductive gexn : Type := GroupSessionRejected (code : string) | GValueError | GOverflow.

Definition UNVERIFIED : gexn := GroupSessionRejected "AIRPLAY_GROUP_SESSION_UNVERIFIED".
Definition OWNER_EXPIRED : gexn := GroupSessionRejected "AIRPLAY_GROUP_OWNER_EXPIRED".
Definition NEW_GRANT : gexn := GroupSessionRejected "AIRPLAY_NEW_RELAY_GRANT_REQUIRED".
Definition MASTER_UNKNOWN : gexn := GroupSessionRejected "AIRPLAY_MASTER_GROUP_UNKNOWN".

Definition of_exn (e : exn) : gexn :=
  match e with ValueError => GValueError | OverflowError => GOverflow end.

Record ReceiverBinding := {
  b_device : string; b_nonce : string; b_pid : Z; b_started : pynum }.

Record ReceiverSample := {
  native : string;
  s_sequence : json;
  s_observed : json;
  process_alive : bool }.

Inductive plan_status : Type := WAITING | ACTIVE | STOPPED | HANDOFF_REQUIRED.

#[export] Instance plan_status_eq_dec : EqDecision plan_status.
Proof. solve_decision. Defined.

Record GroupPlan := { plan_master : string; members : list string; p_status : plan_status }.

Definition samples : Type := list (string * ReceiverSample).

Record group_session := {
  device_ids : list string;
  master : string;
  _cursors : gmap string native_cursor;
  _heartbeats : gmap string heartbeat;
  _owner : heartbeat;
  _owner_observation : json;
  _samples : samples;
  _connections : gmap string Z;
  _group : string;
  _now : pynum;
  _deadline : pynum;
  _failed : bool;
  _terminal : bool;
  _locally_stopped : bool;
  plan : option GroupPlan }.

Definition upd_clock now s := {| device_ids := device_ids s; master := master s; _cursors := _cursors s;
  _heartbeats := _heartbeats s; _owner := _owner s; _owner_observation := _owner_observation s;
  _samples := _samples s; _connections := _connections s; _group := _group s; _now := now;
  _deadline := _deadline s; _failed := _failed s; _terminal := _terminal s;
  _locally_stopped := _locally_stopped s; plan := plan s |}.
Definition upd_failed s := {| device_ids := device_ids s; master := master s; _cursors := _cursors s;
  _heartbeats := _heartbeats s; _owner := _owner s; _owner_observation := _owner_observation s;
  _samples := _samples s; _connections := _connections s; _group := _group s; _now := _now s;
  _deadline := _deadline s; _failed := true; _terminal := _terminal s;
  _locally_stopped := _locally_stopped s; plan := plan s |}.
Definition upd_owner h s := {| device_ids := device_ids s; master := master s; _cursors := _cursors s;
  _heartbeats := _heartbeats s; _owner := h; _owner_observation := _owner_observation s;
  _samples := _samples s; _connections := _connections s; _group := _group s; _now := _now s;
  _deadline := _deadline s; _failed := _failed s; _terminal := _terminal s;
  _locally_stopped := _locally_stopped s; plan := plan s |}.
Definition upd_owner_observation o s := {| device_ids := device_ids s; master := master s;
  _cursors := _cursors s; _heartbeats := _heartbeats s; _owner := _owner s; _owner_observation := o;
  _samples := _samples s; _connections := _connections s; _group := _group s; _now := _now s;
  _deadline := _deadline s; _failed := _failed s; _terminal := _terminal s;
  _locally_stopped := _locally_stopped s; plan := plan s |}.
Definition upd_heartbeat d h s := {| device_ids := device_ids s; master := master s;
  _cursors := _cursors s; _heartbeats := <[d := h]> (_heartbeats s); _owner := _owner s;
  _owner_observation := _owner_observation s;
  _samples := _samples s; _connections := _connections s; _group := _group s; _now := _now s;
  _deadline := _deadline s; _failed := _failed s; _terminal := _terminal s;
  _locally_stopped := _locally_stopped s; plan := plan s |}.
Definition upd_cursor d c s := {| device_ids := device_ids s; master := master s;
  _cursors := <[d := c]> (_cursors s); _heartbeats := _heartbeats s; _owner := _owner s;
  _owner_observation := _owner_observation s;
  _samples := _samples s; _connections := _connections s; _group := _group s; _now := _now s;
  _deadline := _deadline s; _failed := _failed s; _terminal := _terminal s;
  _locally_stopped := _locally_stopped s; plan := plan s |}.
Definition upd_connection d k s := {| device_ids := device_ids s; master := master s;
  _cursors := _cursors s; _heartbeats := _heartbeats s; _owner := _owner s;
  _owner_observation := _owner_observation s;
  _samples := _samples s; _connections := <[d := k]> (_connections s); _group := _group s; _now := _now s;
  _deadline := _deadline s; _failed := _failed s; _terminal := _terminal s;
  _locally_stopped := _locally_stopped s; plan := plan s |}.
Definition upd_samples l s := {| device_ids := device_ids s; master := master s;
  _cursors := _cursors s; _heartbeats := _heartbeats s; _owner := _owner s;
  _owner_observation := _owner_observation s;
  _samples := l; _connections := _connections s; _group := _group s; _now := _now s;
  _deadline := _deadline s; _failed := _failed s; _terminal := _terminal s;
  _locally_stopped := _locally_stopped s; plan := plan s |}.
Definition upd_plan p g t ls s := {| device_ids := device_ids s; master := master s;
  _cursors := _cursors s; _heartbeats := _heartbeats s; _owner := _owner s;
  _owner_observation := _owner_observation s;
  _samples := _samples s; _connections := _connections s; _group := g; _now := _now s;
  _deadline := _deadline s; _failed := _failed s; _terminal := t;
  _locally_stopped := ls; plan := Some p |}.

Definition M := ST group_session gexn.

Definition id_bad (value : string) : bool :=
  empty_str value || negb (bool_decide (value = py_upper (py_strip value))) || (128 <? py_len value).

Definition lift {A} (r : res exn A) : res gexn A :=
  match r with Ok a => Ok a | Err e => Err (of_exn e) end.

Fixpoint make_cursors (bindings : list ReceiverBinding) : res exn (gmap string native_cursor) :=
  match bindings with
  | [] => Ok ∅
  | b :: bindings =>
      c ← NativeGroupCursor (b_nonce b) (b_pid b) (b_started b);
      m ← make_cursors bindings;
      Ok (<[b_device b := c]> m)
  end.

Definition GroupSession (bindings : list ReceiverBinding) (master : string)
    (started lifetime : pynum) : res gexn group_session :=
  let ids := map b_device bindings in
  bad ← lift (Ok (negb ((1 <=? length ids)%nat && (length ids <=? 16)%nat) || negb (distinct ids)
                  || bool_decide (master ∉ ids) || existsb id_bad ids
                  || negb (distinct (map b_nonce bindings)))
              ||? bad_number started ||? Ok (num_lt started (PInt 0))
              ||? bad_number lifetime
              ||? Ok (negb (num_le (PInt 1) lifetime && num_le lifetime (PInt 900))));
  if (bad : bool) then Err UNVERIFIED
  else
    cursors ← lift (make_cursors bindings);
    if existsb (fun b => num_lt started (b_started b)) bindings then Err UNVERIFIED
    else Ok {| device_ids := ids; master := master; _cursors := cursors;
               _heartbeats := list_to_map (map (fun d => (d, default_heartbeat)) ids);
               _owner := default_heartbeat; _owner_observation := JNull; _samples := [];
               _connections := ∅; _group := ""; _now := started;
               _deadline := num_add started lifetime; _failed := false; _terminal := false;
               _locally_stopped := false; plan := None |}.

Definition reject_if (c : res exn bool) (e : gexn) : M unit :=
  match c with
  | Ok true => raise e
  | Ok false => mret tt
  | Err e => raise (of_exn e)
  end.

Definition _check_clock (now : pynum) : M unit :=
  s ← gets id;
  reject_if (Ok (_failed s) ||? bad_number now
             ||? Ok (negb (num_le (_now s) now && num_lt now (_deadline s)))) OWNER_EXPIRED;;
  modify (upd_clock now).

Definition owner_check (obs : json) (now : pynum) : M unit :=
  fun s => let '(r, h) := check obs now (_owner s) in (lift r, upd_owner h s).

(** [self._heartbeats[identity].check(...)]; the keys are the bound devices. *)
Definition sample_check (d : string) (x : ReceiverSample) (now : pynum) : M unit :=
  fun s => match _heartbeats s !! d with
           | None => (Err GValueError, s)
           | Some h => let '(r, h) := check (observation (s_sequence x) (s_observed x)) now h in
                       (lift r, upd_heartbeat d h s)
           end.

Definition cursor_accept_sample (d : string) (x : ReceiverSample) (now : pynum) : M NativeGroup :=
  fun s => match _cursors s !! d with
           | None => (Err GValueError, s)
           | Some c => let '(r, c) := native_accept (native x) now (process_alive x) c in
                       (lift r, upd_cursor d c s)
           end.

(** [except ValueError: self._failed = True; raise GroupSessionRejected(code)]. *)
Definition failing {A} (m : M A) (code : gexn) : M A :=
  try_except m (fun e => match e with
                         | GOverflow => raise GOverflow
                         | _ => modify upd_failed;; raise code
                         end).

Definition renew_owner (sequence stamp : json) (now : pynum) : M unit :=
  failing (
    _check_clock now;;
    s ← gets id;
    (match _owner_observation s with JNull => mret tt | o => owner_check o now end);;
    owner_check (observation sequence stamp) now;;
    modify (upd_owner_observation (observation sequence stamp))) OWNER_EXPIRED.

Definition set_is (l : samples) (s : group_session) : bool := same_set (l.*1) (device_ids s).

Definition require_live (now : pynum) : M unit :=
  failing (
    _check_clock now;;
    s ← gets id;
    owner_check (_owner_observation s) now;;
    s ← gets id;
    if negb (set_is (_samples s) s) then raise UNVERIFIED
    else for_each (_samples s) (fun e => sample_check e.1 e.2 now)) UNVERIFIED.

(** [self._connections.setdefault(identity, record.connection)]. *)
Definition bind_connection (d : string) (r : NativeGroup) : M unit :=
  if connection r =? 0 then mret tt
  else
    s ← gets id;
    match _connections s !! d with
    | None => modify (upd_connection d (connection r))
    | Some old => if old =? connection r then mret tt else raise NEW_GRANT
    end.

Fixpoint observe_all (l : samples) (now : pynum) : M (gmap string NativeGroup) :=
  match l with
  | [] => mret ∅
  | (d, x) :: l =>
      sample_check d x now;;
      r ← cursor_accept_sample d x now;
      bind_connection d r;;
      records ← observe_all l now;
      (* a dict keeps one record per key *)
      mret (<[d := default r (records !! d)]> records)
  end.

(** [tuple(sorted(...))] by code points. *)
Definition str_le (a b : string) : bool :=
  match String.compare a b with Gt => false | _ => true end.
Fixpoint insert_sorted (x : string) (l : list string) : list string :=
  match l with
  | [] => [x]
  | y :: l' => if str_le x y then x :: l else y :: insert_sorted x l'
  end.
Definition sorted (l : list string) : list string := fold_right insert_sorted [] l.

Definition in_group (s : group_session) (g d : string) (records : gmap string NativeGroup) : bool :=
  negb (bool_decide (d = master s))
  && match records !! d with
     | Some r => bool_decide (g_state r = GROUPED) && bool_decide (group_hash r = g)
     | None => false
     end.

(** The decision of [observe] once every sample was accepted. *)
Definition decide_plan (ids : list string) (records : gmap string NativeGroup) : M GroupPlan :=
  s ← gets id;
  match records !! master s with
  | None => raise GValueError
  | Some leader =>
      if bool_decide (g_state leader = UNASSIGNED) && negb (empty_str (_group s))
      then raise MASTER_UNKNOWN
      else if bool_decide (g_state leader ∈ [IDLE; UNASSIGNED]) then
        if negb (empty_str (_group s)) then
          let status := if existsb (fun d => match records !! d with
                                             | Some r => bool_decide (g_state r <> IDLE)
                                             | None => false end) ids
                        then HANDOFF_REQUIRED else STOPPED in
          let p := {| plan_master := master s; members := []; p_status := status |} in
          modify (upd_plan p (_group s) true (_locally_stopped s));; mret p
        else
          let p := {| plan_master := master s; members := []; p_status := WAITING |} in
          modify (upd_plan p (_group s) (_terminal s) (_locally_stopped s));; mret p
      else if negb (empty_str (_group s)) && negb (bool_decide (group_hash leader = _group s))
      then raise NEW_GRANT
      else
        let g := group_hash leader in
        let p := {| plan_master := master s;
                    members := sorted (List.filter (fun d => in_group s g d records) ids);
                    p_status := ACTIVE |} in
        modify (upd_plan p g (_terminal s) (_locally_stopped s));; mret p
  end.

Definition observe_body (l : samples) (now : pynum) : M GroupPlan :=
  _check_clock now;;
  s ← gets id;
  owner_check (_owner_observation s) now;;
  s ← gets id;
  if _terminal s || negb (set_is l s) then raise UNVERIFIED
  else
    records ← observe_all l now;
    modify (upd_samples l);;
    decide_plan (l.*1) records.

Definition observe (l : samples) (now : pynum) : M GroupPlan :=
  try_except (observe_body l now)
    (fun e => match e with
              | GOverflow => raise GOverflow
              | GroupSessionRejected code => modify upd_failed;; raise e
              | GValueError => modify upd_failed;; raise UNVERIFIED
              end).

(** A member of the group may still drain to IDLE during the teardown. *)
Definition departed (s : group_session) (d : string) (old : option NativeGroup) (r : NativeGroup) : bool :=
  (negb (bool_decide (d = master s)) || _locally_stopped s)
  && match old with
     | None => false
     | Some o => bool_decide (g_state o = GROUPED) && bool_decide (group_hash o = _group s)
                 && bool_decide (_connections s !! d = Some (connection o))
     end
  && bool_decide (g_state r = IDLE).

Definition same_record (old : option NativeGroup) (r : NativeGroup) : bool :=
  match old with Some o => group_eq r o | None => false end.

Fixpoint refresh_all (l : samples) (now : pynum) : M unit :=
  match l with
  | [] => mret tt
  | (d, x) :: l =>
      s ← gets id;
      let old := _cursors s !! d ≫= n_previous in
      r ← cursor_accept_sample d x now;
      if negb (same_record old r) && negb (departed s d old r) then raise NEW_GRANT
      else sample_check d x now;; refresh_all l now
  end.

Definition refresh (l : samples) (now : pynum) : M GroupPlan :=
  s ← gets id;
  if negb (_terminal s) then observe l now
  else failing (
    _check_clock now;;
    s ← gets id;
    owner_check (_owner_observation s) now;;
    s ← gets id;
    match plan s with
    | None => raise UNVERIFIED
    | Some p =>
        if negb (set_is l s) then raise UNVERIFIED
        else refresh_all l now;; modify (upd_samples l);; mret p
    end) UNVERIFIED.

Definition request_stop (now : pynum) : M GroupPlan :=
  require_live now;;
  s ← gets id;
  match _terminal s, plan s with
  | true, Some p => mret p
  | true, None => raise GValueError       (* a terminal session has a plan *)
  | false, _ =>
      let p := {| plan_master := master s; members := []; p_status := STOPPED |} in
      modify (upd_plan p (_group s) true true);; mret p
  end.

(** ** The history of one native observer *)
Definition keeps_native (P : option NativeGroup) (c : native_cursor) : Prop := n_previous c = P.

Lemma native_keeps raw now alive P :
  hoare (keeps_native P) (native_accept raw now alive) (fun r c => n_previous c = Some r)
    (fun _ => keeps_native P).
Proof.
  assert (forall A (e : exn) (Q : A -> native_cursor -> Prop),
    hoare (keeps_native P) (raise e) Q (fun _ => keeps_native P)) as Hraise
    by (intros; by apply hoare_raise).
  assert (forall c, hoare (keeps_native P) (raise_if c) (fun _ : () => keeps_native P)
    (fun _ => keeps_native P)) as Hif by (intros [[|]|]; by intros s Hs).
  unfold native_accept, guarded. eapply hoare_try with (X := fun _ => keeps_native P).
  2: { intros [|]; [|done]. apply hoare_bind with (Q := fun _ => keeps_native P); [|done].
       intros c Hc. exact Hc. }
  unfold native_body. apply hoare_bind with (Q := fun _ => keeps_native P); [by intros c Hc|intros c].
  apply hoare_bind with (Q := fun _ => keeps_native P); [apply Hif|intros _].
  apply hoare_bind with (Q := fun _ => keeps_native P); [by intros c' Hc|intros _].
  destruct (loads _ _) as [[| | | | |kvs]|]; try done. destruct (negb _); [done|].
  destruct (get _ _) as [[| |[rev|]| | |]|]; try done. destruct (get _ _) as [[| |[conn|]| | |]|]; try done.
  destruct (get _ _) as [[| |ev| | |]|]; try done.
  apply hoare_bind with (Q := fun _ => keeps_native P); [apply Hif|intros _].
  destruct (_ ≫= _) as [st|]; [|done]. destruct (get _ _) as [[| | |h| |]|]; try done.
  unfold take_record. apply hoare_bind with (Q := fun _ => keeps_native P); [by intros c' Hc|intros c'].
  destruct (record_bad _ _); [done|].
  apply hoare_bind with (Q := fun _ => keeps_native P).
  { destruct (n_previous c') as [p|]; [|by intros s Hs]. destruct (regresses _ _); [done|].
    destruct (_ && _); [|by intros s Hs].
    apply hoare_bind with (Q := fun _ => keeps_native P); [by intros s Hs|intros _].
    apply hoare_bind with (Q := fun _ => keeps_native P); [by intros s Hs|intros s].
    destruct (_ <? _); [done|by intros s' Hs]. }
  intros _ s Hs. done.
Qed.

(** An accepted record. *)
Record native_ok (c : native_cursor) (r : NativeGroup) (c' : native_cursor) : Prop := {
  no_alive : n_failed c = false;
  no_saw : n_previous c' = Some r;
  no_record : record_bad c r = false;
  no_regress : forall p, n_previous c = Some p -> regresses p r = false;
  no_retired : n_retired c' = match n_previous c with
    | Some p => if negb (connection r =? connection p) && negb (connection p =? 0)
                then {[connection p]} ∪ n_retired c else n_retired c
    | None => n_retired c
    end }.

Lemma take_record_Ok r c r' c' : take_record r c = (Ok r', c') ->
  r' = r /\ n_previous c' = Some r /\ record_bad c r = false
  /\ (forall p, n_previous c = Some p -> regresses p r = false)
  /\ n_retired c' = match n_previous c with
    | Some p => if negb (connection r =? connection p) && negb (connection p =? 0)
                then {[connection p]} ∪ n_retired c else n_retired c
    | None => n_retired c
    end.
Proof.
  unfold take_record. intros (c0 & s0 & [= <- <-] & H)%st_bind_Ok. change (id c) with c in H.
  destruct (record_bad c r) eqn:Eb; [done|].
  apply st_bind_Ok in H as (u & c1 & H1 & H). apply st_bind_Ok in H as (u' & c2 & [= <-] & [= <- <-]).
  cbn. split; [done|]. split; [by subst c2|]. split; [done|].
  subst c2. destruct (n_previous c) as [p|] eqn:Ep; [|by injection H1 as _ <-].
  destruct (regresses p r) eqn:Er; [done|]. split; [by intros ? [= <-]|].
  destruct (_ && _); [|by injection H1 as _ <-].
  apply st_bind_Ok in H1 as (u1 & c3 & [= <-] & H1). apply st_bind_Ok in H1 as (c4 & c5 & [= <- <-] & H1).
  subst c3. destruct (_ <? _); [done|]. by injection H1 as _ <-.
Qed.

Lemma native_accept_Ok raw now alive c r c' :
  native_accept raw now alive c = (Ok r, c') -> native_ok c r c'.
Proof.
  unfold native_accept. intros Hm%guarded_Ok. unfold native_body in Hm.
  apply st_bind_Ok in Hm as (c0 & s0 & [= <- <-] & Hm). change (id c) with c in Hm.
  apply st_bind_Ok in Hm as (u1 & s1 & H1 & Hm). apply raise_if_Ok in H1 as [H1 ->].
  apply ror_false in H1 as [H1 _]. apply ror_false in H1 as [[= Ha] _]. bdestr.
  apply st_bind_Ok in Hm as (u2 & s2 & [= <-] & Hm). subst s2.
  destruct (loads _ _) as [[| | | | |kvs]|]; try done. destruct (negb _); [done|].
  destruct (get _ _) as [[| |[rev|]| | |]|]; try done. destruct (get _ _) as [[| |[conn|]| | |]|]; try done.
  destruct (get _ _) as [[| |ev| | |]|]; try done.
  apply st_bind_Ok in Hm as (u3 & s3 & H3 & Hm). apply raise_if_Ok in H3 as [_ ->].
  destruct (_ ≫= _) as [st|]; [|done]. destruct (get _ _) as [[| | |h| |]|]; try done.
  apply take_record_Ok in Hm as (-> & Hp & Hb & Hr & Hret). by split.
Qed.

(** A supervisor that reads one observer at the given times. *)
Fixpoint native_run (calls : list (string * pynum * bool)) (c : native_cursor) : list NativeGroup :=
  match calls with
  | [] => []
  | (raw, now, alive) :: calls =>
      match native_accept raw now alive c with
      | (Ok r, c) => r :: native_run calls c
      | (Err _, c) => native_run calls c
      end
  end.

Record advances (a b : NativeGroup) : Prop := {
  ad_revision : revision a <= revision b;
  ad_event : num_lt (event_monotonic b) (event_monotonic a) = false;
  ad_same : revision a = revision b -> group_eq b a = true }.

Definition well_formed (r : NativeGroup) : Prop :=
  (g_state r = IDLE <-> connection r = 0) /\
  (g_state r = GROUPED -> is_hex_string 64 (group_hash r) = true) /\
  (g_state r <> GROUPED -> group_hash r = "").

Lemma record_ok c r : record_bad c r = false -> well_formed r /\ connection r ∉ n_retired c.
Proof.
  unfold record_bad. intros H. bdestr.
  match goal with H : Bool.eqb _ _ = true |- _ => apply Bool.eqb_prop in H; rename H into He end.
  split; [|done]. split; [|split].
  - rewrite <- Z.eqb_eq, <- He, bool_decide_eq_true. done.
  - intros Hg. rewrite bool_decide_eq_true_2 in * by done. cbn in *. bdestr. done.
  - intros Hg. rewrite (bool_decide_eq_true_2 (g_state r <> GROUPED)) in * by done. cbn in *. bdestr.
    unfold empty_str in *. by bdestr.
Qed.

(** Where a connection of the history can be: current, or retired. *)
Definition accounted (c : native_cursor) (a : NativeGroup) : Prop :=
  connection a = 0 \/ (exists p, n_previous c = Some p /\ connection p = connection a)
  \/ connection a ∈ n_retired c.

Lemma native_accounted c r c' a : native_ok c r c' -> accounted c a -> accounted c' a.
Proof.
  intros [_ Hs Hb _ Hr] Ha. unfold accounted. rewrite Hs, Hr.
  destruct (Z.eq_dec (connection a) 0) as [|Hne]; [by left|right].
  destruct Ha as [|[(p & Hp & Hc)|Ha]]; [done| |].
  - rewrite Hp. destruct (Z.eqb_spec (connection r) (connection p)) as [E|E]; cbn.
    + left. exists r. split; [done|lia].
    + replace (connection p =? 0) with false by (symmetry; apply Z.eqb_neq; lia). cbn.
      right. rewrite <- Hc. set_solver.
  - right. destruct (n_previous c) as [p|]; [|done]. destruct (_ && _); set_solver.
Qed.

Lemma native_err raw now alive c e c' : native_accept raw now alive c = (Err e, c') ->
  n_previous c' = n_previous c.
Proof.
  intros H. pose proof (native_keeps raw now alive (n_previous c) c eq_refl) as Hk.
  rewrite H in Hk. exact Hk.
Qed.

Definition retires (c c' : native_cursor) : Prop := n_retired c ⊆ n_retired c'.
#[export] Instance retires_preorder : PreOrder retires.
Proof. split; [intros c; unfold retires; set_solver|intros a b c; unfold retires; set_solver]. Qed.

Lemma native_retires raw now alive : steps_in retires (native_accept raw now alive).
Proof.
  apply guarded_steps; [apply _| |by intros s; unfold retires]. unfold native_body.
  apply steps_in_bind; [apply _|apply steps_in_gets, _|intros c].
  apply steps_in_bind; [apply _|by apply raise_if_steps, _|intros _].
  apply steps_in_bind; [apply _|apply modify_steps; intros ?; unfold retires; set_solver|intros _].
  destruct (loads _ _) as [[| | | | |kvs]|]; try apply steps_in_raise, _.
  destruct (negb _); [apply steps_in_raise, _|].
  destruct (get _ _) as [[| |[rev|]| | |]|]; try apply steps_in_raise, _.
  destruct (get _ _) as [[| |[conn|]| | |]|]; try apply steps_in_raise, _.
  destruct (get _ _) as [[| |ev| | |]|]; try apply steps_in_raise, _.
  apply steps_in_bind; [apply _|by apply raise_if_steps, _|intros _].
  destruct (_ ≫= _) as [st|]; [|apply steps_in_raise, _].
  destruct (get _ _) as [[| | |h| |]|]; try apply steps_in_raise, _.
  unfold take_record. apply steps_in_bind; [apply _|apply steps_in_gets, _|intros c'].
  destruct (record_bad _ _); [apply steps_in_raise, _|].
  apply steps_in_bind; [apply _| |intros _].
  - destruct (n_previous c'); [|apply steps_in_ret, _]. destruct (regresses _ _); [apply steps_in_raise, _|].
    destruct (_ && _); [|apply steps_in_ret, _].
    apply steps_in_bind; [apply _| |intros _].
    { apply modify_steps. intros s. unfold retires. cbn. set_solver. }
    apply steps_in_bind; [apply _|apply steps_in_gets, _|intros s].
    destruct (_ <? _); [apply steps_in_raise, _|apply steps_in_ret, _].
  - apply steps_in_bind; [apply _|apply modify_steps; intros ?; unfold retires; set_solver|intros _]. apply steps_in_ret, _.
Qed.

Lemma native_run_retired calls c k : k ∈ n_retired c ->
  Forall (fun x => connection x <> k) (native_run calls c).
Proof.
  revert c. induction calls as [|[[raw now] alive] calls IH]; intros c Hk; cbn; [constructor|].
  pose proof (native_retires raw now alive c) as Hr.
  destruct (native_accept raw now alive c) as [[r|e] c'] eqn:E; cbn in Hr; unfold retires in Hr;
    [|apply IH; set_solver].
  apply native_accept_Ok in E as [_ _ Hb _ _]. apply record_ok in Hb as [_ Hn].
  constructor; [set_solver|]. apply IH. set_solver.
Qed.

(** What the rest of a run may say of the connection of the last record. *)
Lemma native_run_current calls c p : n_previous c = Some p -> connection p <> 0 ->
  forall h2 b h3, native_run calls c = h2 ++ b :: h3 -> connection b = connection p ->
  Forall (fun x => connection x = connection p) h2.
Proof.
  revert c p. induction calls as [|[[raw now] alive] calls IH]; intros c p Hp Hne h2 b h3; cbn.
  { intros Hn. by destruct h2. }
  destruct (native_accept raw now alive c) as [[r|e] c'] eqn:E.
  - apply native_accept_Ok in E as [_ Hs Hb _ Hret]. rewrite Hp in Hret.
    destruct h2 as [|x h2]; [constructor|]. intros [= -> Hh] Hbp.
    destruct (Z.eq_dec (connection x) (connection p)) as [Ex|Ex].
    + constructor; [done|]. rewrite <- Ex in *. by apply (IH c' x Hs Hne h2 b h3).
    + exfalso. rewrite (proj2 (Z.eqb_neq _ _) Ex), (proj2 (Z.eqb_neq _ _) Hne) in Hret. cbn in Hret.
      assert (connection p ∈ n_retired c') as Hin by (rewrite Hret; set_solver).
      pose proof (native_run_retired calls c' (connection p) Hin) as Hf.
      rewrite Hh, list.Forall_app, list.Forall_cons in Hf. by destruct Hf as (_ & Hf & _).
  - apply (IH c' p); [|done]. by rewrite (native_err _ _ _ _ _ _ E).
Qed.

Lemma native_run_ok calls c :
  let h := native_run calls c in
  Forall well_formed h /\
  match n_previous c with Some p => Sorted advances (p :: h) | None => Sorted advances h end /\
  (forall h1 a h2 b h3, h = h1 ++ a :: h2 ++ b :: h3 -> connection a <> 0 ->
     connection b = connection a -> Forall (fun x => connection x = connection a) h2).
Proof.
  revert c. induction calls as [|[[raw now] alive] calls IH]; intros c; cbn.
  { split; [constructor|]. split; [destruct (n_previous c); by repeat constructor|].
    intros h1 a h2 b h3 Hn. by destruct h1. }
  destruct (native_accept raw now alive c) as [[r|e] c'] eqn:E; destruct (IH c') as (H1 & H2 & H3).
  - apply native_accept_Ok in E as [_ Hs Hb Hreg _]. rewrite Hs in H2.
    split; [constructor; [by apply (record_ok c)|done]|]. split.
    + destruct (n_previous c) as [p|]; [|done]. constructor; [done|]. constructor.
      specialize (Hreg p eq_refl). unfold regresses in Hreg. bdestr. split; [lia|done|].
      intros Hrev. rewrite Hrev, Z.eqb_refl in *. cbn in *. by bdestr.
    + intros [|x h1] a h2 b h3 [= -> Hh]; [|by apply (H3 h1 a h2 b h3)].
      intros Ha Hba. by apply (native_run_current calls c' a Hs Ha h2 b h3).
  - by rewrite (native_err _ _ _ _ _ _ E) in H2.
Qed.

Lemma native_failed raw now alive c : n_failed c = true ->
  exists c', native_accept raw now alive c = (Err ValueError, c') /\ n_failed c' = true.
Proof.
  intros Hf. eexists. unfold native_accept, guarded, try_except, native_body, mbind, st_bind, gets, id.
  rewrite Hf. by split.
Qed.

Lemma native_run_failed calls c : n_failed c = true -> native_run calls c = [].
Proof.
  revert c. induction calls as [|[[raw now] alive] calls IH]; intros c Hf; cbn; [done|].
  destruct (native_failed raw now alive c Hf) as (c' & -> & Hf'). by apply IH.
Qed.

(** The native observations are a history: whatever bytes the observer's file holds
    and whenever it is read, the accepted records are well formed, never go back in
    revision or event time, never change under one revision, and a connection that
    was left is not taken up again.  A dead process and a first refusal end it. *)
Theorem native_history nonce pid started c calls :
  NativeGroupCursor nonce pid started = Ok c ->
  let h := native_run calls c in
  Forall well_formed h /\ Sorted advances h /\
  (forall h1 a h2 b h3, h = h1 ++ a :: h2 ++ b :: h3 -> connection a <> 0 ->
     connection b = connection a -> Forall (fun x => connection x = connection a) h2) /\
  (forall raw now later, native_run ((raw, now, false) :: later) c = []).
Proof.
  unfold NativeGroupCursor. intros (bad & _ & H)%bind_Ok. destruct bad; [done|].
  match type of H with Ok ?x = _ => set (c0 := x) in * end. injection H as <-.
  destruct (native_run_ok calls c0) as (H1 & H2 & H3). split; [done|]. split; [exact H2|].
  split; [exact H3|]. intros raw now later. cbn [native_run].
  destruct (native_accept raw now false c0) as [r c'] eqn:E.
  assert (r = Err ValueError /\ n_failed c' = true) as [-> Hf].
  { revert E. unfold native_accept, guarded, try_except, native_body, mbind, st_bind, gets, id. cbn.
    by intros [= <- <-]. }
  by apply native_run_failed.
Qed.

(** ** What a group session keeps *)
Definition prev_of (s : group_session) (d : string) : option NativeGroup :=
  _cursors s !! d ≫= n_previous.

(** The grant of a session: the parts that no observation may take back. *)
Record same_grant (s s' : group_session) : Prop := {
  gr_ids : device_ids s' = device_ids s;
  gr_master : master s' = master s;
  gr_group : _group s <> "" -> _group s' = _group s;
  gr_conn : _connections s ⊆ _connections s';
  gr_terminal : _terminal s = true -> _terminal s' = true /\ plan s' = plan s;
  gr_failed : _failed s = true -> _failed s' = true;
  gr_deadline : _deadline s' = _deadline s;
  gr_age : max_age (_owner s) = FIVE -> max_age (_owner s') = FIVE;
  gr_ages : map_Forall (fun _ h => max_age h = FIVE) (_heartbeats s) ->
            map_Forall (fun _ h => max_age h = FIVE) (_heartbeats s') }.

#[export] Instance same_grant_preorder : PreOrder same_grant.
Proof.
  split; [intros s; split; auto; done|].
  intros s1 s2 s3 [A1 A2 A3 A4 A5 A6 A7 A8 A9] [B1 B2 B3 B4 B5 B6 B7 B8 B9].
  split; try congruence; auto.
  - intros Hg. rewrite <- (A3 Hg). apply B3. by rewrite (A3 Hg).
  - by transitivity (_connections s2).
  - intros Ht. destruct (A5 Ht) as [Ht2 Hp]. destruct (B5 Ht2) as [? ?]. split; congruence.
Qed.

(** The parts an observation changes only through its plan. *)
Record quiet (s s' : group_session) : Prop := {
  qu_ids : device_ids s' = device_ids s;
  qu_master : master s' = master s;
  qu_group : _group s' = _group s;
  qu_conn : _connections s ⊆ _connections s';
  qu_terminal : _terminal s' = _terminal s;
  qu_plan : plan s' = plan s;
  qu_samples : _samples s' = _samples s;
  qu_observation : _owner_observation s' = _owner_observation s;
  qu_failed : _failed s' = _failed s;
  qu_deadline : _deadline s' = _deadline s;
  qu_age : max_age (_owner s) = FIVE -> max_age (_owner s') = FIVE;
  qu_ages : map_Forall (fun _ h => max_age h = FIVE) (_heartbeats s) ->
            map_Forall (fun _ h => max_age h = FIVE) (_heartbeats s') }.

#[export] Instance quiet_preorder : PreOrder quiet.
Proof.
  split; [intros s; by split|].
  intros s1 s2 s3 [] []. split; try congruence; auto. by transitivity (_connections s2).
Qed.

Lemma quiet_grant s s' : quiet s s' -> same_grant s s'.
Proof. intros []. split; try done; intros; try split; congruence. Qed.

Lemma steps_quiet_grant {A} (m : M A) : steps_in quiet m -> steps_in same_grant m.
Proof. intros H s. by apply quiet_grant. Qed.

Lemma reject_if_steps (R : group_session -> group_session -> Prop) `{!PreOrder R} c e :
  steps_in R (reject_if c e).
Proof. intros s. by destruct c as [[|]|e']. Qed.

Lemma check_clock_quiet now : steps_in quiet (_check_clock now).
Proof.
  apply steps_in_bind; [apply _|apply steps_in_gets, _|intros s0].
  apply steps_in_bind; [apply _|apply reject_if_steps, _|intros _]. by intros s; split; cbn.
Qed.

Lemma owner_check_quiet obs now : steps_in quiet (owner_check obs now).
Proof.
  intros s. unfold owner_check. destruct (check obs now (_owner s)) as [r h] eqn:E.
  apply check_same_age in E. split; cbn; auto; try done. congruence.
Qed.

Lemma sample_check_quiet d x now : steps_in quiet (sample_check d x now).
Proof.
  intros s. unfold sample_check. destruct (_heartbeats s !! d) as [h|] eqn:Eh; [|reflexivity].
  destruct (check _ now h) as [r h'] eqn:E. apply check_same_age in E.
  split; cbn; auto; try done. intros Hall. apply map_Forall_insert_2; [|done]. rewrite E. by apply (Hall d).
Qed.

Lemma cursor_sample_quiet d x now : steps_in quiet (cursor_accept_sample d x now).
Proof.
  intros s. unfold cursor_accept_sample. destruct (_cursors s !! d) as [c|]; [|reflexivity].
  destruct (native_accept _ now _ c) as [r c']. split; cbn; auto; done.
Qed.

Lemma bind_connection_quiet d r : steps_in quiet (bind_connection d r).
Proof.
  unfold bind_connection. destruct (_ =? 0); [apply steps_in_ret, _|]. intros s.
  unfold mbind, st_bind, gets, id. destruct (_connections s !! d) as [old|] eqn:E.
  - destruct (old =? _); reflexivity.
  - split; cbn; auto; try done. by apply insert_subseteq.
Qed.

Lemma observe_all_quiet l now : steps_in quiet (observe_all l now).
Proof.
  induction l as [|[d x] l IH]; cbn; [apply steps_in_ret, _|].
  apply steps_in_bind; [apply _|apply sample_check_quiet|intros _].
  apply steps_in_bind; [apply _|apply cursor_sample_quiet|intros r].
  apply steps_in_bind; [apply _|apply bind_connection_quiet|intros _].
  apply steps_in_bind; [apply _|done|intros rs]. apply steps_in_ret, _.
Qed.

Lemma for_each_checks_quiet l now :
  steps_in quiet (for_each l (fun e => sample_check e.1 e.2 now)).
Proof. apply steps_in_for_each; [apply _|intros e; apply sample_check_quiet]. Qed.

Lemma refresh_all_quiet l now : steps_in quiet (refresh_all l now).
Proof.
  induction l as [|[d x] l IH]; cbn; [apply steps_in_ret, _|].
  apply steps_in_bind; [apply _|apply steps_in_gets, _|intros s].
  apply steps_in_bind; [apply _|apply cursor_sample_quiet|intros r].
  destruct (_ && _); [apply steps_in_raise, _|].
  apply steps_in_bind; [apply _|apply sample_check_quiet|intros _]. done.
Qed.

Lemma failing_steps {A} (m : M A) code : steps_in same_grant m -> steps_in same_grant (failing m code).
Proof.
  intros Hm. apply steps_in_try; [apply _|done|].
  intros [c| |]; try apply steps_in_raise, _;
    (apply steps_in_bind; [apply _|by intros s; split; cbn; auto|intros _; apply steps_in_raise, _]).
Qed.

(** The plan that [observe] decides; the session is not terminal before. *)
Lemma decide_plan_grant ids rs s : _terminal s = false -> same_grant s (decide_plan ids rs s).2.
Proof.
  intros Ht. unfold decide_plan, mbind, st_bind, gets, id.
  destruct (rs !! master s) as [leader|]; [|reflexivity].
  destruct (_ && _); [reflexivity|]. destruct (bool_decide _) eqn:El.
  - destruct (negb (empty_str (_group s))); cbn; split; cbn; auto; congruence.
  - destruct (negb (empty_str (_group s))) eqn:Eg; cbn.
    + destruct (bool_decide (group_hash leader = _group s)) eqn:Eh; cbn; [|reflexivity].
      bdestr. split; cbn; auto; congruence.
    + bdestr. unfold empty_str in Eg. bdestr. split; cbn; auto; congruence.
Qed.

(** ** What an accepted call saw *)
Definition obs_fresh (obs : json) (now : pynum) : Prop :=
  exists kvs q t, obs = JObj kvs /\ get "sequence" kvs = Some (JNum (PInt q))
    /\ get "observed_monotonic" kvs = Some (JNum t) /\ num_le (PInt 0) t = true /\ recent t now.

Definition sample_fresh (x : ReceiverSample) (now : pynum) : Prop :=
  obs_fresh (observation (s_sequence x) (s_observed x)) now.

Record inv (s : group_session) : Prop := {
  i_age : max_age (_owner s) = FIVE;
  i_ages : map_Forall (fun _ h => max_age h = FIVE) (_heartbeats s);
  i_plan : _terminal s = true -> exists p, plan s = Some p /\ members p = []
             /\ (p_status p = STOPPED \/ p_status p = HANDOFF_REQUIRED) }.

Lemma check_fresh obs now h u h' : check obs now h = (Ok u, h') -> max_age h = FIVE -> obs_fresh obs now.
Proof.
  intros (kvs & q & t & -> & Hq & Ht & Hb & _)%check_Ok Hm. exists kvs, q, t.
  destruct (stale_recent h q t now Hm (b_fresh _ _ _ _ Hb)). done.
Qed.

Lemma failing_Ok {A} (m : M A) code s a s' : failing m code s = (Ok a, s') -> m s = (Ok a, s').
Proof. unfold failing, try_except. destruct (m s) as [[x|[c| |]] s1]; cbn; done. Qed.

Lemma check_clock_Ok now s u s' : _check_clock now s = (Ok u, s') ->
  _failed s = false /\ num_lt now (_deadline s) = true /\ s' = upd_clock now s.
Proof.
  intros (s0 & s1 & [= <- <-] & H)%st_bind_Ok. change (id s) with s in H.
  apply st_bind_Ok in H as (u1 & s1 & H1 & [= _ <-]).
  destruct (_ ||? _) as [[|]|e] eqn:E; try done. injection H1 as _ <-.
  apply ror_false in E as [E1 [= E3]]. apply ror_false in E1 as [[= E1] _]. bdestr. done.
Qed.

Lemma owner_check_Ok obs now s u s' : owner_check obs now s = (Ok u, s') ->
  max_age (_owner s) = FIVE -> obs_fresh obs now.
Proof.
  unfold owner_check. destruct (check obs now (_owner s)) as [[x|e] h] eqn:E; [|done].
  intros _ Hm. by apply (check_fresh _ _ _ _ _ E).
Qed.

Lemma sample_check_Ok d x now s u s' : sample_check d x now s = (Ok u, s') ->
  map_Forall (fun _ h => max_age h = FIVE) (_heartbeats s) ->
  sample_fresh x now /\ forall d', prev_of s' d' = prev_of s d'.
Proof.
  unfold sample_check. destruct (_heartbeats s !! d) as [h|] eqn:Eh; [|done].
  destruct (check _ now h) as [[y|e] h'] eqn:E; [|done]. intros [= _ <-] Hall.
  split; [|done]. apply (check_fresh _ _ _ _ _ E). by apply (Hall d).
Qed.

Lemma native_alive raw now alive c r c' : native_accept raw now alive c = (Ok r, c') -> alive = true.
Proof.
  intros Hm%guarded_Ok. unfold native_body in Hm.
  apply st_bind_Ok in Hm as (c0 & s0 & [= <- <-] & Hm). change (id c) with c in Hm.
  apply st_bind_Ok in Hm as (u1 & s1 & H1 & _). apply raise_if_Ok in H1 as [H1 _].
  apply ror_false in H1 as [H1 _]. apply ror_false in H1 as [[= Ha] _]. by bdestr.
Qed.

Lemma cursor_sample_Ok d x now s r s' : cursor_accept_sample d x now s = (Ok r, s') ->
  process_alive x = true /\ well_formed r /\ prev_of s' d = Some r
  /\ (forall d', d' <> d -> prev_of s' d' = prev_of s d') /\ _connections s' = _connections s.
Proof.
  unfold cursor_accept_sample. destruct (_cursors s !! d) as [c|] eqn:Ec; [|done].
  destruct (native_accept _ now _ c) as [[r1|e] c'] eqn:E; [|done]. intros [= <- <-].
  pose proof (native_alive _ _ _ _ _ _ E) as Ha. apply native_accept_Ok in E as [_ Hs Hb _ _].
  apply record_ok in Hb as [Hw _]. split; [done|]. split; [done|]. unfold prev_of. cbn.
  split; [by rewrite lookup_insert_eq|]. split; [|done]. intros d' Hd. by rewrite lookup_insert_ne.
Qed.

Lemma bind_connection_Ok d r s u s' : bind_connection d r s = (Ok u, s') ->
  (connection r <> 0 -> _connections s' !! d = Some (connection r)) /\
  forall d', prev_of s' d' = prev_of s d'.
Proof.
  unfold bind_connection. destruct (Z.eqb_spec (connection r) 0) as [E|E]; [by intros [= _ <-]|].
  unfold mbind, st_bind, gets, id. destruct (_connections s !! d) as [old|] eqn:Eo.
  - destruct (Z.eqb_spec old (connection r)) as [->|]; [by intros [= _ <-]|done].
  - intros [= _ <-]. cbn. split; [by rewrite lookup_insert_eq|done].
Qed.

(** The records of one round of samples. *)
Record round (l : samples) (now : pynum) (s : group_session) (rs : gmap string NativeGroup)
    (s' : group_session) : Prop := {
  ro_fresh : Forall (fun e => sample_fresh e.2 now /\ process_alive e.2 = true) l;
  ro_dom : forall d, d ∈ l.*1 <-> is_Some (rs !! d);
  ro_record : forall d r, rs !! d = Some r -> prev_of s' d = Some r /\ well_formed r
    /\ (connection r <> 0 -> _connections s' !! d = Some (connection r));
  ro_frame : forall d, d ∉ l.*1 -> prev_of s' d = prev_of s d }.

Lemma observe_all_Ok l now s rs s' : observe_all l now s = (Ok rs, s') ->
  map_Forall (fun _ h => max_age h = FIVE) (_heartbeats s) -> round l now s rs s'.
Proof.
  revert s rs s'. induction l as [|[d x] l IH]; intros s rs s'; cbn.
  { intros [= <- <-] _. split; [constructor| | |done].
    - intros d. split; [by intros ?%elem_of_nil|by intros [? ?]].
    - done. }
  intros (u1 & s1 & H1 & H)%st_bind_Ok Hall.
  pose proof (sample_check_quiet d x now s) as Q1. rewrite H1 in Q1. cbn in Q1.
  destruct (sample_check_Ok _ _ _ _ _ _ H1 Hall) as [Hf Hp1].
  apply st_bind_Ok in H as (r & s2 & H2 & H).
  pose proof (cursor_sample_quiet d x now s1) as Q2. rewrite H2 in Q2. cbn in Q2.
  destruct (cursor_sample_Ok _ _ _ _ _ _ H2) as (Ha & Hw & Hp2 & Hp2' & Hc2).
  apply st_bind_Ok in H as (u3 & s3 & H3 & H).
  pose proof (bind_connection_quiet d r s2) as Q3. rewrite H3 in Q3. cbn in Q3.
  destruct (bind_connection_Ok _ _ _ _ _ H3) as [Hc3 Hp3].
  apply st_bind_Ok in H as (rs0 & s4 & H4 & [= <- <-]).
  pose proof (observe_all_quiet l now s3) as Q4. rewrite H4 in Q4. cbn in Q4.
  destruct (IH s3 rs0 s4 H4) as [R1 R2 R3 R4].
  { apply Q3, Q2, Q1, Hall. }
  split.
  - constructor; [done|done].
  - intros d'. cbn [fmap list_fmap fst]. rewrite elem_of_cons, R2. destruct (decide (d' = d)) as [->|Hne].
    + rewrite lookup_insert_eq. split; [by eexists|by left].
    + rewrite lookup_insert_ne by done. split; [by intros [|]|by right].
  - intros d' r'. destruct (decide (d' = d)) as [->|Hne].
    + rewrite lookup_insert_eq. intros [= <-]. destruct (rs0 !! d) as [r0|] eqn:E0; [by apply R3|].
      cbn. assert (d ∉ l.*1) as Hn by (rewrite R2, E0; by intros [? ?]).
      rewrite R4, Hp3 by done. split; [done|]. split; [done|]. intros Hc.
      eapply lookup_weaken; [by apply Hc3|apply Q4].
    + rewrite lookup_insert_ne by done. apply R3.
  - intros d' Hn. cbn in Hn. apply not_elem_of_cons in Hn as [Hne Hn].
    by rewrite R4, Hp3, Hp2', Hp1.
Qed.

Lemma insert_sorted_elem x l d : d ∈ insert_sorted x l <-> d = x \/ d ∈ l.
Proof.
  induction l as [|y l IH]; cbn; [by rewrite list_elem_of_singleton, elem_of_nil; intuition|].
  destruct (str_le x y); rewrite !elem_of_cons; [done|]. rewrite IH. tauto.
Qed.

Lemma sorted_elem l d : d ∈ sorted l <-> d ∈ l.
Proof.
  induction l as [|x l IH]; cbn; [done|]. by rewrite insert_sorted_elem, IH, elem_of_cons.
Qed.

(** An active plan names exactly the devices whose last accepted record is in the
    leader's group, each under the connection bound to it. *)
Record grounded (p : GroupPlan) (s : group_session) : Prop := {
  gd_group : is_hex_string 64 (_group s) = true;
  gd_leader : exists r, prev_of s (master s) = Some r /\ g_state r = GROUPED /\ group_hash r = _group s;
  gd_members : forall d, d ∈ members p <-> d ∈ device_ids s /\ d <> master s /\
    exists r, prev_of s d = Some r /\ g_state r = GROUPED /\ group_hash r = _group s;
  gd_bound : forall d r, d ∈ device_ids s -> prev_of s d = Some r -> connection r <> 0 ->
    _connections s !! d = Some (connection r) }.

Definition plan_ok (p : GroupPlan) (s : group_session) : Prop :=
  match p_status p with
  | ACTIVE => grounded p s
  | WAITING => _group s = "" /\ members p = []
  | _ => _terminal s = true /\ members p = []
  end.

Lemma in_group_iff s g d rs : in_group s g d rs = true <->
  d <> master s /\ exists r, rs !! d = Some r /\ g_state r = GROUPED /\ group_hash r = g.
Proof.
  unfold in_group. rewrite andb_true_iff, negb_true_iff, bool_decide_eq_false.
  destruct (rs !! d) as [r|].
  - rewrite andb_true_iff, !bool_decide_eq_true. split.
    + intros (H1 & H2 & H3). split; [done|]. by exists r.
    + intros (H1 & r' & [= <-] & H2 & H3). done.
  - split; [by intros []|by intros (_ & r & ? & _)].
Qed.

Lemma decide_plan_Ok l now s0 rs s1 p s' :
  round l now s0 rs s1 -> set_is l s1 = true -> _terminal s1 = false ->
  decide_plan (l.*1) rs (upd_samples l s1) = (Ok p, s') ->
  plan s' = Some p /\ plan_ok p s' /\ _samples s' = l /\ device_ids s' = device_ids s1
  /\ _deadline s' = _deadline s1 /\ _owner_observation s' = _owner_observation s1
  /\ (p_status p = ACTIVE \/ p_status p = WAITING -> _terminal s' = false).
Proof.
  intros [R1 R2 R3 R4] Hset Ht. unfold set_is in Hset. rewrite same_set_spec in Hset.
  intros (s2 & s3 & [= <- <-] & H)%st_bind_Ok.
  change (id (upd_samples l s1)) with (upd_samples l s1) in H.
  destruct (rs !! master (upd_samples l s1)) as [leader|] eqn:El; [|done].
  change (master (upd_samples l s1)) with (master s1) in *.
  change (_group (upd_samples l s1)) with (_group s1) in *.
  destruct (_ && _); [done|]. destruct (bool_decide (g_state leader ∈ _)) eqn:Es.
  - destruct (negb (empty_str (_group s1))) eqn:Eg.
    + apply st_bind_Ok in H as (u & s4 & [= <-] & [= <- <-]). subst s4. unfold plan_ok. cbn.
      destruct (existsb _ _); cbn; (repeat split; try done; by intros [|]).
    + apply st_bind_Ok in H as (u & s4 & [= <-] & [= <- <-]). subst s4. unfold plan_ok. cbn.
      unfold empty_str in Eg. bdestr. done.
  - destruct (_ && _) eqn:Eh; [done|].
    apply st_bind_Ok in H as (u & s4 & [= <-] & [= <- <-]). subst s4. unfold plan_ok. cbn.
    split; [done|]. split; [|done].
    assert (g_state leader = GROUPED) as Hg.
    { bdestr. destruct (g_state leader); [by exfalso; set_solver..|done]. }
    destruct (R3 _ _ El) as (Hpl & (_ & Hhex & _) & _).
    split; cbn.
    + by apply Hhex.
    + by exists leader.
    + intros d. rewrite sorted_elem, list_elem_of_In, filter_In, <- list_elem_of_In, in_group_iff, Hset.
      cbn. split.
      * intros (Hd & Hm & r & Hr & Hgr & Hhr). split; [done|]. split; [done|].
        exists r. destruct (R3 _ _ Hr) as (Hp & _ & _). done.
      * intros (Hd & Hm & r & Hr & Hgr & Hhr). split; [done|]. split; [done|].
        rewrite <- Hset, R2 in Hd. destruct Hd as [r' Hr']. exists r'.
        destruct (R3 _ _ Hr') as (Hp & _ & _). change (prev_of s1 d = Some r) in Hr. naive_solver.
    + intros d r Hd Hr Hc. rewrite <- Hset, R2 in Hd. destruct Hd as [r' Hr'].
      destruct (R3 _ _ Hr') as (Hp & _ & Hcn). change (prev_of s1 d = Some r) in Hr.
      rewrite Hp in Hr. injection Hr as <-. by apply Hcn.
Qed.

(** What a call that returned a plan at [now] left. *)
Record entry (now : pynum) (p : GroupPlan) (s : group_session) : Prop := {
  en_plan : plan s = Some p;
  en_ok : plan_ok p s;
  en_deadline : num_lt now (_deadline s) = true;
  en_owner : obs_fresh (_owner_observation s) now;
  en_set : set_is (_samples s) s = true;
  en_samples : Forall (fun e => sample_fresh e.2 now) (_samples s);
  en_live : p_status p = ACTIVE \/ p_status p = WAITING -> _terminal s = false }.

Lemma inv_grant s s' : inv s -> same_grant s s' ->
  (_terminal s' = true -> _terminal s = false ->
     exists p, plan s' = Some p /\ members p = [] /\ (p_status p = STOPPED \/ p_status p = HANDOFF_REQUIRED)) ->
  inv s'.
Proof.
  intros [H1 H2 H3] G H. split; [by apply G|by apply G|]. intros Ht.
  destruct (_terminal s) eqn:E; [|by apply H]. destruct (gr_terminal _ _ G E) as [_ ->]. by apply H3.
Qed.

Lemma inv_quiet s s' : inv s -> quiet s s' -> inv s'.
Proof.
  intros Hi Q. apply (inv_grant s); [done|by apply quiet_grant|]. intros Ht Hf.
  rewrite (qu_terminal _ _ Q) in Ht. congruence.
Qed.

Lemma set_is_ids l s s' : device_ids s' = device_ids s -> set_is l s' = set_is l s.
Proof. unfold set_is. by intros ->. Qed.

(** The statements every call starts with. *)
Lemma started_Ok {A} (obs : group_session -> json) (k : group_session -> M A) now s a s' :
  (_check_clock now;; s0 ← gets id; owner_check (obs s0) now;; s1 ← gets id; k s1) s = (Ok a, s') ->
  inv s -> (forall s1, quiet s s1 -> obs s1 = obs s) ->
  exists s1, quiet s s1 /\ _failed s = false /\ num_lt now (_deadline s) = true
    /\ obs_fresh (obs s) now /\ k s1 s1 = (Ok a, s').
Proof.
  intros (u1 & s1 & H1 & H)%st_bind_Ok Hi Hobs.
  pose proof (check_clock_quiet now s) as Q1. rewrite H1 in Q1. cbn in Q1.
  apply check_clock_Ok in H1 as (Hf & Hd & _).
  apply st_bind_Ok in H as (s0 & s2 & [= <- <-] & H). change (id s1) with s1 in H.
  apply st_bind_Ok in H as (u2 & s3 & H3 & H).
  pose proof (owner_check_quiet (obs s1) now s1) as Q2. rewrite H3 in Q2. cbn in Q2.
  apply owner_check_Ok in H3; [|by apply (inv_quiet s)].
  apply st_bind_Ok in H as (s4 & s5 & [= <- <-] & H). change (id s3) with s3 in H.
  exists s3. split; [by transitivity s1|]. split; [done|]. split; [done|].
  rewrite (Hobs s1 Q1) in H3. done.
Qed.

Lemma bind_grant {A B} (m : M A) (f : A -> M B) s :
  quiet s (m s).2 -> (forall a s1, m s = (Ok a, s1) -> quiet s s1 -> same_grant s1 (f a s1).2) ->
  same_grant s ((m ≫= f) s).2.
Proof.
  unfold mbind, st_bind. destruct (m s) as [[a|e] s1]; cbn; intros Q H.
  - etransitivity; [by apply quiet_grant|by apply H].
  - by apply quiet_grant.
Qed.

Lemma decide_plan_inv ids rs s : inv s -> _terminal s = false -> inv (decide_plan ids rs s).2.
Proof.
  intros Hi Ht. apply (inv_grant s); [done|by apply decide_plan_grant|]. intros Ht' _. revert Ht'.
  unfold decide_plan, mbind, st_bind, gets, id. destruct (rs !! master s) as [leader|]; [|cbn; congruence].
  destruct (_ && _); [cbn; congruence|]. destruct (bool_decide _).
  - destruct (negb (empty_str (_group s))); cbn; [|congruence]. intros _. eexists.
    split; [reflexivity|]. cbn. destruct (existsb _ _); auto.
  - destruct (negb (empty_str (_group s)) && _); cbn; congruence.
Qed.

(** Everything an [observe] does, whether it returns or raises. *)
Lemma observe_body_keeps l now s : inv s ->
  same_grant s (observe_body l now s).2 /\ inv (observe_body l now s).2.
Proof.
  intros Hi. unfold observe_body, mbind, st_bind, gets, id.
  pose proof (check_clock_quiet now s) as Q1. destruct (_check_clock now s) as [[u1|e1] s1]; cbn in Q1 |- *;
    [|split; [by apply quiet_grant|by apply (inv_quiet s)]].
  pose proof (owner_check_quiet (_owner_observation s1) now s1) as Q2.
  destruct (owner_check _ now s1) as [[u2|e2] s2]; cbn in Q2 |- *;
    pose proof (quiet_preorder.(PreOrder_Transitive) _ _ _ Q1 Q2) as Q12;
    [|split; [by apply quiet_grant|by apply (inv_quiet s)]].
  destruct (_terminal s2 || _) eqn:Et; [split; [by apply quiet_grant|by apply (inv_quiet s)]|]. bdestr.
  pose proof (observe_all_quiet l now s2) as Q3.
  destruct (observe_all l now s2) as [[rs|e3] s3]; cbn in Q3 |- *;
    pose proof (quiet_preorder.(PreOrder_Transitive) _ _ _ Q12 Q3) as Q13;
    [|split; [by apply quiet_grant|by apply (inv_quiet s)]].
  assert (same_grant s (upd_samples l s3)) as G.
  { etransitivity; [by apply quiet_grant|]. by split. }
  assert (_terminal (upd_samples l s3) = false) as Ht by (cbn; rewrite (qu_terminal _ _ Q3); done).
  assert (inv (upd_samples l s3)) as Hi3.
  { apply (inv_grant s); [done|done|]. intros Ht'. congruence. }
  split; [|by apply decide_plan_inv].
  etransitivity; [exact G|]. by apply decide_plan_grant.
Qed.

Lemma observe_keeps l now s : inv s -> same_grant s (observe l now s).2 /\ inv (observe l now s).2.
Proof.
  intros Hi. unfold observe, try_except. pose proof (observe_body_keeps l now s Hi) as [G I].
  destruct (observe_body l now s) as [[p|e] s']; cbn in *; [done|].
  assert (same_grant s (upd_failed s') /\ inv (upd_failed s')) as [G' I'].
  { split; [etransitivity; [exact G|by split]|]. destruct I. by split. }
  by destruct e.
Qed.

Lemma observe_Ok l now s p s' : observe l now s = (Ok p, s') -> inv s ->
  entry now p s' /\ _terminal s = false /\ _failed s = false /\ Forall (fun e => process_alive e.2 = true) l.
Proof.
  unfold observe, try_except. destruct (observe_body l now s) as [[p'|e] s1] eqn:E.
  2: { destruct e; cbn; done. }
  intros [= -> ->] Hi. unfold observe_body in E.
  apply (started_Ok _owner_observation _ now s p s') in E as (s1 & Q & Hf & Hd & Ho & H); [|done|by intros s1 []].
  destruct (_terminal s1 || _) eqn:Et; [done|]. bdestr.
  apply st_bind_Ok in H as (rs & s2 & H2 & H).
  pose proof (observe_all_quiet l now s1) as Q2. rewrite H2 in Q2. cbn in Q2.
  apply observe_all_Ok in H2 as R; [|by apply (inv_quiet s)].
  apply st_bind_Ok in H as (u & s3 & [= _ <-] & H).
  assert (set_is l s2 = true) as Hset by (rewrite (set_is_ids l s1) by apply Q2; done).
  assert (_terminal s2 = false) as Ht2 by (by rewrite (qu_terminal _ _ Q2)).
  destruct (decide_plan_Ok l now s1 rs s2 p s' R Hset Ht2 H) as (E1 & E2 & E3 & E4 & E5 & E6 & E7).
  assert (_terminal s = false) as Ht by (by rewrite <- (qu_terminal _ _ Q)).
  assert (Forall (fun e : string * ReceiverSample => sample_fresh e.2 now) l /\
          Forall (fun e : string * ReceiverSample => process_alive e.2 = true) l) as [F1 F2].
  { split; (eapply list.Forall_impl; [apply R|]); by intros x []. }
  split; [|done]. split; try done.
  - rewrite E5, (qu_deadline _ _ Q2), (qu_deadline _ _ Q). done.
  - rewrite E6, (qu_observation _ _ Q2), (qu_observation _ _ Q). done.
  - rewrite E3. by rewrite (set_is_ids l s2).
  - by rewrite E3.
Qed.

Lemma failing_keeps {A} (m : M A) code s : inv s -> same_grant s (m s).2 -> inv (m s).2 ->
  same_grant s (failing m code s).2 /\ inv (failing m code s).2.
Proof.
  intros Hi G I. unfold failing, try_except. destruct (m s) as [[a|e] s'] eqn:E; cbn in *; [done|].
  assert (same_grant s (upd_failed s') /\ inv (upd_failed s')) as [G' I'].
  { split; [etransitivity; [exact G|by split]|]. destruct I. by split. }
  by destruct e.
Qed.

Lemma quiet_keeps {A} (m : M A) code s : inv s -> steps_in quiet m ->
  same_grant s (failing m code s).2 /\ inv (failing m code s).2.
Proof.
  intros Hi Hm. apply failing_keeps; [done|by apply quiet_grant|by apply (inv_quiet s)].
Qed.

Lemma require_live_quiet now : steps_in quiet (
    _check_clock now;;
    s ← gets id;
    owner_check (_owner_observation s) now;;
    s ← gets id;
    if negb (set_is (_samples s) s) then raise UNVERIFIED
    else for_each (_samples s) (fun e => sample_check e.1 e.2 now)).
Proof.
  apply steps_in_bind; [apply _|apply check_clock_quiet|intros _].
  apply steps_in_bind; [apply _|apply steps_in_gets, _|intros s].
  apply steps_in_bind; [apply _|apply owner_check_quiet|intros _].
  apply steps_in_bind; [apply _|apply steps_in_gets, _|intros s1].
  destruct (negb _); [apply steps_in_raise, _|apply for_each_checks_quiet].
Qed.

Lemma for_each_checks_Ok l now s u s' :
  for_each l (fun e => sample_check e.1 e.2 now) s = (Ok u, s') ->
  map_Forall (fun _ h => max_age h = FIVE) (_heartbeats s) -> Forall (fun e => sample_fresh e.2 now) l.
Proof.
  revert s. induction l as [|[d x] l IH]; intros s; cbn; [by constructor|].
  intros (u1 & s1 & H1 & H)%st_bind_Ok Hall.
  pose proof (sample_check_quiet d x now s) as Q. rewrite H1 in Q. cbn in Q.
  destruct (sample_check_Ok _ _ _ _ _ _ H1 Hall) as [Hf _].
  constructor; [done|]. apply (IH s1); [done|]. by apply Q.
Qed.

Lemma require_live_Ok now s u s' : require_live now s = (Ok u, s') -> inv s ->
  quiet s s' /\ _failed s = false /\ num_lt now (_deadline s) = true /\ obs_fresh (_owner_observation s) now
  /\ set_is (_samples s) s = true /\ Forall (fun e => sample_fresh e.2 now) (_samples s).
Proof.
  intros H Hi. apply failing_Ok in H as H0. pose proof (require_live_quiet now s) as Q0.
  rewrite H0 in Q0. cbn in Q0. split; [done|].
  apply (started_Ok _owner_observation _ now s u s') in H0 as (s1 & Q & Hf & Hd & Ho & Hk);
    [|done|by intros s1 []].
  destruct (negb _) eqn:Es; [done|]. bdestr.
  apply for_each_checks_Ok in Hk; [|by apply (inv_quiet s)]. rewrite (qu_samples _ _ Q) in *.
  rewrite (set_is_ids _ s) in * by apply Q. done.
Qed.

Lemma refresh_all_Ok l now s u s' : refresh_all l now s = (Ok u, s') ->
  map_Forall (fun _ h => max_age h = FIVE) (_heartbeats s) -> Forall (fun e => sample_fresh e.2 now) l.
Proof.
  revert s. induction l as [|[d x] l IH]; intros s; cbn; [by constructor|].
  intros (s0 & s1 & [= <- <-] & H)%st_bind_Ok Hall. change (id s) with s in H.
  apply st_bind_Ok in H as (r & s2 & H2 & H).
  pose proof (cursor_sample_quiet d x now s) as Q2. rewrite H2 in Q2. cbn in Q2.
  destruct (_ && _); [done|]. apply st_bind_Ok in H as (u3 & s3 & H3 & H).
  pose proof (sample_check_quiet d x now s2) as Q3. rewrite H3 in Q3. cbn in Q3.
  assert (map_Forall (fun _ h => max_age h = FIVE) (_heartbeats s2)) as Hall2 by (by apply Q2).
  destruct (sample_check_Ok _ _ _ _ _ _ H3 Hall2) as [Hf _].
  constructor; [done|]. apply (IH s3); [done|]. by apply Q3.
Qed.

Definition refresh_body (l : samples) (now : pynum) : M GroupPlan :=
  _check_clock now;;
  s ← gets id;
  owner_check (_owner_observation s) now;;
  s ← gets id;
  match plan s with
  | None => raise UNVERIFIED
  | Some p =>
      if negb (set_is l s) then raise UNVERIFIED
      else refresh_all l now;; modify (upd_samples l);; mret p
  end.

Lemma refresh_eq l now s :
  refresh l now s = if negb (_terminal s) then observe l now s else failing (refresh_body l now) UNVERIFIED s.
Proof. unfold refresh, mbind at 1, st_bind at 1, gets, id. by destruct (negb _). Qed.

Lemma samples_keeps l s s' : inv s -> same_grant s s' -> inv s' ->
  same_grant s (upd_samples l s') /\ inv (upd_samples l s').
Proof. intros Hi G []. split; [|by split]. etransitivity; [exact G|by split]. Qed.

Lemma refresh_body_keeps l now s : inv s ->
  same_grant s (refresh_body l now s).2 /\ inv (refresh_body l now s).2.
Proof.
  intros Hi. unfold refresh_body, mbind, st_bind, gets, id.
  pose proof (check_clock_quiet now s) as Q1. destruct (_check_clock now s) as [[u1|e1] s1]; cbn in Q1 |- *;
    [|split; [by apply quiet_grant|by apply (inv_quiet s)]].
  pose proof (owner_check_quiet (_owner_observation s1) now s1) as Q2.
  destruct (owner_check _ now s1) as [[u2|e2] s2]; cbn in Q2 |- *;
    pose proof (quiet_preorder.(PreOrder_Transitive) _ _ _ Q1 Q2) as Q12;
    [|split; [by apply quiet_grant|by apply (inv_quiet s)]].
  destruct (plan s2) as [p|]; [|split; [by apply quiet_grant|by apply (inv_quiet s)]].
  destruct (negb _); [split; [by apply quiet_grant|by apply (inv_quiet s)]|].
  pose proof (refresh_all_quiet l now s2) as Q3.
  destruct (refresh_all l now s2) as [[u3|e3] s3]; cbn in Q3 |- *;
    pose proof (quiet_preorder.(PreOrder_Transitive) _ _ _ Q12 Q3) as Q13.
  - apply samples_keeps; [done|by apply quiet_grant|by apply (inv_quiet s)].
  - split; [by apply quiet_grant|by apply (inv_quiet s)].
Qed.

Lemma refresh_keeps l now s : inv s -> same_grant s (refresh l now s).2 /\ inv (refresh l now s).2.
Proof.
  intros Hi. rewrite refresh_eq. destruct (negb _); [by apply observe_keeps|].
  apply failing_keeps; [done|by apply refresh_body_keeps|by apply refresh_body_keeps].
Qed.

(** In a terminal session every plan is the one that ended it. *)
Lemma terminal_entry now s s1 s' p l : inv s -> quiet s s1 -> _terminal s = true ->
  same_grant s1 s' -> plan s1 = Some p -> num_lt now (_deadline s) = true ->
  obs_fresh (_owner_observation s) now -> _owner_observation s' = _owner_observation s1 ->
  _samples s' = l -> set_is l s1 = true -> Forall (fun e => sample_fresh e.2 now) l ->
  entry now p s' /\ plan s = Some p.
Proof.
  intros Hi Q Ht G Hp Hd Ho Hoo Hs Hset Hf.
  destruct (gr_terminal _ _ G) as [Ht' Hp']; [by rewrite (qu_terminal _ _ Q)|].
  assert (plan s = Some p) as Hps by (by rewrite <- (qu_plan _ _ Q)).
  split; [|done]. destruct (i_plan s Hi Ht) as (q & Hq & Hm & Hst). rewrite Hps in Hq. injection Hq as <-.
  split.
  - congruence.
  - unfold plan_ok. destruct Hst as [-> | ->]; done.
  - rewrite (gr_deadline _ _ G), (qu_deadline _ _ Q). done.
  - rewrite Hoo, (qu_observation _ _ Q). done.
  - rewrite Hs, (set_is_ids l s1); [done|apply G].
  - by rewrite Hs.
  - destruct Hst as [-> | ->]; by intros [|].
Qed.

Lemma refresh_Ok l now s p s' : refresh l now s = (Ok p, s') -> inv s ->
  entry now p s' /\ (_terminal s = true -> plan s = Some p) /\ _failed s = false.
Proof.
  rewrite refresh_eq. destruct (_terminal s) eqn:Et; cbn [negb].
  2: { intros H Hi. apply observe_Ok in H as (H1 & H2 & H3 & _); done. }
  intros H%failing_Ok Hi. unfold refresh_body in H.
  apply (started_Ok _owner_observation _ now s p s') in H as (s1 & Q & Hf & Hd & Ho & H); [|done|by intros s1 []].
  destruct (plan s1) as [q|] eqn:Ep; [|done]. destruct (negb _) eqn:Es; [done|]. bdestr.
  apply st_bind_Ok in H as (u & s2 & H2 & H).
  pose proof (refresh_all_quiet l now s1) as Q2. rewrite H2 in Q2. cbn in Q2.
  apply refresh_all_Ok in H2; [|by apply (inv_quiet s)].
  apply st_bind_Ok in H as (u' & s3 & [= _ <-] & [= <- <-]).
  destruct (terminal_entry now s s1 (upd_samples l s2) q l Hi Q Et) as [E1 E2]; try done.
  - etransitivity; [apply quiet_grant, Q2|by split].
  - apply Q2.
Qed.

Lemma request_stop_keeps now s : inv s -> same_grant s (request_stop now s).2 /\ inv (request_stop now s).2.
Proof.
  intros Hi. unfold request_stop, mbind, st_bind, gets, id.
  destruct (quiet_keeps _ UNVERIFIED s Hi (require_live_quiet now)) as [G I].
  change (failing _ _) with (require_live now) in G, I.
  destruct (require_live now s) as [[u|e] s1]; cbn in G, I |- *; [|done].
  destruct (_terminal s1) eqn:Et; [by destruct (plan s1)|]. cbn. split.
  - etransitivity; [exact G|]. split; cbn; auto; congruence.
  - destruct I as [I1 I2 I3]. split; cbn; [done|done|]. intros _. eexists. split; [reflexivity|]. cbn. auto.
Qed.

Lemma request_stop_Ok now s p s' : request_stop now s = (Ok p, s') -> inv s ->
  entry now p s' /\ (_terminal s = true -> plan s = Some p) /\ _failed s = false.
Proof.
  unfold request_stop. intros H Hi. apply st_bind_Ok in H as (u & s1 & H1 & H).
  apply require_live_Ok in H1 as (Q & Hf & Hd & Ho & Hset & Hs); [|done].
  apply st_bind_Ok in H as (s2 & s3 & [= <- <-] & H). change (id s1) with s1 in H.
  destruct (_terminal s1) eqn:Et.
  - destruct (plan s1) as [q|] eqn:Ep; [|done]. injection H as <- <-.
    destruct (terminal_entry now s s1 s1 q (_samples s) Hi Q) as [E1 E2]; try done.
    + by rewrite <- (qu_terminal _ _ Q).
    + apply Q.
    + by rewrite (set_is_ids _ s) by apply Q.
  - apply st_bind_Ok in H as (u' & s4 & [= _ <-] & [= <- <-]).
    rewrite (qu_terminal _ _ Q) in Et. split; [|by split; [congruence|]].
    assert (set_is (_samples s) s1 = true) as Hset' by (by rewrite (set_is_ids _ s) by apply Q).
    split; cbn; try done.
    + by rewrite (qu_deadline _ _ Q).
    + by rewrite (qu_observation _ _ Q).
    + by rewrite (qu_samples _ _ Q).
    + by rewrite (qu_samples _ _ Q).
    + by intros [|].
Qed.

Lemma renew_owner_keeps q t now s : inv s -> same_grant s (renew_owner q t now s).2 /\ inv (renew_owner q t now s).2.
Proof.
  intros Hi. assert (forall s1, quiet s s1 -> same_grant s s1 /\ inv s1) as Hq.
  { intros s1 Q. split; [by apply quiet_grant|by apply (inv_quiet s)]. }
  match goal with |- context [renew_owner q t now] => unfold renew_owner end.
  apply failing_keeps; [done|..];
    unfold mbind, st_bind, gets, id;
    (pose proof (check_clock_quiet now s) as Q1;
     destruct (_check_clock now s) as [[u1|e1] s1]; cbn in Q1 |- *; [|by apply Hq]);
    set (m := match _owner_observation s1 with JNull => _ | _ => _ end);
    (assert (quiet s1 (m s1).2) as Q2 by
      (unfold m; destruct (_owner_observation s1); try apply owner_check_quiet; reflexivity));
    destruct (m s1) as [[u2|e2] s2]; cbn in Q2 |- *;
    pose proof (quiet_preorder.(PreOrder_Transitive) _ _ _ Q1 Q2) as Q12; try (by apply Hq);
    pose proof (owner_check_quiet (observation q t) now s2) as Q3;
    destruct (owner_check (observation q t) now s2) as [[u3|e3] s3]; cbn in Q3 |- *;
    pose proof (quiet_preorder.(PreOrder_Transitive) _ _ _ Q12 Q3) as Q13; try (by apply Hq);
    destruct (Hq s3 Q13) as [G []].
  - etransitivity; [exact G|by split].
  - by split.
Qed.

(** ** Runs of a session *)
Inductive group_op : Type :=
| Renew (sequence stamp : json) (now : pynum)
| Observe (l : samples) (now : pynum)
| Refresh (l : samples) (now : pynum)
| Stop (now : pynum)
| Live (now : pynum).

Definition now_of (o : group_op) : pynum :=
  match o with Renew _ _ n | Observe _ n | Refresh _ n | Stop n | Live n => n end.

Definition run_op (o : group_op) : M (option GroupPlan) :=
  match o with
  | Renew q t now => renew_owner q t now;; mret None
  | Observe l now => p ← observe l now; mret (Some p)
  | Refresh l now => p ← refresh l now; mret (Some p)
  | Stop now => p ← request_stop now; mret (Some p)
  | Live now => require_live now;; mret None
  end.

(** A returned plan, the time of the call and the session it left. *)
Definition returned_plan : Type := pynum * GroupPlan * group_session.
Definition when (e : returned_plan) : pynum := e.1.1.
Definition what (e : returned_plan) : GroupPlan := e.1.2.
Definition after (e : returned_plan) : group_session := e.2.

Fixpoint group_run (ops : list group_op) (s : group_session) : list returned_plan * group_session :=
  match ops with
  | [] => ([], s)
  | o :: ops =>
      let '(r, s') := run_op o s in
      let '(log, s'') := group_run ops s' in
      (match r with Ok (Some p) => (now_of o, p, s') :: log | _ => log end, s'')
  end.

Lemma run_op_keeps o s : inv s -> same_grant s (run_op o s).2 /\ inv (run_op o s).2.
Proof.
  intros Hi. destruct o as [q t now|l now|l now|now|now]; cbn; unfold mbind, st_bind.
  - pose proof (renew_owner_keeps q t now s Hi). by destruct (renew_owner _ _ _ _) as [[]].
  - pose proof (observe_keeps l now s Hi). by destruct (observe _ _ _) as [[]].
  - pose proof (refresh_keeps l now s Hi). by destruct (refresh _ _ _) as [[]].
  - pose proof (request_stop_keeps now s Hi). by destruct (request_stop _ _) as [[]].
  - pose proof (quiet_keeps _ UNVERIFIED s Hi (require_live_quiet now)) as H.
    change (failing _ _) with (require_live now) in H. by destruct (require_live _ _) as [[]].
Qed.

Lemma run_op_Ok o s p s' : run_op o s = (Ok (Some p), s') -> inv s ->
  entry (now_of o) p s' /\ (_terminal s = true -> plan s = Some p) /\ _failed s = false.
Proof.
  destruct o as [q t now|l now|l now|now|now]; cbn; intros (a & s1 & H & [= E1 E2])%st_bind_Ok Hi;
    subst a s1.
  - apply observe_Ok in H as (H1 & H2 & H3 & _); [|done]. split; [done|]. split; [congruence|done].
  - by apply (refresh_Ok l).
  - by apply request_stop_Ok.
Qed.

Lemma failing_Err {A} (m : M A) code s e s' : failing m code s = (Err e, s') ->
  e = GOverflow \/ _failed s' = true.
Proof.
  unfold failing, try_except. destruct (m s) as [[a|[c| |]] s1]; cbn; intros [= <- <-]; auto.
Qed.

Lemma observe_Err l now s e s' : observe l now s = (Err e, s') -> e = GOverflow \/ _failed s' = true.
Proof.
  unfold observe, try_except. destruct (observe_body l now s) as [[a|[c| |]] s1]; cbn;
    intros [= <- <-]; auto.
Qed.

Lemma run_op_Err o s e s' : run_op o s = (Err e, s') -> inv s -> e = GOverflow \/ _failed s' = true.
Proof.
  destruct o as [q t now|l now|l now|now|now]; cbn; unfold mbind at 1, st_bind at 1.
  - destruct (renew_owner q t now s) as [[]] eqn:E; intros [= <- <-]. by apply failing_Err in E.
  - destruct (observe l now s) as [[]] eqn:E; intros [= <- <-]. by apply observe_Err in E.
  - rewrite refresh_eq. destruct (negb _).
    + destruct (observe l now s) as [[]] eqn:E; intros [= <- <-]. by apply observe_Err in E.
    + destruct (failing _ _ s) as [[]] eqn:E; intros [= <- <-]. by apply failing_Err in E.
  - destruct (request_stop now s) as [[]] eqn:E; intros [= <- <-] Hi. revert E.
    unfold request_stop, mbind, st_bind, gets, id.
    destruct (require_live now s) as [[u|e'] s1] eqn:E1; [|intros [= <- <-]; by apply failing_Err in E1].
    apply require_live_Ok in E1 as (Q & _); [|done].
    destruct (_terminal s1) eqn:Et; [|done]. rewrite (qu_terminal _ _ Q) in Et.
    destruct (i_plan s Hi Et) as (p & Hp & _). rewrite (qu_plan _ _ Q), Hp. done.
  - destruct (require_live now s) as [[]] eqn:E; intros [= <- <-]. by apply failing_Err in E.
Qed.

(** What every later plan owes to a session that was once in state [s]. *)
Record owes (s : group_session) (e : returned_plan) : Prop := {
  ow_grant : same_grant s (after e);
  ow_end : _terminal s = true -> plan s = Some (what e);
  ow_entry : entry (when e) (what e) (after e) }.

Lemma owes_trans s s' e : same_grant s s' -> owes s' e -> owes s e.
Proof.
  intros G [H1 H2 H3]. split; [by transitivity s'| |done].
  intros Ht. destruct (gr_terminal _ _ G Ht) as [Ht' Hp]. rewrite <- Hp. by apply H2.
Qed.

Lemma group_run_owes ops s : inv s ->
  Forall (owes s) (group_run ops s).1 /\ inv (group_run ops s).2.
Proof.
  revert s. induction ops as [|o ops IH]; intros s Hi; [by split|]. cbn.
  pose proof (run_op_keeps o s Hi) as [G I]. destruct (run_op o s) as [r s'] eqn:E. cbn in G, I.
  destruct (IH s' I) as [F I']. destruct (group_run ops s') as [log s'']. cbn in *. split; [|done].
  assert (Forall (owes s) log) as F'.
  { eapply list.Forall_impl; [exact F|]. intros e. by apply owes_trans. }
  destruct r as [[p|]|e]; try done. constructor; [|done].
  destruct (run_op_Ok _ _ _ _ E Hi) as (H1 & H2 & _). by split.
Qed.

(** The relation between two plans of one grant. *)
Record later (a b : returned_plan) : Prop := {
  la_group : p_status (what a) = ACTIVE -> p_status (what b) = ACTIVE ->
    _group (after b) = _group (after a);
  la_waiting : p_status (what a) = ACTIVE -> p_status (what b) <> WAITING;
  la_connections : _connections (after a) ⊆ _connections (after b);
  la_end : p_status (what a) = STOPPED \/ p_status (what a) = HANDOFF_REQUIRED -> what b = what a }.

Lemma owes_later a b : entry (when a) (what a) (after a) -> owes (after a) b -> later a b.
Proof.
  intros [P O _ _ _ _ L] [G T E]. unfold plan_ok in O. split.
  - intros Ha _. rewrite Ha in O. apply (gr_group _ _ G). intros Hg.
    destruct O as [Hx _ _ _]. by rewrite Hg in Hx.
  - intros Ha Hb. rewrite Ha in O. destruct O as [Hx _ _ _]. destruct E as [_ Ob _ _ _ _ _].
    unfold plan_ok in Ob. rewrite Hb in Ob. destruct Ob as [Hg _].
    assert (_group (after a) <> "") as Hne by (intros He; by rewrite He in Hx).
    rewrite (gr_group _ _ G Hne) in Hg. done.
  - apply G.
  - intros Ha. assert (_terminal (after a) = true) as Ht by (by destruct Ha as [Ha|Ha]; rewrite Ha in O; apply O).
    specialize (T Ht). congruence.
Qed.

Lemma group_run_later ops s : inv s -> StronglySorted later (group_run ops s).1.
Proof.
  revert s. induction ops as [|o ops IH]; intros s Hi; [constructor|]. cbn.
  pose proof (run_op_keeps o s Hi) as [G I]. destruct (run_op o s) as [r s'] eqn:E. cbn in G, I.
  specialize (IH s' I). pose proof (group_run_owes ops s' I) as [F _].
  destruct (group_run ops s') as [log s'']. cbn in *. destruct r as [[p|]|e]; try done.
  destruct (run_op_Ok _ _ _ _ E Hi) as (H1 & _ & _).
  constructor; [done|]. eapply list.Forall_impl; [exact F|]. intros b Hb.
  apply owes_later; [exact H1|exact Hb].
Qed.

Lemma group_session_inv bindings m started lifetime s :
  GroupSession bindings m started lifetime = Ok s -> inv s /\ _failed s = false.
Proof.
  unfold GroupSession. intros (bad & _ & H)%bind_Ok. destruct bad; [done|].
  apply bind_Ok in H as (cs & _ & H). destruct (existsb _ _); [done|]. injection H as <-.
  split; [|done]. split; cbn; [done| |done]. intros d h Hd%elem_of_list_to_map_2.
  apply list_elem_of_In, in_map_iff in Hd as (d' & [= _ <-] & _). done.
Qed.

(** C5. One grant, one group: in any run of a session - whatever bytes, heartbeats and
    clock readings it is given - all plans it returns as ACTIVE are of one group;
    each names as members exactly the bound devices, other than the master, whose
    last accepted record is in the leader's group, and every device connected at
    that moment is under the one connection bound to it in this grant; a plan that
    ended the session is the answer of every later call. *)
Theorem one_group_per_grant bindings m started lifetime s ops :
  GroupSession bindings m started lifetime = Ok s ->
  let log := (group_run ops s).1 in
  StronglySorted later log /\ Forall (fun e => plan_ok (what e) (after e)) log.
Proof.
  intros [Hi _]%group_session_inv. split; [by apply group_run_later|].
  eapply list.Forall_impl; [by apply group_run_owes|]. by intros e [_ _ []].
Qed.

Lemma group_run_app ops1 ops2 s :
  group_run (ops1 ++ ops2) s =
    let '(l1, s1) := group_run ops1 s in let '(l2, s2) := group_run ops2 s1 in (l1 ++ l2, s2).
Proof.
  revert s. induction ops1 as [|o ops1 IH]; intros s; cbn; [by destruct (group_run ops2 s)|].
  destruct (run_op o s) as [r s']. rewrite IH. destruct (group_run ops1 s') as [l1 s1].
  destruct (group_run ops2 s1) as [l2 s2]. by destruct r as [[p|]|e].
Qed.

Lemma group_run_failed ops s : inv s -> _failed s = true -> (group_run ops s).1 = [].
Proof.
  revert s. induction ops as [|o ops IH]; intros s Hi Hf; [done|]. cbn.
  pose proof (run_op_keeps o s Hi) as [G I]. destruct (run_op o s) as [r s'] eqn:E. cbn in G, I.
  specialize (IH s' I (gr_failed _ _ G Hf)). destruct (group_run ops s') as [log s'']. cbn in *. subst log.
  destruct r as [[p|]|e]; try done. destruct (run_op_Ok _ _ _ _ E Hi) as (_ & _ & Hf'). congruence.
Qed.

(** No plan without fresh evidence: every plan a session returns is returned before
    its deadline, with an owner's observation and a heartbeat of every bound device
    less than five seconds old; and once a call was rejected no plan is returned any
    more, whatever is observed later. *)
Theorem plans_need_fresh_evidence bindings m started lifetime s ops :
  GroupSession bindings m started lifetime = Ok s ->
  Forall (fun e => num_lt (when e) (_deadline (after e)) = true /\
                   _deadline (after e) = _deadline s /\
                   obs_fresh (_owner_observation (after e)) (when e) /\
                   (forall d, d ∈ device_ids s <-> d ∈ (_samples (after e)).*1) /\
                   Forall (fun x => sample_fresh x.2 (when e)) (_samples (after e))) (group_run ops s).1 /\
  (forall o later e s', run_op o (group_run ops s).2 = (Err e, s') -> e <> GOverflow ->
     (group_run (ops ++ o :: later) s).1 = (group_run ops s).1).
Proof.
  intros [Hi _]%group_session_inv. destruct (group_run_owes ops s Hi) as [F I]. split.
  - eapply list.Forall_impl; [exact F|]. intros e [G _ [_ _ H1 H2 H3 H4 _]].
    split; [done|]. split; [apply G|]. split; [done|]. split; [|done].
    unfold set_is in H3. rewrite same_set_spec in H3. intros d. rewrite H3. by rewrite (gr_ids _ _ G).
  - intros o later0 e s' E He. rewrite group_run_app. destruct (group_run ops s) as [l1 s1]. cbn in *.
    rewrite E. destruct (run_op_Err o s1 e s' E I) as [?|Hf]; [done|].
    pose proof (run_op_keeps o s1 I) as [_ I']. rewrite E in I'. cbn in I'.
    pose proof (group_run_failed later0 s' I' Hf) as Hl.
    destruct (group_run later0 s') as [l2 s2]. cbn in *. by rewrite Hl, app_nil_r.
Qed.

(** *** Instances and examples *)
Definition nonce_a : string := "0123456789abcdef0123456789abcdef".
Definition nonce_b : string := "fedcba9876543210fedcba9876543210".
Definition hash_g : string := "0123456789abcdef0123456789abcdef0123456789abcdef0123456789abcdef".

Definition native_text (nonce : string) (revision connection stamp : Z) (state hash : string) : string :=
  dumps_flat no_repr [("version", JNum (PInt 1)); ("nonce", JStr nonce); ("pid", JNum (PInt 7));
    ("revision", JNum (PInt revision)); ("connection", JNum (PInt connection)); ("state", JStr state);
    ("group_hash", JStr hash); ("event_monotonic", JNum (PInt stamp))].

Definition grouped (nonce : string) (connection heartbeat_sequence : Z) : ReceiverSample :=
  {| native := native_text nonce 1 connection 5 "GROUPED" hash_g;
     s_sequence := JNum (PInt heartbeat_sequence); s_observed := JNum (PInt (10 + heartbeat_sequence));
     process_alive := true |}.
Definition sample_round (n : Z) : samples := [("A1", grouped nonce_a 5 n); ("B2", grouped nonce_b 9 n)].

Definition two_bindings : list ReceiverBinding :=
  [{| b_device := "A1"; b_nonce := nonce_a; b_pid := 7; b_started := PInt 1 |};
   {| b_device := "B2"; b_nonce := nonce_b; b_pid := 7; b_started := PInt 1 |}].

Definition fresh_cursor (nonce : string) : native_cursor :=
  {| n_nonce := nonce; n_pid := 7; n_started := PInt 1; n_previous := None; n_now := PInt 1;
     n_failed := false; n_retired := ∅ |}.
Definition fresh_session : group_session :=
  {| device_ids := ["A1"; "B2"]; master := "A1";
     _cursors := <["A1" := fresh_cursor nonce_a]> (<["B2" := fresh_cursor nonce_b]> ∅);
     _heartbeats := list_to_map [("A1", default_heartbeat); ("B2", default_heartbeat)];
     _owner := default_heartbeat; _owner_observation := JNull; _samples := [];
     _connections := ∅; _group := ""; _now := PInt 1; _deadline := PInt 901; _failed := false;
     _terminal := false; _locally_stopped := false; plan := None |}.

Lemma fresh_session_ok : GroupSession two_bindings "A1" (PInt 1) (PInt 900) = Ok fresh_session.
Proof. vm_compute. reflexivity. Qed.

Definition sample_ops : list group_op :=
  [Renew (JNum (PInt 0)) (JNum (PInt 10)) (PInt 10); Observe (sample_round 0) (PInt 11);
   Observe (sample_round 1) (PInt 12); Stop (PInt 13); Observe (sample_round 2) (PInt 13)].

Lemma native_history_witness :
  let h := native_run [(native_text nonce_a 1 5 5 "GROUPED" hash_g, PInt 6, true);
                       (native_text nonce_a 2 0 7 "IDLE" "", PInt 8, true);
                       (native_text nonce_a 3 5 8 "GROUPED" hash_g, PInt 9, true)] (fresh_cursor nonce_a) in
  length h = 2%nat /\ Sorted advances h.
Proof.
  assert (H : NativeGroupCursor nonce_a 7 (PInt 1) = Ok (fresh_cursor nonce_a)) by (vm_compute; reflexivity).
  split; [vm_compute; reflexivity|].
  exact (proj1 (proj2 (native_history nonce_a 7 (PInt 1) (fresh_cursor nonce_a) _ H))).
Defined.

Lemma one_group_per_grant_witness :
  let log := (group_run sample_ops fresh_session).1 in
  (fun e => (p_status (what e), members (what e))) <$> log = [(ACTIVE, ["B2"]); (ACTIVE, ["B2"]); (STOPPED, [])]
  /\ StronglySorted later log.
Proof.
  split; [vm_compute; reflexivity|].
  exact (proj1 (one_group_per_grant two_bindings "A1" (PInt 1) (PInt 900) fresh_session sample_ops
    fresh_session_ok)).
Defined.

Lemma plans_need_fresh_evidence_witness :
  length (group_run sample_ops fresh_session).1 = 3%nat /\
  Forall (fun e => num_lt (when e) (_deadline (after e)) = true) (group_run sample_ops fresh_session).1.
Proof.
  split; [vm_compute; reflexivity|].
  eapply list.Forall_impl; [exact (proj1 (plans_need_fresh_evidence two_bindings "A1" (PInt 1) (PInt 900)
    fresh_session sample_ops fresh_session_ok))|].
  intros e [H _]. exact H.
Defined.

End Group.
