(* ===== verification/Service.v ===== *)
(** * AirPlay bridge: the session service
    (app/services/airplay_bridge/session_service.py)

    One process at a time owns the journal.  Its tasks and workers are cut at the
    awaits; a crash kills them and keeps the journal.  The journal is the JSON value
    last written; its bytes are modelled as far as their number, which the writer
    and the reader both bound.  [PilotConfig.validate], the preflight, the factory
    and the results of the workers are choices of the environment. *)
From Stdlib Require Import Ascii String.
From stdpp Require Import gmap strings.
From S2P Require Import Prelude PyNum PyStr Json Sha256 Liveness Group.
#[local] Open Scope string_scope.
#[local] Open Scope list_scope.
#[local] Open Scope Z_scope.

Module Service.

Inductive session_state : Type :=
| STARTING | WAITING | PREPARING | ACTIVE | RESTORING | STOPPING
| FINISHED | FAILED | RECOVERY_REQUIRED.

#[export] Instance session_state_eq_dec : EqDecision session_state.
Proof. solve_decision. Defined.

Definition LIVE : list session_state := [STARTING; WAITING; PREPARING; ACTIVE; RESTORING; STOPPING].
Definition TERMINAL : list session_state := [FINISHED; FAILED; RECOVERY_REQUIRED].
Definition is_live (s : session_state) : bool := bool_decide (s ∈ LIVE).
(** [entry['state'] in LIVE | {'RECOVERY_REQUIRED'}]. *)
Definition reserved (s : session_state) : bool := is_live s || bool_decide (s = RECOVERY_REQUIRED).

Definition state_value (s : session_state) : string :=
  match s with
  | STARTING => "STARTING" | WAITING => "WAITING" | PREPARING => "PREPARING" | ACTIVE => "ACTIVE"
  | RESTORING => "RESTORING" | STOPPING => "STOPPING" | FINISHED => "FINISHED" | FAILED => "FAILED"
  | RECOVERY_REQUIRED => "RECOVERY_REQUIRED"
  end.
Definition state_of (v : string) : option session_state :=
  head (filter (fun s => state_value s = v) (LIVE ++ TERMINAL)).

Inductive sexn : Type := SessionConflict (code : string) | ServiceError (code : string).

(** ** Configurations *)
Record PilotDevice := {
  device_id : string; ip_address : string; fingerprint : list string; receiver_socket : string }.

Record PilotConfig := {
  data_dir : string; database_path : string; devices : list PilotDevice; c_master : string;
  receiver_binary_sha256 : string; controller_nonce : string; relay_url : string;
  base_url : string; listen_host : string; listen_port : Z; lifetime_seconds : pynum;
  wait_seconds : pynum; test_volume : Z; ipc_peer_uid : Z; status_path : string;
  receipt_path : string; stop_path : string; radio_volume_forwarding : bool }.

Section Digest.
Context (float_repr : Z -> list Z).

(** [json.dumps] with the default separators. *)
Fixpoint spaced_json (v : json) : list Z :=
  match v with
  | JList l => 91 :: Liveness.spaced (map spaced_json l) ++ [93]
  | JObj kvs =>
      123 :: Liveness.spaced (map (fun kv => print_string kv.1 ++ bytes_of ": " ++ spaced_json kv.2) kvs) ++ [125]
  | v => print float_repr v
  end.

(** [json.dumps(asdict(config), default=str, sort_keys=True)]: keys in order. *)
Definition device_json (d : PilotDevice) : json :=
  JObj [("device_id", JStr (device_id d)); ("fingerprint", JList (map JStr (fingerprint d)));
        ("ip_address", JStr (ip_address d)); ("receiver_socket", JStr (receiver_socket d))].
Definition config_json (c : PilotConfig) : json :=
  JObj [("base_url", JStr (base_url c)); ("controller_nonce", JStr (controller_nonce c));
        ("data_dir", JStr (data_dir c)); ("database_path", JStr (database_path c));
        ("devices", JList (map device_json (devices c)));
        ("ipc_peer_uid", JNum (PInt (ipc_peer_uid c)));
        ("lifetime_seconds", JNum (lifetime_seconds c)); ("listen_host", JStr (listen_host c));
        ("listen_port", JNum (PInt (listen_port c))); ("master", JStr (c_master c));
        ("radio_volume_forwarding", JBool (radio_volume_forwarding c));
        ("receipt_path", JStr (receipt_path c));
        ("receiver_binary_sha256", JStr (receiver_binary_sha256 c));
        ("relay_url", JStr (relay_url c)); ("status_path", JStr (status_path c));
        ("stop_path", JStr (stop_path c)); ("test_volume", JNum (PInt (test_volume c)));
        ("wait_seconds", JNum (wait_seconds c))].

Definition configuration_digest (c : PilotConfig) : string :=
  sha256_hex (string_of (spaced_json (config_json c))).

Definition grant_digest (kind value : string) : string :=
  sha256_hex (kind ++ String zero value).
Definition grant_digests (c : PilotConfig) : list string :=
  [grant_digest "relay" (relay_url c); grant_digest "controller" (controller_nonce c)].

(** ** Entries and the journal *)
Record entry := {
  e_state : session_state;
  targets : list string;
  digest : string;
  grants : list string;
  receipt : list (string * json) }.

Definition set_state st e := {| e_state := st; targets := targets e; digest := digest e;
  grants := grants e; receipt := receipt e |}.
Definition set_result st r e := {| e_state := st; targets := targets e; digest := digest e;
  grants := grants e; receipt := r |}.

Definition RECEIPT_VALUES : list (string * list string) :=
  [("status", map state_value LIVE ++ ["FINISHED"; "FAILED"; "MANUAL_REQUIRED"]);
   ("restore", ["NOT_STARTED"; "NO_RADIO_WRITE_ATTEMPTED"; "CAPTURED_STATE_RESTORED"; "MANUAL_REQUIRED"]);
   ("station_cleanup", ["NOT_CREATED"; "RETAINED"; "DELETED_EXACT_OWNED_ROW"; "RETAINED_CHECK_FAILED"])].

Definition positive_int (v : json) : bool :=
  match v with JNum (PInt n) => 0 <? n | _ => false end.

Definition _safe_receipt (r : list (string * json)) : list (string * json) :=
  omap (fun kv => match get kv.1 r with
                  | Some (JStr v) => if bool_decide (v ∈ kv.2) then Some (kv.1, JStr v) else None
                  | _ => None
                  end) RECEIPT_VALUES
  ++ match get "backup_ids" r with
     | Some (JList l) => if (length l <=? 128)%nat && forallb positive_int l
                         then [("backup_ids", JList l)] else []
     | _ => []
     end.

Definition entry_json (e : entry) : json :=
  JObj [("state", JStr (state_value (e_state e))); ("targets", JList (map JStr (targets e)));
        ("digest", JStr (digest e)); ("grants", JList (map JStr (grants e)));
        ("receipt", JObj (receipt e))].
Definition journal_json (es : list (string * entry)) : json :=
  JObj [("version", JNum (PInt 1)); ("sessions", JObj (map (fun x => (x.1, entry_json x.2)) es))].

(** What [_state_file] writes: [json.dump(value, stream, sort_keys=True)]. *)
Fixpoint insert_by_key {A} (x : string * A) (l : list (string * A)) : list (string * A) :=
  match l with
  | [] => [x]
  | y :: r => if Group.str_le x.1 y.1 then x :: l else y :: insert_by_key x r
  end.
Definition sort_by_key {A} (l : list (string * A)) : list (string * A) := fold_right insert_by_key [] l.

Definition entry_file (e : entry) : json :=
  JObj [("digest", JStr (digest e)); ("grants", JList (map JStr (grants e)));
        ("receipt", JObj (sort_by_key (receipt e))); ("state", JStr (state_value (e_state e)));
        ("targets", JList (map JStr (targets e)))].
Definition journal_file (es : list (string * entry)) : json :=
  JObj [("sessions", JObj (map (fun x => (x.1, entry_file x.2)) es)); ("version", JNum (PInt 1))].

(** [len(json.dumps(value).encode())]: the text is ASCII. *)
Definition dumps_length (v : json) : Z := Z.of_nat (length (spaced_json v)).

Definition strings_of (v : json) : option (list string) :=
  match v with
  | JList l => mapM (fun x => match x with JStr s => Some s | _ => None end) l
  | _ => None
  end.

Definition valid_key (key : string) : bool := is_hex_string 32 key.

(** One entry of the loop of [_load]; [None] raises. *)
Definition load_entry (v : json) : option entry :=
  match v with
  | JObj kvs =>
      if negb (same_set (kvs.*1) ["state"; "targets"; "digest"; "grants"; "receipt"]) then None
      else match get "state" kvs, get "digest" kvs, get "grants" kvs ≫= strings_of,
                 get "targets" kvs ≫= strings_of, get "receipt" kvs with
      | Some (JStr st), Some (JStr dg), Some gs, Some ts, Some (JObj rc) =>
          st ← state_of st;
          if is_hex_string 64 dg && (length gs =? 2)%nat && forallb (is_hex_string 64) gs
             && (1 <=? length ts)%nat && (length ts <=? 16)%nat
             && forallb (fun t => negb (empty_str t) && (py_len t <=? 128)) ts && distinct ts
          then Some {| e_state := if is_live st then RECOVERY_REQUIRED else st; targets := ts;
                       digest := dg; grants := gs; receipt := _safe_receipt rc |}
          else None
      | _, _, _, _, _ => None
      end
  | _ => None
  end.

Definition load_entries (capacity : nat) (v : json) : option (list (string * entry)) :=
  match v with
  | JObj kvs =>
      if negb (same_set (kvs.*1) ["version"; "sessions"] && Liveness.is_int 1 (get "version" kvs)) then None
      else match get "sessions" kvs with
      | Some (JObj l) =>
          if (capacity <? length l)%nat then None
          else mapM (fun x => if valid_key x.1 then e ← load_entry x.2; Some (x.1, e) else None) l
      | _ => None
      end
  | _ => None
  end.

(** ** The process and what survives it *)
Record process := {
  entries : list (string * entry);
  workers : list (string * bool);        (* the stop event *)
  scheduled : list string;               (* tasks that have not begun *)
  configs : list (string * PilotConfig);
  closed : bool;
  storage_failed : bool }.

Record world := {
  journal : option json;
  proc : process;
  running : bool;                        (* the lock is held *)
  started : list (string * PilotConfig) }.        (* the calls of the factory *)

Definition empty_process : process :=
  {| entries := []; workers := []; scheduled := []; configs := []; closed := false;
     storage_failed := false |}.

Definition assoc {A} (k : string) (l : list (string * A)) : option A :=
  snd <$> head (filter (fun x => x.1 = k) l).
Definition update {A} (k : string) (f : A -> A) (l : list (string * A)) : list (string * A) :=
  map (fun x => if bool_decide (x.1 = k) then (x.1, f x.2) else x) l.
Definition remove {A} (k : string) (l : list (string * A)) : list (string * A) :=
  filter (fun x => x.1 <> k) l.

Definition p_entries es p := {| entries := es; workers := workers p; scheduled := scheduled p;
  configs := configs p; closed := closed p; storage_failed := storage_failed p |}.
Definition p_workers ws p := {| entries := entries p; workers := ws; scheduled := scheduled p;
  configs := configs p; closed := closed p; storage_failed := storage_failed p |}.
Definition p_scheduled l p := {| entries := entries p; workers := workers p; scheduled := l;
  configs := configs p; closed := closed p; storage_failed := storage_failed p |}.
Definition p_configs c p := {| entries := entries p; workers := workers p; scheduled := scheduled p;
  configs := c; closed := closed p; storage_failed := storage_failed p |}.
Definition p_closed p := {| entries := entries p; workers := workers p; scheduled := scheduled p;
  configs := configs p; closed := true; storage_failed := storage_failed p |}.
Definition p_failed p := {| entries := entries p; workers := workers p; scheduled := scheduled p;
  configs := configs p; closed := closed p; storage_failed := true |}.

Definition stop_all (p : process) : process := p_workers (map (fun w => (w.1, true)) (workers p)) p.
Definition stop_live (p : process) : process :=
  p_entries (map (fun x => (x.1, if is_live (e_state x.2) then set_state STOPPING x.2 else x.2)) (entries p)) p.

Definition M := ST world sexn.
Definition on_proc (f : process -> process) : M unit :=
  modify (fun w => {| journal := journal w; proc := f (proc w); running := running w; started := started w |}).
Definition set_journal (v : json) : M unit :=
  modify (fun w => {| journal := Some v; proc := proc w; running := running w; started := started w |}).

(** What becomes of [_state_file]: an exception may come before or after the rename. *)
Inductive write : Type := Written | Lost | WrittenThenFailed.

Definition MAX_JOURNAL : Z := 16384.

Definition _save (wr : write) : M unit :=
  w ← gets id;
  let v := journal_file (sort_by_key (entries (proc w))) in
  try_except
    (if MAX_JOURNAL <? dumps_length (journal_json (entries (proc w))) then raise (ServiceError "AIRPLAY_SERVICE_JOURNAL_FULL")
     else match wr with
     | Written => set_journal v
     | Lost => raise (ServiceError "OSError")
     | WrittenThenFailed => set_journal v;; raise (ServiceError "OSError")
     end)
    (fun e => on_proc (fun p => stop_all (stop_live (p_failed p)));; raise e).

(** The size of the file: the text and its newline, against [maximum]. *)
Definition readable (v : json) : bool := (dumps_length v + 1 <=? MAX_JOURNAL).

Definition _load (capacity : nat) (wr : write) : M unit :=
  w ← gets id;
  match journal w with
  | None => mret tt
  | Some v =>
      if negb (readable v) then raise (ServiceError "AIRPLAY_GROUP_OBSERVATION_UNVERIFIED")
      else match load_entries capacity v with
      | None => raise (ServiceError "AIRPLAY_SERVICE_JOURNAL_INVALID")
      | Some es => on_proc (p_entries es);; _save wr
      end
  end.

(** ** start *)
Definition config_targets (c : PilotConfig) : list string := remove_dups (map device_id (devices c)).
Definition paths (c : PilotConfig) : list string := [status_path c; receipt_path c; stop_path c].
Definition intersects (a b : list string) : bool := existsb (fun x => bool_decide (x ∈ b)) a.

Definition owns_resource (old new : PilotConfig) : bool :=
  (listen_port old =? listen_port new) || bool_decide (relay_url old = relay_url new)
  || intersects (paths old) (paths new)
  || intersects (map receiver_socket (devices old)) (map receiver_socket (devices new)).

Definition conflict (code : string) : option sexn := Some (SessionConflict code).

(** The loop over the entries: the first conflict. *)
Fixpoint find_conflict (p : process) (c : PilotConfig) (es : list (string * entry)) : option sexn :=
  match es with
  | [] => None
  | (k, e) :: es =>
      if reserved (e_state e) && intersects (config_targets c) (targets e)
      then conflict "AIRPLAY_DEVICE_BUSY_OR_UNRECONCILED"
      else if bool_decide (digest e = configuration_digest c) || intersects (grant_digests c) (grants e)
      then conflict "AIRPLAY_FRESH_PROFILE_REQUIRED"
      else match assoc k (configs p) with
      | Some old => if is_live (e_state e) && owns_resource old c
                    then conflict "AIRPLAY_RESOURCE_ALREADY_OWNED" else find_conflict p c es
      | None => find_conflict p c es
      end
  end.

(** [valid]: [config.validate()]; [checked]: [self.preflight(config)]. *)
Definition start (capacity : nat) (key : string) (c : PilotConfig) (valid checked : bool) (wr : write)
    : M unit :=
  if negb (valid_key key) then raise (ServiceError "AIRPLAY_SERVICE_REQUEST_ID")
  else
    w ← gets id;
    if closed (proc w) || storage_failed (proc w) then raise (SessionConflict "AIRPLAY_SERVICE_CLOSED")
    else if negb valid then raise (ServiceError "ValueError")
    else match assoc key (entries (proc w)) with
    | Some e => if bool_decide (digest e = configuration_digest c) then mret tt
                else raise (SessionConflict "AIRPLAY_REQUEST_ID_REUSED")
    | None =>
        match find_conflict (proc w) c (entries (proc w)) with
        | Some e => raise e
        | None =>
            if (capacity <=? length (entries (proc w)))%nat
            then raise (SessionConflict "AIRPLAY_SERVICE_JOURNAL_FULL")
            else if negb checked then raise (ServiceError "preflight")
            else
              on_proc (fun p => p_entries (entries p ++
                [(key, {| e_state := STARTING; targets := Group.sorted (config_targets c);
                          digest := configuration_digest c; grants := grant_digests c;
                          receipt := [] |})]) p);;
              try_except (_save wr)
                (fun e => on_proc (fun p => p_entries (remove key (entries p)) p);; raise e);;
              on_proc (fun p => p_scheduled (scheduled p ++ [key]) (p_configs (configs p ++ [(key, c)]) p))
        end
    end.

(** ** The task of a session *)
Inductive factory_result : Type := FactoryRaised | Made (manage_signals : bool).

(** [finally: self.workers.pop(key, None); self._save()]. *)
Definition conclude (key : string) (st : session_state) (r : option (list (string * json))) (wr : write)
    : M unit :=
  on_proc (fun p => p_entries (update key (fun e => match r with
                                                    | Some r => set_result st r e
                                                    | None => set_state st e end) (entries p)) p);;
  on_proc (fun p => p_workers (remove key (workers p)) p);;
  _save wr.

Definition NOT_RUN : list (string * json) :=
  [("restore", JStr "NO_RADIO_WRITE_ATTEMPTED"); ("station_cleanup", JStr "NOT_CREATED");
   ("status", JStr "FINISHED")].

(** [_run] up to [await worker.run()]. *)
Definition run_begin (key : string) (c : PilotConfig) (f : factory_result) (wr : write) : M unit :=
  on_proc (fun p => p_scheduled (filter (fun k => k <> key) (scheduled p)) p);;
  w ← gets id;
  match assoc key (entries (proc w)) with
  | None => mret tt                      (* the task has its entry *)
  | Some e =>
      if bool_decide (e_state e = STOPPING) then conclude key FINISHED (Some NOT_RUN) wr
      else
        modify (fun w => {| journal := journal w; proc := proc w; running := running w;
                            started := started w ++ [(key, c)] |});;
        match f with
        | FactoryRaised | Made true => conclude key RECOVERY_REQUIRED None wr
        | Made false => on_proc (fun p => p_workers (workers p ++ [(key, false)]) p)
        end
  end.

Definition str_in (k : string) (vs : list string) (r : list (string * json)) : bool :=
  match get k r with Some (JStr v) => bool_decide (v ∈ vs) | _ => false end.

(** The state after [worker.run()] returned this receipt. *)
Definition outcome (r : list (string * json)) : session_state :=
  if str_in "restore" ["NO_RADIO_WRITE_ATTEMPTED"; "CAPTURED_STATE_RESTORED"] r
     && str_in "station_cleanup" ["NOT_CREATED"; "DELETED_EXACT_OWNED_ROW"] r
  then if str_in "status" ["FINISHED"] r then FINISHED else FAILED
  else RECOVERY_REQUIRED.

(** [worker.run()] returned a receipt, or raised. *)
Definition run_end (key : string) (result : option (list (string * json))) (wr : write) : M unit :=
  match result with
  | Some r => let r := _safe_receipt r in conclude key (outcome r) (Some r) wr
  | None => conclude key RECOVERY_REQUIRED None wr
  end.

(** ** stop, close, crash and restart *)
Definition stop (key : string) (wr : write) : M unit :=
  if negb (valid_key key) then raise (ServiceError "AIRPLAY_SERVICE_REQUEST_ID")
  else
    w ← gets id;
    match (if closed (proc w) then None else assoc key (entries (proc w))) with
    | None => raise (SessionConflict "AIRPLAY_SERVICE_SESSION_UNKNOWN")
    | Some e =>
        if is_live (e_state e) then
          on_proc (fun p => p_entries (update key (set_state STOPPING) (entries p)) p);;
          _save wr;;
          on_proc (fun p => p_workers (update key (fun _ => true) (workers p)) p)
        else mret tt
    end.

Definition stop_quietly (x : string * write) : M unit :=
  try_except (stop x.1 x.2) (fun _ => on_proc p_failed).

(** [writes]: what becomes of the save of each entry. *)
Definition close (writes : list write) : M unit :=
  w ← gets id;
  if closed (proc w) then mret tt
  else
    for_each (zip (map fst (entries (proc w))) writes) stop_quietly;;
    on_proc stop_all;; on_proc p_closed.

(** A new process on the same directory; the constructor raises when [_load] does. *)
Definition boot (capacity : nat) (wr : write) (w : world) : world :=
  let '(r, w) := _load capacity wr {| journal := journal w; proc := empty_process; running := true;
                                      started := started w |} in
  {| journal := journal w; proc := proc w; running := is_ok r; started := started w |}.

(** The process died, or shut down after its last task. *)
Definition dead (w : world) : world :=
  {| journal := journal w; proc := empty_process; running := false; started := started w |}.

Inductive service_step (capacity : nat) (w : world) : world -> Prop :=
| v_start key c valid checked wr : running w = true ->
    service_step capacity w (start capacity key c valid checked wr w).2
| v_begin key c f wr : running w = true -> key ∈ scheduled (proc w) -> (key, c) ∈ configs (proc w) ->
    service_step capacity w (run_begin key c f wr w).2
| v_end key stopped result wr : running w = true -> (key, stopped) ∈ workers (proc w) ->
    service_step capacity w (run_end key result wr w).2
| v_stop key wr : running w = true -> service_step capacity w (stop key wr w).2
| v_close writes : running w = true -> length writes = length (entries (proc w)) ->
    service_step capacity w (close writes w).2
| v_crash : service_step capacity w (dead w)
| v_boot wr : running w = false -> service_step capacity w (boot capacity wr w).

Definition fresh_world : world :=
  {| journal := None; proc := empty_process; running := false; started := [] |}.

End Digest.
(** ** Entries that exclude each other *)
Definition static (e : entry) : list string * string * list string := (targets e, digest e, grants e).

Definition excludes (a b : string * entry) : Prop :=
  a.1 <> b.1 /\
  (reserved (e_state a.2) = true -> reserved (e_state b.2) = true -> targets a.2 ## targets b.2) /\
  grants a.2 ## grants b.2.

Definition ok_entries (es : list (string * entry)) : Prop := ForallOrdPairs excludes es.

(** The same entries, none of them newly reserved. *)
Definition relaxes (x y : string * entry) : Prop :=
  x.1 = y.1 /\ static x.2 = static y.2 /\ (reserved (e_state y.2) = true -> reserved (e_state x.2) = true).

Lemma excludes_sym a b : excludes a b -> excludes b a.
Proof. unfold excludes. intros (H1 & H2 & H3). split; [done|]. set_solver. Qed.

Lemma excludes_relax a a' b b' : relaxes a a' -> relaxes b b' -> excludes a b -> excludes a' b'.
Proof.
  intros (K1 & S1 & R1) (K2 & S2 & R2) (H1 & H2 & H3). injection S1 as T1 _ G1. injection S2 as T2 _ G2.
  unfold excludes. rewrite <- K1, <- K2, <- T1, <- T2, <- G1, <- G2. auto.
Qed.

Lemma ok_entries_relax es es' : Forall2 relaxes es es' -> ok_entries es -> ok_entries es'.
Proof.
  unfold ok_entries. induction 1 as [|x y l l' Hxy Hl IH]; [done|].
  intros H. inversion H as [|? ? Hf Ho]; subst. constructor; [|by apply IH].
  clear -Hxy Hl Hf. induction Hl as [|a b l l' Hab Hl IH]; [done|]. inversion Hf; subst.
  constructor; [by apply (excludes_relax x y a b)|by apply IH].
Qed.

Lemma relaxes_map f es : (forall x, x ∈ es -> relaxes x (f x)) -> Forall2 relaxes es (map f es).
Proof.
  induction es as [|x es IH]; cbn; intros H; [constructor|].
  constructor; [apply H; left|]. apply IH. intros y Hy. apply H. by right.
Qed.

Lemma ok_entries_keys es k e e' : ok_entries es -> (k, e) ∈ es -> (k, e') ∈ es -> e = e'.
Proof.
  unfold ok_entries. induction 1 as [|x l Hf Ho IH]; [by intros ?%elem_of_nil|].
  rewrite !elem_of_cons. rewrite List.Forall_forall in Hf.
  assert (forall k0 e0, x = (k0, e0) -> forall e1, (k0, e1) ∉ l) as Hx.
  { intros k0 e0 -> e1 Hin. apply list_elem_of_In, Hf in Hin as [Hne _]. done. }
  intros [H1|H1] [H2|H2]; [congruence|by edestruct Hx|by edestruct Hx|by apply IH].
Qed.

Lemma ok_entries_excl es a b : ok_entries es -> a ∈ es -> b ∈ es -> a.1 <> b.1 -> excludes a b.
Proof.
  unfold ok_entries. induction 1 as [|x l Hf Ho IH]; [by intros ?%elem_of_nil|].
  rewrite !elem_of_cons. rewrite List.Forall_forall in Hf. intros [->|Ha] [->|Hb] Hne; [done| | |by apply IH].
  - apply Hf. by apply list_elem_of_In.
  - apply excludes_sym, Hf. by apply list_elem_of_In.
Qed.

Lemma ok_entries_snoc es x : ok_entries es -> (forall y, y ∈ es -> excludes y x) -> ok_entries (es ++ [x]).
Proof.
  unfold ok_entries. induction 1 as [|y l Hf Ho IH]; cbn; intros H.
  - constructor; [constructor|constructor].
  - constructor.
    + apply List.Forall_app. split; [done|]. constructor; [apply H; left|constructor].
    + apply IH. intros z Hz. apply H. by right.
Qed.

(** Every entry of [es] is in [es'] with the same reservation data. *)
Definition covers (es es' : list (string * entry)) : Prop :=
  forall k e, (k, e) ∈ es -> exists e', (k, e') ∈ es' /\ static e' = static e.

Lemma covers_refl es : covers es es.
Proof. intros k e H. by exists e. Qed.

Lemma relaxes_elem es es' x : Forall2 relaxes es es' -> x ∈ es -> exists y, y ∈ es' /\ relaxes x y.
Proof.
  induction 1 as [|a b l l' Hab Hl IH]; [by intros ?%elem_of_nil|].
  intros [->|Hx]%elem_of_cons; [exists b; split; [left|done]|].
  destruct (IH Hx) as (y & Hy & Hr). exists y. split; [by right|done].
Qed.

Lemma relaxes_elem_r es es' y : Forall2 relaxes es es' -> y ∈ es' -> exists x, x ∈ es /\ relaxes x y.
Proof.
  induction 1 as [|a b l l' Hab Hl IH]; [by intros ?%elem_of_nil|].
  intros [->|Hy]%elem_of_cons; [exists a; split; [left|done]|].
  destruct (IH Hy) as (x & Hx & Hr). exists x. split; [by right|done].
Qed.

Lemma relaxes_covers es es' es1 : Forall2 relaxes es es' -> covers es es1 -> covers es' es1.
Proof.
  intros H Hc k e Hin. destruct (relaxes_elem_r _ _ _ H Hin) as ([k0 x] & Hx & Hk & Hs & _).
  cbn in *. subst k0. destruct (Hc k x Hx) as (e' & He & Hst). exists e'. split; [done|congruence].
Qed.

(** *** The order of the file *)
Lemma insert_by_key_perm {A} (x : string * A) l : insert_by_key x l ≡ₚ x :: l.
Proof.
  induction l as [|y l IH]; [done|]. cbn. destruct (Group.str_le _ _); [done|]. rewrite IH. by constructor.
Qed.

Lemma sort_perm {A} (l : list (string * A)) : sort_by_key l ≡ₚ l.
Proof. induction l as [|x l IH]; [done|]. cbn. by rewrite insert_by_key_perm, IH. Qed.

Lemma sort_elem {A} (l : list (string * A)) x : x ∈ sort_by_key l <-> x ∈ l.
Proof. by rewrite sort_perm. Qed.

Lemma ok_entries_perm es es' : es ≡ₚ es' -> ok_entries es -> ok_entries es'.
Proof. apply (ForallOrdPairs_perm excludes excludes_sym).
Qed.

Lemma ok_entries_sort es : ok_entries es -> ok_entries (sort_by_key es).
Proof. apply ok_entries_perm. by rewrite sort_perm. Qed.

Lemma covers_sort es es' : covers es (sort_by_key es') <-> covers es es'.
Proof.
  unfold covers. split; intros H k e Hin; destruct (H k e Hin) as (e' & He & Hs); exists e'; split; auto;
    by apply sort_elem.
Qed.

(** *** The lists of the process *)
Lemma assoc_elem {A} k (l : list (string * A)) v : assoc k l = Some v -> (k, v) ∈ l.
Proof.
  unfold assoc. destruct (filter _ l) as [|[k0 v0] r] eqn:E; [done|]. cbn. intros [= <-].
  assert ((k0, v0) ∈ filter (fun x : string * A => x.1 = k) l) as H by (rewrite E; left).
  apply list_elem_of_filter in H as [Hk Hin]. cbn in Hk. by subst k0.
Qed.

Lemma assoc_none {A} k (l : list (string * A)) v : assoc k l = None -> (k, v) ∉ l.
Proof.
  unfold assoc. destruct (filter _ l) as [|x r] eqn:E; [|done]. intros _ Hin.
  assert ((k, v) ∈ filter (fun x : string * A => x.1 = k) l) as H by (by apply list_elem_of_filter).
  rewrite E in H. by apply elem_of_nil in H.
Qed.

Lemma remove_elem {A} k (l : list (string * A)) x : x ∈ remove k l <-> x.1 <> k /\ x ∈ l.
Proof. unfold remove. by rewrite list_elem_of_filter. Qed.

Lemma filter_all {A} (P : A -> Prop) `{forall x, Decision (P x)} (l : list A) : (forall x, x ∈ l -> P x) -> filter P l = l.
Proof.
  intros Hp. induction l as [|x l IH]; [done|]. rewrite list.filter_cons_True by (apply Hp; left).
  f_equal. apply IH. intros y Hy. apply Hp. by right.
Qed.

Lemma remove_snoc {A} k (l : list (string * A)) v : (forall x, x ∈ l -> x.1 <> k) -> remove k (l ++ [(k, v)]) = l.
Proof.
  intros H. unfold remove. rewrite list.filter_app, (list.filter_cons_False _ (k, v)) by (cbn; tauto).
  rewrite app_nil_r. by apply filter_all.
Qed.

(** ** What a new process reads back *)
Definition loaded (x y : string * entry) : Prop :=
  x.1 = y.1 /\ static x.2 = static y.2 /\
  e_state y.2 = if is_live (e_state x.2) then RECOVERY_REQUIRED else e_state x.2.

Lemma loaded_relaxes x y : loaded x y -> relaxes x y.
Proof.
  intros (H1 & H2 & H3). split; [done|]. split; [done|]. rewrite H3. unfold reserved.
  destruct (is_live (e_state x.2)) eqn:E; [done|]. by rewrite E.
Qed.

Lemma strings_of_list l : strings_of (JList (map JStr l)) = Some l.
Proof. cbn. induction l as [|s l IH]; [done|]. cbn. by rewrite IH. Qed.

Lemma state_of_state st : state_of (state_value st) = Some st.
Proof. by destruct st. Qed.

Lemma load_entry_json e e' : load_entry (entry_file e) = Some e' ->
  static e = static e' /\ e_state e' = (if is_live (e_state e) then RECOVERY_REQUIRED else e_state e).
Proof.
  unfold load_entry, entry_file. set (kvs := [("digest", _); _; _; _; _]).
  change (get "state" kvs) with (Some (JStr (state_value (e_state e)))).
  change (get "digest" kvs) with (Some (JStr (digest e))).
  change (get "grants" kvs) with (Some (JList (map JStr (grants e)))).
  change (get "targets" kvs) with (Some (JList (map JStr (targets e)))).
  change (get "receipt" kvs) with (Some (JObj (sort_by_key (receipt e)))).
  destruct (negb _); [done|]. unfold mbind, option_bind. rewrite !strings_of_list, state_of_state.
  destruct (_ && _); [|done]. by intros [= <-].
Qed.

Lemma load_entries_json capacity es es' :
  load_entries capacity (journal_file es) = Some es' -> Forall2 loaded es es'.
Proof.
  unfold load_entries, journal_file. set (kvs := [("sessions", _); _]).
  change (get "sessions" kvs) with (Some (JObj (map (fun x => (x.1, entry_file x.2)) es))).
  destruct (negb _); [done|]. destruct (_ <? _)%nat; [done|]. clear kvs. revert es'.
  induction es as [|[k e] es IH]; intros es'; cbn -[valid_key load_entry]; [by intros [= <-]|].
  destruct (valid_key k); [|done]. destruct (load_entry (entry_file e)) as [e1|] eqn:E; [|done]. cbn.
  destruct (mapM _ _) as [l|] eqn:El; [|done]. intros [= <-]. constructor; [|by apply IH].
  apply load_entry_json in E as [H1 H2]. split; [done|by split].
Qed.

(** ** Saving *)
Section Saving.
Context (float_repr : Z -> list Z).
Local Abbreviation _save := (_save float_repr).

(** The process after a failed save: every live session is told to stop. *)
Definition stopped (p : process) : process := stop_all (stop_live (p_failed p)).

Lemma save_results wr w r w' : _save wr w = (r, w') ->
  let j := Some (journal_file (sort_by_key (entries (proc w)))) in
  running w' = running w /\ started w' = started w /\
  match r with
  | Ok _ => proc w' = proc w /\ journal w' = j
  | Err _ => proc w' = stopped (proc w) /\ (journal w' = journal w \/ journal w' = j)
  end.
Proof.
  unfold Service._save, mbind, st_bind, gets, id, try_except.
  destruct (MAX_JOURNAL <? _); [intros [= <- <-]; cbn; auto|].
  destruct wr; intros [= <- <-]; cbn; auto.
Qed.

Lemma stop_live_relaxes p : Forall2 relaxes (entries p) (entries (stop_live p)).
Proof.
  apply relaxes_map. intros [k e] _. cbn. destruct (is_live (e_state e)) eqn:E; [|done].
  split; [done|]. split; [done|]. intros _. cbn. unfold reserved. by rewrite E.
Qed.

(** ** The invariant of a world *)
Definition task_keys (p : process) : list string := scheduled p ++ (workers p).*1.

Definition reservation (c : PilotConfig) : list string * string * list string :=
  (Group.sorted (config_targets c), configuration_digest float_repr c, grant_digests c).

(** The entries the journal stands for. *)
Definition jrep (w : world) (es : list (string * entry)) : Prop :=
  journal w = Some (journal_file es) \/ (journal w = None /\ es = []).

Definition uses_once (a b : string * PilotConfig) : Prop :=
  a.1 <> b.1 /\ grant_digests a.2 ## grant_digests b.2.

(** Every use of the factory is reserved in [es]. *)
Definition booked (l : list (string * PilotConfig)) (es : list (string * entry)) : Prop :=
  forall k c, (k, c) ∈ l -> exists e, (k, e) ∈ es /\ static e = reservation c.

Record wok (w : world) : Prop := {
  w_entries : ok_entries (entries (proc w));
  w_journal : exists es, jrep w es /\ ok_entries es /\ covers (entries (proc w)) es
     /\ booked (started w) es
     /\ (forall k e, k ∈ task_keys (proc w) -> (k, e) ∈ es -> is_live (e_state e) = true);
  w_started : ForallOrdPairs uses_once (started w);
  w_booked : running w = true -> booked (started w) (entries (proc w));
  w_tasks : forall k, k ∈ task_keys (proc w) -> exists e, (k, e) ∈ entries (proc w) /\ is_live (e_state e) = true;
  w_new : forall k, k ∈ scheduled (proc w) -> k ∉ (started w).*1;
  w_nodup : NoDup (task_keys (proc w));
  w_configs : booked (configs (proc w)) (entries (proc w)) }.

Lemma booked_covers l es es' : booked l es -> covers es es' -> booked l es'.
Proof.
  intros H Hc k c Hin. destruct (H k c Hin) as (e & He & Hs). destruct (Hc k e He) as (e' & He' & Hs').
  exists e'. split; [done|congruence].
Qed.

Lemma booked_relaxes l es es' : Forall2 relaxes es es' -> booked l es -> booked l es'.
Proof.
  intros H Hb k c Hin. destruct (Hb k c Hin) as (e & He & Hs).
  destruct (relaxes_elem _ _ _ H He) as ([k0 y] & Hy & Hk & Hst & _). cbn in *. subst k0.
  exists y. split; [done|congruence].
Qed.

Lemma task_keys_stopped p : task_keys (stopped p) = task_keys p.
Proof. unfold task_keys, stopped. cbn. f_equal. rewrite <- list_fmap_compose. by apply list_fmap_ext. Qed.

Lemma booked_sort l es : booked l (sort_by_key es) <-> booked l es.
Proof.
  unfold booked. split; intros H k c Hin; destruct (H k c Hin) as (e & He & Hs); exists e; split; auto;
    by apply sort_elem.
Qed.

(** A world whose entries are good, before its save. *)
Record presave (w : world) : Prop := {
  ps_entries : ok_entries (entries (proc w));
  ps_journal : exists es, jrep w es /\ ok_entries es /\ booked (started w) es
     /\ (forall k e, k ∈ task_keys (proc w) -> (k, e) ∈ es -> is_live (e_state e) = true);
  ps_started : ForallOrdPairs uses_once (started w);
  ps_booked : booked (started w) (entries (proc w));
  ps_tasks : forall k, k ∈ task_keys (proc w) -> exists e, (k, e) ∈ entries (proc w) /\ is_live (e_state e) = true;
  ps_new : forall k, k ∈ scheduled (proc w) -> k ∉ (started w).*1;
  ps_nodup : NoDup (task_keys (proc w));
  ps_configs : booked (configs (proc w)) (entries (proc w)) }.

Lemma live_tasks p es : ok_entries es ->
  (forall k, k ∈ task_keys p -> exists e, (k, e) ∈ es /\ is_live (e_state e) = true) ->
  forall k e, k ∈ task_keys p -> (k, e) ∈ es -> is_live (e_state e) = true.
Proof.
  intros Hok H k e Hk He. destruct (H k Hk) as (e' & He' & Hl).
  by rewrite (ok_entries_keys es k e e' Hok He He').
Qed.

Lemma save_ok wr w u w' : _save wr w = (Ok u, w') -> presave w -> wok w'.
Proof.
  intros (Hr & Hs & Hp & Hj)%save_results [P1 P2 P3 P4 P5 P6 P7 P8].
  split; rewrite ?Hp, ?Hs; auto.
  exists (sort_by_key (entries (proc w))). split; [by left|]. split; [by apply ok_entries_sort|].
  split; [apply covers_sort, covers_refl|]. split; [by apply booked_sort|].
  intros k e Hk Hin. rewrite sort_elem in Hin. by apply (live_tasks (proc w) (entries (proc w)) P1 P5 k e).
Qed.

(** After a failed save the memory may hold more than the journal, so this asks for
    the old journal to cover it. *)
Lemma save_failed wr w e w' : _save wr w = (Err e, w') -> presave w ->
  (forall es, jrep w es -> covers (entries (proc w)) es) -> wok w'.
Proof.
  intros (Hr & Hs & Hp & Hj)%save_results [P1 P2 P3 P4 P5 P6 P7 P8] Hcov.
  pose proof (stop_live_relaxes (p_failed (proc w))) as Hrel. cbn [entries p_failed] in Hrel.
  assert (entries (stopped (proc w)) = entries (stop_live (p_failed (proc w)))) as Ee by done.
  split; rewrite ?Hp, ?Hs, ?task_keys_stopped, ?Ee; auto.
  - by apply (ok_entries_relax (entries (proc w))).
  - destruct Hj as [Hj|Hj].
    + destruct P2 as (es & J1 & J2 & J3 & J4). exists es.
      split; [unfold jrep; by rewrite Hj|]. split; [done|]. split; [|done].
      by apply (relaxes_covers (entries (proc w))), Hcov.
    + exists (sort_by_key (entries (proc w))). split; [by left|]. split; [by apply ok_entries_sort|].
      split; [apply covers_sort; by apply (relaxes_covers (entries (proc w))), covers_refl|].
      split; [by apply booked_sort|]. intros k x Hk Hin. rewrite sort_elem in Hin. by apply (live_tasks (proc w) (entries (proc w)) P1 P5 k x).
  - intros _. by apply (booked_relaxes _ (entries (proc w))).
  - intros k Hk. destruct (P5 k Hk) as (x & Hx & Hl).
    exists (if is_live (e_state x) then set_state STOPPING x else x). split; [|by rewrite Hl].
    apply list_elem_of_In, in_map_iff. exists (k, x). split; [done|]. by apply list_elem_of_In.
  - by apply (booked_relaxes _ (entries (proc w))).
Qed.
(** ** Every step keeps the invariant *)
Lemma strings_map_inj l l' : map JStr l = map JStr l' -> l = l'.
Proof.
  intros H. pose proof (strings_of_list l) as E. rewrite H, strings_of_list in E. congruence.
Qed.

Lemma entry_file_static e e' : entry_file e = entry_file e' -> static e = static e'.
Proof.
  unfold entry_file, static. intros [= Hd Hg _ _ Ht].
  by rewrite (strings_map_inj _ _ Ht), Hd, (strings_map_inj _ _ Hg).
Qed.

Lemma wok_presave w : wok w -> running w = true -> presave w.
Proof.
  intros [H1 (es & J1 & J2 & J3 & J4 & J5) H3 H4 H5 H6 H7 H8] Hr.
  split; auto. by exists es.
Qed.

Lemma wok_covers w : wok w -> forall es, jrep w es -> covers (entries (proc w)) es.
Proof.
  intros [_ (es & J1 & _ & J3 & _) _ _ _ _ _ _] es' J.
  destruct J1 as [J1|[J1 ->]], J as [J|[J ->]]; rewrite J1 in J; try discriminate J; try done.
  injection J as J. intros k e Hin. destruct (J3 k e Hin) as (e1 & He1 & Hs1).
  assert ((k, entry_file e1) ∈ map (fun x => (x.1, entry_file x.2)) es') as Hj.
  { rewrite <- J. apply list_elem_of_In, in_map_iff. exists (k, e1). split; [done|]. by apply list_elem_of_In. }
  apply list_elem_of_In, in_map_iff in Hj as ([k0 e2] & He & Hin2).
  injection He as -> H1 H2 H3 H4 H5. exists e2.
  split; [by apply list_elem_of_In|]. rewrite <- Hs1. apply entry_file_static. unfold entry_file. by rewrite H1, H2, H3, H4, H5.
Qed.

Lemma save_wok wr w r w' : _save wr w = (r, w') -> presave w ->
  (forall es, jrep w es -> covers (entries (proc w)) es) -> wok w'.
Proof. destruct r; intros H P C; [by eapply save_ok|by eapply save_failed]. Qed.

(** The world with another process. *)
Definition with_proc (w : world) (p : process) : world :=
  {| journal := journal w; proc := p; running := running w; started := started w |}.

(** The tasks of [p'] are tasks of [p]. *)
Record fewer_tasks (p p' : process) : Prop := {
  ft_nodup : NoDup (task_keys p');
  ft_sub : forall k, k ∈ task_keys p' -> k ∈ task_keys p;
  ft_new : forall k, k ∈ scheduled p' -> k ∈ scheduled p }.

Lemma fewer_refl p p' : NoDup (task_keys p) -> task_keys p' = task_keys p -> scheduled p' = scheduled p ->
  fewer_tasks p p'.
Proof. intros H E1 E2. split; [by rewrite E1|intros k; by rewrite E1|intros k; by rewrite E2]. Qed.

Lemma wok_change w p' : wok w -> entries p' = entries (proc w) -> configs p' = configs (proc w) ->
  fewer_tasks (proc w) p' -> wok (with_proc w p').
Proof.
  intros [H1 (es & J1 & J2 & J3 & J4 & J5) H3 H4 H5 H6 H7 H8] He Hc [T1 T2 T3].
  split; cbn; rewrite ?He, ?Hc; auto. exists es. repeat split; auto. intros k e Hk. by apply J5, T2.
Qed.

Lemma presave_change w p' : wok w -> running w = true ->
  Forall2 relaxes (entries (proc w)) (entries p') -> configs p' = configs (proc w) ->
  fewer_tasks (proc w) p' ->
  (forall k, k ∈ task_keys p' -> exists e, (k, e) ∈ entries p' /\ is_live (e_state e) = true) ->
  presave (with_proc w p') /\ forall es, jrep (with_proc w p') es -> covers (entries p') es.
Proof.
  intros Hw Hr He Hc [T1 T2 T3] Hl. split.
  - destruct Hw as [H1 (es & J1 & J2 & J3 & J4 & J5) H3 H4 H5 H6 H7 H8].
    split; cbn; rewrite ?Hc; auto.
    + by apply (ok_entries_relax (entries (proc w))).
    + exists es. repeat split; auto. intros k e Hk. by apply J5, T2.
    + apply (booked_relaxes _ (entries (proc w))); auto.
    + by apply (booked_relaxes _ (entries (proc w))).
  - intros es J. apply (relaxes_covers (entries (proc w))); [done|]. apply (wok_covers w Hw es). exact J.
Qed.

(** *** An update of the entry of a task *)
Lemma update_relaxes key f es : (forall e, (key, e) ∈ es -> relaxes (key, e) (key, f e)) ->
  Forall2 relaxes es (update key f es).
Proof.
  intros H. apply relaxes_map. intros [k e] Hin. cbn. case_bool_decide as E; [|done].
  subst k. by apply H.
Qed.

Lemma update_elem_ne {A} key f (es : list (string * A)) k e : (k, e) ∈ es -> k <> key -> (k, e) ∈ update key f es.
Proof.
  intros Hin Hne. apply list_elem_of_In, in_map_iff. exists (k, e). cbn.
  rewrite bool_decide_false by done. split; [done|]. by apply list_elem_of_In.
Qed.

Lemma update_elem_eq {A} key f (es : list (string * A)) e : (key, e) ∈ es -> (key, f e) ∈ update key f es.
Proof.
  intros Hin. apply list_elem_of_In, in_map_iff. exists (key, e). cbn.
  rewrite bool_decide_true by done. split; [done|]. by apply list_elem_of_In.
Qed.

Lemma update_keys {A} key f (l : list (string * A)) : (update key f l).*1 = l.*1.
Proof.
  unfold update. rewrite <- list_fmap_compose. apply list_fmap_ext. intros i x _. cbn. by case_bool_decide.
Qed.

Lemma remove_keys {A} key (l : list (string * A)) : (remove key l).*1 = filter (fun k => k <> key) l.*1.
Proof.
  unfold remove. induction l as [|[k v] l IH]; [done|]. cbn [fmap list_fmap fst].
  destruct (decide (k = key)) as [->|H].
  - rewrite !list.filter_cons_False by (cbn; tauto). done.
  - rewrite !list.filter_cons_True by done. cbn. by f_equal.
Qed.

(** *** The handlers *)
Lemma conclude_wok key st r wr w x w' e :
  conclude float_repr key st r wr w = (x, w') -> wok w -> running w = true ->
  (key, e) ∈ entries (proc w) -> is_live (e_state e) = true -> key ∉ scheduled (proc w) -> wok w'.
Proof.
  intros Hc Hw Hr Hin Hl Hns. set (f := fun e => match r with Some r => set_result st r e | None => set_state st e end).
  set (p' := p_workers (remove key (workers (proc w))) (p_entries (update key f (entries (proc w))) (proc w))).
  change (_save wr (with_proc w p') = (x, w')) in Hc.
  assert (task_keys p' = filter (fun k => k <> key) (task_keys (proc w))) as Et.
  { unfold task_keys, p'. cbn. rewrite list.filter_app, remove_keys. f_equal. symmetry.
    apply filter_all. by intros k Hk ->. }
  destruct (presave_change w p' Hw Hr) as [P C]; [|done| | |by eapply save_wok].
  - apply update_relaxes. intros e' He'. rewrite (ok_entries_keys _ _ _ _ (w_entries _ Hw) He' Hin).
    split; [done|]. split; [by destruct r|]. intros _. cbn. unfold reserved. by rewrite Hl.
  - split; rewrite ?Et; [by apply list.NoDup_filter, w_nodup| |done].
    by intros k [_ ?]%list_elem_of_filter.
  - intros k. rewrite Et. intros [Hne Hk]%list_elem_of_filter.
    destruct (w_tasks _ Hw k Hk) as (e' & He' & Hl'). exists e'. split; [|done]. by apply update_elem_ne.
Qed.

Lemma wok_call w key c e : wok w -> running w = true -> (key, c) ∈ configs (proc w) ->
  (key, e) ∈ entries (proc w) -> key ∉ scheduled (proc w) -> key ∉ (started w).*1 ->
  wok {| journal := journal w; proc := proc w; running := running w; started := started w ++ [(key, c)] |}.
Proof.
  intros Hw Hr Hc Hin Hns Hnew. pose proof Hw as [H1 (es & J1 & J2 & J3 & J4 & J5) H3 H4 H5 H6 H7 H8].
  destruct (H8 key c Hc) as (e' & He' & Hs').
  assert (booked (started w ++ [(key, c)]) (entries (proc w))) as Hb.
  { intros k d [Hk|Hk]%elem_of_app; [by apply H4|]. apply list_elem_of_singleton in Hk as [= -> ->]. by exists e'. }
  split; cbn; auto.
  - exists es. split; [|by eauto using booked_covers].
    destruct J1 as [J1|[J1 ->]]; [by left|]. destruct (J3 key e Hin) as (? & []%elem_of_nil & _).
  - clear J1 J2 J3 J4 J5. specialize (H4 Hr). clear Hb.
    assert (forall x, x ∈ started w -> uses_once x (key, c)) as Hu.
    { intros [k d] Hk. assert (k <> key) as Hne.
      { intros ->. apply Hnew. apply list_elem_of_fmap. by exists (key, d). }
      destruct (H4 k d Hk) as (ek & Hek & Hsk). split; [done|].
      destruct (ok_entries_excl _ _ _ H1 Hek He' Hne) as (_ & _ & Hg). cbn in Hg.
      injection Hsk as _ _ Hg1. injection Hs' as _ _ Hg2. by rewrite Hg1, Hg2 in Hg. }
    clear -H3 Hu. induction H3 as [|a l Hf Ho IH]; cbn; [repeat constructor|].
    constructor.
    + apply List.Forall_app. split; [done|]. constructor; [apply Hu; left|constructor].
    + apply IH. intros x Hx. apply Hu. by right.
  - intros k Hk. rewrite fmap_app. intros [H|H]%elem_of_app; [by apply (H6 k)|].
    apply list_elem_of_singleton in H as ->. done.
Qed.

Lemma task_keys_popped p key : NoDup (task_keys p) -> key ∈ scheduled p ->
  let l := filter (fun k => k <> key) (scheduled p) in
  NoDup (l ++ (workers p).*1) /\ key ∉ (workers p).*1.
Proof.
  unfold task_keys. rewrite !list.NoDup_app. intros (N1 & N2 & N3) Hk. cbn. split; [|by apply N2].
  split; [by apply list.NoDup_filter|]. split; [|done]. intros k [_ Hk']%list_elem_of_filter. by apply N2.
Qed.

Lemma run_begin_wok key c f wr w r w' : run_begin float_repr key c f wr w = (r, w') ->
  wok w -> running w = true -> key ∈ scheduled (proc w) -> (key, c) ∈ configs (proc w) -> wok w'.
Proof.
  intros Hb Hw Hr Hs Hc.
  destruct (w_tasks _ Hw key) as (e & He & Hl); [by apply elem_of_app; left|].
  destruct (task_keys_popped _ key (w_nodup _ Hw) Hs) as [Hn Hnw].
  set (l := filter (fun k => k <> key) (scheduled (proc w))) in *.
  set (p1 := p_scheduled l (proc w)).
  assert (key ∉ l) as Hkl by (by intros [Hne _]%list_elem_of_filter).
  assert (forall k, k ∈ l -> k ∈ scheduled (proc w)) as Hsub by (by intros k [_ ?]%list_elem_of_filter).
  assert (wok (with_proc w p1)) as Hw1.
  { apply wok_change; try done. split; cbn; [done| |done]. unfold task_keys. cbn. set_solver. }
  unfold run_begin in Hb. unfold mbind, st_bind, gets, modify, on_proc, id in Hb. cbn in Hb.
  destruct (assoc key (entries (proc w))) as [e'|] eqn:Ea.
  2:{ exfalso. by apply (assoc_none _ _ e Ea). }
  assert (e' = e) as -> by (eapply ok_entries_keys; [apply Hw|by apply assoc_elem|done]).
  fold l p1 in Hb. case_bool_decide as Est.
  - apply (conclude_wok key FINISHED (Some NOT_RUN) wr (with_proc w p1) r w' e); try done.
  - assert (wok {| journal := journal w; proc := p1; running := running w; started := started w ++ [(key, c)] |}) as Hw2.
    { apply (wok_call (with_proc w p1) key c e); try done. by apply (w_new _ Hw). }
    destruct f as [|[]].
    1,2: by apply (conclude_wok key RECOVERY_REQUIRED None wr
          {| journal := journal w; proc := p1; running := running w; started := started w ++ [(key, c)] |} r w' e).
    injection Hb as <- <-.
    apply (wok_call (with_proc w (p_workers (workers p1 ++ [(key, false)]) p1)) key c e); try done.
    2: by apply (w_new _ Hw).
    apply wok_change; try done. split; cbn; [| |done].
    + unfold task_keys. cbn. rewrite fmap_app. cbn. rewrite app_assoc. apply list.NoDup_app.
      split; [done|]. split; [|by apply NoDup_singleton]. intros k Hk ->%list_elem_of_singleton. set_solver.
    + unfold task_keys. cbn. rewrite fmap_app. cbn. set_solver.
Qed.

Lemma run_end_wok key b result wr w r w' : run_end float_repr key result wr w = (r, w') ->
  wok w -> running w = true -> (key, b) ∈ workers (proc w) -> wok w'.
Proof.
  intros He Hw Hr Hin.
  assert (key ∈ (workers (proc w)).*1) as Hk by (apply list_elem_of_fmap; by exists (key, b)).
  destruct (w_tasks _ Hw key) as (e & Hen & Hl); [by apply elem_of_app; right|].
  assert (key ∉ scheduled (proc w)).
  { pose proof (w_nodup _ Hw) as Hn. unfold task_keys in Hn. apply list.NoDup_app in Hn as (_ & Hn & _). set_solver. }
  unfold run_end in He. destruct result; by eapply conclude_wok.
Qed.

Lemma stop_wok key wr w r w' : stop float_repr key wr w = (r, w') ->
  wok w -> running w = true -> wok w' /\ running w' = true.
Proof.
  unfold Service.stop. intros Hs Hw Hr.
  destruct (negb _); [injection Hs as <- <-; done|]. unfold mbind at 1, st_bind, gets, id in Hs.
  destruct (closed _); [injection Hs as <- <-; done|].
  destruct (assoc key _) as [e|] eqn:Ea; [|injection Hs as <- <-; done].
  destruct (is_live (e_state e)) eqn:El; [|injection Hs as <- <-; done].
  set (p' := p_entries (update key (set_state STOPPING) (entries (proc w))) (proc w)).
  change ((_save wr;; on_proc (fun p => p_workers (update key (fun _ => true) (workers p)) p)) (with_proc w p') = (r, w')) in Hs.
  apply assoc_elem in Ea.
  destruct (presave_change w p' Hw Hr) as [P C]; [|done| | |].
  - apply update_relaxes. intros e' He'. rewrite (ok_entries_keys _ _ _ _ (w_entries _ Hw) He' Ea).
    split; [done|]. split; [done|]. intros _. cbn. unfold reserved. by rewrite El.
  - by apply fewer_refl; [apply w_nodup| |].
  - intros k Hk. destruct (w_tasks _ Hw k Hk) as (e' & He' & Hl').
    destruct (decide (k = key)) as [->|Hne]; [|exists e'; split; [by apply update_elem_ne|done]].
    exists (set_state STOPPING e). split; [by apply update_elem_eq|done].
  - unfold mbind, st_bind in Hs. destruct (_save wr (with_proc w p')) as [[u|x] w1] eqn:E.
    + pose proof (save_results _ _ _ _ E) as (Hr1 & _). cbn in Hr1. pose proof (save_wok _ _ _ _ E P C) as Hw1.
      injection Hs as <- <-. split; [|by rewrite <- Hr1 in Hr].
      apply (wok_change w1); try done. apply fewer_refl; [by apply w_nodup| |done].
      unfold task_keys. cbn. by rewrite update_keys.
    + injection Hs as <- <-. pose proof (save_results _ _ _ _ E) as (Hr1 & _). cbn in Hr1.
      split; [by eapply save_wok|congruence].
Qed.

Lemma stop_each_wok l w r w' : for_each l (stop_quietly float_repr) w = (r, w') ->
  wok w -> running w = true -> r = Ok tt /\ wok w' /\ running w' = true.
Proof.
  revert w. induction l as [|x l IH]; intros w.
  - cbn. by intros [= <- <-].
  - cbn [for_each]. unfold mbind, st_bind. unfold stop_quietly at 1, try_except.
    destruct (Service.stop _ x.1 x.2 w) as [[[]|e] w1] eqn:E; intros H Hw Hr;
      destruct (stop_wok _ _ _ _ _ E Hw Hr) as [Hw1 Hr1]; [by apply (IH w1)|].
    apply (IH (with_proc w1 (p_failed (proc w1)))); try done.
    apply wok_change; try done. by apply fewer_refl; [apply w_nodup| |].
Qed.

Lemma close_wok writes w r w' : close float_repr writes w = (r, w') -> wok w -> running w = true -> wok w'.
Proof.
  unfold Service.close. unfold mbind at 1, st_bind at 1, gets, id.
  destruct (closed _); [by intros [= <- <-]|]. unfold mbind at 1, st_bind at 1.
  destruct (for_each _ _ w) as [r1 w1] eqn:E. intros H Hw Hr.
  destruct (stop_each_wok _ _ _ _ E Hw Hr) as (-> & Hw1 & Hr1). injection H as <- <-.
  apply (wok_change w1 (p_closed (stop_all (proc w1)))); try done. apply fewer_refl; [by apply w_nodup| |done].
  unfold task_keys. cbn. f_equal. rewrite <- list_fmap_compose. by apply list_fmap_ext.
Qed.
(** *** start *)
Definition new_entry (c : PilotConfig) : entry :=
  {| e_state := STARTING; targets := Group.sorted (config_targets c);
     digest := configuration_digest float_repr c; grants := grant_digests c; receipt := [] |}.

Lemma intersects_false a b : intersects a b = false <-> a ## b.
Proof.
  unfold intersects. split.
  - intros H x Ha Hb. apply Bool.not_true_iff_false in H. apply H, existsb_exists. exists x.
    split; [by apply list_elem_of_In|by apply bool_decide_eq_true].
  - intros H. apply Bool.not_true_iff_false. intros (x & Hx & Hb)%existsb_exists.
    apply bool_decide_eq_true in Hb. apply (H x); [by apply list_elem_of_In|done].
Qed.

Lemma no_conflict_excludes p c es key : find_conflict float_repr p c es = None ->
  (forall e, (key, e) ∉ es) -> forall x, x ∈ es -> excludes x (key, new_entry c).
Proof.
  induction es as [|[k e] es IH]; [by intros _ _ x ?%elem_of_nil|]. cbn [find_conflict]. intros Hf Hk.
  destruct (reserved (e_state e) && _) eqn:E1; [done|].
  destruct (bool_decide _ || _) eqn:E2; [done|]. apply orb_false_elim in E2 as [_ E2].
  apply intersects_false in E2.
  assert (find_conflict float_repr p c es = None) as Hf'.
  { destruct (assoc k (configs p)) as [old|]; [|done]. by destruct (_ && owns_resource old c). }
  intros x [->|Hx]%elem_of_cons.
  - split; [cbn [fst]; intros ->; apply (Hk e); left|]. split; cbn [snd new_entry grants targets]; [|by intros y Hg Hg'; apply (E2 y)].
    intros Hr _ y Hy Hy'. rewrite Group.sorted_elem in Hy'. rewrite Hr in E1. cbn [andb] in E1.
    apply intersects_false in E1. by apply (E1 y).
  - apply IH; [done| |done]. intros e' He'. apply (Hk e'). by right.
Qed.

(** The entry joined the process but not the journal, and left again. *)
Lemma start_undone w key c w1 : wok w -> running w = true -> (forall e, (key, e) ∉ entries (proc w)) ->
  ok_entries (entries (proc w) ++ [(key, new_entry c)]) ->
  proc w1 = stopped (p_entries (entries (proc w) ++ [(key, new_entry c)]) (proc w)) ->
  running w1 = running w -> started w1 = started w ->
  (journal w1 = journal w \/ journal w1 = Some (journal_file (sort_by_key (entries (proc w) ++ [(key, new_entry c)])))) ->
  wok (with_proc w1 (p_entries (remove key (entries (proc w1))) (proc w1))).
Proof.
  intros Hw Hr Hk Hok Hp Hr1 Hs1 Hj.
  set (f := fun x : string * entry => (x.1, if is_live (e_state x.2) then set_state STOPPING x.2 else x.2)).
  assert (remove key (entries (proc w1)) = map f (entries (proc w))) as He.
  { rewrite Hp. unfold stopped, stop_live, stop_all. cbn [entries p_failed p_entries p_workers]. rewrite map_app. apply remove_snoc.
    intros x Hx. apply list_elem_of_In, in_map_iff in Hx as ([k e] & <- & Hx). cbn. intros ->.
    apply list_elem_of_In in Hx. by apply (Hk e). }
  rewrite He.
  assert (Forall2 relaxes (entries (proc w)) (map f (entries (proc w)))) as Hrel.
  { apply (stop_live_relaxes (proc w)). }
  assert (task_keys (proc w1) = task_keys (proc w)) as Et by (by rewrite Hp, task_keys_stopped).
  pose proof Hw as [H1 (es & J1 & J2 & J3 & J4 & J5) H3 H4 H5 H6 H7 H8].
  assert (scheduled (proc w1) = scheduled (proc w) /\ configs (proc w1) = configs (proc w)) as [E1 E2] by (by rewrite Hp).
  split; cbn [with_proc proc journal running started entries p_entries configs scheduled]; rewrite ?E1, ?E2, ?Hs1; change (task_keys (p_entries _ (proc w1))) with (task_keys (proc w1)); rewrite ?Et; auto.
  - by apply (ok_entries_relax (entries (proc w))).
  - assert (covers (entries (proc w)) (entries (proc w) ++ [(key, new_entry c)])) as Hcov.
    { intros k e Hin. exists e. split; [by apply elem_of_app; left|done]. }
    destruct Hj as [Hj|Hj].
    + exists es. split; [unfold jrep; cbn; by rewrite Hj|]. repeat split; auto. by apply (relaxes_covers (entries (proc w))).
    + exists (sort_by_key (entries (proc w) ++ [(key, new_entry c)])). split; [left; exact Hj|].
      split; [by apply ok_entries_sort|]. split; [apply covers_sort; by apply (relaxes_covers (entries (proc w)))|].
      split; [apply booked_sort, (booked_covers _ (entries (proc w))); auto|].
      intros k e Hkt Hin. rewrite sort_elem in Hin. destruct (H5 k Hkt) as (e' & He' & Hl').
      rewrite (ok_entries_keys _ k e e' Hok Hin); [done|]. by apply elem_of_app; left.
  - intros _. apply (booked_relaxes _ (entries (proc w))); auto.
  - intros k Hkt. destruct (H5 k Hkt) as (e' & He' & Hl').
    destruct (relaxes_elem _ _ _ Hrel He') as (y & _ & _).
    exists (set_state STOPPING e'). split; [|done]. apply list_elem_of_In, in_map_iff. exists (k, e').
    split; [unfold f; cbn; by rewrite Hl'|]. by apply list_elem_of_In.
  - by apply (booked_relaxes _ (entries (proc w))).
Qed.

(** The entry is journaled before its task exists. *)
Lemma start_done w key c w1 : wok w -> running w = true -> (forall e, (key, e) ∉ entries (proc w)) ->
  ok_entries (entries (proc w) ++ [(key, new_entry c)]) ->
  proc w1 = p_entries (entries (proc w) ++ [(key, new_entry c)]) (proc w) ->
  running w1 = running w -> started w1 = started w ->
  journal w1 = Some (journal_file (sort_by_key (entries (proc w) ++ [(key, new_entry c)]))) ->
  wok (with_proc w1 (p_scheduled (scheduled (proc w1) ++ [key]) (p_configs (configs (proc w1) ++ [(key, c)]) (proc w1)))).
Proof.
  intros Hw Hr Hk Hok Hp Hr1 Hs1 Hj. pose proof Hw as [H1 _ H3 H4 H5 H6 H7 H8].
  set (es := entries (proc w) ++ [(key, new_entry c)]) in *.
  assert (covers (entries (proc w)) es) as Hcov.
  { intros k e Hin. exists e. split; [by apply elem_of_app; left|done]. }
  assert ((key, new_entry c) ∈ es) as Hnew by (apply elem_of_app; right; apply list_elem_of_singleton; done).
  assert (booked (started w) es) as Hb by (apply (booked_covers _ (entries (proc w))); auto).
  assert (key ∉ task_keys (proc w)) as Hkt.
  { intros Hin. destruct (H5 key Hin) as (e & He & _). by apply (Hk e). }
  assert (forall k, k ∈ task_keys (proc w) \/ k = key -> exists e, (k, e) ∈ es /\ is_live (e_state e) = true) as Hl.
  { intros k [Hin| ->]; [|by exists (new_entry c)]. destruct (H5 k Hin) as (e & He & Hle). exists e.
    split; [by apply elem_of_app; left|done]. }
  set (p' := p_scheduled _ _).
  assert (forall k, k ∈ task_keys p' -> k ∈ task_keys (proc w) \/ k = key) as Ht.
  { intros k. unfold task_keys, p'. cbn. rewrite Hp. cbn. rewrite !elem_of_app, list_elem_of_singleton. tauto. }
  split; cbn [with_proc proc journal running started]; rewrite ?Hs1; auto.
  - subst p'. cbn. by rewrite Hp.
  - exists (sort_by_key es). split; [left; exact Hj|]. split; [by apply ok_entries_sort|].
    split; [apply covers_sort; subst p'; cbn; rewrite Hp; apply covers_refl|].
    split; [by apply booked_sort|]. intros k e Hin1 Hin2. rewrite sort_elem in Hin2. revert Hin1 Hin2. apply live_tasks; auto.
  - subst p'. cbn. by rewrite Hp.
  - intros k Hin. subst p'. cbn. rewrite Hp. cbn. apply Hl, Ht, Hin.
  - intros k Hin Hst. apply list_elem_of_fmap in Hst as ([k1 d] & -> & Hd). cbn in *.
    subst p'. cbn in Hin. rewrite Hp in Hin. cbn in Hin. apply elem_of_app in Hin as [Hin|Hin].
    + apply (H6 k1 Hin). apply list_elem_of_fmap. by exists (k1, d).
    + apply list_elem_of_singleton in Hin as ->. destruct (H4 Hr key d Hd) as (e & He & _). by apply (Hk e).
  - subst p'. unfold task_keys in *. cbn. rewrite Hp. cbn. rewrite not_elem_of_app in Hkt. destruct Hkt as [Hk1 Hk2].
    apply list.NoDup_app in H7 as (N1 & N2 & N3). rewrite <- app_assoc. apply list.NoDup_app. split; [done|].
    split; [|by apply list.NoDup_cons]. intros k Hks [->|Hkw]%elem_of_cons; [done|]. by apply (N2 k).
  - subst p'. cbn. rewrite Hp. cbn. intros k d [Hin|Hin]%elem_of_app.
    + destruct (H8 k d Hin) as (e & He & Hse). exists e. split; [by apply elem_of_app; left|done].
    + apply list_elem_of_singleton in Hin as [= -> ->]. by exists (new_entry c).
Qed.

Lemma start_wok capacity key c valid checked wr w r w' :
  start float_repr capacity key c valid checked wr w = (r, w') -> wok w -> running w = true -> wok w'.
Proof.
  unfold start. intros Hs Hw Hr.
  destruct (negb _); [injection Hs as <- <-; done|]. unfold mbind at 1, st_bind, gets, id in Hs.
  destruct (closed _ || _); [injection Hs as <- <-; done|]. destruct (negb valid); [injection Hs as <- <-; done|].
  destruct (assoc key _) as [e|] eqn:Ea; [by destruct (bool_decide _); injection Hs as <- <-|].
  destruct (find_conflict _ _ _ _) as [x|] eqn:Ef; [injection Hs as <- <-; done|].
  destruct (_ <=? _)%nat; [injection Hs as <- <-; done|]. destruct (negb checked); [injection Hs as <- <-; done|].
  assert (forall e, (key, e) ∉ entries (proc w)) as Hk by (intros e; by apply assoc_none).
  assert (ok_entries (entries (proc w) ++ [(key, new_entry c)])) as Hok.
  { apply ok_entries_snoc; [apply Hw|]. by apply (no_conflict_excludes (proc w)). }
  set (p' := p_entries (entries (proc w) ++ [(key, new_entry c)]) (proc w)).
  unfold mbind, st_bind, on_proc, modify, try_except in Hs.
  change (match match _save wr (with_proc w p') with
      | (Ok a, s') => (Ok a, s')
      | (Err e, s') => (Err e, with_proc s' (p_entries (remove key (entries (proc s'))) (proc s')))
      end with
      | (Ok _, s') => (Ok tt, with_proc s' (p_scheduled (scheduled (proc s') ++ [key])
                                (p_configs (configs (proc s') ++ [(key, c)]) (proc s'))))
      | (Err e, s') => (Err e, s')
      end = (r, w')) in Hs.
  destruct (_save wr (with_proc w p')) as [[u|x] w1] eqn:E;
    pose proof (save_results _ _ _ _ E) as (R1 & S1 & P1 & J1); injection Hs as <- <-; cbn in R1, S1.
  - by apply (start_done w key c w1).
  - by apply (start_undone w key c w1).
Qed.

(** *** Crash and restart *)
Lemma wok_down w : wok w -> wok {| journal := journal w; proc := proc w; running := false; started := started w |}.
Proof. intros [H1 H2 H3 H4 H5 H6 H7 H8]. by split. Qed.

Lemma wok_dead w : wok w -> wok (dead w).
Proof.
  intros [H1 (es & J1 & J2 & J3 & J4 & J5) H3 H4 H5 H6 H7 H8].
  split; cbn; try done; try constructor; try (by intros ? ?%elem_of_nil); try (by intros ? ? ?%elem_of_nil).
  exists es. split; [done|]. split; [done|]. split; [by intros ? ? ?%elem_of_nil|]. split; [done|].
  by intros ? ? ?%elem_of_nil.
Qed.

Lemma loaded_presave w es' : wok w -> (forall es, jrep w es -> Forall2 loaded es es') -> journal w <> None ->
  let w1 := {| journal := journal w; proc := p_entries es' empty_process; running := true; started := started w |} in
  presave w1 /\ forall es, jrep w1 es -> covers es' es.
Proof.
  intros [H1 (es & J1 & J2 & J3 & J4 & J5) H3 H4 H5 H6 H7 H8] Hl Hne w1.
  assert (Forall2 relaxes es es') as Hrel.
  { eapply list.Forall2_impl; [by apply Hl|]. apply loaded_relaxes. }
  split.
  - split; cbn; try done; try constructor; try (by intros ? ?%elem_of_nil); try (by intros ? ? ?%elem_of_nil).
    + by apply (ok_entries_relax es).
    + exists es. repeat split; auto. by intros ? ? ?%elem_of_nil.
    + by apply (booked_relaxes _ es).
  - intros es1 J. assert (Forall2 loaded es1 es') as Hl1 by (apply Hl, J).
    apply (relaxes_covers es1); [|apply covers_refl]. eapply list.Forall2_impl; [done|]. apply loaded_relaxes.
Qed.

(** The cases of [boot]. *)
Lemma boot_cases capacity wr w : wok w ->
  let w1 := boot float_repr capacity wr w in
  task_keys (proc w1) = [] /\
  (running w1 = false \/
   (journal w = None /\ w1 = {| journal := None; proc := empty_process; running := true; started := started w |}) \/
   exists es', (forall es, jrep w es -> Forall2 loaded es es') /\ entries (proc w1) = es').
Proof.
  intros Hw. cbn zeta. unfold boot, _load, mbind, st_bind, gets, id. cbn [journal proc].
  destruct (journal w) as [v|] eqn:Ej; [|split; [done|right; left; done]].
  destruct (negb _); [split; [done|by left]|].
  destruct (load_entries capacity v) as [es'|] eqn:El; [|split; [done|by left]].
  unfold on_proc, modify. cbn [journal proc running started].
  destruct (_save wr _) as [[u|e] w2] eqn:E; apply save_results in E as (R & S & P); cbn in P; destruct P as [P _].
  - split; [cbn; by rewrite P|]. right. right. exists es'. split; [|cbn; by rewrite P].
    intros es [J|[J _]]; rewrite Ej in J; [|done]. injection J as ->. by eapply load_entries_json.
  - split; [cbn; rewrite P; apply task_keys_stopped|by left].
Qed.

Lemma boot_wok capacity wr w : wok w -> wok (boot float_repr capacity wr w).
Proof.
  intros Hw. unfold boot, _load, mbind, st_bind, gets, id. cbn [journal proc].
  assert (wok {| journal := journal w; proc := empty_process; running := false; started := started w |}) as Hd
    by (apply (wok_dead w Hw)).
  destruct (journal w) as [v|] eqn:Ej.
  - destruct (negb _); [done|].
    destruct (load_entries capacity v) as [es'|] eqn:El; [|done].
    destruct (loaded_presave w es' Hw) as [P C].
    { intros es [J|[J _]]; rewrite Ej in J; [|done]. injection J as ->. by eapply load_entries_json. }
    { by rewrite Ej. }
    rewrite Ej in P, C. unfold on_proc, modify. cbn [journal proc running started].
    destruct (_save wr _) as [[u|e] w2] eqn:E; pose proof (save_wok _ _ _ _ E P C) as Hw2;
      apply save_results in E as (R & _ & _); cbn in R; cbn; [|by apply wok_down].
    destruct w2. cbn in *. by subst.
  - pose proof Hd as [H1 (es & J1 & J2 & J3 & J4 & J5) H3 H4 H5 H6 H7 H8]. cbn in *.
    split; cbn; auto.
    + by exists es.
    + intros _ k c Hin. destruct J1 as [J1|[_ ->]]; [done|]. destruct (J4 k c Hin) as (e & []%elem_of_nil & _).
Qed.

Lemma fresh_wok : wok fresh_world.
Proof.
  split; cbn; try done; try constructor; try (by intros ? ?%elem_of_nil); try (by intros ? ? ?%elem_of_nil).
  exists []. split; [by right|]. split; [constructor|]. split; [by intros ? ? ?%elem_of_nil|].
  split; by intros ? ? ?%elem_of_nil.
Qed.

Lemma step_wok capacity w w' : service_step float_repr capacity w w' -> wok w -> wok w'.
Proof.
  intros Hs Hw. destruct Hs.
  - destruct (start _ _ _ _ _ _ _ w) as [r w'] eqn:E. by eapply start_wok.
  - destruct (run_begin _ _ _ _ _ w) as [r w'] eqn:E. by eapply run_begin_wok.
  - destruct (run_end _ _ _ _ w) as [r w'] eqn:E. by eapply run_end_wok.
  - destruct (Service.stop _ _ _ w) as [r w'] eqn:E. by eapply stop_wok.
  - destruct (Service.close _ _ w) as [r w'] eqn:E. by eapply close_wok.
  - by apply wok_dead.
  - by apply boot_wok.
Qed.

Lemma reach_wok capacity w : rtc (service_step float_repr capacity) fresh_world w -> wok w.
Proof.
  intros H. apply (rtc_ind_r wok fresh_world fresh_wok) in H; [done|]. intros. by eapply step_wok.
Qed.

(** A configuration of a task is the one its entry reserves. *)
Lemma task_reservation w k c : wok w -> k ∈ task_keys (proc w) -> (k, c) ∈ configs (proc w) ->
  exists e, (k, e) ∈ entries (proc w) /\ is_live (e_state e) = true /\ static e = reservation c.
Proof.
  intros Hw Hk Hc. destruct (w_tasks _ Hw k Hk) as (e & He & Hl). destruct (w_configs _ Hw k c Hc) as (e' & He' & Hs).
  rewrite (ok_entries_keys _ k e' e (w_entries _ Hw) He' He) in Hs. by exists e.
Qed.

(** C3. In every reachable world, whatever the saves, crashes and restarts did: two
    entries that reserve devices (live or in need of recovery) have disjoint device
    sets, no session has two tasks, and two sessions with tasks have disjoint devices. *)
Theorem devices_reserved_once capacity w :
  rtc (service_step float_repr capacity) fresh_world w ->
  (forall k1 e1 k2 e2, (k1, e1) ∈ entries (proc w) -> (k2, e2) ∈ entries (proc w) -> k1 <> k2 ->
     reserved (e_state e1) = true -> reserved (e_state e2) = true -> targets e1 ## targets e2) /\
  NoDup (task_keys (proc w)) /\
  (forall k1 c1 k2 c2, k1 ∈ task_keys (proc w) -> k2 ∈ task_keys (proc w) -> k1 <> k2 ->
     (k1, c1) ∈ configs (proc w) -> (k2, c2) ∈ configs (proc w) ->
     config_targets c1 ## config_targets c2).
Proof.
  intros Hw%reach_wok. assert (forall k1 e1 k2 e2, (k1, e1) ∈ entries (proc w) -> (k2, e2) ∈ entries (proc w) -> k1 <> k2 ->
     reserved (e_state e1) = true -> reserved (e_state e2) = true -> targets e1 ## targets e2) as H.
  { intros k1 e1 k2 e2 H1 H2 Hne. by apply (ok_entries_excl _ _ _ (w_entries _ Hw) H1 H2 Hne). }
  split; [exact H|]. split; [apply Hw|]. intros k1 c1 k2 c2 T1 T2 Hne C1 C2.
  destruct (task_reservation _ _ _ Hw T1 C1) as (e1 & E1 & L1 & S1).
  destruct (task_reservation _ _ _ Hw T2 C2) as (e2 & E2 & L2 & S2).
  injection S1 as S1 _ _. injection S2 as S2 _ _. intros d D1 D2.
  apply (H k1 e1 k2 e2 E1 E2 Hne) with d; [by unfold reserved; rewrite L1|by unfold reserved; rewrite L2| |].
  - by rewrite S1, Group.sorted_elem.
  - by rewrite S2, Group.sorted_elem.
Qed.

(** C4. Over the whole life of the directory, crashes included, the factory is called
    at most once per session, and no two calls share a relay grant or a controller
    grant. *)
Theorem grants_used_once capacity w :
  rtc (service_step float_repr capacity) fresh_world w ->
  NoDup (started w).*1 /\ ForallOrdPairs uses_once (started w).
Proof.
  intros Hw%reach_wok. pose proof (w_started _ Hw) as H. split; [|done].
  induction H as [|[k c] l Hf Ho IH]; cbn; [constructor|]. apply list.NoDup_cons. split; [|done].
  intros ([k' c'] & -> & Hin)%list_elem_of_fmap. rewrite List.Forall_forall in Hf.
  by apply list_elem_of_In, Hf in Hin as [Hne _].
Qed.

(** C9. A session whose task was scheduled or running when the process died is in the
    journal: if the service starts again, it holds that session as RECOVERY_REQUIRED,
    with the devices it had, and runs no task; and every session that was ever given
    to the factory is still booked with its devices, digest and grants. *)
Theorem crash_is_recovered capacity wr w :
  rtc (service_step float_repr capacity) fresh_world w ->
  let w1 := boot float_repr capacity wr (dead w) in
  running w1 = true ->
  task_keys (proc w1) = [] /\
  (forall k, k ∈ task_keys (proc w) -> exists e e1, (k, e) ∈ entries (proc w) /\
     (k, e1) ∈ entries (proc w1) /\ static e1 = static e /\ e_state e1 = RECOVERY_REQUIRED) /\
  booked (started w) (entries (proc w1)).
Proof.
  intros Hw%reach_wok w1 Hr. pose proof (wok_dead w Hw) as Hd.
  destruct (boot_cases capacity wr (dead w) Hd) as [Ht Hc]. fold w1 in Ht, Hc. split; [done|].
  pose proof (boot_wok capacity wr (dead w) Hd) as Hw1. fold w1 in Hw1.
  assert (started w1 = started w) as Hs.
  { unfold w1, boot, _load, mbind, st_bind, gets, id. cbn. destruct (journal w); [|done].
    destruct (negb _); [done|]. destruct (load_entries _ _); [|done]. unfold on_proc, modify. cbn.
    destruct (_save wr _) as [r w2] eqn:E. by apply save_results in E as (_ & S & _). }
  split; [|rewrite <- Hs; by apply Hw1].
  intros k Hk. destruct (w_tasks _ Hw k Hk) as (e & He & Hl). destruct (w_journal _ Hw) as (es & J1 & J2 & J3 & J4 & J5).
  destruct (J3 k e He) as (ej & Hej & Hsj). pose proof (J5 k ej Hk Hej) as Hlj.
  destruct Hc as [Hc|[[Hc _]|(es' & Hl' & He')]].
  - by rewrite Hc in Hr.
  - destruct J1 as [J1|[_ ->]]; [cbn in Hc; congruence|by apply elem_of_nil in Hej].
  - specialize (Hl' es J1). assert (exists y, y ∈ es' /\ loaded (k, ej) y) as ([k1 e1] & Hy & L1 & L2 & L3).
    { clear -Hl' Hej. induction Hl' as [|a b l l' Hab Hl IH]; [by apply elem_of_nil in Hej|].
      apply elem_of_cons in Hej as [<-|Hej]; [exists b; split; [left|done]|].
      destruct (IH Hej) as (y & Hy & Hr). exists y. split; [by right|done]. }
    cbn in *. subst k1. rewrite Hlj in L3. exists e, e1. rewrite He'. repeat split; auto. congruence.
Qed.
End Saving.

(** ** Concrete sessions *)
Definition no_floats : Z -> list Z := fun _ => [].
Definition demo_device (i : string) : PilotDevice :=
  {| device_id := i; ip_address := "192.168.1.20"; fingerprint := ["a"]; receiver_socket := "/run/" ++ i |}.
Definition demo_config (n i : string) (port : Z) : PilotConfig :=
  {| data_dir := "/d"; database_path := "/d/db"; devices := [demo_device i]; c_master := i;
     receiver_binary_sha256 := n; controller_nonce := n; relay_url := "http://192.168.1.2/" ++ n;
     base_url := "http://192.168.1.2"; listen_host := "192.168.1.2"; listen_port := port;
     lifetime_seconds := PInt 60; wait_seconds := PInt 10; test_volume := 5; ipc_peer_uid := 1000;
     status_path := "/s/" ++ n; receipt_path := "/r/" ++ n; stop_path := "/t/" ++ n;
     radio_volume_forwarding := false |}.
Definition demo_key1 : string := "0123456789abcdef0123456789abcdef".
Definition demo_key2 : string := "fedcba9876543210fedcba9876543210".
Definition demo_a : PilotConfig := demo_config "a" "radio-a" 7001.
Definition demo_b : PilotConfig := demo_config "b" "radio-b" 7002.

(** Two sessions started, the first given to the factory. *)
Definition demo_boot : world := boot no_floats 128 Written fresh_world.
Definition demo_one : world := (start no_floats 128 demo_key1 demo_a true true Written demo_boot).2.
Definition demo_two : world := (start no_floats 128 demo_key2 demo_b true true Written demo_one).2.
Definition demo_world : world := (run_begin no_floats demo_key1 demo_a (Made false) Written demo_two).2.

Lemma start_running capacity key c valid checked wr w :
  running w = true -> running (start no_floats capacity key c valid checked wr w).2 = true.
Proof.
  intros Hr. unfold start. destruct (negb _); [done|]. unfold mbind, st_bind, gets, id.
  destruct (closed _ || _); [done|]. destruct (negb valid); [done|].
  destruct (assoc key _); [by destruct (bool_decide _)|]. destruct (find_conflict _ _ _ _); [done|].
  destruct (_ <=? _)%nat; [done|]. destruct (negb checked); [done|]. unfold try_except, on_proc, modify. cbn zeta.
  destruct (_save _ _ _) as [[u|e] w1] eqn:E; apply save_results in E as (R & _); cbn in R |- *; congruence.
Qed.

(** The values the steps below need, computed once. *)
Lemma demo_values :
  scheduled (proc demo_two) = [demo_key1; demo_key2] /\
  configs (proc demo_two) = [(demo_key1, demo_a); (demo_key2, demo_b)] /\
  started demo_world = [(demo_key1, demo_a)] /\
  task_keys (proc demo_world) = [demo_key2; demo_key1] /\
  running (boot no_floats 128 Written (dead demo_world)) = true.
Proof. vm_compute. repeat split. Qed.

Lemma then_step w w' : rtc (service_step no_floats 128) fresh_world w ->
  service_step no_floats 128 w w' -> rtc (service_step no_floats 128) fresh_world w'.
Proof. apply rtc_r. Qed.

Lemma demo_running : running demo_two = true.
Proof. apply start_running, start_running. reflexivity. Qed.

Lemma demo_reached : rtc (service_step no_floats 128) fresh_world demo_world.
Proof.
  pose proof demo_values as (Es & Ec & _ & _ & _).
  apply (then_step demo_two).
  - apply (then_step demo_one).
    + apply (then_step demo_boot).
      * apply (then_step fresh_world); [apply rtc_refl|]. exact (v_boot no_floats 128 fresh_world Written eq_refl).
      * apply (v_start no_floats 128 demo_boot demo_key1 demo_a true true Written). reflexivity.
    + apply (v_start no_floats 128 demo_one demo_key2 demo_b true true Written). apply start_running. reflexivity.
  - apply (v_begin no_floats 128 demo_two demo_key1 demo_a (Made false) Written).
    + apply demo_running.
    + rewrite Es. left.
    + rewrite Ec. left.
Qed.

Lemma devices_reserved_once_witness :
  rtc (service_step no_floats 128) fresh_world demo_world /\
  NoDup (task_keys (proc demo_world)).
Proof.
  split; [exact demo_reached|].
  exact (proj1 (proj2 (devices_reserved_once no_floats 128 demo_world demo_reached))).
Defined.

Lemma grants_used_once_witness :
  started demo_world = [(demo_key1, demo_a)] /\ NoDup (started demo_world).*1.
Proof.
  pose proof demo_values as (_ & _ & Es & _ & _). split; [exact Es|].
  exact (proj1 (grants_used_once no_floats 128 demo_world demo_reached)).
Defined.

Lemma crash_is_recovered_witness :
  task_keys (proc demo_world) = [demo_key2; demo_key1] /\
  running (boot no_floats 128 Written (dead demo_world)) = true /\
  booked no_floats (started demo_world) (entries (proc (boot no_floats 128 Written (dead demo_world)))).
Proof.
  pose proof demo_values as (_ & _ & _ & Et & Hr). split; [exact Et|]. split; [exact Hr|].
  exact (proj2 (proj2 (crash_is_recovered no_floats 128 Written demo_world demo_reached Hr))).
Defined.

(** A journal of exactly 16384 characters is saved; with its newline it is refused by
    the next start. *)
Definition long_entry (n last : nat) : entry :=
  let pad k := string_of (repeat 120%Z k) in
  {| e_state := FINISHED;
     targets := map (fun i => String (ascii_of_nat (97 + i)) (pad (n - 1)%nat)) (seq 0 15) ++ [pad last];
     digest := string_of (repeat 97%Z 64); grants := [string_of (repeat 98%Z 64); string_of (repeat 99%Z 64)];
     receipt := [] |}.
Definition long_journal : list (string * entry) :=
  map (fun i : nat => (string_of (repeat (48 + Z.of_nat i) 32), long_entry 105 (if (i =? 0)%nat then 5 else 105))) (seq 0 8).

Example saved_but_unreadable :
  let w := {| journal := None; proc := p_entries long_journal empty_process; running := true; started := [] |} in
  let '(r, w1) := _save no_floats Written w in
  dumps_length no_floats (journal_json long_journal) = 16384 /\ r = Ok tt /\
  (_load no_floats 128 Written (dead w1)).1 = Err (ServiceError "AIRPLAY_GROUP_OBSERVATION_UNVERIFIED").
Proof. vm_compute. auto. Qed.

End Service.
