(* ===== verification/Relay.v ===== *)
(** * AirPlay bridge: the PCM relay and the startup window
    (app/services/airplay_bridge/audio.py, startup.py)

    [PCMRelay] is the bounded buffer between the receiver and the encoder, called by
    one owner; [StartupReadbackGate] decides once, from the observations of a radio
    that was told to play, whether its audio may be released.  Samples are bytes as
    numbers; the arguments of the constructors are any Python numbers. *)
From Stdlib Require Import Ascii String Sorted.
From S2P Require Import Prelude PyNum PyStr Liveness.
#[local] Open Scope string_scope.
#[local] Open Scope list_scope.
#[local] Open Scope Z_scope.

Module Relay.

(** ** PCMFormat *)
Record PCMFormat := { sample_rate : Z; sample_bytes : Z; channels : Z }.

Definition make_format (rate bytes chans : Z) : res Liveness.exn PCMFormat :=
  if negb (bool_decide (rate ∈ [44100; 48000]) && bool_decide (bytes ∈ [2; 4]) && (chans =? 2))
  then Err Liveness.ValueError
  else Ok {| sample_rate := rate; sample_bytes := bytes; channels := chans |}.

Definition default_format : PCMFormat := {| sample_rate := 48000; sample_bytes := 4; channels := 2 |}.

Definition frame_bytes (f : PCMFormat) : Z := sample_rate f / 50 * sample_bytes f * channels f.
Definition ffmpeg_format (f : PCMFormat) : string := if sample_bytes f =? 2 then "s16le" else "s32le".

Definition sample_rate_text (f : PCMFormat) : string := if sample_rate f =? 44100 then "44100" else "48000".

Definition mp3_encoder_command (f : PCMFormat) : list string :=
  ["ffmpeg"; "-hide_banner"; "-loglevel"; "error"; "-nostdin";
   "-probesize"; "32"; "-analyzeduration"; "0";
   "-f"; ffmpeg_format f; "-ar"; sample_rate_text f; "-ac"; "2";
   "-i"; "pipe:0"; "-map_metadata"; "-1"; "-codec:a"; "libmp3lame";
   "-b:a"; "192k"; "-write_xing"; "0"; "-id3v2_version"; "0";
   "-flush_packets"; "1"; "-f"; "mp3"; "pipe:1"].

(** ** PCMRelay *)
Inductive RelayState : Type := IDLE | ACTIVE | PAUSED | EXPIRED | FAILED.

#[export] Instance RelayState_eq_dec : EqDecision RelayState.
Proof. solve_decision. Defined.

Record relay := {
  pcm : PCMFormat;
  state : RelayState;
  generation : Z;
  _limit : Z;
  _silence_limit : Z;
  _silence_frames : Z;
  _pause_limit : option Z;
  _pause_frames : Z;
  _buffer : list Z;
  silence_frames : Z;
  audio_frames : Z }.

Definition len (b : list Z) : Z := Z.of_nat (length b).

(** [type(n) is not int or not 20 <= n <= most or n % 20]. *)
Definition bad_ms (n : pynum) (most : Z) : bool :=
  match n with
  | PInt n => negb ((20 <=? n) && (n <=? most)) || negb (n mod 20 =? 0)
  | PFloat _ => true
  end.
Definition ms (n : pynum) : Z := match n with PInt n => n | PFloat _ => 0 end.

Definition make_relay (f : PCMFormat) (max_buffer_ms max_silence_ms : pynum) (max_pause_ms : option pynum)
    : res Liveness.exn relay :=
  if bad_ms max_buffer_ms 2000 then Err Liveness.ValueError
  else if bad_ms max_silence_ms 30000 then Err Liveness.ValueError
  else if match max_pause_ms with Some p => bad_ms p 900000 | None => false end then Err Liveness.ValueError
  else Ok {| pcm := f; state := IDLE; generation := 0;
             _limit := frame_bytes f * (ms max_buffer_ms / 20);
             _silence_limit := ms max_silence_ms / 20; _silence_frames := 0;
             _pause_limit := (fun p => ms p / 20) <$> max_pause_ms; _pause_frames := 0;
             _buffer := []; silence_frames := 0; audio_frames := 0 |}.

Definition buffered_bytes (r : relay) : Z := len (_buffer r).
Definition available_bytes (r : relay) : Z := _limit r - len (_buffer r).

Definition begin (r : relay) : Z * relay :=
  (generation r + 1,
   {| pcm := pcm r; state := ACTIVE; generation := generation r + 1; _limit := _limit r;
      _silence_limit := _silence_limit r; _silence_frames := 0; _pause_limit := _pause_limit r;
      _pause_frames := 0; _buffer := []; silence_frames := 0; audio_frames := 0 |}).

Definition set_state (st : RelayState) (buffer : list Z) (r : relay) : relay :=
  {| pcm := pcm r; state := st; generation := generation r; _limit := _limit r;
     _silence_limit := _silence_limit r; _silence_frames := _silence_frames r;
     _pause_limit := _pause_limit r; _pause_frames := _pause_frames r; _buffer := buffer;
     silence_frames := silence_frames r; audio_frames := audio_frames r |}.

Inductive fed : Type := Taken (accepted : bool) | BufferError.

Definition feed (g : Z) (bytes : list Z) (r : relay) : fed * relay :=
  if negb (g =? generation r) || negb (bool_decide (state r = ACTIVE)) then (Taken false, r)
  else if _limit r <? len (_buffer r) + len bytes then (BufferError, set_state FAILED [] r)
  else (Taken true, set_state ACTIVE (_buffer r ++ bytes) r).

Definition pause (g : Z) (r : relay) : bool * relay :=
  if negb (g =? generation r) || negb (bool_decide (state r = ACTIVE)) then (false, r)
  else (true, set_state PAUSED [] r).

Definition resume (g : Z) (r : relay) : bool * relay :=
  if negb (g =? generation r) || negb (bool_decide (state r = PAUSED)) then (false, r)
  else (true, set_state ACTIVE (_buffer r) r).

Definition end_ (g : Z) (r : relay) : bool * relay :=
  if negb (g =? generation r) then (false, r) else (true, set_state IDLE [] r).

Definition zeros (n : Z) : list Z := repeat 0 (Z.to_nat n).

Definition audio_frame (r : relay) : list Z * relay :=
  let size := Z.to_nat (frame_bytes (pcm r)) in
  (firstn size (_buffer r),
   {| pcm := pcm r; state := state r; generation := generation r; _limit := _limit r;
      _silence_limit := _silence_limit r; _silence_frames := 0; _pause_limit := _pause_limit r;
      _pause_frames := 0; _buffer := skipn size (_buffer r); silence_frames := silence_frames r;
      audio_frames := audio_frames r + 1 |}).

Definition silence_frame (paused : bool) (r : relay) : list Z * relay :=
  (zeros (frame_bytes (pcm r)),
   {| pcm := pcm r; state := state r; generation := generation r; _limit := _limit r;
      _silence_limit := _silence_limit r;
      _silence_frames := if paused then _silence_frames r else _silence_frames r + 1;
      _pause_limit := _pause_limit r;
      _pause_frames := if paused then _pause_frames r + 1 else _pause_frames r;
      _buffer := _buffer r; silence_frames := silence_frames r + 1; audio_frames := audio_frames r |}).

Definition frame (r : relay) : option (list Z) * relay :=
  if negb (bool_decide (state r ∈ [ACTIVE; PAUSED])) then (None, r)
  else if bool_decide (state r = ACTIVE) && (frame_bytes (pcm r) <=? len (_buffer r))
  then let '(data, r') := audio_frame r in (Some data, r')
  else
    let paused := bool_decide (state r = PAUSED) && is_some (_pause_limit r) in
    let expired := match _pause_limit r with
                   | Some limit => if paused then limit <=? _pause_frames r else _silence_limit r <=? _silence_frames r
                   | None => _silence_limit r <=? _silence_frames r
                   end in
    if expired then (None, set_state EXPIRED [] r)
    else let '(data, r') := silence_frame paused r in (Some data, r').

(** The calls of the owner and their answers. *)
Inductive call : Type :=
| CBegin | CFeed (g : Z) (bytes : list Z) | CPause (g : Z) | CResume (g : Z) | CEnd (g : Z) | CFrame.
Inductive answer : Type := AGeneration (g : Z) | AFed (f : fed) | ABool (b : bool) | AFrame (f : option (list Z)).

Definition relay_call (c : call) (r : relay) : answer * relay :=
  match c with
  | CBegin => let '(g, r') := begin r in (AGeneration g, r')
  | CFeed g b => let '(f, r') := feed g b r in (AFed f, r')
  | CPause g => let '(b, r') := pause g r in (ABool b, r')
  | CResume g => let '(b, r') := resume g r in (ABool b, r')
  | CEnd g => let '(b, r') := end_ g r in (ABool b, r')
  | CFrame => let '(f, r') := frame r in (AFrame f, r')
  end.

Fixpoint relay_run (cs : list call) (r : relay) : list (call * answer) * relay :=
  match cs with
  | [] => ([], r)
  | c :: cs => let '(a, r1) := relay_call c r in let '(l, r2) := relay_run cs r1 in ((c, a) :: l, r2)
  end.

(** *** Specification: a stream of received samples and a reading position

    A session is closed or open; an open session has the samples received since it
    was last emptied and how many of them have been played.  An audio frame is the
    next stretch of that stream. *)
Inductive session : Type := Closed | Open (paused : bool) (received : list Z) (played : nat).

Inductive spec_step (size limit : nat) : Z * session -> call * answer -> Z * session -> Prop :=
| sp_begin g s : spec_step size limit (g, s) (CBegin, AGeneration (g + 1)) (g + 1, Open false [] 0)
| sp_feed g l n b : (length l - n + length b <= limit)%nat ->
    spec_step size limit (g, Open false l n) (CFeed g b, AFed (Taken true)) (g, Open false (l ++ b) n)
| sp_overflow g l n b : (limit < length l - n + length b)%nat ->
    spec_step size limit (g, Open false l n) (CFeed g b, AFed BufferError) (g, Closed)
| sp_feed_refused g s g' b : (g' <> g \/ forall l n, s <> Open false l n) ->
    spec_step size limit (g, s) (CFeed g' b, AFed (Taken false)) (g, s)
| sp_pause g l n : spec_step size limit (g, Open false l n) (CPause g, ABool true) (g, Open true [] 0)
| sp_resume g l n : spec_step size limit (g, Open true l n) (CResume g, ABool true) (g, Open false l n)
| sp_pause_refused g s g' : (g' <> g \/ forall l n, s <> Open false l n) ->
    spec_step size limit (g, s) (CPause g', ABool false) (g, s)
| sp_resume_refused g s g' : (g' <> g \/ forall l n, s <> Open true l n) ->
    spec_step size limit (g, s) (CResume g', ABool false) (g, s)
| sp_end g s : spec_step size limit (g, s) (CEnd g, ABool true) (g, Closed)
| sp_end_refused g s g' : g' <> g -> spec_step size limit (g, s) (CEnd g', ABool false) (g, s)
| sp_audio g l n : (n + size <= length l)%nat ->
    spec_step size limit (g, Open false l n) (CFrame, AFrame (Some (firstn size (skipn n l))))
      (g, Open false l (n + size)%nat)
| sp_silence g p l n : (p = true \/ length l < n + size)%nat ->
    spec_step size limit (g, Open p l n) (CFrame, AFrame (Some (repeat 0 size))) (g, Open p l n)
| sp_expired g p l n : (p = true \/ length l < n + size)%nat ->
    spec_step size limit (g, Open p l n) (CFrame, AFrame None) (g, Closed)
| sp_ended g : spec_step size limit (g, Closed) (CFrame, AFrame None) (g, Closed).

Inductive spec_run (size limit : nat) : Z * session -> list (call * answer) -> Z * session -> Prop :=
| sr_nil s : spec_run size limit s [] s
| sr_cons s e s1 l s2 : spec_step size limit s e s1 -> spec_run size limit s1 l s2 -> spec_run size limit s (e :: l) s2.

(** ** StartupReadbackGate *)
Inductive StartupDecision : Type := WAIT | READY | ABORT.

#[export] Instance StartupDecision_eq_dec : EqDecision StartupDecision.
Proof. solve_decision. Defined.

Record StartupObservation := {
  identity_verified : bool;
  owned_source : bool;
  zone_clear : bool;
  volume : option Z;
  play_status : string;
  relay_state : string;
  relay_failure : option string;
  sent_bytes : Z }.

Record gate := {
  deadline : pynum;
  maximum_volume : Z;
  last_time : pynum;
  decision : StartupDecision;
  reason : string }.

Definition StartupReadbackGate (started timeout maximum : pynum) : res Liveness.exn gate :=
  bad ← Liveness.ror (Liveness.ror (Liveness.bad_number started) (Liveness.bad_number timeout))
          (Ok (negb (num_lt (PInt 0) timeout && num_le timeout (PInt 30))));
  if (bad : bool) then Err Liveness.ValueError
  else match maximum with
  | PInt m => if (1 <=? m) && (m <=? 100)
              then Ok {| deadline := num_add started timeout; maximum_volume := m; last_time := started;
                         decision := WAIT; reason := "BUFFERING_NOT_YET_CONFIRMED" |}
              else Err Liveness.ValueError
  | PFloat _ => Err Liveness.ValueError
  end.

Definition gate_set (d : StartupDecision) (why : string) (g : gate) : gate :=
  {| deadline := deadline g; maximum_volume := maximum_volume g; last_time := last_time g;
     decision := d; reason := why |}.
Definition gate_at (now : pynum) (g : gate) : gate :=
  {| deadline := deadline g; maximum_volume := maximum_volume g; last_time := now;
     decision := decision g; reason := reason g |}.

Definition _abort (why : string) (g : gate) : StartupDecision * gate := (ABORT, gate_set ABORT why g).

(** The checks of one observation after the clock. *)
Definition judge (v : StartupObservation) (g : gate) : StartupDecision * gate :=
  if negb (identity_verified v && owned_source v && zone_clear v) then _abort "TARGET_OR_SOURCE_CHANGED" g
  else if match volume v with Some n => negb ((0 <=? n) && (n <=? maximum_volume g)) | None => true end
  then _abort "SAFE_VOLUME_NOT_CONFIRMED" g
  else if is_some (relay_failure v) || negb (bool_decide (relay_state v = "STREAMING")) || (sent_bytes v <? 0)
  then _abort "RELAY_NOT_STREAMING" g
  else if negb (bool_decide (play_status v ∈ ["BUFFERING_STATE"; "PLAY_STATE"]))
  then _abort "RADIO_STATE_NOT_PLAYABLE" g
  else if bool_decide (play_status v = "PLAY_STATE") && (4096 <=? sent_bytes v)
  then (READY, gate_set READY "OWNED_SOURCE_PLAYING_AT_SAFE_VOLUME" g)
  else (decision g, g).

Definition observe (v : StartupObservation) (now : pynum) (g : gate) : res Liveness.exn StartupDecision * gate :=
  if negb (bool_decide (decision g = WAIT)) then (Ok (decision g), g)
  else match Liveness.ror (Liveness.bad_number now) (Ok (num_lt now (last_time g))) with
  | Err e => (Err e, g)
  | Ok true => let '(d, g') := _abort "INVALID_OBSERVATION_CLOCK" g in (Ok d, g')
  | Ok false =>
      let g := gate_at now g in
      let '(d, g') := if num_le (deadline g) now then _abort "READBACK_DEADLINE_EXCEEDED" g else judge v g in
      (Ok d, g')
  end.

Fixpoint observe_run (l : list (StartupObservation * pynum)) (g : gate)
    : list (res Liveness.exn StartupDecision) * gate :=
  match l with
  | [] => ([], g)
  | (v, now) :: l => let '(d, g1) := observe v now g in let '(ds, g2) := observe_run l g1 in (d :: ds, g2)
  end.

(** ** Lemmas *)
Record relay_ok (r : relay) : Prop := {
  ok_size : 0 < frame_bytes (pcm r);
  ok_limit : 0 <= _limit r;
  ok_buffer : len (_buffer r) <= _limit r;
  ok_silence : 0 <= _silence_frames r <= _silence_limit r;
  ok_pause : 0 <= _pause_frames r /\ match _pause_limit r with Some p => _pause_frames r <= p | None => _pause_frames r = 0 end;
  ok_empty : state r <> ACTIVE -> _buffer r = [] }.

Lemma make_format_ok rate bytes chans f : make_format rate bytes chans = Ok f -> 0 < frame_bytes f.
Proof.
  unfold make_format. destruct (negb _) eqn:E; [done|]. intros [= <-]. bdestr.
  unfold frame_bytes. cbn. set_unfold. subst chans. destruct H as [-> | [-> | []]], H1 as [-> | [-> | []]]; vm_compute; done.
Qed.

Lemma bad_ms_false n m : bad_ms n m = false -> exists k, n = PInt k /\ 20 <= k <= m.
Proof. unfold bad_ms. destruct n as [k|]; [|done]. intros H. bdestr. exists k. split; [done|lia]. Qed.

Lemma make_relay_ok f b s p r : 0 < frame_bytes f -> make_relay f b s p = Ok r ->
  relay_ok r /\ state r = IDLE /\ generation r = 0.
Proof.
  intros Hf. unfold make_relay. destruct (bad_ms b _) eqn:Eb; [done|]. destruct (bad_ms s _) eqn:Es; [done|].
  apply bad_ms_false in Eb as (kb & -> & Hb), Es as (ks & -> & Hs). cbn [ms].
  destruct (match p with Some _ => _ | None => _ end) eqn:Ep; [done|]. intros [= <-].
  assert (match p with Some p => 0 <= ms p / 20 | None => True end) as Hp.
  { destruct p as [p|]; [|done]. apply bad_ms_false in Ep as (kp & -> & ?). cbn [ms]. apply Z.div_pos; lia. }
  split; [|done]. split; cbn; unfold len; cbn; try done; try lia.
  - apply Z.mul_nonneg_nonneg; [lia|apply Z.div_pos; lia].
  - apply Z.mul_nonneg_nonneg; [lia|apply Z.div_pos; lia].
  - split; [lia|apply Z.div_pos; lia].
  - destruct p as [p|]; cbn in *; lia.
Qed.

Lemma relay_call_ok c r : relay_ok r -> relay_ok (relay_call c r).2.
Proof.
  intros [H1 H2 H3 H4 H5 H6]. destruct c as [|g b|g|g|g|]; cbn.
  - split; cbn; unfold len; cbn; try done; try lia. destruct (_pause_limit r); lia.
  - unfold feed. destruct (_ || _) eqn:E; [done|]. destruct (_ <? _) eqn:El; bdestr; split; cbn; try done.
    unfold len in *. rewrite length_app. lia.
  - unfold pause. destruct (_ || _); [done|]. split; cbn; unfold len; cbn; done.
  - unfold resume. destruct (_ || _) eqn:E; [done|]. split; cbn; try done.
  - unfold end_. destruct (negb _); [done|]. split; cbn; unfold len; cbn; done.
  - unfold frame. destruct (negb _) eqn:E; [done|]. destruct (_ && _) eqn:Ea.
    + split; cbn; try done; bdestr.
      * unfold len in *. rewrite length_skipn. lia.
      * lia.
      * destruct (_pause_limit r); lia.
      * congruence.
    + destruct (match _pause_limit r with Some _ => _ | None => _ end) eqn:Ex; [split; cbn; unfold len; cbn; done|].
      destruct (_pause_limit r) as [p|] eqn:Ep; cbn [is_some] in *; rewrite ?andb_true_r, ?andb_false_r in *.
      * destruct (bool_decide (state r = PAUSED)); bdestr; split; cbn; rewrite ?Ep; try done; lia.
      * bdestr. split; cbn; rewrite ?Ep; try done; lia.
Qed.

(** *** Refinement *)
Definition session_of (r : relay) (s : session) : Prop :=
  match state r with
  | ACTIVE => exists l n, s = Open false l n /\ (n <= length l)%nat /\ skipn n l = _buffer r
  | PAUSED => exists l n, s = Open true l n /\ (n <= length l)%nat /\ skipn n l = _buffer r
  | _ => s = Closed
  end.

Definition size_of (r : relay) : nat := Z.to_nat (frame_bytes (pcm r)).
Definition room_of (r : relay) : nat := Z.to_nat (_limit r).

Lemma session_of_active r s : state r = ACTIVE -> session_of r s ->
  exists l n, s = Open false l n /\ (n <= length l)%nat /\ skipn n l = _buffer r.
Proof. unfold session_of. by intros ->. Qed.

Lemma session_of_paused r s : state r = PAUSED -> session_of r s ->
  exists l n, s = Open true l n /\ (n <= length l)%nat /\ skipn n l = _buffer r.
Proof. unfold session_of. by intros ->. Qed.

Lemma not_active r s : session_of r s -> state r <> ACTIVE -> forall l n, s <> Open false l n.
Proof. unfold session_of. destruct (state r); intros H Hn l n ->; naive_solver. Qed.

Lemma not_paused r s : session_of r s -> state r <> PAUSED -> forall l n, s <> Open true l n.
Proof. unfold session_of. destruct (state r); intros H Hn l n ->; naive_solver. Qed.

Lemma open_session r s : session_of r s -> state r ∈ [ACTIVE; PAUSED] ->
  exists l n, s = Open (bool_decide (state r = PAUSED)) l n /\ (n <= length l)%nat /\ skipn n l = _buffer r.
Proof. unfold session_of. intros H Hin. destruct (state r); try (set_solver by idtac); set_unfold; naive_solver. Qed.

Lemma relay_call_same c r : pcm (relay_call c r).2 = pcm r /\ _limit (relay_call c r).2 = _limit r.
Proof.
  destruct c; cbn; unfold feed, pause, resume, end_, frame;
    repeat (case_match; simplify_eq/=; try done); by split.
Qed.

Lemma feed_refines g b r s : relay_ok r -> session_of r s -> exists s',
  spec_step (size_of r) (room_of r) (generation r, s) (CFeed g b, (relay_call (CFeed g b) r).1)
    (generation (relay_call (CFeed g b) r).2, s') /\ session_of (relay_call (CFeed g b) r).2 s'.
Proof.
  intros [H1 H2 H3 H4 H5 H6] Hs. cbn. unfold feed. destruct (_ || _) eqn:E.
  - exists s. split; [|done]. cbn. apply sp_feed_refused. apply orb_true_iff in E as [E|E]; bdestr; [by left|].
    right. by apply (not_active r).
  - bdestr. subst g. apply session_of_active in Hs as (l & n & -> & Hn & Hb); [|done].
    assert (length (_buffer r) = (length l - n)%nat) as Hlen by (rewrite <- Hb; apply length_skipn).
    unfold len. destruct (_ <? _) eqn:El; bdestr; cbn.
    + exists Closed. split; [|done]. apply sp_overflow. unfold room_of. lia.
    + exists (Open false (l ++ b) n). split; [apply sp_feed; unfold room_of; lia|].
      exists (l ++ b), n. split; [done|]. rewrite length_app. split; [lia|].
      rewrite skipn_app. rewrite Hb. by replace (n - length l)%nat with 0%nat by lia.
Qed.

Lemma frame_refines r s : relay_ok r -> session_of r s -> exists s',
  spec_step (size_of r) (room_of r) (generation r, s) (CFrame, (relay_call CFrame r).1)
    (generation (relay_call CFrame r).2, s') /\ session_of (relay_call CFrame r).2 s'.
Proof.
  intros [H1 H2 H3 H4 H5 H6] Hs. cbn. unfold frame. destruct (negb _) eqn:E.
  - cbn. exists s. split; [|done]. assert (s = Closed) as ->.
    { unfold session_of in Hs. apply negb_true_iff, bool_decide_eq_false in E. set_unfold.
      destruct (state r); tauto. }
    apply sp_ended.
  - apply negb_false_iff, bool_decide_eq_true in E.
    destruct (open_session r s Hs E) as (l & n & -> & Hn & Hb).
    assert (length (_buffer r) = (length l - n)%nat) as Hlen by (rewrite <- Hb; apply length_skipn).
    destruct (_ && _) eqn:Ea.
    + bdestr. cbn. exists (Open false l (n + size_of r)). unfold session_of. cbn.
      rewrite (bool_decide_false (state r = PAUSED)) by congruence. unfold len in *.
      split.
      * rewrite <- Hb. apply sp_audio. unfold size_of. lia.
      * replace (state r) with ACTIVE. exists l, (n + size_of r)%nat. split; [done|]. unfold size_of in *. split; [lia|].
        rewrite <- Hb. rewrite skipn_skipn. f_equal. lia.
    + assert (bool_decide (state r = PAUSED) = true \/ (length l < n + size_of r)%nat) as Hq.
      { set_unfold. unfold size_of. destruct E as [E | [E | []]]; [right|left; by rewrite E].
        rewrite bool_decide_true in Ea by done. cbn [andb] in Ea. apply Z.leb_gt in Ea. unfold len in *. lia. }
      destruct (match _pause_limit r with Some _ => _ | None => _ end).
      * exists Closed. cbn. split; [by apply sp_expired|done].
      * cbn. exists (Open (bool_decide (state r = PAUSED)) l n). split; [by apply sp_silence|].
        unfold session_of in *. cbn. by destruct (state r).
Qed.

Lemma relay_refines c r s : relay_ok r -> session_of r s -> exists s',
  spec_step (size_of r) (room_of r) (generation r, s) (c, (relay_call c r).1)
    (generation (relay_call c r).2, s') /\ session_of (relay_call c r).2 s'.
Proof.
  intros Hr Hs. destruct c as [|g b|g|g|g|]; [|by apply feed_refines| | | |by apply frame_refines]; cbn.
  - exists (Open false [] 0). split; [apply sp_begin|]. by exists [], 0%nat.
  - unfold pause. destruct (_ || _) eqn:E.
    + exists s. split; [|done]. apply sp_pause_refused. apply orb_true_iff in E as [E|E]; bdestr; [by left|].
      right. by apply (not_active r).
    + bdestr. subst g. apply session_of_active in Hs as (l & n & -> & _); [|done]. exists (Open true [] 0).
      split; [apply sp_pause|]. by exists [], 0%nat.
  - unfold resume. destruct (_ || _) eqn:E.
    + exists s. split; [|done]. apply sp_resume_refused. apply orb_true_iff in E as [E|E]; bdestr; [by left|].
      right. by apply (not_paused r).
    + bdestr. subst g. apply session_of_paused in Hs as (l & n & -> & Hn & Hb); [|done]. exists (Open false l n).
      split; [apply sp_resume|]. by exists l, n.
  - unfold end_. destruct (negb _) eqn:E; cbn.
    + exists s. split; [|done]. apply sp_end_refused. by bdestr.
    + bdestr. subst g. exists Closed. split; [apply sp_end|done].
Qed.

Lemma relay_run_refines cs r s : relay_ok r -> session_of r s -> exists s',
  spec_run (size_of r) (room_of r) (generation r, s) (relay_run cs r).1 (generation (relay_run cs r).2, s') /\
  session_of (relay_run cs r).2 s' /\ relay_ok (relay_run cs r).2.
Proof.
  revert r s. induction cs as [|c cs IH]; intros r s Hr Hs.
  - exists s. split; [constructor|done].
  - destruct (relay_refines c r s Hr Hs) as (s1 & Hstep & Hs1). pose proof (relay_call_ok c r Hr) as Hr1.
    destruct (relay_call_same c r) as [Ep El]. cbn [relay_run].
    destruct (relay_call c r) as [a r1]. cbn in *. destruct (IH r1 s1 Hr1 Hs1) as (s2 & Hrun & Hs2).
    unfold size_of, room_of in *. rewrite Ep, El in Hrun. destruct (relay_run cs r1) as [l r2]. cbn in *.
    exists s2. split; [by econstructor|done].
Qed.

(** C30. The relay refines the stream specification: under any calls, whatever their
    generations and sizes, a relay made by its constructor answers as a closed or open
    stream would - every audio frame is the next [frame_bytes] of the samples received
    since the stream was last emptied, in order, none skipped, twice or invented, samples
    that do not fit end the session, and the buffer is exactly the samples that were
    received and not yet played.  The stream is emptied, and what it held is never played,
    by a beginning, a pause, an overflow, an end and a spent silence budget. *)
Theorem relay_is_a_stream rate bytes chans f mb ms_ mp r cs :
  make_format rate bytes chans = Ok f -> make_relay f mb ms_ mp = Ok r ->
  exists s, spec_run (size_of r) (room_of r) (0, Closed) (relay_run cs r).1 (generation (relay_run cs r).2, s) /\
    match s with
    | Open _ l n => _buffer (relay_run cs r).2 = skipn n l /\ (length (skipn n l) <= room_of r)%nat
    | Closed => state (relay_run cs r).2 <> ACTIVE /\ state (relay_run cs r).2 <> PAUSED
    end.
Proof.
  intros Hf%make_format_ok Hr. destruct (make_relay_ok _ _ _ _ _ Hf Hr) as (Hok & Hst & Hg).
  destruct (relay_run_refines cs r Closed Hok) as (s & Hrun & Hs & Hok'); [by unfold session_of; rewrite Hst|].
  rewrite Hg in Hrun. exists s. split; [done|].
  assert (_limit (relay_run cs r).2 = _limit r) as El.
  { clear. revert r. induction cs as [|c cs IH]; intros r; [done|]. cbn.
    destruct (relay_call_same c r) as [_ El]. destruct (relay_call c r) as [a r1]. cbn in *. specialize (IH r1).
    destruct (relay_run cs r1). cbn in *. congruence. }
  pose proof (ok_buffer _ Hok') as Hb. pose proof (ok_limit _ Hok) as Hl. rewrite El in Hb. unfold len in Hb. unfold room_of.
  unfold session_of in Hs. destruct (state (relay_run cs r).2); try (subst; by split);
    destruct Hs as (l & n & -> & _ & E); split; try done; rewrite E; lia.
Qed.
(** *** The silence budgets *)
Definition pause_budget (r : relay) : Z := default 0 (_pause_limit r).

(** The frames that were answered with samples. *)
Definition frames_in (l : list (call * answer)) : list (call * answer) :=
  List.filter (fun e => match e.2 with AFrame (Some _) => true | _ => false end) l.

Definition no_begin (c : call) : Prop := c <> CBegin.

Definition budgets (r : relay) : PCMFormat * Z * Z * option Z :=
  (pcm r, _limit r, _silence_limit r, _pause_limit r).

Lemma budgets_same c r : budgets (relay_call c r).2 = budgets r.
Proof.
  destruct c; cbn; unfold feed, pause, resume, end_, frame; repeat (case_match; simplify_eq/=; try done); reflexivity.
Qed.

(** A call that is not [begin] plays a frame of audio, or spends silence. *)
Lemma call_spends c r : no_begin c ->
  let '(a, r') := relay_call c r in
  audio_frames r < audio_frames r' \/
  (audio_frames r' = audio_frames r /\
   Z.of_nat (length (frames_in [(c, a)])) =
     _silence_frames r' + _pause_frames r' - (_silence_frames r + _pause_frames r)).
Proof.
  unfold no_begin. destruct c; cbn; unfold feed, pause, resume, end_, frame; intros Hn; try done;
    repeat (case_match; simplify_eq/=; try lia; try (by right; split; [done|lia]); try (by left; lia)).
Qed.

Lemma run_spends cs r : Forall no_begin cs ->
  let '(l, r') := relay_run cs r in
  audio_frames r < audio_frames r' \/
  (audio_frames r' = audio_frames r /\
   Z.of_nat (length (frames_in l)) = _silence_frames r' + _pause_frames r' - (_silence_frames r + _pause_frames r)).
Proof.
  revert r. induction cs as [|c cs IH]; intros r H; [right; cbn; lia|]. inversion H as [|? ? H1 H2]; subst.
  pose proof (call_spends c r H1) as Hc. cbn [relay_run]. destruct (relay_call c r) as [a r1]. specialize (IH r1 H2).
  destruct (relay_run cs r1) as [l r2].
  assert (length (frames_in ((c, a) :: l)) = length (frames_in [(c, a)]) + length (frames_in l))%nat as El.
  { unfold frames_in. change ((c, a) :: l) with ([(c, a)] ++ l). by rewrite List.filter_app, length_app. }
  rewrite El. lia.
Qed.

Lemma run_ok cs r : relay_ok r -> relay_ok (relay_run cs r).2 /\ budgets (relay_run cs r).2 = budgets r.
Proof.
  revert r. induction cs as [|c cs IH]; intros r H; [done|]. cbn [relay_run].
  pose proof (relay_call_ok c r H) as H1. pose proof (budgets_same c r) as H2.
  destruct (relay_call c r) as [a r1]. cbn in H1, H2. destruct (IH r1 H1) as [H3 H4].
  destruct (relay_run cs r1) as [l r2]. cbn in *. split; [done|congruence].
Qed.

(** How many more frames an unattended relay can answer with samples. *)
Definition frames_left (r : relay) : Z :=
  match state r with
  | ACTIVE => let k := len (_buffer r) / frame_bytes (pcm r) in
              k + (if 0 <? k then _silence_limit r else _silence_limit r - _silence_frames r)
  | PAUSED => match _pause_limit r with
              | Some p => p - _pause_frames r
              | None => _silence_limit r - _silence_frames r
              end
  | _ => 0
  end.

Lemma frames_left_bound r : relay_ok r ->
  0 <= frames_left r <= _limit r / frame_bytes (pcm r) + Z.max (_silence_limit r) (pause_budget r).
Proof.
  intros [H1 H2 H3 H4 H5 H6]. unfold frames_left, pause_budget.
  assert (0 <= len (_buffer r) / frame_bytes (pcm r)) by (apply Z.div_pos; unfold len; lia).
  assert (len (_buffer r) / frame_bytes (pcm r) <= _limit r / frame_bytes (pcm r)) by (apply Z.div_le_mono; lia).
  destruct (state r); [lia| |destruct (_pause_limit r); cbn; lia|lia|lia].
  destruct (_ <? _); lia.
Qed.

Lemma frame_left r : relay_ok r ->
  match frame r with
  | (Some _, r') => frames_left r' = frames_left r - 1 /\ 1 <= frames_left r
  | (None, r') => frames_left r' = 0 /\ state r' <> ACTIVE /\ state r' <> PAUSED
  end.
Proof.
  intros [H1 H2 H3 H4 H5 H6]. unfold frame. destruct (negb _) eqn:E.
  - apply negb_true_iff, bool_decide_eq_false in E. unfold frames_left. set_unfold. destruct (state r); tauto.
  - apply negb_false_iff, bool_decide_eq_true in E. destruct (_ && _) eqn:Ea.
    + bdestr. cbn. unfold frames_left. cbn. rewrite H. set (size := frame_bytes (pcm r)) in *.
      assert (len (skipn (Z.to_nat size) (_buffer r)) / size = len (_buffer r) / size - 1) as ->.
      { unfold len in *. rewrite length_skipn. replace (Z.of_nat (length (_buffer r) - Z.to_nat size)) with
          (Z.of_nat (length (_buffer r)) + (-1) * size) by lia. rewrite Z.div_add by lia. lia. }
      assert (1 <= len (_buffer r) / size) by (apply Z.div_le_lower_bound; lia).
      replace (0 <? len (_buffer r) / size) with true by (symmetry; apply Z.ltb_lt; lia).
      destruct (_ <? _); lia.
    + assert (state r = ACTIVE -> len (_buffer r) / frame_bytes (pcm r) = 0) as Hz.
      { intros Hs. rewrite bool_decide_true in Ea by done. cbn [andb] in Ea. apply Z.leb_gt in Ea.
        apply Z.div_small. unfold len in *. lia. }
      set_unfold. destruct E as [E | [E | []]]; rewrite E in *; cbn.
      * specialize (Hz eq_refl). rewrite (bool_decide_false (ACTIVE = PAUSED)) by done. cbn [andb].
        assert (match _pause_limit r with Some _ => _silence_limit r <=? _silence_frames r
                | None => _silence_limit r <=? _silence_frames r end = (_silence_limit r <=? _silence_frames r))
          as -> by (by destruct (_pause_limit r)).
        destruct (_silence_limit r <=? _silence_frames r) eqn:El; bdestr; unfold frames_left; cbn; [done|]. rewrite E, Hz. cbn. lia.
      * rewrite (bool_decide_true (PAUSED = PAUSED)) by done. cbn [andb]. unfold frames_left. rewrite E.
        destruct (_pause_limit r) as [p|] eqn:Ep; cbn [is_some] in *;
          [destruct (p <=? _pause_frames r) eqn:El|destruct (_silence_limit r <=? _silence_frames r) eqn:El];
          bdestr; cbn; rewrite ?Ep; try done; lia.
Qed.

Lemma frames_run_left n r : relay_ok r -> frames_left r <= Z.of_nat n ->
  (frame (relay_run (repeat CFrame n) r).2).1 = None.
Proof.
  revert r. induction n as [|n IH]; intros r Hr Hl; cbn.
  - pose proof (frame_left r Hr). destruct (frame r) as [[d|] r']; [lia|done].
  - pose proof (frame_left r Hr) as H. pose proof (relay_call_ok CFrame r Hr) as Hr1. cbn in Hr1.
    destruct (frame r) as [[d|] r1]; cbn in *.
    + specialize (IH r1 Hr1). destruct (relay_run (repeat CFrame n) r1) as [l r2]. cbn in *. apply IH. lia.
    + specialize (IH r1 Hr1). destruct (relay_run (repeat CFrame n) r1) as [l r2]. cbn in *. apply IH. lia.
Qed.

(** The silence is bounded, in two ways.  In a session no calls - pauses, resumes,
    partial input, refused calls - renew the silence: between two frames of audio at
    most [max_silence_ms / 20] plus [max_pause_ms / 20] frames of silence are played.
    And a relay that nobody attends ends: once [frame] was called [(max_buffer_ms +
    max_silence_ms) / 20] times ([max_pause_ms] where that is longer) it answers None. *)
Theorem silence_is_bounded rate bytes chans f mb ms_ mp r cs cs' n :
  make_format rate bytes chans = Ok f -> make_relay f mb ms_ mp = Ok r ->
  let r1 := (relay_run cs r).2 in
  (Forall no_begin cs' -> audio_frames (relay_run cs' r1).2 = audio_frames r1 ->
     Z.of_nat (length (frames_in (relay_run cs' r1).1)) <= ms ms_ / 20 + default 0 ((fun p => ms p / 20) <$> mp)) /\
  (ms mb / 20 + Z.max (ms ms_ / 20) (default 0 ((fun p => ms p / 20) <$> mp)) <= Z.of_nat n ->
     (frame (relay_run (repeat CFrame n) r1).2).1 = None).
Proof.
  intros Hf%make_format_ok Hr. destruct (make_relay_ok _ _ _ _ _ Hf Hr) as (Hok & _ & _).
  assert (_limit r = frame_bytes (pcm r) * (ms mb / 20) /\ _silence_limit r = ms ms_ / 20 /\
          _pause_limit r = (fun p => ms p / 20) <$> mp) as (El & Es & Ep).
  { unfold make_relay in Hr. repeat (case_match; [done|]). injection Hr as <-. done. }
  rewrite <- Es, <- Ep. cbn zeta. destruct (run_ok cs r Hok) as [Hok1 Hb1]. set (r1 := (relay_run cs r).2) in *.
  injection Hb1 as Eb1 Eb2 Eb3 Eb4. split.
  - intros Hn Ha. pose proof (run_spends cs' r1 Hn) as Hs. destruct (run_ok cs' r1 Hok1) as [Hok2 Hb2].
    destruct (relay_run cs' r1) as [l r2]. cbn [fst snd] in *. injection Hb2 as Ec1 Ec2 Ec3 Ec4.
    destruct Hok1 as [_ _ _ S1 P1 _], Hok2 as [_ _ _ S2 P2 _]. rewrite Ec3, Eb3 in S2. rewrite Ec4, Eb4 in P2.
    destruct (_pause_limit r); cbn [default from_option id] in *; lia.
  - intros Hn. apply frames_run_left; [done|]. pose proof (frames_left_bound r1 Hok1) as Hb.
    rewrite Eb1, Eb2, Eb3 in Hb. unfold pause_budget in Hb. rewrite Eb4, El in Hb.
    rewrite (Z.mul_comm (frame_bytes _)), Z.div_mul in Hb by (pose proof (ok_size _ Hok); lia). lia.
Qed.
(** ** The startup window *)
Definition acceptable (m : Z) (v : StartupObservation) : Prop :=
  identity_verified v = true /\ owned_source v = true /\ zone_clear v = true /\
  (exists n, volume v = Some n /\ 0 <= n <= m) /\ relay_failure v = None /\
  relay_state v = "STREAMING" /\ 0 <= sent_bytes v /\ play_status v ∈ ["BUFFERING_STATE"; "PLAY_STATE"].
Definition playing (v : StartupObservation) : Prop := play_status v = "PLAY_STATE" /\ 4096 <= sent_bytes v.
(** A finite clock reading, not before the last one and before the deadline. *)
Definition in_window (dl last now : pynum) : Prop :=
  isfinite now = Ok true /\ num_lt now last = false /\ num_le dl now = false.

(** A window that is still open after these observations: each was acceptable, or its
    clock was an int beyond the floats, which [observe] raises on. *)
Inductive watched (m : Z) (dl : pynum) : pynum -> list (StartupObservation * pynum) -> pynum -> Prop :=
| w_nil t : watched m dl t [] t
| w_ok t v now l t' : in_window dl t now -> acceptable m v -> ~ playing v ->
    watched m dl now l t' -> watched m dl t ((v, now) :: l) t'
| w_raised t v now l t' : isfinite now = Err tt -> watched m dl t l t' -> watched m dl t ((v, now) :: l) t'.

Lemma judge_cases v g : decision g = WAIT ->
  match judge v g with
  | (READY, g') => acceptable (maximum_volume g) v /\ playing v /\ decision g' = READY
  | (WAIT, g') => acceptable (maximum_volume g) v /\ ~ playing v /\ g' = g
  | (ABORT, g') => decision g' = ABORT
  end.
Proof.
  intros Hd. unfold judge. destruct (negb _) eqn:E1; [done|]. destruct (match volume v with Some _ => _ | None => _ end) eqn:E2; [done|].
  destruct (_ || _) eqn:E3; [done|]. destruct (negb (bool_decide (play_status v ∈ _))) eqn:E4; [done|].
  assert (acceptable (maximum_volume g) v) as Ha.
  { bdestr. destruct (volume v) as [n|] eqn:Ev; [|done]. bdestr. destruct (relay_failure v) eqn:Ef; [done|].
    repeat (split; [done|]). split; [exists n; by split|]. repeat (split; [done|]). done. }
  destruct (bool_decide (play_status v = "PLAY_STATE") && (4096 <=? sent_bytes v)) eqn:E5; [bdestr; cbn; split; [done|]; split; [by split|done]|]. rewrite Hd. split; [done|]. split; [|done].
  intros [H1 H2]. rewrite H1 in E5. rewrite bool_decide_true in E5 by done. cbn [andb] in E5. apply Z.leb_gt in E5. lia.
Qed.

Lemma bad_number_cases n :
  match Liveness.bad_number n with
  | Ok true => isfinite n = Ok false | Ok false => isfinite n = Ok true | Err _ => isfinite n = Err tt
  end.
Proof. unfold Liveness.bad_number. by destruct (isfinite n) as [[]|[]]. Qed.

Lemma observe_cases v now g : decision g = WAIT ->
  match observe v now g with
  | (Ok WAIT, g') => in_window (deadline g) (last_time g) now /\ acceptable (maximum_volume g) v /\ ~ playing v /\ g' = gate_at now g
  | (Ok READY, g') => in_window (deadline g) (last_time g) now /\ acceptable (maximum_volume g) v /\ playing v /\ decision g' = READY
  | (Ok ABORT, g') => decision g' = ABORT
  | (Err _, g') => isfinite now = Err tt /\ g' = g
  end.
Proof.
  intros Hd. unfold observe. rewrite bool_decide_true by done. cbn [negb].
  pose proof (bad_number_cases now) as Hb. destruct (Liveness.bad_number now) as [[]|e]; cbn [Liveness.ror]; [done| |done].
  destruct (num_lt now (last_time g)) eqn:El; [done|].
  change (deadline (gate_at now g)) with (deadline g). destruct (num_le (deadline g) now) eqn:Ed; [done|].
  pose proof (judge_cases v (gate_at now g) Hd) as Hj. destruct (judge v (gate_at now g)) as [[] g']; cbn in Hj |- *;
    [| |done]; destruct Hj as (H1 & H2 & H3); (split; [by repeat split|]); (split; [done|]); by split.
Qed.

Lemma observe_latched l g : decision g <> WAIT ->
  observe_run l g = (repeat (Ok (decision g)) (length l), g).
Proof.
  intros Hd. induction l as [|[v now] l IH]; [done|]. cbn [observe_run]. unfold observe.
  rewrite bool_decide_false by done. cbn [negb]. by rewrite IH.
Qed.

Lemma observe_run_ready l g : decision g = WAIT -> decision (observe_run l g).2 = READY ->
  exists pre v now post last ds,
    l = pre ++ (v, now) :: post /\ watched (maximum_volume g) (deadline g) (last_time g) pre last /\
    in_window (deadline g) last now /\ acceptable (maximum_volume g) v /\ playing v /\
    (observe_run l g).1 = ds ++ repeat (Ok READY) (S (length post)) /\ Forall (fun d => d <> Ok READY) ds.
Proof.
  revert g. induction l as [|[v now] l IH]; intros g Hw Hr; [cbn in Hr; congruence|].
  pose proof (observe_cases v now g Hw) as Hc. cbn [observe_run] in *.
  destruct (observe v now g) as [[[]|e] g1].
  - destruct Hc as (H1 & H2 & H3 & ->). specialize (IH (gate_at now g) Hw).
    destruct (observe_run l (gate_at now g)) as [ds g2]. cbn in *.
    destruct (IH Hr) as (pre & v1 & t1 & post & last & ds1 & -> & W & I & A & P & -> & F).
    exists ((v, now) :: pre), v1, t1, post, last, (Ok WAIT :: ds1). split; [done|]. split; [by apply w_ok|].
    repeat (split; [done|]). by constructor.
  - destruct Hc as (H1 & H2 & H3 & H4). rewrite observe_latched in * by congruence. cbn in *. rewrite H4.
    exists [], v, now, l, (last_time g), []. split; [done|]. split; [constructor|]. by repeat (split; [done|]).
  - rewrite observe_latched in * by congruence. cbn in *. congruence.
  - destruct Hc as (H1 & ->). specialize (IH g Hw). destruct (observe_run l g) as [ds g2]. cbn in *.
    destruct (IH Hr) as (pre & v1 & t1 & post & last & ds1 & -> & W & I & A & P & -> & F).
    exists ((v, now) :: pre), v1, t1, post, last, (Err e :: ds1). split; [done|]. split; [by apply w_raised|].
    repeat (split; [done|]). by constructor.
Qed.

(** Audio is released once and on evidence: a window that answers READY did so at
    an observation of the verified target playing the owned source at a volume within
    the bound, with at least 4096 bytes sent, before its deadline and after only
    acceptable observations in clock order; nothing before it was answered READY, and
    every later call is.  A window that left WAIT never changes its answer. *)
Theorem ready_needs_evidence started timeout maximum g l :
  StartupReadbackGate started timeout maximum = Ok g ->
  (decision (observe_run l g).2 = READY ->
   exists pre v now post last ds,
    l = pre ++ (v, now) :: post /\ watched (maximum_volume g) (deadline g) started pre last /\
    in_window (deadline g) last now /\ acceptable (maximum_volume g) v /\ playing v /\
    (observe_run l g).1 = ds ++ repeat (Ok READY) (S (length post)) /\ Forall (fun d => d <> Ok READY) ds) /\
  (decision (observe_run l g).2 <> WAIT -> forall later,
     observe_run later (observe_run l g).2 =
       (repeat (Ok (decision (observe_run l g).2)) (length later), (observe_run l g).2)).
Proof.
  unfold StartupReadbackGate. intros (bad & _ & H)%bind_Ok. destruct bad; [done|].
  destruct maximum as [m|]; [|done]. destruct (_ && _); [|done]. injection H as <-. split.
  - by apply observe_run_ready.
  - intros Hd later. by apply observe_latched.
Qed.

(** ** Concrete sessions *)
Definition demo_calls : list call := [CBegin; CFeed 1 (repeat 7 8000); CFrame; CPause 1; CFrame; CResume 1; CFrame].
Definition demo_relay : relay := {| pcm := default_format; state := IDLE; generation := 0; _limit := 76800;
  _silence_limit := 1500; _silence_frames := 0; _pause_limit := Some 3000; _pause_frames := 0; _buffer := [];
  silence_frames := 0; audio_frames := 0 |}.

Lemma relay_is_a_stream_witness :
  make_format 48000 4 2 = Ok default_format /\
  make_relay default_format (PInt 200) (PInt 30000) (Some (PInt 60000)) = Ok demo_relay /\
  exists s, spec_run (size_of demo_relay) (room_of demo_relay) (0, Closed) (relay_run demo_calls demo_relay).1
              (generation (relay_run demo_calls demo_relay).2, s).
Proof.
  assert (make_format 48000 4 2 = Ok default_format) as Hf by reflexivity.
  assert (make_relay default_format (PInt 200) (PInt 30000) (Some (PInt 60000)) = Ok demo_relay) as Hr by reflexivity.
  split; [exact Hf|]. split; [exact Hr|].
  destruct (relay_is_a_stream _ _ _ _ _ _ _ _ demo_calls Hf Hr) as (s & Hs & _). by exists s.
Defined.

Lemma silence_is_bounded_witness :
  make_format 48000 4 2 = Ok default_format /\
  make_relay default_format (PInt 200) (PInt 30000) (Some (PInt 60000)) = Ok demo_relay /\
  audio_frames (relay_run [CPause 1; CFrame; CResume 1; CFrame] (relay_run demo_calls demo_relay).2).2
    = audio_frames (relay_run demo_calls demo_relay).2 /\
  Z.of_nat (length (frames_in (relay_run [CPause 1; CFrame; CResume 1; CFrame] (relay_run demo_calls demo_relay).2).1)) <= 4500 /\
  (frame (relay_run (repeat CFrame 3010) (relay_run demo_calls demo_relay).2).2).1 = None.
Proof.
  assert (make_format 48000 4 2 = Ok default_format) as Hf by reflexivity.
  assert (make_relay default_format (PInt 200) (PInt 30000) (Some (PInt 60000)) = Ok demo_relay) as Hr by reflexivity.
  split; [exact Hf|]. split; [exact Hr|].
  destruct (silence_is_bounded _ _ _ _ _ _ _ _ demo_calls [CPause 1; CFrame; CResume 1; CFrame] 3010 Hf Hr) as [H1 H2].
  assert (audio_frames (relay_run [CPause 1; CFrame; CResume 1; CFrame] (relay_run demo_calls demo_relay).2).2
    = audio_frames (relay_run demo_calls demo_relay).2) as Ha by (vm_compute; reflexivity).
  split; [exact Ha|]. split.
  - apply H1; [|exact Ha]. repeat constructor; discriminate.
  - apply H2. vm_compute. discriminate.
Defined.

Definition demo_observation (play : string) (sent : Z) : StartupObservation :=
  {| identity_verified := true; owned_source := true; zone_clear := true; volume := Some 1; play_status := play;
     relay_state := "STREAMING"; relay_failure := None; sent_bytes := sent |}.
Definition demo_gate : gate := {| deadline := PInt 28; maximum_volume := 1; last_time := PInt 10; decision := WAIT;
  reason := "BUFFERING_NOT_YET_CONFIRMED" |}.
Definition demo_window : list (StartupObservation * pynum) :=
  [(demo_observation "BUFFERING_STATE" 0, PInt 11); (demo_observation "PLAY_STATE" 8192, PInt 12);
   (demo_observation "PAUSE_STATE" 0, PInt 11)].

Lemma ready_needs_evidence_witness :
  StartupReadbackGate (PInt 10) (PInt 18) (PInt 1) = Ok demo_gate /\
  (observe_run demo_window demo_gate).1 = [Ok WAIT; Ok READY; Ok READY] /\
  exists pre v now post last, demo_window = pre ++ (v, now) :: post /\
    watched 1 (PInt 28) (PInt 10) pre last /\ playing v.
Proof.
  assert (StartupReadbackGate (PInt 10) (PInt 18) (PInt 1) = Ok demo_gate) as Hg by (vm_compute; reflexivity).
  split; [exact Hg|]. split; [vm_compute; reflexivity|].
  destruct (proj1 (ready_needs_evidence _ _ _ _ demo_window Hg)) as (pre & v & now & post & last & ds & E & W & _ & _ & P & _).
  - vm_compute. reflexivity.
  - exists pre, v, now, post, last. exact (conj E (conj W P)).
Defined.

End Relay.
