(* ===== verification/Setup.v ===== *)
(** * Setup rebuild: states, coordinator lease and audio lock
    (app/services/setup_rebuild/states.py, lease.py, audio_safety.py)

    The state machine is the table of the source; its functions take state names, as
    callers may pass strings.  The lease is one row changed by conditional updates,
    each one transaction; a database that fails changes nothing.  Times are
    microseconds; the clock of each call is its argument and may go backwards. *)
From Stdlib Require Import Ascii String.
From S2P Require Import Prelude PyNum PyStr Json.
#[local] Open Scope string_scope.
#[local] Open Scope list_scope.
#[local] Open Scope Z_scope.

Module Setup.

(** ** states.py *)
Inductive SetupState : Type :=
| UNKNOWN | DISCOVERED | IDENTIFIED
| PRESENTATION_PREFLIGHT | PRESENTATION_PREPARED | PRESENTATION_CONFIGURED | PRESENTATION_VERIFIED
| ORIGINAL_PREPARED | ORIGINAL_CONFIGURED | ORIGINAL_VERIFIED
| BACKUP_PENDING | BACKUP_COMPLETE
| SSH_STATUS_PENDING | SSH_ALREADY_ACTIVE | SSH_ACTIVATION_PENDING | SSH_TEMPORARY_ACTIVE
| SSH_PERSISTENCE_PENDING | SSH_REBOOT_PENDING | SSH_VERIFIED
| ROUTING_BACKUP_COMPLETE | BASSWIESN_ROUTE_PENDING | BASSWIESN_ROUTE_ACTIVE
| RADIO_REBOOT_PENDING | RADIO_REBOOTED | RADIO_RECONNECT_PENDING | RADIO_REACHABLE
| MARGE_ACCOUNT_PENDING | MARGE_ACCOUNT_ACTIVE | PRESETS_READABLE | PLAYBACK_READY
| VERIFIED | FAILED | RECOVERY_PENDING | ROLLBACK_PENDING | ROLLED_BACK.

#[export] Instance SetupState_eq_dec : EqDecision SetupState.
Proof. solve_decision. Defined.

(** The members in the order of their definition, with their values. *)
Definition MEMBERS : list (SetupState * string) :=
  [(UNKNOWN, "UNKNOWN"); (DISCOVERED, "DISCOVERED"); (IDENTIFIED, "IDENTIFIED");
   (PRESENTATION_PREFLIGHT, "PRESENTATION_PREFLIGHT"); (PRESENTATION_PREPARED, "PRESENTATION_PREPARED");
   (PRESENTATION_CONFIGURED, "PRESENTATION_CONFIGURED"); (PRESENTATION_VERIFIED, "PRESENTATION_VERIFIED");
   (ORIGINAL_PREPARED, "ORIGINAL_PREPARED"); (ORIGINAL_CONFIGURED, "ORIGINAL_CONFIGURED");
   (ORIGINAL_VERIFIED, "ORIGINAL_VERIFIED"); (BACKUP_PENDING, "BACKUP_PENDING");
   (BACKUP_COMPLETE, "BACKUP_COMPLETE"); (SSH_STATUS_PENDING, "SSH_STATUS_PENDING");
   (SSH_ALREADY_ACTIVE, "SSH_ALREADY_ACTIVE"); (SSH_ACTIVATION_PENDING, "SSH_ACTIVATION_PENDING");
   (SSH_TEMPORARY_ACTIVE, "SSH_TEMPORARY_ACTIVE"); (SSH_PERSISTENCE_PENDING, "SSH_PERSISTENCE_PENDING");
   (SSH_REBOOT_PENDING, "SSH_REBOOT_PENDING"); (SSH_VERIFIED, "SSH_VERIFIED");
   (ROUTING_BACKUP_COMPLETE, "ROUTING_BACKUP_COMPLETE"); (BASSWIESN_ROUTE_PENDING, "BASSWIESN_ROUTE_PENDING");
   (BASSWIESN_ROUTE_ACTIVE, "BASSWIESN_ROUTE_ACTIVE"); (RADIO_REBOOT_PENDING, "RADIO_REBOOT_PENDING");
   (RADIO_REBOOTED, "RADIO_REBOOTED"); (RADIO_RECONNECT_PENDING, "RADIO_RECONNECT_PENDING");
   (RADIO_REACHABLE, "RADIO_REACHABLE"); (MARGE_ACCOUNT_PENDING, "MARGE_ACCOUNT_PENDING");
   (MARGE_ACCOUNT_ACTIVE, "MARGE_ACCOUNT_ACTIVE"); (PRESETS_READABLE, "PRESETS_READABLE");
   (PLAYBACK_READY, "PLAYBACK_READY"); (VERIFIED, "VERIFIED"); (FAILED, "FAILED");
   (RECOVERY_PENDING, "RECOVERY_PENDING"); (ROLLBACK_PENDING, "ROLLBACK_PENDING"); (ROLLED_BACK, "ROLLED_BACK")].

Definition value (s : SetupState) : string :=
  default "" (snd <$> head (filter (fun m => m.1 = s) MEMBERS)).
(** [SetupState(name)]; [None] raises [ValueError]. *)
Definition setup_state (name : string) : option SetupState :=
  fst <$> head (filter (fun m => m.2 = name) MEMBERS).

Definition TERMINAL_STATES : list SetupState := [VERIFIED; FAILED; ROLLED_BACK].

Definition _ALLOWED_TRANSITIONS (s : SetupState) : list SetupState :=
  match s with
  | ORIGINAL_PREPARED => [ORIGINAL_CONFIGURED; FAILED]
  | ORIGINAL_CONFIGURED => [RADIO_REBOOT_PENDING; FAILED]
  | ORIGINAL_VERIFIED => [VERIFIED; FAILED]
  | UNKNOWN => [DISCOVERED; FAILED]
  | DISCOVERED => [IDENTIFIED; FAILED]
  | IDENTIFIED => [PRESENTATION_PREFLIGHT; BACKUP_PENDING; FAILED]
  | PRESENTATION_PREFLIGHT => [BACKUP_PENDING; FAILED]
  | PRESENTATION_PREPARED => [ROUTING_BACKUP_COMPLETE; FAILED]
  | PRESENTATION_CONFIGURED => [RADIO_REBOOT_PENDING; FAILED]
  | PRESENTATION_VERIFIED => [MARGE_ACCOUNT_PENDING; PRESETS_READABLE; FAILED]
  | BACKUP_PENDING => [BACKUP_COMPLETE; FAILED]
  | BACKUP_COMPLETE => [SSH_STATUS_PENDING; PRESENTATION_PREPARED; ORIGINAL_PREPARED; ROUTING_BACKUP_COMPLETE; FAILED]
  | SSH_STATUS_PENDING => [SSH_ALREADY_ACTIVE; SSH_ACTIVATION_PENDING; FAILED]
  | SSH_ALREADY_ACTIVE => [SSH_PERSISTENCE_PENDING; FAILED]
  | SSH_ACTIVATION_PENDING => [SSH_TEMPORARY_ACTIVE; FAILED]
  | SSH_TEMPORARY_ACTIVE => [SSH_PERSISTENCE_PENDING; FAILED]
  | SSH_PERSISTENCE_PENDING => [SSH_REBOOT_PENDING; FAILED]
  | SSH_REBOOT_PENDING => [SSH_VERIFIED; FAILED]
  | SSH_VERIFIED => [PRESENTATION_PREPARED; ROUTING_BACKUP_COMPLETE; FAILED]
  | ROUTING_BACKUP_COMPLETE => [BASSWIESN_ROUTE_PENDING; FAILED]
  | BASSWIESN_ROUTE_PENDING => [BASSWIESN_ROUTE_ACTIVE; FAILED]
  | BASSWIESN_ROUTE_ACTIVE => [PRESENTATION_CONFIGURED; RADIO_REBOOT_PENDING; FAILED]
  | RADIO_REBOOT_PENDING => [RADIO_REBOOTED; FAILED]
  | RADIO_REBOOTED => [RADIO_RECONNECT_PENDING; FAILED]
  | RADIO_RECONNECT_PENDING => [RADIO_REACHABLE; FAILED]
  | RADIO_REACHABLE => [ORIGINAL_VERIFIED; PRESENTATION_VERIFIED; MARGE_ACCOUNT_PENDING; PRESETS_READABLE; FAILED]
  | MARGE_ACCOUNT_PENDING => [MARGE_ACCOUNT_ACTIVE; FAILED]
  | MARGE_ACCOUNT_ACTIVE => [PRESETS_READABLE; FAILED]
  | PRESETS_READABLE => [PLAYBACK_READY; VERIFIED; FAILED]
  | PLAYBACK_READY => [VERIFIED; FAILED]
  | VERIFIED => [ROLLBACK_PENDING]
  | FAILED => [RECOVERY_PENDING; ROLLBACK_PENDING]
  | RECOVERY_PENDING => [SSH_STATUS_PENDING; ROLLBACK_PENDING; FAILED]
  | ROLLBACK_PENDING => [ROLLED_BACK; FAILED]
  | ROLLED_BACK => []
  end.

(** [sorted(..., key=lambda item: item.value)]: a stable insertion sort. *)
Fixpoint insert_state (s : SetupState) (l : list SetupState) : list SetupState :=
  match l with
  | [] => [s]
  | t :: r => match String.compare (value s) (value t) with Gt => t :: insert_state s r | _ => s :: l end
  end.

Definition next_states (s : SetupState) : list SetupState := fold_right insert_state [] (_ALLOWED_TRANSITIONS s).
Definition allowed_next_states (name : string) : option (list SetupState) := next_states <$> setup_state name.

Definition transition (current target : string) : res string SetupState :=
  match setup_state current with
  | None => Err (current ++ " is not a valid SetupState")%string
  | Some c =>
      match setup_state target with
      | None => Err (target ++ " is not a valid SetupState")%string
      | Some t =>
          if bool_decide (t = c) then Ok t
          else if negb (bool_decide (t ∈ _ALLOWED_TRANSITIONS c))
          then Err ("invalid setup transition " ++ value c ++ " -> " ++ value t)%string
          else Ok t
      end
  end.

Record state_row := { sr_state : string; allowed_next : list string; terminal : bool }.
Definition state_spec : list state_row :=
  map (fun m => {| sr_state := value m.1; allowed_next := map value (next_states m.1);
                   terminal := bool_decide (m.1 ∈ TERMINAL_STATES) |}) MEMBERS.

Inductive SshStatus : Type :=
| SSH_UNKNOWN | SSH_DISABLED | SSH_TEMPORARILY_ENABLED | SSH_PERSISTENTLY_ENABLED | SSH_REACHABLE
| SSH_AUTH_FAILED | SSH_SERVICE_FAILED | SSH_REBOOT_VERIFICATION_PENDING | SSH_VERIFIED_AFTER_REBOOT.

Module Phase.
Inductive MultiDeviceSetupPhase : Type :=
| QUEUED | PREFLIGHT | BACKUP | ROUTING | ACCOUNT | REBOOT | RECONNECT | READBACK
| VERIFIED | FAILED | ROLLBACK | COMPLETE.
End Phase.

Definition phase_of (s : SetupState) : Phase.MultiDeviceSetupPhase :=
  if bool_decide (s = UNKNOWN) then Phase.QUEUED
  else if bool_decide (s ∈ [DISCOVERED; IDENTIFIED; PRESENTATION_PREFLIGHT; SSH_STATUS_PENDING;
      SSH_ALREADY_ACTIVE; SSH_ACTIVATION_PENDING; SSH_TEMPORARY_ACTIVE; SSH_PERSISTENCE_PENDING;
      SSH_REBOOT_PENDING; SSH_VERIFIED]) then Phase.PREFLIGHT
  else if bool_decide (s ∈ [BACKUP_PENDING; BACKUP_COMPLETE; PRESENTATION_PREPARED]) then Phase.BACKUP
  else if bool_decide (s ∈ [ROUTING_BACKUP_COMPLETE; BASSWIESN_ROUTE_PENDING; BASSWIESN_ROUTE_ACTIVE;
      PRESENTATION_CONFIGURED]) then Phase.ROUTING
  else if bool_decide (s ∈ [RADIO_REBOOT_PENDING; RADIO_REBOOTED]) then Phase.REBOOT
  else if bool_decide (s ∈ [RADIO_RECONNECT_PENDING; RADIO_REACHABLE]) then Phase.RECONNECT
  else if bool_decide (s ∈ [MARGE_ACCOUNT_PENDING; MARGE_ACCOUNT_ACTIVE]) then Phase.ACCOUNT
  else if bool_decide (s ∈ [PRESETS_READABLE; PLAYBACK_READY; PRESENTATION_VERIFIED]) then Phase.READBACK
  else if bool_decide (s = VERIFIED) then Phase.VERIFIED
  else if bool_decide (s = FAILED) then Phase.FAILED
  else Phase.ROLLBACK.
Definition multi_device_phase (name : string) : option Phase.MultiDeviceSetupPhase := phase_of <$> setup_state name.

(** ** lease.py *)
Inductive lease_error : Type := ValueError | OverflowError | DatabaseError | SetupLeaseLost.

Record lease := { owner_id : string; job_id : string; expires_at : option Z; updated_at : Z }.

(** The row of key ["global"], when there is one. *)
Definition L := ST (option lease) lease_error.

Definition held_by (owner job : string) (r : lease) : bool :=
  bool_decide (owner_id r = owner) && bool_decide (job_id r = job).
Definition after (now : Z) (r : lease) : bool := match expires_at r with Some e => now <? e | None => false end.
Definition over (now : Z) (r : lease) : bool := match expires_at r with Some e => e <=? now | None => false end.

(** [now + timedelta(seconds=max(10, ttl_seconds))]. *)
Definition expiry (now ttl : Z) : option Z := dt_us <$> add_seconds (utc now) (Z.max 10 ttl).

(** The statement fails, or the row is read and maybe replaced. *)
Definition sql {A} (alive : bool) (f : option lease -> A * option lease) : L A :=
  fun row => if alive then let '(a, row') := f row in (Ok a, row') else (Err DatabaseError, row).

Definition acquire (alive : bool) (owner job : string) (ttl now : Z) : L bool :=
  if empty_str owner || empty_str job then raise ValueError
  else match expiry now ttl with
  | None => raise OverflowError
  | Some e => sql alive (fun row =>
      (* insert ... on conflict do nothing *)
      let r := default {| owner_id := EmptyString; job_id := EmptyString; expires_at := None; updated_at := now |} row in
      if held_by EmptyString EmptyString r || over now r || (held_by owner job r && after now r)
      then (true, Some {| owner_id := owner; job_id := job; expires_at := Some e; updated_at := now |})
      else (false, row))                 (* not committed *)
  end.

Definition renew (alive : bool) (owner job : string) (ttl now : Z) : L bool :=
  match expiry now ttl with
  | None => raise OverflowError
  | Some e => sql alive (fun row =>
      match row with
      | Some r => if held_by owner job r && after now r
                  then (true, Some {| owner_id := owner; job_id := job; expires_at := Some e; updated_at := now |})
                  else (false, row)
      | None => (false, row)
      end)
  end.

Definition release (alive : bool) (owner job : string) (now : Z) : L unit :=
  sql alive (fun row =>
    match row with
    | Some r => if held_by owner job r
                then (tt, Some {| owner_id := EmptyString; job_id := EmptyString; expires_at := None; updated_at := now |})
                else (tt, row)
    | None => (tt, row)
    end).

Record watch := { w_owner : string; w_job : string; lost : bool }.
Definition set_lost (b : bool) (w : watch) : watch := {| w_owner := w_owner w; w_job := w_job w; lost := b |}.

(** The [select] of [checkpoint]; any exception counts as not owned. *)
Definition owned (alive : bool) (now : Z) (w : watch) (row : option lease) : bool :=
  alive && match row with Some r => held_by (w_owner w) (w_job w) r && after now r | None => false end.

Definition checkpoint (alive : bool) (now : Z) (row : option lease) (w : watch) : res lease_error unit * watch :=
  if lost w || negb (owned alive now w row) then (Err SetupLeaseLost, set_lost true w) else (Ok tt, w).

(** One round of [heartbeat] after its sleep. *)
Definition HEARTBEAT_TTL : Z := 90.
Definition beat (alive : bool) (now : Z) (row : option lease) (w : watch) : option lease * watch :=
  match renew alive (w_owner w) (w_job w) HEARTBEAT_TTL now row with
  | (Ok b, row') => (row', set_lost (negb b) w)
  | (Err _, row') => (row', set_lost true w)
  end.

(** ** audio_safety.py *)
Section AudioSafety.
Context (str_of : json -> string) (isoformat : Z -> string).

Record AudioSafetyState := {
  locked : bool; as_reason : string; as_source : string; observed_at : string; recovery : string;
  volume_limit : Z }.

Definition unlocked : AudioSafetyState :=
  {| locked := false; as_reason := EmptyString; as_source := "none"; observed_at := EmptyString;
     recovery := EmptyString; volume_limit := 1 |}.

(** A row of [RuntimeState] and one of [SetupRebuildDeviceState], newest first. *)
Record state_text := { st_value : string; st_updated : option Z }.
Record evidence_row := { evidence_json : string; last_error : string; ev_updated : option Z }.

Definition _key (device : string) : string :=
  ("device:" ++ py_upper (py_strip device) ++ ":audio_safety")%string.

(** [_payload]: the object of the text, or an empty one. *)
Definition _payload (text : string) : list (string * json) :=
  match loads_text dict_pairs (or_str text "{}") with Some (JObj kvs) => kvs | _ => [] end.

(** [value.get(k) or default] and [str(...)]. *)
Definition field (k : string) (kvs : list (string * json)) (d : string) : string :=
  match get k kvs with Some v => if truthy v then str_of v else d | None => d end.

Definition stamp (t : option Z) : string := match t with Some t => isoformat t | None => EmptyString end.
Definition RECHECK : string := "STOP/STANDBY und Lautstärke-1-Readback erneut bestätigen".

Fixpoint legacy_lock (rows : list evidence_row) : AudioSafetyState :=
  match rows with
  | [] => unlocked
  | row :: rows =>
      let evidence := _payload (evidence_json row) in
      if match get "audio_test_locked" evidence with Some v => truthy v | None => false end
      then {| locked := true;
              as_reason := field "audio_lock_reason" evidence
                             (or_str (last_error row) "Früherer Audio-Sicherheitstest wurde gesperrt.");
              as_source := "legacy_setup_evidence"; observed_at := stamp (ev_updated row);
              recovery := field "audio_lock_recovery" evidence RECHECK; volume_limit := 1 |}
      else legacy_lock rows
  end.

Definition load_audio_safety (row : option state_text) (rows : list evidence_row) : AudioSafetyState :=
  match row with
  | Some r =>
      match _payload (st_value r) with
      | [] => {| locked := true; as_reason := "Persistenter Audio-Sicherheitszustand ist unlesbar.";
                 as_source := "runtime_state_malformed"; observed_at := stamp (st_updated r);
                 recovery := RECHECK; volume_limit := 1 |}
      | kvs => {| locked := match get "locked" kvs with Some v => truthy v | None => true end;
                  as_reason := field "reason" kvs EmptyString; as_source := field "source" kvs "runtime_state";
                  observed_at := field "observed_at" kvs EmptyString;
                  recovery := field "recovery" kvs EmptyString; volume_limit := 1 |}
      end
  | None => legacy_lock rows
  end.

End AudioSafety.

(** ** Lemmas on the state machine *)
Lemma setup_state_value s : setup_state (value s) = Some s.
Proof. by destruct s. Qed.

Lemma insert_state_elem s l t : t ∈ insert_state s l <-> t = s \/ t ∈ l.
Proof.
  induction l as [|u l IH]; cbn; [by rewrite list_elem_of_singleton, elem_of_nil; intuition|].
  destruct (String.compare _ _); rewrite !elem_of_cons; [done|done|]. rewrite IH. tauto.
Qed.

Lemma next_states_elem s t : t ∈ next_states s <-> t ∈ _ALLOWED_TRANSITIONS s.
Proof.
  unfold next_states. induction (_ALLOWED_TRANSITIONS s) as [|u l IH]; cbn; [done|].
  by rewrite insert_state_elem, elem_of_cons, IH.
Qed.

Lemma transition_iff s t u :
  transition (value s) (value t) = Ok u <-> u = t /\ (t = s \/ t ∈ next_states s).
Proof.
  unfold transition. rewrite !setup_state_value, next_states_elem. case_bool_decide as E1.
  - split; [intros [= <-]; auto|by intros [-> _]].
  - case_bool_decide as E2; cbn; split; [intros [= <-]; auto|by intros [-> _]|done|tauto].
Qed.

(** A change of the machine: an accepted transition to another state. *)
Definition moves (s t : SetupState) : Prop := s <> t /\ transition (value s) (value t) = Ok t.

Lemma moves_iff s t : moves s t <-> s <> t /\ t ∈ _ALLOWED_TRANSITIONS s.
Proof. unfold moves. rewrite transition_iff, next_states_elem. naive_solver. Qed.

(** Histories: the states of a run, the first one first. *)
Inductive history : SetupState -> list SetupState -> SetupState -> Prop :=
| h_one s : history s [s] s
| h_step s t l u : moves s t -> history t l u -> history s (s :: l) u.

Definition ALL : list SetupState := map fst MEMBERS.
Lemma all_states s : s ∈ ALL.
Proof. destruct s; apply (bool_decide_unpack _); vm_compute; exact I. Qed.

(** Sets closed under the transitions that avoid a gate. *)
Definition closed_but (gates S : list SetupState) : bool :=
  forallb (fun s => forallb (fun t => bool_decide (t ∈ gates) || bool_decide (t ∈ S)) (_ALLOWED_TRANSITIONS s)) S.

Lemma closed_but_history gates S s l u : closed_but gates S = true -> s ∈ S -> history s l u ->
  u ∈ S \/ Exists (fun g => g ∈ gates) l.
Proof.
  intros Hc Hs H. induction H as [s|s t l u Hm H IH]; [by left|].
  apply moves_iff in Hm as [_ Hm]. unfold closed_but in Hc. rewrite forallb_forall in Hc.
  pose proof (Hc s) as Hcs. rewrite forallb_forall in Hcs.
  assert (bool_decide (t ∈ gates) || bool_decide (t ∈ S) = true) as Ht.
  { apply Hcs; by apply list_elem_of_In. }
  apply orb_true_iff in Ht as [Ht|Ht]; apply bool_decide_eq_true in Ht.
  - right. apply Exists_cons_tl. destruct H; by apply Exists_cons_hd.
  - destruct (IH Ht) as [?|?]; [by left|right; by apply Exists_cons_tl].
Qed.

(** What can be reached from [s] without a gate, by rounds of the table. *)
Definition grow (gates S : list SetupState) : list SetupState :=
  filter (fun t => t ∉ gates /\ (t ∈ S \/ Exists (fun s => t ∈ _ALLOWED_TRANSITIONS s) S)) ALL.
Definition reach_without (gates S : list SetupState) : list SetupState := Nat.iter (length ALL) (grow gates) S.

Definition gated (gates starts targets : list SetupState) : bool :=
  let S := reach_without gates starts in
  closed_but gates S && forallb (fun s => bool_decide (s ∈ S)) starts
  && forallb (fun t => negb (bool_decide (t ∈ S))) targets.

Lemma gated_history gates starts targets s l u : gated gates starts targets = true ->
  s ∈ starts -> u ∈ targets -> history s l u -> Exists (fun g => g ∈ gates) l.
Proof.
  unfold gated. rewrite !andb_true_iff, !forallb_forall. intros [[Hc Hs] Ht] Hin Hu H.
  assert (s ∈ reach_without gates starts) as Hs'.
  { apply list_elem_of_In in Hin. apply Hs in Hin. by apply bool_decide_eq_true in Hin. }
  destruct (closed_but_history _ _ _ _ _ Hc Hs' H) as [Hu'|?]; [|done]. exfalso.
  apply list_elem_of_In in Hu. apply Ht, negb_true_iff, bool_decide_eq_false in Hu. done.
Qed.

Definition moveb (s t : SetupState) : bool := negb (bool_decide (s = t)) && bool_decide (t ∈ _ALLOWED_TRANSITIONS s).
(** A shortest way to [ROLLED_BACK], as a rank that decreases along some transition. *)
Definition rollback_rank (s : SetupState) : nat :=
  match s with ROLLED_BACK => 0 | ROLLBACK_PENDING => 1 | VERIFIED | FAILED | RECOVERY_PENDING => 2 | _ => 3 end.

Lemma rollback_descends s : rollback_rank s <> 0%nat ->
  exists t, moves s t /\ (rollback_rank t < rollback_rank s)%nat.
Proof.
  intros H. exists (match s with ROLLBACK_PENDING => ROLLED_BACK | VERIFIED | FAILED | RECOVERY_PENDING => ROLLBACK_PENDING | _ => FAILED end).
  split; [|destruct s; cbn in *; lia]. apply moves_iff.
  assert (moveb s (match s with ROLLBACK_PENDING => ROLLED_BACK | VERIFIED | FAILED | RECOVERY_PENDING => ROLLBACK_PENDING | _ => FAILED end) = true) as E.
  { destruct s; try (vm_compute; reflexivity); cbn in H; done. }
  unfold moveb in E. bdestr. done.
Qed.

(** What a run of the setup has behind it.  From UNKNOWN, and again after a failure, a
    recovery or a rollback: no route is pending or active without a routing backup in
    that run, no radio is rebooted without an active route or a configured original
    server, and VERIFIED is reached only through a reboot, a reconnection and a
    reachable radio.  Every state can be rolled back, and only ROLLED_BACK is final. *)
Theorem setup_needs_its_gates :
  (forall s l u, s ∈ [UNKNOWN; FAILED; VERIFIED; RECOVERY_PENDING; ROLLBACK_PENDING] -> history s l u ->
     (u ∈ [BASSWIESN_ROUTE_PENDING; BASSWIESN_ROUTE_ACTIVE] -> ROUTING_BACKUP_COMPLETE ∈ l) /\
     (u ∈ [RADIO_REBOOT_PENDING; RADIO_REBOOTED] -> BASSWIESN_ROUTE_ACTIVE ∈ l \/ ORIGINAL_CONFIGURED ∈ l) /\
     (u = VERIFIED -> s <> VERIFIED ->
        RADIO_REBOOTED ∈ l /\ RADIO_RECONNECT_PENDING ∈ l /\ RADIO_REACHABLE ∈ l)) /\
  (forall s, exists l, history s l ROLLED_BACK) /\
  (forall s, (forall t, ~ moves s t) <-> s = ROLLED_BACK).
Proof.
  assert (forall gs ss ts s l u, gated gs ss ts = true -> s ∈ ss -> u ∈ ts -> history s l u ->
            exists g, g ∈ gs /\ g ∈ l) as Hg.
  { intros gs ss ts s l u G Hs Hu H. apply (gated_history _ _ _ _ _ _ G Hs Hu) in H.
    apply list.Exists_exists in H as (g & ? & ?). by exists g. }
  assert (forall g ss ts s l u, gated [g] ss ts = true -> s ∈ ss -> u ∈ ts -> history s l u -> g ∈ l) as Hg1.
  { intros g ss ts s l u G Hs Hu H. destruct (Hg _ _ _ _ _ _ G Hs Hu H) as (g' & Hin & Hl).
    apply list_elem_of_singleton in Hin as ->. done. }
  set (starts := [UNKNOWN; FAILED; VERIFIED; RECOVERY_PENDING; ROLLBACK_PENDING]).
  set (restarts := [UNKNOWN; FAILED; RECOVERY_PENDING; ROLLBACK_PENDING]).
  split; [|split].
  - intros s l u Hs H. split; [|split].
    + intros Hu. by apply (Hg1 ROUTING_BACKUP_COMPLETE _ _ s l u (eq_refl : gated [ROUTING_BACKUP_COMPLETE] starts [BASSWIESN_ROUTE_PENDING; BASSWIESN_ROUTE_ACTIVE] = true) Hs Hu).
    + intros Hu. destruct (Hg _ _ _ s l u (eq_refl : gated [BASSWIESN_ROUTE_ACTIVE; ORIGINAL_CONFIGURED] starts [RADIO_REBOOT_PENDING; RADIO_REBOOTED] = true) Hs Hu H) as (g & Hin & Hl).
      apply elem_of_cons in Hin as [-> |Hin]; [by left|]. apply list_elem_of_singleton in Hin as ->. by right.
    + intros -> Hn. assert (s ∈ restarts) as Hs'.
      { revert Hs. unfold starts, restarts. rewrite !elem_of_cons. tauto. }
      assert (VERIFIED ∈ [VERIFIED]) as Hv by left.
      split; [|split]; [apply (Hg1 RADIO_REBOOTED _ _ s l VERIFIED (eq_refl : gated [RADIO_REBOOTED] restarts [VERIFIED] = true) Hs' Hv H)
        |apply (Hg1 RADIO_RECONNECT_PENDING _ _ s l VERIFIED (eq_refl : gated [RADIO_RECONNECT_PENDING] restarts [VERIFIED] = true) Hs' Hv H)
        |apply (Hg1 RADIO_REACHABLE _ _ s l VERIFIED (eq_refl : gated [RADIO_REACHABLE] restarts [VERIFIED] = true) Hs' Hv H)].
  - intros s. remember (rollback_rank s) as n eqn:En. revert s En. induction (lt_wf n) as [n _ IH]. intros s ->.
    destruct (decide (rollback_rank s = 0%nat)) as [E|E].
    + assert (s = ROLLED_BACK) as -> by (by destruct s). exists [ROLLED_BACK]. constructor.
    + destruct (rollback_descends s E) as (t & Hm & Hlt). destruct (IH _ Hlt t eq_refl) as (l & Hl).
      exists (s :: l). by econstructor.
  - intros s. split.
    + intros Hn. destruct (decide (rollback_rank s = 0%nat)) as [E|E]; [by destruct s|].
      destruct (rollback_descends s E) as (t & Hm & _). by destruct (Hn t).
    + intros -> t [_ Hm]%moves_iff. by apply elem_of_nil in Hm.
Qed.

(** A setup that is restoring the original server is shown as rolling back. *)
Example original_setup_shows_rollback :
  map phase_of [ORIGINAL_PREPARED; ORIGINAL_CONFIGURED; ORIGINAL_VERIFIED] = [Phase.ROLLBACK; Phase.ROLLBACK; Phase.ROLLBACK] /\
  next_states ORIGINAL_VERIFIED = [FAILED; VERIFIED].
Proof. by split. Qed.

(** Two of the terminal states have transitions. *)
Example terminal_states_move :
  map (fun s => next_states s) TERMINAL_STATES = [[ROLLBACK_PENDING]; [RECOVERY_PENDING; ROLLBACK_PENDING]; []].
Proof. reflexivity. Qed.

(** ** Lemmas on the lease *)
Inductive lease_op : Type :=
| Acquire (alive : bool) (owner job : string) (ttl now : Z)
| Renew (alive : bool) (owner job : string) (ttl now : Z)
| Release (alive : bool) (owner job : string) (now : Z).

Definition lease_call (o : lease_op) (row : option lease) : bool * option lease :=
  match o with
  | Acquire a ow jo ttl now => let '(r, row') := acquire a ow jo ttl now row in
                               (match r with Ok b => b | Err _ => false end, row')
  | Renew a ow jo ttl now => let '(r, row') := renew a ow jo ttl now row in
                             (match r with Ok b => b | Err _ => false end, row')
  | Release a ow jo now => let '(r, row') := release a ow jo now row in (is_ok r, row')
  end.

Fixpoint lease_run (os : list lease_op) (row : option lease) : list (lease_op * bool) * option lease :=
  match os with
  | [] => ([], row)
  | o :: os => let '(b, row1) := lease_call o row in let '(l, row2) := lease_run os row1 in ((o, b) :: l, row2)
  end.

(** The holder of the lease and the end of its term, as the answers of the calls tell. *)
Definition holder : Type := option (string * string * Z).
Definition holder_after (h : holder) (e : lease_op * bool) : holder :=
  match e with
  | (Acquire _ ow jo ttl now, true) | (Renew _ ow jo ttl now, true) =>
      Some (ow, jo, now + Z.max 10 ttl * SECOND)
  | (Release _ ow jo _, true) =>
      match h with Some (ow', jo', e) => if bool_decide (ow = ow' /\ jo = jo') then None else h | None => None end
  | _ => h
  end.

Definition row_holds (row : option lease) (h : holder) : Prop :=
  match row with
  | None => h = None
  | Some r => match h with
              | Some (ow, jo, e) => owner_id r = ow /\ job_id r = jo /\ expires_at r = Some e /\ ow <> EmptyString
              | None => owner_id r = EmptyString /\ job_id r = EmptyString /\ expires_at r = None
              end
  end.

Lemma expiry_Some now ttl e : expiry now ttl = Some e -> e = now + Z.max 10 ttl * SECOND.
Proof. unfold expiry, add_seconds. cbn. destruct (_ && _); [|done]. by intros [= <-]. Qed.

Lemma held_by_iff ow jo r : held_by ow jo r = true <-> owner_id r = ow /\ job_id r = jo.
Proof. unfold held_by. by rewrite andb_true_iff, !bool_decide_eq_true. Qed.

Lemma lease_call_holds o row h : row_holds row h ->
  let '(b, row') := lease_call o row in row_holds row' (holder_after h (o, b)).
Proof.
  intros H. destruct o as [a ow jo ttl now|a ow jo ttl now|a ow jo now]; cbn.
  - unfold acquire. destruct (empty_str ow || empty_str jo) eqn:Ee; [done|]. destruct (expiry now ttl) as [e|] eqn:Ex; [|done].
    unfold sql. destruct a; [|done]. match goal with |- context [if ?c then _ else _] => destruct c end; [|done]. cbn. apply expiry_Some in Ex as ->.
    unfold empty_str in Ee. bdestr. done.
  - unfold renew. destruct (expiry now ttl) as [e|] eqn:Ex; [|done]. unfold sql. destruct a; [|done].
    destruct row as [r|]; [|done]. destruct (held_by ow jo r && after now r) eqn:E; [|done]. cbn.
    apply expiry_Some in Ex as ->. apply andb_true_iff in E as [E1 E2]. apply held_by_iff in E1 as [<- <-].
    cbn in H. destruct h as [[[ow' jo'] e']|]; [naive_solver|]. destruct H as (_ & _ & He).
    unfold after in E2. by rewrite He in E2.
  - unfold release, sql. destruct a; [|done]. destruct row as [r|]; cbn in *; [|by subst].
    destruct (held_by ow jo r) eqn:E; cbn.
    + apply held_by_iff in E as [<- <-]. destruct h as [[[ow' jo'] e']|]; [|done].
      destruct H as (-> & -> & _). by rewrite bool_decide_true.
    + destruct h as [[[ow' jo'] e']|]; [|done]. rewrite bool_decide_false; [done|]. intros [-> ->].
      destruct H as (H1 & H2 & _). apply Bool.not_true_iff_false in E. apply E. by apply held_by_iff.
Qed.

(** Whoever is given the lease while another holds it comes after its term. *)
Lemma given_after_term a ow jo ttl now row ow' jo' e : row_holds row (Some (ow', jo', e)) ->
  (lease_call (Acquire a ow jo ttl now) row).1 = true -> (ow, jo) = (ow', jo') \/ e <= now.
Proof.
  intros H. cbn. unfold acquire. destruct (_ || _); [done|]. destruct (expiry now ttl) as [x|]; [|done].
  unfold sql. destruct a; [|done]. destruct row as [r|]; [|done]. destruct H as (H1 & H2 & H3 & H4).
  cbn. match goal with |- context [if ?c then _ else _] => destruct c eqn:E end; [|done]. intros _. apply orb_true_iff in E as [E|E]; [apply orb_true_iff in E as [E|E]|].
  - apply held_by_iff in E as [E _]. congruence.
  - unfold over in E. rewrite H3 in E. right. by bdestr.
  - apply andb_true_iff in E as [E _]. apply held_by_iff in E as [E1 E2]. left. congruence.
Qed.

Lemma lease_run_holds os row h : row_holds row h ->
  row_holds (lease_run os row).2 (fold_left holder_after (lease_run os row).1 h).
Proof.
  revert row h. induction os as [|o os IH]; intros row h H; [done|]. cbn [lease_run].
  pose proof (lease_call_holds o row h H) as H1. destruct (lease_call o row) as [b row1].
  specialize (IH row1 _ H1). by destruct (lease_run os row1).
Qed.

(** C33. One coordinator at a time.  Whatever processes acquire, renew and release in any
    order, with any clocks and failing statements: when the lease is given to one
    coordinator while the answers so far left it with another, the other's term -
    counted from its last granted acquire or renewal - is over by the new one's clock;
    and while a watch's checkpoint passes, no other coordinator's does at any clock, and
    none is given the lease by a clock that is not ahead. *)
Theorem lease_exclusive os :
  let '(log, row) := lease_run os None in
  let h := fold_left holder_after log None in
  (forall alive ow jo ttl now ow' jo' e,
     h = Some (ow', jo', e) -> (ow, jo) <> (ow', jo') ->
     (lease_call (Acquire alive ow jo ttl now) row).1 = true -> e <= now) /\
  (forall alive now w, (checkpoint alive now row w).1 = Ok tt ->
     (exists e, h = Some (w_owner w, w_job w, e) /\ now < e) /\
     (forall alive' now' w', (w_owner w', w_job w') <> (w_owner w, w_job w) ->
        (checkpoint alive' now' row w').1 = Err SetupLeaseLost) /\
     (forall alive' ow jo ttl now', (ow, jo) <> (w_owner w, w_job w) -> now' <= now ->
        (lease_call (Acquire alive' ow jo ttl now') row).1 = false)).
Proof.
  pose proof (lease_run_holds os None None eq_refl) as H. destruct (lease_run os None) as [log row]. cbn [fst snd] in H.
  set (h := fold_left holder_after log None) in *. cbn zeta. split.
  - intros alive ow jo ttl now ow' jo' e -> Hne Ha. destruct (given_after_term _ _ _ _ _ _ _ _ _ H Ha) as [?|?]; [done|lia].
  - intros alive now w Hc. unfold checkpoint in Hc. destruct (lost w || _) eqn:E; [done|].
    apply orb_false_iff in E as [_ E]. apply negb_false_iff in E. unfold owned in E. apply andb_true_iff in E as [_ E].
    destruct row as [r|]; [|done]. apply andb_true_iff in E as [E1 E2]. apply held_by_iff in E1 as [O1 J1].
    unfold after in E2. destruct h as [[[ow' jo'] e]|]; [|by destruct H as (_ & _ & H); rewrite H in E2].
    pose proof H as (H1 & H2 & H3 & H4). rewrite H3 in E2. bdestr.
    split; [exists e; split; [congruence|done]|]. split.
    + intros alive' now' w' Hne. unfold checkpoint. destruct (lost w' || _) eqn:E'; [done|]. exfalso.
      apply orb_false_iff in E' as [_ E']. apply negb_false_iff in E'. unfold owned in E'. apply andb_true_iff in E' as [_ E'].
      apply andb_true_iff in E' as [E' _]. apply held_by_iff in E' as [O2 J2]. apply Hne. congruence.
    + intros alive' ow jo ttl now' Hne Hle. apply Bool.not_true_iff_false. intros Ha.
      destruct (given_after_term _ _ _ _ _ _ _ _ _ H Ha) as [[= -> ->]|?]; [|lia]. apply Hne. congruence.
Qed.

(** A watch that a checkpoint gave up is taken up again by its heartbeat. *)
Example lost_is_forgotten :
  let w := {| w_owner := "a"; w_job := "j"; lost := false |} in
  let row := (acquire true "a" "j" 90 0 None).2 in
  let '(r1, w1) := checkpoint false 1 row w in
  let '(row2, w2) := beat true 2 row w1 in
  let '(r3, w3) := checkpoint true 3 row2 w2 in
  r1 = Err SetupLeaseLost /\ lost w1 = true /\ lost w2 = false /\ r3 = Ok tt.
Proof. vm_compute. auto. Qed.

(** ** Witnesses *)
Definition demo_history : list SetupState :=
  [UNKNOWN; DISCOVERED; IDENTIFIED; BACKUP_PENDING; BACKUP_COMPLETE; ROUTING_BACKUP_COMPLETE;
   BASSWIESN_ROUTE_PENDING; BASSWIESN_ROUTE_ACTIVE; RADIO_REBOOT_PENDING; RADIO_REBOOTED;
   RADIO_RECONNECT_PENDING; RADIO_REACHABLE; PRESETS_READABLE; VERIFIED].

Fixpoint movesb (l : list SetupState) : bool :=
  match l with s :: (t :: _) as r => moveb s t && movesb r | _ => true end.

Lemma history_of s l u : movesb (s :: l) = true -> list.last (s :: l) = Some u -> history s (s :: l) u.
Proof.
  revert s. induction l as [|t l IH]; intros s; cbn -[moveb]; [intros _ [= ->]; constructor|].
  intros [Hm Hl]%andb_true_iff Hu. apply (h_step s t); [|by apply IH].
  apply moves_iff. unfold moveb in Hm. by bdestr.
Qed.

Lemma setup_needs_its_gates_witness :
  history UNKNOWN demo_history VERIFIED /\
  RADIO_REBOOTED ∈ demo_history /\ RADIO_RECONNECT_PENDING ∈ demo_history /\ RADIO_REACHABLE ∈ demo_history.
Proof.
  assert (history UNKNOWN demo_history VERIFIED) as H by (apply history_of; reflexivity).
  split; [exact H|].
  apply (proj2 (proj2 (proj1 setup_needs_its_gates UNKNOWN demo_history VERIFIED ltac:(left) H)) eq_refl).
  discriminate.
Defined.

Lemma lease_exclusive_witness :
  let row := (lease_run [Acquire true "a" "j" 90 1000000] None).2 in
  (checkpoint true 2000000 row {| w_owner := "a"; w_job := "j"; lost := false |}).1 = Ok tt /\
  (lease_call (Acquire true "b" "k" 90 2000000) row).1 = false.
Proof.
  cbn zeta. split; [vm_compute; reflexivity|].
  pose proof (lease_exclusive [Acquire true "a" "j" 90 1000000]) as H.
  refine (proj2 (proj2 (proj2 H true 2000000 {| w_owner := "a"; w_job := "j"; lost := false |} _)) true "b" "k" 90 2000000 _ _).
  - vm_compute. reflexivity.
  - discriminate.
  - reflexivity.
Defined.

(** ** The audio lock fails closed: it is open only by an explicit record, or without any
    record when no setup evidence locked it. *)
Theorem audio_lock_fails_closed str_of isoformat row rows :
  locked (load_audio_safety str_of isoformat row rows) = false ->
  match row with
  | Some r => exists v, get "locked" (_payload (st_value r)) = Some v /\ truthy v = false
  | None => Forall (fun e => match get "audio_test_locked" (_payload (evidence_json e)) with
                             | Some v => truthy v = false | None => True end) rows
  end.
Proof.
  unfold load_audio_safety. destruct row as [r|].
  - destruct (_payload (st_value r)) as [|kv kvs]; [done|]. cbn [locked].
    destruct (get "locked" (kv :: kvs)) as [v|]; [|done]. intros Hv. by exists v.
  - induction rows as [|e rows IH]; cbn [legacy_lock]; [constructor|].
    destruct (get "audio_test_locked" _) as [v|] eqn:E.
    + destruct (truthy v) eqn:Ev; [done|]. intros H. constructor; [by rewrite E|by apply IH].
    + intros H. constructor; [by rewrite E|by apply IH].
Qed.

End Setup.
