(* ===== verification/Presets.v ===== *)
(** * Preset mutations and firmware patches
    (app/services/preset_transactions.py, radio_patch_policy.py)

    [Mutation]: the durable state machine of one preset change and the tables it uses,
    as lists in insertion order.  [Patch]: which images a patch may be applied to, and
    [compose_image], which applies owned ranges to one known image.  Images are lists
    of bytes. *)
From Stdlib Require Import Ascii String Sorted.
From S2P Require Import Prelude PyNum PyStr Json Sha256.
#[local] Open Scope string_scope.
#[local] Open Scope list_scope.
#[local] Open Scope Z_scope.

Module Mutation.

(** ** preset_transactions.py *)
Definition ACTIVE_DELETE_STATES : list string := ["RADIO_WRITE"; "RADIO_READBACK"].
Definition TRANSITIONS : list (string * list string) :=
  [("PREPARED", ["RADIO_WRITE"; "FAILED"]);
   ("RADIO_WRITE", ["RADIO_READBACK"; "FAILED"; "RECONCILE"]);
   ("RADIO_READBACK", ["VERIFIED"; "FAILED"; "RECONCILE"]);
   ("VERIFIED", ["LOCAL_COMMIT"; "RECONCILE"]);
   ("FAILED", ["RECONCILE"; "ROLLBACK"]);
   ("RECONCILE", ["VERIFIED"; "ROLLBACK"; "FAILED"]);
   ("LOCAL_COMMIT", []); ("ROLLBACK", [])].

(** [TRANSITIONS.get(current, set())]. *)
Definition nexts (current : string) : list string :=
  default [] (snd <$> head (filter (fun t => t.1 = current) TRANSITIONS)).

Section Tables.
Context (float_repr : Z -> list Z).

(** [json.dumps(value, ensure_ascii=False, sort_keys=True, separators=(",", ":"))]. *)
Definition escape_raw (b : Z) : list Z :=
  if (b <? 32) || (b =? 34) || (b =? 92) then escape b else [b].
Definition raw_string (s : string) : list Z := 34 :: List.concat (map escape_raw (bytes_of s)) ++ [34].
Fixpoint print_raw (v : json) : list Z :=
  match v with
  | JStr s => raw_string s
  | JList l => 91 :: commas (map print_raw l) ++ [93]
  | JObj kvs =>
      123 :: commas (map (fun kv => raw_string kv.1 ++ 58 :: kv.2)
                       (sort_keys (map (fun kv => (kv.1, print_raw kv.2)) kvs))) ++ [125]
  | v => print float_repr v
  end.
Definition canonical (v : json) : string := string_of (print_raw v).
Definition _digest (v : json) : string := sha256_hex (canonical v).

Record Preset := {
  p_device : string; p_button : Z; station_id : option Z; source : string; source_account : string;
  location : string; content_item_xml : string }.

Definition preset_snapshot (p : option Preset) : json :=
  match p with
  | None => JNull
  | Some p => JObj [("button", JNum (PInt (p_button p)));
      ("station_id", match station_id p with Some i => JNum (PInt i) | None => JNull end);
      ("source", JStr (source p)); ("source_account", JStr (source_account p));
      ("location", JStr (location p)); ("content_item_xml", JStr (content_item_xml p))]
  end.

Record PresetMutation := {
  mutation_id : string; device_id : string; button : Z; operation : string; state : string; revision : Z;
  expected_previous_sha256 : string; requested_sha256 : string; before_radio_sha256 : string;
  after_radio_sha256 : string; backup_ref : string; diverged : bool; error : string }.

Record ConfigBackup := { b_device : string; path : string; content : string }.

Record tables := { presets : list Preset; mutations : list PresetMutation; backups : list ConfigBackup }.

Definition intent_path (id : string) : string := ("preset-intent/" ++ id ++ ".json")%string.

(** [original_preset_intent]; [None] raises. *)
Definition original_preset_intent (t : tables) (row : PresetMutation) : option json :=
  match filter (fun b => b_device b = device_id row /\ path b = intent_path (mutation_id row)) (backups t) with
  | [b] => match loads_text dict_pairs (content b) with
           | Some (JObj kvs) => if bool_decide (_digest (JObj kvs) = requested_sha256 row) then Some (JObj kvs) else None
           | _ => None
           end
  | _ => None
  end.

(** [one_or_none()] raises on two rows. *)
Definition one_or_none {A} (l : list A) : res unit (option A) :=
  match l with [] => Ok None | [x] => Ok (Some x) | _ => Err tt end.

Definition of_slot (device : string) (b : Z) (m : PresetMutation) : bool :=
  bool_decide (device_id m = device) && (button m =? b).
(** [func.max(revision)] of the slot, or 0. *)
Definition latest_revision (device : string) (b : Z) (l : list PresetMutation) : Z :=
  fold_right Z.max 0 (map revision (List.filter (of_slot device b) l)).

(** [uuid]: the value of [uuid4().hex]. *)
Definition prepare_preset_mutation (uuid device : string) (b : Z) (op : string) (requested : json)
    (t : tables) : res unit (PresetMutation * tables) :=
  previous ← one_or_none (filter (fun p => p_device p = device /\ p_button p = b) (presets t));
  let row := {| mutation_id := uuid; device_id := device; button := b; operation := py_upper op;
                state := "PREPARED"; revision := latest_revision device b (mutations t) + 1;
                expected_previous_sha256 := _digest (preset_snapshot previous);
                requested_sha256 := _digest requested; before_radio_sha256 := EmptyString;
                after_radio_sha256 := EmptyString; backup_ref := EmptyString; diverged := false;
                error := EmptyString |} in
  Ok (row, {| presets := presets t; mutations := mutations t ++ [row];
              backups := backups t ++ [{| b_device := device; path := intent_path uuid;
                                          content := canonical requested |}] |}).

Definition keep {A} (o : option A) (d : A) : A := default d o.

(** [str(error)[:2048]] by characters of the stored text. *)
Fixpoint take_points (n : nat) (l : list Z) : list Z :=
  match n, l with S n, x :: l => x :: take_points n l | _, _ => [] end.
Definition clip (n : nat) (s : string) : string :=
  str_of_points (take_points n (default [] (utf8_decode (bytes_of s)))).

Definition transition_preset_mutation (m : PresetMutation) (target : string)
    (before_radio after_radio backup : option string) (err : option string) (div : option bool)
    : res string PresetMutation :=
  let target := py_upper target in
  let current := py_upper (state m) in
  if negb (bool_decide (target = current)) && negb (bool_decide (target ∈ nexts current))
  then Err ("invalid preset mutation transition " ++ current ++ " -> " ++ target)%string
  else Ok {| mutation_id := mutation_id m; device_id := device_id m; button := button m;
             operation := operation m; state := target; revision := revision m;
             expected_previous_sha256 := expected_previous_sha256 m; requested_sha256 := requested_sha256 m;
             before_radio_sha256 := keep (sha256_hex <$> before_radio) (before_radio_sha256 m);
             after_radio_sha256 := keep (sha256_hex <$> after_radio) (after_radio_sha256 m);
             backup_ref := keep backup (backup_ref m); diverged := keep div (diverged m);
             error := keep (clip 2048 <$> err) (error m) |}.

Definition active_delete_buttons (t : tables) (device : string) : list Z :=
  remove_dups (map button (filter (fun m => device_id m = device /\ operation m = "DELETE"
                                          /\ state m ∈ ACTIVE_DELETE_STATES) (mutations t))).
End Tables.

(** ** Lemmas *)
(** The revision of a new mutation is above every one of its slot, and preparing it
    changes nothing else. *)
Theorem revision_is_new float_repr uuid device b op requested t m t' :
  prepare_preset_mutation float_repr uuid device b op requested t = Ok (m, t') ->
  presets t' = presets t /\ mutations t' = mutations t ++ [m] /\ state m = "PREPARED" /\
  Forall (fun o => device_id o = device -> button o = b -> revision o < revision m) (mutations t).
Proof.
  unfold prepare_preset_mutation. intros (prev & _ & [= <- <-])%bind_Ok. cbn. repeat (split; [done|]).
  unfold latest_revision. induction (mutations t) as [|o l IH]; [constructor|]. cbn.
  destruct (of_slot device b o) eqn:E; cbn.
  - constructor; [intros _ _; lia|]. eapply List.Forall_impl; [|exact IH]. cbn. intros x Hx H1 H2. specialize (Hx H1 H2). lia.
  - constructor; [|done]. intros H1 H2. unfold of_slot in E. rewrite bool_decide_true in E by done. cbn in E. bdestr. lia.
Qed.

(** A mutation changed by one call; its states are those of the table. *)
Definition changes_to (m m' : PresetMutation) : Prop :=
  state m <> state m' /\ exists target a b c e d, transition_preset_mutation m target a b c e d = Ok m'.

Definition STATES : list string := TRANSITIONS.*1.

Lemma nexts_in_states s t : t ∈ nexts s -> t ∈ STATES.
Proof.
  unfold nexts. destruct (filter _ TRANSITIONS) as [|[k l] r] eqn:E; [by intros ?%elem_of_nil|]. cbn. intros Ht.
  assert ((k, l) ∈ TRANSITIONS) as Hin by (eapply list_elem_of_filter; rewrite E; left).
  apply (bool_decide_unpack _). revert Ht. revert Hin. unfold TRANSITIONS. rewrite !elem_of_cons.
  intros H Ht. repeat destruct H as [[= -> ->]|H]; try (by apply elem_of_nil in H);
    rewrite ?elem_of_cons in Ht; repeat destruct Ht as [-> |Ht]; try (by apply elem_of_nil in Ht);
    vm_compute; exact I.
Qed.

Lemma changes_to_next m m' : changes_to m m' -> py_upper (state m) = state m -> state m' ∈ nexts (state m).
Proof.
  intros (Hne & target & a & b & c & e & d & H) Hu. unfold transition_preset_mutation in H. rewrite Hu in H.
  destruct (negb _ && _) eqn:E; [done|]. injection H as <-. cbn in *. apply andb_false_iff in E as [E|E]; bdestr; [congruence|done].
Qed.

Lemma states_upper s : s ∈ STATES -> py_upper s = s.
Proof.
  unfold STATES, TRANSITIONS. cbn. rewrite !elem_of_cons. intros H.
  repeat destruct H as [-> |H]; try reflexivity. by apply elem_of_nil in H.
Qed.

(** The history of a mutation: its states, oldest first. *)
Inductive lived : PresetMutation -> list string -> PresetMutation -> Prop :=
| l_now m : lived m [state m] m
| l_step m m1 l m2 : changes_to m m1 -> lived m1 l m2 -> lived m (state m :: l) m2.

Lemma lived_states m l m' : lived m l m' -> state m ∈ STATES -> state m' ∈ STATES.
Proof.
  induction 1 as [|m m1 l m2 Hc Hl IH]; [done|]. intros Hs. apply IH.
  by eapply nexts_in_states, changes_to_next, states_upper.
Qed.

(** The predecessors of a state in the table. *)
Definition edge (s t : string) : Prop :=
  (t = "VERIFIED" -> s = "RADIO_READBACK" \/ s = "RECONCILE") /\ (t = "LOCAL_COMMIT" -> s = "VERIFIED").
#[local] Instance edge_dec s t : Decision (edge s t).
Proof. unfold edge. apply _. Defined.

Lemma gate_edges s t : s ∈ STATES -> t ∈ nexts s -> edge s t.
Proof.
  assert (forallb (fun s => forallb (fun t => bool_decide (edge s t)) (nexts s)) STATES = true) as H by (vm_compute; reflexivity).
  rewrite forallb_forall in H. intros Hs Ht. apply list_elem_of_In in Hs. specialize (H s Hs).
  rewrite forallb_forall in H. apply list_elem_of_In in Ht. specialize (H t Ht). by apply bool_decide_eq_true in H.
Qed.

(** A preset change is committed only after it was verified, verified only after a
    readback of the radio or a reconciliation, and a committed or rolled back mutation
    never changes again. *)
Theorem commit_needs_verification m l m' : state m = "PREPARED" -> lived m l m' ->
  (state m' = "LOCAL_COMMIT" -> "VERIFIED" ∈ l) /\
  (state m' = "VERIFIED" -> "RADIO_READBACK" ∈ l \/ "RECONCILE" ∈ l) /\
  (state m' ∈ ["LOCAL_COMMIT"; "ROLLBACK"] -> forall m2, ~ changes_to m' m2).
Proof.
  intros Hm Hl.
  assert (forall m, state m ∈ STATES -> lived m l m' ->
    (state m' = "LOCAL_COMMIT" -> state m <> "LOCAL_COMMIT" -> "VERIFIED" ∈ l) /\
    (state m' = "VERIFIED" -> state m <> "VERIFIED" -> "RADIO_READBACK" ∈ l \/ "RECONCILE" ∈ l)) as H.
  { clear. intros m Hs Hl. induction Hl as [m|m m1 l m2 Hc Hl IH]; [by split|].
    pose proof (changes_to_next _ _ Hc (states_upper _ Hs)) as Hn.
    destruct (IH (nexts_in_states _ _ Hn)) as [I1 I2]. destruct (gate_edges _ _ Hs Hn) as (G1 & G2).
    split; intros E Hne.
    - destruct (decide (state m1 = "LOCAL_COMMIT")) as [E1|E1]; [rewrite (G2 E1); left|right; by apply I1].
    - destruct (decide (state m1 = "VERIFIED")) as [E1|E1].
      + destruct (G1 E1) as [-> | ->]; [left|right]; left.
      + destruct (I2 E E1); [left|right]; by right. }
  assert (state m ∈ STATES) as Hs by (rewrite Hm; left).
  destruct (H m Hs Hl) as [H1 H2]. rewrite Hm in H1, H2.
  split; [intros E; by apply H1|]. split; [intros E; by apply H2|].
  intros Hin m2 Hc. pose proof (lived_states _ _ _ Hl Hs) as Hs'.
  pose proof (changes_to_next _ _ Hc (states_upper _ Hs')) as Hn.
  rewrite !elem_of_cons in Hin. destruct Hin as [E|[E|[]%elem_of_nil]]; rewrite E in Hn; by apply elem_of_nil in Hn.
Qed.

End Mutation.

Module Patch.

(** ** radio_patch_policy.py *)
Definition APP_STOCK := "8b2b7d19dff149894369b72e106bb8a75d79a68424b7aa2f53bd673a0fce831b".
Definition APP_LEGACY := "a7b7a1f2a792a0f2650d1bcb5c2281f1f7715907151604a1d4670ec6a58bf08d".
Definition APP_DISPLAY_PREVIOUS := "cac446a300bc1e7022a1dd16493b2c84c5c76072925a053ca05f93da58e13918".
Definition APP_COMBINED_PREVIOUS := "be33021e87b9374ed4bff0df992d368f42804c95766eca3b3364bf294c88e37f".
Definition APP_DISPLAY_ACCEPTED := "e1395d4e90de748af0af1960a40d883feeefe66b01f4f6e10f53c702120d6154".
Definition APP_COMBINED_ACCEPTED := "cec0697eaf37a981ce4fdd7514d73c9f595d886ebb0faf8396c14bc34c328086".
Definition APP_DISPLAY := "8e715d3b48f15101e0344a25a71ade58bab6d2c81735b50d71f5c9cdb9ac29fa".
Definition APP_COMBINED := "77300b927e615c68c18a766ab200f7ed8ded4e1b4cb5b92fec8bcad46a723690".
Definition ADOPTABLE_DISPLAY_IMAGES := [APP_DISPLAY; APP_COMBINED; APP_DISPLAY_ACCEPTED; APP_COMBINED_ACCEPTED].
Definition BATTERY_STOCK := "93b23730a3ac66f3331f63711d4a1d1d60704ccb03635b7ab8210c1f084f4fa0".
Definition BATTERY_PATCHED := "4abbb803a20323bf2938e686aa43fe969495e508f4fefe9c6099702f1e7e4e71".
Definition BATTERY_LEGACY := "25ed53ef0bb3a8647d6f858ccc4be20dc6292f988acb29059416d5c0591229c5".
Definition SPLASH_STOCK := "49d4432df819c91ac06a7180b4d814cffaa6380450b2206316040401719ee54b".
Definition SPLASH_LOGO := "47a142fa24a0d6cb4b13a138e03140a68bd01bd6ec323fbdb4c469fd063caf1c".
Definition FIRMWARE := "27.0.6.46330.5043500".
Definition PROFILES : list (string * string * string) :=
  [("SoundTouch 30", "mojo", "scm"); ("SoundTouch Portable", "taigan", "scm"); ("SoundTouch 20", "spotty", "sm2")].

Definition default_selection : list (string * string) :=
  [("display", "keep"); ("bootlogo", "keep"); ("battery", "keep"); ("battery_kind", "unknown")].

(** [firmware.split(" ", 1)[0]]. *)
Definition release (firmware : string) : string := default EmptyString (head (split_on " "%char firmware)).

Definition presentation_supported (model variant platform firmware : string) : bool :=
  bool_decide ((model, variant, platform) ∈ PROFILES) && bool_decide (release firmware = FIRMWARE).

Record ImageChange := { offset : Z; before : list Z; after : list Z }.
Inductive patch_error : Type := PATCH_BASE_UNKNOWN | PATCH_OWNERSHIP_CONFLICT | PATCH_RESULT_MISMATCH.

Definition len (l : list Z) : Z := Z.of_nat (length l).
(** [data[start:end]] of a range inside the data. *)
Definition slice (start stop : Z) (l : list Z) : list Z :=
  firstn (Z.to_nat (stop - start)) (skipn (Z.to_nat start) l).
(** [output[start:end] = data]. *)
Definition splice (start stop : Z) (data out : list Z) : list Z :=
  firstn (Z.to_nat start) out ++ data ++ skipn (Z.to_nat stop) out.

(** [sorted(changes, key=lambda item: item.offset)]: stable. *)
Fixpoint insert_change (c : ImageChange) (l : list ImageChange) : list ImageChange :=
  match l with
  | [] => [c]
  | d :: r => if offset c <=? offset d then c :: l else d :: insert_change c r
  end.
Definition by_offset (l : list ImageChange) : list ImageChange := fold_right insert_change [] l.

Fixpoint apply_changes (original : list Z) (previous_end : Z) (cs : list ImageChange) (output : list Z)
    : res patch_error (list Z) :=
  match cs with
  | [] => Ok output
  | c :: cs =>
      let start := offset c in
      let stop := offset c + len (before c) in
      if bool_decide (before c = []) || (start <? previous_end) || (start <? 0) || (len original <? stop)
         || negb (len (before c) =? len (after c)) || negb (bool_decide (slice start stop original = before c))
      then Err PATCH_OWNERSHIP_CONFLICT
      else apply_changes original stop cs (splice start stop (after c) output)
  end.

Definition image_digest (image : list Z) : string := hexdigest (digest image).

Definition compose_image (original : list Z) (expected result : string) (changes : list ImageChange)
    (tail : list Z) : res patch_error (list Z) :=
  if negb (bool_decide (image_digest original = expected)) then Err PATCH_BASE_UNKNOWN
  else
    output ← apply_changes original 0 (by_offset changes) original;
    let output := output ++ tail in
    if negb (bool_decide (image_digest output = result)) then Err PATCH_RESULT_MISMATCH else Ok output.

Record compatibility_report := {
  eligible_for_private_trial : bool; reasons : list string; battery_must_remain_unchanged : bool;
  existing_app_changes_must_be_preserved : bool; candidate_app_sha256 : string;
  hardware_acceptance_required : bool; write_authorized : bool }.

Definition when_ (b : bool) (r : string) : list string := if b then [r] else [].

(** [splash]: the tuple of the two writers. *)
Definition compatibility (model variant platform firmware app battery : string) (splash : list string)
    (framebuffer : Z * Z * Z * Z) : compatibility_report :=
  let reasons :=
    when_ (negb (bool_decide ((model, variant, platform) ∈ PROFILES))) "UNQUALIFIED_MODEL_VARIANT_PLATFORM"
    ++ when_ (negb (bool_decide (release firmware = FIRMWARE))) "UNQUALIFIED_FIRMWARE"
    ++ when_ (negb (bool_decide (app ∈ [APP_STOCK; APP_LEGACY] ++ ADOPTABLE_DISPLAY_IMAGES
                                      ++ [APP_DISPLAY_PREVIOUS; APP_COMBINED_PREVIOUS]))) "UNKNOWN_BOSEAPP"
    ++ when_ (negb (bool_decide (battery ∈ [BATTERY_STOCK; BATTERY_PATCHED; BATTERY_LEGACY]))) "UNKNOWN_BATTERYMONITOR"
    ++ when_ (negb (length splash =? 2)%nat
              || existsb (fun v => negb (bool_decide (v ∈ [SPLASH_STOCK; SPLASH_LOGO]))) splash) "UNKNOWN_BOOT_WRITER"
    ++ when_ (negb (length (remove_dups splash) =? 1)%nat) "PARTIAL_BOOT_WRITER_STATE"
    ++ when_ (negb (bool_decide (framebuffer = (128, 100, 8, 128)))) "UNQUALIFIED_FRAMEBUFFER" in
  {| eligible_for_private_trial := bool_decide (reasons = []); reasons := reasons;
     battery_must_remain_unchanged := true; existing_app_changes_must_be_preserved := true;
     candidate_app_sha256 := if bool_decide (app ∈ [APP_LEGACY; APP_COMBINED; APP_COMBINED_ACCEPTED; APP_COMBINED_PREVIOUS])
                             then APP_COMBINED else APP_DISPLAY;
     hardware_acceptance_required := true; write_authorized := false |}.

(** *** Reference: what a set of changes means, in any order *)
Definition covers (i : Z) (c : ImageChange) : bool := (offset c <=? i) && (i <? offset c + len (before c)).
Definition byte_at (changes : list ImageChange) (i : nat) (b : Z) : Z :=
  match head (List.filter (covers (Z.of_nat i)) changes) with
  | Some c => default b (after c !! Z.to_nat (Z.of_nat i - offset c))
  | None => b
  end.
Definition overlay (original : list Z) (changes : list ImageChange) : list Z := imap (byte_at changes) original.

(** Each change is a non-empty range of the image with the bytes it expects. *)
Definition fits (original : list Z) (c : ImageChange) : Prop :=
  before c <> [] /\ 0 <= offset c /\ offset c + len (before c) <= len original /\
  len (before c) = len (after c) /\ slice (offset c) (offset c + len (before c)) original = before c.
Definition apart (c d : ImageChange) : Prop :=
  offset c + len (before c) <= offset d \/ offset d + len (before d) <= offset c.

(** ** Lemmas *)
Lemma insert_change_perm c l : insert_change c l ≡ₚ c :: l.
Proof.
  induction l as [|d l IH]; [done|]. cbn. destruct (_ <=? _); [done|]. rewrite IH. by constructor.
Qed.
Lemma by_offset_perm l : by_offset l ≡ₚ l.
Proof. induction l as [|c l IH]; [done|]. cbn. by rewrite insert_change_perm, IH. Qed.

Definition le_offset (c d : ImageChange) : Prop := offset c <= offset d.
Lemma insert_change_sorted c l : StronglySorted le_offset l -> StronglySorted le_offset (insert_change c l).
Proof.
  induction 1 as [|d l Hs IH Hf]; cbn; [repeat constructor|]. destruct (_ <=? _) eqn:E; bdestr.
  - constructor; [by constructor|]. constructor; [done|]. eapply List.Forall_impl; [|exact Hf].
    unfold le_offset. intros x. lia.
  - constructor; [done|]. apply List.Forall_forall. intros x Hx.
    assert (x ∈ c :: l) as Hin by (rewrite <- insert_change_perm; by apply list_elem_of_In).
    apply elem_of_cons in Hin as [-> |Hin]; [unfold le_offset; lia|].
    rewrite List.Forall_forall in Hf. by apply Hf, list_elem_of_In.
Qed.
Lemma by_offset_sorted l : StronglySorted le_offset (by_offset l).
Proof. induction l as [|c l IH]; cbn; [constructor|]. by apply insert_change_sorted. Qed.

Lemma apart_sym c d : apart c d -> apart d c.
Proof. unfold apart. tauto. Qed.

(** The loop's condition on an ordered list of changes. *)
Fixpoint chain (previous_end : Z) (cs : list ImageChange) : Prop :=
  match cs with
  | [] => True
  | c :: cs => previous_end <= offset c /\ chain (offset c + len (before c)) cs
  end.

Lemma fits_pos original c : fits original c -> 0 < len (before c).
Proof. intros (H & _). unfold len. destruct (before c); [done|]. cbn. lia. Qed.

Lemma chain_after original p cs : Forall (fits original) cs -> chain p cs -> Forall (fun d => p <= offset d) cs.
Proof.
  intros Hf. revert p. induction Hf as [|c cs Hc Hf IH]; intros p; cbn; [constructor|].
  intros [H1 H2]. constructor; [done|]. apply IH in H2. eapply List.Forall_impl; [|exact H2]. cbn.
  apply fits_pos in Hc. intros d. lia.
Qed.

Lemma chain_iff original p cs : Forall (fits original) cs -> StronglySorted le_offset cs -> 0 <= p ->
  chain p cs <-> Forall (fun c => p <= offset c) cs /\ ForallOrdPairs apart cs.
Proof.
  intros Hf. revert p. induction Hf as [|c cs Hc Hf IH]; intros p Hs Hp; cbn.
  - split; [repeat constructor|done].
  - inversion Hs as [|? ? Hs' Hle]; subst. pose proof (fits_pos _ _ Hc) as Hpos. destruct Hc as (_ & Hoff & _).
    rewrite IH by (done || lia). split.
    + intros (H1 & H2 & H3). split.
      * constructor; [done|]. eapply List.Forall_impl; [|exact H2]. cbn. intros d. lia.
      * constructor; [|done]. eapply List.Forall_impl; [|exact H2]. cbn. intros d. unfold apart. lia.
    + intros [H1 H2]. inversion H1; subst. inversion H2 as [|? ? Ha Ho]; subst. split; [done|]. split; [|done].
      apply List.Forall_forall. intros d Hd. rewrite List.Forall_forall in Ha, Hle.
      pose proof (Ha d Hd) as [?|Hb]; [done|]. specialize (Hle d Hd). unfold le_offset in Hle.
      rewrite List.Forall_forall in Hf. pose proof (fits_pos _ _ (Hf d Hd)). lia.
Qed.

(** At most one of the changes covers a byte. *)
Lemma covers_apart i c d : covers i c = true -> covers i d = true -> apart c d -> False.
Proof. unfold covers, apart. intros H1 H2 H3. bdestr. lia. Qed.

Lemma filter_covers i cs : ForallOrdPairs apart cs -> (length (List.filter (covers i) cs) <= 1)%nat.
Proof.
  induction 1 as [|c cs Ha Ho IH]; cbn; [lia|]. destruct (covers i c) eqn:E; [|done]. cbn.
  assert (List.filter (covers i) cs = []) as ->; [|cbn; lia].
  destruct (List.filter (covers i) cs) as [|d l] eqn:El; [done|]. exfalso.
  assert (In d (List.filter (covers i) cs)) as Hd by (rewrite El; by left). apply filter_In in Hd as [Hd Hcd].
  rewrite List.Forall_forall in Ha. by apply (covers_apart i c d), Ha.
Qed.

Lemma filter_perm {A} (f : A -> bool) l l' : l ≡ₚ l' -> List.filter f l ≡ₚ List.filter f l'.
Proof.
  induction 1; cbn; [done| | |by etransitivity]; repeat match goal with |- context [f ?x] => destruct (f x) end;
    rewrite ?IHPermutation; try done. by constructor.
Qed.

Lemma byte_at_perm cs cs' i b : ForallOrdPairs apart cs -> cs ≡ₚ cs' -> byte_at cs i b = byte_at cs' i b.
Proof.
  intros Ha Hp. unfold byte_at. pose proof (filter_covers (Z.of_nat i) cs Ha) as Hl.
  pose proof (filter_perm (covers (Z.of_nat i)) cs cs' Hp) as Hf.
  destruct (List.filter _ cs) as [|c [|? ?]]; cbn in Hl; [by apply Permutation_nil in Hf; rewrite Hf| |lia].
  symmetry in Hf. apply Permutation_singleton_r in Hf. by rewrite Hf.
Qed.

(** *** One pass of the loop *)
Lemma length_splice c original out : fits original c -> length out = length original ->
  length (splice (offset c) (offset c + len (before c)) (after c) out) = length original.
Proof.
  intros (_ & H1 & H2 & H3 & _) Hl. unfold splice, len in *. rewrite !length_app, length_firstn, length_skipn. lia.
Qed.

Lemma lookup_splice c original out i : fits original c -> length out = length original -> (i < length original)%nat ->
  splice (offset c) (offset c + len (before c)) (after c) out !! i =
  if covers (Z.of_nat i) c then after c !! Z.to_nat (Z.of_nat i - offset c) else out !! i.
Proof.
  intros (_ & H1 & H2 & H3 & _) Hl Hi. unfold splice, covers, len in *.
  destruct (_ && _) eqn:E.
  - bdestr. rewrite lookup_app_r by (rewrite length_firstn; lia). rewrite length_firstn.
    rewrite lookup_app_l by lia. f_equal. lia.
  - apply andb_false_iff in E. destruct (decide (Z.of_nat i < offset c)) as [Hlt|Hge].
    + rewrite lookup_app_l by (rewrite length_firstn; lia). apply lookup_take_lt. lia.
    + assert (offset c + Z.of_nat (length (before c)) <= Z.of_nat i) by (destruct E; bdestr; lia).
      rewrite lookup_app_r by (rewrite length_firstn; lia). rewrite length_firstn.
      rewrite lookup_app_r by lia. rewrite lookup_drop. f_equal. lia.
Qed.

Lemma byte_at_cons c cs i b :
  byte_at (c :: cs) i b = if covers (Z.of_nat i) c then default b (after c !! Z.to_nat (Z.of_nat i - offset c)) else byte_at cs i b.
Proof. unfold byte_at. cbn. by destruct (covers _ c). Qed.

Lemma byte_at_uncovered cs i b : Forall (fun d => covers (Z.of_nat i) d = false) cs -> byte_at cs i b = b.
Proof.
  intros H. unfold byte_at. assert (List.filter (covers (Z.of_nat i)) cs = []) as ->; [|done].
  induction H as [|d cs Hd _ IH]; cbn; [done|]. by rewrite Hd.
Qed.

Lemma splice_overlay original c cs out : fits original c -> Forall (fits original) cs ->
  chain (offset c + len (before c)) cs -> length out = length original ->
  imap (byte_at cs) (splice (offset c) (offset c + len (before c)) (after c) out) = imap (byte_at (c :: cs)) out.
Proof.
  intros Hc Hf Hch Hl. apply list_eq. intros i. rewrite !list_lookup_imap.
  destruct (decide (i < length original)%nat) as [Hi|Hi].
  2:{ rewrite !lookup_ge_None_2; [done|lia|rewrite (length_splice _ original); [lia|done|done]]. }
  rewrite (lookup_splice c original) by done.
  destruct (lookup_lt_is_Some_2 out i ltac:(lia)) as [b Hb]. rewrite Hb.
  destruct (covers (Z.of_nat i) c) eqn:E.
  - assert (is_Some (after c !! Z.to_nat (Z.of_nat i - offset c))) as [x Hx].
    { apply lookup_lt_is_Some_2. destruct Hc as (_ & _ & _ & H3 & _). unfold covers in E. bdestr. unfold len in *. lia. }
    rewrite Hx. cbn. f_equal. rewrite byte_at_cons, E, Hx. cbn. apply byte_at_uncovered.
    apply (chain_after _ _ _ Hf) in Hch. eapply List.Forall_impl; [|exact Hch]. cbn.
    intros d Hd. unfold covers in *. bdestr. apply andb_false_iff. left. apply Z.leb_gt. lia.
  - cbn. f_equal. by rewrite byte_at_cons, E.
Qed.

Lemma apply_iff original p cs out : length out = length original -> forall out',
  apply_changes original p cs out = Ok out' <->
  chain p cs /\ Forall (fits original) cs /\ out' = imap (byte_at cs) out.
Proof.
  revert p out. induction cs as [|c cs IH]; intros p out Hl out'; cbn -[byte_at imap].
    assert (imap (byte_at []) out = out) as E.
    { apply list_eq. intros i. rewrite list_lookup_imap. by destruct (out !! i). }
    rewrite E. split; [intros [= <-]; done|by intros (_ & _ & ->)].
  - match goal with |- (if ?b then _ else _) = _ <-> _ => destruct b eqn:E end.
    + split; [done|]. intros ((Hp & _) & Hf & _). exfalso. inversion Hf as [|? ? (F1 & F2 & F3 & F4 & F5) _]; subst.
      rewrite F5 in E. rewrite (bool_decide_false (before c = [])), (bool_decide_true (before c = before c)) in E by done.
      rewrite F4, Z.eqb_refl in E. cbn in E. rewrite <- F4 in E. rewrite orb_false_r in E.
      rewrite !orb_true_iff, !Z.ltb_lt in E. lia.
    + bdestr. assert (fits original c) as Hc by (repeat split; done || lia).
      rewrite IH by (by apply (length_splice _ original)). split.
      * intros (H1' & H2' & ->). split; [split; [lia|done]|]. split; [by constructor|]. by apply (splice_overlay original).
      * intros ((H1' & H2') & Hf & ->). inversion Hf; subst. split; [done|]. split; [done|].
        symmetry. by apply (splice_overlay original).
Qed.

(** C34. [compose_image] is the overlay of its changes.  It answers an image exactly when
    the input is the one expected, every change is a non-empty range of that image with
    the bytes it expects and as many to put there, no two changes overlap - in whatever
    order they are given - and the result has the expected digest; and then each byte
    of the image is the one its change puts there or the original's, followed by the
    tail. *)
Theorem compose_is_overlay original expected result changes tail out :
  compose_image original expected result changes tail = Ok out <->
  image_digest original = expected /\ Forall (fits original) changes /\ ForallOrdPairs apart changes /\
  out = overlay original changes ++ tail /\ image_digest out = result.
Proof.
  unfold compose_image. pose proof (by_offset_perm changes) as Hp.
  assert (Forall (fits original) (by_offset changes) <-> Forall (fits original) changes) as Hfits by (by rewrite Hp).
  assert (ForallOrdPairs apart (by_offset changes) <-> ForallOrdPairs apart changes) as Hapart.
  { split; apply (ForallOrdPairs_perm apart apart_sym); [done|by symmetry]. }
  assert (forall o, apply_changes original 0 (by_offset changes) original = Ok o <->
            Forall (fits original) changes /\ ForallOrdPairs apart changes /\ o = overlay original changes) as Ha.
  { intros o. rewrite apply_iff by done. rewrite Hfits. split.
    - intros (Hc & Hf & ->). apply Hfits in Hf as Hf'.
      apply (chain_iff original) in Hc as [_ Hc]; [|done|apply by_offset_sorted|done]. split; [done|].
      split; [by apply Hapart|]. unfold overlay. apply imap_ext. intros i x _. by apply byte_at_perm.
    - intros (Hf & Ho & ->). apply Hfits in Hf as Hf'. apply Hapart in Ho as Ho'. split; [|split; [done|]].
      + apply (chain_iff original); [done|apply by_offset_sorted|done|]. split; [|done].
        eapply List.Forall_impl; [|exact Hf']. intros c (_ & H & _). done.
      + unfold overlay. apply imap_ext. intros i x _. symmetry. by apply byte_at_perm. }
  case_bool_decide as E1; cbn [negb]; [|split; [done|tauto]].
  destruct (apply_changes _ _ _ _) as [o|e]; cbn.
  - specialize (Ha o). destruct Ha as [Ha _]. destruct (Ha eq_refl) as (H1 & H2 & ->).
    case_bool_decide as E2; cbn; [split; [intros [= <-]; done|intros (_ & _ & _ & -> & _); done]|].
    split; [done|]. intros (_ & _ & _ & -> & H). done.
  - split; [done|]. intros (_ & H1 & H2 & _). specialize (Ha (overlay original changes)).
    destruct Ha as [_ Ha]. specialize (Ha ltac:(done)). done.
Qed.

Definition demo_image : list Z := [1; 2; 3; 4; 5; 6].
Definition demo_changes : list ImageChange :=
  [{| offset := 4; before := [5]; after := [50] |}; {| offset := 1; before := [2; 3]; after := [20; 30] |}].

Lemma compose_is_overlay_witness :
  compose_image demo_image (image_digest demo_image) (image_digest [1; 20; 30; 4; 50; 6; 9]) demo_changes [9]
    = Ok [1; 20; 30; 4; 50; 6; 9] /\
  Forall (fits demo_image) demo_changes /\ [1; 20; 30; 4; 50; 6; 9] = overlay demo_image demo_changes ++ [9].
Proof.
  assert (compose_image demo_image (image_digest demo_image) (image_digest [1; 20; 30; 4; 50; 6; 9]) demo_changes [9]
    = Ok [1; 20; 30; 4; 50; 6; 9]) as H by (vm_compute; reflexivity).
  split; [exact H|]. apply compose_is_overlay in H as (_ & H1 & _ & H2 & _). split; [exact H1|exact H2].
Defined.

End Patch.
