(* ===== verification/Bridge.v ===== *)
(** * AirPlay bridge: sender metadata and the display text
    (app/services/airplay_bridge/metadata.py, app/services/display_composition.py)

    [BridgeMetadata] turns the decoded events of one receiver into complete track
    snapshots; [display_fields] composes what a radio shows.  Texts are lists of code
    points; [str.isprintable], [str.casefold] and the word characters of [re] are
    parameters.  A snapshot is made by the metadata engine of Metadata.v. *)
From Stdlib Require Import Ascii String.
From S2P Require Import Prelude PyNum PyStr Json Liveness Metadata.
#[local] Open Scope string_scope.
#[local] Open Scope list_scope.
#[local] Open Scope Z_scope.

Module Bridge.

Definition text := list Z.

(** [str.isspace] of one character. *)
Definition space_point (c : Z) : bool :=
  ((9 <=? c) && (c <=? 13)) || ((28 <=? c) && (c <=? 32))
  || bool_decide (c ∈ [133; 160; 5760; 8232; 8233; 8239; 8287; 12288]) || ((8192 <=? c) && (c <=? 8202)).

Fixpoint drop_spaces (t : text) : text :=
  match t with c :: r => if space_point c then drop_spaces r else t | [] => [] end.
Definition rstrip (t : text) : text := rev (drop_spaces (rev t)).
Definition strip (t : text) : text := rstrip (drop_spaces t).

Section Unicode.
Context (printable : Z -> bool).

Definition clean_text (t : text) : text := strip (List.filter printable t).

(** ** metadata.py *)
Definition TEXT_CODES : list (string * string) :=
  [("minm", "track"); ("asar", "artist"); ("asal", "album"); ("asgn", "genre")].
Definition MAX_TEXT_BYTES : nat := 4096.
Definition MAX_TEXT_CHARS : nat := 256.

(** [_text]; [None] raises [ValueError] or [UnicodeError]. *)
Definition _text (data : list Z) : option text :=
  if (MAX_TEXT_BYTES <? length data)%nat then None
  else t ← utf8_strict data; Some (firstn MAX_TEXT_CHARS (clean_text t)).

Definition fields := list (string * text).
(** [d[k] = v]. *)
Fixpoint put (k : string) (v : text) (d : fields) : fields :=
  match d with
  | [] => [(k, v)]
  | (k', v') :: d => if bool_decide (k = k') then (k, v) :: d else (k', v') :: put k v d
  end.
Fixpoint look (k : string) (d : fields) : option text :=
  match d with [] => None | (k', v) :: d => if bool_decide (k = k') then Some v else look k d end.

Record BridgeMetadata := {
  receiver_name : string;
  _generation : Z;
  _active : bool;
  _pending : option fields;
  _visible : fields;
  _last_sequence : Z;
  _observed_at : option datetime }.

Definition new_bridge (name : string) : BridgeMetadata :=
  {| receiver_name := name; _generation := 0; _active := false; _pending := None; _visible := [];
     _last_sequence := -1; _observed_at := None |}.

Definition begin (m : BridgeMetadata) : Z * BridgeMetadata :=
  (_generation m + 1,
   {| receiver_name := receiver_name m; _generation := _generation m + 1; _active := true;
      _pending := None; _visible := []; _last_sequence := -1; _observed_at := None |}).

Definition end_ (g : Z) (m : BridgeMetadata) : bool * BridgeMetadata :=
  if negb (g =? _generation m) || negb (_active m) then (false, m)
  else (true, {| receiver_name := receiver_name m; _generation := _generation m; _active := false;
                 _pending := None; _visible := []; _last_sequence := _last_sequence m; _observed_at := None |}).

Definition set_pending (p : option fields) (m : BridgeMetadata) : BridgeMetadata :=
  {| receiver_name := receiver_name m; _generation := _generation m; _active := _active m;
     _pending := p; _visible := _visible m; _last_sequence := _last_sequence m; _observed_at := _observed_at m |}.
Definition abort_pending (m : BridgeMetadata) : BridgeMetadata := set_pending None m.

Definition text_fields (m : BridgeMetadata) : fields := if _active m then _visible m else [].

Record observation_record := {
  version : Z; session : string; sequence : Z; observed_monotonic : pynum; o_active : bool; o_fields : fields }.

(** [sequence]: [None] is a value that is not an int. *)
Definition observation (session : string) (sequence : option Z) (now : pynum) (m : BridgeMetadata)
    : res Liveness.exn observation_record :=
  match sequence with
  | None => Err Liveness.ValueError
  | Some q =>
      if negb (is_hex_string 32 session) || negb ((0 <=? q) && (q <=? 2 ^ 53 - 1)) then Err Liveness.ValueError
      else
        bad ← Liveness.ror (Liveness.bad_number now) (Ok (num_lt now (PInt 0)));
        if (bad : bool) then Err Liveness.ValueError
        else Ok {| version := 1; session := session; sequence := q; observed_monotonic := now;
                   o_active := _active m; o_fields := text_fields m |}
  end.

Definition seen (q : Z) (m : BridgeMetadata) : BridgeMetadata :=
  {| receiver_name := receiver_name m; _generation := _generation m; _active := _active m;
     _pending := _pending m; _visible := _visible m; _last_sequence := q; _observed_at := _observed_at m |}.
Definition commit (p : fields) (t : datetime) (m : BridgeMetadata) : BridgeMetadata :=
  {| receiver_name := receiver_name m; _generation := _generation m; _active := _active m;
     _pending := None; _visible := p; _last_sequence := _last_sequence m; _observed_at := Some t |}.

Definition text_code (code : string) : option string :=
  snd <$> head (filter (fun c => c.1 = code) TEXT_CODES).

(** [clock]: [datetime.now(UTC)]. *)
Definition apply (g q : Z) (kind code : string) (data : list Z) (observed_at : option datetime)
    (clock : datetime) (m : BridgeMetadata) : bool * BridgeMetadata :=
  if negb (_active m) || negb (g =? _generation m) || (q <=? _last_sequence m) then (false, m)
  else
    let m := seen q m in
    if bool_decide (kind = "ssnc") && bool_decide (code = "mdst") then (false, set_pending (Some []) m)
    else match (if bool_decide (kind = "core") then text_code code else None), _pending m with
    | Some name, Some p =>
        match _text data with
        | Some t => (false, set_pending (Some (put name t p)) m)
        | None => (false, set_pending None m)
        end
    | _, _ =>
        match (if bool_decide (kind = "ssnc") && bool_decide (code = "mden") then _pending m else None) with
        | Some p => (true, commit p (default clock observed_at) m)
        | None => (false, m)
        end
    end.

Definition visible_payload (d : fields) : list (string * json) :=
  map (fun kv => (kv.1, JStr (str_of_points kv.2))) d.

Definition plain_snapshot (name : string) : Metadata.MetadataSnapshot :=
  {| Metadata.station_name := Some name; Metadata.station_id := None; Metadata.track := None;
     Metadata.artist := None; Metadata.album := None; Metadata.image_url := None;
     Metadata.provider := Some "AIRPLAY_BRIDGE"; Metadata.source := None; Metadata.updated_at := None;
     Metadata.provenance := Metadata.UNKNOWN; Metadata.confidence := 0; Metadata.ask_again_after_s := None;
     Metadata.next_due_at := None; Metadata.stale := true; Metadata.display_projection := None |}.

Definition snapshot (str_of : json -> string) (clock : datetime) (m : BridgeMetadata)
    : res Metadata.error Metadata.MetadataSnapshot :=
  match (if _active m then _observed_at m else None) with
  | None => Ok (plain_snapshot (receiver_name m))
  | Some t =>
      Metadata.normalize_metadata str_of clock (visible_payload (_visible m)) None Metadata.PROVIDER 90 (Some t)
        {| Metadata.sel_station_name := Some (receiver_name m); Metadata.sel_station_id := None;
           Metadata.sel_provider := Some "AIRPLAY_BRIDGE"; Metadata.sel_source := Some "LOCAL_INTERNET_RADIO" |}
  end.

(** ** display_composition.py *)
Context (casefold : text -> text) (word : Z -> bool).

Definition DISPLAY_FIELDS : list string := ["station"; "artist"; "title"; "clock"; "other"].

(** [_text(value, limit)] of a text or a missing value. *)
Definition show_text (limit : nat) (t : option text) : text := firstn limit (clean_text (default [] t)).

Record DisplayPreference := {
  mode : string; show_other_info : bool; selected_fields : option (list string); field_order : list string }.
Definition default_preference : DisplayPreference :=
  {| mode := "STATION"; show_other_info := false; selected_fields := None; field_order := DISPLAY_FIELDS |}.

Definition needs_metadata (p : DisplayPreference) : bool :=
  if bool_decide (mode p = "CUSTOM")
  then existsb (fun f => bool_decide (f ∈ ["artist"; "title"; "other"])) (default [] (selected_fields p))
  else bool_decide (mode p = "TRACK_ARTIST") || show_other_info p.

Record public_preference := { pp_mode : string; pp_other : bool; pp_fields : list string; pp_order : list string }.
Definition as_public_dict (legacy_clock_enabled : bool) (p : DisplayPreference) : public_preference :=
  let selected :=
    if bool_decide (mode p = "CUSTOM") then default [] (selected_fields p)
    else (if bool_decide (mode p = "TRACK_ARTIST") then ["artist"; "title"] else ["station"])
         ++ (if show_other_info p then ["other"] else []) ++ (if legacy_clock_enabled then ["clock"] else []) in
  {| pp_mode := mode p; pp_other := bool_decide ("other" ∈ selected);
     pp_fields := filter (fun f => f ∈ selected) (field_order p); pp_order := field_order p |}.

Definition validate_display_preference (p : DisplayPreference) : bool :=
  bool_decide (mode p ∈ ["STATION"; "TRACK_ARTIST"; "CUSTOM"])
  && (if bool_decide (mode p = "CUSTOM") then
        match selected_fields p with
        | None => false
        | Some selected =>
            distinct selected && forallb (fun f => bool_decide (f ∈ DISPLAY_FIELDS)) selected
            && (length (field_order p) =? length DISPLAY_FIELDS)%nat && same_set (field_order p) DISPLAY_FIELDS
        end
      else true).

Definition normalize (t : text) : text := List.filter word (casefold t).

(** [key in station]. *)
Fixpoint is_prefix (p t : text) : bool :=
  match p, t with
  | [], _ => true
  | x :: p, y :: t => (x =? y) && is_prefix p t
  | _, _ => false
  end.
Fixpoint contains (p t : text) : bool :=
  is_prefix p t || match t with [] => false | _ :: t => contains p t end.

Definition points (s : string) : text := bytes_of s.
Definition MEANINGLESS : list text :=
  map points ["unspecifieddescription"; "unspecified"; "unknown"; "none"; "various"].

Fixpoint other_info (names : list string) (metadata : fields) (station : text) : text :=
  match names with
  | [] => []
  | name :: names =>
      let candidate := show_text 256 (look name metadata) in
      let key := normalize candidate in
      if negb (bool_decide (key = [])) && negb (bool_decide (key ∈ MEANINGLESS)) && negb (bool_decide (key = station))
         && negb (bool_decide (name = "description") && contains key station)
      then candidate else other_info names metadata station
  end.

Definition is_clock (part : string * text) : bool := bool_decide (part.1 = "clock").
Definition size (t : text) : Z := Z.of_nat (length t).
Definition ELLIPSIS : Z := 8230.
(** [" — "]. *)
Definition DASH : text := [32; 8212; 32].

Definition sum (l : list Z) : Z := fold_right Z.add 0 l.

Definition fit (budget : Z) (part : string * text) : text :=
  if negb (is_clock part) && (budget <? size part.2)
  then rstrip (firstn (Z.to_nat (budget - 1)) part.2) ++ [ELLIPSIS] else part.2.

Definition add_part (budget : Z) (rendered : text) (part : string * text) : text :=
  rendered ++ (if bool_decide (rendered = []) then [] else if is_clock part then [32] else DASH) ++ fit budget part.

Definition text_budget (parts : list (string * text)) : Z :=
  let separators := sum (map (fun part => if is_clock part then 1 else 3) (tl parts)) in
  let text_count := Z.of_nat (length (List.filter (fun part => negb (is_clock part)) parts)) in
  let clock_size := sum (map (fun part => if is_clock part then size part.2 else 0) parts) in
  Z.max 1 ((256 - separators - clock_size) / Z.max 1 text_count).

Definition render (parts : list (string * text)) : text :=
  fold_left (add_part (text_budget parts)) parts [].

Definition not_empty (t : option text) : bool := match t with Some (_ :: _) => true | _ => false end.

(** The texts of the fields [track] and [artist]. *)
Definition display_fields (p : DisplayPreference) (station_name : text) (metadata : fields)
    (clock_text : text) (allow_partial_track : bool) : text * text :=
  let other := other_info ["other_info"; "description"; "genre"] metadata (normalize station_name) in
  if bool_decide (mode p = "CUSTOM") then
    let values := [("station", show_text 256 (Some station_name)); ("artist", show_text 256 (look "artist" metadata));
                   ("title", show_text 256 (look "track" metadata)); ("clock", show_text 5 (Some clock_text));
                   ("other", other)] in
    let parts := omap (fun f => if bool_decide (f ∈ default [] (selected_fields p))
                                then match look f values with
                                     | Some (c :: t) => Some (f, c :: t)
                                     | _ => None
                                     end
                                else None) (field_order p) in
    (render parts, [])
  else
    let use := bool_decide (mode p = "TRACK_ARTIST") && not_empty (look "track" metadata)
               && (not_empty (look "artist" metadata) || allow_partial_track) in
    let track := if use then default [] (look "track" metadata) else station_name in
    let artist := if use then default [] (look "artist" metadata) else [] in
    let track := if show_other_info p && negb (bool_decide (other = [])) then track ++ DASH ++ other else track in
    (show_text 256 (Some track), show_text 256 (Some artist)).

(** [BridgeMetadata.display]: the track, the artist and the album. *)
Definition display (p : DisplayPreference) (clock_text : text) (m : BridgeMetadata) : text * text * text :=
  let d := text_fields m in
  (display_fields p (points (receiver_name m)) d clock_text true, default [] (look "album" d)).

(** The calls of the owner. *)
Inductive bridge_call : Type :=
| BBegin | BEnd (g : Z) | BAbort
| BApply (g q : Z) (kind code : string) (data : list Z) (observed_at : option datetime) (clock : datetime).

Definition bridge_step (m : BridgeMetadata) (c : bridge_call) : BridgeMetadata :=
  match c with
  | BBegin => (begin m).2
  | BEnd g => (end_ g m).2
  | BAbort => abort_pending m
  | BApply g q kind code data t clock => (apply g q kind code data t clock m).2
  end.

End Unicode.


(** ** The display text *)
Section Display.
Context (printable : Z -> bool) (casefold : text -> text) (word : Z -> bool).

Lemma drop_spaces_length t : (length (drop_spaces t) <= length t)%nat.
Proof. induction t as [|c t IH]; cbn; [lia|]. destruct (space_point c); cbn; lia. Qed.

Lemma rstrip_length t : (length (rstrip t) <= length t)%nat.
Proof.
  unfold rstrip. rewrite length_rev. pose proof (drop_spaces_length (rev t)) as H.
  rewrite length_rev in H. exact H.
Qed.

Definition is_text (part : string * text) : bool := negb (is_clock part).

Lemma fit_size budget part : 1 <= budget ->
  size (fit budget part) <= if is_clock part then size part.2 else budget.
Proof.
  intros Hb. unfold fit. destruct (is_clock part); cbn [negb andb]; [lia|].
  destruct (budget <? size part.2) eqn:E; bdestr; [|lia].
  unfold size. rewrite length_app, Nat2Z.inj_add; cbn [length].
  pose proof (rstrip_length (firstn (Z.to_nat (budget - 1)) part.2)).
  pose proof (firstn_le_length (Z.to_nat (budget - 1)) part.2). lia.
Qed.

Definition text_count (parts : list (string * text)) : Z :=
  Z.of_nat (length (List.filter is_text parts)).
Definition clock_size (parts : list (string * text)) : Z :=
  sum (map (fun part => if is_clock part then size part.2 else 0) parts).
Definition separators (parts : list (string * text)) : Z :=
  sum (map (fun part => if is_clock part then 1 else 3) parts).

Lemma text_count_cons part parts :
  text_count (part :: parts) = (if is_clock part then 0 else 1) + text_count parts.
Proof. unfold text_count, is_text; cbn. destruct (is_clock part); cbn [negb length]; lia. Qed.

Lemma render_tail budget parts rendered : 1 <= budget ->
  size (fold_left (add_part budget) parts rendered)
  <= size rendered + separators parts + clock_size parts + text_count parts * budget.
Proof.
  intros Hb. revert rendered. induction parts as [|part parts IH]; intros rendered; cbn [fold_left].
  - unfold separators, clock_size, text_count; cbn. lia.
  - etransitivity; [apply IH|]. rewrite text_count_cons.
    unfold separators, clock_size; cbn [map sum fold_right]. fold (separators parts) (clock_size parts).
    pose proof (fit_size budget part Hb) as Hf.
    assert (size (add_part budget rendered part)
            <= size rendered + (if is_clock part then 1 else 3) + size (fit budget part)) as Hr.
    { unfold add_part, size. rewrite !length_app, !Nat2Z.inj_add.
      destruct (bool_decide (rendered = [])); destruct (is_clock part); cbn [length DASH]; lia. }
    unfold separators, clock_size, sum in *. destruct (is_clock part); lia.
Qed.

(** The parts of a rendering: at most five, a clock of at most five characters. *)
Definition short_parts (parts : list (string * text)) : Prop :=
  (length parts <= 5)%nat /\ Forall (fun part => is_clock part = true -> size part.2 <= 5) parts.

Lemma parts_sizes parts n : (length parts <= n)%nat ->
  Forall (fun part => is_clock part = true -> size part.2 <= 5) parts ->
  0 <= separators parts <= 3 * Z.of_nat n /\ 0 <= clock_size parts <= 5 * Z.of_nat n
  /\ 0 <= text_count parts <= Z.of_nat n.
Proof.
  revert n. induction parts as [|part parts IH]; intros n Hn Hc.
  - unfold separators, clock_size, text_count; cbn. lia.
  - apply list.Forall_cons in Hc as [Hp Hc]. destruct n as [|n]; cbn in Hn; [lia|].
    destruct (IH n ltac:(lia) Hc) as (H1 & H2 & H3).
    rewrite text_count_cons. unfold separators, clock_size; cbn [map sum fold_right].
    unfold separators, clock_size, sum in H1, H2. unfold size in *.
    destruct (is_clock part); [specialize (Hp eq_refl)|]; lia.
Qed.

Lemma render_size parts : short_parts parts -> size (render parts) <= 256.
Proof.
  intros [Hn Hc]. unfold render. set (budget := text_budget parts).
  assert (1 <= budget) as Hb by (unfold budget, text_budget; lia).
  destruct parts as [|part parts]; [change (0 <= 256); lia|]. cbn [fold_left].
  etransitivity; [apply render_tail, Hb|].
  pose proof Hc as Hc'. apply list.Forall_cons in Hc' as [Hp Hc']. cbn [length] in Hn.
  destruct (parts_sizes parts 4 ltac:(lia) Hc') as (H1 & H2 & H3).
  destruct (parts_sizes (part :: parts) 5 ltac:(cbn; lia) Hc) as (_ & H4 & H5).
  pose proof (fit_size budget part Hb) as Hf.
  assert (size (add_part budget [] part) = size (fit budget part)) as -> by reflexivity.
  assert (budget = Z.max 1 ((256 - separators parts - clock_size (part :: parts))
                            / Z.max 1 (text_count (part :: parts)))) as Hbud by reflexivity.
  set (q := (256 - separators parts - clock_size (part :: parts)) / Z.max 1 (text_count (part :: parts))) in Hbud.
  assert (1 <= q) as Hq.
  { unfold q. apply Z.div_le_lower_bound; lia. }
  assert (Z.max 1 (text_count (part :: parts)) * q
          <= 256 - separators parts - clock_size (part :: parts)) as Hm.
  { unfold q. apply Z.mul_div_le. lia. }
  rewrite text_count_cons in *. unfold clock_size in Hm, H4; cbn [map sum fold_right] in Hm, H4.
  fold (clock_size parts) in Hm, H4. change (fold_right Z.add 0) with sum in *.
  replace budget with q in * by lia.
  fold (clock_size parts) in Hm.
  destruct (is_clock part).
  - destruct (Z.eq_dec (text_count parts) 0) as [E|E]; [rewrite E in *; lia|].
    replace (Z.max 1 (0 + text_count parts)) with (text_count parts) in Hm by lia. lia.
  - replace (Z.max 1 (1 + text_count parts)) with (1 + text_count parts) in Hm by lia. lia.
Qed.

Lemma omap_length {A B} (f : A -> option B) (l : list A) : (length (omap f l) <= length l)%nat.
Proof. induction l as [|x l IH]; cbn; [lia|]. destruct (f x); cbn; lia. Qed.

Lemma show_text_size n t : size (show_text printable n t) <= Z.of_nat n.
Proof. unfold size, show_text. pose proof (firstn_le_length n (clean_text printable (default [] t))). lia. Qed.

(** Whatever the fields and the metadata hold, a validated preference composes a
    text of at most 256 characters: the budget of the text fields accounts for the
    separators and the clock. *)
Theorem display_bounded p name d clock partial :
  validate_display_preference p = true ->
  let '(track, artist) := display_fields printable casefold word p name d clock partial in
  size track <= 256 /\ size artist <= 256.
Proof.
  intros Hv. unfold display_fields. destruct (bool_decide (mode p = "CUSTOM")) eqn:Em; cbv zeta.
  2: { split; etransitivity; try (apply (show_text_size 256)); lia. }
  split; [|change (0 <= 256); lia]. apply render_size. split.
  - eapply Nat.le_trans; [apply omap_length|]. unfold validate_display_preference in Hv. rewrite Em in Hv.
    apply andb_true_iff in Hv as [_ Hv]. destruct (selected_fields p); [|discriminate].
    repeat (apply andb_true_iff in Hv as [Hv ?]).
    match goal with H : (length (field_order p) =? _)%nat = true |- _ => apply Nat.eqb_eq in H; rewrite H end.
    cbn; lia.
  - apply list.Forall_forall. intros part Hin Hclock.
    apply list_elem_of_omap in Hin as (f & _ & Hf).
    destruct (bool_decide (f ∈ _)); [|discriminate].
    destruct (look f _) as [[|c t]|] eqn:El; try discriminate. injection Hf as <-.
    unfold is_clock in Hclock. apply bool_decide_eq_true in Hclock. cbn [fst snd] in *. subst f.
    assert (look "clock" [("station", show_text printable 256 (Some name)); ("artist", show_text printable 256 (look "artist" d));
                   ("title", show_text printable 256 (look "track" d)); ("clock", show_text printable 5 (Some clock));
                   ("other", other_info printable casefold word ["other_info"; "description"; "genre"] d (normalize casefold word name))]
            = Some (show_text printable 5 (Some clock))) as E by reflexivity.
    rewrite E in El. injection El as <-. apply (show_text_size 5).
Qed.

End Display.

(** A station, a long artist and a long title with the clock in the middle. *)
Definition crowded : DisplayPreference :=
  {| mode := "CUSTOM"; show_other_info := false; selected_fields := Some ["station"; "clock"; "artist"; "title"];
     field_order := ["artist"; "clock"; "station"; "title"; "other"] |}.
Definition crowded_fields : fields := [("track", repeat 84 400); ("artist", repeat 65 400)].
Definition crowded_display : text * text :=
  display_fields (fun _ => true) (fun t => t) (fun _ => true) crowded (points "Studio") crowded_fields
    (points "12:34") true.

Lemma display_bounded_witness :
  validate_display_preference crowded = true
  /\ size crowded_display.1 = 180 /\ size crowded_display.1 <= 256.
Proof.
  split; [reflexivity|]. split; [reflexivity|].
  exact (proj1 (display_bounded (fun _ => true) (fun t => t) (fun _ => true) crowded (points "Studio") crowded_fields
                  (points "12:34") true eq_refl)).
Defined.


(** ** Batches

    What a session was told since [begin]: the events [apply] did not refuse, each
    with its sequence number, and the framing failures. *)
Inductive event : Type :=
| EStart
| EText (name : string) (value : option text)
| EEnd (at_ : datetime)
| EOther
| EAbort.

Section Batches.
Context (printable : Z -> bool).

Definition classify (kind code : string) (data : list Z) (t : datetime) : event :=
  if bool_decide (kind = "ssnc") && bool_decide (code = "mdst") then EStart
  else match (if bool_decide (kind = "core") then text_code code else None) with
       | Some name => EText name (_text printable data)
       | None => if bool_decide (kind = "ssnc") && bool_decide (code = "mden") then EEnd t else EOther
       end.

Definition log := list (option Z * event).
Definition log_step (s : BridgeMetadata * log) (c : bridge_call) : BridgeMetadata * log :=
  let '(m, l) := s in
  (bridge_step printable m c,
   match c with
   | BBegin => []
   | BEnd g => if (end_ g m).1 then [] else l
   | BAbort => l ++ [(None, EAbort)]
   | BApply g q kind code data t clock =>
       if _active m && (g =? _generation m) && (_last_sequence m <? q)
       then l ++ [(Some q, classify kind code data (default clock t))] else l
   end).
Definition log_run (name : string) (calls : list bridge_call) : BridgeMetadata * log :=
  fold_left log_step calls (new_bridge name, []).

(** An event that leaves an open batch open. *)
Definition clean (e : event) : Prop :=
  match e with EText _ (Some _) | EOther => True | _ => False end.
Definition put_event (d : fields) (e : event) : fields :=
  match e with EText name (Some t) => put name t d | _ => d end.
Definition fields_of (body : list event) : fields := fold_left put_event body [].

Definition no_batch (l : list event) : Prop :=
  forall l0 body l2 t, Forall clean body -> l <> l0 ++ EStart :: body ++ EEnd t :: l2.
(** [d] is what the last complete batch says, and [t] when it was observed. *)
Definition last_batch (l : list event) (d : fields) (t : datetime) : Prop :=
  exists l0 body l2, l = l0 ++ EStart :: body ++ EEnd t :: l2 /\ Forall clean body
                     /\ d = fields_of body /\ no_batch l2.
Definition opened (l body : list event) : Prop :=
  exists l0, l = l0 ++ EStart :: body /\ Forall clean body.

Lemma opened_snoc l e body : opened (l ++ [e]) body ->
  (e = EStart /\ body = []) \/ (exists body', opened l body' /\ clean e /\ body = body' ++ [e]).
Proof.
  intros (l0 & E & Hc). destruct body as [|x body _] using rev_ind.
  - left. apply app_inj_tail in E as [_ ->]. done.
  - right. change (l ++ [e] = l0 ++ (EStart :: body) ++ [x]) in E. rewrite app_assoc in E.
    apply app_inj_tail in E as [-> ->]. apply list.Forall_app in Hc as [Hc Hx].
    exists body. split; [exists l0; done|]. split; [|done].
    inversion_clear Hx. done.
Qed.

Lemma no_batch_snoc l e :
  no_batch l -> (forall t body, e = EEnd t -> ~ opened l body) -> no_batch (l ++ [e]).
Proof.
  intros Hl He l0 body l2 t Hc E. destruct l2 as [|x l2 _] using rev_ind.
  - change (l ++ [e] = l0 ++ (EStart :: body) ++ [EEnd t]) in E. rewrite app_assoc in E.
    apply app_inj_tail in E as [-> ->]. apply (He t body eq_refl). exists l0. done.
  - assert (l ++ [e] = (l0 ++ EStart :: body ++ EEnd t :: l2) ++ [x]) as E'.
    { rewrite E, <- app_assoc. cbn. rewrite <- app_assoc. done. }
    apply app_inj_tail in E' as [-> _]. exact (Hl l0 body l2 t Hc eq_refl).
Qed.

Lemma last_batch_snoc l e d t0 :
  last_batch l d t0 -> (forall t body, e = EEnd t -> ~ opened l body) -> last_batch (l ++ [e]) d t0.
Proof.
  intros (l0 & body & l2 & -> & Hc & -> & Hn) He.
  exists l0, body, (l2 ++ [e]). split; [by rewrite <- app_assoc; cbn; rewrite <- app_assoc|].
  split; [done|]. split; [done|]. apply no_batch_snoc; [done|].
  intros t body' Ht (l1 & -> & Hc'). apply (He t body' Ht).
  exists (l0 ++ EStart :: body ++ EEnd t0 :: l1). split; [|done].
  rewrite <- !app_assoc. cbn. rewrite <- !app_assoc. done.
Qed.

Lemma no_batch_nil : no_batch [].
Proof. intros l0 body l2 t _ E. destruct l0; discriminate. Qed.

Lemma closing l body t : opened l body -> last_batch (l ++ [EEnd t]) (fields_of body) t.
Proof.
  intros (l0 & -> & Hc). exists l0, body, []. rewrite <- app_assoc. cbn.
  split; [done|]. split; [done|]. split; [done|]. exact no_batch_nil.
Qed.

(** ** The invariant *)
Definition shows (l : list event) (m : BridgeMetadata) : Prop :=
  match _observed_at m with
  | Some t => last_batch l (_visible m) t
  | None => _visible m = [] /\ no_batch l
  end.
Definition holds (l : list event) (m : BridgeMetadata) : Prop :=
  match _pending m with
  | Some p => exists body, opened l body /\ p = fields_of body
  | None => forall body, ~ opened l body
  end.
Record tracks (m : BridgeMetadata) (l : log) : Prop := {
  t_shows : shows l.*2 m;
  t_holds : holds l.*2 m;
  t_idle : _active m = false -> _visible m = [];
  t_order : ForallOrdPairs Z.lt (omap fst l);
  t_bound : Forall (fun q => q <= _last_sequence m) (omap fst l) }.

Lemma shows_snoc l e m m' :
  shows l m -> _visible m' = _visible m -> _observed_at m' = _observed_at m ->
  (forall t body, e = EEnd t -> ~ opened l body) -> shows (l ++ [e]) m'.
Proof.
  unfold shows. intros Hs Hv Ho He. rewrite Hv, Ho. destruct (_observed_at m) as [t|].
  - by apply last_batch_snoc.
  - destruct Hs. split; [done|]. by apply no_batch_snoc.
Qed.

(** An event other than the end of an open batch. *)
Definition follows (e : event) (p p' : option fields) : Prop :=
  p' = match e, p with
       | EStart, _ => Some []
       | EText name (Some t), Some p => Some (put name t p)
       | EOther, _ => p
       | _, _ => None
       end.

Lemma holds_snoc l e m m' :
  holds l m -> follows e (_pending m) (_pending m') -> holds (l ++ [e]) m'.
Proof.
  unfold holds, follows. intros Hh ->.
  destruct e as [|name [v|]|t| |].
  - exists []. split; [|done]. exists l. done.
  - destruct (_pending m) as [p|].
    + destruct Hh as (body & (l0 & -> & Hc) & ->). exists (body ++ [EText name (Some v)]).
      split; [|unfold fields_of; by rewrite fold_left_app].
      exists l0. split; [by rewrite <- app_assoc|]. apply list.Forall_app. split; [done|].
      constructor; done.
    + intros body Hb. apply opened_snoc in Hb as [[? _]|(b & Hb & _)]; [done|]. exact (Hh b Hb).
  - intros body Hb. apply opened_snoc in Hb as [[? _]|(b & _ & [] & _)]; done.
  - intros body Hb. apply opened_snoc in Hb as [[? _]|(b & _ & [] & _)]; done.
  - destruct (_pending m) as [p|].
    + destruct Hh as (body & (l0 & -> & Hc) & ->). exists (body ++ [EOther]).
      split; [|unfold fields_of; by rewrite fold_left_app].
      exists l0. split; [by rewrite <- app_assoc|]. apply list.Forall_app. split; [done|].
      constructor; done.
    + intros body Hb. apply opened_snoc in Hb as [[? _]|(b & Hb & _)]; [done|]. exact (Hh b Hb).
  - intros body Hb. apply opened_snoc in Hb as [[? _]|(b & _ & [] & _)]; done.
Qed.

Lemma ordered_snoc (l : list Z) q :
  ForallOrdPairs Z.lt l -> Forall (fun q' => q' < q) l -> ForallOrdPairs Z.lt (l ++ [q]).
Proof.
  induction 1 as [|x l Hx _ IH]; cbn; intros Hq; [repeat constructor|].
  apply list.Forall_cons in Hq as [Hxq Hq]. constructor; [|by apply IH].
  apply list.Forall_app. split; [done|]. by repeat constructor.
Qed.

(** What [apply] does with an event it does not refuse. *)
Lemma apply_event g q kind code data t clock m :
  _active m && (g =? _generation m) && (_last_sequence m <? q) = true ->
  let e := classify kind code data (default clock t) in
  let m' := (apply printable g q kind code data t clock m).2 in
  _active m' = _active m /\ _last_sequence m' = q /\
  match e, _pending m with
  | EEnd at_, Some p => _visible m' = p /\ _observed_at m' = Some at_ /\ _pending m' = None
  | _, _ => _visible m' = _visible m /\ _observed_at m' = _observed_at m
            /\ follows e (_pending m) (_pending m')
  end.
Proof.
  intros Hg e m'. subst m'. unfold apply.
  replace (negb (_active m) || negb (g =? _generation m) || (q <=? _last_sequence m)) with false
    by (apply andb_true_iff in Hg as [Hg Hq]; apply andb_true_iff in Hg as [-> ->]; bdestr;
        cbn; symmetry; apply Z.leb_gt; lia).
  cbv zeta. unfold e, classify. cbn [_pending seen].
  destruct (bool_decide (kind = "ssnc") && bool_decide (code = "mdst")); [done|].
  destruct (bool_decide (kind = "core")) eqn:Ec.
  - apply bool_decide_eq_true in Ec as ->. cbn [bool_decide andb].
    destruct (text_code code) as [name|]; cbn.
    + destruct (_pending m) as [p|] eqn:Ep.
      * destruct (_text printable data) as [v|]; cbn; unfold follows; rewrite ?Ep; done.
      * destruct (_text printable data) as [v|]; cbn; unfold follows; rewrite ?Ep; done.
    + unfold follows. destruct (_pending m) as [p|] eqn:Ep; cbn; rewrite ?Ep; done.
  - destruct (bool_decide (kind = "ssnc") && bool_decide (code = "mden")).
    + destruct (_pending m) as [p|] eqn:Ep; cbn; unfold follows; rewrite ?Ep; done.
    + destruct (_pending m) as [p|] eqn:Ep; cbn; unfold follows; rewrite ?Ep; done.
Qed.

Lemma no_open_nil body : ~ opened [] body.
Proof. intros (l0 & E & _). destruct l0; discriminate. Qed.

Lemma apply_refused g q kind code data t clock m :
  _active m && (g =? _generation m) && (_last_sequence m <? q) = false ->
  (apply printable g q kind code data t clock m).2 = m.
Proof.
  intros Hg. unfold apply.
  replace (negb (_active m) || negb (g =? _generation m) || (q <=? _last_sequence m)) with true; [done|].
  destruct (_active m), (g =? _generation m); cbn in *; try done.
  symmetry. apply Z.leb_le. bdestr. lia.
Qed.

Lemma tracks_apply g q kind code data t clock m l :
  tracks m l -> _active m && (g =? _generation m) && (_last_sequence m <? q) = true ->
  tracks (apply printable g q kind code data t clock m).2
         (l ++ [(Some q, classify kind code data (default clock t))]).
Proof.
  intros [Hs Hh Hi Ho Hb] Hg.
  destruct (apply_event g q kind code data t clock m Hg) as (Ha & Hq & He).
  set (m' := (apply printable g q kind code data t clock m).2) in *.
  set (e := classify kind code data (default clock t)) in *.
  assert (_active m = true /\ _last_sequence m < q) as [Hact Hlt]
    by (apply andb_true_iff in Hg as [Hg Hlt]; apply andb_true_iff in Hg as [-> _]; bdestr; done).
  assert (ForallOrdPairs Z.lt (omap fst (l ++ [(Some q, e)]))
          /\ Forall (fun q' => q' <= _last_sequence m') (omap fst (l ++ [(Some q, e)]))) as [Ho' Hb'].
  { rewrite omap_app. cbn [omap list_omap fst]. rewrite Hq. split.
    - apply ordered_snoc; [done|]. eapply list.Forall_impl; [exact Hb|]. cbn; lia.
    - apply list.Forall_app. split; [|repeat constructor; lia].
      eapply list.Forall_impl; [exact Hb|]. cbn; lia. }
  assert ((l ++ [(Some q, e)]).*2 = l.*2 ++ [e]) as El by by rewrite fmap_app.
  assert ((exists t' p, e = EEnd t' /\ _pending m = Some p) \/
          (_visible m' = _visible m /\ _observed_at m' = _observed_at m /\ follows e (_pending m) (_pending m')
           /\ forall t' body, e = EEnd t' -> ~ opened l.*2 body)) as [(t' & p & Ee & Ep)|(Hv & Hobs & Hf & Hn)].
  { unfold holds in Hh. clearbody e m'. destruct e as [|name v|t'| |];
      [right..|destruct (_pending m) as [p|]; [left; by exists t', p|right]|right|right];
      destruct He as (? & ? & ?); repeat split; try done.
    all: intros ? body _; apply Hh. }
  - rewrite Ee, Ep in He. destruct He as (Hv & Hobs & Hp).
    unfold holds in Hh. rewrite Ep in Hh. destruct Hh as (body & Hopen & ->).
    constructor; rewrite ?El; [| | |done|done].
    + unfold shows. rewrite Hobs, Hv, Ee. by apply closing.
    + unfold holds. rewrite Hp. intros b Hb2. rewrite Ee in Hb2.
      apply opened_snoc in Hb2 as [[? _]|(b' & _ & [] & _)]; done.
    + rewrite Ha, Hact. done.
  - constructor; rewrite ?El; [| | |done|done].
    + by eapply shows_snoc.
    + by eapply holds_snoc.
    + rewrite Ha, Hact. done.
Qed.

Lemma tracks_empty m : _pending m = None -> _visible m = [] -> _observed_at m = None -> tracks m [].
Proof.
  intros Hp Hv Ho. constructor; unfold shows, holds; rewrite ?Hp, ?Ho; try done.
  - split; [done|exact no_batch_nil].
  - exact no_open_nil.
  - constructor.
Qed.

Lemma tracks_step m l c :
  tracks m l -> tracks (log_step (m, l) c).1 (log_step (m, l) c).2.
Proof.
  intros Ht. destruct c as [|g| |g q kind code data t clock]; cbn [log_step fst snd bridge_step].
  - by apply tracks_empty.
  - unfold end_. destruct (negb (g =? _generation m) || negb (_active m)); [done|]. by apply tracks_empty.
  - destruct Ht as [Hs Hh Hi Ho Hb]. unfold abort_pending.
    constructor; rewrite ?fmap_app, ?omap_app, ?app_nil_r; cbn [fmap list_fmap omap list_omap fst snd];
      rewrite ?app_nil_r; try done.
    + by eapply shows_snoc.
    + by eapply holds_snoc.
  - destruct (_active m && (g =? _generation m) && (_last_sequence m <? q)) eqn:E.
    + by apply tracks_apply.
    + by rewrite apply_refused.
Qed.

Lemma tracks_run name calls : tracks (log_run name calls).1 (log_run name calls).2.
Proof.
  unfold log_run. induction calls as [|c calls IH] using rev_ind.
  - by apply tracks_empty.
  - rewrite fold_left_app. cbn [fold_left].
    destruct (fold_left log_step calls (new_bridge name, [])) as [m l]. by apply tracks_step.
Qed.

(** C31. Through every sequence of calls the visible fields are exactly those of the last
    complete [mdst]-[mden] batch of the current session, or none: no batch that was
    aborted, malformed, restarted, stale or unbatched contributes a field, and the
    sequence numbers that contributed strictly increase. *)
Theorem visible_is_one_batch name calls :
  let '(m, l) := log_run name calls in
  ForallOrdPairs Z.lt (omap fst l)
  /\ match _observed_at m with
     | Some t => last_batch l.*2 (text_fields m) t
     | None => text_fields m = [] /\ no_batch l.*2
     end.
Proof.
  pose proof (tracks_run name calls) as Ht. destruct (log_run name calls) as [m l].
  cbn [fst snd] in Ht. destruct Ht as [Hs _ Hi Ho _]. split; [done|].
  unfold text_fields, shows in *. destruct (_active m); [done|]. rewrite Hi in Hs; done.
Qed.

End Batches.

(** A complete batch, then one whose text is not UTF-8: the first stays visible. *)
Example malformed_batch_is_dropped :
  let ev q kind code data := BApply 1 q kind code data None {| dt_us := 7; dt_offset := Some 0 |} in
  text_fields (log_run (fun _ => true) "Box"
    [BBegin; ev 1 "ssnc" "mdst" []; ev 2 "core" "minm" [65; 32]; ev 3 "core" "asar" [66]; ev 4 "ssnc" "mden" [];
     ev 5 "ssnc" "mdst" []; ev 6 "core" "minm" [255]; ev 7 "core" "asar" [67]; ev 8 "ssnc" "mden" []]).1
  = [("track", [65]); ("artist", [66])].
Proof. vm_compute. reflexivity. Qed.

End Bridge.
