(* ===== verification/Ingress.v ===== *)
(** * Device protocol ingress
    (app/core/device_ingress.py, app/core/ingress_budget.py, app/core/protocol_identity.py)

    What stands between a device on the network and its handler: the peer policy, the
    process-shared budget (lock files for the active slots, a token bucket per peer for
    the rate), the bounded body and the identity and account bindings.  The requests of
    all workers run at once over one world, cut at every [await] of the sources; a worker
    may exit at any time.  XML parsing ([defusedxml]) is a parameter, and a stored rate
    row is kept as the JSON value its text denotes. *)
From Stdlib Require Import Ascii String.
From stdpp Require Import gmap.
From S2P Require Import Prelude PyNum PyStr Json Sha256.
#[local] Open Scope string_scope.
#[local] Open Scope list_scope.
#[local] Open Scope Z_scope.

Module Ingress.

(** ** [ipaddress.ip_address] *)
Definition slen (s : string) : Z := Z.of_nat (String.length s).

Definition octet (s : string) : option Z :=
  if negb (py_isdigit s) || (3 <? slen s) || (negb (bool_decide (s = "0")) && starts_with "0" s) then None
  else let v := digits_value 0 s in if 255 <? v then None else Some v.

Definition ipv4 (s : string) : option Z :=
  match split_on "."%char s with
  | [a; b; c; d] =>
      a ← octet a; b ← octet b; c ← octet c; d ← octet d;
      Some (((a * 256 + b) * 256 + c) * 256 + d)
  | _ => None
  end.

Fixpoint hex_value (acc : Z) (s : string) : option Z :=
  match s with
  | EmptyString => Some acc
  | String c s => h ← hex_digit (code c); hex_value (16 * acc + h) s
  end.
Definition hextet (s : string) : option Z :=
  if (4 <? slen s) || empty_str s then None else hex_value 0 s.

(** ['%x' % n] for a 16-bit [n]. *)
Definition hex_text (n : Z) : string :=
  let d := [n / 4096; n / 256 mod 16; n / 16 mod 16; n mod 16] in
  let d := if n <? 16 then [n] else if n <? 256 then skipn 2 d else if n <? 4096 then skipn 1 d else d in
  string_of (map hex_char d).

(** The parts with a trailing dotted quad as two hextets. *)
Definition quad_parts (parts : list string) : option (list string) :=
  match list.last parts with
  | Some p =>
      if bool_decide (length (split_on "."%char p) = 1%nat) then Some parts
      else v ← ipv4 p; Some (removelast parts ++ [hex_text (v / 65536); hex_text (v mod 65536)])
  | None => None
  end.

Definition hextets (acc : Z) (l : list string) : option Z :=
  fold_left (fun acc p => acc ← acc; h ← hextet p; Some (acc * 65536 + h)) l (Some acc).

Definition ipv6 (s : string) : option Z :=
  let parts := split_on ":"%char s in
  if (length parts <? 3)%nat then None
  else
    parts ← quad_parts parts;
    let n := length parts in
    if (9 <? n)%nat then None
    else match List.filter (fun i => empty_str (nth i parts "")) (seq 1 (n - 2)) with
    | [] =>
        if negb (n =? 8)%nat || empty_str (nth 0 parts "") || empty_str (nth (n - 1) parts "") then None
        else hextets 0 parts
    | [skip] =>
        let hi := if empty_str (nth 0 parts "") then (skip - 1)%nat else skip in
        let lo := if empty_str (nth (n - 1) parts "") then (n - skip - 2)%nat else (n - skip - 1)%nat in
        if (empty_str (nth 0 parts "") && negb (hi =? 0)%nat)
           || (empty_str (nth (n - 1) parts "") && negb (lo =? 0)%nat) then None
        else if (8 <? hi + lo + 1)%nat then None
        else v ← hextets 0 (firstn hi parts);
             hextets (v * 2 ^ (16 * (8 - Z.of_nat (hi + lo)))) (skipn (n - lo) parts)
    | _ => None
    end.

Inductive address : Type := IPv4Address (ip : Z) | IPv6Address (ip : Z).

Definition ip_address (s : string) : option address :=
  match ipv4 s with
  | Some v => Some (IPv4Address v)
  | None => IPv6Address <$> ipv6 s
  end.

Definition text_of_int (n : Z) : string := string_of (print_int n).

(** [sep.join(l)]. *)
Fixpoint join (sep : string) (l : list string) : string :=
  match l with [] => "" | [x] => x | x :: l => x +:+ sep +:+ join sep l end.

(** [_compress_hextets]: the first longest run of zeros, from [i] on. *)
Fixpoint zero_runs (i : nat) (run : nat) (best : nat * nat) (l : list string) : nat * nat :=
  match l with
  | [] => best
  | h :: l =>
      if bool_decide (h = "0")
      then zero_runs (S i) (S run) (if (best.2 <? S run)%nat then ((i - run)%nat, S run) else best) l
      else zero_runs (S i) 0 best l
  end.
Definition compress_hextets (l : list string) : list string :=
  let '(start, n) := zero_runs 0 0 (0%nat, 0%nat) l in
  if (1 <? n)%nat then
    (if (start =? 0)%nat then [""] else []) ++ firstn start l ++ [""]
      ++ (if (start + n =? length l)%nat then [""] else skipn (start + n) l)
  else l.

Definition address_text (a : address) : string :=
  match a with
  | IPv4Address v => join "." (map text_of_int [v / 16777216; v / 65536 mod 256; v / 256 mod 256; v mod 256])
  | IPv6Address v =>
      join ":" (compress_hextets (map (fun i => hex_text (v / 2 ^ (16 * Z.of_nat (7 - i)) mod 65536)) (seq 0 8)))
  end.

Definition is_unspecified (a : address) : bool :=
  match a with IPv4Address v | IPv6Address v => v =? 0 end.
Definition is_multicast (a : address) : bool :=
  match a with IPv4Address v => v / 2 ^ 28 =? 14 | IPv6Address v => v / 2 ^ 120 =? 255 end.
Definition unmapped (a : address) : address :=
  match a with
  | IPv6Address v => if v / 2 ^ 32 =? 65535 then IPv4Address (v mod 2 ^ 32) else a
  | _ => a
  end.

(** ** device_ingress.py: peers and bindings *)
Definition canonical_peer (value : string) : string :=
  if bool_decide (length (split_on "%"%char value) <> 1%nat) then ""
  else match ip_address value with
       | None => ""
       | Some a => let a := unmapped a in
                   if is_unspecified a || is_multicast a then "" else address_text a
       end.

(** The rows of [Device] the bindings read. *)
Record device_row := { row_device : string; row_address : string; row_info : option string }.

Definition same_device (a b : string) : bool := bool_decide (py_upper a = py_upper b).
Definition at_peer (peer : string) (row : device_row) : bool := bool_decide (canonical_peer (row_address row) = peer).

Definition cached_device_peer (rows : list device_row) (device_id : string) : option string :=
  match List.filter (fun row => same_device (row_device row) device_id) rows with
  | [row] =>
      let peer := canonical_peer (row_address row) in
      if empty_str peer || negb (length (List.filter (at_peer peer) rows) =? 1)%nat then None else Some peer
  | _ => None
  end.

Definition cached_account_binding (account_from_info : string -> string) (rows : list device_row)
    (peer account_id : string) (device_id : option string) : bool :=
  match List.filter (at_peer peer) rows with
  | [row] => negb (empty_str account_id)
             && match device_id with None => true | Some d => same_device (row_device row) d end
             && bool_decide (account_from_info (default "" (row_info row)) = account_id)
  | _ => false
  end.

(** ** ingress_budget.py *)
Definition PREFIX : string := "device-ingress-budget:".
Definition budget_key (peer : string) : string := PREFIX +:+ sha256_hex peer.

(** [DeviceOwnership.leaf]: the lock file of a slot. *)
Definition lock_leaf (identity : string) : string := sha256_hex (py_upper (py_strip identity)) +:+ ".lock".
Definition slot_leaf (namespace : string) (i : nat) : string :=
  lock_leaf (namespace +:+ ":" +:+ text_of_int (Z.of_nat i)).
Definition global_leaf : nat -> string := slot_leaf "global".
Definition peer_leaf (peer : string) : nat -> string := slot_leaf ("peer:" +:+ sha256_hex peer).

Definition float_of (n : Z) : pynum := PFloat (FFin (n * UNIT)).

(** [IngressBudgetUnavailable], or any exception [acquire] turns into it. *)
Inductive unavailable : Type := Unavailable.

Definition rate_row (tokens now : pynum) : json :=
  JObj [("version", JNum (PInt 1)); ("tokens", JNum tokens); ("observed", JNum now)].

(** [type(x) in (int, float)] and [math.isfinite(x)]. *)
Definition finite_number (v : option json) : res unavailable pynum :=
  match v with
  | Some (JNum x) => match isfinite x with Ok true => Ok x | _ => Err Unavailable end
  | _ => Err Unavailable
  end.

(** [min(burst, tokens + (now - observed) * rate)]. *)
Definition refill (burst rate tokens observed now : pynum) : pynum :=
  let x := num_add tokens (num_mul (num_sub now observed) rate) in
  if num_lt x burst then x else burst.

(** The answer and the row as the transaction leaves it; [Some None] is a row whose text
    is not JSON. *)
Definition take_token (tokens now : pynum) (row : option (option json)) : bool * option (option json) :=
  if num_lt tokens (PInt 1) then (false, row)
  else (true, Some (Some (rate_row (num_sub tokens (PInt 1)) now))).

Definition _reserve_rate (burst rate now : pynum) (row : option (option json))
    : res unavailable (bool * option (option json)) :=
  now ← finite_number (Some (JNum now));
  if num_lt now (PInt 0) then Err Unavailable
  else match row with
  | None => Ok (take_token burst now row)
  | Some (Some (JObj kvs)) =>
      if negb (same_set kvs.*1 ["version"; "tokens"; "observed"])
         || match get "version" kvs with Some (JNum (PInt 1)) => false | _ => true end
      then Err Unavailable
      else
        tokens ← finite_number (get "tokens" kvs);
        observed ← finite_number (get "observed" kvs);
        if negb (num_le (PInt 0) tokens && num_le tokens burst) || num_lt observed (PInt 0) then Err Unavailable
        else if num_lt now observed then Ok (false, row)
        else Ok (take_token (refill burst rate tokens observed now) now row)
  | Some _ => Err Unavailable
  end.

(** ** The listener *)
Definition MAX_BODY : Z := 1024 * 1024.
Definition MAX_HEADERS : Z := 16 * 1024.
Definition MAX_TARGET : Z := 8192.
Definition BURST : pynum := float_of 120.
Definition RATE : pynum := float_of 2.
Definition MAX_ACTIVE : nat := 4.
Definition MAX_TOTAL_ACTIVE : nat := 32.

(** [DeviceIngress.peers], [None] when the policy is not valid. *)
Definition make_peers (peers : list string) : option (list string) :=
  let normalized := map canonical_peer peers in
  if negb (bool_decide (normalized = [])) && (length normalized <=? 256)%nat
     && forallb (fun p => negb (empty_str p)) normalized
  then Some normalized else None.

Record scope := {
  client : option string; headers : list (string * string); raw_path : Z; query_string : Z }.
Record arguments := { device_id : option string; account_id : option string; registration : bool }.

Inductive outcome : Type :=
| Reject (error : string) (status : Z)
| Gone                                   (* the client went away, or an exception *)
| Returned.                              (* the handler returned *)

Definition bytes_space (c : ascii) : bool := (code c =? 32) || ((9 <=? code c) && (code c <=? 13)).
Fixpoint bytes_lstrip (s : string) : string :=
  match s with String c r => if bytes_space c then bytes_lstrip r else s | EmptyString => s end.
Fixpoint bytes_rev (acc s : string) : string :=
  match s with String c r => bytes_rev (String c acc) r | EmptyString => acc end.
(** [bytes.strip]. *)
Definition bytes_strip (s : string) : string :=
  bytes_rev "" (bytes_lstrip (bytes_rev "" (bytes_lstrip s))).

Definition header_values (name : string) (s : scope) : list string :=
  map snd (List.filter (fun h => bool_decide (py_lower h.1 = name)) (headers s)).

(** The checks before the budget: the peer and the declared length of the body. *)
Definition admit_scope (peers : option (list string)) (s : scope) : outcome + (string * option Z) :=
  match peers with
  | None => inl (Reject "DEVICE_PEER_POLICY_UNAVAILABLE" 503)
  | Some peers =>
      let peer := canonical_peer (default "" (client s)) in
      let lengths := header_values "content-length" s in
      if negb (bool_decide (peer ∈ peers)) then inl (Reject "DEVICE_PEER_DENIED" 403)
      else if (MAX_HEADERS <? fold_right Z.add 0 (map (fun h => slen h.1 + slen h.2) (headers s)))
              || (MAX_TARGET <? raw_path s + query_string s)
      then inl (Reject "DEVICE_REQUEST_TOO_LARGE" 413)
      else if (1 <? length lengths)%nat || existsb (fun v => negb (py_isdigit v) || (10 <? slen v)) lengths
              || existsb (fun v => negb (bool_decide (py_lower (bytes_strip v) = "identity")))
                         (header_values "content-encoding" s)
      then inl (Reject "DEVICE_REQUEST_FRAMING" 400)
      else match digits_value 0 <$> head lengths with
           | Some n => if MAX_BODY <? n then inl (Reject "DEVICE_REQUEST_TOO_LARGE" 413) else inr (peer, Some n)
           | None => inr (peer, None)
           end
  end.

(** Where a request is: what it awaits, with the slots it holds. *)
Inductive phase : Type :=
| PGlobal (i : nat)                              (* the [i]-th global slot *)
| PPeer (g i : nat)                              (* the [i]-th slot of the peer *)
| PRate (g p : nat)
| PBody (g p : nat) (body : list Z)
| PIdentity (g p : nat) (body : list Z) (device : string)
| PAccount (g p : nat) (body : list Z) (device : option string) (account : string)
| PApp (g p : nat) (body : list Z) (device : option string) (consumed : bool)
| PReply (g p : nat) (o : outcome)               (* sending a rejection *)
| PDone (o : outcome).

Record request := {
  peer : string; content_length : option Z; arguments_of : arguments; rq_phase : phase }.
Definition set_phase (p : phase) (r : request) : request :=
  {| peer := peer r; content_length := content_length r; arguments_of := arguments_of r; rq_phase := p |}.

(** A worker and the number of one of its requests. *)
Definition rid : Type := nat * nat.

Record world := {
  locks : gmap string rid;
  rate_rows : gmap string (option json);
  requests : gmap rid request }.
Definition empty_world : world := {| locks := ∅; rate_rows := ∅; requests := ∅ |}.

Inductive message : Type := Disconnect | Chunk (body : list Z) (more : bool).

Inductive input : Type :=
| IArrive (s : scope) (a : arguments)
| ISlot (ok : bool)                              (* [false]: the lock file cannot be verified *)
| IRate (now : pyfloat) (ok : bool)              (* the clock; [false]: the transaction failed *)
| IMessage (m : message)
| ITimeout
| IIdentity (device : string) (answer : option (option string))   (* [None]: it raised *)
| IAccount (at_ account : string) (device : option string) (answer : option bool)
| IReceive                                       (* the handler receives *)
| IEnd                                           (* the handler returned, or the reply was sent *)
| ICancel.                                       (* cancelled, or an exception of the server or handler *)

Inductive event : Type := On (id : rid) (i : input) | Exit (worker : nat).

(** The lock files a request has open. *)
Definition held (r : request) : list string :=
  match rq_phase r with
  | PGlobal _ | PDone _ => []
  | PPeer g _ => [global_leaf g]
  | PRate g p | PBody g p _ | PIdentity g p _ _ | PAccount g p _ _ _ | PApp g p _ _ _ | PReply g p _ =>
      [global_leaf g; peer_leaf (peer r) p]
  end.

Section Handler.
Context (registration_device_id : list Z -> option string).

Definition bad_identifier (s : string) : bool := empty_str s || (128 <? py_len s).

(** After the identity: the account, then the handler. *)
Definition account_phase (r : request) (g p : nat) (body : list Z) (device : option string) : phase :=
  match account_id (arguments_of r) with
  | Some a => if bad_identifier a then PReply g p (Reject "DEVICE_ACCOUNT_DENIED" 403)
              else PAccount g p body device a
  | None => PApp g p body device false
  end.
Definition identity_phase (r : request) (g p : nat) (body : list Z) (device : option string) : phase :=
  match device with
  | Some d => if bad_identifier d then PReply g p (Reject "DEVICE_IDENTITY_DENIED" 403)
              else PIdentity g p body d
  | None => account_phase r g p body None
  end.
(** The whole body was received. *)
Definition body_phase (r : request) (g p : nat) (body : list Z) : phase :=
  let device := device_id (arguments_of r) in
  if match content_length r with Some n => negb (Z.of_nat (length body) =? n) | None => false end
  then PReply g p (Reject "DEVICE_REQUEST_FRAMING" 400)
  else if registration (arguments_of r) then
    match registration_device_id body with
    | None => PReply g p (Reject "DEVICE_REGISTRATION_INVALID" 400)
    | Some b => if match device with Some d => negb (bool_decide (d = b)) | None => false end
                then PReply g p (Reject "DEVICE_IDENTITY_DENIED" 403)
                else identity_phase r g p body (Some b)
    end
  else identity_phase r g p body device.

(** What the handler of an admitted request receives first; afterwards it receives from
    the server. *)
Definition bounded_receive (body : list Z) (consumed : bool) (next : message) : message :=
  if consumed then next else Chunk body false.

Definition put_request (id : rid) (r : request) (w : world) : world :=
  {| locks := locks w; rate_rows := rate_rows w; requests := <[id := r]> (requests w) |}.
Definition put_lock (leaf : string) (id : rid) (w : world) : world :=
  {| locks := <[leaf := id]> (locks w); rate_rows := rate_rows w; requests := requests w |}.
Definition put_row (key : string) (row : option (option json)) (w : world) : world :=
  {| locks := locks w; rate_rows := partial_alter (fun _ => row) key (rate_rows w); requests := requests w |}.
(** [slot.release()] for every slot of the request, and its end. *)
Definition conclude (id : rid) (r : request) (o : outcome) (w : world) : world :=
  {| locks := fold_right delete (locks w) (held r); rate_rows := rate_rows w;
     requests := <[id := set_phase (PDone o) r]> (requests w) |}.
Definition go (id : rid) (r : request) (p : phase) (w : world) : world := put_request id (set_phase p r) w.

(** One attempt of [_slot]: a lock file another request holds is skipped. *)
Definition try_slot (w : world) (leaf : string) (next taken : world) : world :=
  match locks w !! leaf with Some _ => next | None => taken end.

Definition arrive (peers : option (list string)) (id : rid) (s : scope) (a : arguments) (w : world) : world :=
  match admit_scope peers s with
  | inl o => put_request id {| peer := ""; content_length := None; arguments_of := a; rq_phase := PDone o |} w
  | inr (peer, n) =>
      put_request id {| peer := peer; content_length := n; arguments_of := a; rq_phase := PGlobal 0 |} w
  end.

Definition UNAVAILABLE : outcome := Reject "DEVICE_BUDGET_UNAVAILABLE" 503.
Definition LIMITED : outcome := Reject "DEVICE_RATE_LIMITED" 429.

(** One step of one request; [None] when it does not wait for this. *)
Definition request_step (id : rid) (r : request) (i : input) (w : world) : option world :=
  match rq_phase r, i with
  | PDone _, _ => None
  | _, ICancel => Some (conclude id r Gone w)
  | PGlobal n, ISlot ok =>
      Some (if negb ok then conclude id r UNAVAILABLE w
            else try_slot w (global_leaf n)
                   (if (S n <? MAX_TOTAL_ACTIVE)%nat then go id r (PGlobal (S n)) w else conclude id r LIMITED w)
                   (put_lock (global_leaf n) id (go id r (PPeer n 0) w)))
  | PPeer g n, ISlot ok =>
      Some (if negb ok then conclude id r UNAVAILABLE w
            else try_slot w (peer_leaf (peer r) n)
                   (if (S n <? MAX_ACTIVE)%nat then go id r (PPeer g (S n)) w else conclude id r LIMITED w)
                   (put_lock (peer_leaf (peer r) n) id (go id r (PRate g n) w)))
  | PRate g p, IRate now ok =>
      Some (if negb ok then conclude id r UNAVAILABLE w
            else match _reserve_rate BURST RATE (PFloat now) (rate_rows w !! budget_key (peer r)) with
                 | Err _ => conclude id r UNAVAILABLE w
                 | Ok (granted, row) =>
                     let w := put_row (budget_key (peer r)) row w in
                     if granted then go id r (PBody g p []) w else conclude id r LIMITED w
                 end)
  | PBody g p body, IMessage Disconnect => Some (conclude id r Gone w)
  | PBody g p body, IMessage (Chunk chunk more) =>
      Some (if MAX_BODY <? Z.of_nat (length body + length chunk)
            then go id r (PReply g p (Reject "DEVICE_REQUEST_TOO_LARGE" 413)) w
            else if more then go id r (PBody g p (body ++ chunk)) w
            else go id r (body_phase r g p (body ++ chunk)) w)
  | PBody g p _, ITimeout => Some (go id r (PReply g p (Reject "DEVICE_REQUEST_TIMEOUT" 408)) w)
  | PIdentity g p body d, IIdentity asked answer =>
      if negb (bool_decide (asked = d)) then None
      else Some (go id r (match answer with
        | None => PReply g p (Reject "DEVICE_IDENTITY_UNAVAILABLE" 503)
        | Some known =>
            if match known with Some k => bool_decide (canonical_peer k = peer r) | None => false end
            then account_phase r g p body (Some d)
            else PReply g p (Reject "DEVICE_IDENTITY_DENIED" 403)
        end) w)
  | PAccount g p body d a, IAccount at_ asked device answer =>
      if negb (bool_decide (at_ = peer r) && bool_decide (asked = a) && bool_decide (device = d)) then None
      else Some (go id r (match answer with
        | None => PReply g p (Reject "DEVICE_ACCOUNT_UNAVAILABLE" 503)
        | Some bound => if bound then PApp g p body d false
                        else PReply g p (Reject "DEVICE_ACCOUNT_DENIED" 403)
        end) w)
  | PApp g p body d _, IReceive => Some (go id r (PApp g p body d true) w)
  | PApp _ _ _ _ _, IEnd => Some (conclude id r Returned w)
  | PReply _ _ o, IEnd => Some (conclude id r o w)
  | _, _ => None
  end.

(** The process of a worker exits: the kernel drops its locks. *)
Definition exit_worker (worker : nat) (w : world) : world :=
  {| locks := filter (fun kv => (kv.2).1 <> worker) (locks w); rate_rows := rate_rows w;
     requests := map_imap (fun id r => Some (if bool_decide (id.1 = worker) then set_phase (PDone Gone) r else r))
                          (requests w) |}.

Definition ingress_step (peers : option (list string)) (e : event) (w : world) : option world :=
  match e with
  | Exit worker => Some (exit_worker worker w)
  | On id i =>
      match requests w !! id, i with
      | None, IArrive s a => Some (arrive peers id s a w)
      | Some r, _ => request_step id r i w
      | None, _ => None
      end
  end.

Fixpoint ingress_run (peers : option (list string)) (l : list event) (w : world) : option world :=
  match l with
  | [] => Some w
  | e :: l => w ← ingress_step peers e w; ingress_run peers l w
  end.

End Handler.

Example peer_spellings :
  map canonical_peer ["192.168.1.20"; "::ffff:192.168.1.20"; "::FFFF:c0a8:0114"; "192.168.01.20"; "0.0.0.0"; "::";
                      "224.0.0.1"; "fe80:0:0:0:0001::"; "2001:db8::1:0:0:1"; "fe80::1%eth0"; "1:2:3:4:5:6:7::"; "::8:7:6:5:4:3:2"]
  = ["192.168.1.20"; "192.168.1.20"; "192.168.1.20"; ""; ""; ""; ""; "fe80::1:0:0:0"; "2001:db8::1:0:0:1"; "";
     "1:2:3:4:5:6:7:0"; "0:8:7:6:5:4:3:2"].
Proof. vm_compute. reflexivity. Qed.


(** ** The slots

    A lock file is open in exactly one request, and the slots of a request are among
    those its worker tries. *)
#[local] Opaque sha256_hex slot_leaf global_leaf peer_leaf budget_key.

Section Slots.
Context (registration_device_id : list Z -> option string) (peers : option (list string)).
Notation run := (ingress_run registration_device_id peers).
Notation step := (ingress_step registration_device_id peers).

(** The numbers of the slots a request holds or tries. *)
Definition slots_ok (p : phase) : Prop :=
  match p with
  | PGlobal i => (i < MAX_TOTAL_ACTIVE)%nat
  | PPeer g i => (g < MAX_TOTAL_ACTIVE)%nat /\ (i < MAX_ACTIVE)%nat
  | PRate g p | PBody g p _ | PIdentity g p _ _ | PAccount g p _ _ _ | PApp g p _ _ _ | PReply g p _ =>
      (g < MAX_TOTAL_ACTIVE)%nat /\ (p < MAX_ACTIVE)%nat
  | PDone _ => True
  end.

Record locked (w : world) : Prop := {
  l_held : forall leaf id, locks w !! leaf = Some id <-> exists r, requests w !! id = Some r /\ leaf ∈ held r;
  l_slots : forall id r, requests w !! id = Some r -> slots_ok (rq_phase r) }.

(** A step of one request that keeps its slots. *)
Lemma locked_go w id r r' :
  locked w -> requests w !! id = Some r -> held r' = held r -> slots_ok (rq_phase r') ->
  locked (put_request id r' w).
Proof.
  intros [Hh Hs] Hr Eh Hok. split; cbn [locks requests put_request].
  - intros leaf i. rewrite Hh. destruct (decide (i = id)) as [->|Hne].
    + rewrite lookup_insert_eq, Hr. split; intros (x & [= <-] & Hin); eexists; (split; [done|]); congruence.
    + by rewrite lookup_insert_ne by done.
  - intros i x Hx. destruct (decide (i = id)) as [->|Hne].
    + rewrite lookup_insert_eq in Hx. injection Hx as <-. done.
    + rewrite lookup_insert_ne in Hx by done. by apply (Hs i).
Qed.

(** A request takes a free lock file. *)
Lemma locked_take w id r p leaf :
  locked w -> requests w !! id = Some r -> locks w !! leaf = None ->
  (forall x, x ∈ held (set_phase p r) <-> x = leaf \/ x ∈ held r) -> slots_ok p ->
  locked (put_lock leaf id (go id r p w)).
Proof.
  intros [Hh Hs] Hr Hfree Eh Hok. split; cbn [locks requests put_lock go put_request].
  - intros x i. destruct (decide (x = leaf)) as [->|Hx].
    + rewrite lookup_insert_eq. split.
      * intros [= <-]. rewrite lookup_insert_eq. eexists; split; [done|]. apply Eh. by left.
      * intros (r' & Hr' & Hin). destruct (decide (i = id)) as [->|Hne]; [done|].
        rewrite lookup_insert_ne in Hr' by done.
        assert (locks w !! leaf = Some i) as E by (apply Hh; eauto). congruence.
    + rewrite lookup_insert_ne by done. rewrite Hh. destruct (decide (i = id)) as [->|Hne].
      * rewrite lookup_insert_eq, Hr. split; intros (r' & [= <-] & Hin); eexists; (split; [done|]).
        -- apply Eh. by right.
        -- apply Eh in Hin as [->|Hin]; done.
      * by rewrite lookup_insert_ne by done.
  - intros i x Hx. destruct (decide (i = id)) as [->|Hne].
    + rewrite lookup_insert_eq in Hx. injection Hx as <-. done.
    + rewrite lookup_insert_ne in Hx by done. by apply (Hs i).
Qed.

Lemma lookup_delete_all (l : list string) (m : gmap string rid) x :
  fold_right delete m l !! x = if decide (x ∈ l) then None else m !! x.
Proof.
  induction l as [|y l IH]; cbn.
  - rewrite decide_False by (by intros ?%elem_of_nil). done.
  - destruct (decide (x = y)) as [->|Hne].
    + rewrite lookup_delete_eq, decide_True by left. done.
    + rewrite lookup_delete_ne, IH by done. apply decide_ext. rewrite elem_of_cons. naive_solver.
Qed.

Lemma locked_conclude w id r o : locked w -> requests w !! id = Some r -> locked (conclude id r o w).
Proof.
  intros [Hh Hs] Hr. split; cbn [locks requests conclude].
  - intros x i. rewrite lookup_delete_all. destruct (decide (i = id)) as [->|Hne].
    + rewrite lookup_insert_eq. split.
      * destruct (decide (x ∈ held r)) as [|Hn]; [done|]. intros (r' & Hr' & Hin)%Hh. congruence.
      * intros (r' & [= <-] & []%elem_of_nil).
    + rewrite lookup_insert_ne by done. rewrite <- Hh. destruct (decide (x ∈ held r)) as [Hin|]; [|done].
      split; [done|]. intros E. assert (locks w !! x = Some id) by (apply Hh; eauto). congruence.
  - intros i x Hx. destruct (decide (i = id)) as [->|Hne].
    + rewrite lookup_insert_eq in Hx. injection Hx as <-. done.
    + rewrite lookup_insert_ne in Hx by done. by apply (Hs i).
Qed.

Lemma locked_rows w key row : locked w -> locked (put_row key row w).
Proof. intros [Hh Hs]. split; cbn; done. Qed.

Lemma locked_exit w worker : locked w -> locked (exit_worker worker w).
Proof.
  intros [Hh Hs]. split; cbn [locks requests exit_worker].
  - intros x i. rewrite map_lookup_filter_Some, Hh. cbn [snd].
    setoid_rewrite map_lookup_imap. split.
    + intros [(r & Hr & Hin) Hne]. exists r. rewrite Hr. cbn. by rewrite bool_decide_false by done.
    + intros (r & Hr & Hin). destruct (requests w !! i) as [r0|]; [|done]. cbn in Hr.
      case_bool_decide; injection Hr as <-; [by apply elem_of_nil in Hin|]. split; [by exists r0|done].
  - intros i r Hr. rewrite map_lookup_imap in Hr. destruct (requests w !! i) as [r0|] eqn:E; [|done].
    cbn in Hr. case_bool_decide; injection Hr as <-; [done|by apply (Hs i)].
Qed.

(** The phase after the body keeps the slots. *)
Definition keeps (r : request) (g p : nat) (ph : phase) : Prop :=
  held (set_phase ph r) = [global_leaf g; peer_leaf (peer r) p]
  /\ ((g < MAX_TOTAL_ACTIVE)%nat /\ (p < MAX_ACTIVE)%nat -> slots_ok ph).

Lemma account_keeps r g p body d : keeps r g p (account_phase r g p body d).
Proof. unfold account_phase. repeat case_match; by split. Qed.
Lemma identity_keeps r g p body d : keeps r g p (identity_phase r g p body d).
Proof. unfold identity_phase. repeat case_match; try (by split); apply account_keeps. Qed.
Lemma body_keeps r g p body : keeps r g p (body_phase registration_device_id r g p body).
Proof.
  unfold body_phase.
  destruct (match content_length r with Some n => _ | None => false end); [by split|].
  destruct (registration (arguments_of r)); [|apply identity_keeps].
  destruct (registration_device_id body); [|by split].
  destruct (match device_id (arguments_of r) with Some d => _ | None => false end); [by split|apply identity_keeps].
Qed.

Lemma locked_keeps w id r g p ph :
  locked w -> requests w !! id = Some r -> held r = [global_leaf g; peer_leaf (peer r) p] ->
  (g < MAX_TOTAL_ACTIVE)%nat /\ (p < MAX_ACTIVE)%nat -> keeps r g p ph -> locked (go id r ph w).
Proof. intros Hw Hr Eh Hs [Ek Hk]. eapply locked_go; [done|done|by rewrite Ek, Eh|by apply Hk]. Qed.

Lemma locked_request w id r i w' :
  locked w -> requests w !! id = Some r -> request_step registration_device_id id r i w = Some w' -> locked w'.
Proof.
  intros Hw Hr Hstep. pose proof (l_slots w Hw id r Hr) as Hs. unfold request_step in Hstep.
  destruct (rq_phase r) as [n|g n|g p|g p body|g p body d|g p body d a|g p body d c|g p o|o] eqn:Ep, i;
    try discriminate; try (injection Hstep as <-); try (by apply locked_conclude).
  - destruct ok; cbn [negb]; [|by apply locked_conclude]. unfold try_slot.
    destruct (locks w !! global_leaf n) eqn:El.
    + destruct (S n <? MAX_TOTAL_ACTIVE)%nat eqn:En; [|by apply locked_conclude].
      apply Nat.ltb_lt in En. eapply locked_go; [done|done|by unfold held; rewrite Ep|done].
    + eapply locked_take; [done|done|done| |cbn; unfold MAX_ACTIVE; split; [done|lia]].
      intros x. unfold held. rewrite Ep. cbn. rewrite list_elem_of_singleton. split; [by left|].
      by intros [->|?%elem_of_nil].
  - destruct ok; cbn [negb]; [|by apply locked_conclude]. unfold try_slot.
    destruct (locks w !! peer_leaf (peer r) n) eqn:El.
    + destruct (S n <? MAX_ACTIVE)%nat eqn:En; [|by apply locked_conclude].
      apply Nat.ltb_lt in En. destruct Hs. eapply locked_go; [done|done|by unfold held; rewrite Ep|done].
    + eapply locked_take; [done|done|done| |done].
      intros x. unfold held. rewrite Ep. cbn. rewrite elem_of_cons, !list_elem_of_singleton. tauto.
  - destruct ok; cbn [negb]; [|by apply locked_conclude].
    destruct (_reserve_rate _ _ _ _) as [[granted row]|]; [|by apply locked_conclude].
    assert (locked (put_row (budget_key (peer r)) row w)) as Hw' by by apply locked_rows.
    destruct granted; [|by apply locked_conclude].
    eapply locked_go; [done|done|by unfold held; rewrite Ep|done].
  - destruct m as [|chunk more]; injection Hstep as <-; [by apply locked_conclude|].
    destruct (MAX_BODY <? _); [|destruct more];
      (eapply locked_keeps; [done|done|by unfold held; rewrite Ep|done|]); try by split.
    apply body_keeps.
  - eapply locked_keeps; [done|done|by unfold held; rewrite Ep|done|by split].
  - case_bool_decide; [|done]. injection Hstep as <-. destruct answer as [known|];
      (eapply locked_keeps; [done|done|by unfold held; rewrite Ep|done|]); [|by split].
    destruct (match known with Some k => _ | None => false end); [apply account_keeps|by split].
  - destruct (bool_decide (at_ = _) && _ && _); [|done]. injection Hstep as <-.
    destruct answer as [[|]|]; (eapply locked_keeps; [done|done|by unfold held; rewrite Ep|done|by split]).
  - eapply locked_keeps; [done|done|by unfold held; rewrite Ep|done|by split].
Qed.

Lemma locked_step w e w' : locked w -> step e w = Some w' -> locked w'.
Proof.
  intros Hw. destruct e as [id i|worker]; cbn.
  - destruct (requests w !! id) as [r|] eqn:Hr.
    + by apply locked_request.
    + destruct i; try discriminate. intros [= <-]. unfold arrive.
      assert (forall r0, held r0 = [] -> slots_ok (rq_phase r0) -> locked (put_request id r0 w)) as Hnew.
      { intros r0 E0 H0. destruct Hw as [Hh Hs]. split; cbn.
        - intros x i. rewrite Hh. destruct (decide (i = id)) as [->|Hne].
          + rewrite lookup_insert_eq, Hr. split; [by intros (? & ? & _)|].
            intros (r & [= <-] & Hin). rewrite E0 in Hin. by apply elem_of_nil in Hin.
          + by rewrite lookup_insert_ne by done.
        - intros i x Hx. destruct (decide (i = id)) as [->|Hne].
          + rewrite lookup_insert_eq in Hx. by injection Hx as <-.
          + rewrite lookup_insert_ne in Hx by done. by apply (Hs i). }
      destruct (admit_scope peers s) as [o|[pr n]]; apply Hnew; cbn; unfold MAX_TOTAL_ACTIVE; try done; lia.
  - intros [= <-]. by apply locked_exit.
Qed.

Lemma locked_run l w w' : locked w -> run l w = Some w' -> locked w'.
Proof.
  revert w. induction l as [|e l IH]; intros w Hw; cbn; [by intros [= <-]|].
  destruct (step e w) as [w1|] eqn:E; [|done]. cbn. apply IH. by apply (locked_step w e).
Qed.

Lemma locked_empty : locked empty_world.
Proof.
  split; cbn.
  - intros leaf id. rewrite lookup_empty. split; [done|]. intros (r & Hr & _). done.
  - done.
Qed.
End Slots.

(** ** No more requests than slots *)
Definition served (r : request) : bool :=
  match rq_phase r with PGlobal _ | PPeer _ _ | PDone _ => false | _ => true end.

Lemma served_slots r : served r = true -> slots_ok (rq_phase r) ->
  exists g p, held r = [global_leaf g; peer_leaf (peer r) p] /\ (g < MAX_TOTAL_ACTIVE)%nat /\ (p < MAX_ACTIVE)%nat.
Proof.
  unfold served, held. intros Hs Hok.
  destruct (rq_phase r); try discriminate; cbn in Hok; destruct Hok; eexists _, _; eauto.
Qed.

(** Numbers below [n] given to different requests. *)
Lemma pigeonhole (slot : rid -> nat -> Prop) n (ids : list rid) :
  (forall i j k, slot i k -> slot j k -> i = j) ->
  NoDup ids -> (forall i, i ∈ ids -> exists k, slot i k /\ (k < n)%nat) -> (length ids <= n)%nat.
Proof.
  intros Hinj Hnd Hall.
  assert (exists ks, Forall2 slot ids ks /\ Forall (fun k => (k < n)%nat) ks) as (ks & Hks & Hn).
  { clear Hnd. induction ids as [|i ids IH]; [by exists []|].
    destruct IH as (ks & ? & ?); [intros j Hj; apply Hall; by right|].
    destruct (Hall i) as (k & ? & ?); [left|]. exists (k :: ks). split; by constructor. }
  assert (NoDup ks) as Hk.
  { clear Hall Hn. induction Hks as [|i k ids ks Hik Hks IH]; [constructor|].
    apply list.NoDup_cons in Hnd as [Hni Hnd]. constructor; [|by apply IH].
    intros Hin. apply Hni. clear -Hks Hik Hin Hinj.
    induction Hks as [|j k' ids ks Hj _ IH]; [by apply elem_of_nil in Hin|].
    apply elem_of_cons in Hin as [->|Hin]; [rewrite (Hinj i j k'); [left|done|done]|right; by apply IH]. }
  erewrite Forall2_length by exact Hks. rewrite <- (length_seq n 0).
  apply List.NoDup_incl_length; [by apply NoDup_ListNoDup|].
  intros k Hin%list_elem_of_In. apply in_seq. rewrite list.Forall_forall in Hn. specialize (Hn k Hin). lia.
Qed.

(** C36. The slots are exclusive and never leak: whatever the workers, their requests,
    failures, cancellations and exits do, a lock file is open in exactly the requests
    that hold it, one each; at most 32 requests are served at a time, at most 4 of one
    peer; and once no request is under way no lock is held. *)
Theorem slots_bounded registration_device_id peers l w :
  ingress_run registration_device_id peers l empty_world = Some w ->
  (forall leaf id, locks w !! leaf = Some id <-> exists r, requests w !! id = Some r /\ leaf ∈ held r) /\
  (forall ids, NoDup ids -> (forall id, id ∈ ids -> exists r, requests w !! id = Some r /\ served r = true) ->
     (length ids <= MAX_TOTAL_ACTIVE)%nat) /\
  (forall p ids, NoDup ids ->
     (forall id, id ∈ ids -> exists r, requests w !! id = Some r /\ served r = true /\ peer r = p) ->
     (length ids <= MAX_ACTIVE)%nat) /\
  ((forall id r, requests w !! id = Some r -> exists o, rq_phase r = PDone o) -> locks w = ∅).
Proof.
  intros Hrun. destruct (locked_run _ _ _ _ _ locked_empty Hrun) as [Hh Hs]. split; [exact Hh|]. split; [|split].
  - intros ids Hnd Hall. apply (pigeonhole (fun id g => locks w !! global_leaf g = Some id)); [congruence|done|].
    intros id Hin. destruct (Hall id Hin) as (r & Hr & Hv).
    destruct (served_slots r Hv (Hs id r Hr)) as (g & p & Eh & Hg & Hp). exists g. split; [|done].
    apply Hh. exists r. split; [done|]. rewrite Eh. left.
  - intros pe ids Hnd Hall. apply (pigeonhole (fun id p => locks w !! peer_leaf pe p = Some id)); [congruence|done|].
    intros id Hin. destruct (Hall id Hin) as (r & Hr & Hv & <-).
    destruct (served_slots r Hv (Hs id r Hr)) as (g & p & Eh & Hg & Hp). exists p. split; [|done].
    apply Hh. exists r. split; [done|]. rewrite Eh. right. left.
  - intros Hdone. apply map_empty. intros leaf. destruct (locks w !! leaf) as [id|] eqn:E; [|done].
    apply Hh in E as (r & Hr & Hin). destruct (Hdone id r Hr) as (o & Ho). unfold held in Hin.
    rewrite Ho in Hin. by apply elem_of_nil in Hin.
Qed.

(** ** What the handler may rely on *)
Section Authority.
Context (registration_device_id : list Z -> option string) (peers : option (list string)).
Notation run := (ingress_run registration_device_id peers).
Notation step := (ingress_step registration_device_id peers).

(** What one request was told, in order. *)
Definition told (id : rid) (l : list event) : list input :=
  omap (fun e => match e with On i x => if decide (i = id) then Some x else None | Exit _ => None end) l.
Definition chunks (t : list input) : list Z :=
  List.concat (omap (fun x => match x with IMessage (Chunk c _) => Some c | _ => None end) t).

Definition admitted (r : request) (t : list input) : Prop :=
  exists s, IArrive s (arguments_of r) ∈ t /\ admit_scope peers s = inr (peer r, content_length r).
(** The request took a token of its peer's bucket: at its turn, in the world of that
    moment, the row of the bucket had one, and it was written back without it. *)
Definition granted (id : rid) (pr : string) (l : list event) : Prop :=
  exists l1 l2 w1 w2 now row, l = l1 ++ On id (IRate now true) :: l2 /\
    run l1 empty_world = Some w1 /\ step (On id (IRate now true)) w1 = Some w2 /\
    _reserve_rate BURST RATE (PFloat now) (rate_rows w1 !! budget_key pr) = Ok (true, row) /\
    rate_rows w2 !! budget_key pr = row.
Definition complete (r : request) (t : list input) (body : list Z) : Prop :=
  body = chunks t /\ Z.of_nat (length body) <= MAX_BODY /\
  (forall n, content_length r = Some n -> Z.of_nat (length body) = n).
(** The identity the request claims: by its route, or by the registration it carries. *)
Definition claims (r : request) (body : list Z) (d : option string) : Prop :=
  if registration (arguments_of r)
  then registration_device_id body = d /\ d <> None /\
       (device_id (arguments_of r) = None \/ device_id (arguments_of r) = d)
  else d = device_id (arguments_of r).
Definition identified (r : request) (t : list input) (d : option string) : Prop :=
  forall x, d = Some x -> bad_identifier x = false /\
    exists k, IIdentity x (Some (Some k)) ∈ t /\ canonical_peer k = peer r.
Definition accounted (r : request) (t : list input) (d : option string) : Prop :=
  forall a, account_id (arguments_of r) = Some a -> bad_identifier a = false /\
    IAccount (peer r) a d (Some true) ∈ t.

(** [G]: the token was granted. *)
Definition evidence (G : Prop) (r : request) (t : list input) : Prop :=
  match rq_phase r with
  | PGlobal _ | PPeer _ _ | PRate _ _ => admitted r t /\ chunks t = []
  | PBody _ _ body => admitted r t /\ G /\ body = chunks t /\ Z.of_nat (length body) <= MAX_BODY
  | PIdentity _ _ body d =>
      admitted r t /\ G /\ complete r t body /\ claims r body (Some d) /\ bad_identifier d = false
  | PAccount _ _ body d a =>
      admitted r t /\ G /\ complete r t body /\ claims r body d /\ identified r t d /\
      account_id (arguments_of r) = Some a /\ bad_identifier a = false
  | PApp _ _ body d _ =>
      admitted r t /\ G /\ complete r t body /\ claims r body d /\ identified r t d /\ accounted r t d
  | PReply _ _ _ | PDone _ => True
  end.

Lemma run_app l1 l2 w : run (l1 ++ l2) w = w' ← run l1 w; run l2 w'.
Proof.
  revert w. induction l1 as [|e l1 IH]; intros w; [done|]. cbn.
  destruct (step e w) as [w1|]; [|done]. cbn. apply IH.
Qed.

Lemma told_snoc id l e : told id (l ++ [e]) =
  told id l ++ match e with On i x => if decide (i = id) then [x] else [] | Exit _ => [] end.
Proof.
  unfold told. rewrite omap_app. f_equal. destruct e as [i x|]; [|done]. cbn. by case_decide.
Qed.

Lemma chunks_snoc t x : chunks (t ++ [x]) =
  chunks t ++ match x with IMessage (Chunk c _) => c | _ => [] end.
Proof.
  unfold chunks. rewrite omap_app, concat_app. f_equal.
  destruct x as [| | |[|c more]| | | | | |]; cbn; try done. by rewrite app_nil_r.
Qed.

(** An input that brings no part of the body. *)
Definition quiet (x : input) : Prop := match x with IMessage (Chunk _ _) => False | _ => True end.
Lemma chunks_quiet t x : quiet x -> chunks (t ++ [x]) = chunks t.
Proof. intros Hx. rewrite chunks_snoc. destruct x as [| | |[|c m]| | | | | |]; try done; apply app_nil_r. Qed.

Lemma admitted_snoc r t x : admitted r t -> admitted r (t ++ [x]).
Proof. intros (s & Hin & E). exists s. split; [apply elem_of_app; by left|done]. Qed.
Lemma granted_snoc id pr l e : granted id pr l -> granted id pr (l ++ [e]).
Proof.
  intros (l1 & l2 & w1 & w2 & now & row & -> & H). exists l1, (l2 ++ [e]), w1, w2, now, row.
  split; [by rewrite <- app_assoc|done].
Qed.
Lemma complete_snoc r t x body : quiet x -> complete r t body -> complete r (t ++ [x]) body.
Proof. intros Hx (E & H). split; [by rewrite chunks_quiet|done]. Qed.
Lemma identified_snoc r t x d : identified r t d -> identified r (t ++ [x]) d.
Proof.
  intros H y E. destruct (H y E) as (Hb & k & Hin & Hk). split; [done|]. exists k.
  split; [apply elem_of_app; by left|done].
Qed.
(** The evidence of a phase of the handler, but for the account. *)
Ltac carry :=
  split; [by apply admitted_snoc|]; split; [by auto|]; split; [by apply complete_snoc|];
  split; [done|]; split; [by apply identified_snoc|].

(** The phases after the body carry their evidence. *)
Lemma account_evidence (G : Prop) r g p body d t :
  admitted r t -> G -> complete r t body -> claims r body d -> identified r t d ->
  evidence G (set_phase (account_phase r g p body d) r) t.
Proof.
  intros Ha Hg Hc Hd Hi. unfold account_phase. destruct (account_id (arguments_of r)) as [a|] eqn:Ea.
  - destruct (bad_identifier a) eqn:Eb; [done|]. cbn. by repeat (split; [done|]).
  - cbn. repeat (split; [done|]). intros a' E'. cbn in E'. congruence.
Qed.

Lemma identity_evidence (G : Prop) r g p body d t :
  admitted r t -> G -> complete r t body -> claims r body d ->
  evidence G (set_phase (identity_phase r g p body d) r) t.
Proof.
  intros Ha Hg Hc Hd. unfold identity_phase. destruct d as [d|].
  - destruct (bad_identifier d) eqn:Eb; [done|]. cbn. by repeat (split; [done|]).
  - by apply account_evidence.
Qed.

Lemma body_evidence (G : Prop) r g p body t :
  admitted r t -> G -> body = chunks t -> Z.of_nat (length body) <= MAX_BODY ->
  evidence G (set_phase (body_phase registration_device_id r g p body) r) t.
Proof.
  intros Ha Hg Hb Hl. unfold body_phase.
  destruct (match content_length r with Some n => _ | None => false end) eqn:El; [done|].
  assert (complete r t body) as Hc.
  { split; [done|]. split; [done|]. intros n E. rewrite E in El. bdestr. done. }
  destruct (registration (arguments_of r)) eqn:Er.
  - destruct (registration_device_id body) as [b|] eqn:Eb; [|done].
    destruct (match device_id (arguments_of r) with Some d => _ | None => false end) eqn:Ed; [done|].
    apply identity_evidence; try done. unfold claims. rewrite Er. split; [done|]. split; [done|].
    destruct (device_id (arguments_of r)) as [d|]; [right|by left]. bdestr. by subst.
  - apply identity_evidence; try done. unfold claims. by rewrite Er.
Qed.

Definition witnessed (l : list event) (w : world) : Prop :=
  forall id, match requests w !! id with
             | Some r => evidence (granted id (peer r) l) r (told id l)
             | None => told id l = []
             end.

Lemma evidence_weaken (G G' : Prop) r t : (G -> G') -> evidence G r t -> evidence G' r t.
Proof. intros HG. unfold evidence. destruct (rq_phase r); tauto. Qed.

(** The evidence of a request an event is not for. *)
Lemma carried id (o : option request) l e :
  match o with Some r => evidence (granted id (peer r) l) r (told id l) | None => told id l = [] end ->
  match o with Some r => evidence (granted id (peer r) (l ++ [e])) r (told id l) | None => told id l = [] end.
Proof. destruct o as [r|]; [|done]. apply evidence_weaken. apply granted_snoc. Qed.

(** Only the request of an event changes. *)
Lemma request_step_frame id r i w w' : request_step registration_device_id id r i w = Some w' ->
  forall j, j <> id -> requests w' !! j = requests w !! j.
Proof.
  intros Hstep j Hj. unfold request_step in Hstep.
  assert (forall r' w0, requests w0 = requests w -> requests (put_request id r' w0) !! j = requests w !! j) as Hput.
  { intros r' w0 E. cbn. rewrite E. by apply lookup_insert_ne. }
  assert (forall o w0, requests w0 = requests w -> requests (conclude id r o w0) !! j = requests w !! j) as Hcon.
  { intros o w0 E. cbn. rewrite E. by apply lookup_insert_ne. }
  destruct (rq_phase r), i; try discriminate; unfold try_slot in Hstep;
    repeat match type of Hstep with context [match ?x with _ => _ end] => destruct x end;
    try discriminate; injection Hstep as <-; first [by apply Hcon|by apply Hput|done].
Qed.

Lemma request_step_self (G G' : Prop) id r i w w' t :
  (G -> G') ->
  (forall now row, i = IRate now true ->
     _reserve_rate BURST RATE (PFloat now) (rate_rows w !! budget_key (peer r)) = Ok (true, row) ->
     rate_rows w' !! budget_key (peer r) = row -> G') ->
  request_step registration_device_id id r i w = Some w' -> evidence G r t ->
  exists r', requests w' !! id = Some r' /\ peer r' = peer r /\ evidence G' r' (t ++ [i]).
Proof.
  intros HG Hrate Hstep He.
  assert (forall o w0, exists r', requests (conclude id r o w0) !! id = Some r' /\ peer r' = peer r /\ evidence G' r' (t ++ [i])) as Hcon.
  { intros o w0. exists (set_phase (PDone o) r). split; [apply lookup_insert_eq|done]. }
  assert (forall ph w0, evidence G' (set_phase ph r) (t ++ [i]) ->
            exists r', requests (go id r ph w0) !! id = Some r' /\ peer r' = peer r /\ evidence G' r' (t ++ [i])) as Hgo.
  { intros ph w0 H. exists (set_phase ph r). split; [apply lookup_insert_eq|done]. }
  unfold request_step in Hstep. unfold evidence in He.
  destruct (rq_phase r) as [n|g n|g p|g p body|g p body d|g p body d a|g p body d c|g p o|o] eqn:Ep, i;
    try discriminate; try (injection Hstep as <-); try (by apply Hcon).
  - destruct He as [Ha Hc]. destruct ok; cbn [negb]; [|apply Hcon]. unfold try_slot.
    destruct (locks w !! _); [destruct (S n <? _)%nat; [|apply Hcon]; apply Hgo|apply (Hgo (PPeer n 0))];
      cbn; (split; [by apply admitted_snoc|by rewrite chunks_quiet]).
  - destruct He as [Ha Hc]. destruct ok; cbn [negb]; [|apply Hcon]. unfold try_slot.
    destruct (locks w !! _); [destruct (S n <? _)%nat; [|apply Hcon]; apply Hgo|apply (Hgo (PRate g n))];
      cbn; (split; [by apply admitted_snoc|by rewrite chunks_quiet]).
  - destruct He as [Ha Hc]. destruct ok; cbn [negb]; [|apply Hcon].
    destruct (_reserve_rate _ _ _ _) as [[gr row]|] eqn:Er; [|apply Hcon]. destruct gr; [|apply Hcon].
    apply Hgo. cbn. split; [by apply admitted_snoc|]. split.
    + apply (Hrate now row); [done|done|]. cbn. by rewrite lookup_partial_alter_eq.
    + rewrite chunks_quiet by done. rewrite Hc. by split.
  - destruct He as (Ha & Hg & Hb & Hl). destruct m as [|chunk more]; injection Hstep as <-; [apply Hcon|].
    destruct (MAX_BODY <? _) eqn:El; [by apply Hgo|]. apply Z.ltb_ge in El.
    assert (body ++ chunk = chunks (t ++ [IMessage (Chunk chunk more)])) as Hb' by (rewrite chunks_snoc; congruence).
    assert (Z.of_nat (length (body ++ chunk)) <= MAX_BODY) as Hl' by (rewrite length_app; lia).
    destruct more; apply Hgo; [cbn; repeat split; auto using admitted_snoc|].
    apply body_evidence; auto using admitted_snoc.
  - by apply Hgo.
  - case_bool_decide; [|done]. injection Hstep as <-. subst device.
    destruct He as (Ha & Hg & Hc & Hd & Hb). destruct answer as [known|]; [|by apply Hgo].
    destruct (match known with Some k => _ | None => false end) eqn:Ek; [|by apply Hgo]. apply Hgo.
    destruct known as [k|]; [|done]. bdestr. apply account_evidence;
      [by apply admitted_snoc|by auto|by apply complete_snoc|done|].
    intros x [= <-]. split; [done|]. exists k. split; [apply elem_of_app; right; left|done].
  - destruct (bool_decide (at_ = _) && _ && _) eqn:Eq; [|done]. injection Hstep as <-. bdestr. subst.
    destruct He as (Ha & Hg & Hc & Hd & Hi & Ea & Eb). destruct answer as [[|]|]; [|by apply Hgo|by apply Hgo].
    apply Hgo. carry.
    intros a' E'. cbn in E'. rewrite Ea in E'. injection E' as <-.
    split; [done|]. apply elem_of_app. right. left.
  - destruct He as (Ha & Hg & Hc & Hd & Hi & Hacc). apply Hgo. carry.
    intros a' E'. destruct (Hacc a' E') as [Hb Hin]. split; [done|]. apply elem_of_app. by left.
Qed.

Lemma witnessed_step l w e w' :
  run l empty_world = Some w -> witnessed l w -> step e w = Some w' -> witnessed (l ++ [e]) w'.
Proof.
  intros Hrun Hw Hstep j. rewrite told_snoc. destruct e as [id i|worker]; cbn in Hstep.
  - destruct (decide (id = j)) as [->|Hne].
    + specialize (Hw j). destruct (requests w !! j) as [r|] eqn:Er.
      * destruct (request_step_self (granted j (peer r) l) (granted j (peer r) (l ++ [On j i])) j r i w w' (told j l)) as (r' & -> & Ep & H);
          [apply granted_snoc| |exact Hstep|exact Hw|by rewrite Ep].
        intros now row -> Hv Hrow. exists l, [], w, w', now, row. cbn. by rewrite Er.
      * destruct i; try discriminate. injection Hstep as <-. unfold arrive. rewrite Hw. cbn [app].
        destruct (admit_scope peers s) as [o|[pr n]] eqn:Es; cbn; rewrite lookup_insert_eq; cbn; [done|].
        split; [|done]. exists s. split; [left|done].
    + rewrite app_nil_r. specialize (Hw j). destruct (requests w !! id) as [r|] eqn:Er.
      * rewrite (request_step_frame id r i w w' Hstep) by done. by apply carried.
      * destruct i; try discriminate. injection Hstep as <-. unfold arrive.
        destruct (admit_scope peers s) as [o|[pr n]]; cbn; cbn; rewrite lookup_insert_ne by done; by apply carried.
  - injection Hstep as <-. rewrite app_nil_r. cbn. rewrite map_lookup_imap. specialize (Hw j).
    destruct (requests w !! j) as [r|]; cbn; [|done]. case_bool_decide; [done|].
    by apply (evidence_weaken (granted j (peer r) l)); [apply granted_snoc|].
Qed.

Lemma witnessed_run l w : run l empty_world = Some w -> witnessed l w.
Proof.
  revert w. induction l as [|e l IH] using rev_ind; intros w.
  - intros [= <-] id. cbn. by rewrite lookup_empty.
  - rewrite run_app. destruct (run l empty_world) as [w1|] eqn:E1; [|done]. cbn.
    destruct (step e w1) as [w2|] eqn:Es; [|done]. intros [= <-]. eapply witnessed_step; [exact E1| |done]. by apply IH.
Qed.
End Authority.

(** C35. Nothing reaches the device handler without its authority: a request under way in
    the handler came from a socket peer of the policy, within the header bounds, took a
    token of its peer's rate - at its turn the bucket of that peer had one, by the clock
    of that moment, and was written back without it - and its body is the whole body that was received - at most
    one mebibyte, of the declared length.  If it claims a device - by its route or by the
    registration it carries, which must agree - that device was looked up and belongs to
    this peer; if it claims an account, the account was found bound to this peer and
    device. *)
Theorem handler_needs_authority registration_device_id peers l w id r g p body d c :
  ingress_run registration_device_id peers l empty_world = Some w ->
  requests w !! id = Some r -> rq_phase r = PApp g p body d c ->
  (exists ps s, peers = Some ps /\ IArrive s (arguments_of r) ∈ told id l /\
     peer r = canonical_peer (default "" (client s)) /\ peer r ∈ ps /\
     raw_path s + query_string s <= MAX_TARGET) /\
  granted registration_device_id peers id (peer r) l /\ complete r (told id l) body /\ claims registration_device_id r body d /\
  identified r (told id l) d /\ accounted r (told id l) d.
Proof.
  intros Hrun Hr Hp. pose proof (witnessed_run _ _ _ _ Hrun id) as He. rewrite Hr in He.
  unfold evidence in He. rewrite Hp in He. destruct He as ((s & Hin & Hs) & He). split; [|done].
  unfold admit_scope in Hs. destruct peers as [ps|]; [|done]. exists ps, s. split; [done|]. split; [done|].
  destruct (bool_decide (canonical_peer (default "" (client s)) ∈ ps)) eqn:E1; [|done]. bdestr. cbn [negb] in Hs.
  destruct (_ || (MAX_TARGET <? _)) eqn:E2 in Hs; [done|]. apply orb_false_iff in E2 as [_ E2]. bdestr.
  assert (peer r = canonical_peer (default "" (client s))) as ->; [|done].
  repeat case_match; congruence.
Qed.

(** ** The rate *)

(** A representable bound of a rounded quotient. *)
Lemma mk_float_le n d m k :
  0 <= m < 2 ^ 53 -> 0 <= k -> 0 < d -> 0 <= n <= m * 2 ^ k * d -> m * 2 ^ k < FLOAT_LIMIT ->
  exists z, mk_float n d = FFin z /\ 0 <= z <= m * 2 ^ k.
Proof.
  intros Hm Hk Hd Hn Hl. assert (0 <= rnd_pos n d <= m * 2 ^ k) as Hr.
  { split; [apply (rnd_pos_ge 0 0); lia|apply (rnd_pos_le m k); lia]. }
  unfold mk_float, rnd_ratio. replace (n <? 0) with false by (symmetry; apply Z.ltb_ge; lia).
  replace (FLOAT_LIMIT <=? Z.abs (rnd_pos n d)) with false by (symmetry; apply Z.leb_gt; lia). by eexists.
Qed.

(** The weight of the last bit of a float in [64, 128). *)
Definition ULP : Z := 2 ^ 1028.
Lemma ULP_unit : 2 ^ 46 * ULP = UNIT.
Proof. rewrite UNIT_pow. unfold ULP. rewrite <- Z.pow_add_r by lia. reflexivity. Qed.
Lemma ULP_pos : 0 < ULP.
Proof. unfold ULP. lia. Qed.

(** Below 127 (or 254) a rounding adds at most one (or two) of these. *)
Lemma round_up n d e : 0 <= e <= 1 -> 0 < d -> 0 <= n <= 127 * 2 ^ e * UNIT * d ->
  exists z, mk_float n d = FFin z /\ 0 <= z /\ z * d <= n + 2 ^ e * ULP * d.
Proof.
  intros He Hd Hn. pose proof ULP_pos as HU. pose proof ULP_unit as HE.
  set (g := 2 ^ e * ULP). assert (0 < g) as Hg by (unfold g; assert (e = 0 \/ e = 1) as [-> | ->] by lia; lia).
  assert (127 * 2 ^ e * UNIT = 127 * 2 ^ 46 * g) as Hu by (unfold g; rewrite <- HE; lia).
  set (m := (n + g * d - 1) / (g * d)).
  assert (0 < g * d) as Hgd by nia.
  assert (n <= m * (g * d) /\ m * (g * d) <= n + g * d - 1) as [H1 H2].
  { unfold m. pose proof (Z.div_mod (n + g * d - 1) (g * d) ltac:(lia)) as D.
    pose proof (Z.mod_pos_bound (n + g * d - 1) (g * d) Hgd). nia. }
  assert (0 <= m <= 127 * 2 ^ 46) as Hm.
  { split; [apply Z.div_pos; lia|]. apply Z.lt_succ_r. apply (Z.mul_lt_mono_pos_r (g * d)); [done|].
    rewrite Hu, <- !Z.mul_assoc in Hn. lia. }
  assert (g = 2 ^ (1028 + e)) as Eg by (unfold g, ULP; rewrite Z.pow_add_r by lia; lia).
  assert (m * g < FLOAT_LIMIT) as Hlim.
  { apply Z.le_lt_trans with (2 ^ 53 * 2 ^ 1029); [|unfold FLOAT_LIMIT; rewrite <- Z.pow_add_r by lia; apply Z.pow_lt_mono_r; lia].
    apply Z.mul_le_mono_nonneg; [lia|lia|lia|]. rewrite Eg. apply Z.pow_le_mono_r; lia. }
  destruct (mk_float_le n d m (1028 + e)) as (z & Ez & Hz); try rewrite <- Eg; try lia.
  exists z. rewrite <- Eg in Hz. split; [done|]. split; [lia|]. nia.
Qed.

Lemma to_float_1 : to_float (PInt 1) = FFin UNIT.
Proof.
  unfold to_float, mk_float. rewrite rnd_ratio_int by lia. rewrite Z.mul_1_l.
  replace (FLOAT_LIMIT <=? Z.abs UNIT) with false; [done|].
  symmetry. apply Z.leb_gt. pose proof (small_below_limit 1 ltac:(lia)) as H. rewrite Z.mul_1_l in H. done.
Qed.

Lemma minus_one s : num_sub (PFloat (FFin s)) (PInt 1) = PFloat (mk_float (s - UNIT) 1).
Proof.
  change (num_sub (PFloat (FFin s)) (PInt 1)) with (PFloat (float_sub (FFin s) (to_float (PInt 1)))).
  by rewrite to_float_1.
Qed.

(** A taken token. *)
Lemma taken y now row row' :
  take_token (PFloat y) now row = (true, row') ->
  (exists s, y = FFin s /\ s <= 120 * UNIT) \/ y = FInf false ->
  y <> FInf false ->
  exists s x, y = FFin s /\ row' = Some (Some (rate_row (PFloat (FFin x)) now)) /\ 0 <= x /\ x + UNIT <= s + ULP.
Proof.
  intros Ht [(s & -> & Hs)|E] Hne; [|done]. unfold take_token in Ht.
  destruct (num_lt (PFloat (FFin s)) (PInt 1)) eqn:El; [done|].
  assert (row' = Some (Some (rate_row (num_sub (PFloat (FFin s)) (PInt 1)) now))) as -> by congruence. clear Ht.
  unfold num_lt in El. cbn [finite num_le] in El. bdestr.
  destruct (round_up (s - UNIT) 1 0) as (z & Ez & Hz & Hz'); [lia|lia|pose proof UNIT_pos; lia|].
  exists s, z. split; [done|]. split; [|lia].
  by rewrite minus_one, Ez.
Qed.

Lemma clock_fin now r : finite_number (Some (JNum (PFloat now))) = Ok r -> exists t, now = FFin t /\ r = PFloat (FFin t).
Proof. destruct now as [t|b|]; cbn; try done. intros [= <-]. by exists t. Qed.

(** A grant on a row the budget wrote: time does not go back, and the tokens are the
    ones that were left and those of the time since, but for the roundings. *)
Lemma grant_step x t now row' : 0 <= x <= 120 * UNIT -> 0 <= t ->
  _reserve_rate BURST RATE (PFloat now) (Some (Some (rate_row (PFloat (FFin x)) (PFloat (FFin t))))) = Ok (true, row') ->
  exists t' x', now = FFin t' /\ row' = Some (Some (rate_row (PFloat (FFin x')) (PFloat (FFin t')))) /\ t <= t' /\
    0 <= x' <= 119 * UNIT + ULP /\ x' + UNIT <= x + 2 * (t' - t) + 6 * ULP.
Proof.
  intros Hx Ht H. unfold _reserve_rate in H. destruct (finite_number (Some (JNum (PFloat now)))) as [r|] eqn:Er; [|done].
  apply clock_fin in Er as (t' & -> & ->). cbn [mbind res_bind] in H.
  destruct (num_lt (PFloat (FFin t')) (PInt 0)) eqn:E0; [done|].
  unfold rate_row in H at 1. cbn [fmap list_fmap fst snd] in H.
  destruct (negb (same_set _ _) || _) eqn:Ev; [done|].
  change (get "tokens" _) with (Some (JNum (PFloat (FFin x)))) in H.
  change (get "observed" _) with (Some (JNum (PFloat (FFin t)))) in H.
  cbn [finite_number isfinite mbind res_bind] in H.
  destruct (_ || num_lt (PFloat (FFin t)) (PInt 0)) eqn:E1 in H; [done|].
  destruct (num_lt (PFloat (FFin t')) (PFloat (FFin t))) eqn:E2; [done|].
  unfold num_lt in E2. cbn [num_le finite] in E2. bdestr.
  injection H as H. unfold refill in H. set (d := num_sub (PFloat (FFin t')) (PFloat (FFin t))) in H.
  set (s := num_add (PFloat (FFin x)) (num_mul d RATE)) in H.
  pose proof ULP_pos as HU. pose proof ULP_unit as HE. pose proof UNIT_pos.
  assert (exists y, (if num_lt s BURST then s else BURST) = PFloat y /\
            (forall z, y = FFin z -> z <= 120 * UNIT /\
               (t' - t < 60 * UNIT -> z <= x + 2 * (t' - t) + 5 * ULP)) /\ y <> FInf false /\ y <> FNaN) as (y & Ey & Hy & Hinf & Hnan).
  { assert (exists f, s = PFloat f) as (f & Ef).
    { unfold s, num_add. eexists. reflexivity. }
    assert (t' - t < 60 * UNIT -> exists z, f = FFin z /\ z <= x + 2 * (t' - t) + 5 * ULP) as Hsmall.
    { intros Hlt. destruct (round_up (t' - t) 1 0) as (dz & Ed & Hd1 & Hd2); [lia|lia|lia|].
      assert (d = PFloat (FFin dz)) as Ed' by (unfold d, num_sub; cbn [to_float float_sub]; by rewrite Ed).
      destruct (round_up (dz * (2 * UNIT)) UNIT 0) as (p & Ep & Hp1 & Hp2); [lia|lia|nia|].
      destruct (round_up (x + p) 1 1) as (z & Ez & Hz1 & Hz2); [lia|lia|split; [lia|nia]|].
      exists z. split; [|nia]. assert (PFloat f = PFloat (FFin z)) as E; [|congruence].
      rewrite <- Ef. unfold s. rewrite Ed'. unfold RATE, float_of. cbn [num_mul num_add to_float fin].
      rewrite Ep. cbn [fin]. by rewrite Ez. }
    rewrite Ef. destruct (num_lt (PFloat f) BURST) eqn:El.
    - exists f. split; [done|]. split.
      + intros z ->. unfold num_lt, BURST, float_of in El. cbn [num_le finite] in El. bdestr. split; [lia|].
        intros Hlt. destruct (Hsmall Hlt) as (z' & [= <-] & Hz). done.
      + split; intros ->; done.
    - exists (FFin (120 * UNIT)). split; [done|]. split; [|done]. intros z [= <-]. split; [lia|]. intros Hlt.
      destruct (Hsmall Hlt) as (z' & -> & Hz). unfold num_lt, BURST, float_of in El. cbn [num_le finite] in El.
      bdestr. lia. }
  rewrite Ey in H.
  assert (exists z, y = FFin z) as (z & ->).
  { destruct y as [z|[]|]; [by eexists|by cbn in H|done|done]. }
  destruct (Hy z eq_refl) as [Hz1 Hz2].
  destruct (taken (FFin z) _ _ _ H) as (s' & x' & [= <-] & -> & Hx1 & Hx2); [left; by eexists|done|].
  exists t', x'. split; [done|]. split; [done|]. split; [lia|]. split; [lia|].
  destruct (Z.lt_ge_cases (t' - t) (60 * UNIT)) as [Hlt|Hge]; [specialize (Hz2 Hlt)|]; lia.
Qed.

(** The first grant of a key. *)
Lemma grant_first now row' : _reserve_rate BURST RATE (PFloat now) None = Ok (true, row') ->
  exists t, now = FFin t /\ 0 <= t /\ row' = Some (Some (rate_row (PFloat (FFin (119 * UNIT))) (PFloat (FFin t)))).
Proof.
  unfold _reserve_rate. destruct (finite_number (Some (JNum (PFloat now)))) as [r|] eqn:Er; [|done].
  apply clock_fin in Er as (t & -> & ->). cbn [mbind res_bind].
  destruct (num_lt (PFloat (FFin t)) (PInt 0)) eqn:E0; [done|].
  unfold num_lt in E0. cbn [num_le finite] in E0. bdestr. intros H. assert (take_token BURST (PFloat (FFin t)) None = (true, row')) as H2 by congruence. clear H. rename H2 into H.
  exists t. split; [done|]. split; [lia|]. unfold take_token in H.
  destruct (num_lt BURST (PInt 1)); [done|].
  assert (row' = Some (Some (rate_row (num_sub BURST (PInt 1)) (PFloat (FFin t))))) as -> by congruence. clear H.
  unfold BURST, float_of. rewrite minus_one.
  replace (120 * UNIT - UNIT) with (119 * UNIT) by lia. unfold mk_float. rewrite rnd_ratio_int by lia.
  replace (FLOAT_LIMIT <=? Z.abs (119 * UNIT)) with false; [done|].
  symmetry. apply Z.leb_gt. apply small_below_limit. lia.
Qed.

(** The clock readings at which the requests of a budget key were granted a token. *)
Definition grant_of (key : string) (w : world) (e : event) : list pyfloat :=
  match e with
  | On id (IRate now true) =>
      match requests w !! id with
      | Some r =>
          match rq_phase r with
          | PRate _ _ =>
              if decide (budget_key (peer r) = key) then
                match _reserve_rate BURST RATE (PFloat now) (rate_rows w !! key) with
                | Ok (true, _) => [now]
                | _ => []
                end
              else []
          | _ => []
          end
      | None => []
      end
  | _ => []
  end.

Section Rate.
Context (registration_device_id : list Z -> option string) (peers : option (list string)) (key : string).
Notation run := (ingress_run registration_device_id peers).
Notation step := (ingress_step registration_device_id peers).

Fixpoint grants (l : list event) (w : world) : list pyfloat :=
  match l with
  | [] => []
  | e :: l => grant_of key w e ++ match step e w with Some w' => grants l w' | None => [] end
  end.

Lemma reserve_false burst rate now row row' :
  _reserve_rate burst rate now row = Ok (false, row') -> row' = row.
Proof.
  unfold _reserve_rate, take_token. destruct (finite_number _) as [t|]; [|done]. cbn [mbind res_bind].
  destruct (num_lt t (PInt 0)); [done|].
  destruct row as [[[| | | | |kvs]|]|]; try done.
  - destruct (negb _ || _); [done|]. destruct (finite_number (get "tokens" kvs)) as [tk|]; [|done].
    destruct (finite_number (get "observed" kvs)) as [ob|]; [|done]. cbn [mbind res_bind].
    destruct (negb _ || _); [done|]. destruct (num_lt t ob); [by intros [= <-]|].
    destruct (num_lt _ _); [by intros [= <-]|done].
  - destruct (num_lt _ _); [by intros [= <-]|done].
Qed.

(** A step changes the row of the key only by granting a token. *)
Lemma step_row e w w' : step e w = Some w' ->
  match grant_of key w e with
  | now :: _ => _reserve_rate BURST RATE (PFloat now) (rate_rows w !! key) = Ok (true, rate_rows w' !! key)
  | [] => rate_rows w' !! key = rate_rows w !! key
  end.
Proof.
  intros Hstep. destruct e as [id i|worker]; [|by injection Hstep as <-]. cbn in Hstep.
  destruct (requests w !! id) as [r|] eqn:Er.
  2: { destruct i; try discriminate. injection Hstep as <-. unfold arrive. cbn.
       by destruct (admit_scope peers s) as [|[]]. }
  unfold request_step in Hstep. unfold grant_of. rewrite Er.
  destruct (rq_phase r) eqn:Ep, i; try discriminate; unfold try_slot in Hstep;
    try (repeat match type of Hstep with context [match ?x with _ => _ end] => destruct x end;
         try discriminate; injection Hstep as <-; done).
  destruct ok; cbn [negb] in Hstep; [|by injection Hstep as <-].
  destruct (_reserve_rate BURST RATE (PFloat now) (rate_rows w !! budget_key (peer r))) as [[gr row]|] eqn:Ev.
  2: { injection Hstep as <-. case_decide as E; [|done]. subst key. by rewrite Ev. }
  destruct (decide (budget_key (peer r) = key)) as [E|E].
  - subst key. rewrite Ev. destruct gr; injection Hstep as <-; cbn; rewrite lookup_partial_alter_eq; [done|].
    by apply reserve_false in Ev.
  - destruct gr; injection Hstep as <-; cbn; by rewrite lookup_partial_alter_ne by done.
Qed.

Lemma grant_one e w : (length (grant_of key w e) <= 1)%nat.
Proof. unfold grant_of. repeat case_match; cbn; lia. Qed.

(** The grants that follow a row of the budget, [x] tokens at [t]. *)
Lemma grants_after x t l : forall w, 0 <= x <= 120 * UNIT -> 0 <= t ->
  rate_rows w !! key = Some (Some (rate_row (PFloat (FFin x)) (PFloat (FFin t)))) ->
  forall n now, grants l w !! n = Some now ->
  exists tn, now = FFin tn /\ t <= tn /\
    (Z.of_nat n + 1) * UNIT <= x + 2 * (tn - t) + (Z.of_nat n + 1) * (6 * ULP).
Proof.
  revert x t. induction l as [|e l IH]; intros x t w Hx Ht Hrow n now Hn; [done|]. cbn [grants] in Hn.
  pose proof (grant_one e w) as Hone. destruct (step e w) as [w'|] eqn:Es.
  - pose proof (step_row e w w' Es) as Hr. destruct (grant_of key w e) as [|g gs] eqn:Eg.
    + rewrite Hrow in Hr. exact (IH x t w' Hx Ht Hr n now Hn).
    + destruct gs; [|cbn in Hone; lia]. rewrite Hrow in Hr. pose proof ULP_pos. pose proof ULP_unit.
      destruct (grant_step x t g _ Hx Ht Hr) as (t' & x' & -> & Hrow' & Htt & Hx' & Hle).
      destruct n as [|n]; cbn in Hn.
      * injection Hn as <-. exists t'. split; [done|]. lia.
      * destruct (IH x' t' w' ltac:(lia) ltac:(lia) Hrow' n now Hn) as (tn & -> & H1 & H2).
        exists tn. split; [done|]. split; [lia|]. rewrite Nat2Z.inj_succ. lia.
  - rewrite app_nil_r in Hn. destruct (grant_of key w e) as [|g gs] eqn:Eg; [done|].
    destruct gs; [|cbn in Hone; lia].
    exfalso. clear -Es Eg. destruct e as [id i|]; [|done]. cbn in Es. unfold grant_of in Eg.
    destruct i as [| |now ok| | | | | | |]; try discriminate. destruct ok; [|discriminate].
    destruct (requests w !! id) as [r|]; [|done]. unfold request_step in Es.
    destruct (rq_phase r); discriminate.
Qed.

(** The rows the listener keeps. *)
Definition row_kept (row : option (option json)) : Prop :=
  row = None \/ exists x t, row = Some (Some (rate_row (PFloat (FFin x)) (PFloat (FFin t)))) /\
                            0 <= x <= 119 * UNIT + ULP /\ 0 <= t.

Lemma grant_keeps now row row' : row_kept row -> _reserve_rate BURST RATE (PFloat now) row = Ok (true, row') ->
  exists x t, now = FFin t /\ row' = Some (Some (rate_row (PFloat (FFin x)) (PFloat (FFin t)))) /\
              0 <= x <= 119 * UNIT + ULP /\ 0 <= t.
Proof.
  pose proof ULP_pos. pose proof ULP_unit. intros [->|(x & t & -> & Hx & Ht)] Hr.
  - apply grant_first in Hr as (t & -> & Ht & ->). exists (119 * UNIT), t. split; [done|]. split; [done|]. lia.
  - apply grant_step in Hr as (t' & x' & -> & -> & ? & ? & _); [|lia|done].
    exists x', t'. split; [done|]. split; [done|]. lia.
Qed.

Lemma grants_pairs l : forall w w', row_kept (rate_rows w !! key) -> run l w = Some w' ->
  forall i j ti tj, (i < j)%nat -> grants l w !! i = Some ti -> grants l w !! j = Some tj ->
  exists a b, ti = FFin a /\ tj = FFin b /\ a <= b /\
    (Z.of_nat j - Z.of_nat i) * UNIT <= 119 * UNIT + ULP + 2 * (b - a) + (Z.of_nat j - Z.of_nat i) * (6 * ULP).
Proof.
  induction l as [|e l IH]; intros w w' Hk Hrun i j ti tj Hij Hi Hj; [done|]. cbn [grants] in Hi, Hj. cbn in Hrun.
  destruct (step e w) as [w1|] eqn:Es; [|done]. cbn in Hrun.
  pose proof (step_row e w w1 Es) as Hr. pose proof (grant_one e w) as Hone.
  destruct (grant_of key w e) as [|g gs] eqn:Eg; [|destruct gs; [|cbn in Hone; lia]].
  - rewrite <- Hr in Hk. exact (IH w1 w' Hk Hrun i j ti tj Hij Hi Hj).
  - destruct (grant_keeps g _ _ Hk Hr) as (x & t & -> & Hrow & Hx & Ht).
    destruct j as [|j]; [lia|]. cbn in Hj. destruct i as [|i]; cbn in Hi.
    + injection Hi as <-. pose proof ULP_pos. pose proof ULP_unit.
      destruct (grants_after x t l w1 ltac:(lia) Ht Hrow j tj Hj) as (b & -> & H1 & H2).
      exists t, b. split; [done|]. split; [done|]. split; [done|]. rewrite Nat2Z.inj_succ. lia.
    + rewrite !Nat2Z.inj_succ.
      replace (Z.succ (Z.of_nat j) - Z.succ (Z.of_nat i)) with (Z.of_nat j - Z.of_nat i) by lia.
      apply (IH w1 w'); [right; by exists x, t|done|lia|done|done].
Qed.
End Rate.

(** C37. The rate of a peer is bounded although its bucket is kept in binary floats: of
    the requests that are granted a token under one key, in any run of all workers, any
    [n] consecutive ones (up to [2^43]) span at least [(n - 121) / 2] seconds, whatever
    the clock readings - also readings that go back, which are granted nothing. *)
Theorem rate_bounded registration_device_id peers key l w i j ti tj :
  ingress_run registration_device_id peers l empty_world = Some w ->
  let granted := grants registration_device_id peers key l empty_world in
  (i < j)%nat -> granted !! i = Some ti -> granted !! j = Some tj -> Z.of_nat j < 2 ^ 43 ->
  exists a b, ti = FFin a /\ tj = FFin b /\ a <= b /\
    (Z.of_nat j - Z.of_nat i + 1 - 121) * UNIT <= 2 * (b - a).
Proof.
  intros Hrun granted Hij Hi Hj Hlim.
  destruct (grants_pairs _ _ key l empty_world w (or_introl (lookup_empty key)) Hrun i j ti tj Hij Hi Hj)
    as (a & b & -> & -> & Hab & Hle).
  exists a, b. split; [done|]. split; [done|]. split; [done|].
  pose proof ULP_unit as HE. pose proof ULP_pos. nia.
Qed.

(** ** A concrete run: two workers serve one peer. *)
Definition demo_scope : scope :=
  {| client := Some "::ffff:10.0.0.5"; headers := [("Content-Length", "3")]; raw_path := 20; query_string := 0 |}.
Definition demo_arguments : arguments :=
  {| device_id := Some "AB"; account_id := Some "77"; registration := false |}.
Definition first_request : rid := (0, 0)%nat.
Definition second_request : rid := (1, 0)%nat.
Definition demo_clock (s : Z) : input := IRate (FFin (s * UNIT)) true.
Definition demo_events : list event :=
  map (On first_request)
    [IArrive demo_scope demo_arguments; ISlot true; ISlot true; demo_clock 100;
     IMessage (Chunk [1; 2] true); IMessage (Chunk [3] false);
     IIdentity "AB" (Some (Some "10.0.0.5")); IAccount "10.0.0.5" "77" (Some "AB") (Some true)]
  ++ map (On second_request)
    [IArrive demo_scope demo_arguments; ISlot true; ISlot true; ISlot true; ISlot true; demo_clock 101].
Definition demo_policy : option (list string) := make_peers ["10.0.0.5"; "10.0.0.6"].
Definition demo_run : option world := ingress_run (fun _ => None) demo_policy demo_events empty_world.

Lemma demo_phases :
  (w ← demo_run; a ← requests w !! first_request; b ← requests w !! second_request; Some (rq_phase a, rq_phase b))
  = Some (PApp 0 0 [1; 2; 3] (Some "AB") false, PBody 1 1 []).
Proof. vm_compute. reflexivity. Qed.

Lemma slots_bounded_witness :
  exists w, demo_run = Some w /\
    forall ids, NoDup ids -> (forall id, id ∈ ids -> exists r, requests w !! id = Some r /\ served r = true) ->
      (length ids <= MAX_TOTAL_ACTIVE)%nat.
Proof.
  pose proof demo_phases as D. destruct demo_run as [w|] eqn:E; [|discriminate]. exists w. split; [reflexivity|].
  exact (proj1 (proj2 (slots_bounded _ _ _ _ E))).
Defined.

Lemma handler_needs_authority_witness :
  exists w r, demo_run = Some w /\ requests w !! first_request = Some r /\
    rq_phase r = PApp 0 0 [1; 2; 3] (Some "AB") false /\
    identified r (told first_request demo_events) (Some "AB") /\ accounted r (told first_request demo_events) (Some "AB").
Proof.
  pose proof demo_phases as D. destruct demo_run as [w|] eqn:E; [|discriminate]. cbn [mbind option_bind] in D.
  destruct (requests w !! first_request) as [r|] eqn:Er; [|discriminate]. cbn [mbind option_bind] in D.
  destruct (requests w !! second_request) as [r2|] eqn:Er2; [|discriminate]. cbn [mbind option_bind] in D.
  assert (rq_phase r = PApp 0 0 [1; 2; 3] (Some "AB") false) as Hp by congruence.
  exists w, r. split; [reflexivity|]. split; [exact Er|]. split; [exact Hp|].
  exact (proj2 (proj2 (proj2 (proj2 (handler_needs_authority _ _ _ _ _ _ _ _ _ _ _ E Er Hp))))).
Defined.

Lemma demo_grants :
  grants (fun _ => None) demo_policy (budget_key "10.0.0.5") demo_events empty_world
  = [FFin (100 * UNIT); FFin (101 * UNIT)].
Proof. vm_compute. reflexivity. Qed.

Lemma rate_bounded_witness :
  exists a b, FFin (100 * UNIT) = FFin a /\ FFin (101 * UNIT) = FFin b /\ a <= b /\
    (1 - 0 + 1 - 121) * UNIT <= 2 * (b - a).
Proof.
  pose proof demo_phases as D. destruct demo_run as [w|] eqn:E; [|discriminate].
  refine (rate_bounded (fun _ => None) demo_policy (budget_key "10.0.0.5") demo_events w 0 1
            (FFin (100 * UNIT)) (FFin (101 * UNIT)) E _ _ _ _); [lia|rewrite demo_grants; reflexivity|
            rewrite demo_grants; reflexivity|lia].
Defined.

End Ingress.
