(* ===== verification/Control.v ===== *)
(** * AirPlay bridge: the local control of the session service
    (app/services/airplay_bridge/service_control.py, pilot_runner.py)

    Requests are bytes and answers JSON values with the length of their text, as in
    Service.v.  [PilotConfig.validate] is modelled as far as the control relies on it;
    the rest of it (paths, addresses and URLs) is a parameter, and so are the preflight,
    the status a running worker reports and the outcome of a save. *)
From Stdlib Require Import Ascii String.
From S2P Require Import Prelude PyNum PyStr Json Liveness Group Service.
#[local] Open Scope string_scope.
#[local] Open Scope list_scope.
#[local] Open Scope Z_scope.

Module Control.
Import Service.

Definition INVALID : string := "AIRPLAY_CONTROL_INVALID".
Definition PREFLIGHT_REJECTED : string := "AIRPLAY_PREFLIGHT_REJECTED".
Definition ERRORS : list string :=
  ["AIRPLAY_SERVICE_CLOSED"; "AIRPLAY_REQUEST_ID_REUSED"; "AIRPLAY_DEVICE_BUSY_OR_UNRECONCILED";
   "AIRPLAY_RESOURCE_ALREADY_OWNED"; "AIRPLAY_SERVICE_JOURNAL_FULL"; "AIRPLAY_SERVICE_SESSION_UNKNOWN";
   "AIRPLAY_FRESH_PROFILE_REQUIRED"; INVALID; "AIRPLAY_PROFILE_UNKNOWN"; PREFLIGHT_REJECTED;
   "AIRPLAY_CONTROL_UNAVAILABLE"].

(** ['[a-z0-9][a-z0-9-]{0,47}']. *)
Definition PROFILE : regex :=
  RCat (RChar (fun c => is_lower c || is_digit c))
       (upto 47 (RChar (fun c => is_lower c || is_digit c || bool_decide (c = "-"%char)))).

(** ** Requests *)
Inductive request : Type :=
| RStatus
| RStart (request_id profile : string)
| RStop (request_id : string).

(** [None] raises [ValueError], [TypeError] or [UnicodeError]. *)
Definition decode_request (raw : string) : option request :=
  if (2048 <? String.length raw)%nat then None
  else match loads unique_pairs raw with
  | Some (JObj value) =>
      if negb (Liveness.is_int 1 (get "version" value)) then None
      else match get "action" value with
      | Some (JStr action) =>
          if negb (bool_decide (action ∈ ["status"; "start"; "stop"])) then None
          else
            let expected := ["version"; "action"] ++ (if bool_decide (action = "status") then [] else ["request_id"])
                            ++ (if bool_decide (action = "start") then ["profile"] else []) in
            if negb (same_set value.*1 expected) then None
            else if bool_decide (action = "status") then Some RStatus
            else match get "request_id" value with
            | Some (JStr key) =>
                if negb (valid_key key) then None
                else if bool_decide (action = "stop") then Some (RStop key)
                else match get "profile" value with
                | Some (JStr profile) => if fullmatch PROFILE profile then Some (RStart key profile) else None
                | _ => None
                end
            | _ => None
            end
      | _ => None
      end
  | _ => None
  end.

Section Control.
Context (float_repr : Z -> list Z) (addresses_valid : PilotConfig -> bool).

(** [PilotConfig.validate]. *)
Definition validate (c : PilotConfig) : bool :=
  let ids := map device_id (devices c) in
  (1 <=? length ids)%nat && (length ids <=? 16)%nat && distinct ids && bool_decide (c_master c ∈ ids)
  && distinct (map ip_address (devices c)) && distinct (map receiver_socket (devices c))
  && distinct [status_path c; receipt_path c; stop_path c]
  && negb (existsb (fun p => bool_decide (p = database_path c))
                   ([status_path c; receipt_path c; stop_path c] ++ map receiver_socket (devices c)))
  && (1 <=? test_volume c) && (test_volume c <=? 10)
  && (1024 <=? listen_port c) && (listen_port c <=? 65535) && (0 <=? ipc_peer_uid c)
  && num_le (PInt 1) (lifetime_seconds c) && num_le (lifetime_seconds c) (PInt 600)
  && num_lt (PInt 0) (wait_seconds c) && num_le (wait_seconds c) (PInt 300)
  && is_hex_string 64 (receiver_binary_sha256 c) && is_hex_string 32 (controller_nonce c)
  && forallb (fun d => negb (empty_str (device_id d)) && bool_decide (device_id d = py_upper (py_strip (device_id d)))
                       && (py_len (device_id d) <=? 128)
                       && bool_decide (firstn 2 (fingerprint d) = [device_id d; ip_address d])) (devices c)
  && addresses_valid c.

(** [ServiceControl.__init__]: the name is tried in a start request that is otherwise
    valid. *)
Definition profiles_valid (profiles : list (string * PilotConfig)) : bool :=
  (1 <=? length profiles)%nat && (length profiles <=? 16)%nat
  && forallb (fun x => fullmatch PROFILE x.1 && validate x.2) profiles.

(** ** Answers *)
(** [SessionService.status]; [report] is [worker.receipt.get('status')]. *)
Definition shown_state (report : string -> option string) (p : process) (x : string * entry) : string :=
  let state := state_value (e_state x.2) in
  match assoc x.1 (workers p), report x.1 with
  | Some _, Some v =>
      if negb (bool_decide (e_state x.2 = STOPPING)) && bool_decide (v ∈ map state_value LIVE) then v else state
  | _, _ => state
  end.
Definition session_json (safe : list (string * json) -> list (string * json)) (report : string -> option string)
    (p : process) (x : string * entry) : json :=
  JObj [("request_id", JStr x.1); ("state", JStr (shown_state report p x));
        ("targets", JList (map JStr (targets x.2))); ("receipt", JObj (safe (receipt x.2)))].

Definition consumed (p : process) (c : PilotConfig) : bool :=
  bool_decide (configuration_digest float_repr c ∈ map (fun x => digest x.2) (entries p))
  || intersects (grant_digests c) (flat_map (fun x => grants x.2) (entries p)).
Definition profile_json (p : process) (x : string * PilotConfig) : json :=
  JObj [("id", JStr x.1); ("targets", JList (map (fun d => JStr (device_id d)) (devices x.2)));
        ("consumed", JBool (consumed p x.2)); ("volume_limit", JNum (PInt (test_volume x.2)));
        ("maximum_seconds", JNum (lifetime_seconds x.2))].

(** [ServiceControl.status]; [safe] is the identity there, and what the client makes of
    a receipt below. *)
Definition status (safe : list (string * json) -> list (string * json)) (profiles : list (string * PilotConfig))
    (report : string -> option string) (p : process) : json :=
  JObj [("version", JNum (PInt 1)); ("sessions", JList (map (session_json safe report p) (entries p)));
        ("hardware_acceptance", JStr "NOT_ESTABLISHED");
        ("available", JBool (negb (closed p) && negb (storage_failed p))); ("maturity", JStr "LAB");
        ("profiles", JList (map (profile_json p) profiles))].

Definition ok_json (result : json) : json := JObj [("ok", JBool true); ("result", result)].
Definition error_json (code : string) : json := JObj [("ok", JBool false); ("code", JStr code)].

Definition error_code (e : sexn) : string :=
  match e with
  | SessionConflict code => if bool_decide (code ∈ ERRORS) then code else PREFLIGHT_REJECTED
  | ServiceError _ => PREFLIGHT_REJECTED
  end.

(** The call of the service a request makes: [None] when its profile is unknown. *)
Definition perform (capacity : nat) (profiles : list (string * PilotConfig)) (checked : bool) (wr : write)
    (r : request) : option (M unit) :=
  match r with
  | RStatus => Some (mret tt)
  | RStart key profile =>
      c ← assoc profile profiles; Some (start float_repr capacity key c (validate c) checked wr)
  | RStop key => Some (stop float_repr key wr)
  end.

Definition dispatch (capacity : nat) (profiles : list (string * PilotConfig)) (report : string -> option string)
    (checked : bool) (wr : write) (raw : string) (w : world) : json * world :=
  match decode_request raw with
  | None => (error_json INVALID, w)
  | Some r =>
      match perform capacity profiles checked wr r with
      | None => (error_json "AIRPLAY_PROFILE_UNKNOWN", w)
      | Some call =>
          match call w with
          | (Ok _, w') => (ok_json (status id profiles report (proc w')), w')
          | (Err e, w') => (error_json (error_code e), w')
          end
      end
  end.

(** [_handle] after the peer check: an answer that does not fit is replaced. *)
Definition answer (v : json) : json :=
  if 16383 <? dumps_length float_repr v then error_json "AIRPLAY_CONTROL_UNAVAILABLE" else v.

(** ** The client *)
Definition get_list (k : string) (kvs : list (string * json)) : option (list json) :=
  match get k kvs with Some (JList l) => Some l | _ => None end.
Definition get_str (k : string) (kvs : list (string * json)) : option string :=
  match get k kvs with Some (JStr s) => Some s | _ => None end.
(** [{**d, k: v}] of a key of [d]. *)
Definition replace (k : string) (v : json) (kvs : list (string * json)) : list (string * json) :=
  map (fun x => if bool_decide (x.1 = k) then (k, v) else x) kvs.

(** [targets(items)] inside [exchange]; [None] raises. *)
Definition check_targets (v : option json) : option json :=
  v ← v; l ← strings_of v;
  if (1 <=? length l)%nat && (length l <=? 16)%nat
     && forallb (fun t => negb (empty_str t) && (py_len t <=? 128)) l && distinct l
  then Some v else None.

Definition check_session (v : json) : option json :=
  match v with
  | JObj kvs =>
      if negb (same_set kvs.*1 ["request_id"; "state"; "targets"; "receipt"]) then None
      else match get "state" kvs, get "receipt" kvs, get "request_id" kvs with
      | Some (JStr st), Some (JObj rc), Some (JStr key) =>
          if negb (bool_decide (st ∈ map state_value (LIVE ++ TERMINAL))) || negb (valid_key key) then None
          else
            ts ← check_targets (get "targets" kvs);
            Some (JObj [("request_id", JStr key); ("state", JStr st); ("targets", ts);
                        ("receipt", JObj (_safe_receipt rc))])
      | _, _, _ => None
      end
  | _ => None
  end.

Definition check_profile (v : json) : option json :=
  match v with
  | JObj kvs =>
      if negb (same_set kvs.*1 ["id"; "targets"; "consumed"; "volume_limit"; "maximum_seconds"]) then None
      else match get "id" kvs, get "consumed" kvs, get "volume_limit" kvs, get "maximum_seconds" kvs with
      | Some (JStr name), Some (JBool _), Some (JNum (PInt n)), Some (JNum x) =>
          if fullmatch PROFILE name && (1 <=? n) && (n <=? 10) && num_le (PInt 1) x && num_le x (PInt 600)
          then ts ← check_targets (get "targets" kvs); Some (JObj (replace "targets" ts kvs))
          else None
      | _, _, _, _ => None
      end
  | _ => None
  end.

(** [x == 1]. *)
Definition equals_one (v : option json) : bool :=
  match v with Some (JNum n) => num_eq n (PInt 1) | Some (JBool b) => b | _ => false end.

Definition check_result (v : json) : option json :=
  match v with
  | JObj kvs =>
      if negb (same_set kvs.*1 ["version"; "sessions"; "hardware_acceptance"; "available"; "maturity"; "profiles"])
         || negb (equals_one (get "version" kvs))
         || negb (match get "available" kvs with Some (JBool _) => true | _ => false end)
         || negb (bool_decide (get_str "maturity" kvs = Some "LAB"))
         || negb (bool_decide (get_str "hardware_acceptance" kvs = Some "NOT_ESTABLISHED"))
      then None
      else
        ss ← get_list "sessions" kvs; ps ← get_list "profiles" kvs;
        if (128 <? length ss)%nat || (16 <? length ps)%nat then None
        else
          ss ← mapM check_session ss; ps ← mapM check_profile ps;
          Some (JObj (replace "profiles" (JList ps) (replace "sessions" (JList ss) kvs)))
  | _ => None
  end.

(** [exchange] from the answer on; [None] raises. *)
Definition check_answer (v : json) : option json :=
  match v with
  | JObj kvs =>
      match get "ok" kvs with
      | Some (JBool true) =>
          if negb (same_set kvs.*1 ["ok"; "result"]) then None
          else r ← get "result" kvs; r ← check_result r; Some (JObj (replace "result" r kvs))
      | Some (JBool false) =>
          if negb (same_set kvs.*1 ["ok"; "code"]) then None
          else code ← get_str "code" kvs; if bool_decide (code ∈ ERRORS) then Some v else None
      | _ => None
      end
  | _ => None
  end.

(** A whole [exchange]: the client's check of its request, the server, the client's
    check of the answer.  [None] raises. *)
Definition exchange (capacity : nat) (profiles : list (string * PilotConfig)) (report : string -> option string)
    (checked : bool) (wr : write) (raw : string) (w : world) : option json * world :=
  match decode_request raw with
  | None => (None, w)
  | Some _ => let '(v, w') := dispatch capacity profiles report checked wr raw w in (check_answer (answer v), w')
  end.

(** The service under its control: sessions are started by requests only. *)
Inductive control_step (capacity : nat) (profiles : list (string * PilotConfig)) (w : world) : world -> Prop :=
| c_dispatch report checked wr raw : running w = true ->
    control_step capacity profiles w (dispatch capacity profiles report checked wr raw w).2
| c_begin key c f wr : running w = true -> key ∈ scheduled (proc w) -> (key, c) ∈ configs (proc w) ->
    control_step capacity profiles w (run_begin float_repr key c f wr w).2
| c_end key stopped result wr : running w = true -> (key, stopped) ∈ workers (proc w) ->
    control_step capacity profiles w (run_end float_repr key result wr w).2
| c_close writes : running w = true -> length writes = length (entries (proc w)) ->
    control_step capacity profiles w (close float_repr writes w).2
| c_crash : control_step capacity profiles w (dead w)
| c_boot wr : running w = false -> control_step capacity profiles w (boot float_repr capacity wr w).

End Control.


(** ** What the entries show *)
#[local] Opaque configuration_digest grant_digests.

Section Shown.
Context (float_repr : Z -> list Z) (addresses_valid : PilotConfig -> bool) (capacity : nat).

Definition targets_fine (l : list string) : bool :=
  (1 <=? length l)%nat && (length l <=? 16)%nat
  && forallb (fun t => negb (empty_str t) && (py_len t <=? 128)) l && distinct l.
Definition presentable (x : string * entry) : Prop :=
  valid_key x.1 = true /\ targets_fine (targets x.2) = true.
Definition good_entries (es : list (string * entry)) : Prop :=
  Forall presentable es /\ (length es <= capacity)%nat.
Definition good (w : world) : Prop := good_entries (entries (proc w)).

(** A call keeps the entries presentable. *)
Definition keeps {A} (m : M A) (w : world) : Prop := good (m w).2.

Lemma keeps_bind {A B} (m : M A) (f : A -> M B) w :
  keeps m w -> (forall a w1, m w = (Ok a, w1) -> good w1 -> keeps (f a) w1) -> keeps (m ≫= f) w.
Proof.
  unfold keeps, mbind, st_bind. intros Hm Hf. destruct (m w) as [[a|e] w1] eqn:E; [|done].
  by apply Hf.
Qed.
Lemma keeps_try {A} (m : M A) (h : sexn -> M A) w :
  keeps m w -> (forall e w1, good w1 -> keeps (h e) w1) -> keeps (try_except m h) w.
Proof. unfold keeps, try_except. intros Hm Hh. destruct (m w) as [[a|e] w1]; [done|by apply Hh]. Qed.
Lemma keeps_on_proc f w : good_entries (entries (f (proc w))) -> keeps (on_proc f) w.
Proof. done. Qed.

Lemma good_map f es : (forall x, (f x).1 = x.1 /\ targets (f x).2 = targets x.2) ->
  good_entries es -> good_entries (map f es).
Proof.
  intros Hf [He Hl]. split; [|by rewrite length_map]. apply List.Forall_map.
  eapply list.Forall_impl; [exact He|]. intros x [H1 H2]. destruct (Hf x) as [E1 E2].
  split; [by rewrite E1|by rewrite E2].
Qed.

Lemma good_update key f es : (forall e, targets (f e) = targets e) -> good_entries es -> good_entries (update key f es).
Proof. intros Hf. apply good_map. intros x. case_bool_decide; split; cbn; auto. Qed.

Lemma good_remove key es : good_entries es -> good_entries (remove key es).
Proof.
  unfold remove. intros [He Hl]. split.
  - rewrite list.Forall_forall in He |- *. intros x [_ Hx]%list_elem_of_filter. by apply He.
  - eapply Nat.le_trans; [apply list.length_filter|done].
Qed.

Lemma keeps_save wr w : good w -> keeps (_save float_repr wr) w.
Proof.
  intros Hg. unfold keeps. destruct (_save float_repr wr w) as [r w'] eqn:E.
  apply save_results in E as (_ & _ & H). cbn [snd]. unfold good. destruct r as [u|e].
  - by destruct H as [-> _].
  - destruct H as [-> _]. unfold stopped, stop_all, stop_live. cbn. apply good_map; [|exact Hg].
    intros x. by destruct (is_live _).
Qed.

Lemma keeps_conclude key st r wr w : good w -> keeps (conclude float_repr key st r wr) w.
Proof.
  intros Hg. unfold conclude. apply keeps_bind.
  - apply keeps_on_proc. apply good_update; [|exact Hg]. by destruct r.
  - intros [] w1 _ Hg1. apply keeps_bind; [by apply keeps_on_proc|].
    intros [] w2 _ Hg2. by apply keeps_save.
Qed.

Lemma keeps_run_begin key c f wr w : good w -> keeps (run_begin float_repr key c f wr) w.
Proof.
  intros Hg. unfold run_begin. apply keeps_bind; [by apply keeps_on_proc|]. intros [] w1 _ Hg1.
  apply keeps_bind; [exact Hg1|]. intros w2 w3 [= <- <-] _.
  destruct (assoc key (entries (proc w1))) as [e|]; [|exact Hg1].
  destruct (bool_decide (e_state e = STOPPING)); [by apply keeps_conclude|].
  apply keeps_bind; [exact Hg1|]. intros [] w4 _ Hg4.
  destruct f as [|[]]; [by apply keeps_conclude|by apply keeps_conclude|by apply keeps_on_proc].
Qed.

Lemma keeps_run_end key result wr w : good w -> keeps (run_end float_repr key result wr) w.
Proof. intros Hg. unfold run_end. destruct result; by apply keeps_conclude. Qed.

Lemma keeps_stop key wr w : good w -> keeps (stop float_repr key wr) w.
Proof.
  intros Hg. unfold stop. destruct (negb (valid_key key)); [done|].
  apply keeps_bind; [exact Hg|]. intros w1 w2 [= <- <-] _.
  destruct (if closed (proc w) then None else _) as [e|]; [|done].
  destruct (is_live (e_state e)); [|done].
  apply keeps_bind; [apply keeps_on_proc; by apply good_update|]. intros [] w3 _ Hg3.
  apply keeps_bind; [by apply keeps_save|]. intros [] w4 _ Hg4. by apply keeps_on_proc.
Qed.

Lemma keeps_close writes w : good w -> keeps (close float_repr writes) w.
Proof.
  intros Hg. unfold close. apply keeps_bind; [exact Hg|]. intros w1 w2 [= <- <-] _.
  destruct (closed (proc w)); [done|]. apply keeps_bind.
  - generalize (zip (map fst (entries (proc w))) writes). intros l. revert w Hg.
    induction l as [|x l IH]; intros w Hg; [exact Hg|]. cbn [for_each]. apply keeps_bind.
    + unfold stop_quietly. apply keeps_try; [by apply keeps_stop|]. intros e w1 Hg1. by apply keeps_on_proc.
    + intros [] w1 _ Hg1. by apply IH.
  - intros [] w1 _ Hg1. apply keeps_bind; [by apply keeps_on_proc|]. intros [] w2 _ Hg2. by apply keeps_on_proc.
Qed.

Lemma insert_sorted_perm x l : Group.insert_sorted x l ≡ₚ x :: l.
Proof.
  induction l as [|y l IH]; [done|]. cbn. destruct (Group.str_le x y); [done|]. rewrite IH. by constructor.
Qed.
Lemma sorted_perm l : Group.sorted l ≡ₚ l.
Proof. induction l as [|x l IH]; [done|]. cbn. by rewrite insert_sorted_perm, IH. Qed.

(** What the control relies on in a valid configuration. *)
Record shape (c : PilotConfig) : Prop := {
  s_ids : targets_fine (map device_id (devices c)) = true;
  s_volume : 1 <= test_volume c <= 10;
  s_lifetime : num_le (PInt 1) (lifetime_seconds c) && num_le (lifetime_seconds c) (PInt 600) = true }.

Lemma validate_shape c : validate addresses_valid c = true -> shape c.
Proof.
  unfold validate. intros H. repeat (apply andb_true_iff in H as [H ?]). bdestr. split; [|lia|by apply andb_true_iff].
  unfold targets_fine. repeat (apply andb_true_iff; split); try done.
  match goal with F : forallb _ (devices c) = true |- _ => rename F into Hf end.
  rewrite forallb_forall in Hf |- *. intros t (d & <- & Hd)%in_map_iff. specialize (Hf d Hd).
  repeat (apply andb_true_iff in Hf as [Hf ?]). by apply andb_true_iff.
Qed.

Lemma remove_dups_NoDup {A} `{EqDecision A} (l : list A) : NoDup l -> remove_dups l = l.
Proof.
  induction 1 as [|x l Hx _ IH]; [done|]. cbn. destruct (decide_rel _ x l); [done|]. by rewrite IH.
Qed.

Lemma targets_fine_perm l l' : l ≡ₚ l' -> targets_fine l = true -> targets_fine l' = true.
Proof.
  unfold targets_fine. intros Hp H. repeat (apply andb_true_iff in H as [H ?]). bdestr.
  rewrite <- (Permutation_length Hp). repeat (apply andb_true_iff; split); try done.
  - match goal with F : forallb _ l = true |- _ => rename F into Hf end.
    rewrite forallb_forall in Hf |- *. intros t Hin. apply Hf. by apply (Permutation_in _ (Permutation_sym Hp)).
  - apply distinct_NoDup. rewrite <- Hp. by apply distinct_NoDup.
Qed.

Lemma start_targets c : shape c -> targets_fine (Group.sorted (config_targets c)) = true.
Proof.
  intros [H _ _]. unfold config_targets. rewrite remove_dups_NoDup.
  - eapply targets_fine_perm; [|exact H]. by rewrite sorted_perm.
  - unfold targets_fine in H. apply andb_true_iff in H as [_ H]. by apply distinct_NoDup.
Qed.

Lemma keeps_start key c checked wr w : good w ->
  keeps (start float_repr capacity key c (validate addresses_valid c) checked wr) w.
Proof.
  intros Hg. unfold start. destruct (valid_key key) eqn:Ek; [|exact Hg]. cbn [negb].
  apply keeps_bind; [exact Hg|]. intros w1 w2 [= <- <-] _. destruct (closed _ || _); [exact Hg|].
  destruct (validate addresses_valid c) eqn:Ev; [|exact Hg]. cbn [negb]. apply validate_shape in Ev.
  destruct (assoc key (entries (proc w))) as [e|]; [destruct (bool_decide _); exact Hg|].
  destruct (find_conflict _ _ _ _); [exact Hg|].
  destruct (capacity <=? _)%nat eqn:Ec; [exact Hg|]. apply Nat.leb_gt in Ec.
  destruct checked; [|exact Hg]. cbn [negb]. apply keeps_bind.
  - apply keeps_on_proc. destruct Hg as [He Hl]. split; cbn [p_entries entries].
    + apply list.Forall_app. split; [done|]. constructor; [|constructor]. split; [done|]. by apply start_targets.
    + rewrite length_app. cbn. lia.
  - intros [] w1 _ Hg1. apply keeps_bind.
    + apply keeps_try; [by apply keeps_save|]. intros e w2 Hg2.
      apply keeps_bind; [apply keeps_on_proc; by apply good_remove|]. intros [] w3 _ Hg3. exact Hg3.
    + intros [] w2 _ Hg2. by apply keeps_on_proc.
Qed.

(** What [_load] reads back is presentable, whatever the file holds. *)
Lemma load_entries_good v es : load_entries capacity v = Some es -> good_entries es.
Proof.
  unfold load_entries. destruct v as [| | | | |kvs]; try done. destruct (negb _); [done|].
  destruct (get "sessions" kvs) as [[| | | | |l]|]; try done.
  destruct (capacity <? length l)%nat eqn:El; [done|]. apply Nat.ltb_ge in El.
  intros H. apply mapM_Some in H. split; [|by erewrite <- Forall2_length by exact H]. clear El. induction H as [|x y l es Hxy _ IH]; [constructor|]. constructor; [|done].
  destruct (valid_key x.1) eqn:Ek; [|done]. destruct (load_entry x.2) as [e|] eqn:Ee; [|done].
  injection Hxy as <-. split; [done|]. cbn [snd]. unfold load_entry in Ee.
  destruct (x.2) as [| | | | |fs]; try done. destruct (negb _); [done|].
  destruct (get "state" fs) as [[]|], (get "digest" fs) as [[]|], (get "grants" fs ≫= strings_of),
    (get "targets" fs ≫= strings_of) as [ts|], (get "receipt" fs) as [[]|]; try done.
  cbn in Ee. destruct (state_of s) as [st|]; [|done]. cbn in Ee.
  destruct (is_hex_string 64 _ && _ && _ && _ && _ && _ && _) eqn:Ec; [|done]. injection Ee as <-. cbn.
  unfold targets_fine. repeat (apply andb_true_iff in Ec as [Ec ?]). by repeat (apply andb_true_iff; split).
Qed.

Lemma good_boot wr w : good (boot float_repr capacity wr w).
Proof.
  unfold boot. set (w0 := {| journal := _; proc := empty_process; running := true; started := _ |}).
  assert (keeps (_load float_repr capacity wr) w0) as Hk.
  { unfold _load. apply keeps_bind; [split; [constructor|cbn; lia]|]. intros w1 w2 [= <- <-] Hg.
    destruct (journal w0) as [v|]; [|exact Hg]. destruct (negb _); [exact Hg|].
    destruct (load_entries capacity v) as [es|] eqn:El; [|exact Hg].
    apply keeps_bind; [apply keeps_on_proc; by apply (load_entries_good v)|].
    intros [] w3 _ Hg3. by apply keeps_save. }
  unfold keeps in Hk. by destruct (_load float_repr capacity wr w0).
Qed.

Lemma keeps_perform profiles checked wr r call w : good w ->
  perform float_repr addresses_valid capacity profiles checked wr r = Some call -> keeps call w.
Proof.
  intros Hg. destruct r as [|key profile|key]; cbn.
  - by intros [= <-].
  - destruct (assoc profile profiles) as [c|]; [|done]. cbn. intros [= <-]. by apply keeps_start.
  - intros [= <-]. by apply keeps_stop.
Qed.

Lemma good_dispatch profiles report checked wr raw w : good w ->
  good (dispatch float_repr addresses_valid capacity profiles report checked wr raw w).2.
Proof.
  intros Hg. unfold dispatch. destruct (decode_request raw) as [r|]; [|done].
  destruct (perform _ _ _ _ _ _ _) as [call|] eqn:Ep; [|done].
  pose proof (keeps_perform _ _ _ _ _ _ Hg Ep) as Hk. unfold keeps in Hk.
  by destruct (call w) as [[|] w'].
Qed.

Lemma good_step profiles w w' :
  control_step float_repr addresses_valid capacity profiles w w' -> good w -> good w'.
Proof.
  intros Hs Hg. destruct Hs.
  - by apply good_dispatch.
  - by apply keeps_run_begin.
  - by apply keeps_run_end.
  - by apply keeps_close.
  - split; [constructor|cbn; lia].
  - apply good_boot.
Qed.

Lemma good_reach profiles w :
  rtc (control_step float_repr addresses_valid capacity profiles) fresh_world w -> good w.
Proof.
  intros H. assert (good fresh_world) as Hf by (split; [constructor|cbn; lia]).
  revert Hf. induction H as [|a b c Hs _ IH]; [done|]. intros Hg. apply IH. by eapply good_step.
Qed.
End Shown.

(** ** The client understands the server *)
Section Answers.
Context (float_repr : Z -> list Z) (addresses_valid : PilotConfig -> bool).

Lemma check_targets_ok l : targets_fine l = true ->
  check_targets (Some (JList (map JStr l))) = Some (JList (map JStr l)).
Proof.
  intros H. unfold check_targets. cbn [mbind option_bind]. rewrite strings_of_list. cbn [mbind option_bind].
  unfold targets_fine in H. by rewrite H.
Qed.

Lemma state_values st : bool_decide (state_value st ∈ map state_value (LIVE ++ TERMINAL)) = true.
Proof. by destruct st. Qed.

Lemma live_values v : v ∈ map state_value LIVE -> bool_decide (v ∈ map state_value (LIVE ++ TERMINAL)) = true.
Proof. intros H. apply bool_decide_eq_true. rewrite map_app. apply elem_of_app. by left. Qed.

Lemma check_session_ok report p x : presentable x ->
  check_session (session_json id report p x) = Some (session_json _safe_receipt report p x).
Proof.
  intros [Hk Ht]. unfold check_session, session_json. set (kvs := [("request_id", _); _; _; _]).
  replace (negb (same_set kvs.*1 _)) with false by reflexivity.
  change (get "state" kvs) with (Some (JStr (shown_state report p x))).
  change (get "receipt" kvs) with (Some (JObj (receipt x.2))).
  change (get "request_id" kvs) with (Some (JStr x.1)).
  change (get "targets" kvs) with (Some (JList (map JStr (targets x.2)))).
  cbv beta iota. rewrite Hk, check_targets_ok by done.
  assert (bool_decide (shown_state report p x ∈ map state_value (LIVE ++ TERMINAL)) = true) as ->; [|done].
  unfold shown_state. destruct (assoc x.1 (workers p)); [|apply state_values].
  destruct (report x.1) as [v|]; [|apply state_values]. destruct (_ && _) eqn:E; [|apply state_values].
  bdestr. by apply live_values.
Qed.

Lemma check_profile_ok p x : fullmatch PROFILE x.1 = true -> shape x.2 ->
  check_profile (profile_json float_repr p x) = Some (profile_json float_repr p x).
Proof.
  intros Hn [Ht Hv Hl]. unfold check_profile, profile_json. set (kvs := [("id", _); _; _; _; _]).
  replace (negb (same_set kvs.*1 _)) with false by reflexivity.
  change (get "id" kvs) with (Some (JStr x.1)).
  change (get "consumed" kvs) with (Some (JBool (consumed float_repr p x.2))).
  change (get "volume_limit" kvs) with (Some (JNum (PInt (test_volume x.2)))).
  change (get "maximum_seconds" kvs) with (Some (JNum (lifetime_seconds x.2))).
  change (get "targets" kvs) with (Some (JList (map (fun d => JStr (device_id d)) (devices x.2)))).
  cbv beta iota. rewrite Hn, <- andb_assoc, Hl.
  replace (1 <=? test_volume x.2) with true by (symmetry; apply Z.leb_le; lia).
  replace (test_volume x.2 <=? 10) with true by (symmetry; apply Z.leb_le; lia).
  assert (map (fun d => JStr (device_id d)) (devices x.2) = map JStr (map device_id (devices x.2))) as E
    by (by rewrite map_map).
  rewrite E, check_targets_ok by done. cbn [andb mbind option_bind]. unfold kvs. rewrite E. reflexivity.
Qed.

Lemma mapM_map {A} (f : json -> option json) (g h : A -> json) l :
  (forall x, x ∈ l -> f (g x) = Some (h x)) -> mapM f (map g l) = Some (map h l).
Proof.
  intros H. induction l as [|x l IH]; [done|]. cbn. rewrite H by left. cbn.
  rewrite IH; [done|]. intros y Hy. apply H. by right.
Qed.

Lemma check_status_ok profiles report p :
  Forall presentable (entries p) -> (length (entries p) <= 128)%nat ->
  profiles_valid addresses_valid profiles = true ->
  check_result (status float_repr id profiles report p) = Some (status float_repr _safe_receipt profiles report p).
Proof.
  intros Hp Hl Hv. unfold profiles_valid in Hv. apply andb_true_iff in Hv as [Hv Hf].
  apply andb_true_iff in Hv as [_ Hn]. apply Nat.leb_le in Hn. rewrite forallb_forall in Hf.
  unfold check_result, status. set (kvs := [("version", _); _; _; _; _; _]).
  replace (negb (same_set kvs.*1 _)) with false by reflexivity.
  replace (equals_one (get "version" kvs)) with true by (change (get "version" kvs) with (Some (JNum (PInt 1))); unfold equals_one, num_eq, num_le, finite;
        by rewrite Z.leb_refl).
  change (get "available" kvs) with (Some (JBool (negb (closed p) && negb (storage_failed p)))).
  replace (bool_decide (get_str "maturity" kvs = Some "LAB")) with true by reflexivity.
  replace (bool_decide (get_str "hardware_acceptance" kvs = Some "NOT_ESTABLISHED")) with true by reflexivity.
  change (get_list "sessions" kvs) with (Some (map (session_json id report p) (entries p))).
  change (get_list "profiles" kvs) with (Some (map (profile_json float_repr p) profiles)).
  cbn [negb orb mbind option_bind]. rewrite !length_map.
  replace (128 <? length (entries p))%nat with false by (symmetry; apply Nat.ltb_ge; lia).
  replace (16 <? length profiles)%nat with false by (symmetry; apply Nat.ltb_ge; lia).
  cbn [orb].
  rewrite (mapM_map check_session _ (session_json _safe_receipt report p)).
  2: { intros x Hx. apply check_session_ok. rewrite list.Forall_forall in Hp. by apply Hp. }
  rewrite (mapM_map check_profile _ (profile_json float_repr p)).
  2: { intros x Hx. apply list_elem_of_In in Hx. specialize (Hf x Hx). apply andb_true_iff in Hf as [Hm Hc].
       apply check_profile_ok; [done|by eapply validate_shape]. }
  reflexivity.
Qed.

Lemma check_error code : code ∈ ERRORS -> check_answer (error_json code) = Some (error_json code).
Proof.
  intros H. unfold check_answer, error_json. set (kvs := [("ok", _); _]).
  change (get "ok" kvs) with (Some (JBool false)).
  replace (negb (same_set kvs.*1 ["ok"; "code"])) with false by reflexivity.
  change (get_str "code" kvs) with (Some code). cbn [mbind option_bind]. by rewrite bool_decide_true.
Qed.

Lemma error_code_known e : error_code e ∈ ERRORS.
Proof.
  destruct e as [code|code]; cbn; [case_bool_decide; [done|]|];
    apply (bool_decide_unpack _); reflexivity.
Qed.

(** C38. The client of the control accepts every answer of its server: in every reachable
    state, for every request that passes the client's own check, the answer passes the
    checks of [exchange] - an error is one of the known codes, and a result is the
    server's status after the call that succeeded, receipts reduced to their safe
    fields. *)
Theorem client_accepts_server capacity profiles report checked wr raw w r :
  profiles_valid addresses_valid profiles = true -> (capacity <= 128)%nat ->
  rtc (control_step float_repr addresses_valid capacity profiles) fresh_world w ->
  decode_request raw = Some r ->
  exists a w', exchange float_repr addresses_valid capacity profiles report checked wr raw w = (Some a, w') /\
    ((exists code, a = error_json code /\ code ∈ ERRORS) \/
     (a = ok_json (status float_repr _safe_receipt profiles report (proc w')) /\
      exists call, perform float_repr addresses_valid capacity profiles checked wr r = Some call /\ call w = (Ok tt, w'))).
Proof.
  intros Hv Hcap Hreach Hr. apply good_reach in Hreach as Hg.
  unfold exchange, dispatch. rewrite Hr.
  assert (forall code w', code ∈ ERRORS -> exists a w'', (check_answer (answer float_repr (error_json code)), w') = (Some a, w'') /\
     ((exists code, a = error_json code /\ code ∈ ERRORS) \/
      (a = ok_json (status float_repr _safe_receipt profiles report (proc w'')) /\
       exists call, perform float_repr addresses_valid capacity profiles checked wr r = Some call /\ call w = (Ok tt, w''))))
    as Herr.
  { intros code w' Hin. unfold answer. destruct (_ <? _).
    - eexists _, _. split; [by rewrite check_error by (apply (bool_decide_unpack _); reflexivity)|]. left.
      eexists. split; [reflexivity|]. apply (bool_decide_unpack _); reflexivity.
    - eexists _, _. split; [by rewrite check_error|]. left. by eexists. }
  destruct (perform _ _ _ _ _ _ r) as [call|] eqn:Ep.
  2: { apply Herr. apply (bool_decide_unpack _); reflexivity. }
  pose proof (keeps_perform _ _ _ _ _ _ _ _ _ Hg Ep) as [Hk1 Hk2].
  destruct (call w) as [[[]|e] w'] eqn:Ec; [|apply Herr, error_code_known]. cbn [snd] in Hk1, Hk2.
  unfold answer. destruct (16383 <? _).
  - eexists _, _. split; [by rewrite check_error by (apply (bool_decide_unpack _); reflexivity)|]. left.
    eexists. split; [reflexivity|]. apply (bool_decide_unpack _); reflexivity.
  - unfold check_answer, ok_json. set (kvs := [("ok", _); _]).
    change (get "ok" kvs) with (Some (JBool true)).
    replace (negb (same_set kvs.*1 ["ok"; "result"])) with false by reflexivity.
    change (get "result" kvs) with (Some (status float_repr id profiles report (proc w'))).
    cbn [mbind option_bind]. rewrite check_status_ok by (try done; lia). cbn [option_bind].
    eexists _, _. split; [reflexivity|]. right. split; [reflexivity|]. by exists call.
Qed.
End Answers.

(** ** A concrete exchange *)
Definition kitchen : PilotConfig :=
  {| data_dir := "/data"; database_path := "/data/app.db";
     devices := [{| device_id := "AABB"; ip_address := "192.168.1.20"; fingerprint := ["AABB"; "192.168.1.20"; "x"; "y"; "z"];
                    receiver_socket := "/run/r.sock" |}];
     c_master := "AABB"; receiver_binary_sha256 := String.concat "" (repeat "ab" 32);
     controller_nonce := String.concat "" (repeat "cd" 16); relay_url := "http://192.168.1.2:8090/r/x";
     base_url := "http://192.168.1.2:8000"; listen_host := "192.168.1.2"; listen_port := 8090;
     lifetime_seconds := PInt 600; wait_seconds := PInt 60; test_volume := 5; ipc_peer_uid := 0;
     status_path := "/data/s.json"; receipt_path := "/data/r.json"; stop_path := "/data/stop";
     radio_volume_forwarding := false |}.
Definition kitchen_profiles : list (string * PilotConfig) := [("kitchen", kitchen)].
(** Texts with their double quotes written as single ones. *)
Definition quoted : string -> string := smap (fun c => if bool_decide (c = "'"%char) then chr 34 else c).

Definition demo_request : string :=
  (quoted "{'version':1,'action':'start','profile':'kitchen','request_id':'0123456789abcdef0123456789abcdef'}").
Definition booted : world := boot (fun _ => []) 128 Written fresh_world.

Lemma client_accepts_server_witness :
  profiles_valid (fun _ => true) kitchen_profiles = true /\
  decode_request demo_request = Some (RStart "0123456789abcdef0123456789abcdef" "kitchen") /\
  exists a w', exchange (fun _ => []) (fun _ => true) 128 kitchen_profiles (fun _ => None) true Written demo_request booted
               = (Some a, w').
Proof.
  assert (profiles_valid (fun _ => true) kitchen_profiles = true) as Hv by (vm_compute; reflexivity).
  assert (decode_request demo_request = Some (RStart "0123456789abcdef0123456789abcdef" "kitchen")) as Hr
    by (vm_compute; reflexivity).
  split; [exact Hv|]. split; [exact Hr|].
  destruct (client_accepts_server (fun _ => []) (fun _ => true) 128 kitchen_profiles (fun _ => None) true Written
              demo_request booted _ Hv (le_n 128) (rtc_once _ _ (c_boot _ _ 128 kitchen_profiles fresh_world Written eq_refl)) Hr)
    as (a & w' & E & _).
  exists a, w'. exact E.
Defined.

(** A request of other keys, of a foreign profile name, or without a session is refused. *)
Example refused_requests :
  map decode_request
    [(quoted "{'version':1,'action':'status'}"); (quoted "{'version':1,'action':'status','x':1}");
     (quoted "{'version':1.0,'action':'status'}"); (quoted "{'version':1,'action':'stop','request_id':'1'}")]
  = [Some RStatus; None; None; None].
Proof. vm_compute. reflexivity. Qed.

End Control.
