(* ===== verification/Policy.v ===== *)
(** * Device policy  (app/services/device_policy.py)

    What background work may do to a radio: the class and the capabilities read off its
    texts, the circuit breaker over its failures, and [should_poll].  The runtime state
    is the decoded JSON object of its row; [datetime.fromisoformat], [isoformat] and
    [str] of a JSON value are parameters. *)
From Stdlib Require Import Ascii String.
From S2P Require Import Prelude PyNum PyStr Json.
#[local] Open Scope string_scope.
#[local] Open Scope list_scope.
#[local] Open Scope Z_scope.

Module Policy.

Inductive DeviceClass : Type := PORTABLE | STATIONARY | UNKNOWN.
Inductive SafeModeSetting : Type := AUTO | ALWAYS | DISABLED.
Inductive PollingProfile : Type :=
| P_AUTO | ACTIVE_PLAYBACK | IDLE_ONLINE | STANDBY | PORTABLE_BATTERY | OFFLINE_BACKOFF | SETUP
| MANUAL_DIAGNOSTICS.
Inductive CircuitState : Type := CLOSED | HALF_OPEN | OPEN.

#[export] Instance DeviceClass_eq_dec : EqDecision DeviceClass.
Proof. solve_decision. Defined.
#[export] Instance SafeModeSetting_eq_dec : EqDecision SafeModeSetting.
Proof. solve_decision. Defined.
#[export] Instance PollingProfile_eq_dec : EqDecision PollingProfile.
Proof. solve_decision. Defined.
#[export] Instance CircuitState_eq_dec : EqDecision CircuitState.
Proof. solve_decision. Defined.

Definition safe_mode_value (s : SafeModeSetting) : string :=
  match s with AUTO => "auto" | ALWAYS => "always" | DISABLED => "disabled" end.
Definition profile_value (p : PollingProfile) : string :=
  match p with
  | P_AUTO => "auto" | ACTIVE_PLAYBACK => "active_playback" | IDLE_ONLINE => "idle_online" | STANDBY => "standby"
  | PORTABLE_BATTERY => "portable_battery" | OFFLINE_BACKOFF => "offline_backoff" | SETUP => "setup"
  | MANUAL_DIAGNOSTICS => "manual_diagnostics"
  end.

(** The columns of a device the policy reads. *)
Record Device := {
  device_id : string; model : string; name : string; info_xml : string; capabilities_xml : string;
  device_class_override : string; safe_mode : string; polling_profile_override : string;
  device_failures : Z; reachable : bool; auto_restore_allowed : bool; maintenance_actions_allowed : bool;
  battery_poll_allowed : bool }.

Record DeviceCapabilities := {
  battery : option bool; multiroom : option bool; clock_display : option bool; source : string }.

Record DeviceInteractionPolicy := {
  policy_device : string; device_class : DeviceClass; safe_mode_active : bool; safe_mode_setting : SafeModeSetting;
  polling_profile : PollingProfile; circuit_state : CircuitState; failure_count : Z; backoff_seconds : Z;
  next_retry_at : string; allow_auto_wakeup : bool; allow_automatic_power_key : bool; allow_preset_restore : bool;
  allow_invalid_source_recovery : bool; allow_battery_poll : bool; allow_maintenance_actions : bool;
  low_risk_probe_interval_seconds : Z; skip_reason : string; suspected_state : string;
  capabilities : DeviceCapabilities }.

Record PollDecision := { allowed : bool; profile : PollingProfile; reason : string; low_risk_only : bool }.

(** What the module may raise. *)
Inductive error : Type := OverflowError | AttributeError.

(** ** Settings *)
Definition _clean (value default : string) : string := or_str (py_lower (py_strip value)) default.

Definition _parse_safe_mode (value : string) : SafeModeSetting :=
  let text := _clean value "auto" in
  if bool_decide (text ∈ ["true"; "on"; "always_on"; "forced"]) then ALWAYS
  else if bool_decide (text ∈ ["false"; "off"; "never"]) then DISABLED
  else default AUTO (head (filter (fun s => safe_mode_value s = text) [AUTO; ALWAYS; DISABLED])).

Definition _parse_profile (value : string) : PollingProfile :=
  let text := _clean value "auto" in
  default P_AUTO (head (filter (fun p => profile_value p = text)
    [P_AUTO; ACTIVE_PLAYBACK; IDLE_ONLINE; STANDBY; PORTABLE_BATTERY; OFFLINE_BACKOFF; SETUP; MANUAL_DIAGNOSTICS])).

(** ** Classification *)
(** [token in text]. *)
Fixpoint contains (token text : string) : bool :=
  starts_with token text || match text with String _ text => contains token text | EmptyString => false end.
Definition any_token (tokens : list string) (text : string) : bool := existsb (fun t => contains t text) tokens.

Fixpoint join_spaces (l : list string) : string :=
  match l with [] => "" | [x] => x | x :: l => x +:+ " " +:+ join_spaces l end.
Definition _combined_device_text (d : Device) : string :=
  py_lower (join_spaces (List.filter (fun part => negb (empty_str part)) [model d; name d; info_xml d; capabilities_xml d])).

Definition classify_device (d : Device) : DeviceClass :=
  let override := _clean (device_class_override d) "auto" in
  if bool_decide (override = "portable") then PORTABLE
  else if bool_decide (override ∈ ["stationary"; "fixed"]) then STATIONARY
  else if bool_decide (override = "unknown") then UNKNOWN
  else
    let text := _combined_device_text d in
    if any_token ["soundtouch portable"; "portable"; "taigan"] text then PORTABLE
    else if any_token ["soundtouch 10"; "soundtouch 20"; "soundtouch 30"; "soundtouch 300"; "wave soundtouch";
                       "soundtouch wireless link"; "soundtouch sa-"; "cinemate"; "lifestyle"; "st10"; "st20"; "st30";
                       "rhino"; "spotty"; "mojo"; "ginger"; "burns"; "lisa"] text
    then STATIONARY else UNKNOWN.

Definition capabilities_for_device (d : Device) (c : DeviceClass) : DeviceCapabilities :=
  let text := _combined_device_text d in
  {| battery := Some false;
     multiroom := if bool_decide (c = UNKNOWN) then None else Some true;
     clock_display := if any_token ["portable"; "soundtouch 20"; "soundtouch 30"; "wave"] text then Some true else None;
     source := if bool_decide (c = UNKNOWN) then "unknown" else "model_library" |}.

(** ** Failures and the circuit *)
Section Policy.
Context (str_of : json -> string) (fromisoformat : string -> option datetime) (isoformat : datetime -> string).

(** [runtime_state.get("playback_keepalive") or {}]. *)
Definition keepalive_of (state : list (string * json)) : res error (list (string * json)) :=
  match get "playback_keepalive" state with
  | Some v => if truthy v then match v with JObj kvs => Ok kvs | _ => Err AttributeError end else Ok []
  | None => Ok []
  end.

(** [int(value or 0)], or 0 when it raises [TypeError] or [ValueError]. *)
Definition count_of (v : option json) : res error Z :=
  match v with
  | Some v => if truthy v then match int_of v with Ok n => Ok (default 0 n) | Err _ => Err OverflowError end else Ok 0
  | None => Ok 0
  end.

Definition _failures (d : Device) (state : list (string * json)) : res error Z :=
  keepalive ← keepalive_of state;
  a ← count_of (get "consecutive_failures" keepalive);
  b ← count_of (get "failure_count" keepalive);
  Ok (Z.max (Z.max a b) (device_failures d)).

(** [text.replace("Z", "+00:00")]. *)
Fixpoint replace_z (s : string) : string :=
  match s with
  | String c s => if bool_decide (c = "Z"%char) then "+00:00" +:+ replace_z s else String c (replace_z s)
  | EmptyString => ""
  end.

Definition parse_text (s : string) : option datetime :=
  d ← fromisoformat (replace_z s);
  Some (match dt_offset d with Some _ => d | None => to_utc d end).
Definition _parse_time (v : option json) : option datetime :=
  match v with Some v => if truthy v then parse_text (str_of v) else None | None => None end.

Definition BUCKETS : list Z := [0; 0; 5 * 60; 15 * 60; 30 * 60; 60 * 60].
Definition recommended_backoff_seconds (failures : Z) : Z :=
  if failures <=? 0 then 0
  else default 0 (BUCKETS !! Z.to_nat (Z.min (failures - 1) (Z.of_nat (length BUCKETS) - 1))).

Definition _circuit_state (failures : Z) (retry : option datetime) (now : datetime) : CircuitState :=
  if 5 <=? failures then
    match retry with
    | Some t => if dt_us t <=? dt_us now then HALF_OPEN else OPEN
    | None => OPEN
    end
  else if 0 <? failures then HALF_OPEN else CLOSED.

(** [str(state.get(k) or "").upper()]. *)
Definition text_of (v : option json) : string :=
  match v with Some v => if truthy v then py_upper (str_of v) else "" | None => "" end.

Definition _runtime_profile (d : Device) (state : list (string * json)) (circuit : CircuitState) : PollingProfile :=
  let override := _parse_profile (polling_profile_override d) in
  if negb (bool_decide (override = P_AUTO)) then override
  else if bool_decide (circuit = OPEN) then OFFLINE_BACKOFF
  else
    let source := text_of (get "current_source" state) in
    let playback :=
      text_of (match get "playback_state" state with
               | Some v => if truthy v then Some v else get "play_status" state
               | None => get "play_status" state
               end) in
    if bool_decide (source = "STANDBY") then STANDBY
    else if bool_decide (playback = "PLAY_STATE") && negb (bool_decide (source ∈ [""; "STANDBY"; "INVALID_SOURCE"]))
    then ACTIVE_PLAYBACK
    else if reachable d then IDLE_ONLINE else OFFLINE_BACKOFF.

(** [low_risk_interval]: the setting [stationary_low_risk_interval_seconds]. *)
Definition policy_for_device (low_risk_interval : Z) (d : Device) (state : list (string * json)) (now : datetime)
    : res error DeviceInteractionPolicy :=
  let class := classify_device d in
  let setting := _parse_safe_mode (safe_mode d) in
  keepalive ← keepalive_of state;
  failures ← _failures d state;
  let retry := _parse_time (get "next_retry_at" keepalive) in
  let circuit := _circuit_state failures retry now in
  let is_open := bool_decide (circuit = OPEN) in
  let active := bool_decide (setting = ALWAYS) || (bool_decide (setting = AUTO) && is_open) in
  retry ← (if is_open && negb (is_some retry)
           then match add_seconds now (recommended_backoff_seconds (Z.max failures 1)) with
                | Some t => Ok (Some t) | None => Err OverflowError end
           else Ok retry);
  let wakeup := negb active && negb is_open in
  let caps := capabilities_for_device d class in
  Ok {| policy_device := device_id d; device_class := class; safe_mode_active := active;
        safe_mode_setting := setting; polling_profile := _runtime_profile d state circuit;
        circuit_state := circuit; failure_count := failures;
        backoff_seconds := recommended_backoff_seconds failures;
        next_retry_at := match retry with Some t => isoformat t | None => "" end;
        allow_auto_wakeup := wakeup; allow_automatic_power_key := wakeup;
        allow_preset_restore := auto_restore_allowed d && negb active;
        allow_invalid_source_recovery := negb active && negb is_open;
        allow_battery_poll := battery_poll_allowed d && bool_decide (battery caps = Some true) && negb active;
        allow_maintenance_actions := maintenance_actions_allowed d && negb active;
        low_risk_probe_interval_seconds := low_risk_interval;
        skip_reason := if is_open then "circuit breaker open"
                       else if reachable d then "" else "device currently marked unreachable";
        suspected_state := if is_open then "offline_or_unreachable"
                           else if reachable d then "online" else "offline";
        capabilities := caps |}.

Definition should_poll (p : DeviceInteractionPolicy) (now : datetime) : PollDecision :=
  let retry := if empty_str (next_retry_at p) then None else parse_text (next_retry_at p) in
  if match retry with Some t => dt_us now <? dt_us t | None => false end
  then {| allowed := false; profile := polling_profile p; reason := "backoff active"; low_risk_only := true |}
  else if safe_mode_active p
  then {| allowed := false; profile := polling_profile p; reason := "safe mode active"; low_risk_only := true |}
  else {| allowed := true; profile := polling_profile p; reason := or_str (skip_reason p) "poll allowed";
          low_risk_only := bool_decide (circuit_state p = HALF_OPEN) |}.

End Policy.

(** ** Properties *)
(** The backoff never shrinks with the failures and ends at an hour. *)
Lemma backoff_ladder f f' : f <= f' ->
  0 <= recommended_backoff_seconds f <= recommended_backoff_seconds f' /\ recommended_backoff_seconds f' <= 3600.
Proof.
  assert (forall n, recommended_backoff_seconds n =
            if n <=? 2 then 0 else if n =? 3 then 300 else if n =? 4 then 900 else if n =? 5 then 1800 else 3600) as E.
  { intros n. unfold recommended_backoff_seconds. destruct (n <=? 0) eqn:E0; bdestr.
    - by rewrite (proj2 (Z.leb_le n 2)) by lia.
    - cbn [length BUCKETS]. destruct (n <=? 6) eqn:E6; bdestr.
      + assert (n = 1 \/ n = 2 \/ n = 3 \/ n = 4 \/ n = 5 \/ n = 6) as H by lia.
        by destruct H as [-> |[-> |[-> |[-> |[-> | ->]]]]].
      + rewrite Z.min_r by lia. repeat match goal with |- context [if ?c then _ else _] => destruct c eqn:? end; bdestr; lia || done. }
  intros H. rewrite !E. repeat match goal with |- context [if ?c then _ else _] => destruct c eqn:? end; bdestr; lia.
Qed.

Section OpenCircuit.
Context (str_of : json -> string) (fromisoformat : string -> option datetime) (isoformat : datetime -> string).
(** [datetime.fromisoformat] reads what [isoformat] wrote of an aware value: the same
    instant, aware. *)
Definition reads_back : Prop := forall t, dt_offset t <> None ->
  isoformat t <> "" /\
  exists t', fromisoformat (replace_z (isoformat t)) = Some t' /\ dt_us t' = dt_us t /\ dt_offset t' <> None.
Hypothesis Hiso : reads_back.

Lemma parse_time_aware v t : _parse_time str_of fromisoformat v = Some t -> dt_offset t <> None.
Proof.
  unfold _parse_time, parse_text. destruct v as [v|]; [|done]. destruct (truthy v); [|done].
  destruct (fromisoformat _) as [d|]; [|done]. cbn. intros [= <-]. by destruct (dt_offset d) eqn:E; rewrite ?E.
Qed.

Lemma parse_iso t : dt_offset t <> None ->
  empty_str (isoformat t) = false /\ exists t', parse_text fromisoformat (isoformat t) = Some t' /\ dt_us t' = dt_us t.
Proof.
  intros Ht. destruct (Hiso t Ht) as (Hne & t' & E & Hus & Ho). split; [by apply bool_decide_eq_false|].
  exists t'. unfold parse_text. rewrite E. cbn. by destruct (dt_offset t').
Qed.

(** The circuit breaker holds: when [should_poll] lets a device be polled at the time
    its policy was made, its circuit is not open and its safe mode is not active, the
    retry time that was recorded - if any - has come, five or more failures mean that
    such a time was recorded, and a device with failures is only probed at low risk.
    And an open circuit allows no wake-up, no power key and no source recovery. *)
Theorem open_circuit_holds interval d state now p keepalive :
  dt_offset now <> None -> keepalive_of state = Ok keepalive ->
  policy_for_device str_of fromisoformat isoformat interval d state now = Ok p ->
  (allowed (should_poll fromisoformat p now) = true ->
     circuit_state p <> OPEN /\ safe_mode_active p = false /\
     (forall t, _parse_time str_of fromisoformat (get "next_retry_at" keepalive) = Some t -> dt_us t <= dt_us now) /\
     (5 <= failure_count p -> _parse_time str_of fromisoformat (get "next_retry_at" keepalive) <> None) /\
     (0 < failure_count p -> low_risk_only (should_poll fromisoformat p now) = true)) /\
  (circuit_state p = OPEN ->
     allow_auto_wakeup p = false /\ allow_automatic_power_key p = false /\ allow_invalid_source_recovery p = false).
Proof.
  intros Hnow Hk Hp. unfold policy_for_device in Hp. rewrite Hk in Hp. cbn [mbind res_bind] in Hp.
  destruct (_failures d state) as [n|] eqn:Ef; [|done]. cbn [mbind res_bind] in Hp.
  set (retry := _parse_time str_of fromisoformat (get "next_retry_at" keepalive)) in *.
  set (circuit := _circuit_state n retry now) in *.
  assert (forall t, retry = Some t -> dt_offset t <> None) as Haware by (intros t E; by eapply parse_time_aware).
  destruct (bool_decide (circuit = OPEN) && negb (is_some retry)) eqn:Eo in Hp.
  - (* no retry time was recorded: one is made, in the future *)
    apply andb_true_iff in Eo as [Eo Er]. apply bool_decide_eq_true in Eo.
    destruct retry as [t|] eqn:Et; [done|]. clear Er.
    destruct (add_seconds now _) as [t|] eqn:Ea; [|done]. cbn [mbind res_bind] in Hp. injection Hp as <-.
    cbn [circuit_state allow_auto_wakeup allow_automatic_power_key allow_invalid_source_recovery].
    rewrite Eo. cbn [bool_decide]. split; [|intros _; by rewrite !andb_false_r].
    intros Hall. exfalso.
    assert (5 <= n) as Hn.
    { unfold circuit, _circuit_state in Eo. destruct (5 <=? n) eqn:E5; bdestr; [done|]. by destruct (0 <? n). }
    unfold add_seconds in Ea. destruct (_ && _) in Ea; [|done]. injection Ea as <-.
    assert (1800 <= recommended_backoff_seconds (Z.max n 1)) as Hb
      by (apply (backoff_ladder 5 (Z.max n 1)); lia).
    destruct (parse_iso {| dt_us := dt_us now + recommended_backoff_seconds (Z.max n 1) * SECOND; dt_offset := dt_offset now |} Hnow)
      as (Hne & t' & Ep & Hus). cbn [dt_us] in Hus.
    unfold should_poll in Hall. cbn [next_retry_at] in Hall. rewrite Hne, Ep in Hall.
    replace (dt_us now <? dt_us t') with true in Hall by (symmetry; apply Z.ltb_lt; unfold SECOND in *; lia). done.
  - cbn [mbind res_bind] in Hp. injection Hp as <-.
    cbn [circuit_state safe_mode_active failure_count allow_auto_wakeup allow_automatic_power_key allow_invalid_source_recovery].
    split; [|intros Ec; rewrite Ec, (bool_decide_true (OPEN = OPEN)) by done; by rewrite !andb_false_r].
    intros Hall.
    assert (forall t, retry = Some t -> dt_us t <= dt_us now) as Hdue.
    { intros t Et. destruct (parse_iso t (Haware t Et)) as (Hne & t' & Ep & Hus).
      unfold should_poll in Hall. cbn [next_retry_at] in Hall. rewrite Et, Hne, Ep in Hall.
      destruct (dt_us now <? dt_us t') eqn:El; [done|]. bdestr. lia. }
    assert (circuit <> OPEN) as Hc.
    { intros Ec. rewrite Ec in Eo. destruct retry as [t|] eqn:Et; [|done]. specialize (Hdue t eq_refl).
      unfold circuit, _circuit_state in Ec. rewrite (proj2 (Z.leb_le _ _) Hdue) in Ec.
      destruct (5 <=? n); [done|]. by destruct (0 <? n). }
    split; [done|]. unfold should_poll in *. cbn [next_retry_at safe_mode_active circuit_state] in *.
    destruct (match (if empty_str _ then None else _) with Some t => _ | None => false end); [done|].
    destruct (bool_decide (_parse_safe_mode (safe_mode d) = ALWAYS) || _); [done|].
    split; [done|]. split; [done|]. cbn [low_risk_only]. unfold circuit, _circuit_state in *. split; intros Hn.
    + rewrite (proj2 (Z.leb_le _ _) Hn) in Hc. by destruct retry.
    + destruct (5 <=? n) eqn:E5; [destruct retry as [t|]; [|done]; by destruct (dt_us t <=? dt_us now)|].
      by rewrite (proj2 (Z.ltb_lt _ _) Hn).
Qed.
End OpenCircuit.

(** ** A concrete policy *)
(** A notation of instants that reads back: a sign and the microseconds in unary. *)
Fixpoint marks (n : nat) : string := match n with O => "" | S n => String "1"%char (marks n) end.
Definition unary_iso (t : datetime) : string :=
  String (if dt_us t <? 0 then "-"%char else "+"%char) (marks (Z.to_nat (Z.abs (dt_us t)))).
Definition unary_from (s : string) : option datetime :=
  match s with
  | String c r => let n := Z.of_nat (String.length r) in
                  Some (utc (if bool_decide (c = "-"%char) then - n else n))
  | EmptyString => None
  end.

Lemma marks_plain n : replace_z (marks n) = marks n /\ String.length (marks n) = n.
Proof. induction n as [|n [IH1 IH2]]; [done|]. cbn. by rewrite IH1, IH2. Qed.

Lemma unary_reads_back : reads_back unary_from unary_iso.
Proof.
  intros t Ht. split; [done|]. unfold unary_iso. destruct (marks_plain (Z.to_nat (Z.abs (dt_us t)))) as [E1 E2].
  exists (utc (dt_us t)). split; [|done].
  assert (forall c, bool_decide (c = "Z"%char) = false ->
            unary_from (replace_z (String c (marks (Z.to_nat (Z.abs (dt_us t))))))
            = Some (utc (if bool_decide (c = "-"%char) then - Z.abs (dt_us t) else Z.abs (dt_us t)))) as Hc.
  { intros c Hz. cbn [replace_z]. rewrite Hz, E1. unfold unary_from. cbv zeta. rewrite E2, Z2Nat.id by lia. done. }
  destruct (dt_us t <? 0) eqn:E; bdestr; rewrite Hc by reflexivity.
  - change (Some (utc (- Z.abs (dt_us t))) = Some (utc (dt_us t))). f_equal. f_equal. lia.
  - change (Some (utc (Z.abs (dt_us t))) = Some (utc (dt_us t))). f_equal. f_equal. lia.
Qed.

Definition radio : Device :=
  {| device_id := "AABB"; model := "SoundTouch 20"; name := "Kitchen"; info_xml := ""; capabilities_xml := "";
     device_class_override := "auto"; safe_mode := "off"; polling_profile_override := ""; device_failures := 0;
     reachable := true; auto_restore_allowed := true; maintenance_actions_allowed := false;
     battery_poll_allowed := true |}.
Definition failing_state : list (string * json) :=
  [("playback_keepalive", JObj [("consecutive_failures", JNum (PInt 6)); ("next_retry_at", JStr "+1111")])].
Definition plain_str (v : json) : string := match v with JStr s => s | _ => "?" end.

(** Six failures, and the retry time has come: a probe at low risk. *)
Lemma open_circuit_holds_witness :
  exists p, policy_for_device plain_str unary_from unary_iso 300 radio failing_state (utc 5) = Ok p /\
    allowed (should_poll unary_from p (utc 5)) = true /\ circuit_state p <> OPEN /\
    low_risk_only (should_poll unary_from p (utc 5)) = true.
Proof.
  eexists. split; [vm_compute; reflexivity|]. split; [vm_compute; reflexivity|].
  match goal with |- circuit_state ?p <> _ /\ _ => set (q := p) end.
  destruct (open_circuit_holds plain_str unary_from unary_iso unary_reads_back 300 radio failing_state (utc 5) q
              [("consecutive_failures", JNum (PInt 6)); ("next_retry_at", JStr "+1111")]) as [H _];
    [discriminate|reflexivity|vm_compute; reflexivity|].
  destruct H as (H1 & _ & _ & _ & H5); [vm_compute; reflexivity|]. split; [exact H1|]. apply H5. vm_compute. reflexivity.
Defined.

(** A stored failure count that is infinite raises out of the policy. *)
Example infinite_failures :
  policy_for_device plain_str unary_from unary_iso 300 radio
    [("playback_keepalive", JObj [("failure_count", JNum (PFloat (FInf false)))])] (utc 5) = Err OverflowError.
Proof. vm_compute. reflexivity. Qed.

End Policy.
