(* ===== verification/Admin.v ===== *)
(** * Administrator sessions and automation tokens
    (app/core/admin_store.py, app/core/api_tokens.py)

    The authentication database: one administrator, browser sessions, login attempts and
    automation tokens.  Every operation is one transaction, rolled back when it raises;
    a login is two, with the password check between them, so other transactions may
    run there.  [argon2] is a parameter ([verify], [needs_rehash], and each new hash an
    argument), and so are the random cookies and token secrets and the clock of every
    call.  The permission checks of the file and the failures of SQLite are the flag [ok]
    of a call.  [history] is a ghost: what happened, in order. *)
From Stdlib Require Import Ascii String Sorted.
From S2P Require Import Prelude PyNum PyStr Json Sha256 Group.
#[local] Open Scope string_scope.
#[local] Open Scope list_scope.
#[local] Open Scope Z_scope.

Module Admin.

Inductive exn : Type := AuthUnavailable | BootstrapConflict | LoginRejected | LoginThrottled | ValueError.

Definition alnum (c : ascii) : bool := is_upper c || is_lower c || is_digit c.
Definition one_of (l : list ascii) (c : ascii) : bool := bool_decide (c ∈ l).
Definition urlsafe (c : ascii) : bool := alnum c || one_of ["_"; "-"]%char c.

(** ** admin_store.py *)
Definition COOKIE : regex := rep 43 (RChar urlsafe).
Definition USERNAME : regex :=
  RCat (RChar alnum) (upto 63 (RChar (fun c => alnum c || one_of ["_"; "."; "-"]%char c))).
Definition ABSOLUTE_SECONDS : Z := 8 * 60 * 60.
Definition IDLE_SECONDS : Z := 30 * 60.

Definition _digest (value : string) : string := sha256_hex value.
Definition _csrf (cookie : string) : string := _digest ("basswiesn-admin-csrf-v1:" +:+ cookie).
Definition credentials_ok (username password : string) : bool :=
  fullmatch USERNAME username && (15 <=? py_len password) && (Z.of_nat (String.length password) <=? 1024).

Record session_row := { s_digest : string; s_created : Z; s_seen : Z; s_expires : Z }.
Record attempt_row := { bucket : string; start : Z; count : Z }.
Record token_row := {
  t_id : string; t_digest : string; t_name : string; t_scopes : json; t_created : Z; t_expires : Z;
  t_last_used : option Z; t_revoked : bool }.
Record audit_row := { a_id : Z; a_created : Z; a_code : string }.

Record store := {
  initialized : bool;                              (* the tables exist, [user_version] is 1 *)
  administrator : option (string * string);        (* the name and the password hash *)
  sessions : list session_row;
  attempts : list attempt_row;
  api_tokens : list token_row;
  audit : list audit_row }.
Definition new_store : store :=
  {| initialized := false; administrator := None; sessions := []; attempts := []; api_tokens := []; audit := [] |}.

Definition with_admin a s := {| initialized := initialized s; administrator := a; sessions := sessions s;
  attempts := attempts s; api_tokens := api_tokens s; audit := audit s |}.
Definition with_sessions l s := {| initialized := initialized s; administrator := administrator s; sessions := l;
  attempts := attempts s; api_tokens := api_tokens s; audit := audit s |}.
Definition with_attempts l s := {| initialized := initialized s; administrator := administrator s;
  sessions := sessions s; attempts := l; api_tokens := api_tokens s; audit := audit s |}.
Definition with_tokens l s := {| initialized := initialized s; administrator := administrator s;
  sessions := sessions s; attempts := attempts s; api_tokens := l; audit := audit s |}.
Definition with_audit l s := {| initialized := initialized s; administrator := administrator s;
  sessions := sessions s; attempts := attempts s; api_tokens := api_tokens s; audit := l |}.
Definition with_tables s := {| initialized := true; administrator := administrator s; sessions := sessions s;
  attempts := attempts s; api_tokens := api_tokens s; audit := audit s |}.

Definition M := ST store exn.
Definition max_id (l : list audit_row) : Z := fold_right Z.max 0 (map a_id l).
Definition _audit (code : string) (now : Z) : M unit :=
  modify (fun s =>
    let l := audit s ++ [{| a_id := max_id (audit s) + 1; a_created := now; a_code := code |}] in
    with_audit (List.filter (fun r => negb (a_id r <=? max_id l - 1000)) l) s).

(** [with self._db() as db]: nothing is kept of a body that raises.  Without its tables
    the statements of the body fail. *)
Definition _db {A} (ok tables : bool) (body : M A) : M A := fun s =>
  if negb ok || (tables && negb (initialized s)) then (Err AuthUnavailable, s)
  else match body s with (Ok a, s') => (Ok a, s') | (Err e, _) => (Err e, s) end.

Definition bootstrap (username password password_hash : string) (now : Z) (ok : bool) : M unit :=
  if negb (credentials_ok username password) then raise ValueError
  else _db ok false (
    s ← gets id;
    if is_some (administrator s) then raise BootstrapConflict
    else if initialized s then raise AuthUnavailable             (* the token table exists *)
    else modify with_tables;; modify (with_admin (Some (username, password_hash)));; _audit "ADMIN_BOOTSTRAPPED" now).

Definition revoke_row (r : token_row) : token_row :=
  {| t_id := t_id r; t_digest := t_digest r; t_name := t_name r; t_scopes := t_scopes r; t_created := t_created r;
     t_expires := t_expires r; t_last_used := t_last_used r; t_revoked := true |}.

Definition reset_password (username password password_hash : string) (now : Z) (ok : bool) : M unit :=
  if negb (credentials_ok username password) then raise ValueError
  else _db ok true (
    s ← gets id;
    match administrator s with
    | Some (user, _) =>
        if negb (bool_decide (user = username)) then raise LoginRejected
        else
          modify (with_admin (Some (user, password_hash)));; modify (with_sessions []);; modify (with_attempts []);;
          modify (fun s => with_tokens (map revoke_row (api_tokens s)) s);; _audit "ADMIN_PASSWORD_RESET" now
    | None => raise LoginRejected
    end).

Definition revoke_sessions_for_startup (now : Z) (ok : bool) : M unit :=
  _db ok true (modify (with_sessions []);; _audit "ADMIN_RUNTIME_RESTART" now).

(** One bucket of [_reserve_attempt]. *)
Definition find_attempt (b : string) (l : list attempt_row) : option attempt_row :=
  head (filter (fun r => bucket r = b) l).
Definition count_attempt (b : string) (now : Z) (l : list attempt_row) : list attempt_row :=
  if is_some (find_attempt b l)
  then map (fun r => if bool_decide (bucket r = b) then {| bucket := b; start := start r; count := count r + 1 |} else r) l
  else l ++ [{| bucket := b; start := now; count := 1 |}].
Definition expire_attempts (now : Z) (l : list attempt_row) : list attempt_row :=
  List.filter (fun r => negb ((start r <=? now - 60) || (now <? start r))) l.
Fixpoint reserve_buckets (now : Z) (buckets : list (string * Z)) (l : list attempt_row) : option (list attempt_row) :=
  match buckets with
  | [] => Some l
  | (b, limit) :: buckets =>
      if match find_attempt b l with Some r => limit <=? count r | None => false end then None
      else reserve_buckets now buckets (count_attempt b now l)
  end.
Definition buckets_of (peer : string) : list (string * Z) := [("global", 20); (_digest ("peer:" +:+ peer), 5)].
Definition reserve_attempts (peer : string) (now : Z) (l : list attempt_row) : option (list attempt_row) :=
  reserve_buckets now (buckets_of peer) (expire_attempts now l).

Definition _reserve_attempt (peer : string) (now : Z) (ok : bool) : M (string * string) :=
  _db ok true (
    s ← gets id;
    match administrator s with
    | None => raise AuthUnavailable
    | Some admin =>
        match reserve_attempts peer now (attempts s) with
        | None => raise LoginThrottled
        | Some l => modify (with_attempts l);; mret admin
        end
    end).

Record AdminSession := { username : string; expires_at : Z; csrf_token : string }.

Section Store.
Context (verify : string -> string -> option bool) (needs_rehash : string -> bool).

(** The outcome of the password check; [None] is a hash record [argon2] cannot read. *)
Definition check_password (stored_user stored_hash user password : string) : option bool :=
  if Z.of_nat (String.length password) <=? 1024
  then accepted ← verify stored_hash password; Some (accepted && bool_decide (stored_user = user))
  else Some false.

(** The order of [ORDER BY created DESC]. *)
Fixpoint insert_newest (r : session_row) (l : list session_row) : list session_row :=
  match l with
  | [] => [r]
  | x :: l => if s_created x <=? s_created r then r :: x :: l else x :: insert_newest r l
  end.
Definition newest (l : list session_row) : list session_row := fold_right insert_newest [] l.
(** Keep the 19 newest. *)
Definition bound_sessions (l : list session_row) : list session_row :=
  List.filter (fun r => negb (bool_decide (s_digest r ∈ map s_digest (skipn 19 (newest l))))) l.

Definition live_before_login (previous : string) (now : Z) (r : session_row) : bool :=
  negb (bool_decide (s_digest r = previous) || (s_expires r <=? now) || (s_seen r <=? now - IDLE_SECONDS)
        || (now <? s_seen r)).

(** The second transaction of [login], after the password check said [accepted]. *)
Definition login_commit (stored_user stored_hash : string) (accepted : bool) (previous_cookie cookie fresh_hash : string)
    (now : Z) (ok : bool) : M (AdminSession * string) :=
  let new_hash := if accepted && needs_rehash stored_hash then fresh_hash else stored_hash in
  accepted ← _db ok true (
    s ← gets id;
    let accepted := accepted && match administrator s with
                                | Some (_, h) => bool_decide (h = stored_hash) | None => false end in
    (if accepted then
       modify (fun s => with_admin ((fun a => (a.1, new_hash)) <$> administrator s) s);;
       modify (fun s => with_sessions
         (bound_sessions (List.filter (live_before_login (_digest previous_cookie) now) (sessions s))) s);;
       s ← gets id;
       if bool_decide (_digest cookie ∈ map s_digest (sessions s)) then raise AuthUnavailable   (* the primary key *)
       else modify (with_sessions (sessions s ++ [{| s_digest := _digest cookie; s_created := now; s_seen := now;
                                                     s_expires := now + ABSOLUTE_SECONDS |}]))
     else mret tt);;
    _audit (if accepted then "ADMIN_LOGIN_OK" else "ADMIN_LOGIN_REJECTED") now;;
    mret accepted);
  if (accepted : bool)
  then mret ({| username := stored_user; expires_at := now + ABSOLUTE_SECONDS; csrf_token := _csrf cookie |}, cookie)
  else raise LoginRejected.

Definition find_session (d : string) (s : store) : option session_row :=
  head (filter (fun r => s_digest r = d) (sessions s)).
Definition delete_session (d : string) (s : store) : store :=
  with_sessions (List.filter (fun r => negb (bool_decide (s_digest r = d))) (sessions s)) s.
Definition touch_session (d : string) (now : Z) (s : store) : store :=
  with_sessions (map (fun r => if bool_decide (s_digest r = d)
    then {| s_digest := s_digest r; s_created := s_created r; s_seen := now; s_expires := s_expires r |} else r)
    (sessions s)) s.

Definition session_in_transaction (cookie : string) (touch : bool) (now : Z) : M (option AdminSession) :=
  if negb (fullmatch COOKIE cookie) then mret None
  else
    s ← gets id;
    match administrator s, find_session (_digest cookie) s with
    | Some (user, _), Some row =>
        if (s_expires row <=? now) || (s_seen row <=? now - IDLE_SECONDS) || (now <? s_seen row)
        then modify (delete_session (_digest cookie));; mret None
        else
          (if touch then modify (touch_session (_digest cookie) now) else mret tt);;
          mret (Some {| username := user; expires_at := s_expires row; csrf_token := _csrf cookie |})
    | _, _ => mret None
    end.

Definition session (cookie : string) (touch : bool) (now : Z) (ok : bool) : M (option AdminSession) :=
  if negb (fullmatch COOKIE cookie) then mret None else _db ok true (session_in_transaction cookie touch now).

Definition logout (cookie : string) (now : Z) (ok : bool) : M unit :=
  _db ok true (modify (delete_session (_digest cookie));; _audit "ADMIN_LOGOUT" now).

(** ** api_tokens.py *)
Definition SCOPES : list string := ["read"; "playback"; "presets"; "multiroom"; "diagnostics"; "admin"].
Definition MAX_LIFETIME : Z := 90 * 24 * 60 * 60.
Definition MAX_RECORDS : nat := 256.
Definition hex_id : regex := hex 32.
Definition API_TOKEN : regex :=
  RCat (fold_right (fun c r => RCat (lit c) r) REps ["b"; "w"; "a"; "p"; "i"; "_"]%char)
       (RCat (hex 32) (RCat (lit "_"%char) (rep 43 (RChar urlsafe)))).
Definition NAME : regex :=
  RCat (RChar alnum) (upto 63 (RChar (fun c => alnum c || one_of [" "; "."; "_"; "-"]%char c))).

Definition _scopes (v : json) : option (list string) :=
  match v with
  | JList l =>
      ss ← mapM (fun x => match x with JStr s => Some s | _ => None end) l;
      if (1 <=? length ss)%nat && (length ss <=? length SCOPES)%nat
         && forallb (fun s => bool_decide (s ∈ SCOPES)) ss && distinct ss
      then Some ss else None
  | _ => None
  end.

Record TokenRecord := {
  r_id : string; r_name : string; r_scopes : list string; r_created_at : Z; r_expires_at : Z;
  r_last_used : option Z; r_revoked : bool }.

(** [None] raises [AuthUnavailable]. *)
Definition _record (row : token_row) : option TokenRecord :=
  scopes ← _scopes (t_scopes row);
  if fullmatch hex_id (t_id row) && fullmatch NAME (t_name row)
     && (60 <=? t_expires row - t_created row) && (t_expires row - t_created row <=? MAX_LIFETIME)
  then Some {| r_id := t_id row; r_name := t_name row; r_scopes := scopes; r_created_at := t_created row;
               r_expires_at := t_expires row; r_last_used := t_last_used row; r_revoked := t_revoked row |}
  else None.

Definition _authority (cookie : option string) (now : Z) : M unit :=
  match cookie with
  | None => mret tt
  | Some c => s ← session_in_transaction c false now;
              if is_some (s : option AdminSession) then mret tt else raise LoginRejected
  end.

Definition token_text (identifier secret : string) : string := "bwapi_" +:+ identifier +:+ "_" +:+ secret.

(** [scopes] is any JSON value, [lifetime] an int; [identifier] and [secret] are drawn,
    [now] and [later] the two readings of the clock. *)
Definition issue (name : string) (scopes : json) (lifetime : Z) (cookie : option string)
    (identifier secret : string) (now later : Z) (ok : bool) : M (TokenRecord * string) :=
  match _scopes scopes with
  | None => raise ValueError
  | Some allowed =>
      if negb (fullmatch NAME name && (60 <=? lifetime) && (lifetime <=? MAX_LIFETIME)) then raise ValueError
      else
        let stored := Group.sorted allowed in
        let token := token_text identifier secret in
        _db ok true (
          _authority cookie later;;
          s ← gets id;
          if negb (is_some (administrator s)) then raise AuthUnavailable
          else if (MAX_RECORDS <=? length (api_tokens s))%nat then raise ValueError
          else if bool_decide (identifier ∈ map t_id (api_tokens s))
                  || bool_decide (_digest token ∈ map t_digest (api_tokens s)) then raise AuthUnavailable
          else
            modify (with_tokens (api_tokens s ++ [{| t_id := identifier; t_digest := _digest token; t_name := name;
              t_scopes := JList (map JStr stored); t_created := now; t_expires := now + lifetime;
              t_last_used := None; t_revoked := false |}]));;
            _audit "API_TOKEN_ISSUED" now;;
            mret ({| r_id := identifier; r_name := name; r_scopes := allowed; r_created_at := now;
                     r_expires_at := now + lifetime; r_last_used := None; r_revoked := false |}, token))
  end.

Definition update_token (identifier : string) (f : token_row -> token_row) (s : store) : store :=
  with_tokens (map (fun r => if bool_decide (t_id r = identifier) then f r else r) (api_tokens s)) s.
Definition use_row (now : Z) (r : token_row) : token_row :=
  {| t_id := t_id r; t_digest := t_digest r; t_name := t_name r; t_scopes := t_scopes r; t_created := t_created r;
     t_expires := t_expires r; t_last_used := Some now; t_revoked := t_revoked r |}.
Definition rotate_row (digest : string) (r : token_row) : token_row :=
  {| t_id := t_id r; t_digest := digest; t_name := t_name r; t_scopes := t_scopes r; t_created := t_created r;
     t_expires := t_expires r; t_last_used := None; t_revoked := t_revoked r |}.

(** Revoked, outside its lifetime, or a clock behind the last use. *)
Definition unusable (r : TokenRecord) (now : Z) : bool :=
  r_revoked r || (r_expires_at r <=? now) || (now <? r_created_at r)
  || match r_last_used r with Some t => now <? t | None => false end.

Definition verify_token (token : string) (touch : bool) (now : Z) (ok : bool) : M (option TokenRecord) :=
  if negb (fullmatch API_TOKEN token) then mret None
  else _db ok true (
    s ← gets id;
    match administrator s, head (filter (fun r => t_digest r = _digest token) (api_tokens s)) with
    | Some _, Some row =>
        match _record row with
        | None => raise AuthUnavailable
        | Some record =>
            if unusable record now then mret None
            else if touch then
              modify (update_token (r_id record) (use_row now));;
              mret (Some {| r_id := r_id record; r_name := r_name record; r_scopes := r_scopes record;
                            r_created_at := r_created_at record; r_expires_at := r_expires_at record;
                            r_last_used := Some now; r_revoked := r_revoked record |})
            else mret (Some record)
        end
    | _, _ => mret None
    end).

Definition revoke (identifier : string) (cookie : option string) (now later : Z) (ok : bool) : M bool :=
  if negb (fullmatch hex_id identifier) then mret false
  else _db ok true (
    _authority cookie later;;
    s ← gets id;
    if existsb (fun r => bool_decide (t_id r = identifier) && negb (t_revoked r)) (api_tokens s)
    then modify (update_token identifier revoke_row);; _audit "API_TOKEN_REVOKED" now;; mret true
    else mret false).

Definition rotate (identifier secret : string) (cookie : option string) (now later : Z) (ok : bool)
    : M (option (TokenRecord * string)) :=
  if negb (fullmatch hex_id identifier) then mret None
  else _db ok true (
    _authority cookie later;;
    s ← gets id;
    match head (filter (fun r => t_id r = identifier) (api_tokens s)) with
    | None => mret None
    | Some row =>
        match _record row with
        | None => raise AuthUnavailable
        | Some record =>
            if unusable record now then mret None
            else
              let token := token_text (r_id record) secret in
              if bool_decide (_digest token ∈ map t_digest (List.filter (fun r => negb (bool_decide (t_id r = identifier))) (api_tokens s)))
              then raise AuthUnavailable
              else
                modify (update_token identifier (rotate_row (_digest token)));; _audit "API_TOKEN_ROTATED" now;;
                mret (Some ({| r_id := r_id record; r_name := r_name record; r_scopes := r_scopes record;
                               r_created_at := r_created_at record; r_expires_at := r_expires_at record;
                               r_last_used := None; r_revoked := r_revoked record |}, token))
        end
    end).

(** ** Everything that happens to the store

    [step] is one call; a login is [Reserve] and later [Commit] of the same flight.
    [history], newest first, records what succeeded. *)
Record flight := { f_user : string; f_hash : string }.
Inductive event : Type :=
| EAdmin (user hash : string)
| EHash (hash : string)                                   (* a reset, or a new hash of the same password *)
| EReset | EStartup
| EAttempt (peer : string) (now : Z)
| ELogin (digest user password : string) (now : Z)
| ETouch (digest : string) (now : Z)
| ELogout (digest : string)
| EIssue (id digest name : string) (scopes : list string) (now lifetime : Z) (cookie : option string) (checked : Z)
| ERotate (id digest : string) (now : Z) (cookie : option string) (checked : Z)
| ERevoke (id : string).
Record world := { st : store; flights : gmap nat flight; history : list event }.
Definition start_world : world := {| st := new_store; flights := ∅; history := [] |}.

Inductive call : Type :=
| Bootstrap (user password hash : string) (now : Z) (ok : bool)
| ResetPassword (user password hash : string) (now : Z) (ok : bool)
| Startup (now : Z) (ok : bool)
| Reserve (n : nat) (peer : string) (now : Z) (ok : bool)
| Commit (n : nat) (user password previous cookie fresh_hash : string) (now : Z) (ok : bool)
| Session (cookie : string) (touch : bool) (now : Z) (ok : bool)
| Logout (cookie : string) (now : Z) (ok : bool)
| Issue (name : string) (scopes : json) (lifetime : Z) (cookie : option string) (id secret : string) (now later : Z) (ok : bool)
| Verify (token : string) (touch : bool) (now : Z) (ok : bool)
| Revoke (id : string) (cookie : option string) (now later : Z) (ok : bool)
| Rotate (id secret : string) (cookie : option string) (now later : Z) (ok : bool).

Definition record {A} (w : world) (r : res exn A * store) (events : A -> list event) : world :=
  {| st := r.2; flights := flights w; history := match r.1 with Ok a => events a | Err _ => [] end ++ history w |}.

Definition step (w : world) (c : call) : world :=
  match c with
  | Bootstrap user password hash now ok =>
      record w (bootstrap user password hash now ok (st w)) (fun _ => [EAdmin user hash])
  | ResetPassword user password hash now ok =>
      record w (reset_password user password hash now ok (st w)) (fun _ => [EReset; EHash hash])
  | Startup now ok => record w (revoke_sessions_for_startup now ok (st w)) (fun _ => [EStartup])
  | Reserve n peer now ok =>
      match _reserve_attempt peer now ok (st w) with
      | (Ok (user, hash), s) =>
          {| st := s; flights := <[n := {| f_user := user; f_hash := hash |}]> (flights w);
             history := EAttempt peer now :: history w |}
      | (Err _, s) => {| st := s; flights := flights w; history := history w |}
      end
  | Commit n user password previous cookie fresh_hash now ok =>
      match flights w !! n with
      | None => w
      | Some f =>
          let w := {| st := st w; flights := delete n (flights w); history := history w |} in
          match check_password (f_user f) (f_hash f) user password with
          | None => w
          | Some accepted =>
              record w (login_commit (f_user f) (f_hash f) accepted previous cookie fresh_hash now ok (st w)) (fun _ =>
                [EHash (if needs_rehash (f_hash f) then fresh_hash else f_hash f); ELogin (_digest cookie) user password now;
                 ELogout (_digest previous)])
          end
      end
  | Session cookie touch now ok =>
      record w (session cookie touch now ok (st w))
        (fun r => if touch && is_some r then [ETouch (_digest cookie) now] else [])
  | Logout cookie now ok => record w (logout cookie now ok (st w)) (fun _ => [ELogout (_digest cookie)])
  | Issue name scopes lifetime cookie id secret now later ok =>
      record w (issue name scopes lifetime cookie id secret now later ok (st w)) (fun r =>
        [EIssue id (_digest r.2) name (Group.sorted (r_scopes r.1)) now lifetime cookie later])
  | Verify token touch now ok => record w (verify_token token touch now ok (st w)) (fun _ => [])
  | Revoke id cookie now later ok =>
      record w (revoke id cookie now later ok (st w)) (fun r => if r : bool then [ERevoke id] else [])
  | Rotate id secret cookie now later ok =>
      record w (rotate id secret cookie now later ok (st w)) (fun r =>
        match r with Some (_, token) => [ERotate id (_digest token) now cookie later] | None => [] end)
  end.
Definition run (w : world) (calls : list call) : world := fold_left step calls w.

(** The administrator's name and current password hash. *)
Fixpoint admin_of (h : list event) : option (string * string) :=
  match h with
  | [] => None
  | EAdmin user hash :: _ => Some (user, hash)
  | EHash hash :: h => (fun a => (a.1, hash)) <$> admin_of h
  | _ :: h => admin_of h
  end.
(** [e] leaves the session, or the token, alive. *)
Definition keeps_session (d : string) (e : event) : bool :=
  match e with EReset | EStartup => false | ELogout d' => negb (bool_decide (d' = d)) | _ => true end.
Definition keeps_token (id : string) (e : event) : bool :=
  match e with EReset => false | ERevoke id' => negb (bool_decide (id' = id)) | _ => true end.
(** The digest of the secret issued last for a token. *)
Fixpoint token_digest (id : string) (h : list event) : option string :=
  match h with
  | EIssue id' d _ _ _ _ _ _ :: h | ERotate id' d _ _ _ :: h => if bool_decide (id' = id) then Some d else token_digest id h
  | _ :: h => token_digest id h
  | [] => None
  end.

(** A session created by a login with the right name and password, not ended since. *)
Definition signed_in (h : list event) (d : string) (created seen : Z) : Prop :=
  exists later earlier user password hash,
    h = later ++ ELogin d user password created :: earlier
    /\ admin_of earlier = Some (user, hash) /\ verify hash password = Some true
    /\ forallb (keeps_session d) later = true
    /\ (seen = created \/ ETouch d seen ∈ later).
(** ... and within its absolute and its idle lifetime. *)
Definition session_live (h : list event) (cookie : string) (now : Z) : Prop :=
  exists created seen, signed_in h (_digest cookie) created seen
    /\ now < created + ABSOLUTE_SECONDS /\ seen <= now < seen + IDLE_SECONDS.
(** Who may issue or rotate a token: the local programming interface or a live session. *)
Definition may_grant (h : list event) (cookie : option string) (now : Z) : Prop :=
  match cookie with None => True | Some c => session_live h c now end.

(** Every token was issued and rotated by who may. *)
Fixpoint grants_ok (h : list event) : Prop :=
  match h with
  | [] => True
  | EIssue _ _ _ _ _ _ cookie checked :: h | ERotate _ _ _ cookie checked :: h =>
      may_grant h cookie checked /\ grants_ok h
  | _ :: h => grants_ok h
  end.

(** The secret is the last one issued for a token that was issued with the name, scopes
    and lifetime of [rec], neither revoked nor reset since, and [now] is in its lifetime. *)
Definition token_live (h : list event) (token : string) (rec : TokenRecord) (now : Z) : Prop :=
  token_digest (r_id rec) h = Some (_digest token)
  /\ exists later earlier digest lifetime cookie checked,
       h = later ++ EIssue (r_id rec) digest (r_name rec) (r_scopes rec) (r_created_at rec) lifetime cookie checked :: earlier
       /\ forallb (keeps_token (r_id rec)) later = true
       /\ r_created_at rec <= now < r_created_at rec + lifetime /\ 60 <= lifetime <= MAX_LIFETIME.

(** The attempts granted in a bucket since the last reset, newest first. *)
Fixpoint granted (b : string) (h : list event) : list Z :=
  match h with
  | EReset :: _ | [] => []
  | EAttempt peer now :: h => if bool_decide (b ∈ map fst (buckets_of peer)) then now :: granted b h else granted b h
  | _ :: h => granted b h
  end.
(** The clock of all the attempts since the last reset. *)
Fixpoint attempt_clock (h : list event) : list Z :=
  match h with
  | EReset :: _ | [] => []
  | EAttempt _ now :: h => now :: attempt_clock h
  | _ :: h => attempt_clock h
  end.

End Store.

Lemma hexdigest_length h : String.length (hexdigest h) = (8 * length h)%nat.
Proof. unfold hexdigest. rewrite length_string_of. induction h as [|w h IH]; [done|]. cbn [map List.concat]. rewrite length_app, IH. cbn [be_bytes flat_map app length]. lia. Qed.

Lemma digest_not_global x : _digest x <> "global".
Proof.
  unfold _digest, sha256_hex. intros H%(f_equal String.length). rewrite hexdigest_length in H.
  change (String.length "global") with 6%nat in H. lia.
Qed.

(** ** Effects of the operations *)
Definition core (s : store) := (administrator s, sessions s, attempts s, api_tokens s).

Ltac op_inv :=
  repeat match goal with
  | H : context [match ?x with _ => _ end] |- _ => destruct x eqn:?; simplify_eq/=; try discriminate
  end.
Ltac run_op H :=
  unfold _audit, mbind, st_bind, mret, st_ret, raise, gets, modify in H; cbn in H; op_inv; simplify_eq/=.

#[local] Opaque sha256_hex _digest fullmatch.

Lemma db_inv {A} ok tables (body : M A) s r s' :
  _db ok tables body s = (r, s') -> (exists e, r = Err e /\ s' = s) \/ (exists a, r = Ok a /\ body s = (Ok a, s')).
Proof. unfold _db. intros H. op_inv; eauto. Qed.

Lemma bootstrap_inv user password hash now ok s r s' :
  bootstrap user password hash now ok s = (r, s') ->
  match r with
  | Ok _ => administrator s = None /\ core s' = (Some (user, hash), sessions s, attempts s, api_tokens s)
  | Err _ => s' = s
  end.
Proof.
  unfold bootstrap. intros H. destruct (negb _); [by injection H as <- <-|].
  apply db_inv in H as [(e & -> & ->)|(a & -> & H)]; [done|]. unfold is_some in H. run_op H. done.
Qed.

Lemma reset_inv user password hash now ok s r s' :
  reset_password user password hash now ok s = (r, s') ->
  match r with
  | Ok _ => exists old, administrator s = Some (user, old) /\ core s' = (Some (user, hash), [], [], map revoke_row (api_tokens s))
  | Err _ => s' = s
  end.
Proof.
  unfold reset_password. intros H. destruct (negb _); [by injection H as <- <-|].
  apply db_inv in H as [(e & -> & ->)|(a & -> & H)]; [done|]. run_op H. bdestr. subst. eauto.
Qed.

Lemma startup_inv now ok s r s' :
  revoke_sessions_for_startup now ok s = (r, s') ->
  match r with
  | Ok _ => core s' = (administrator s, [], attempts s, api_tokens s)
  | Err _ => s' = s
  end.
Proof. intros H. apply db_inv in H as [(e & -> & ->)|(a & -> & H)]; [done|]. run_op H. done. Qed.

Lemma reserve_inv peer now ok s r s' :
  _reserve_attempt peer now ok s = (r, s') ->
  match r with
  | Ok a => exists l, administrator s = Some a /\ reserve_attempts peer now (attempts s) = Some l
                      /\ core s' = (administrator s, sessions s, l, api_tokens s)
  | Err _ => s' = s
  end.
Proof.
  intros H. apply db_inv in H as [(e & -> & ->)|(a & -> & H)]; [done|].
  unfold mbind, st_bind, mret, st_ret, raise, gets, modify in H. cbn -[reserve_attempts] in H.
  destruct (administrator s) as [admin|] eqn:Ea; [|discriminate].
  destruct (reserve_attempts _ _ _) as [l|] eqn:E; [|discriminate]. injection H as <- <-. exists l. split_and!; auto.
  by unfold core; cbn; rewrite Ea.
Qed.

Lemma logout_inv cookie now ok s r s' :
  logout cookie now ok s = (r, s') ->
  match r with
  | Ok _ => core s' = core (delete_session (_digest cookie) s)
  | Err _ => s' = s
  end.
Proof. intros H. apply db_inv in H as [(e & -> & ->)|(a & -> & H)]; [done|]. run_op H. done. Qed.

Lemma session_tx_inv cookie touch now s r s' :
  session_in_transaction cookie touch now s = (r, s') ->
  match r with
  | Ok None => core s' = core s \/ core s' = core (delete_session (_digest cookie) s)
  | Ok (Some a) => exists hash row,
      administrator s = Some (username a, hash) /\ row ∈ sessions s /\ s_digest row = _digest cookie
      /\ expires_at a = s_expires row /\ now < s_expires row /\ s_seen row <= now < s_seen row + IDLE_SECONDS
      /\ core s' = core (if touch then touch_session (_digest cookie) now s else s)
  | Err _ => False
  end.
Proof.
  unfold session_in_transaction. intros H. destruct (negb _); [injection H as <- <-; by left|].
  unfold mbind, st_bind, mret, st_ret, gets, modify in H. cbn in H.
  destruct (administrator s) as [[user hash]|] eqn:Ea; [|injection H as <- <-; by left].
  destruct (find_session _ s) as [row|] eqn:Ef; [|injection H as <- <-; by left].
  assert (row ∈ sessions s /\ s_digest row = _digest cookie) as [Hin Hd].
  { apply head_Some_elem_of, list_elem_of_filter in Ef. tauto. }
  destruct (_ || _ || _) eqn:Et; [injection H as <- <-; by right|]. bdestr.
  destruct touch; injection H as <- <-; exists hash, row; cbn; repeat split; auto; lia.
Qed.

Lemma authority_inv cookie now s r s' :
  _authority cookie now s = (r, s') ->
  match r with
  | Ok _ => core s' = core s /\ match cookie with
      | None => True
      | Some c => exists a, session_in_transaction c false now s = (Ok (Some a), s')
      end
  | Err _ => True
  end.
Proof.
  unfold _authority. intros H. destruct cookie as [c|]; [|by injection H as <- <-].
  unfold mbind, st_bind, is_some in H. destruct (session_in_transaction c false now s) as [[[a|]|e] s1] eqn:E;
    injection H as <- <-; try done.
  split; [|eauto]. apply session_tx_inv in E as (hash & row & ?). tauto.
Qed.

Lemma session_inv cookie touch now ok s r s' :
  session cookie touch now ok s = (r, s') ->
  (s' = s /\ match r with Ok (Some _) => False | _ => True end) \/ exists a, r = Ok a /\ session_in_transaction cookie touch now s = (Ok a, s').
Proof.
  unfold session. intros H. destruct (negb _); [injection H as <- <-; by left|].
  apply db_inv in H as [(e & -> & ->)|(a & -> & H)]; [by left|eauto].
Qed.

Lemma check_password_ok verify stored_user stored_hash user password :
  check_password verify stored_user stored_hash user password = Some true ->
  verify stored_hash password = Some true /\ stored_user = user.
Proof.
  unfold check_password. intros H. destruct (_ <=? _); [|done].
  destruct (verify stored_hash password) as [b|]; [|done]. cbn in H. injection H as H. bdestr. by subst.
Qed.

Lemma commit_inv needs_rehash user hash accepted previous cookie fresh now ok s r s' :
  login_commit needs_rehash user hash accepted previous cookie fresh now ok s = (r, s') ->
  match r with
  | Ok _ => accepted = true /\ exists name kept,
      administrator s = Some (name, hash)
      /\ core s' = (Some (name, if needs_rehash hash then fresh else hash),
                    kept ++ [{| s_digest := _digest cookie; s_created := now; s_seen := now;
                                s_expires := now + ABSOLUTE_SECONDS |}], attempts s, api_tokens s)
      /\ (forall row, row ∈ kept -> row ∈ sessions s /\ s_digest row <> _digest previous)
  | Err _ => core s' = core s
  end.
Proof.
  unfold login_commit. intros H. unfold mbind at 1, st_bind at 1 in H.
  destruct (_db _ _ _ s) as [[a|e] s1] eqn:E; apply db_inv in E as [(e' & Ee & ->)|(a' & Ea & E)]; simplify_eq; [|done].
  unfold _audit, mbind, st_bind, mret, st_ret, raise, gets, modify in E. cbn in E.
  destruct (accepted && _) eqn:Eacc; cbn in E.
  - destruct (bool_decide (_ ∈ _)) eqn:Ed; [discriminate|]. injection E as <- <-. injection H as <- <-.
    bdestr. destruct (administrator s) as [[name h]|]; [|done]. bdestr. subst. split; [done|].
    eexists name, _. split; [done|]. split; [reflexivity|]. intros row Hrow.
    apply list_elem_of_In, filter_In in Hrow as [Hrow _]. apply filter_In in Hrow as [Hrow Hl].
    apply list_elem_of_In in Hrow. split; [done|]. unfold live_before_login in Hl. bdestr. done.
  - injection E as <- <-. by injection H as <- <-.
Qed.

Lemma issue_inv name scopes lifetime cookie id secret now later ok s r s' :
  issue name scopes lifetime cookie id secret now later ok s = (r, s') ->
  match r with
  | Ok (rec, token) => exists s1 admin, _authority cookie later s = (Ok tt, s1)
      /\ administrator s1 = Some admin
      /\ id ∉ map t_id (api_tokens s1)
      /\ core s' = (administrator s1, sessions s1, attempts s1, api_tokens s1 ++ [{|
           t_id := id; t_digest := _digest token; t_name := name;
           t_scopes := JList (map JStr (Group.sorted (r_scopes rec))); t_created := now; t_expires := now + lifetime;
           t_last_used := None; t_revoked := false |}])
  | Err _ => s' = s
  end.
Proof.
  unfold issue. intros H. destruct (_scopes scopes) as [allowed|]; [|by injection H as <- <-].
  destruct (negb _); [by injection H as <- <-|].
  apply db_inv in H as [(e & -> & ->)|(a & -> & H)]; [done|].
  apply st_bind_Ok in H as ([] & s1 & Ha & H). rewrite Ha.
  unfold _audit, mbind, st_bind, mret, st_ret, raise, gets, modify in H. cbn -[Nat.leb MAX_RECORDS] in H.
  destruct (administrator s1) as [admin|] eqn:Eadm; [|discriminate]. cbn -[Nat.leb MAX_RECORDS] in H.
  destruct (_ <=? _)%nat; [discriminate|]. destruct (_ || _) eqn:Ed; [discriminate|]. injection H as <- <-.
  bdestr. exists s1, admin. unfold core. cbn. rewrite Eadm. done.
Qed.

Lemma record_spec row rec :
  _record row = Some rec ->
  rec = {| r_id := t_id row; r_name := t_name row; r_scopes := r_scopes rec; r_created_at := t_created row;
           r_expires_at := t_expires row; r_last_used := t_last_used row; r_revoked := t_revoked row |}
  /\ _scopes (t_scopes row) = Some (r_scopes rec) /\ 60 <= t_expires row - t_created row <= MAX_LIFETIME.
Proof.
  unfold _record. intros H. destruct (_scopes _) as [ss|] eqn:E; [|done]. cbn in H.
  destruct (_ && _) eqn:Et; [|done]. injection H as <-. bdestr. auto.
Qed.

Lemma verify_inv token touch now ok s r s' :
  verify_token token touch now ok s = (r, s') ->
  s' = s /\ (match r with Ok (Some _) => touch = false | _ => True end)
  \/ exists id, touch = true /\ s' = update_token id (use_row now) s.
Proof.
  unfold verify_token. intros H. destruct (negb _); [injection H as <- <-; by left|].
  apply db_inv in H as [(e & -> & ->)|(a & -> & H)]; [by left|].
  unfold mbind, st_bind, mret, st_ret, raise, gets, modify in H. cbn in H.
  destruct (administrator s); [|injection H as <- <-; by left].
  destruct (head _) as [row|]; [|injection H as <- <-; by left].
  destruct (_record row) as [rec|]; [|discriminate]. destruct (unusable _ _); [injection H as <- <-; by left|].
  destruct touch; injection H as <- <-; [right; eauto|by left].
Qed.

(** What a token that verifies is backed by. *)
Lemma verify_some token touch now ok s rec s' :
  verify_token token touch now ok s = (Ok (Some rec), s') ->
  exists row admin, row ∈ api_tokens s /\ administrator s = Some admin /\ t_digest row = _digest token
    /\ t_revoked row = false /\ r_id rec = t_id row /\ r_name rec = t_name row
    /\ _scopes (t_scopes row) = Some (r_scopes rec)
    /\ r_created_at rec = t_created row /\ r_expires_at rec = t_expires row
    /\ t_created row <= now < t_expires row /\ 60 <= t_expires row - t_created row <= MAX_LIFETIME.
Proof.
  unfold verify_token. intros H. destruct (negb _); [done|].
  apply db_inv in H as [(e & ? & ?)|(a & Ha & H)]; [done|]. injection Ha as <-.
  unfold mbind, st_bind, mret, st_ret, raise, gets, modify in H. cbn in H.
  destruct (administrator s) as [admin|]; [|discriminate].
  destruct (head _) as [row|] eqn:Eh; [|discriminate].
  apply head_Some_elem_of, list_elem_of_filter in Eh as [Hd Hin].
  destruct (_record row) as [r|] eqn:Er; [|discriminate]. apply record_spec in Er as (Hr & Hs & Hl).
  destruct (unusable r now) eqn:Eu; [discriminate|].
  unfold unusable in Eu. rewrite Hr in Eu. cbn in Eu. bdestr.
  exists row, admin. destruct touch; injection H as <- <-; rewrite Hr; cbn; auto 20.
Qed.

Lemma revoke_inv id cookie now later ok s r s' :
  revoke id cookie now later ok s = (r, s') ->
  match r with
  | Ok true => exists s1, _authority cookie later s = (Ok tt, s1) /\ core s' = core (update_token id revoke_row s1)
  | Ok false => core s' = core s
  | Err _ => s' = s
  end.
Proof.
  unfold revoke. intros H. destruct (negb _); [by injection H as <- <-|].
  apply db_inv in H as [(e & -> & ->)|(a & -> & H)]; [done|].
  apply st_bind_Ok in H as ([] & s1 & Ha & H).
  unfold _audit, mbind, st_bind, mret, st_ret, gets, modify in H. cbn in H.
  destruct (existsb _ _); injection H as <- <-; [eauto|]. by apply authority_inv in Ha as [-> _].
Qed.

Lemma rotate_inv id secret cookie now later ok s r s' :
  rotate id secret cookie now later ok s = (r, s') ->
  match r with
  | Ok (Some (_, token)) => exists s1, _authority cookie later s = (Ok tt, s1)
      /\ core s' = core (update_token id (rotate_row (_digest token)) s1)
  | Ok None => core s' = core s
  | Err _ => s' = s
  end.
Proof.
  unfold rotate. intros H. destruct (negb _); [by injection H as <- <-|].
  apply db_inv in H as [(e & -> & ->)|(a & -> & H)]; [done|].
  apply st_bind_Ok in H as ([] & s1 & Ha & H). assert (Hc := Ha). apply authority_inv in Hc as [Hc _].
  unfold _audit, mbind, st_bind, mret, st_ret, raise, gets, modify in H. cbn in H.
  destruct (head _) as [row|]; [|by injection H as <- <-].
  destruct (_record row) as [rec|]; [|discriminate]. destruct (unusable _ _); [by injection H as <- <-|].
  destruct (bool_decide _); [discriminate|]. injection H as <- <-. eauto.
Qed.

(** ** The history explains the store *)
Section World_facts.
Context (verify : string -> string -> option bool) (needs_rehash : string -> bool).

#[local] Abbreviation signed_in := (signed_in verify).
#[local] Abbreviation may_grant := (may_grant verify).
#[local] Abbreviation grants_ok := (grants_ok verify).

Definition session_ok (h : list event) (r : session_row) : Prop :=
  signed_in h (s_digest r) (s_created r) (s_seen r) /\ s_expires r = s_created r + ABSOLUTE_SECONDS.
Definition token_ok (h : list event) (r : token_row) : Prop :=
  (exists later earlier d scopes lifetime cookie checked,
    h = later ++ EIssue (t_id r) d (t_name r) scopes (t_created r) lifetime cookie checked :: earlier
    /\ t_scopes r = JList (map JStr scopes) /\ t_expires r = t_created r + lifetime
    /\ (t_revoked r = false -> forallb (keeps_token (t_id r)) later = true))
  /\ token_digest (t_id r) h = Some (t_digest r).
Definition flight_ok (h : list event) (f : flight) : Prop := fst <$> admin_of h = Some (f_user f).

Record good (w : world) : Prop := {
  good_admin : administrator (st w) = admin_of (history w);
  good_flights : map_Forall (fun _ f => flight_ok (history w) f) (flights w);
  good_sessions : Forall (session_ok (history w)) (sessions (st w));
  good_tokens : Forall (token_ok (history w)) (api_tokens (st w));
  good_grants : grants_ok (history w) }.

(** An event that only adds to what is known. *)
Definition quiet (e : event) : bool :=
  match e with EAdmin _ _ | EReset | EStartup | ELogout _ | EIssue _ _ _ _ _ _ _ _ | ERotate _ _ _ _ _ | ERevoke _ => false | _ => true end.

Lemma signed_in_cons h e d c s : signed_in h d c s -> keeps_session d e = true -> signed_in (e :: h) d c s.
Proof.
  intros (l & e0 & u & p & hs & -> & Ha & Hv & Hk & Hs) He. exists (e :: l), e0, u, p, hs.
  split_and!; auto; [cbn; by rewrite He|]. destruct Hs; [by left|right; by constructor].
Qed.

Lemma session_ok_cons h e r : session_ok h r -> keeps_session (s_digest r) e = true -> session_ok (e :: h) r.
Proof. intros [H1 H2] He. split; [by apply signed_in_cons|done]. Qed.

Definition digest_of (e : event) : option string :=
  match e with EIssue id _ _ _ _ _ _ _ | ERotate id _ _ _ _ => Some id | _ => None end.

Lemma token_ok_cons h e r :
  token_ok h r -> (t_revoked r = false -> keeps_token (t_id r) e = true) -> digest_of e <> Some (t_id r) -> token_ok (e :: h) r.
Proof.
  intros [(l & e0 & d & sc & lt & c & ck & -> & H1 & H2 & H3) Hd] Hk Hi. split.
  - exists (e :: l), e0, d, sc, lt, c, ck. split_and!; auto. intros Hr. cbn. rewrite Hk by done. by apply H3.
  - rewrite <- Hd. destruct e; cbn in Hi |- *; try done; rewrite bool_decide_false; try done; congruence.
Qed.

Lemma admin_name_cons h e : (forall u p, e = EAdmin u p -> admin_of h = None) -> forall u,
  fst <$> admin_of h = Some u -> fst <$> admin_of (e :: h) = Some u.
Proof.
  intros He u Hu. destruct e; cbn; auto.
  - by rewrite (He _ _ eq_refl) in Hu.
  - by destruct (admin_of h).
Qed.

Lemma flights_ok_cons h e (fs : gmap nat flight) :
  (forall u p, e = EAdmin u p -> admin_of h = None) ->
  map_Forall (fun _ f => flight_ok h f) fs -> map_Forall (fun _ f => flight_ok (e :: h) f) fs.
Proof. intros He H n f Hf. apply admin_name_cons; [done|]. by apply (H n). Qed.

(** The store of a [core] may be replaced by another of the same [core]. *)
Lemma good_core s s' fs h : core s' = core s -> good {| st := s; flights := fs; history := h |} ->
  good {| st := s'; flights := fs; history := h |}.
Proof. unfold core. intros [= H1 H2 H3 H4] []. cbn in *. by split; cbn; rewrite ?H1, ?H2, ?H4. Qed.

Lemma session_tx_live fs h cookie touch now s a s' :
  good {| st := s; flights := fs; history := h |} ->
  session_in_transaction cookie touch now s = (Ok (Some a), s') ->
  exists created seen hash, signed_in h (_digest cookie) created seen /\ admin_of h = Some (username a, hash)
    /\ expires_at a = created + ABSOLUTE_SECONDS /\ now < expires_at a /\ seen <= now < seen + IDLE_SECONDS.
Proof.
  intros [Ha _ Hs _ _] H. cbn in *. apply session_tx_inv in H as (hash & row & Hadm & Hin & Hd & He & Hn & Hseen & _).
  rewrite list.Forall_forall in Hs. destruct (Hs _ Hin) as [Hok Hex]. rewrite Hd in Hok.
  exists (s_created row), (s_seen row), hash. rewrite <- Ha, He, <- Hex. auto.
Qed.

Lemma authority_granted fs h cookie now s s' :
  good {| st := s; flights := fs; history := h |} -> _authority cookie now s = (Ok tt, s') ->
  core s' = core s /\ may_grant h cookie now.
Proof.
  intros Hg H. apply authority_inv in H as [Hc H]. split; [done|]. destruct cookie as [c|]; [|done].
  destruct H as [a H]. destruct (session_tx_live _ _ _ _ _ _ _ _ Hg H) as (cr & seen & hash & H1 & H2 & H3 & H4 & H5).
  exists cr, seen. rewrite <- H3. auto.
Qed.

Lemma forall_sub {A} (P Q : A -> Prop) (l l' : list A) :
  Forall P l -> (forall x, x ∈ l' -> x ∈ l /\ (P x -> Q x)) -> Forall Q l'.
Proof.
  intros H Hx. apply list.Forall_forall. intros x Hin. destruct (Hx x Hin) as [H1 H2].
  apply H2. rewrite list.Forall_forall in H. auto.
Qed.

Lemma filter_sub {A} (p : A -> bool) x l : x ∈ List.filter p l -> x ∈ l /\ p x = true.
Proof. rewrite !list_elem_of_In, filter_In. done. Qed.

(** An event that touches neither the administrator nor the tokens. *)
Lemma good_event fs h e s s' :
  good {| st := s; flights := fs; history := h |} ->
  administrator s' = admin_of (e :: h) -> (forall u p, e = EAdmin u p -> admin_of h = None) ->
  Forall (session_ok (e :: h)) (sessions s') -> Forall (token_ok (e :: h)) (api_tokens s') -> grants_ok (e :: h) ->
  good {| st := s'; flights := fs; history := e :: h |}.
Proof. intros [Ha Hf Hs Ht Hg] H1 H2 H3 H4 H5. split; cbn in *; auto. by apply flights_ok_cons. Qed.

Lemma tokens_cons h e l :
  Forall (token_ok h) l -> digest_of e = None -> (forall id, keeps_token id e = true) -> Forall (token_ok (e :: h)) l.
Proof. intros H Hd Hk. eapply list.Forall_impl; [exact H|]. intros r Hr. apply token_ok_cons; auto. by rewrite Hd. Qed.

Lemma sessions_cons h e l :
  Forall (session_ok h) l -> (forall d, keeps_session d e = true) -> Forall (session_ok (e :: h)) l.
Proof. intros H Hk. eapply list.Forall_impl; [exact H|]. intros r Hr. by apply session_ok_cons. Qed.

Lemma token_ok_revoked h r : token_ok h r -> token_ok h (revoke_row r).
Proof.
  intros [(l & e & d & sc & lt & c & ck & H1 & H2 & H3 & H4) Hd]. split; [|done].
  by exists l, e, d, sc, lt, c, ck.
Qed.

Lemma bootstrap_good fs h s user password hash now ok :
  good {| st := s; flights := fs; history := h |} ->
  good (record {| st := s; flights := fs; history := h |} (bootstrap user password hash now ok s) (fun _ => [EAdmin user hash])).
Proof.
  intros Hg. unfold record. destruct (bootstrap _ _ _ _ _ s) as [[[]|e] s'] eqn:E; cbn.
  2: { apply bootstrap_inv in E as ->. done. }
  apply bootstrap_inv in E as [Hn [= H1 H2 H3 H4]]. destruct Hg as [Ha Hf Hs Ht Hgr] eqn:Eg. cbn in *.
  eapply good_event; [exact Hg|done| |rewrite H2; by apply sessions_cons|rewrite H4; by apply tokens_cons|done].
  intros u p _. congruence.
Qed.

Lemma reset_good fs h s user password hash now ok :
  good {| st := s; flights := fs; history := h |} ->
  good (record {| st := s; flights := fs; history := h |} (reset_password user password hash now ok s) (fun _ => [EReset; EHash hash])).
Proof.
  intros Hg. unfold record. destruct (reset_password _ _ _ _ _ s) as [[[]|e] s'] eqn:E; cbn.
  2: { apply reset_inv in E as ->. done. }
  apply reset_inv in E as (old & Hn & [= H1 H2 H3 H4]). destruct Hg as [Ha Hf Hs Ht Hgr]. cbn in *.
  split; cbn; auto.
  - rewrite H1, <- Ha, Hn. done.
  - by do 2 (apply flights_ok_cons; [done|]).
  - rewrite H2. constructor.
  - rewrite H4. apply list.Forall_fmap. eapply list.Forall_impl; [by apply (tokens_cons h (EHash hash))|].
    intros r Hr. by apply token_ok_cons; [apply token_ok_revoked|..].
Qed.

Lemma startup_good fs h s now ok :
  good {| st := s; flights := fs; history := h |} ->
  good (record {| st := s; flights := fs; history := h |} (revoke_sessions_for_startup now ok s) (fun _ => [EStartup])).
Proof.
  intros Hg. unfold record. destruct (revoke_sessions_for_startup _ _ s) as [[[]|e] s'] eqn:E; cbn.
  2: { apply startup_inv in E as ->. done. }
  apply startup_inv in E as [= H1 H2 H3 H4]. pose proof Hg as [Ha Hf Hs Ht Hgr]. cbn in *.
  eapply good_event; [exact Hg|cbn; congruence|done|rewrite H2; constructor|rewrite H4; by apply tokens_cons|done].
Qed.

Lemma delete_session_in d s r : r ∈ sessions (delete_session d s) -> r ∈ sessions s /\ s_digest r <> d.
Proof. cbn. intros [H1 H2]%filter_sub. by bdestr. Qed.

Lemma logout_good fs h s cookie now ok :
  good {| st := s; flights := fs; history := h |} ->
  good (record {| st := s; flights := fs; history := h |} (logout cookie now ok s) (fun _ => [ELogout (_digest cookie)])).
Proof.
  intros Hg. unfold record. destruct (logout _ _ _ s) as [[[]|e] s'] eqn:E; cbn.
  2: { apply logout_inv in E as ->. done. }
  apply logout_inv in E as [= H1 H2 H3 H4]. pose proof Hg as [Ha Hf Hs Ht Hgr]. cbn in *.
  eapply good_event; [exact Hg|cbn; congruence|done| |rewrite H4; by apply tokens_cons|done].
  rewrite H2. eapply forall_sub; [exact Hs|]. intros r [Hr Hn]%(delete_session_in (_digest cookie) s). split; [done|].
  intros Hok. apply session_ok_cons; [done|]. cbn. by rewrite bool_decide_false by congruence.
Qed.

Lemma touch_ok h d now touch s :
  Forall (session_ok h) (sessions s) ->
  Forall (session_ok (if touch : bool then ETouch d now :: h else h)) (sessions (if touch then touch_session d now s else s)).
Proof.
  intros H. destruct touch; [|done]. cbn. apply list.Forall_fmap. eapply list.Forall_impl; [exact H|].
  intros r Hr. apply (session_ok_cons _ (ETouch d now)) in Hr; [|done]. cbn.
  case_bool_decide as Hd; [|done]. destruct Hr as [(l & e & u & p & hs & He & Ha & Hv & Hk & Hs) Hx]. split; [|done]. cbn.
  exists l, e, u, p, hs. split_and!; auto. right. destruct l as [|x l]; [done|]. injection He as <- _. rewrite Hd. constructor.
Qed.

Lemma session_good fs h s cookie touch now ok :
  good {| st := s; flights := fs; history := h |} ->
  good (record {| st := s; flights := fs; history := h |} (session cookie touch now ok s)
          (fun r => if touch && is_some r then [ETouch (_digest cookie) now] else [])).
Proof.
  intros Hg. unfold record. destruct (session _ _ _ _ s) as [r s'] eqn:E; cbn -[app].
  apply session_inv in E as [[-> Hr]|(a & -> & E)].
  { destruct r as [[a|]|e]; [done|by rewrite andb_false_r|done]. }
  apply session_tx_inv in E. pose proof Hg as [Ha Hf Hs Ht Hgr]. cbn in Ha, Hf, Hs, Ht, Hgr.
  destruct a as [a|]; cbn [is_some].
  - destruct E as (hash & row & _ & _ & _ & _ & _ & _ & E). rewrite andb_true_r.
    apply (touch_ok _ (_digest cookie) now touch) in Hs. eapply good_core; [exact E|].
    destruct touch; [|done]. eapply good_event; [exact Hg|done..| |by apply tokens_cons|done]. exact Hs.
  - rewrite andb_false_r. cbn. destruct E as [E|E]; eapply good_core; try exact E; [done|].
    split; cbn; auto. eapply forall_sub; [exact Hs|]. intros r [Hr _]%(delete_session_in (_digest cookie) s). auto.
Qed.

Lemma reserve_good w n peer now ok : good w -> good (step verify needs_rehash w (Reserve n peer now ok)).
Proof.
  destruct w as [s fs h]. intros Hg. cbn. destruct (_reserve_attempt _ _ _ s) as [[[user hash]|e] s'] eqn:E.
  2: { by apply reserve_inv in E as ->. }
  apply reserve_inv in E as (l & Hn & _ & [= H1 H2 H3 H4]). pose proof Hg as [Ha Hf Hs Ht Hgr]. cbn in Ha, Hf, Hs, Ht, Hgr.
  split; cbn; try congruence.
  - apply map_Forall_insert_2; [|exact (flights_ok_cons h (EAttempt peer now) fs (fun _ _ H => ltac:(discriminate H)) Hf)].
    unfold flight_ok. cbn. by rewrite <- Ha, Hn.
  - rewrite H2. by apply sessions_cons.
  - rewrite H4. by apply tokens_cons.
Qed.

Lemma commit_good w n user password previous cookie fresh now ok :
  good w -> good (step verify needs_rehash w (Commit n user password previous cookie fresh now ok)).
Proof.
  destruct w as [s fs h]. intros Hg. cbn -[app record]. destruct (fs !! n) as [f|] eqn:Ef; [|done].
  assert (good {| st := s; flights := delete n fs; history := h |}) as Hg'.
  { destruct Hg as [Ha Hf Hs Ht Hgr]. split; auto. cbn. by apply map_Forall_delete. }
  destruct (check_password _ _ _ _ _) as [accepted|] eqn:Ec; [|done].
  unfold record. destruct (login_commit _ _ _ _ _ _ _ _ _ s) as [[a|e] s'] eqn:E; apply commit_inv in E.
  2: { by eapply good_core. }
  destruct E as (-> & name & kept & Hn & [= H1 H2 H3 H4] & Hkept).
  apply check_password_ok in Ec as [Hv Hu].
  assert (f_user f = name) as Hname.
  { destruct Hg as [Ha Hf _ _ _]. specialize (Hf _ _ Ef). unfold flight_ok in Hf. cbn in Ha, Hf. rewrite <- Ha, Hn in Hf. by injection Hf. }
  pose proof Hg' as [Ha Hf Hs Ht Hgr]. cbn in Ha, Hf, Hs, Ht, Hgr. split; cbn.
  - rewrite H1, <- Ha, Hn. done.
  - by do 3 (apply flights_ok_cons; [done|]).
  - rewrite H2. apply list.Forall_app. split.
    + apply (sessions_cons _ (EHash _)); [|done]. apply (sessions_cons _ (ELogin _ _ _ _)); [|done].
      eapply forall_sub; [exact Hs|]. intros r [Hin Hd]%Hkept. split; [done|]. intros Hr. apply session_ok_cons; [done|].
      cbn. by rewrite bool_decide_false by congruence.
    + constructor; [|constructor]. split; [|done]. cbn. apply signed_in_cons; [|done].
      exists [], (ELogout (_digest previous) :: h), user, password, (f_hash f). cbn. rewrite <- Ha, Hn, <- Hname, Hu. split_and!; auto.
  - rewrite H4. do 3 (apply tokens_cons; [|done..]). done.
  - done.
Qed.

Lemma update_tokens_ok h h' id f s :
  Forall (token_ok h) (api_tokens s) ->
  (forall r, token_ok h r -> t_id r = id -> token_ok h' (f r)) -> (forall r, token_ok h r -> t_id r <> id -> token_ok h' r) ->
  Forall (token_ok h') (api_tokens (update_token id f s)).
Proof.
  intros H H1 H2. cbn. apply list.Forall_fmap. eapply list.Forall_impl; [exact H|].
  intros r Hr. cbn. case_bool_decide; auto.
Qed.

Lemma token_ok_used h now r : token_ok h r -> token_ok h (use_row now r).
Proof. done. Qed.

Lemma token_ok_rotated h r d now cookie checked :
  token_ok h r -> token_ok (ERotate (t_id r) d now cookie checked :: h) (rotate_row d r).
Proof.
  intros [(l & e & d0 & sc & lt & c & ck & -> & H2 & H3 & H4) Hd]. split; cbn; [|by rewrite bool_decide_true].
  exists (ERotate (t_id r) d now cookie checked :: l), e, d0, sc, lt, c, ck. auto.
Qed.

Lemma verify_good fs h s token touch now ok :
  good {| st := s; flights := fs; history := h |} ->
  good (record {| st := s; flights := fs; history := h |} (verify_token token touch now ok s) (fun _ => [])).
Proof.
  intros Hg. unfold record. destruct (verify_token _ _ _ _ s) as [r s'] eqn:E; cbn.
  replace (match r with Ok _ | _ => [] end ++ h) with h by by destruct r.
  apply verify_inv in E as [[-> _]|(id & _ & ->)]; [done|]. destruct Hg as [Ha Hf Hs Ht Hgr]. split; auto.
  apply (update_tokens_ok h); auto.
Qed.

Lemma revoke_good fs h s id cookie now later ok :
  good {| st := s; flights := fs; history := h |} ->
  good (record {| st := s; flights := fs; history := h |} (revoke id cookie now later ok s)
          (fun r => if r : bool then [ERevoke id] else [])).
Proof.
  intros Hg. unfold record. destruct (revoke _ _ _ _ _ s) as [[[]|e] s'] eqn:E; cbn; apply revoke_inv in E.
  2: { by eapply good_core. } 2: { by subst. }
  destruct E as (s1 & Hau & E). destruct (authority_granted _ _ _ _ _ _ Hg Hau) as [Hc _].
  eapply good_core; [exact E|]. eapply good_core in Hg; [|exact Hc]. pose proof Hg as [Ha Hf Hs Ht Hgr]. cbn in Ha, Hf, Hs, Ht, Hgr.
  eapply good_event; [exact Hg|done..|by apply sessions_cons| |done].
  apply (update_tokens_ok h); [done|..]; intros r Hr Hid; apply token_ok_cons; try done; [by apply token_ok_revoked|].
  intros _. cbn. by rewrite bool_decide_false by congruence.
Qed.

Lemma rotate_good fs h s id secret cookie now later ok :
  good {| st := s; flights := fs; history := h |} ->
  good (record {| st := s; flights := fs; history := h |} (rotate id secret cookie now later ok s)
          (fun r => match r with Some (_, token) => [ERotate id (_digest token) now cookie later] | None => [] end)).
Proof.
  intros Hg. unfold record. destruct (rotate _ _ _ _ _ _ s) as [[[[rec token]|]|e] s'] eqn:E; cbn; apply rotate_inv in E.
  2: { by eapply good_core. } 2: { by subst. }
  destruct E as (s1 & Hau & E). destruct (authority_granted _ _ _ _ _ _ Hg Hau) as [Hc Hgrant].
  eapply good_core; [exact E|]. eapply good_core in Hg; [|exact Hc]. pose proof Hg as [Ha Hf Hs Ht Hgr]. cbn in Ha, Hf, Hs, Ht, Hgr.
  eapply good_event; [exact Hg|done..|by apply sessions_cons| |by split].
  apply (update_tokens_ok h); [done|..]; intros r Hr Hid; [subst; by apply token_ok_rotated|].
  apply token_ok_cons; [done|done|]. cbn. congruence.
Qed.

Lemma issue_good fs h s name scopes lifetime cookie id secret now later ok :
  good {| st := s; flights := fs; history := h |} ->
  good (record {| st := s; flights := fs; history := h |} (issue name scopes lifetime cookie id secret now later ok s)
    (fun r => [EIssue id (_digest r.2) name (Group.sorted (r_scopes r.1)) now lifetime cookie later])).
Proof.
  intros Hg. unfold record. destruct (issue _ _ _ _ _ _ _ _ _ s) as [[[rec token]|e] s'] eqn:E; cbn; apply issue_inv in E.
  2: { by subst. }
  destruct E as (s1 & admin & Hau & Hadm & Hfresh & E). destruct (authority_granted _ _ _ _ _ _ Hg Hau) as [Hc Hgrant].
  eapply good_core in Hg; [|exact Hc]. injection E as E1 E2 E3 E4. pose proof Hg as [Ha Hf Hs Ht Hgr]. cbn in Ha, Hf, Hs, Ht, Hgr.
  eapply good_event; [exact Hg|cbn; congruence|done|rewrite E2; by apply sessions_cons| |by split].
  rewrite E4. apply list.Forall_app. split.
  - apply list.Forall_forall. intros r Hin. rewrite list.Forall_forall in Ht. apply token_ok_cons; [by apply Ht|done|].
    cbn. intros [= ->]. apply Hfresh. by apply (list_elem_of_fmap_2 t_id).
  - constructor; [|constructor]. split; cbn; [|by rewrite bool_decide_true].
    exists [], h, (_digest token), (Group.sorted (r_scopes rec)), lifetime, cookie, later. auto.
Qed.

Lemma step_good w c : good w -> good (step verify needs_rehash w c).
Proof.
  destruct w as [s fs h] eqn:Ew. intros Hg. destruct c.
  - by apply bootstrap_good.
  - by apply reset_good.
  - by apply startup_good.
  - by apply reserve_good.
  - by apply commit_good.
  - by apply session_good.
  - by apply logout_good.
  - by apply issue_good.
  - by apply verify_good.
  - by apply revoke_good.
  - by apply rotate_good.
Qed.

Lemma run_good w calls : good w -> good (run verify needs_rehash w calls).
Proof. unfold run. revert w. induction calls as [|c calls IH]; cbn; [done|]. intros w Hw. by apply IH, step_good. Qed.

Lemma start_good : good start_world.
Proof. by split. Qed.

Lemma mapM_strings l : mapM (fun x => match x with JStr s => Some s | _ => None end) (map JStr l) = Some l.
Proof. induction l as [|x l IH]; [done|]. cbn. by rewrite IH. Qed.

Lemma scopes_strings l ss : _scopes (JList (map JStr l)) = Some ss -> ss = l.
Proof. unfold _scopes. rewrite mapM_strings. cbn. case_match; [by intros [= ->]|done]. Qed.

Lemma token_verified w token touch now ok rec s' :
  good w -> verify_token token touch now ok (st w) = (Ok (Some rec), s') -> token_live (history w) token rec now.
Proof.
  destruct w as [s fs h]. intros Hg H.
  apply verify_some in H as (row & admin & Hin & Hadm & Hd & Hr & Hi & Hnm & Hsc & Hcr & Hex & Hnow & Hl).
  destruct Hg as [_ _ _ Ht Hgr]. cbn in *. rewrite list.Forall_forall in Ht.
  destruct (Ht _ Hin) as [(l & e & d & sc & lt & c & ck & H1 & H2 & H3 & H4) H5].
  rewrite H2 in Hsc. apply scopes_strings in Hsc. unfold token_live. rewrite Hi, <- Hd. split; [done|].
  exists l, e, d, lt, c, ck. rewrite Hnm, Hcr, Hsc. split; [done|]. split; [auto|]. lia.
Qed.

Lemma session_verified w cookie touch now ok a s' :
  good w -> session cookie touch now ok (st w) = (Ok (Some a), s') ->
  exists created seen hash, signed_in (history w) (_digest cookie) created seen
    /\ admin_of (history w) = Some (username a, hash)
    /\ expires_at a = created + ABSOLUTE_SECONDS /\ now < expires_at a /\ seen <= now < seen + IDLE_SECONDS.
Proof.
  destruct w as [s fs h]. intros Hg H. apply session_inv in H as [[_ []]|(r & [= <-] & H)].
  by apply (session_tx_live _ _ _ _ _ _ _ _ Hg H).
Qed.

(** C23. In every history of calls - bootstraps, resets, restarts, logins with other transactions between their
    two halves, touches, logouts, failures - a cookie that [session] accepts comes from a login that presented
    the administrator's name and a password its hash at that time verified; no reset, restart, logout or
    replacement of this cookie has happened since, and the session is within its absolute and its idle lifetime. *)
Theorem session_authority calls cookie touch now ok a s' :
  let w := run verify needs_rehash start_world calls in
  session cookie touch now ok (st w) = (Ok (Some a), s') ->
  exists created seen hash, signed_in (history w) (_digest cookie) created seen
    /\ admin_of (history w) = Some (username a, hash)
    /\ expires_at a = created + ABSOLUTE_SECONDS /\ now < expires_at a /\ seen <= now < seen + IDLE_SECONDS.
Proof.
  intros w H. eapply session_verified; [exact (run_good start_world calls start_good)|exact H].
Qed.

(** C24. In every history of calls a secret that [verify] accepts is the last one issued for its token, the
    token was issued with exactly these scopes and this lifetime, it has not been revoked and no password reset
    has happened since; and every token of the history was issued and rotated by the local interface or under
    a session live at that moment, so that a logout or a reset between the check of a request and its
    transaction wins. *)
Theorem token_authority calls token touch now ok rec s' :
  let w := run verify needs_rehash start_world calls in
  verify_token token touch now ok (st w) = (Ok (Some rec), s') ->
  grants_ok (history w) /\ token_live (history w) token rec now.
Proof.
  cbn. intros H. pose proof (run_good start_world calls start_good) as Hg.
  split; [by apply good_grants|]. by eapply token_verified.
Qed.

End World_facts.

(** ** The login budget *)

(** [L] grants at most, then the next window: [windows L bound g] splits [g], newest
    first, into windows that ended before [bound]. *)
Inductive windows (L : nat) : Z -> list Z -> Prop :=
| windows_nil bound : windows L bound []
| windows_cons bound w s rest :
    (length w <= L)%nat -> list.last w = Some s -> s + 60 <= bound -> windows L s rest -> windows L bound (w ++ rest).

Definition newest_first : list Z -> Prop := StronglySorted Z.ge.
Definition spaced (L : nat) (g : list Z) : Prop :=
  forall i t t', g !! i = Some t -> g !! (i + (2 * L - 1))%nat = Some t' -> t' + 60 <= t.

Lemma windows_mono L b b' g : windows L b g -> b <= b' -> windows L b' g.
Proof. destruct 1; intros Hb; [constructor|]. eapply windows_cons; eauto. lia. Qed.

Lemma newest_first_lookup g i j x y : newest_first g -> (i <= j)%nat -> g !! i = Some x -> g !! j = Some y -> y <= x.
Proof.
  intros Hg. revert i j. induction Hg as [|z g Hg IH Hz]; intros i j Hij Hi Hj; [done|].
  destruct j as [|j]; [destruct i; [cbn in *; simplify_eq; lia|lia]|]. cbn in Hj. destruct i as [|i]; [|by apply (IH i j); [lia|..]].
  cbn in Hi. simplify_eq. rewrite List.Forall_forall in Hz. specialize (Hz y).
  apply list_elem_of_lookup_2, list_elem_of_In, Hz in Hj. lia.
Qed.

Lemma newest_first_app g g' : newest_first (g ++ g') -> newest_first g'.
Proof. induction g as [|x g IH]; [done|]. cbn. intros [H _]%StronglySorted_inv. auto. Qed.

Lemma window_spaced L w s rest :
  (1 <= L)%nat -> newest_first (w ++ rest) -> (length w <= L)%nat -> list.last w = Some s -> windows L s rest -> spaced L (w ++ rest).
Proof.
  intros HL Hg Hw Hs Hr. revert w Hg Hw Hs. induction Hr as [b|b w' s' rest Hlen Hl Hb Hr IH]; intros w Hg Hw Hs i t t' Hi Hj.
  - rewrite app_nil_r in Hj. apply lookup_lt_Some in Hj. lia.
  - destruct (decide (i < length w)%nat) as [Hi'|Hi'].
    + rewrite lookup_app_r in Hj by lia.
      assert ((w' ++ rest) !! (length w' - 1)%nat = Some s') as Hs'.
      { rewrite last_lookup in Hl. destruct w'; [done|]. rewrite lookup_app_l by (cbn; lia). cbn in *. by rewrite Nat.sub_0_r. }
      assert ((w ++ w' ++ rest) !! (length w - 1)%nat = Some b) as Hb'.
      { rewrite last_lookup in Hs. destruct w; [done|]. rewrite lookup_app_l by (cbn; lia). cbn in *. by rewrite Nat.sub_0_r. }
      pose proof (newest_first_lookup _ i (length w - 1)%nat _ _ Hg ltac:(lia) Hi Hb').
      pose proof (newest_first_lookup _ (length w' - 1)%nat (i + (2 * L - 1) - length w)%nat _ _ (newest_first_app _ _ Hg) ltac:(lia) Hs' Hj). lia.
    + rewrite lookup_app_r in Hi, Hj by lia. apply newest_first_app in Hg.
      eapply (IH w' Hg Hlen Hl (i - length w)%nat); [exact Hi|]. rewrite <- Hj. f_equal. lia.
Qed.

Lemma find_attempt_bucket b l r : find_attempt b l = Some r -> bucket r = b.
Proof. intros H. apply head_Some_elem_of, list_elem_of_filter in H. tauto. Qed.

Lemma find_attempt_cons b r l : find_attempt b (r :: l) = if decide (bucket r = b) then Some r else find_attempt b l.
Proof. unfold find_attempt. rewrite filter_cons. by case_decide. Qed.

Lemma find_count b b' now l :
  find_attempt b (count_attempt b' now l)
  = if decide (b = b') then Some match find_attempt b l with
                                 | Some r => {| bucket := b; start := start r; count := count r + 1 |}
                                 | None => {| bucket := b; start := now; count := 1 |} end
    else find_attempt b l.
Proof.
  assert (forall l, find_attempt b (map (fun r => if bool_decide (bucket r = b') then {| bucket := b'; start := start r; count := count r + 1 |} else r) l)
    = (fun r => if decide (b = b') then {| bucket := b; start := start r; count := count r + 1 |} else r) <$> find_attempt b l) as Hmap.
  { clear l. intros l. induction l as [|r l IH]; [by case_decide|]. cbn [map]. rewrite !find_attempt_cons, IH.
    case_bool_decide; cbn; repeat case_decide; cbn; try congruence; subst; try done. }
  assert (forall r, find_attempt b (l ++ [r]) = match find_attempt b l with Some x => Some x | None => if decide (bucket r = b) then Some r else None end) as Happ.
  { intros r. clear Hmap. induction l as [|x l IH]; [cbn [app]; by rewrite find_attempt_cons|]. cbn [app]. rewrite !find_attempt_cons, IH. by destruct (decide (bucket x = b)). }
  unfold count_attempt. destruct (find_attempt b' l) eqn:E; cbn [is_some].
  - rewrite Hmap. case_decide as Hd; [subst; by rewrite E|]. by destruct (find_attempt b l).
  - rewrite Happ. cbn. destruct (decide (b = b')) as [->|Hn]; [by rewrite E, decide_True|].
    rewrite decide_False by congruence. by destruct (find_attempt b l).
Qed.

Lemma find_expire b now l : NoDup (map bucket l) ->
  find_attempt b (expire_attempts now l)
  = match find_attempt b l with
    | Some r => if (start r <=? now - 60) || (now <? start r) then None else Some r | None => None end.
Proof.
  induction l as [|r l IH]; [done|]. cbn [map]. intros [Hn Hl]%list.NoDup_cons. unfold expire_attempts in *. cbn [List.filter].
  rewrite find_attempt_cons. destruct (_ || _) eqn:E; cbn [negb].
  - rewrite IH by done. case_decide as Hd; [|done]. rewrite E. destruct (find_attempt b l) as [x|] eqn:Ef; [|done].
    exfalso. apply Hn. apply head_Some_elem_of, list_elem_of_filter in Ef as [Hx Hin]. rewrite Hd, <- Hx. by apply list_elem_of_fmap_2.
  - rewrite find_attempt_cons. case_decide; [by rewrite E|by apply IH].
Qed.

(** The limit of a bucket. *)
Definition limited (b : string) (L : nat) : Prop := b = "global" /\ L = 20%nat \/ (exists peer, b = _digest ("peer:" +:+ peer)) /\ L = 5%nat.

Lemma NoDup_count b now l : NoDup (map bucket l) -> NoDup (map bucket (count_attempt b now l)).
Proof.
  intros H. unfold count_attempt. destruct (find_attempt b l) eqn:E; cbn [is_some].
  - rewrite map_map. erewrite map_ext; [exact H|]. intros r. cbn. case_bool_decide; [by subst|done].
  - rewrite map_app. cbn. apply list.NoDup_app. split; [done|]. split; [|apply NoDup_singleton].
    intros x Hx ->%list_elem_of_singleton. apply list_elem_of_fmap in Hx as (r & Hr & Hin).
    assert (r ∈ filter (fun r => bucket r = b) l) as Hf by (apply list_elem_of_filter; auto).
    unfold find_attempt in E. destruct (filter _ l); [by apply not_elem_of_nil in Hf|done].
Qed.

Lemma NoDup_expire now l : NoDup (map bucket l) -> NoDup (map bucket (expire_attempts now l)).
Proof.
  induction l as [|r l IH]; [done|]. cbn [map]. intros [Hn Hl]%list.NoDup_cons. unfold expire_attempts in *. cbn.
  destruct (negb _); [|auto]. cbn. apply list.NoDup_cons. split; [|auto]. contradict Hn.
  apply list_elem_of_fmap in Hn as (x & Hx & [Hin _]%filter_sub). rewrite Hx. by apply list_elem_of_fmap_2.
Qed.

Lemma reserve_find peer now l l' b L : NoDup (map bucket l) -> limited b L -> reserve_attempts peer now l = Some l' ->
  NoDup (map bucket l') /\
  if bool_decide (b ∈ map fst (buckets_of peer))
  then match find_attempt b (expire_attempts now l) with
       | Some r => count r < Z.of_nat L /\ find_attempt b l' = Some {| bucket := b; start := start r; count := count r + 1 |}
       | None => find_attempt b l' = Some {| bucket := b; start := now; count := 1 |} end
  else find_attempt b l' = find_attempt b (expire_attempts now l).
Proof.
  intros Hn Hb H. unfold reserve_attempts in H. apply (NoDup_expire now) in Hn.
  set (d := _digest ("peer:" +:+ peer)). set (le := expire_attempts now l) in *.
  cbn [buckets_of reserve_buckets] in H. fold d in H.
  destruct (match find_attempt "global" le with Some r => 20 <=? count r | None => false end) eqn:E1; [done|].
  destruct (match find_attempt d _ with Some r => _ | None => false end) eqn:E2; [done|]. injection H as <-.
  assert (d <> "global") as Hd by apply digest_not_global. split; [by do 2 apply NoDup_count|].
  rewrite find_count, decide_False in E2 by done. rewrite !find_count. cbn [buckets_of map fst]. fold d.
  destruct Hb as [[-> ->]|[[p ->] ->]].
  - rewrite bool_decide_true by constructor. rewrite decide_False, decide_True by done.
    destruct (find_attempt "global" le); [|done]. bdestr. split; [lia|done].
  - assert (_digest ("peer:" +:+ p) <> "global") as Hp by apply digest_not_global.
    case_bool_decide as Hin.
    + apply elem_of_cons in Hin as [?|Hin]; [done|]. apply list_elem_of_singleton in Hin as ->.
      rewrite decide_True, decide_False by done. destruct (find_attempt d le); [|done]. bdestr. split; [lia|done].
    + rewrite !(decide_False (P := _ = "global")) by done. rewrite decide_False; [done|].
      intros Heq. apply Hin. rewrite Heq. by do 2 constructor.
Qed.

Definition bucket_ok (L : nat) (b : string) (h : list event) (l : list attempt_row) : Prop :=
  match find_attempt b l with
  | Some r => exists w rest, granted b h = w ++ rest /\ Z.of_nat (length w) = count r /\ (length w <= L)%nat
                             /\ list.last w = Some (start r) /\ windows L (start r) rest
  | None => forall now, Forall (Z.ge now) (attempt_clock h) -> windows L now (granted b h)
  end.
Definition budget_ok (h : list event) (l : list attempt_row) : Prop :=
  NoDup (map bucket l) /\ (newest_first (attempt_clock h) -> forall b L, limited b L -> bucket_ok L b h l).

Lemma granted_clock P b h : Forall P (attempt_clock h) -> Forall P (granted b h).
Proof.
  induction h as [|e h IH]; [done|]. destruct e; cbn; auto. intros [H1 H2]%list.Forall_cons.
  case_bool_decide; [|auto]. by constructor; auto.
Qed.

(** What is left of a bucket when the rows have expired. *)
Lemma bucket_expired L b h l now :
  NoDup (map bucket l) -> bucket_ok L b h l -> Forall (Z.ge now) (attempt_clock h) ->
  match find_attempt b (expire_attempts now l) with
  | Some r => find_attempt b l = Some r
  | None => windows L now (granted b h)
  end.
Proof.
  intros Hn Hok Hnow. rewrite find_expire by done. unfold bucket_ok in Hok.
  destruct (find_attempt b l) as [r|]; [|by apply Hok]. destruct Hok as (w & rest & Hg & _ & Hw & Hs & Hr).
  assert (start r <= now) as Hle.
  { apply (granted_clock _ b) in Hnow. rewrite Hg in Hnow. apply list.Forall_app in Hnow as [Hnow _].
    rewrite list.Forall_forall in Hnow. assert (start r ∈ w) as Hin by by apply last_Some_elem_of. apply Hnow in Hin. lia. }
  destruct (_ || _) eqn:E; [|done]. rewrite Hg. apply orb_true_iff in E. eapply windows_cons; eauto.
  destruct E as [E|E]; [apply Z.leb_le in E|apply Z.ltb_lt in E]; lia.
Qed.

Lemma budget_attempt peer now h l l' :
  budget_ok h l -> reserve_attempts peer now l = Some l' -> budget_ok (EAttempt peer now :: h) l'.
Proof.
  intros [Hn Hb] H. split; [by destruct (reserve_find _ _ _ _ "global" 20 Hn ltac:(by left) H)|].
  cbn [attempt_clock]. intros [Hsort Hnow]%StronglySorted_inv b L HL. specialize (Hb Hsort b L HL).
  assert (Forall (Z.ge now) (attempt_clock h)) as Hnow' by exact Hnow.
  pose proof (bucket_expired _ _ _ _ now Hn Hb Hnow') as He.
  destruct (reserve_find _ _ _ _ _ _ Hn HL H) as [_ Hf]. assert (1 <= L)%nat by (destruct HL as [[_ ->]|[_ ->]]; lia).
  unfold bucket_ok. cbn [granted attempt_clock]. case_bool_decide as Hin.
  - destruct (find_attempt b (expire_attempts now l)) as [r|].
    + destruct Hf as [Hc ->]. unfold bucket_ok in Hb. rewrite He in Hb. destruct Hb as (w & rest & Hg & Hlen & Hw & Hs & Hr).
      exists (now :: w), rest. cbn. rewrite Hg. split_and!; auto; try lia. by destruct w.
    + rewrite Hf. by exists [now], (granted b h).
  - rewrite Hf. destruct (find_attempt b (expire_attempts now l)) as [r|].
    + unfold bucket_ok in Hb. by rewrite He in Hb.
    + intros now' [Hle _]%list.Forall_cons. eapply windows_mono; [exact He|]. lia.
Qed.

Definition neutral (e : event) : bool := match e with EReset | EAttempt _ _ => false | _ => true end.

Lemma granted_neutral evs h : forallb neutral evs = true ->
  attempt_clock (evs ++ h) = attempt_clock h /\ forall b, granted b (evs ++ h) = granted b h.
Proof. induction evs as [|e evs IH]; [done|]. cbn. intros [He Hs]%andb_true_iff. specialize (IH Hs). by destruct e. Qed.

Lemma budget_neutral evs h l l' : budget_ok h l -> l' = l -> forallb neutral evs = true -> budget_ok (evs ++ h) l'.
Proof.
  intros [Hn Hb] -> He. destruct (granted_neutral evs h He) as [Hc Hg]. split; [done|]. rewrite Hc. intros Hs b L HL.
  unfold bucket_ok. rewrite Hc, Hg. by apply Hb.
Qed.

Lemma budget_reset h : budget_ok (EReset :: h) [].
Proof. split; [constructor|]. intros _ b L _. unfold bucket_ok. cbn. intros. constructor. Qed.

(** Only [_reserve_attempt] and [reset_password] change the attempts. *)
Lemma session_tx_attempts cookie touch now s r s' : session_in_transaction cookie touch now s = (Ok r, s') -> attempts s' = attempts s.
Proof.
  intros H. apply session_tx_inv in H. destruct r as [a|].
  - destruct H as (hash & row & _ & _ & _ & _ & _ & _ & [= _ _ H _]). by destruct touch.
  - by destruct H as [[= _ _ H _]|[= _ _ H _]].
Qed.

Lemma authority_attempts cookie now s s' : _authority cookie now s = (Ok tt, s') -> attempts s' = attempts s.
Proof. intros H. by apply authority_inv in H as [[= _ _ H _] _]. Qed.

Lemma step_budget verify needs_rehash w c :
  budget_ok (history w) (attempts (st w)) ->
  let w' := step verify needs_rehash w c in budget_ok (history w') (attempts (st w')).
Proof.
  destruct w as [s fs h]. intros Hb.
  assert (forall evs s', attempts s' = attempts s -> forallb neutral evs = true -> budget_ok (evs ++ h) (attempts s')) as Hneutral
    by (intros; by eapply budget_neutral).
  destruct c; unfold record; cbn -[app fmap session verify_token revoke rotate issue login_commit revoke_sessions_for_startup logout bootstrap reset_password _reserve_attempt].
  - destruct (bootstrap _ _ _ _ _ s) as [[a|e] s'] eqn:E; apply bootstrap_inv in E; [|by subst].
    destruct E as [_ [= _ _ E _]]. by apply Hneutral.
  - destruct (reset_password _ _ _ _ _ s) as [[a|e] s'] eqn:E; apply reset_inv in E; [|by subst].
    destruct E as (old & _ & [= _ _ E _]). cbn. rewrite E. apply budget_reset.
  - destruct (revoke_sessions_for_startup _ _ s) as [[a|e] s'] eqn:E; apply startup_inv in E; [|by subst].
    injection E as _ _ E _. by apply Hneutral.
  - destruct (_reserve_attempt _ _ _ s) as [[[user hash]|e] s'] eqn:E; apply reserve_inv in E; cbn; [|by subst].
    destruct E as (l & _ & Hl & [= _ _ E _]). rewrite E. by apply (budget_attempt _ _ _ _ _ Hb).
  - destruct (fs !! n) as [f|]; [|done]. destruct (check_password _ _ _ _ _) as [acc|]; [|done].
    destruct (login_commit _ _ _ _ _ _ _ _ _ s) as [[a|e] s'] eqn:E; apply commit_inv in E.
    + destruct E as (_ & name & kept & _ & [= _ _ E _] & _). by apply Hneutral.
    + injection E as _ _ E _. by apply (Hneutral []).
  - destruct (session _ _ _ _ s) as [r s'] eqn:E. apply session_inv in E as [[-> _]|(a & -> & E)].
    + destruct r as [a|e]; [|done]. apply Hneutral; [done|]. by destruct touch, a.
    + apply session_tx_attempts in E. apply Hneutral; [done|]. by destruct touch, a.
  - destruct (logout _ _ _ s) as [[a|e] s'] eqn:E; apply logout_inv in E; [|by subst].
    injection E as _ _ E _. by apply Hneutral.
  - destruct (issue _ _ _ _ _ _ _ _ _ s) as [[[r t]|e] s'] eqn:E; apply issue_inv in E; [|by subst].
    destruct E as (s1 & adm & Ha%authority_attempts & _ & _ & [= _ _ E _]). apply Hneutral; [|done]. cbn. congruence.
  - destruct (verify_token _ _ _ _ s) as [r s'] eqn:E. apply verify_inv in E.
    assert (attempts s' = attempts s) by by destruct E as [[-> _]|(id & _ & ->)]. destruct r; by apply (Hneutral []).
  - destruct (revoke _ _ _ _ _ s) as [[[]|e] s'] eqn:E; apply revoke_inv in E; [| |by subst].
    + destruct E as (s1 & Ha%authority_attempts & [= _ _ E _]). apply Hneutral; [|done]. cbn. congruence.
    + injection E as _ _ E _. by apply (Hneutral []).
  - destruct (rotate _ _ _ _ _ _ s) as [[[[r t]|]|e] s'] eqn:E; apply rotate_inv in E; [| |by subst].
    + destruct E as (s1 & Ha%authority_attempts & [= _ _ E _]). apply Hneutral; [|done]. cbn. congruence.
    + injection E as _ _ E _. by apply (Hneutral []).
Qed.

Lemma run_budget verify needs_rehash calls w :
  budget_ok (history w) (attempts (st w)) ->
  budget_ok (history (run verify needs_rehash w calls)) (attempts (st (run verify needs_rehash w calls))).
Proof. unfold run. revert w. induction calls as [|c calls IH]; cbn; [done|]. intros w Hw. by apply IH, step_budget. Qed.

Lemma granted_newest b h : newest_first (attempt_clock h) -> newest_first (granted b h).
Proof.
  induction h as [|e h IH]; [constructor|]. destruct e; cbn; auto. intros [Hs Hn]%StronglySorted_inv.
  case_bool_decide; [|auto]. constructor; [by apply IH|]. by apply granted_clock.
Qed.

(** C25. In every history of calls, as long as the clock does not go back and between two password resets, any
    [2 L] login attempts granted one after the other in a bucket take at least 60 seconds, with [L] 5 for one
    peer and 20 for all peers together - whatever logins end, fail or run concurrently, across restarts, and
    with the two transactions of each login interleaved at will. *)
Theorem login_throttled verify needs_rehash calls b L :
  let w := run verify needs_rehash start_world calls in
  limited b L -> newest_first (attempt_clock (history w)) ->
  spaced L (granted b (history w)).
Proof.
  cbn. intros HL Hs. destruct (run_budget verify needs_rehash calls start_world) as [_ Hb].
  { split; [constructor|]. intros _ b' L' _. unfold bucket_ok. cbn. intros. constructor. }
  specialize (Hb Hs b L HL). unfold bucket_ok in Hb. set (h := history _) in *.
  assert (1 <= L)%nat as H1 by (destruct HL as [[_ ->]|[_ ->]]; lia).
  assert (Hg := granted_newest b h Hs).
  destruct (find_attempt b _) as [r|].
  - destruct Hb as (w & rest & Eg & _ & Hw & Hl & Hr). rewrite Eg in Hg |- *. by eapply window_spaced.
  - assert (exists now, Forall (Z.ge now) (attempt_clock h)) as [now Hnow].
    { destruct Hs as [|x l _ Hx]; [by exists 0|]. exists x. constructor; [lia|exact Hx]. }
    destruct (Hb now Hnow) as [|bound w s rest Hw Hl _ Hr]; [by intros i t t' Hi|]. by eapply window_spaced.
Qed.

(** ** Examples *)
Definition demo_verify (hash password : string) : option bool := Some (bool_decide (hash = "hash of " +:+ password)).
Definition demo_cookie : string := "0123456789abcdefghijABCDEFGHIJ0123456789-_a".
Definition demo_id : string := "00112233445566778899aabbccddeeff".
Definition demo_login : list call :=
  [Bootstrap "admin" "a long pass phrase" "hash of a long pass phrase" 100 true;
   Reserve 0 "10.0.0.1" 200 true;
   Reserve 1 "10.0.0.1" 200 true;
   Commit 0 "admin" "a long pass phrase" "" demo_cookie "" 201 true;
   Commit 1 "admin" "a wrong pass phrase" "" "another" "" 202 true].
Definition demo_tokens : list call :=
  demo_login ++ [Issue "alarm clock" (JList [JStr "read"; JStr "playback"]) 3600 (Some demo_cookie) demo_id
                   "0123456789abcdefghijABCDEFGHIJ0123456789-_b" 210 210 true;
                 Rotate demo_id "0123456789abcdefghijABCDEFGHIJ0123456789-_c" (Some demo_cookie) 220 220 true].
Definition demo_run (calls : list call) : world := run demo_verify (fun _ => false) start_world calls.

Lemma session_authority_witness :
  let w := demo_run demo_login in
  let s := {| username := "admin"; expires_at := 29001; csrf_token := _csrf demo_cookie |} in
  fst (session demo_cookie true 300 true (st w)) = Ok (Some s)
  /\ exists created seen hash, signed_in demo_verify (history w) (_digest demo_cookie) created seen
    /\ admin_of (history w) = Some ("admin", hash)
    /\ 29001 = created + ABSOLUTE_SECONDS /\ 300 < 29001 /\ seen <= 300 < seen + IDLE_SECONDS.
Proof.
  intros w s. assert (session demo_cookie true 300 true (st w) = (Ok (Some s), snd (session demo_cookie true 300 true (st w)))) as H
    by (vm_compute; reflexivity).
  split; [exact (f_equal fst H)|]. exact (session_authority demo_verify (fun _ => false) demo_login _ _ _ _ _ _ H).
Defined.

Lemma token_authority_witness :
  let w := demo_run demo_tokens in
  let token := token_text demo_id "0123456789abcdefghijABCDEFGHIJ0123456789-_c" in
  let r := {| r_id := demo_id; r_name := "alarm clock"; r_scopes := ["playback"; "read"]; r_created_at := 210;
              r_expires_at := 3810; r_last_used := Some 300; r_revoked := false |} in
  fst (verify_token token true 300 true (st w)) = Ok (Some r)
  /\ grants_ok demo_verify (history w) /\ token_digest demo_id (history w) = Some (_digest token).
Proof.
  intros w token r. assert (verify_token token true 300 true (st w) = (Ok (Some r), snd (verify_token token true 300 true (st w)))) as H
    by (vm_compute; reflexivity).
  split; [exact (f_equal fst H)|].
  destruct (token_authority demo_verify (fun _ => false) demo_tokens _ _ _ _ _ _ H) as (H1 & H2 & _). exact (conj H1 H2).
Defined.

(** Five attempts of a peer, a sixth refused, and the next after the window. *)
Definition demo_attempts : list call :=
  Bootstrap "admin" "a long pass phrase" "hash of a long pass phrase" 100 true
  :: map (fun t => Reserve 0 "10.0.0.1" t true) [200; 201; 202; 203; 204; 259; 260].

Lemma login_throttled_witness :
  let w := demo_run demo_attempts in let b := _digest "peer:10.0.0.1" in
  granted b (history w) = [260; 204; 203; 202; 201; 200] /\ spaced 5 (granted b (history w)).
Proof.
  intros w b. split; [vm_compute; reflexivity|].
  apply (login_throttled demo_verify (fun _ => false) demo_attempts b 5).
  - right. split; [|reflexivity]. exists "10.0.0.1". reflexivity.
  - vm_compute. repeat constructor; discriminate.
Defined.

End Admin.
