(* ===== verification/Ownership.v ===== *)
(** * Ownership of the radios
    (app/services/device_ownership.py, device_transactions.py, [device_lock] of
    device_policy.py)

    A radio is owned through an advisory lock on a file that every worker process opens;
    [device_transaction] takes the locks of all its radios in sorted order.  [sys] is the
    shared file system and all tasks of all workers; [step] is one segment of one of them:
    an open, one attempt at [flock], the check that the file is still the one at its path,
    a cancellation while waiting, the end of a transaction, the death of a worker, or a
    stranger removing a lock file.  Tasks interleave at every one of these points, which
    is finer than the event loop of one worker.  A descriptor stands for its open file
    description; clocks are in microseconds. *)
From Stdlib Require Import Ascii String Sorted OrderedTypeEx.
From S2P Require Import Prelude PyStr Json Sha256 Group.
#[local] Open Scope string_scope.
#[local] Open Scope list_scope.
#[local] Open Scope Z_scope.

Module Ownership.

Inductive exn : Type := DeviceBusy | DeviceLockUnavailable.

Definition identity (device_id : string) : string := py_upper (py_strip device_id).
Definition valid_identity (n : string) : bool := negb (empty_str n) && (py_len n <=? 128).
Definition leaf (n : string) : string := sha256_hex n +:+ ".lock".
Definition TIMEOUT : Z := 30 * 1000000.

(** [_fd] and [_owner] of the object; the owner is a task. *)
Record DeviceOwnership := { _fd : option nat; _owner : option nat }.
Definition unowned : DeviceOwnership := {| _fd := None; _owner := None |}.
Record descriptor := { d_proc : nat; d_path : string; d_inode : nat }.

(** Where [acquire] stands for the first radio of [waiting]. *)
Inductive phase : Type := Opening | Trying (fd : nat) (deadline : Z) | Locked (fd : nat).
Record acquisition := {
  targets : list string; waiting : list string; acquired : list string; at_ : phase }.
(** A transaction that was entered: [identities], [acquired] and the token of [_active]. *)
Record frame := { scope : list string; taken : list string; previous : option (nat * list string) }.
(** [active] is the task's value of the context variable [_active]. *)
Record task := {
  proc : nat; active : option (nat * list string); frames : list frame; entering : option acquisition }.

Record sys := {
  files : gmap string nat;                       (* path to inode *)
  inodes : gmap nat string;                      (* every inode and the path it was created at *)
  fresh : nat;
  fds : gmap nat descriptor;
  flocks : gmap nat nat;                         (* inode to the descriptor that holds its lock *)
  objects : gmap (nat * string) DeviceOwnership; (* [_locks] of every worker *)
  tasks : gmap nat task }.
Definition start_sys : sys :=
  {| files := ∅; inodes := ∅; fresh := 0; fds := ∅; flocks := ∅; objects := ∅; tasks := ∅ |}.

Definition set_fds f l s := {| files := files s; inodes := inodes s; fresh := fresh s; fds := f; flocks := l;
  objects := objects s; tasks := tasks s |}.
Definition set_object key o s := {| files := files s; inodes := inodes s; fresh := fresh s; fds := fds s;
  flocks := flocks s; objects := <[key := o]> (objects s); tasks := tasks s |}.
Definition set_task t k s := {| files := files s; inodes := inodes s; fresh := fresh s; fds := fds s;
  flocks := flocks s; objects := objects s; tasks := <[t := k]> (tasks s) |}.

(** ** Files and locks *)
Definition create (path : string) (s : sys) : sys :=
  match files s !! path with
  | Some _ => s
  | None => {| files := <[path := fresh s]> (files s); inodes := <[fresh s := path]> (inodes s); fresh := S (fresh s);
               fds := fds s; flocks := flocks s; objects := objects s; tasks := tasks s |}
  end.
(** [_open]: [O_CREAT], then a new descriptor. *)
Definition _open (p : nat) (path : string) (s : sys) : nat * sys :=
  let s := create path s in
  (fresh s,
   {| files := files s; inodes := inodes s; fresh := S (fresh s);
      fds := <[fresh s := {| d_proc := p; d_path := path; d_inode := default 0%nat (files s !! path) |}]> (fds s);
      flocks := flocks s; objects := objects s; tasks := tasks s |}).
(** Closing the last descriptor of a description drops its lock. *)
Definition close (fd : nat) (s : sys) : sys :=
  match fds s !! fd with
  | None => s
  | Some d => set_fds (delete fd (fds s))
                (if bool_decide (flocks s !! d_inode d = Some fd) then delete (d_inode d) (flocks s) else flocks s) s
  end.
(** [flock(fd, LOCK_EX | LOCK_NB)]; [None] is [BlockingIOError]. *)
Definition flock (fd : nat) (s : sys) : option sys :=
  d ← fds s !! fd;
  match flocks s !! d_inode d with
  | None => Some (set_fds (fds s) (<[d_inode d := fd]> (flocks s)) s)
  | Some fd' => if bool_decide (fd' = fd) then Some s else None
  end.
Definition _same_namespace (p : nat) (fd : nat) (path : string) (s : sys) : bool * sys :=
  let '(check, s) := _open p path s in
  (bool_decide (d_inode <$> fds s !! fd = d_inode <$> fds s !! check), close check s).

(** ** The lock of one radio *)
Definition object (p : nat) (n : string) (s : sys) : DeviceOwnership := default unowned (objects s !! (p, n)).
Definition owned_by_task (t : nat) (n : string) (s : sys) : bool :=
  match tasks s !! t with
  | Some k => let o := object (proc k) n s in is_some (_fd o) && bool_decide (_owner o = Some t)
  | None => false
  end.
(** [None] is the [RuntimeError] of a task that does not hold the lock. *)
Definition release (t : nat) (n : string) (s : sys) : option sys :=
  k ← tasks s !! t;
  if owned_by_task t n s
  then Some (set_object (proc k, n) unowned (match _fd (object (proc k) n s) with Some fd => close fd s | None => s end))
  else None.
(** [locked]: whether somebody owns the radio, as far as this worker can see. *)
Definition locked (p : nat) (n : string) (ok : bool) (s : sys) : bool * sys :=
  if is_some (_fd (object p n s)) then (true, s)
  else if negb ok then (true, s)
  else
    let '(fd, s) := _open p (leaf n) s in
    match flock fd s with
    | None => (true, close fd s)
    | Some s => let '(same, s) := _same_namespace p fd (leaf n) s in (negb same, close fd s)
    end.

(** ** Transactions *)
Fixpoint release_all (t : nat) (l : list string) (s : sys) : sys :=
  match l with
  | [] => s
  | n :: l => match release t n s with Some s => release_all t l s | None => s end
  end.

Definition own_context (t : nat) (k : task) : option (list string) :=
  match active k with Some (t', cur) => if bool_decide (t' = t) then Some cur else None | None => None end.

(** The transaction is entered: [_active.set]. *)
Definition enter_frame (t : nat) (k : task) (ids acquired : list string) : task :=
  {| proc := proc k; active := Some (t, default ids (own_context t k));
     frames := {| scope := ids; taken := acquired; previous := active k |} :: frames k; entering := None |}.

Definition with_entering (a : option acquisition) (k : task) : task :=
  {| proc := proc k; active := active k; frames := frames k; entering := a |}.

(** The first segment of [device_transaction]. *)
Definition device_transaction (t : nat) (values : list string) (k : task) (s : sys) : res exn sys :=
  let ids := Group.sorted (remove_dups (map identity values)) in
  if bool_decide (ids = []) || negb (forallb valid_identity ids) then Err DeviceLockUnavailable
  else if match own_context t k with
          | Some cur => negb (forallb (fun n => bool_decide (n ∈ cur)) ids) | None => false end
  then Err DeviceBusy
  else
    let borrowed := map (fun n => owned_by_task t n s) ids in
    if existsb id borrowed
    then if forallb id borrowed then Ok (set_task t (enter_frame t k ids []) s) else Err DeviceBusy
    else Ok (set_task t (with_entering (Some {| targets := ids; waiting := ids; acquired := []; at_ := Opening |}) k) s).

(** An exception while the locks are taken: [acquire] closes its descriptor, then the
    transaction releases what it has. *)
Definition abandon (t : nat) (k : task) (a : acquisition) (s : sys) : sys :=
  let s := match at_ a with Opening => s | Trying fd _ | Locked fd => close fd s end in
  let s := release_all t (rev (acquired a)) s in
  set_task t (with_entering None k) s.

Definition go (a : acquisition) (p : phase) : acquisition :=
  {| targets := targets a; waiting := waiting a; acquired := acquired a; at_ := p |}.

(** One lock more. *)
Definition take_lock (t : nat) (k : task) (a : acquisition) (n : string) (rest : list string) (fd : nat) (s : sys) : sys :=
  let s := set_object (proc k, n) {| _fd := Some fd; _owner := Some t |} s in
  let done := acquired a ++ [n] in
  set_task t (match rest with
              | [] => enter_frame t k (targets a) done
              | _ => with_entering (Some {| targets := targets a; waiting := rest; acquired := done; at_ := Opening |}) k
              end) s.

Inductive event : Type :=
| Spawn (t p : nat) (parent : option nat)     (* [create_task] copies the context *)
| Enter (t : nat) (values : list string)
| Open (t : nat) (ok : bool) (now : Z)
| Try (t : nat) (now : Z)
| Confirm (t : nat) (ok : bool)
| Cancel (t : nat)
| Leave (t : nat)
| Peek (p : nat) (n : string) (ok : bool)     (* [locked] *)
| Crash (p : nat)
| Remove (path : string).

Definition with_acquisition (t : nat) (s : sys) (f : task -> acquisition -> string -> list string -> sys) : sys :=
  match tasks s !! t with
  | Some k => match entering k with
              | Some a => match waiting a with n :: rest => f k a n rest | [] => s end
              | None => s
              end
  | None => s
  end.

Definition step (s : sys) (e : event) : sys :=
  match e with
  | Spawn t p parent =>
      if is_some (tasks s !! t) then s
      else
        let context := match parent with
          | Some q => match tasks s !! q with
                      | Some k => if bool_decide (proc k = p) then active k else None | None => None end
          | None => None end in
        set_task t {| proc := p; active := context; frames := []; entering := None |} s
  | Enter t values =>
      match tasks s !! t with
      | Some k => if is_some (entering k) then s
                  else match device_transaction t values k s with Ok s' => s' | Err _ => s end
      | None => s
      end
  | Open t ok now => with_acquisition t s (fun k a n rest =>
      match at_ a with
      | Opening =>
          if owned_by_task t n s || negb ok then abandon t k a s
          else let '(fd, s) := _open (proc k) (leaf n) s in
               set_task t (with_entering (Some (go a (Trying fd (now + TIMEOUT)))) k) s
      | _ => s
      end)
  | Try t now => with_acquisition t s (fun k a n rest =>
      match at_ a with
      | Trying fd deadline =>
          match flock fd s with
          | Some s => set_task t (with_entering (Some (go a (Locked fd))) k) s
          | None => if deadline <=? now then abandon t k a s else s
          end
      | _ => s
      end)
  | Confirm t ok => with_acquisition t s (fun k a n rest =>
      match at_ a with
      | Locked fd =>
          if negb ok then abandon t k a s
          else let '(same, s) := _same_namespace (proc k) fd (leaf n) s in
               if same : bool then take_lock t k a n rest fd s else abandon t k a s
      | _ => s
      end)
  | Cancel t => with_acquisition t s (fun k a n rest =>
      match at_ a with Trying _ _ => abandon t k a s | _ => s end)
  | Leave t =>
      match tasks s !! t with
      | Some k =>
          match frames k, entering k with
          | f :: fs, None =>
              release_all t (rev (taken f))
                (set_task t {| proc := proc k; active := previous f; frames := fs; entering := None |} s)
          | _, _ => s
          end
      | None => s
      end
  | Peek p n ok => snd (locked p n ok s)
  | Crash p =>
      let dead fd := match fds s !! fd with Some d => bool_decide (d_proc d = p) | None => true end in
      {| files := files s; inodes := inodes s; fresh := fresh s;
         fds := filter (fun x => d_proc x.2 <> p) (fds s);
         flocks := filter (fun x => dead x.2 = false) (flocks s);
         objects := filter (fun x => x.1.1 <> p) (objects s);
         tasks := filter (fun x => proc x.2 <> p) (tasks s) |}
  | Remove path => {| files := delete path (files s); inodes := inodes s; fresh := fresh s; fds := fds s;
                      flocks := flocks s; objects := objects s; tasks := tasks s |}
  end.
Definition run (events : list event) : sys := fold_left step events start_sys.

(** ** Observations *)
(** The radio whose lock a task finds taken. *)
Definition blocked_on (t : nat) (s : sys) : option string :=
  k ← tasks s !! t; a ← entering k;
  match waiting a, at_ a with
  | n :: _, Trying fd _ =>
      d ← fds s !! fd; fd' ← flocks s !! d_inode d;
      if bool_decide (fd' = fd) then None else Some n
  | _, _ => None
  end.
(** A task that has just locked the file and will check it next. *)
Definition confirming (t : nat) (n : string) (s : sys) : bool :=
  match k ← tasks s !! t; entering k with
  | Some a => match waiting a, at_ a with n' :: _, Locked _ => bool_decide (n' = n) | _, _ => false end
  | None => false
  end.
(** The radios that tasks hold or ask for. *)
Definition held (k : task) : list string :=
  List.concat (map taken (frames k)) ++ match entering k with Some a => acquired a | None => [] end.
Definition mentioned (s : sys) : list string :=
  flat_map (fun x => held x.2 ++ match entering x.2 with Some a => waiting a | None => [] end) (map_to_list (tasks s)).
(** No two of them share a lock file. *)
Definition no_collision (s : sys) : bool :=
  forallb (fun n => forallb (fun n' => negb (bool_decide (leaf n = leaf n')) || bool_decide (n = n')) (mentioned s)) (mentioned s).
(** Nobody unlinks a lock file. *)
Definition keeps_files (e : event) : bool := match e with Remove _ => false | _ => true end.

(** ** The invariant *)
#[local] Opaque sha256_hex leaf.
#[local] Arguments _open : simpl never.
#[local] Arguments _same_namespace : simpl never.

Definition phase_fd (k : task) : option nat :=
  match entering k with
  | Some a => match at_ a with Opening => None | Trying fd _ | Locked fd => Some fd end
  | None => None
  end.

Fixpoint context_ok (t : nat) (context : option (nat * list string)) (fs : list frame) : Prop :=
  match fs with
  | [] => match context with Some (t', _) => t' <> t | None => True end
  | f :: fs' => exists cur, context = Some (t, cur)
      /\ (forall n, n ∈ cur -> n ∈ List.concat (map taken fs)) /\ (forall n, n ∈ scope f -> n ∈ cur)
      /\ context_ok t (previous f) fs'
  end.

Inductive use : Type := InObject (p : nat) (n : string) | InTask (t : nat) | Loose.
Definition uses (loose : list nat) (s : sys) (fd : nat) (u : use) : Prop :=
  match u with
  | InObject p n => exists o, objects s !! (p, n) = Some o /\ _fd o = Some fd
  | InTask t => exists k, tasks s !! t = Some k /\ phase_fd k = Some fd
  | Loose => fd ∈ loose
  end.

Definition str_lt (a b : string) : Prop := String.compare a b = Lt.

(** What an acquisition under way looks like. *)
Definition acquisition_ok (s : sys) (k : task) (a : acquisition) : Prop :=
  frames k = [] /\ targets a = acquired a ++ waiting a /\ StronglySorted str_lt (targets a)
  /\ exists n rest, waiting a = n :: rest
  /\ match at_ a with
     | Opening => True
     | Trying fd _ => exists d, fds s !! fd = Some d /\ d_proc d = proc k /\ d_path d = leaf n /\ flocks s !! d_inode d <> Some fd
     | Locked fd => exists d, fds s !! fd = Some d /\ d_proc d = proc k /\ d_path d = leaf n /\ flocks s !! d_inode d = Some fd
     end.

(** [debt]: locks the task [t0] has still to release; [loose]: descriptors in local
    variables of the segment that runs. *)
Record ok (t0 : nat) (debt : list string) (loose : list nat) (s : sys) : Prop := {
  ok_flock : forall i fd, flocks s !! i = Some fd -> exists d, fds s !! fd = Some d /\ d_inode d = i;
  ok_object : forall p n o, objects s !! (p, n) = Some o -> o = unowned \/ exists fd t k d,
    o = {| _fd := Some fd; _owner := Some t |} /\ tasks s !! t = Some k /\ proc k = p
    /\ (n ∈ held k \/ t = t0 /\ n ∈ debt)
    /\ fds s !! fd = Some d /\ d_proc d = p /\ d_path d = leaf n /\ flocks s !! d_inode d = Some fd;
  ok_held : forall t k, tasks s !! t = Some k ->
    NoDup (held k ++ if decide (t = t0) then debt else [])
    /\ forall n, n ∈ held k \/ t = t0 /\ n ∈ debt -> exists fd, objects s !! (proc k, n) = Some {| _fd := Some fd; _owner := Some t |};
  ok_acquisition : forall t k a, tasks s !! t = Some k -> entering k = Some a -> acquisition_ok s k a;
  ok_context : forall t k, tasks s !! t = Some k -> context_ok t (active k) (frames k);
  ok_known : forall t k c cur, tasks s !! t = Some k -> Some (c, cur) ∈ active k :: map previous (frames k) ->
    exists k', tasks s !! c = Some k' /\ proc k' = proc k;
  ok_unique : forall fd u u', uses loose s fd u -> uses loose s fd u' -> u = u';
  ok_no_leak : forall fd d, fds s !! fd = Some d -> exists u, uses loose s fd u;
  ok_loose : forall fd, fd ∈ loose -> exists d, fds s !! fd = Some d;
  ok_loose_dup : NoDup loose;
  ok_fresh : forall fd d, fds s !! fd = Some d -> (fd < fresh s)%nat /\ inodes s !! d_inode d = Some (d_path d);
  ok_current : forall fd d, fds s !! fd = Some d -> files s !! d_path d = Some (d_inode d);
  ok_files : forall path i, files s !! path = Some i -> inodes s !! i = Some path;
  ok_inodes : forall i path, inodes s !! i = Some path -> (i < fresh s)%nat }.

Lemma ok_start t0 : ok t0 [] [] start_sys.
Proof.
  split; cbn; try (by intros; simplify_map_eq); try by constructor.
  - intros fd [p n|t|]; cbn; [by intros u' (x & ? & _); simplify_map_eq..|by intros u' ?%elem_of_nil].
  - by intros fd ?%elem_of_nil.
Qed.

Lemma ok_any t0 t1 loose s : ok t0 [] loose s -> ok t1 [] loose s.
Proof.
  intros []. split; auto.
  - intros p n o Ho. destruct (ok_object0 p n o Ho) as [?|(fd & t & k & d & H)]; [by left|]. right.
    exists fd, t, k, d. destruct_and! H. split_and!; auto. match goal with H : _ \/ _ |- _ => destruct H as [?|[_ []%elem_of_nil]] end. by left.
  - intros t k Hk. destruct (ok_held0 t k Hk) as [H1 H2]. split; [revert H1; by repeat case_decide|].
    intros n Hn. apply H2. destruct Hn as [?|[_ []%elem_of_nil]]. by left.
Qed.

(** ** Files *)
Lemma create_ok t0 debt loose s path : ok t0 debt loose s ->
  ok t0 debt loose (create path s) /\ exists i, files (create path s) !! path = Some i /\ inodes (create path s) !! i = Some path.
Proof.
  intros Hs. unfold create. destruct (files s !! path) as [i|] eqn:E.
  { split; [done|]. exists i. split; [done|]. by apply (ok_files _ _ _ _ Hs). }
  split; [|exists (fresh s); cbn; by rewrite !lookup_insert_eq].
  destruct Hs. split; cbn; auto.
  - intros fd d Hd. destruct (ok_fresh0 fd d Hd) as [H1 H2]. split; [lia|]. rewrite lookup_insert_ne; [done|].
    apply ok_inodes0 in H2. lia.
  - intros fd d Hd%ok_current0. rewrite lookup_insert_ne; [done|]. congruence.
  - intros p i. destruct (decide (p = path)) as [->|Hn].
    + rewrite lookup_insert_eq. intros [= <-]. by rewrite lookup_insert_eq.
    + rewrite lookup_insert_ne by done. intros Hi%ok_files0. rewrite lookup_insert_ne; [done|]. apply ok_inodes0 in Hi. lia.
  - intros i p. destruct (decide (i = fresh s)) as [->|Hn]; [rewrite lookup_insert_eq; lia|].
    rewrite lookup_insert_ne by done. intros ?%ok_inodes0. lia.
Qed.

Lemma open_ok t0 debt loose s p path fd s' : ok t0 debt loose s -> _open p path s = (fd, s') ->
  ok t0 debt (fd :: loose) s' /\ tasks s' = tasks s /\ objects s' = objects s /\ flocks s' = flocks s
  /\ exists d, fds s' !! fd = Some d /\ d_proc d = p /\ d_path d = path /\ (forall i, flocks s' !! i <> Some fd).
Proof.
  intros Hs [= <- <-]. destruct (create_ok t0 debt loose s path Hs) as [Hc (i & Hi & Hp)].
  assert (tasks (create path s) = tasks s /\ objects (create path s) = objects s /\ flocks (create path s) = flocks s)
    as (Et & Eo & Ef) by (unfold create; by destruct (files s !! path)).
  set (s1 := create path s) in *. clearbody s1.
  assert (forall fd' d, fds s1 !! fd' = Some d -> fd' <> fresh s1) as Hfresh.
  { intros fd' d Hd. destruct (ok_fresh _ _ _ _ Hc fd' d Hd). lia. }
  assert (forall i, flocks s1 !! i <> Some (fresh s1)) as Hnl.
  { intros j Hj. destruct (ok_flock _ _ _ _ Hc _ _ Hj) as (d & Hd & _). by eapply Hfresh. }
  split; [|cbn; rewrite lookup_insert_eq; by eauto 10].
  destruct Hc. split; cbn; auto.
  - intros j fd Hj. destruct (ok_flock0 j fd Hj) as (d & Hd & Hdi). exists d. rewrite lookup_insert_ne; [done|]. by apply not_eq_sym, (Hfresh _ d).
  - intros q n o Ho. destruct (ok_object0 q n o Ho) as [?|(fd & t & k & d & H)]; [by left|]. right.
    exists fd, t, k, d. destruct_and! H. split_and!; auto. rewrite lookup_insert_ne; [done|]. by apply not_eq_sym, (Hfresh _ d).
  - intros t k a Hk Ha. destruct (ok_acquisition0 t k a Hk Ha) as (H1 & H2 & H3 & n & rest & H4 & H5). split_and!; auto. exists n, rest. split; [done|].
    destruct (at_ a); [done|..]; destruct H5 as (d & Hd & H5); exists d; cbn; (rewrite lookup_insert_ne; [done|]); by apply not_eq_sym, (Hfresh _ d).
  - assert (forall u, uses loose s1 (fresh s1) u -> False) as Hno.
    { intros [q n|t|]; cbn.
      + intros (o & Ho & Hfd). destruct (ok_object0 q n o Ho) as [->|(fd & t & k & d & -> & _ & _ & _ & Hd & _)]; [done|].
        injection Hfd as ->. by eapply Hfresh.
      + intros (k & Hk & Hfd). unfold phase_fd in Hfd. destruct (entering k) as [a|] eqn:Ea; [|done].
        destruct (ok_acquisition0 t k a Hk Ea) as (_ & _ & _ & n & rest & _ & H5). destruct (at_ a); [done|..]; injection Hfd as ->; destruct H5 as (d & Hd & _); by eapply Hfresh.
      + intros (d & Hd)%ok_loose0. by eapply Hfresh. }
    assert (forall fd u, uses (fresh s1 :: loose) (Build_sys (files s1) (inodes s1) (S (fresh s1)) (<[fresh s1 := Build_descriptor p path (default 0%nat (files s1 !! path))]> (fds s1)) (flocks s1) (objects s1) (tasks s1)) fd u ->
      (fd = fresh s1 /\ u = Loose) \/ uses loose s1 fd u) as Huse.
    { intros fd [q n|t|]; cbn; auto. intros [->|?]%elem_of_cons; auto. }
    intros fd u u' [[-> ->]|Hu]%Huse [[? ->]|Hu']%Huse; subst; try done; [by apply Hno in Hu'|by apply Hno in Hu|by eapply ok_unique0].
  - intros fd d. destruct (decide (fd = fresh s1)) as [->|Hn]; [intros _; exists Loose; by left|].
    rewrite lookup_insert_ne by done. intros [[q n|t|] Hu]%ok_no_leak0; [by exists (InObject q n)|by exists (InTask t)|exists Loose; by right].
  - intros fd [->|Hin]%elem_of_cons; [rewrite lookup_insert_eq; eauto|]. destruct (ok_loose0 fd Hin) as [d Hd]. exists d.
    rewrite lookup_insert_ne; [done|]. by apply not_eq_sym, (Hfresh _ d).
  - constructor; [|done]. intros (d & Hd)%ok_loose0. by eapply Hfresh.
  - intros fd d. destruct (decide (fd = fresh s1)) as [->|Hn].
    + rewrite lookup_insert_eq. intros [= <-]. cbn. rewrite Hi. split; [lia|done].
    + rewrite lookup_insert_ne by done. intros Hd%ok_fresh0. split; [lia|tauto].
  - intros fd d. destruct (decide (fd = fresh s1)) as [->|Hn].
    + rewrite lookup_insert_eq. intros [= <-]. cbn. by rewrite Hi.
    + rewrite lookup_insert_ne by done. apply ok_current0.
  - intros j q ?%ok_inodes0. lia.
Qed.

(** Only a loose descriptor is closed. *)
Lemma close_ok t0 debt loose s fd : ok t0 debt loose s -> fd ∈ loose ->
  ok t0 debt (filter (fun x => x <> fd) loose) (close fd s) /\ fds (close fd s) !! fd = None
  /\ tasks (close fd s) = tasks s /\ objects (close fd s) = objects s.
Proof.
  intros Hs Hin. destruct (ok_loose _ _ _ _ Hs fd Hin) as [d Hd]. unfold close. rewrite Hd.
  split; [|cbn; by rewrite lookup_delete_eq].
  assert (forall u, uses loose s fd u -> u = Loose) as Honly.
  { intros u Hu. by apply (ok_unique _ _ _ _ Hs fd u Loose). }
  set (fl := if bool_decide (flocks s !! d_inode d = Some fd) then delete (d_inode d) (flocks s) else flocks s).
  assert (forall i, fl !! i = if decide (flocks s !! i = Some fd) then None else flocks s !! i) as Hfl.
  { intros i. unfold fl. case_bool_decide as H1.
    - destruct (decide (i = d_inode d)) as [->|Hn]; [rewrite lookup_delete_eq; by rewrite decide_True|].
      rewrite lookup_delete_ne by done. rewrite decide_False; [done|]. intros H2.
      destruct (ok_flock _ _ _ _ Hs _ _ H2) as (d' & Hd' & <-). congruence.
    - rewrite decide_False; [done|]. intros H2. destruct (ok_flock _ _ _ _ Hs _ _ H2) as (d' & Hd' & <-). congruence. }
  clearbody fl. destruct Hs. split; cbn; auto.
  - intros i fd'. rewrite Hfl. case_decide as H1; [done|]. intros H2. destruct (ok_flock0 i fd' H2) as (d' & Hd' & Hi).
    exists d'. rewrite lookup_delete_ne; [done|]. congruence.
  - intros q n o Ho. destruct (ok_object0 q n o Ho) as [?|(fd' & t & k & d' & H)]; [by left|]. right.
    exists fd', t, k, d'. destruct_and! H. assert (fd' <> fd) as Hne.
    { intros ->. discriminate (Honly (InObject q n)). cbn. exists o. by subst. }
    split_and!; auto; [by rewrite lookup_delete_ne|]. rewrite Hfl, decide_False; congruence.
  - intros t k a Hk Ha. destruct (ok_acquisition0 t k a Hk Ha) as (H1 & H2 & H3 & n & rest & H4 & H5). split_and!; auto. exists n, rest. split; [done|].
    assert (forall fd', phase_fd k = Some fd' -> fd' <> fd) as Hne.
    { intros fd' Hf ->. discriminate (Honly (InTask t)). cbn. eauto. }
    unfold phase_fd in Hne. rewrite Ha in Hne. destruct (at_ a) as [|fd' ?|fd']; [done|..]; destruct H5 as (d' & Hd' & H5 & H6 & H7); exists d'; cbn;
      specialize (Hne fd' eq_refl); (rewrite lookup_delete_ne by done); rewrite Hfl; (split; [done|]); (split; [done|]); (split; [done|]); case_decide; congruence.
  - assert (forall f u, uses (filter (fun x => x <> fd) loose) (set_fds (delete fd (fds s)) fl s) f u -> uses loose s f u) as Huse.
    { intros f [q n|t|]; cbn; auto. by intros [_ ?]%list_elem_of_filter. }
    intros f u u' Hu%Huse Hu'%Huse. by eapply ok_unique0.
  - intros f d'. rewrite lookup_delete_Some. intros [Hne [[q n|t|] Hu]%ok_no_leak0]; [by exists (InObject q n)|by exists (InTask t)|exists Loose].
    apply list_elem_of_filter. by split; [apply not_eq_sym|].
  - intros f [Hne (d' & Hd')%ok_loose0]%list_elem_of_filter. exists d'. by rewrite lookup_delete_ne.
  - by apply list.NoDup_filter.
  - intros f d' [Hne H]%lookup_delete_Some. by apply ok_fresh0.
  - intros f d' [Hne H]%lookup_delete_Some. by apply (ok_current0 f).
Qed.

Definition option_list (o : option nat) : list nat := match o with Some fd => [fd] | None => [] end.

Lemma option_list_elem o fd : fd ∈ option_list o <-> o = Some fd.
Proof. destruct o; cbn; [rewrite list_elem_of_singleton; split; congruence|]. split; [by intros ?%elem_of_nil|done]. Qed.

(** A task may move locks between what it holds and its debt, and descriptors between
    its acquisition and the loose ones. *)
Lemma set_task_ok t debt loose debt' loose' s k k' :
  ok t debt loose s -> tasks s !! t = Some k -> proc k' = proc k ->
  held k' ++ debt' ≡ₚ held k ++ debt ->
  option_list (phase_fd k') ++ loose' ≡ₚ option_list (phase_fd k) ++ loose ->
  (forall a, entering k' = Some a -> acquisition_ok s k' a) ->
  context_ok t (active k') (frames k') ->
  (forall c cur, Some (c, cur) ∈ active k' :: map previous (frames k') ->
     c = t \/ Some (c, cur) ∈ active k :: map previous (frames k)) ->
  ok t debt' loose' (set_task t k' s).
Proof.
  intros Hs Hk Hp Hheld Hfd Ha Hc Hkn.
  assert (forall n, (n ∈ held k' \/ n ∈ debt') <-> (n ∈ held k \/ n ∈ debt)) as Hin.
  { intros n. rewrite <- !elem_of_app. by rewrite Hheld. }
  assert (NoDup (option_list (phase_fd k') ++ loose')) as Hnd.
  { rewrite Hfd. apply list.NoDup_app. split; [destruct (phase_fd k); [apply NoDup_singleton|constructor]|]. split; [|by apply (ok_loose_dup _ _ _ _ Hs)].
    intros fd Hf%option_list_elem Hl. discriminate (ok_unique _ _ _ _ Hs fd (InTask t) Loose); cbn; eauto. }
  assert (forall fd u, uses loose' (set_task t k' s) fd u ->
    match u with InObject _ _ => uses loose s fd u
    | InTask t' => if decide (t' = t) then phase_fd k' = Some fd else uses loose s fd u
    | Loose => fd ∈ loose' end) as Huse.
  { intros fd [p n|t'|]; cbn; auto. intros (x & Hx & Hpx). case_decide as Hd; [subst; rewrite lookup_insert_eq in Hx; congruence|].
    rewrite lookup_insert_ne in Hx by done. eauto. }
  assert (forall fd, phase_fd k' = Some fd \/ fd ∈ loose' -> uses loose s fd (InTask t) \/ uses loose s fd Loose) as Hold.
  { intros fd. rewrite <- option_list_elem, <- elem_of_app, Hfd, elem_of_app, option_list_elem. cbn. intros [?|?]; eauto. }
  pose proof Hs as []. split; cbn; auto.
  - intros p n o Ho. destruct (ok_object0 p n o Ho) as [?|(fd & t' & x & d & H)]; [by left|]. right. destruct_and! H.
    destruct (decide (t' = t)) as [->|Hne].
    + exists fd, t, k', d. rewrite lookup_insert_eq. assert (x = k) as -> by congruence. split_and!; auto; [congruence|].
      assert (n ∈ held k' \/ n ∈ debt') as [?|?]; [|by left|by right]. apply Hin. tauto.
    + exists fd, t', x, d. rewrite lookup_insert_ne by done. split_and!; auto. tauto.
  - intros t' x. destruct (decide (t' = t)) as [->|Hne].
    + rewrite lookup_insert_eq. intros [= <-]. destruct (ok_held0 t k Hk) as [H1 H2].
      split; [|intros n Hn; rewrite Hp; apply H2; specialize (Hin n); tauto].
      revert H1. rewrite !decide_True by done. by rewrite Hheld.
    + rewrite lookup_insert_ne by done. intros Hx. destruct (ok_held0 t' x Hx) as [H1 H2]. rewrite decide_False in H1 by done.
      split; [done|]. intros n Hn. apply H2. tauto.
  - intros t' x a. destruct (decide (t' = t)) as [->|Hne]; [rewrite lookup_insert_eq; intros [= <-]; apply Ha|].
    rewrite lookup_insert_ne by done. intros Hx Hax. apply (ok_acquisition0 t' x a Hx Hax).
  - intros t' x. destruct (decide (t' = t)) as [->|Hne]; [by rewrite lookup_insert_eq; intros [= <-]|].
    rewrite lookup_insert_ne by done. apply ok_context0.
  - intros t' x c cur. assert (forall c, (exists y, tasks s !! c = Some y /\ proc y = proc k) -> exists y, <[t:=k']> (tasks s) !! c = Some y /\ proc y = proc k) as Hy.
    { intros c' (y & Hy & Hpy). destruct (decide (c' = t)) as [->|Hn]; [exists k'; by rewrite lookup_insert_eq|]. exists y. by rewrite lookup_insert_ne. }
    destruct (decide (t' = t)) as [->|Hne].
    + rewrite lookup_insert_eq. intros [= <-] [->|Hcur]%Hkn; rewrite Hp; apply Hy; [eauto|]. by eapply ok_known0.
    + rewrite lookup_insert_ne by done. intros Hx Hcur. destruct (ok_known0 t' x c cur Hx Hcur) as (y & H1 & H2).
      destruct (decide (c = t)) as [->|Hn]; [exists k'; rewrite lookup_insert_eq; split; congruence|]. exists y. by rewrite lookup_insert_ne.
  - intros fd u u' Hu%Huse Hu'%Huse.
    assert (forall p n, uses loose s fd (InObject p n) -> phase_fd k' = Some fd \/ fd ∈ loose' -> False) as Hx1.
    { intros p n H1 [H2|H2]%Hold; [by discriminate (ok_unique0 _ _ _ H1 H2)|by discriminate (ok_unique0 _ _ _ H1 H2)]. }
    assert (forall t', t' <> t -> uses loose s fd (InTask t') -> phase_fd k' = Some fd \/ fd ∈ loose' -> False) as Hx2.
    { intros t' Ht' H1 [H2|H2]%Hold; [by injection (ok_unique0 _ _ _ H1 H2)|by discriminate (ok_unique0 _ _ _ H1 H2)]. }
    assert (phase_fd k' = Some fd -> fd ∈ loose' -> False) as Hx3.
    { intros H1 H2. apply list.NoDup_app in Hnd as (_ & Hnd & _). by apply (Hnd fd); [apply option_list_elem|]. }
    destruct u as [p n|t1|], u' as [p' n'|t2|]; repeat case_decide; subst; try done; try (by eapply ok_unique0); exfalso; eauto.
  - intros fd d (u & Hu)%ok_no_leak0. destruct u as [p n|t'|]; [by exists (InObject p n)|..].
    + destruct (decide (t' = t)) as [->|Hne].
      * destruct Hu as (x & Hx & Hpx). assert (x = k) as -> by congruence.
        assert (fd ∈ option_list (phase_fd k') ++ loose') as [H1|H1]%elem_of_app.
        { rewrite Hfd. apply elem_of_app. left. by apply option_list_elem. }
        -- exists (InTask t). exists k'. cbn. rewrite lookup_insert_eq. split; [done|]. by apply option_list_elem.
        -- by exists Loose.
      * exists (InTask t'). cbn. by rewrite lookup_insert_ne.
    + assert (fd ∈ option_list (phase_fd k') ++ loose') as [H1|H1]%elem_of_app.
      { rewrite Hfd. apply elem_of_app. by right. }
      * exists (InTask t). exists k'. cbn. rewrite lookup_insert_eq. split; [done|]. by apply option_list_elem.
      * by exists Loose.
  - intros fd Hl. destruct (Hold fd (or_intror Hl)) as [(x & Hx & Hpx)|Hl']; [|by apply ok_loose0].
    unfold phase_fd in Hpx. destruct (entering x) as [a|] eqn:Ea; [|done]. destruct (ok_acquisition0 t x a Hx Ea) as (_ & _ & _ & n & rest & _ & H5).
    destruct (at_ a); [done|..]; injection Hpx as ->; destruct H5 as (d & Hd & _); eauto.
  - by apply list.NoDup_app in Hnd as (_ & _ & Hnd).
Qed.

(** ** Objects *)
Lemma drop_object_ok t n debt loose s k fd :
  ok t (n :: debt) loose s -> tasks s !! t = Some k -> n ∉ held k ->
  objects s !! (proc k, n) = Some {| _fd := Some fd; _owner := Some t |} ->
  ok t debt (fd :: loose) (set_object (proc k, n) unowned s).
Proof.
  intros Hs Hk Hn Ho. pose proof Hs as [].
  assert (forall u, uses loose s fd u -> u = InObject (proc k) n) as Honly.
  { intros u Hu. eapply ok_unique0; [exact Hu|]. cbn. eauto. }
  assert (forall f u, uses (fd :: loose) (set_object (proc k, n) unowned s) f u -> (f = fd /\ u = Loose) \/ (f <> fd /\ uses loose s f u)) as Huse.
  { intros f [p m|t'|]; cbn.
    - destruct (decide ((p, m) = (proc k, n))) as [[= -> ->]|Hne].
      + rewrite lookup_insert_eq. by intros (o & [= <-] & ?).
      + rewrite lookup_insert_ne by congruence. intros Hu. right. split; [|done]. intros ->. injection (Honly (InObject p m) Hu). congruence.
    - intros Hu. right. split; [|done]. intros ->. discriminate (Honly (InTask t') Hu).
    - intros [->|Hl]%elem_of_cons; [by left|]. right. split; [|done]. intros ->. discriminate (Honly Loose Hl). }
  assert (exists d, fds s !! fd = Some d) as [d Hd].
  { destruct (ok_object0 _ _ _ Ho) as [?|(fd' & t' & k' & d & H)]; [done|]. destruct_and! H. simplify_eq. eauto. }
  split; cbn; auto.
  - intros p m o. destruct (decide ((p, m) = (proc k, n))) as [[= -> ->]|Hne]; [rewrite lookup_insert_eq; intros [= <-]; by left|].
    rewrite lookup_insert_ne by congruence. intros Hom. destruct (ok_object0 p m o Hom) as [?|(fd' & t' & k' & d' & H)]; [by left|]. right.
    exists fd', t', k', d'. destruct_and! H. split_and!; auto. match goal with H : _ \/ _ |- _ => destruct H as [?|[-> [->|?]%elem_of_cons]] end; auto.
    congruence.
  - intros t' x Hx. destruct (ok_held0 t' x Hx) as [H1 H2]. case_decide as Ht.
    + subst t'. assert (x = k) as -> by congruence. rewrite <- Permutation_middle in H1. apply list.NoDup_cons in H1 as [H1 H3].
      split; [done|]. intros m Hm. assert (m <> n) as Hmn.
      { intros ->. apply H1, elem_of_app. tauto. }
      rewrite lookup_insert_ne by congruence. apply H2. destruct Hm as [?|[_ ?]]; [by left|right; split; [done|by right]].
    + split; [done|]. intros m Hm. assert (m ∈ held x) as Hm' by tauto. destruct (H2 m (or_introl Hm')) as [fd' Hfd'].
      rewrite lookup_insert_ne; [eauto|]. intros [= Hp <-]. rewrite <- Hp in Hfd'. congruence.
  - intros f u u' [[-> ->]|[Hf Hu]]%Huse [[? ->]|[Hf' Hu']]%Huse; try done. by eapply ok_unique0.
  - intros f d' Hd'. destruct (decide (f = fd)) as [->|Hf]; [exists Loose; by left|].
    destruct (ok_no_leak0 f d' Hd') as [[p m|t'|] Hu]; [exists (InObject p m)|by exists (InTask t')|exists Loose; by right]. cbn.
    destruct Hu as (o & Hom & Hfo). exists o. split; [|done]. rewrite lookup_insert_ne; [done|]. intros [= <- <-].
    rewrite Ho in Hom. injection Hom as <-. cbn in Hfo. congruence.
  - intros f [->|Hf]%elem_of_cons; eauto.
  - constructor; [|done]. intros Hl. discriminate (Honly Loose Hl).
Qed.

Lemma take_object_ok t n debt loose s k fd d :
  ok t debt loose s -> tasks s !! t = Some k -> n ∉ held k ++ debt -> fd ∈ loose ->
  fds s !! fd = Some d -> d_proc d = proc k -> d_path d = leaf n -> flocks s !! d_inode d = Some fd ->
  ok t (n :: debt) (filter (fun x => x <> fd) loose) (set_object (proc k, n) {| _fd := Some fd; _owner := Some t |} s).
Proof.
  intros Hs Hk Hn Hl Hd Hp Hpath Hlock. pose proof Hs as [].
  assert (forall u, uses loose s fd u -> u = Loose) as Honly by (intros u Hu; by apply (ok_unique0 fd u Loose)).
  assert (forall o, objects s !! (proc k, n) = Some o -> o = unowned) as Hfree.
  { intros o Ho. destruct (ok_object0 _ _ _ Ho) as [?|(fd' & t' & k' & d' & H)]; [done|]. destruct_and! H. exfalso.
    assert (d_inode d' = d_inode d) as Hi.
    { assert (files s !! leaf n = Some (d_inode d)) as Hf1 by (rewrite <- Hpath; by apply (ok_current0 fd)).
      assert (files s !! leaf n = Some (d_inode d')) as Hf2 by (match goal with H : d_path d' = _ |- _ => rewrite <- H end; by apply (ok_current0 fd')). congruence. }
    assert (fd' = fd) as -> by congruence. discriminate (Honly (InObject (proc k) n)). cbn. exists o. by subst. }
  set (o' := {| _fd := Some fd; _owner := Some t |}).
  assert (forall f u, uses (filter (fun x => x <> fd) loose) (set_object (proc k, n) o' s) f u ->
    (f = fd /\ u = InObject (proc k) n) \/ (f <> fd /\ uses loose s f u)) as Huse.
  { intros f [p m|t'|]; cbn.
    - destruct (decide ((p, m) = (proc k, n))) as [[= -> ->]|Hne].
      + rewrite lookup_insert_eq. intros (o & [= <-] & [= <-]). by left.
      + rewrite lookup_insert_ne by congruence. intros Hu. right. split; [|done]. intros ->. discriminate (Honly (InObject p m) Hu).
    - intros Hu. right. split; [|done]. intros ->. discriminate (Honly (InTask t') Hu).
    - intros [Hf ?]%list_elem_of_filter. by right. }
  split; cbn; auto.
  - intros p m o. destruct (decide ((p, m) = (proc k, n))) as [[= -> ->]|Hne].
    + rewrite lookup_insert_eq. intros [= <-]. right. exists fd, t, k, d. split_and!; auto. right. split; [done|by left].
    + rewrite lookup_insert_ne by congruence. intros Hom. destruct (ok_object0 p m o Hom) as [?|(fd' & t' & k' & d' & H)]; [by left|]. right.
      exists fd', t', k', d'. destruct_and! H. split_and!; auto. match goal with H : _ \/ _ |- _ => destruct H as [?|[-> ?]] end; [by left|].
      right. split; [done|by right].
  - intros t' x Hx. destruct (ok_held0 t' x Hx) as [H1 H2]. case_decide as Ht.
    + subst t'. assert (x = k) as -> by congruence. rewrite <- Permutation_middle. split; [by constructor|].
      intros m Hm. destruct (decide (m = n)) as [->|Hmn]; [exists fd; by rewrite lookup_insert_eq|].
      rewrite lookup_insert_ne by congruence. apply H2. destruct Hm as [?|[_ [?|?]%elem_of_cons]]; [by left|done|by right].
    + split; [done|]. intros m Hm. assert (m ∈ held x) as Hm' by tauto. destruct (H2 m (or_introl Hm')) as [fd' Hfd'].
      rewrite lookup_insert_ne; [eauto|]. intros [= Hpx <-]. rewrite <- Hpx in Hfd'. by apply Hfree in Hfd'.
  - intros f u u' [[-> ->]|[Hf Hu]]%Huse [[? ->]|[Hf' Hu']]%Huse; try done. by eapply ok_unique0.
  - intros f d' Hd'. destruct (decide (f = fd)) as [->|Hf]; [exists (InObject (proc k) n); exists o'; cbn; by rewrite lookup_insert_eq|].
    destruct (ok_no_leak0 f d' Hd') as [[p m|t'|] Hu]; [exists (InObject p m)|by exists (InTask t')|exists Loose; by apply list_elem_of_filter]. cbn.
    destruct Hu as (o & Hom & Hfo). exists o. split; [|done]. rewrite lookup_insert_ne; [done|]. intros [= <- <-].
    apply Hfree in Hom. by subst.
  - intros f [_ Hf]%list_elem_of_filter. eauto.
  - by apply list.NoDup_filter.
Qed.

(** [flock] on a loose descriptor. *)
Lemma flock_ok t debt loose s fd s' : ok t debt loose s -> fd ∈ loose -> flock fd s = Some s' ->
  ok t debt loose s' /\ tasks s' = tasks s /\ objects s' = objects s /\ fds s' = fds s
  /\ forall d, fds s !! fd = Some d -> flocks s' !! d_inode d = Some fd.
Proof.
  intros Hs Hl. unfold flock. destruct (fds s !! fd) as [d|] eqn:Ed; [|done]. cbn.
  destruct (flocks s !! d_inode d) as [fd'|] eqn:El.
  { case_bool_decide; [|done]. intros [= <-]. split_and!; auto. intros d' [= <-]. by subst. }
  intros [= <-]. split; [|split_and!; auto; cbn; intros d' [= <-]; by rewrite lookup_insert_eq].
  pose proof Hs as [].
  assert (forall u, uses loose s fd u -> u = Loose) as Honly by (intros u Hu; by apply (ok_unique0 fd u Loose)).
  assert (forall i f, flocks s !! i = Some f -> i <> d_inode d) as Hne by (intros i f Hi ->; congruence).
  split; cbn; auto.
  - intros i f. destruct (decide (i = d_inode d)) as [->|Hi]; [rewrite lookup_insert_eq; intros [= <-]; eauto|].
    rewrite lookup_insert_ne by done. apply ok_flock0.
  - intros p n o Ho. destruct (ok_object0 p n o Ho) as [?|(f & t' & k & d' & H)]; [by left|]. right.
    exists f, t', k, d'. destruct_and! H. split_and!; auto. rewrite lookup_insert_ne; [done|]. apply not_eq_sym. by eapply Hne.
  - intros t' k a Hk Ha. destruct (ok_acquisition0 t' k a Hk Ha) as (H1 & H2 & H3 & n & rest & H4 & H5). split_and!; auto. exists n, rest. split; [done|].
    assert (forall f, phase_fd k = Some f -> f <> fd) as Hph.
    { intros f Hf ->. discriminate (Honly (InTask t')). cbn. eauto. }
    unfold phase_fd in Hph. rewrite Ha in Hph. destruct (at_ a) as [|f ?|f]; [done|..]; destruct H5 as (d' & Hd' & H5 & H6 & H7); exists d'; cbn; split_and!; auto.
    + destruct (decide (d_inode d' = d_inode d)) as [->|Hi]; [rewrite lookup_insert_eq; specialize (Hph f eq_refl); congruence|]. by rewrite lookup_insert_ne.
    + rewrite lookup_insert_ne; [done|]. apply not_eq_sym. by eapply Hne.
Qed.

(** ** The steps *)
Lemma release_ok t n debt loose s k : ok t (n :: debt) loose s -> tasks s !! t = Some k ->
  exists s', release t n s = Some s' /\ ok t debt loose s' /\ tasks s' = tasks s.
Proof.
  intros Hs Hk. destruct (ok_held _ _ _ _ Hs t k Hk) as [Hnd Ho]. rewrite decide_True in Hnd by done.
  destruct (Ho n) as [fd Hfd]; [right; split; [done|by left]|].
  assert (n ∉ held k) as Hn.
  { intros Hn. apply list.NoDup_app in Hnd as (_ & Hnd & _). apply (Hnd n Hn). by left. }
  unfold release, owned_by_task, object. rewrite Hk. cbn. rewrite Hfd. cbn. rewrite bool_decide_true by done.
  eexists. split; [done|].
  pose proof (drop_object_ok t n debt loose s k fd Hs Hk Hn Hfd) as H1.
  assert (set_object (proc k, n) unowned (close fd s) = close fd (set_object (proc k, n) unowned s)) as ->.
  { unfold close. cbn. by destruct (fds s !! fd). }
  destruct (close_ok _ _ _ _ fd H1) as (H2 & _ & Ht & _); [by left|]. split; [|by rewrite Ht].
  assert (filter (fun x => x <> fd) (fd :: loose) = loose) as <-; [|done].
  pose proof (ok_loose_dup _ _ _ _ H1) as [Hf _]%list.NoDup_cons. rewrite filter_cons_False by tauto.
  clear -Hf. induction loose as [|x l IH]; [done|]. apply not_elem_of_cons in Hf as [H1 H2].
  rewrite filter_cons_True by congruence. by rewrite IH.
Qed.

Lemma release_all_ok t l loose s k : ok t l loose s -> tasks s !! t = Some k ->
  ok t [] loose (release_all t l s) /\ tasks (release_all t l s) = tasks s.
Proof.
  revert s. induction l as [|n l IH]; intros s Hs Hk; [done|]. cbn.
  destruct (release_ok _ _ _ _ _ _ Hs Hk) as (s' & -> & Hs' & Ht). rewrite <- Ht in Hk |- *. by apply IH.
Qed.

Lemma close_set_task fd t k s : close fd (set_task t k s) = set_task t k (close fd s).
Proof. unfold close. cbn. by destruct (fds s !! fd). Qed.

Lemma release_set_task t l k k' s : tasks s !! t = Some k -> proc k' = proc k ->
  release_all t l (set_task t k' s) = set_task t k' (release_all t l s).
Proof.
  revert s. induction l as [|n l IH]; intros s Hk Hp; [done|]. cbn.
  unfold release, owned_by_task, object. cbn. rewrite Hk, lookup_insert_eq. cbn. rewrite Hp.
  destruct (_ && _); [|done]. rewrite <- IH; [|cbn; destruct (_fd _); [unfold close; cbn; by destruct (fds s !! _)|done]|done].
  f_equal. destruct (_fd _); [|done]. by rewrite close_set_task.
Qed.

Lemma abandoned_ok t s k a : ok t [] [] s -> tasks s !! t = Some k -> entering k = Some a -> ok t [] [] (abandon t k a s).
Proof.
  intros Hs Hk Ha. destruct (ok_acquisition _ _ _ _ Hs t k a Hk Ha) as (Hf & _).
  assert (ok t (rev (acquired a)) (option_list (phase_fd k)) (set_task t (with_entering None k) s)) as H1.
  { eapply set_task_ok; [exact Hs|exact Hk|done|..].
    - unfold held. cbn. rewrite Hf, Ha. cbn. by rewrite app_nil_r, <- Permutation_rev.
    - cbn. by rewrite app_nil_r.
    - done.
    - exact (ok_context _ _ _ _ Hs t k Hk).
    - cbn. auto. }
  unfold abandon. rewrite <- (release_set_task t _ k _ _); [..|done].
  2: { destruct (at_ a); [done|..]; unfold close; by destruct (fds s !! _). }
  assert (tasks (set_task t (with_entering None k) s) !! t = Some (with_entering None k)) as Hk' by (cbn; by rewrite lookup_insert_eq).
  unfold phase_fd in H1. rewrite Ha in H1.
  destruct (at_ a) as [|fd ?|fd]; [by eapply release_all_ok|..]; cbn [option_list] in H1; rewrite <- close_set_task;
    (destruct (close_ok _ _ _ _ fd H1) as (H2 & _ & Ht & _); [by left|]);
    rewrite filter_cons_False in H2 by tauto; eapply release_all_ok; (exact H2 || by rewrite Ht).
Qed.

Lemma detach t s k a fd : ok t [] [] s -> tasks s !! t = Some k -> entering k = Some a -> phase_fd k = Some fd ->
  ok t [] [fd] (set_task t (with_entering (Some (go a Opening)) k) s).
Proof.
  intros Hs Hk Ha Hfd. destruct (ok_acquisition _ _ _ _ Hs t k a Hk Ha) as (Hf & H1 & H2 & n & rest & H3 & _).
  eapply set_task_ok; [exact Hs|exact Hk|done|..].
  - unfold held. cbn. by rewrite Hf, Ha.
  - cbn. by rewrite Hfd.
  - intros a' [= <-]. split_and!; auto. by exists n, rest.
  - exact (ok_context _ _ _ _ Hs t k Hk).
  - cbn. auto.
Qed.

(** A loose descriptor becomes the one of the acquisition. *)
Lemma attach t s k a fd p : ok t [] [fd] s -> tasks s !! t = Some (with_entering (Some (go a Opening)) k) ->
  phase_fd (with_entering (Some (go a p)) k) = Some fd ->
  (forall d n rest, waiting a = n :: rest -> fds s !! fd = Some d -> d_proc d = proc k /\ d_path d = leaf n
     /\ match p with Opening => True | Trying _ _ => flocks s !! d_inode d <> Some fd | Locked _ => flocks s !! d_inode d = Some fd end) ->
  ok t [] [] (set_task t (with_entering (Some (go a p)) k) s).
Proof.
  intros Hs Hk Hfd Hd. destruct (ok_acquisition _ _ _ _ Hs t _ _ Hk eq_refl) as (Hf & H1 & H2 & n & rest & H3 & _). cbn in Hf, H1, H2, H3.
  eapply set_task_ok; [exact Hs|exact Hk|done|done|..].
  - by rewrite Hfd.
  - intros a' [= <-]. split_and!; auto. exists n, rest. split; [done|]. cbn.
    destruct (ok_loose _ _ _ _ Hs fd) as [d Hfdd]; [by left|]. specialize (Hd d n rest H3 Hfdd).
    unfold phase_fd in Hfd. cbn in Hfd. destruct p; [done|..]; injection Hfd as ->; exists d; tauto.
  - exact (ok_context _ _ _ _ Hs t _ Hk).
  - cbn. auto.
Qed.

Lemma same_namespace_ok t0 s p fd path same s' : ok t0 [] [] s -> _same_namespace p fd path s = (same, s') ->
  ok t0 [] [] s' /\ tasks s' = tasks s /\ objects s' = objects s
  /\ forall d, fds s !! fd = Some d -> fds s' !! fd = Some d /\ flocks s' !! d_inode d = flocks s !! d_inode d.
Proof.
  intros Hs. unfold _same_namespace. destruct (_open p path s) as [check s1] eqn:Eo. intros [= _ <-].
  assert (check = fresh (create path s)) as Hcheck by (by injection Eo as <- _).
  destruct (open_ok _ _ _ _ _ _ _ _ Hs Eo) as (H1 & Ht & Hob & Hfl & d & Hd & _ & _ & Hnl).
  destruct (close_ok _ _ _ _ check H1) as (H2 & _ & Ht' & Hob'); [by left|]. rewrite filter_cons_False in H2 by tauto.
  split; [done|]. split; [congruence|]. split; [congruence|]. intros d' Hd'.
  assert (fd <> check) as Hne.
  { destruct (create_ok _ _ _ _ path Hs) as [Hc _]. intros ->. subst check.
    assert (fds (create path s) = fds s) as Ef by (unfold create; by destruct (files s !! path)). rewrite <- Ef in Hd'.
    destruct (ok_fresh _ _ _ _ Hc _ _ Hd'). lia. }
  assert (fds s1 !! fd = Some d') as Hd1.
  { injection Eo as _ <-. cbn. rewrite <- Hcheck, lookup_insert_ne by done. unfold create. by destruct (files s !! path). }
  unfold close. rewrite Hd. cbn. rewrite lookup_delete_ne by done. split; [done|].
  rewrite bool_decide_false by apply Hnl. by rewrite Hfl.
Qed.

Lemma str_lt_trans a b c : str_lt a b -> str_lt b c -> str_lt a c.
Proof.
  unfold str_lt. rewrite !(String_as_OT.cmp_lt : forall a b, String.compare a b = Lt <-> _). apply String_as_OT.lt_trans.
Qed.
Lemma str_lt_irrefl a : ~ str_lt a a.
Proof. unfold str_lt. intros H. pose proof (String.compare_antisym a a) as H'. rewrite H in H'. discriminate. Qed.
Lemma str_le_lt a b : Group.str_le a b = true -> a <> b -> str_lt a b.
Proof. unfold Group.str_le, str_lt. destruct (String.compare a b) eqn:E; [by apply String.compare_eq_iff in E|done|done]. Qed.
Lemma str_not_le a b : Group.str_le a b = false -> str_lt b a.
Proof. unfold Group.str_le, str_lt. rewrite String.compare_antisym. by destruct (String.compare b a). Qed.

Lemma insert_sorted_strict x l : StronglySorted str_lt l -> x ∉ l -> StronglySorted str_lt (Group.insert_sorted x l).
Proof.
  induction 1 as [|y l Hl IH Hy]; intros Hx; [by repeat constructor|]. apply not_elem_of_cons in Hx as [Hxy Hx]. cbn.
  destruct (Group.str_le x y) eqn:E.
  - apply (str_le_lt x y) in E; [|done]. constructor; [by constructor|]. constructor; [done|].
    eapply list.Forall_impl; [exact Hy|]. intros z. by apply str_lt_trans.
  - constructor; [by apply IH|]. apply list.Forall_forall. intros z [->|Hz]%Group.insert_sorted_elem; [by apply str_not_le|].
    rewrite list.Forall_forall in Hy. by apply Hy.
Qed.

Lemma sorted_strict l : NoDup l -> StronglySorted str_lt (Group.sorted l).
Proof.
  induction 1 as [|x l Hx _ IH]; cbn; [constructor|]. apply insert_sorted_strict; [done|]. by rewrite Group.sorted_elem.
Qed.

Lemma strict_NoDup l : StronglySorted str_lt l -> NoDup l.
Proof.
  induction 1 as [|x l _ IH Hx]; constructor; [|done]. intros Hin. rewrite list.Forall_forall in Hx. by apply (str_lt_irrefl x), Hx.
Qed.

Lemma strict_app l n l' x : StronglySorted str_lt (l ++ n :: l') -> x ∈ l -> str_lt x n.
Proof.
  induction l as [|y l IH]; [by intros _ ?%elem_of_nil|]. cbn. intros [Hs Hy]%StronglySorted_inv [->|Hx]%elem_of_cons; [|by apply IH].
  rewrite List.Forall_forall in Hy. apply Hy, list_elem_of_In, elem_of_app. right. by left.
Qed.

Lemma owned_by_task_spec t n s : owned_by_task t n s = true <->
  exists k fd, tasks s !! t = Some k /\ objects s !! (proc k, n) = Some {| _fd := Some fd; _owner := Some t |}.
Proof.
  unfold owned_by_task, object. split.
  - destruct (tasks s !! t) as [k|] eqn:Hk; [|done]. destruct (objects s !! _) as [[[fd|] o]|] eqn:Ho; cbn; try done.
    intros ->%bool_decide_eq_true. eauto.
  - intros (k & fd & -> & ->). cbn. by apply bool_decide_eq_true.
Qed.

Lemma owned_held t0 s t k n : ok t0 [] [] s -> tasks s !! t = Some k -> (owned_by_task t n s = true <-> n ∈ held k).
Proof.
  intros Hs Hk. rewrite owned_by_task_spec. split.
  - intros (k' & fd & Hk' & Ho). assert (k' = k) as -> by congruence.
    destruct (ok_object _ _ _ _ Hs _ _ _ Ho) as [?|(fd' & t' & k' & d & H)]; [done|]. destruct_and! H. simplify_eq.
    match goal with H : _ \/ _ |- _ => destruct H as [?|[_ ?%elem_of_nil]] end; [|done]. congruence.
  - intros Hn. destruct (ok_held _ _ _ _ Hs t k Hk) as [_ H]. destruct (H n (or_introl Hn)) as [fd Hfd]. eauto.
Qed.

Lemma spawn_ok t0 s t p parent : ok t0 [] [] s -> ok t0 [] [] (step s (Spawn t p parent)).
Proof.
  intros Hs. cbn. destruct (tasks s !! t) as [k|] eqn:Hk; [done|]. cbn.
  set (c := match parent with Some q => _ | None => None end).
  assert (forall t' cur, c = Some (t', cur) -> t' <> t /\ exists k', tasks s !! t' = Some k' /\ proc k' = p) as Hc.
  { unfold c. intros t' cur. destruct parent as [q|]; [|done]. destruct (tasks s !! q) as [x|] eqn:Hq; [|done]. case_bool_decide; [|done].
    intros Hx. destruct (ok_known _ _ _ _ Hs q x t' cur Hq) as (k' & Hk' & Hp); [rewrite Hx; by left|]. split; [congruence|].
    exists k'. split; congruence. }
  clearbody c. destruct Hs. set (k0 := {| proc := p; active := c; frames := []; entering := None |}).
  assert (forall t' x, <[t:=k0]> (tasks s) !! t' = Some x -> t' = t /\ x = k0 \/ t' <> t /\ tasks s !! t' = Some x) as Hl.
  { intros t' x. destruct (decide (t' = t)) as [->|Hn]; [rewrite lookup_insert_eq; intros [= <-]; by left|]. rewrite lookup_insert_ne by done. by right. }
  split; cbn; auto.
  - intros q n o Ho. destruct (ok_object0 q n o Ho) as [?|(fd & t' & x & d & H)]; [by left|]. right. destruct_and! H.
    exists fd, t', x, d. rewrite lookup_insert_ne by congruence. auto 10.
  - intros t' x [[-> ->]|[Hn Hx]]%Hl; [|by apply ok_held0]. split; [cbn; by case_decide; constructor|].
    intros n [?%elem_of_nil|[_ ?%elem_of_nil]]; done.
  - intros t' x a [[-> ->]|[Hn Hx]]%Hl; [done|]. exact (ok_acquisition0 t' x a Hx).
  - intros t' x [[-> ->]|[Hn Hx]]%Hl; [|by apply ok_context0]. cbn. destruct c as [[t' cur]|]; [|done]. by destruct (Hc t' cur eq_refl).
  - intros t' x c' cur Hx Hin. apply Hl in Hx as [[-> ->]|[Hn Hx]]; cbn in Hin.
    + apply list_elem_of_singleton in Hin. destruct (Hc c' cur (eq_sym Hin)) as (Hne & k' & Hk' & Hp). exists k'. by rewrite lookup_insert_ne.
    + destruct (ok_known0 t' x c' cur Hx Hin) as (k' & Hk' & Hp). exists k'. rewrite lookup_insert_ne by congruence. done.
  - assert (forall fd u, uses [] (set_task t k0 s) fd u -> uses [] s fd u) as Huse.
    { intros fd [q n|t'|]; cbn; auto. intros (x & [[-> ->]|[Hn Hx]]%Hl & Hp); [done|eauto]. }
    intros fd u u' Hu%Huse Hu'%Huse. by eapply ok_unique0.
  - intros fd d Hd. destruct (ok_no_leak0 fd d Hd) as [[q n|t'|] Hu]; [by exists (InObject q n)| |by exists Loose].
    exists (InTask t'). destruct Hu as (x & Hx & Hp). exists x. cbn. rewrite lookup_insert_ne by congruence. done.
Qed.

Lemma context_parts t s k : ok t [] [] s -> tasks s !! t = Some k ->
  match frames k with
  | [] => own_context t k = None
  | _ => exists cur, own_context t k = Some cur /\ active k = Some (t, cur) /\ forall n, n ∈ cur -> n ∈ List.concat (map taken (frames k))
  end.
Proof.
  intros Hs Hk. pose proof (ok_context _ _ _ _ Hs t k Hk) as Hc. unfold own_context. destruct (frames k) as [|f fs]; cbn in Hc.
  - destruct (active k) as [[t' cur]|]; [|done]. by rewrite bool_decide_false.
  - destruct Hc as (cur & -> & Hin & _). rewrite bool_decide_true by done. by exists cur.
Qed.

Lemma enter_ok s t values : ok t [] [] s -> ok t [] [] (step s (Enter t values)).
Proof.
  intros Hs. cbn. destruct (tasks s !! t) as [k|] eqn:Hk; [|done]. destruct (entering k) as [a|] eqn:Ea; [done|]. cbn.
  unfold device_transaction. set (ids := Group.sorted _).
  destruct (bool_decide (ids = [])) eqn:Eids; [done|]. destruct (forallb valid_identity ids); [|done]. cbn.
  pose proof (context_parts t s k Hs Hk) as Hctx. pose proof (ok_context _ _ _ _ Hs t k Hk) as Hok.
  assert (held k = List.concat (map taken (frames k))) as Hheld by (unfold held; by rewrite Ea, app_nil_r).
  assert (StronglySorted str_lt ids) as Hsorted by (apply sorted_strict, NoDup_remove_dups).
  destruct (match own_context t k with Some cur => _ | None => false end) eqn:Esub; [done|].
  destruct ids as [|n ids]; [done|]. cbn [map existsb forallb]. set (all := n :: ids) in *.
  destruct (frames k) as [|f fs] eqn:Ef.
  - assert (forall m, owned_by_task t m s = false) as Hno.
    { intros m. apply not_true_iff_false. rewrite (owned_held t s t k m Hs Hk), Hheld. by intros ?%elem_of_nil. }
    replace (existsb id (map (fun m => owned_by_task t m s) ids)) with false.
    2: { clear -Hno. induction ids as [|m l IH]; [done|]. cbn. by rewrite Hno. }
    rewrite Hno. cbn. eapply set_task_ok; [exact Hs|exact Hk|done|..].
    + unfold held. cbn. by rewrite Ef, Ea.
    + unfold phase_fd. cbn. by rewrite Ea.
    + intros a [= <-]. split_and!; auto. by exists n, ids.
    + cbn. by rewrite Ef.
    + cbn. auto.
  - destruct Hctx as (cur & Hown & Hact & Hcur). rewrite Hown in Esub. apply negb_false_iff in Esub.
    assert (forall m, m ∈ all -> m ∈ cur) as Hall.
    { intros m Hm. apply forallb_Forall in Esub. rewrite list.Forall_forall in Esub. apply Esub in Hm. by apply bool_decide_eq_true in Hm. }
    assert (forall m, m ∈ all -> owned_by_task t m s = true) as Hyes.
    { intros m Hm. apply (owned_held t s t k m Hs Hk). rewrite Hheld. by apply Hcur, Hall. }
    rewrite (Hyes n) by by left. cbn.
    replace (forallb id (map (fun m => owned_by_task t m s) ids)) with true.
    2: { symmetry. apply forallb_Forall, list.Forall_fmap, list.Forall_forall. intros m Hm. apply Hyes. by right. }
    eapply set_task_ok; [exact Hs|exact Hk|done|..].
    + unfold held. cbn. by rewrite Ef, Ea.
    + unfold phase_fd. cbn. by rewrite Ea.
    + done.
    + cbn [enter_frame active frames context_ok]. rewrite Hown, Ef. cbn [default]. by exists cur.
    + cbn. rewrite Ef. cbn. intros c cur' [Hc|Hc]%elem_of_cons; [left; by injection Hc|by right].
Qed.

Lemma with_acquisition_ok t s f : ok t [] [] s ->
  (forall k a n rest, tasks s !! t = Some k -> entering k = Some a -> waiting a = n :: rest -> ok t [] [] (f k a n rest)) ->
  ok t [] [] (with_acquisition t s f).
Proof.
  intros Hs Hf. unfold with_acquisition. destruct (tasks s !! t) as [k|] eqn:Hk; [|done].
  destruct (entering k) as [a|] eqn:Ha; [|done]. destruct (waiting a) as [|n rest] eqn:Hw; [done|]. by apply Hf.
Qed.

Lemma open_step_ok s t ok_ now : ok t [] [] s -> ok t [] [] (step s (Open t ok_ now)).
Proof.
  intros Hs. cbn. apply with_acquisition_ok; [done|]. intros k a n rest Hk Ha Hw. destruct (at_ a) eqn:Eat; [|done..].
  destruct (_ || _); [by apply abandoned_ok|]. destruct (_open (proc k) (leaf n) s) as [fd s'] eqn:Eo.
  destruct (open_ok _ _ _ _ _ _ _ _ Hs Eo) as (H1 & Ht & _ & _ & d & Hd & Hp & Hl & Hnl).
  assert (with_entering (Some (go a Opening)) k = k) as Ek by (destruct k, a; cbn in *; by subst).
  eapply attach; [exact H1|by rewrite Ht, Ek|done|]. intros d' n' rest' Hw' Hd'. assert (n' = n) as -> by congruence. simplify_eq. auto.
Qed.

Lemma try_step_ok s t now : ok t [] [] s -> ok t [] [] (step s (Try t now)).
Proof.
  intros Hs. cbn. apply with_acquisition_ok; [done|]. intros k a n rest Hk Ha Hw. destruct (at_ a) as [|fd deadline|] eqn:Eat; [done| |done].
  destruct (flock fd s) as [s'|] eqn:Efl; [|case_match; [by apply abandoned_ok|done]].
  assert (phase_fd k = Some fd) as Hfd by (unfold phase_fd; by rewrite Ha, Eat).
  pose proof (detach t s k a fd Hs Hk Ha Hfd) as H1. set (k0 := with_entering (Some (go a Opening)) k) in *.
  assert (flock fd (set_task t k0 s) = Some (set_task t k0 s')) as Efl'.
  { revert Efl. unfold flock. cbn. destruct (fds s !! fd); [|done]. cbn. destruct (flocks s !! _); [|by intros [= <-]].
    case_bool_decide; [|done]. by intros [= <-]. }
  destruct (flock_ok _ _ _ _ fd _ H1 ltac:(by left) Efl') as (H2 & Ht & _ & Hfds & Hlock).
  change (set_task t (with_entering (Some (go a (Locked fd))) k) s') with
    (set_task t (with_entering (Some (go a (Locked fd))) k) s').
  assert (forall k', set_task t k' (set_task t k0 s') = set_task t k' s') as Eset.
  { intros k'. unfold set_task. cbn. by rewrite insert_insert_eq. }
  rewrite <- Eset. eapply attach; [exact H2|cbn; by rewrite lookup_insert_eq|done|].
  destruct (ok_acquisition _ _ _ _ Hs t k a Hk Ha) as (_ & _ & _ & n1 & rest1 & Hw1 & H5). rewrite Eat in H5. destruct H5 as (d & Hd & Hp & Hl & _).
  intros d' n' rest' Hw' Hd'. change (fds (set_task t k0 s') !! fd = Some d') in Hd'. rewrite Hfds in Hd'. cbn in Hd'. assert (n' = n1) as -> by congruence. simplify_eq.
  split; [done|]. split; [done|]. by apply (Hlock d).
Qed.

Lemma cancel_step_ok s t : ok t [] [] s -> ok t [] [] (step s (Cancel t)).
Proof.
  intros Hs. cbn. apply with_acquisition_ok; [done|]. intros k a n rest Hk Ha Hw. destruct (at_ a); [done| |done]. by apply abandoned_ok.
Qed.

Lemma confirm_step_ok s t ok_ : ok t [] [] s -> ok t [] [] (step s (Confirm t ok_)).
Proof.
  intros Hs. cbn. apply with_acquisition_ok; [done|]. intros k a n rest Hk Ha Hw. destruct (at_ a) as [| |fd] eqn:Eat; [done..|].
  destruct (negb ok_); [by apply abandoned_ok|]. destruct (_same_namespace (proc k) fd (leaf n) s) as [same s'] eqn:Es.
  destruct (same_namespace_ok _ _ _ _ _ _ _ Hs Es) as (H1 & Ht & Ho & Hfds). rewrite <- Ht in Hk.
  destruct same; [|by apply abandoned_ok].
  destruct (ok_acquisition _ _ _ _ H1 t k a Hk Ha) as (Hf & Htg & Hsort & n1 & rest1 & Hw1 & H5). rewrite Eat in H5.
  destruct H5 as (d & Hd & Hp & Hl & Hlock). assert (n1 = n /\ rest1 = rest) as [-> ->] by (split; congruence). clear Hw1.
  assert (phase_fd k = Some fd) as Hfd by (unfold phase_fd; by rewrite Ha, Eat).
  assert (held k = acquired a) as Hheld by (unfold held; by rewrite Hf, Ha).
  pose proof (detach t s' k a fd H1 Hk Ha Hfd) as H2. set (k0 := with_entering (Some (go a Opening)) k) in *.
  assert (held k0 = acquired a) as Hheld0 by (unfold held, k0; cbn; by rewrite Hf).
  assert (n ∉ acquired a) as Hn.
  { intros Hin. rewrite Htg, Hw in Hsort. by apply (str_lt_irrefl n), (strict_app (acquired a) n rest). }
  assert (tasks (set_task t k0 s') !! t = Some k0) as Hk0 by (cbn; by rewrite lookup_insert_eq).
  pose proof (take_object_ok t n [] [fd] _ k0 fd d H2 Hk0) as H3. rewrite Hheld0, app_nil_r in H3.
  specialize (H3 Hn ltac:(by left) Hd Hp Hl Hlock). rewrite filter_cons_False in H3 by tauto.
  unfold take_lock. set (k' := match rest with [] => _ | _ => _ end).
  assert (set_task t k' (set_object (proc k, n) {| _fd := Some fd; _owner := Some t |} s')
    = set_task t k' (set_object (proc k0, n) {| _fd := Some fd; _owner := Some t |} (set_task t k0 s'))) as ->.
  { unfold set_task, set_object. cbn. by rewrite insert_insert_eq. }
  assert (held k' ++ [] ≡ₚ held k0 ++ [n]) as Hperm.
  { rewrite Hheld0, app_nil_r. unfold held, k'. destruct rest; cbn; rewrite Hf; [|done]. cbn. by rewrite !app_nil_r. }
  pose proof (ok_context _ _ _ _ H1 t k Hk) as Hctx. rewrite Hf in Hctx.
  eapply set_task_ok; [exact H3|exact Hk0|by unfold k'; destruct rest|exact Hperm|by unfold k'; destruct rest|..].
  - intros b Hb. unfold k' in Hb |- *. destruct rest as [|m rest]; [done|]. cbn in Hb. injection Hb as <-.
    split_and!; cbn; [done| |done|by exists m, rest]. by rewrite Htg, Hw, <- app_assoc.
  - unfold k'. destruct rest as [|m rest]; cbn; rewrite Hf; [|done].
    assert (own_context t k = None) as ->.
    { pose proof (context_parts t s' k H1 Hk) as Hc. by rewrite Hf in Hc. }
    cbn. exists (targets a). split_and!; auto. intros m Hm. rewrite Htg, Hw in Hm. by rewrite app_nil_r.
  - unfold k'. destruct rest as [|m rest]; cbn; rewrite Hf; cbn; [|auto]. intros c cur [Hc|Hc]%elem_of_cons; [left; by injection Hc|by right].
Qed.

Lemma leave_step_ok s t : ok t [] [] s -> ok t [] [] (step s (Leave t)).
Proof.
  intros Hs. cbn. destruct (tasks s !! t) as [k|] eqn:Hk; [|done]. destruct (frames k) as [|f fs] eqn:Ef; [done|].
  destruct (entering k) eqn:Ea; [done|]. set (k' := {| proc := proc k; active := previous f; frames := fs; entering := None |}).
  assert (ok t (rev (taken f)) [] (set_task t k' s)) as H1.
  { pose proof (ok_context _ _ _ _ Hs t k Hk) as Hc. rewrite Ef in Hc. destruct Hc as (cur & _ & _ & _ & Hc).
    eapply set_task_ok; [exact Hs|exact Hk|done|..].
    - unfold held. rewrite Ef, Ea. cbn. rewrite !app_nil_r, <- Permutation_rev. apply Permutation_app_comm.
    - unfold phase_fd. by rewrite Ea.
    - done.
    - exact Hc.
    - cbn. rewrite Ef. intros c cur' Hin. right. right. exact Hin. }
  eapply release_all_ok; [exact H1|]. cbn. by rewrite lookup_insert_eq.
Qed.

Lemma peek_step_ok t0 s p n ok_ : ok t0 [] [] s -> ok t0 [] [] (step s (Peek p n ok_)).
Proof.
  intros Hs. cbn. unfold locked. destruct (is_some _); [done|]. destruct (negb ok_); [done|].
  destruct (_open p (leaf n) s) as [fd s1] eqn:Eo. destruct (open_ok _ _ _ _ _ _ _ _ Hs Eo) as (H1 & _).
  destruct (flock fd s1) as [s2|] eqn:Efl; cbn.
  2: { destruct (close_ok _ _ _ _ fd H1) as (H2 & _); [by left|]. by rewrite filter_cons_False in H2 by tauto. }
  destruct (flock_ok t0 _ _ _ fd _ H1 ltac:(by left) Efl) as (H2 & _).
  unfold _same_namespace. destruct (_open p (leaf n) s2) as [check s3] eqn:Eo2.
  destruct (open_ok _ _ _ _ _ _ _ _ H2 Eo2) as (H3 & _). cbn.
  pose proof (ok_loose_dup _ _ _ _ H3) as Hdup. apply list.NoDup_cons in Hdup as [Hne _].
  assert (check <> fd) as Hn by (intros ->; apply Hne; by left).
  destruct (close_ok _ _ _ _ check H3) as (H4 & _); [by left|]. rewrite filter_cons_False in H4 by tauto.
  rewrite filter_cons_True in H4 by done. rewrite filter_nil in H4.
  destruct (close_ok _ _ _ _ fd H4) as (H5 & _); [by left|]. by rewrite filter_cons_False in H5 by tauto.
Qed.

Lemma crash_step_ok t0 s p : ok t0 [] [] s -> ok t0 [] [] (step s (Crash p)).
Proof.
  intros []. cbn. set (dead := fun fd => match fds s !! fd with Some d => bool_decide (d_proc d = p) | None => true end).
  assert (forall fd d, fds s !! fd = Some d -> d_proc d <> p -> dead fd = false) as Hdead.
  { intros fd d Hd Hp. unfold dead. rewrite Hd. by apply bool_decide_eq_false. }
  split; cbn.
  - intros i fd [Hi Hf]%map_lookup_filter_Some. destruct (ok_flock0 i fd Hi) as (d & Hd & <-). exists d. split; [|done].
    apply map_lookup_filter_Some. split; [done|]. cbn in Hf |- *. unfold dead in Hf. rewrite Hd in Hf. by apply bool_decide_eq_false in Hf.
  - intros q n o [Ho Hq]%map_lookup_filter_Some. cbn in Hq. destruct (ok_object0 q n o Ho) as [?|(fd & t & k & d & H)]; [by left|]. right.
    destruct_and! H. exists fd, t, k, d. split_and!; auto; apply map_lookup_filter_Some; (split; [done|]); cbn; try congruence.
    apply (Hdead fd d); [done|congruence].
  - intros t k [Hk Hp]%map_lookup_filter_Some. cbn in Hp. destruct (ok_held0 t k Hk) as [H1 H2]. split; [done|]. intros n Hn.
    destruct (H2 n Hn) as [fd Hfd]. exists fd. by apply map_lookup_filter_Some.
  - intros t k a [Hk Hp]%map_lookup_filter_Some Ha. cbn in Hp. destruct (ok_acquisition0 t k a Hk Ha) as (H1 & H2 & H3 & n & rest & H4 & H5).
    split_and!; auto. exists n, rest. split; [done|]. destruct (at_ a); [done|..]; destruct H5 as (d & Hd & Hpr & Hl & Hx); exists d; cbn.
    + split; [apply map_lookup_filter_Some; split; [done|cbn; congruence]|]. split; [done|]. split; [done|]. by intros [? _]%map_lookup_filter_Some.
    + split; [apply map_lookup_filter_Some; split; [done|cbn; congruence]|]. split; [done|]. split; [done|].
      apply map_lookup_filter_Some. split; [done|]. cbn. apply (Hdead _ d); [done|congruence].
  - intros t k [Hk _]%map_lookup_filter_Some. by apply ok_context0.
  - intros t k c cur [Hk Hp]%map_lookup_filter_Some Hin. cbn in Hp. destruct (ok_known0 t k c cur Hk Hin) as (k' & Hk' & Hpk). exists k'.
    split; [|done]. apply map_lookup_filter_Some. split; [done|]. cbn. congruence.
  - intros fd u u' Hu Hu'. apply (ok_unique0 fd); [destruct u|destruct u']; cbn in *; auto;
      repeat match goal with H : exists _, _ |- _ => destruct H as (? & [? _]%map_lookup_filter_Some & ?) end; eauto.
  - intros fd d [Hd Hp]%map_lookup_filter_Some. cbn in Hp. destruct (ok_no_leak0 fd d Hd) as [[q n|t|] Hu]; cbn in Hu.
    + destruct Hu as (o & Ho & Hfd). exists (InObject q n), o. split; [|done]. apply map_lookup_filter_Some. split; [done|]. cbn.
      destruct (ok_object0 q n o Ho) as [->|(fd' & t & k & d' & H)]; [done|]. destruct_and! H. subst o. cbn in Hfd. congruence.
    + destruct Hu as (k & Hk & Hfd). exists (InTask t), k. split; [|done]. apply map_lookup_filter_Some. split; [done|]. cbn.
      unfold phase_fd in Hfd. destruct (entering k) as [a|] eqn:Ha; [|done]. destruct (ok_acquisition0 t k a Hk Ha) as (_ & _ & _ & n & rest & _ & H5).
      destruct (at_ a); [done|..]; injection Hfd as ->; destruct H5 as (d' & Hd' & Hpr & _); congruence.
    + by apply elem_of_nil in Hu.
  - by intros fd ?%elem_of_nil.
  - constructor.
  - intros fd d [Hd _]%map_lookup_filter_Some. by apply ok_fresh0.
  - intros fd d [Hd _]%map_lookup_filter_Some. by apply (ok_current0 fd).
  - done.
  - done.
Qed.

Lemma step_ok t0 s e : keeps_files e = true -> ok t0 [] [] s -> ok t0 [] [] (step s e).
Proof.
  intros He Hs. destruct e as [t p parent|t values|t ok_ now|t now|t ok_|t|t|p n ok_|p|path]; [..|done].
  all: try (apply (ok_any t t0); apply (ok_any t0 t) in Hs).
  - by apply spawn_ok.
  - by apply enter_ok.
  - by apply open_step_ok.
  - by apply try_step_ok.
  - by apply confirm_step_ok.
  - by apply cancel_step_ok.
  - by apply leave_step_ok.
  - by apply peek_step_ok.
  - by apply crash_step_ok.
Qed.

Lemma runs_ok t0 events : forallb keeps_files events = true -> ok t0 [] [] (run events).
Proof.
  unfold run. intros H. assert (ok t0 [] [] start_sys) as Hs by apply ok_start. revert Hs. generalize start_sys as s.
  induction events as [|e events IH]; cbn; [done|]. intros s Hs. apply andb_true_iff in H as [He H]. apply IH; [done|]. by apply step_ok.
Qed.

(** ** The guarantees *)
Lemma object_inode t0 s p n fd t : ok t0 [] [] s -> objects s !! (p, n) = Some {| _fd := Some fd; _owner := Some t |} ->
  exists i, files s !! leaf n = Some i /\ flocks s !! i = Some fd.
Proof.
  intros Hs Ho. destruct (ok_object _ _ _ _ Hs _ _ _ Ho) as [?|(fd' & t' & k & d & H)]; [done|]. destruct_and! H. simplify_eq.
  exists (d_inode d). split; [|done]. match goal with H : d_path d = _ |- _ => rewrite <- H end. by apply (ok_current _ _ _ _ Hs fd').
Qed.

Lemma owner_unique t0 s t t' n : ok t0 [] [] s -> owned_by_task t n s = true -> owned_by_task t' n s = true -> t = t'.
Proof.
  intros Hs (k & fd & Hk & Ho)%owned_by_task_spec (k' & fd' & Hk' & Ho')%owned_by_task_spec.
  destruct (object_inode _ _ _ _ _ _ Hs Ho) as (i & Hi & Hl). destruct (object_inode _ _ _ _ _ _ Hs Ho') as (i' & Hi' & Hl').
  assert (fd' = fd) as -> by congruence.
  assert (InObject (proc k) n = InObject (proc k') n) as [= Hp] by (apply (ok_unique _ _ _ _ Hs fd); cbn; eauto).
  rewrite Hp in Ho. congruence.
Qed.

Lemma context_scope t c fs f n : context_ok t c fs -> f ∈ fs -> n ∈ scope f -> n ∈ List.concat (map taken fs).
Proof.
  revert c. induction fs as [|g fs IH]; intros c; [by intros _ ?%elem_of_nil|].
  intros (cur & _ & Hc & Hsc & Hrest) [->|Hf]%elem_of_cons Hn; [by apply Hc, Hsc|]. cbn. apply elem_of_app. right. by eapply IH.
Qed.

(** C27. Whatever tasks of any workers start, wait, fail, are cancelled, end or die, in any order: from the moment
    a transaction is entered until it is left, its task owns every radio it asked for, and no other task of any
    worker does. *)
Theorem transaction_exclusive events t k f n t' :
  forallb keeps_files events = true ->
  let s := run events in
  tasks s !! t = Some k -> f ∈ frames k -> n ∈ scope f ->
  (owned_by_task t' n s = true <-> t' = t).
Proof.
  intros He s Hk Hf Hn. pose proof (runs_ok t events He) as Hs. fold s in Hs.
  assert (owned_by_task t n s = true) as Ho.
  { apply (owned_held t s t k n Hs Hk). unfold held. apply elem_of_app. left.
    eapply context_scope; [exact (ok_context _ _ _ _ Hs t k Hk)|exact Hf|exact Hn]. }
  split; [|by intros ->]. intros Ho'. by apply (owner_unique t s t' t n).
Qed.

(** C28. No lock outlives its use: every open descriptor of a lock file, and so every lock, belongs to a live task of
    the worker that opened it, which is taking its locks or inside a transaction. *)
Theorem locks_never_leak events fd d :
  forallb keeps_files events = true ->
  let s := run events in
  (forall i fd, flocks s !! i = Some fd -> is_Some (fds s !! fd)) /\
  (fds s !! fd = Some d ->
   exists t k, tasks s !! t = Some k /\ proc k = d_proc d /\ (frames k <> [] \/ is_Some (entering k))).
Proof.
  intros He s. pose proof (runs_ok 0 events He) as Hs. fold s in Hs. split.
  { intros i f Hi. destruct (ok_flock _ _ _ _ Hs i f Hi) as (x & Hx & _). eauto. }
  intros Hd. destruct (ok_no_leak _ _ _ _ Hs fd d Hd) as [[p n|t|] Hu]; cbn in Hu.
  - destruct Hu as (o & Ho & Hfd). destruct (ok_object _ _ _ _ Hs _ _ _ Ho) as [->|(fd' & t & k & d' & H)]; [done|].
    destruct_and! H. subst o. injection Hfd as ->. exists t, k. split; [done|]. split; [congruence|].
    match goal with H : _ \/ _ |- _ => destruct H as [Hn|[_ ?%elem_of_nil]] end; [|done].
    unfold held in Hn. apply elem_of_app in Hn as [Hn|Hn].
    + left. intros E. rewrite E in Hn. by apply elem_of_nil in Hn.
    + right. destruct (entering k); [done|by apply elem_of_nil in Hn].
  - destruct Hu as (k & Hk & Hfd). unfold phase_fd in Hfd. destruct (entering k) as [a|] eqn:Ha; [|done].
    destruct (ok_acquisition _ _ _ _ Hs t k a Hk Ha) as (_ & _ & _ & n & rest & _ & H5). exists t, k.
    destruct (at_ a); [done|..]; injection Hfd as ->; destruct H5 as (d' & Hd' & Hp & _); (split; [done|]); (split; [congruence|by right; rewrite Ha]).
  - by apply elem_of_nil in Hu.
Qed.

Lemma blocked_spec t n s : blocked_on t s = Some n <->
  exists k a rest fd deadline d fd', tasks s !! t = Some k /\ entering k = Some a /\ waiting a = n :: rest /\ at_ a = Trying fd deadline
    /\ fds s !! fd = Some d /\ flocks s !! d_inode d = Some fd' /\ fd' <> fd.
Proof.
  unfold blocked_on. split.
  - destruct (tasks s !! t) as [k|]; [|done]. cbn. destruct (entering k) as [a|] eqn:Ea; [|done]. cbn.
    destruct (waiting a) as [|m rest] eqn:Ew; [done|]. destruct (at_ a) as [|fd deadline|] eqn:Et; [done| |done].
    destruct (fds s !! fd) as [d|] eqn:Ed; [|done]. cbn. destruct (flocks s !! d_inode d) as [fd'|] eqn:El; [|done]. cbn.
    case_bool_decide; [done|]. intros [= ->]. by exists k, a, rest, fd, deadline, d, fd'.
  - intros (k & a & rest & fd & dl & d & fd' & -> & H1 & H2 & H3 & H4 & H5 & H6). cbn. rewrite H1. cbn. rewrite H2, H3, H4. cbn. rewrite H5. cbn.
    by rewrite bool_decide_false.
Qed.

Lemma mentioned_spec s n : n ∈ mentioned s <-> exists t k, tasks s !! t = Some k /\ (n ∈ held k \/ exists a, entering k = Some a /\ n ∈ waiting a).
Proof.
  unfold mentioned. rewrite list_elem_of_In, in_flat_map. split.
  - intros ([t k] & Hin & Hn). apply list_elem_of_In in Hin, Hn. apply elem_of_map_to_list in Hin. exists t, k. split; [done|].
    apply elem_of_app in Hn as [?|Hn]; [by left|]. right. cbn in Hn. destruct (entering k) as [a|]; [eauto|by apply elem_of_nil in Hn].
  - intros (t & k & Hk & Hn). exists (t, k). rewrite <- !list_elem_of_In, elem_of_map_to_list. split; [done|]. apply elem_of_app.
    destruct Hn as [?|(a & Ha & ?)]; [by left|]. right. cbn. by rewrite Ha.
Qed.

(** Who has the lock that a task waits for, and that its own waiting is for a greater radio. *)
Lemma holder_of_blocked s t n : ok t [] [] s -> no_collision s = true -> blocked_on t s = Some n ->
  exists t', (owned_by_task t' n s = true \/ confirming t' n s = true)
    /\ forall n', blocked_on t' s = Some n' -> str_lt n n'.
Proof.
  intros Hs Hnc (k & a & rest & fd & dl & d & fd' & Hk & Ha & Hw & Hat & Hd & Hl & Hne)%blocked_spec.
  assert (forall m m', m ∈ mentioned s -> m' ∈ mentioned s -> leaf m = leaf m' -> m = m') as Hinj.
  { intros m m' Hm Hm' E. unfold no_collision in Hnc. apply forallb_Forall in Hnc. rewrite list.Forall_forall in Hnc.
    specialize (Hnc m Hm). apply forallb_Forall in Hnc. rewrite list.Forall_forall in Hnc. specialize (Hnc m' Hm').
    rewrite bool_decide_true in Hnc by done. by apply bool_decide_eq_true in Hnc. }
  destruct (ok_acquisition _ _ _ _ Hs t k a Hk Ha) as (_ & _ & _ & n1 & rest1 & Hw1 & H5). rewrite Hat in H5.
  destruct H5 as (d1 & Hd1 & _ & Hpath & _). assert (n1 = n) as -> by congruence. assert (d1 = d) as -> by congruence.
  assert (n ∈ mentioned s) as Hmn. { apply mentioned_spec. exists t, k. split; [done|]. right. exists a. rewrite Hw. split; [done|by left]. }
  destruct (ok_flock _ _ _ _ Hs _ _ Hl) as (d' & Hd' & Hino).
  assert (d_path d' = leaf n) as Hpath'.
  { pose proof (ok_fresh _ _ _ _ Hs _ _ Hd) as [_ E1]. pose proof (ok_fresh _ _ _ _ Hs _ _ Hd') as [_ E2]. congruence. }
  destruct (ok_no_leak _ _ _ _ Hs fd' d' Hd') as [[p m|t'|] Hu]; cbn in Hu.
  - destruct Hu as (o & Ho & Hfo). destruct (ok_object _ _ _ _ Hs _ _ _ Ho) as [->|(f & t' & k' & d2 & H)]; [done|].
    destruct_and! H. subst o. cbn in Hfo. injection Hfo as ->. assert (d2 = d') as -> by congruence.
    match goal with H : _ \/ _ |- _ => destruct H as [Hm|[_ ?%elem_of_nil]] end; [|done].
    assert (m = n) as ->. { apply Hinj; [|done|congruence]. apply mentioned_spec. eauto. }
    exists t'. split; [left; apply owned_by_task_spec; exists k', fd'; split; [done|congruence]|].
    intros n' (k2 & a2 & rest2 & f2 & dl2 & d3 & f3 & Hk2 & Ha2 & Hw2 & _)%blocked_spec. assert (k2 = k') as -> by congruence.
    destruct (ok_acquisition _ _ _ _ Hs t' k' a2 Hk2 Ha2) as (Hf & Htg & Hsort & _).
    unfold held in Hm. rewrite Hf, Ha2 in Hm. cbn in Hm. rewrite Htg, Hw2 in Hsort. by eapply strict_app.
  - destruct Hu as (k' & Hk' & Hfd). unfold phase_fd in Hfd. destruct (entering k') as [a'|] eqn:Ha'; [|done].
    destruct (ok_acquisition _ _ _ _ Hs t' k' a' Hk' Ha') as (_ & _ & _ & m & rest' & Hw' & H5).
    assert (m ∈ mentioned s) as Hmm. { apply mentioned_spec. exists t', k'. split; [done|]. right. exists a'. rewrite Hw'. split; [done|by left]. }
    destruct (at_ a') as [|f dl'|f] eqn:Eat; [done|..]; injection Hfd as ->; destruct H5 as (d2 & Hd2 & _ & Hp2 & Hl2); assert (d2 = d') as -> by congruence.
    + by rewrite Hino in Hl2.
    + assert (m = n) as -> by (apply Hinj; [done|done|congruence]).
      exists t'. split.
      * right. unfold confirming. rewrite Hk'. cbn. rewrite Ha', Hw', Eat. by apply bool_decide_eq_true.
      * intros n' (k2 & a2 & rest2 & f2 & dl2 & d3 & f3 & Hk2 & Ha2 & Hw2 & Hat2 & _)%blocked_spec. congruence.
  - by apply elem_of_nil in Hu.
Qed.

Lemma maximum_exists (l : list string) : l <> [] -> exists m, m ∈ l /\ forall x, x ∈ l -> ~ str_lt m x.
Proof.
  induction l as [|y l IH]; [done|]. intros _. destruct l as [|z l].
  { exists y. split; [by left|]. intros x ->%list_elem_of_singleton. apply str_lt_irrefl. }
  destruct IH as (m & Hm & Hmax); [done|]. destruct (decide (String.compare m y = Lt)) as [E|E].
  - exists y. split; [by left|]. intros x [->|Hx]%elem_of_cons; [apply str_lt_irrefl|]. intros H. apply (Hmax x Hx). by eapply str_lt_trans.
  - exists m. split; [by right|]. intros x [->|Hx]%elem_of_cons; [done|by apply Hmax].
Qed.

(** C29. There is no deadlock: whenever some task finds a lock taken, there is a task whose wait ends by itself - the
    lock it waits for is held by a task that is not waiting for a lock, because every task takes its locks in the
    order of the radios' identities and asks for no further radio while it owns some. (Two radios never share a lock
    file unless their digests collide.) *)
Theorem no_deadlock events :
  forallb keeps_files events = true ->
  let s := run events in
  no_collision s = true ->
  (exists t n, blocked_on t s = Some n) ->
  exists t n t', blocked_on t s = Some n /\ (owned_by_task t' n s = true \/ confirming t' n s = true) /\ blocked_on t' s = None.
Proof.
  intros He s Hnc (t0 & n0 & Hb). assert (forall t, ok t [] [] s) as Hs by (intros t; by apply runs_ok).
  set (l := omap (fun x => blocked_on x.1 s) (map_to_list (tasks s))).
  assert (forall t n, blocked_on t s = Some n -> n ∈ l) as Hl.
  { intros t n Ht. apply list_elem_of_omap. pose proof Ht as (k & a & rest & fd & dl & d & fd' & Hk & _)%blocked_spec.
    exists (t, k). split; [by apply elem_of_map_to_list|done]. }
  destruct (maximum_exists l) as (m & Hm & Hmax). { intros E. apply Hl in Hb. rewrite E in Hb. by apply elem_of_nil in Hb. }
  apply list_elem_of_omap in Hm as ([t k] & _ & Ht). cbn in Ht.
  destruct (holder_of_blocked s t m (Hs t) Hnc Ht) as (t' & Hh & Hlt). exists t, m, t'. split; [done|]. split; [done|].
  destruct (blocked_on t' s) as [n'|] eqn:E; [|done]. exfalso. eapply (Hmax n'); [by eapply Hl|by apply Hlt].
Qed.

(** ** Examples *)
Definition demo : list event :=
  [Spawn 1 7 None; Spawn 2 8 None;
   Enter 1 ["bb "; "AA"]; Open 1 true 0; Try 1 0; Confirm 1 true;
   Enter 2 ["AA"; "BB"]; Open 2 true 0; Try 2 10;
   Open 1 true 20; Try 1 20; Confirm 1 true; Try 2 30].

Lemma transaction_exclusive_witness :
  exists k f, tasks (run demo) !! 1%nat = Some k /\ f ∈ frames k /\ "BB" ∈ scope f
    /\ forall t', (owned_by_task t' "BB" (run demo) = true <-> t' = 1%nat).
Proof.
  eexists _, _. split; [vm_compute; reflexivity|]. split; [left|]. split; [right; left|]. intros t'.
  eapply (transaction_exclusive demo 1 _ _ "BB" t'); [reflexivity|vm_compute; reflexivity|left|right; left].
Defined.

Lemma locks_never_leak_witness :
  let s := run (demo ++ [Leave 1; Crash 8]) in
  size (fds s) = 0%nat /\ size (flocks s) = 0%nat /\ exists d, fds (run demo) !! 1%nat = Some d /\
  exists t k, tasks (run demo) !! t = Some k /\ proc k = d_proc d /\ (frames k <> [] \/ is_Some (entering k)).
Proof.
  split; [vm_compute; reflexivity|]. split; [vm_compute; reflexivity|]. eexists. split; [vm_compute; reflexivity|].
  eapply (proj2 (locks_never_leak demo 1 _ eq_refl)). vm_compute. reflexivity.
Defined.

Lemma no_deadlock_witness :
  blocked_on 2 (run demo) = Some "AA" /\
  exists t n t', blocked_on t (run demo) = Some n
    /\ (owned_by_task t' n (run demo) = true \/ confirming t' n (run demo) = true) /\ blocked_on t' (run demo) = None.
Proof.
  split; [vm_compute; reflexivity|]. apply (no_deadlock demo); [reflexivity|vm_compute; reflexivity|].
  exists 2%nat, "AA". vm_compute. reflexivity.
Defined.

(** Why lock files are never unlinked: a second file is a second owner. *)
Example removed_file_two_owners :
  let s := run [Spawn 1 7 None; Spawn 2 8 None; Enter 1 ["AA"]; Open 1 true 0; Try 1 0; Confirm 1 true; Remove (leaf "AA");
                Enter 2 ["AA"]; Open 2 true 0; Try 2 0; Confirm 2 true] in
  owned_by_task 1 "AA" s = true /\ owned_by_task 2 "AA" s = true.
Proof. vm_compute. split; reflexivity. Qed.

End Ownership.
