(* ===== verification/Boundary.v ===== *)
(** * The administration boundary
    (app/core/admin_boundary.py, route_policy.py, token_policy.py, admin_protocols.py,
    browser_headers.py)

    The outermost middleware of every listener.  [_authorize] is a program over the
    authentication database of Admin: between its calls, which run in threads, any other
    calls of any request happen.  Route matching is Starlette's: a route context answers
    which of its path parameters a request matches, or none.  [urlsplit] and the cookie
    parser are libraries too: the first a parameter, the second a field of the request. *)
From Stdlib Require Import Ascii String.
From S2P Require Import Prelude PyNum PyStr Json Sha256 Admin.
#[local] Open Scope string_scope.
#[local] Open Scope list_scope.
#[local] Open Scope Z_scope.

Module Boundary.

(** ** Requests and routes *)
Record request := {
  r_type : string;                       (* of the ASGI scope *)
  r_scheme : string;
  r_method : string;
  r_path : string;
  r_headers : list (string * string);    (* names in lower case, as ASGI has them *)
  r_cookie : string }.                   (* [request.cookies.get(COOKIE, "")] *)

Definition getlist (name : string) (r : request) : list string :=
  map snd (List.filter (fun h => bool_decide (h.1 = name)) (r_headers r)).
Definition header (name : string) (r : request) : option string := head (getlist name r).
Definition header_or (name : string) (r : request) : string := default "" (header name r).
Definition has_header (name : string) (r : request) : bool := is_some (header name r).
(** [if request.headers.get(name)] *)
Definition truthy_header (name : string) (r : request) : bool := negb (empty_str (header_or name r)).

Inductive kind : Type := IsMount | IsAPIRoute | IsOther.
Record route := {
  route_id : nat;                        (* the object *)
  route_kind : kind;
  route_path : option string;
  module_of : string; name_of : string;  (* of the endpoint *)
  methods : option (list string) }.
(** A [RouteContext]: its path with every prefix, and [Match.FULL] with the path
    parameters, or no full match. *)
Record context := {
  original_route : route;
  context_path : string;
  context_matches : request -> option (list (string * string)) }.
Record SelectedRoute := { s_route : route; s_path : string; path_params : list (string * string) }.

Fixpoint selected_route (routes : list context) (r : request) : option SelectedRoute :=
  match routes with
  | [] => None
  | c :: routes =>
      match context_matches c r with
      | Some params => Some {| s_route := original_route c; s_path := context_path c; path_params := params |}
      | None => selected_route routes r
      end
  end.

Definition explicitly_registered (selected : option SelectedRoute) (allowed : list route) : bool :=
  match selected with
  | None => false
  | Some s => existsb (fun a => (route_id (s_route s) =? route_id a)%nat && bool_decide (Some (s_path s) = route_path a)) allowed
  end.

(** ** token_policy.py *)
Definition CONTRACTS : list ((string * string * string * string) * string) :=
  [(("system_api", "api_version", "/api/version", "GET"), "read");
   (("system_api", "health", "/api/health", "GET"), "read");
   (("api", "device_status_badges", "/api/devices/status-badges", "GET"), "read");
   (("api", "device_ui_capabilities", "/api/devices/ui-capabilities", "GET"), "read");
   (("stations_presets", "get_presets", "/api/presets/{device_id}", "GET"), "presets");
   (("multiroom", "multiroom_scenarios", "/api/multiroom/scenarios", "GET"), "multiroom");
   (("multiroom", "multiroom_methods", "/api/multiroom/methods", "GET"), "multiroom");
   (("api", "diagnostics_telemetry_summary", "/api/diagnostics/telemetry/summary", "GET"), "diagnostics");
   (("api", "set_device_setting", "/api/devices/{device_id}/settings/{setting}", "POST"), "playback");
   (("api", "apply_changed_device_settings", "/api/devices/{device_id}/settings-apply", "POST"), "admin");
   (("api", "rename_device", "/api/devices/{device_id}/rename", "POST"), "admin")].

Fixpoint lookup_pair {A B} `{EqDecision A} (k : A) (l : list (A * B)) : option B :=
  match l with [] => None | (k', v) :: l => if bool_decide (k' = k) then Some v else lookup_pair k l end.

Definition ROUTERS : string := "basswiesn.app.routers.".
(** [module.removeprefix(ROUTERS)] of a module that starts with it. *)
Definition after_prefix (p s : string) : string := substring (String.length p) (String.length s - String.length p) s.

Definition required_scope (routes : list context) (r : request) : option string :=
  selected ← selected_route routes r;
  match route_kind (s_route selected) with
  | IsAPIRoute =>
      let module := module_of (s_route selected) in
      if negb (starts_with ROUTERS module) then None
      else
        grant ← lookup_pair (after_prefix ROUTERS module, name_of (s_route selected), s_path selected, r_method r) CONTRACTS;
        if bool_decide (grant = "playback")
           && negb (bool_decide (lookup_pair "setting" (path_params selected) = Some "volume"))
        then None else Some grant
  | _ => None
  end.

(** ** admin_protocols.py *)
Definition DEVICE_HANDLERS : list string :=
  ["streaming_sourceproviders"; "provider_discovery"; "streaming_power_on";
   "streaming_token"; "device_blacklist"; "streaming_account_full";
   "streaming_provider_settings"; "service_settings"; "station_info";
   "set_music_service_account"; "set_music_service_oauth_account"; "group_state";
   "group_create"; "group_update"; "group_delete"; "streaming_add_device";
   "streaming_get_device"; "streaming_put_device"; "streaming_delete_device";
   "streaming_device_keepalive"; "streaming_account_sources"; "streaming_device_presets";
   "streaming_device_recents"; "streaming_device_recent"; "streaming_account_presets";
   "orion_token"; "bmx_registry"; "bmx_services_availability"; "orion_service";
   "orion_station"; "now_playing"; "reporting"; "bmx_tunein_station"; "bmx_tunein_token";
   "bmx_tunein_navigate"; "bmx_radiobrowser_station"; "bmx_resolve"; "marge_presets";
   "marge_sources"; "marge_full"; "put_preset"; "remove_preset"].

Definition DEVICE_CONTRACTS : list (string * list string) :=
  [("/streaming/sourceproviders", ["GET"]);
   ("/streaming/provider-discovery", ["GET"]);
   ("/bmx/registry/v1/introspect", ["GET"]);
   ("/streaming/support/power_on", ["POST"]);
   ("/streaming/device/{device_id}/streaming_token", ["GET"]);
   ("/v1/blacklist/{device_id}", ["GET"; "POST"]);
   ("/streaming/account/{account_id}/full", ["GET"]);
   ("/streaming/account/{account_id}/provider_settings", ["GET"]);
   ("/serviceSettings", ["GET"; "POST"]);
   ("/getServiceSettings", ["GET"; "POST"]);
   ("/stationInfo", ["GET"]);
   ("/setMusicServiceAccount", ["POST"]);
   ("/setMusicServiceOAuthAccount", ["POST"]);
   ("/group", ["GET"]);
   ("/group/create", ["POST"]);
   ("/group/update", ["POST"]);
   ("/group/delete", ["POST"]);
   ("/streaming/account/{account_id}/device/", ["POST"]);
   ("/streaming/account/{account_id}/device/{device_id}", ["GET"; "PUT"; "DELETE"]);
   ("/streaming/account/{account_id}/device/{device_id}/heartbeat", ["POST"]);
   ("/streaming/account/{account_id}/device/{device_id}/keepalive", ["POST"]);
   ("/streaming/account/{account_id}/sources", ["GET"]);
   ("/streaming/account/{account_id}/device/{device_id}/presets", ["GET"]);
   ("/streaming/account/{account_id}/device/{device_id}/recents", ["GET"]);
   ("/streaming/account/{account_id}/device/{device_id}/recent", ["POST"]);
   ("/streaming/account/{account_id}/presets/all", ["GET"]);
   ("/core02/svc-bmx-adapter-orion/prod/orion/token", ["POST"]);
   ("/bmx/registry/v1/services", ["GET"]);
   ("/bmx/registry/v1/servicesAvailability", ["GET"]);
   ("/bmx/registry/servicesAvailability", ["GET"]);
   ("/core02/svc-bmx-adapter-orion/prod/orion", ["GET"]);
   ("/core02/svc-bmx-adapter-orion/prod/orion/station", ["GET"]);
   ("/bmx/orion/now-playing", ["GET"]);
   ("/bmx/orion/now-playing/station/{station_id}", ["GET"]);
   ("/bmx/orion/reporting", ["POST"]);
   ("/bmx/orion/reporting/station/{station_id}", ["POST"]);
   ("/bmx/tunein/v1/playback/station/{station_id}", ["GET"]);
   ("/bmx/tunein/v1/now-playing/station/{station_id}", ["GET"]);
   ("/bmx/tunein/v1/reporting/station/{station_id}", ["POST"]);
   ("/bmx/tunein/v1/favorite/{station_id}", ["GET"; "POST"]);
   ("/bmx/tunein/v1/token", ["GET"; "POST"]);
   ("/bmx/tunein/v1/navigate", ["GET"]);
   ("/bmx/tunein/v1/navigate/{path:path}", ["GET"]);
   ("/bmx/radiobrowser/v1/playback/station/{uuid}", ["GET"]);
   ("/bmx/radiobrowser/v1/now-playing/station/{uuid}", ["GET"]);
   ("/bmx/radiobrowser/v1/reporting/station/{uuid}", ["POST"]);
   ("/bmx/resolve", ["GET"; "POST"]);
   ("/v1/systems/devices/{device_id}/presets", ["GET"]);
   ("/v1/systems/devices/{device_id}/sources", ["GET"]);
   ("/v1/systems/devices/{device_id}", ["GET"]);
   ("/streaming/account/{account_id}/device/{device_id}/preset/{button}", ["PUT"; "DELETE"]);
   ("/streaming/account/{account_id}/device/{device_id}/presets/{button}", ["PUT"; "POST"; "DELETE"])].

Definition device_routes (routes : list route) : list route :=
  List.filter (fun r =>
    match route_kind r, route_path r, methods r with
    | IsAPIRoute, Some path, Some ms =>
        bool_decide (module_of r = "basswiesn.app.routers.cloud") && bool_decide (name_of r ∈ DEVICE_HANDLERS)
        && match lookup_pair path DEVICE_CONTRACTS with
           | Some allowed => forallb (fun m => bool_decide (m ∈ allowed)) ms | None => false end
    | _, _, _ => false
    end) routes.

(** ** Origins *)
(** [urlsplit]: [None] for its [ValueError]; the port [None] when reading it raises. *)
Record url_parts := {
  u_scheme : string; u_hostname : option string; u_username : option string; u_password : option string;
  u_path : string; u_query : string; u_fragment : string; u_port : option (option Z) }.

Definition nonempty (o : option string) : bool := match o with Some s => negb (empty_str s) | None => false end.
(** Some character of the text is white space. *)
Fixpoint has_space (s : string) : bool :=
  match s with
  | EmptyString => false
  | String a r =>
      is_space a || match r with String b r' => is_space2 a b || match r' with String c _ => is_space3 a b c | _ => false end | _ => false end
      || has_space r
  end.
Fixpoint has_char (c : ascii) (s : string) : bool :=
  match s with EmptyString => false | String a s => bool_decide (a = c) || has_char c s end.
(** [p in s] *)
Fixpoint contains (p s : string) : bool :=
  starts_with p s || match s with EmptyString => false | String _ s => contains p s end.
Definition print_z (n : Z) : string := string_of (print_int n).

Section Boundary.
Context (urlsplit : string -> option url_parts).

Definition origin (value : string) : string :=
  match urlsplit value with
  | None => ""
  | Some p =>
      if negb (bool_decide (u_scheme p ∈ ["http"; "https"])) || negb (nonempty (u_hostname p))
         || nonempty (u_username p) || nonempty (u_password p) then ""
      else if negb (bool_decide (u_path p ∈ [""; "/"])) || negb (empty_str (u_query p)) || negb (empty_str (u_fragment p)) then ""
      else
        match u_port p with
        | None => ""
        | Some port =>
            let port := match port with
                        | Some n => if n =? 0 then None else Some n | None => None end in
            let port := default (if bool_decide (u_scheme p = "https") then 443 else 80) port in
            let host := py_lower (default "" (u_hostname p)) in
            if has_space host || has_char "\"%char host then ""
            else
              let host := if has_char ":"%char host then "[" +:+ host +:+ "]" else host in
              u_scheme p +:+ "://" +:+ host +:+ ":" +:+ print_z port
        end
  end.
Definition request_origin (r : request) : string := origin (r_scheme r +:+ "://" +:+ header_or "host" r).

(** ** The boundary *)
Inductive listener_kind : Type := Web | Cloud | Debug.
Record config := {
  auth_required : bool;                 (* [admin_auth_mode == "required"] *)
  allow_http : bool;
  admin_origins : list string;          (* of the settings, before [origin] *)
  listener : listener_kind;
  anonymous : list route;
  routes : list context;
  public_health : list route;
  public_login : list route }.

Definition SAFE_METHODS : list string := ["GET"; "HEAD"; "OPTIONS"].
Definition safe_method (r : request) : bool := bool_decide (r_method r ∈ SAFE_METHODS).
Definition selected (cfg : config) (r : request) : option SelectedRoute := selected_route (routes cfg) r.

Definition _anonymous (cfg : config) (r : request) : bool :=
  explicitly_registered (selected cfg r) (anonymous cfg)
  && match selected cfg r with
     | Some s => match route_kind (s_route s) with
                 | IsMount => bool_decide (r_method r ∈ ["GET"; "HEAD"]) | _ => true end
     | None => false
     end.

Inductive principal : Type := Nobody | Automation (t : Admin.TokenRecord) | Administrator (s : Admin.AdminSession).
Inductive response : Type := AuthError (code : string) (status : Z) | RedirectToLogin.

(** Calls of the authentication database, with what follows their outcome. *)
Inductive prog (A : Type) : Type :=
| Ret (a : A)
| CallVerify (token : string) (touch : bool) (k : res Admin.exn (option Admin.TokenRecord) -> prog A)
| CallSession (cookie : string) (touch : bool) (k : res Admin.exn (option Admin.AdminSession) -> prog A).
Arguments Ret {A} a.
Arguments CallVerify {A} token touch k.
Arguments CallSession {A} cookie touch k.

Definition deny (code : string) (status : Z) : prog (response + principal) := Ret (inl (AuthError code status)).
Definition unavailable : prog (response + principal) := deny "AUTH_UNAVAILABLE" 503.

Definition authorize_bearer (cfg : config) (r : request) (authorization : list string) : prog (response + principal) :=
  match listener cfg, authorization with
  | Web, [value] =>
      if has_header "cookie" r || has_header "origin" r || has_header "sec-fetch-site" r then deny "TOKEN_CONTEXT_DENIED" 403
      else
        match split_on " "%char value with
        | [scheme; token] =>
            if negb (bool_decide (py_lower scheme = "bearer")) then deny "TOKEN_INVALID" 401
            else
              CallVerify token false (fun first =>
                match first with
                | Err _ => unavailable
                | Ok None => deny "TOKEN_INVALID" 401
                | Ok (Some principal) =>
                    match required_scope (routes cfg) r with
                    | None => deny "TOKEN_SCOPE_DENIED" 403
                    | Some needed =>
                        if negb (bool_decide (needed ∈ Admin.r_scopes principal)) then deny "TOKEN_SCOPE_DENIED" 403
                        else
                          CallVerify token true (fun second =>
                            match second with
                            | Err _ => unavailable
                            | Ok None => deny "TOKEN_INVALID" 401
                            | Ok (Some principal) => Ret (inr (Automation principal))
                            end)
                    end
                end)
        | _ => deny "TOKEN_INVALID" 401
        end
  | _, _ => deny "TOKEN_CONTEXT_DENIED" 403
  end.

Definition authorize_session (cfg : config) (r : request) : prog (response + principal) :=
  CallSession (r_cookie r) false (fun first =>
    match first with
    | Err _ => unavailable
    | Ok None =>
        if match listener cfg with Web => true | _ => false end && bool_decide (r_method r = "GET")
           && contains "text/html" (header_or "accept" r)
        then Ret (inl RedirectToLogin) else deny "AUTH_REQUIRED" 401
    | Ok (Some session) =>
        if negb (safe_method r) && negb (bool_decide (header_or "x-basswiesn-csrf" r = Admin.csrf_token session))
        then deny "AUTH_CSRF" 403
        else
          CallSession (r_cookie r) true (fun second =>
            match second with
            | Err _ => unavailable
            | Ok None => deny "AUTH_REQUIRED" 401
            | Ok (Some active) => Ret (inr (Administrator active))
            end)
    end).

Definition _authorize (cfg : config) (r : request) : prog (response + principal) :=
  if bool_decide (r_method r = "GET") && explicitly_registered (selected cfg r) (public_health cfg) then Ret (inr Nobody)
  else if _anonymous cfg r then
    if negb (bool_decide (getlist "authorization" r = [])) then deny "TOKEN_ROUTE_DENIED" 403
    else if negb (safe_method r) && (truthy_header "origin" r || truthy_header "sec-fetch-site" r)
    then deny "DEVICE_BROWSER_WRITE_DENIED" 403
    else Ret (inr Nobody)
  else
    let origins := map origin (admin_origins cfg) in
    if bool_decide (origins = []) || bool_decide ("" ∈ origins) then unavailable
    else
      let current_origin := request_origin r in
      if negb (bool_decide (current_origin ∈ origins)) then deny "AUTH_ORIGIN" 403
      else if negb (bool_decide (r_scheme r = "https")) && negb (allow_http cfg) then deny "AUTH_TLS_REQUIRED" 403
      else
        let authorization := getlist "authorization" r in
        if negb (bool_decide (authorization = [])) then authorize_bearer cfg r authorization
        else if negb (safe_method r) && negb (bool_decide (origin (header_or "origin" r) = current_origin))
        then deny "AUTH_ORIGIN" 403
        else if match listener cfg with Web => true | _ => false end
                && explicitly_registered (selected cfg r) (public_login cfg)
        then Ret (inr Nobody)
        else authorize_session cfg r.

(** What [__call__] does with a request; the principal is what the handler finds in the
    request's state. *)
Inductive handling : Type :=
| Passthrough
| CloseWebsocket (code : Z)
| Answer (a : response)
| ToDeviceIngress (device_id account_id : option string) (registration : bool)
| ToApp (p : principal).

Definition human (cfg : config) (r : request) : bool := negb (_anonymous cfg r).

Definition dispatch (cfg : config) (r : request) (p : principal) : handling :=
  match selected cfg r with
  | Some s =>
      match human cfg r, route_kind (s_route s) with
      | false, IsMount | true, _ => ToApp p
      | false, _ =>
          ToDeviceIngress (lookup_pair "device_id" (path_params s)) (lookup_pair "account_id" (path_params s))
            (bool_decide (default "" (route_path (s_route s)) = "/streaming/account/{account_id}/device/"))
      end
  | None => ToApp p
  end.

(** A program is run with, for each of its calls, the calls of others that happen
    before it, its clock and whether the database can be opened. *)
Definition schedule : Type := list (list Admin.call * Z * bool).
Section Exec.
Context (verify : string -> string -> option bool) (needs_rehash : string -> bool).

Fixpoint exec {A} (p : prog A) (env : schedule) (w : Admin.world) : option (A * Admin.world) :=
  match p with
  | Ret a => Some (a, w)
  | CallVerify token touch k =>
      match env with
      | [] => None
      | (others, now, ok) :: env =>
          let w := Admin.run verify needs_rehash w others in
          exec (k (Admin.verify_token token touch now ok (Admin.st w)).1) env
               (Admin.step verify needs_rehash w (Admin.Verify token touch now ok))
      end
  | CallSession cookie touch k =>
      match env with
      | [] => None
      | (others, now, ok) :: env =>
          let w := Admin.run verify needs_rehash w others in
          exec (k (Admin.session cookie touch now ok (Admin.st w)).1) env
               (Admin.step verify needs_rehash w (Admin.Session cookie touch now ok))
      end
  end.

Definition call (cfg : config) (r : request) (env : schedule) (w : Admin.world) : option (handling * Admin.world) :=
  if negb (auth_required cfg) || negb (bool_decide (r_type r ∈ ["http"; "websocket"])) then Some (Passthrough, w)
  else if bool_decide (r_type r = "websocket") then Some (CloseWebsocket 1008, w)
  else
    '(result, w) ← exec (_authorize cfg r) env w;
    Some (match result with inl a => Answer a | inr p => dispatch cfg r p end, w).
End Exec.

(** ** What authority means *)
Definition trusted_origin (cfg : config) (r : request) : Prop :=
  request_origin r ∈ map origin (admin_origins cfg) /\ "" ∉ map origin (admin_origins cfg)
  /\ (r_scheme r = "https" \/ allow_http cfg = true).
(** The request carries this bearer credential and nothing of a browser. *)
Definition bearer_request (cfg : config) (r : request) (token : string) : Prop :=
  listener cfg = Web /\ has_header "cookie" r = false /\ has_header "origin" r = false /\ has_header "sec-fetch-site" r = false
  /\ exists value scheme, getlist "authorization" r = [value] /\ split_on " "%char value = [scheme; token] /\ py_lower scheme = "bearer".
(** A write comes from a page of this origin that knows the session's secret. *)
Definition not_forged (r : request) : Prop :=
  safe_method r = true \/ origin (header_or "origin" r) = request_origin r
                          /\ header_or "x-basswiesn-csrf" r = Admin._csrf (r_cookie r).
Definition public_health_request (cfg : config) (r : request) : Prop :=
  r_method r = "GET" /\ explicitly_registered (selected cfg r) (public_health cfg) = true.
(** A registered device or asset route, without credentials, not written to by a browser. *)
Definition device_request (cfg : config) (r : request) : Prop :=
  _anonymous cfg r = true /\ getlist "authorization" r = []
  /\ (safe_method r = true \/ truthy_header "origin" r = false /\ truthy_header "sec-fetch-site" r = false).
Definition login_request (cfg : config) (r : request) : Prop :=
  listener cfg = Web /\ explicitly_registered (selected cfg r) (public_login cfg) = true
  /\ trusted_origin cfg r /\ getlist "authorization" r = []
  /\ (safe_method r = true \/ origin (header_or "origin" r) = request_origin r).
Definition mounted (cfg : config) (r : request) : Prop :=
  exists s, selected cfg r = Some s /\ route_kind (s_route s) = IsMount /\ r_method r ∈ ["GET"; "HEAD"].

(** The authority behind the principal that reaches a handler, in the history [h] of the
    database. *)
Definition authority (verify : string -> string -> option bool) (cfg : config) (r : request) (h : list Admin.event)
    (p : principal) : Prop :=
  match p with
  | Nobody => public_health_request cfg r \/ device_request cfg r \/ login_request cfg r
  | Automation t =>
      trusted_origin cfg r /\ exists token now, bearer_request cfg r token /\ Admin.token_live h token t now
        /\ exists needed granted now' since earlier, required_scope (routes cfg) r = Some needed
             /\ needed ∈ Admin.r_scopes granted /\ h = since ++ earlier /\ Admin.token_live earlier token granted now'
  | Administrator s =>
      trusted_origin cfg r /\ getlist "authorization" r = [] /\ not_forged r
      /\ exists now hash, Admin.session_live verify h (r_cookie r) now /\ Admin.admin_of h = Some (Admin.username s, hash)
  end.

End Boundary.

(** ** browser_headers.py *)
Definition lookup_header (name : string) (headers : list (string * string)) : list string :=
  map snd (List.filter (fun h => bool_decide (py_lower h.1 = name)) headers).
Definition AUTH_CSP : string :=
  "default-src 'none'; script-src 'self'; style-src 'self'; connect-src 'self'; form-action 'self'; base-uri 'none'; frame-ancestors 'none'; object-src 'none'".
Definition BASE_CSP : string := "frame-ancestors 'none'; object-src 'none'; base-uri 'self'; form-action 'self'".
Definition APP_CSP : string := BASE_CSP +:+ "; script-src 'self'; script-src-attr 'none'; worker-src 'none'".
Definition INTERACTIVE_DOCS : list string := ["/docs"; "/docs/oauth2-redirect"; "/redoc"].
Definition RESTRICTIONS : list (string * string) :=
  [("x-content-type-options", "nosniff"); ("x-frame-options", "DENY"); ("referrer-policy", "no-referrer");
   ("permissions-policy", "camera=(), microphone=(), geolocation=(), payment=(), usb=()"); ("cache-control", "no-store")].
Definition CSP : string := "content-security-policy".

Definition replacements (path : string) (headers : list (string * string)) : list (string * string) :=
  RESTRICTIONS ++
  (if bool_decide (path ∈ ["/auth/login"; "/auth/automation"]) then [(CSP, AUTH_CSP)]
   else if existsb (fun h => bool_decide (py_lower h.1 = CSP)) headers then []
   else [(CSP, if bool_decide (path ∈ INTERACTIVE_DOCS) then BASE_CSP else APP_CSP)]).

Definition secure_browser_response (path : string) (headers : list (string * string)) : list (string * string) :=
  let new := replacements path headers in
  List.filter (fun h => negb (bool_decide (py_lower h.1 ∈ map fst new))) headers ++ new.

(** [secure_send] and [browser_send] of [__call__]: the headers of the application's
    response. *)
Definition secure_send (human : bool) (path : string) (p : principal) (headers : list (string * string)) : list (string * string) :=
  let headers := headers ++ [("x-content-type-options", "nosniff"); ("referrer-policy", "no-referrer")] in
  let headers := match p with
    | Nobody => headers
    | _ => List.filter (fun h => negb (bool_decide (py_lower h.1 = "cache-control"))) headers ++ [("cache-control", "no-store")]
    end in
  if human then secure_browser_response path headers else headers.

(** ** Proofs *)
#[local] Opaque Sha256.sha256_hex Admin._digest Admin._csrf fullmatch.

Section Facts.
Context (urlsplit : string -> option url_parts) (verify : string -> string -> option bool) (needs_rehash : string -> bool).

#[local] Abbreviation run := (Admin.run verify needs_rehash).
#[local] Abbreviation step := (Admin.step verify needs_rehash).

Lemma step_history w c : exists l, Admin.history (step w c) = l ++ Admin.history w.
Proof.
  assert (forall A (r : res Admin.exn A * Admin.store) ev, exists l, Admin.history (Admin.record w r ev) = l ++ Admin.history w) as Hr.
  { intros A [[a|e] s] ev; [by exists (ev a)|by exists []]. }
  destruct c; try apply Hr.
  - cbn. destruct (Admin._reserve_attempt _ _ _ _) as [[[user hash]|e] s]; [by exists [Admin.EAttempt peer now]|by exists []].
  - unfold Admin.step. destruct (Admin.flights w !! n) as [f|]; [|by exists []]. destruct (Admin.check_password _ _ _ _ _); [|by exists []].
    match goal with |- context [Admin.record ?w' ?r ?ev] => destruct r as [[a|e] s]; [by exists (ev a)|by exists []] end.
Qed.

Lemma run_history w cs : exists l, Admin.history (run w cs) = l ++ Admin.history w.
Proof.
  unfold Admin.run. revert w. induction cs as [|c cs IH]; intros w; [by exists []|]. cbn.
  destruct (IH (step w c)) as [l ->]. destruct (step_history w c) as [l' ->]. exists (l ++ l'). by rewrite app_assoc.
Qed.

Lemma session_csrf cookie touch now ok s a s' : Admin.session cookie touch now ok s = (Ok (Some a), s') ->
  Admin.csrf_token a = Admin._csrf cookie.
Proof.
  intros H. apply Admin.session_inv in H as [[_ []]|(r & [= <-] & H)]. revert H. unfold Admin.session_in_transaction.
  destruct (negb _); [done|]. unfold mbind, st_bind, mret, st_ret, gets, modify. cbn.
  destruct (Admin.administrator s) as [[u h]|]; [|done]. destruct (Admin.find_session _ s); [|done].
  destruct (_ || _ || _); [done|]. by destruct touch; intros [= <- _].
Qed.

(** The world after a call answered, and what its history says. *)
Lemma session_call w cookie touch now ok a : Admin.good verify w ->
  (Admin.session cookie touch now ok (Admin.st w)).1 = Ok (Some a) ->
  let w' := step w (Admin.Session cookie touch now ok) in
  Admin.session_live verify (Admin.history w') cookie now
  /\ (exists hash, Admin.admin_of (Admin.history w') = Some (Admin.username a, hash)) /\ Admin.csrf_token a = Admin._csrf cookie.
Proof.
  intros Hg H. destruct (Admin.session cookie touch now ok (Admin.st w)) as [r s'] eqn:E. cbn in H. subst r.
  destruct (Admin.session_verified verify w cookie touch now ok a s' Hg E) as (cr & seen & hash & H1 & H2 & H3 & H4 & H5).
  rewrite H3 in H4. apply session_csrf in E as Hcsrf. cbn. unfold Admin.record. rewrite E. cbn.
  destruct touch; cbn; (split; [|by eauto]); exists cr, seen; (split; [|done]); [|done]. by apply Admin.signed_in_cons.
Qed.

Lemma verify_call w token touch now ok t : Admin.good verify w ->
  (Admin.verify_token token touch now ok (Admin.st w)).1 = Ok (Some t) ->
  Admin.token_live (Admin.history (step w (Admin.Verify token touch now ok))) token t now.
Proof.
  intros Hg H. destruct (Admin.verify_token token touch now ok (Admin.st w)) as [r s'] eqn:E. cbn in H. subst r.
  apply (Admin.token_verified verify w _ _ _ _ _ _ Hg) in E as Hl. cbn. unfold Admin.record. by rewrite E.
Qed.

Lemma trusted_from cfg r :
  bool_decide (map (origin urlsplit) (admin_origins cfg) = []) || bool_decide ("" ∈ map (origin urlsplit) (admin_origins cfg)) = false ->
  negb (bool_decide (request_origin urlsplit r ∈ map (origin urlsplit) (admin_origins cfg))) = false ->
  negb (bool_decide (r_scheme r = "https")) && negb (allow_http cfg) = false -> trusted_origin urlsplit cfg r.
Proof.
  intros H1 H2 H3. bdestr. split; [done|]. split; [done|]. apply andb_false_iff in H3 as [H3|H3]; bdestr; auto.
Qed.

Lemma bearer_authority cfg r authorization env w t w' : Admin.good verify w -> trusted_origin urlsplit cfg r ->
  getlist "authorization" r = authorization ->
  exec verify needs_rehash (authorize_bearer cfg r authorization) env w = Some (inr t, w') ->
  Admin.good verify w' /\ authority urlsplit verify cfg r (Admin.history w') t /\ exists x, t = Automation x.
Proof.
  intros Hg Ht Ha. unfold authorize_bearer. destruct (listener cfg) eqn:El; [|done..]. destruct authorization as [|value [|]]; [done| |done].
  destruct (_ || _ || _) eqn:Eh; [done|]. bdestr. destruct (split_on " "%char value) as [|scheme [|token [|]]] eqn:Es; [done|done| |done].
  destruct (negb (bool_decide (py_lower scheme = "bearer"))) eqn:Eb; [done|]. bdestr. cbn [exec].
  destruct env as [|[[others now] ok] env]; [done|]. set (w1 := run w others). pose proof (Admin.run_good verify needs_rehash w others Hg) as Hg1. fold w1 in Hg1.
  destruct (Admin.verify_token token false now ok (Admin.st w1)).1 as [[granted|]|e] eqn:E1; [|done..].
  destruct (required_scope (routes cfg) r) as [needed|] eqn:En; [|done]. destruct (negb (bool_decide (needed ∈ _))) eqn:Em; [done|]. bdestr. cbn [exec].
  destruct env as [|[[others2 now2] ok2] env]; [done|].
  pose proof (verify_call w1 token false now ok granted Hg1 E1) as Hl1.
  set (w2 := step w1 (Admin.Verify token false now ok)) in *.
  pose proof (Admin.step_good verify needs_rehash w1 (Admin.Verify token false now ok) Hg1) as Hg2. fold w2 in Hg2.
  pose proof (Admin.run_good verify needs_rehash w2 others2 Hg2) as Hg3. set (w3 := run w2 others2) in *.
  destruct (Admin.verify_token token true now2 ok2 (Admin.st w3)).1 as [[active|]|e] eqn:E2; [|done..]. cbn [exec]. intros [= <- Hw'].
  assert (w' = step w3 (Admin.Verify token true now2 ok2)) as -> by (symmetry; exact Hw'). clear Hw'.
  split; [by apply Admin.step_good|]. split; [|by eexists]. split; [done|]. exists token, now2.
  split; [split_and!; auto; by exists value, scheme|]. split; [by apply verify_call|].
  destruct (run_history w2 others2) as [l1 Hh1]. destruct (step_history w3 (Admin.Verify token true now2 ok2)) as [l2 Hh2].
  exists needed, granted, now, (l2 ++ l1), (Admin.history w2). split_and!; auto. rewrite Hh2. unfold w3. by rewrite Hh1, app_assoc.
Qed.

Lemma session_authority_of cfg r env w p w' : Admin.good verify w -> trusted_origin urlsplit cfg r -> getlist "authorization" r = [] ->
  (safe_method r = true \/ origin urlsplit (header_or "origin" r) = request_origin urlsplit r) ->
  exec verify needs_rehash (authorize_session cfg r) env w = Some (inr p, w') ->
  authority urlsplit verify cfg r (Admin.history w') p /\ exists x, p = Administrator x.
Proof.
  intros Hg Ht Ha Ho. unfold authorize_session. cbn [exec].
  destruct env as [|[[others now] ok] env]; [done|]. set (w1 := run w others). pose proof (Admin.run_good verify needs_rehash w others Hg) as Hg1. fold w1 in Hg1.
  destruct (Admin.session (r_cookie r) false now ok (Admin.st w1)).1 as [[first|]|e] eqn:E1; [|by case_match|done].
  destruct (negb (safe_method r) && negb (bool_decide (header_or "x-basswiesn-csrf" r = Admin.csrf_token first))) eqn:Ec; [done|]. cbn [exec].
  destruct env as [|[[others2 now2] ok2] env]; [done|].
  destruct (session_call w1 _ false now ok first Hg1 E1) as (_ & _ & Hcsrf).
  set (w2 := step w1 (Admin.Session (r_cookie r) false now ok)).
  pose proof (Admin.step_good verify needs_rehash w1 (Admin.Session (r_cookie r) false now ok) Hg1) as Hg2. fold w2 in Hg2.
  pose proof (Admin.run_good verify needs_rehash w2 others2 Hg2) as Hg3. set (w3 := run w2 others2) in *.
  destruct (Admin.session (r_cookie r) true now2 ok2 (Admin.st w3)).1 as [[active|]|e] eqn:E2; [|done..]. cbn [exec]. intros [= <- Hw'].
  assert (w' = step w3 (Admin.Session (r_cookie r) true now2 ok2)) as -> by (symmetry; exact Hw'). clear Hw'.
  destruct (session_call w3 _ true now2 ok2 active Hg3 E2) as (Hlive & (hash & Hadm) & _).
  split; [|by eexists]. split; [done|]. split; [done|]. split; [|by exists now2, hash].
  destruct (safe_method r) eqn:Es; [by left|right]. cbn in Ec. bdestr. destruct Ho as [?|Ho]; [done|]. split; [done|]. congruence.
Qed.

Lemma authorize_authority cfg r env w p w' : Admin.good verify w ->
  exec verify needs_rehash (_authorize urlsplit cfg r) env w = Some (inr p, w') ->
  authority urlsplit verify cfg r (Admin.history w') p
  /\ (p = Nobody -> public_health_request cfg r \/ device_request cfg r \/ login_request urlsplit cfg r /\ _anonymous cfg r = false)
  /\ (p <> Nobody -> _anonymous cfg r = false).
Proof.
  intros Hg. unfold _authorize. destruct (bool_decide (r_method r = "GET") && _) eqn:Eh.
  { intros [= <- <-]. bdestr. split; [by left|]. split; [by left|done]. }
  destruct (_anonymous cfg r) eqn:Ea.
  { destruct (negb (bool_decide (getlist "authorization" r = []))) eqn:Eau; [done|].
    destruct (negb (safe_method r) && _) eqn:Eb; [done|]. intros [= <- <-]. bdestr.
    assert (device_request cfg r) as Hd.
    { split_and!; auto. destruct (safe_method r); [by left|right]. cbn in Eb. by apply orb_false_iff in Eb. }
    split; [by right; left|]. split; [by right; left|done]. }
  destruct (_ || _) eqn:E1; [done|]. destruct (negb (bool_decide (request_origin urlsplit r ∈ _))) eqn:E2; [done|].
  destruct (negb _ && negb _) eqn:E3 at 1; [done|].
  pose proof (trusted_from cfg r E1 E2 E3) as Ht.
  destruct (negb (bool_decide (getlist "authorization" r = []))) eqn:Eau.
  { intros H. apply (bearer_authority cfg r _ env w p w' Hg Ht eq_refl) in H as (_ & H & x & ->). split; [done|]. split; [done|done]. }
  bdestr. destruct (negb (safe_method r) && _) eqn:Eo; [done|].
  assert (safe_method r = true \/ origin urlsplit (header_or "origin" r) = request_origin urlsplit r) as Ho.
  { apply andb_false_iff in Eo as [Eo|Eo]; bdestr; auto. }
  destruct (match listener cfg with Web => true | _ => false end && _) eqn:El.
  { intros [= <- <-]. bdestr. assert (login_request urlsplit cfg r) as Hl by (split_and!; auto; by destruct (listener cfg)).
    split; [by right; right|]. split; [by right; right|done]. }
  intros Hx. apply (session_authority_of cfg r env w p w' Hg Ht) in Hx as (Hx & x & ->); [|done..]. split; [done|]. split; done.
Qed.

(** C26. The boundary composed with the authentication database: whatever other logins, logouts, resets, rotations
    and requests run between its calls, a request that reaches a handler of the application carries the authority the
    database grants in that very history - a live session of this cookie, for a write with the origin and the
    session's secret; or a live token, of a scope that the contract of the route names, in a request without
    browser state - or it asked for the public health page, a mounted asset or the login page.  A device route is
    only reached through the device ingress, without credentials and not by a browser's write; websockets are
    closed.  Nothing passes unchecked but what is neither a request nor a websocket - unless the administration is
    configured to need no authentication, when everything does. *)
Theorem administration_needs_authority cfg r env calls h w :
  call urlsplit verify needs_rehash cfg r env (run Admin.start_world calls) = Some (h, w) ->
  match h with
  | Passthrough => auth_required cfg = false \/ r_type r ∉ ["http"; "websocket"]
  | CloseWebsocket _ => r_type r = "websocket"
  | Answer _ => r_type r = "http"
  | ToDeviceIngress _ _ _ => _anonymous cfg r = true /\ (public_health_request cfg r \/ device_request cfg r)
  | ToApp p => authority urlsplit verify cfg r (Admin.history w) p
      /\ (p = Nobody -> public_health_request cfg r \/ device_request cfg r /\ mounted cfg r \/ login_request urlsplit cfg r)
  end.
Proof.
  unfold call. destruct (auth_required cfg) eqn:Hreq; cbn [negb orb]; [|intros [= <- <-]; by left].
  destruct (negb (bool_decide (r_type r ∈ _))) eqn:Et.
  { intros [= <- <-]. right. by bdestr. }
  destruct (bool_decide (r_type r = "websocket")) eqn:Ew; [intros [= <- <-]; by bdestr|].
  assert (r_type r = "http") as Hhttp.
  { bdestr. apply elem_of_cons in Et as [?|Et]; [done|]. by apply list_elem_of_singleton in Et. }
  destruct (exec _ _ _ env _) as [[[a|p] w0]|] eqn:E; cbn; [|intros [= <- <-]|done]; [by intros [= <- <-]|].
  pose proof (Admin.run_good verify needs_rehash Admin.start_world calls (Admin.start_good verify)) as Hg.
  destruct (authorize_authority cfg r env _ p w0 Hg E) as (H1 & H2 & H3). unfold dispatch, human.
  assert (_anonymous cfg r = true -> exists s, selected cfg r = Some s) as Hsel.
  { unfold _anonymous. destruct (selected cfg r); [eauto|done]. }
  destruct (_anonymous cfg r) eqn:Ea.
  - assert (p = Nobody) as -> by (destruct p; [done|..]; discriminate H3; done).
    destruct (Hsel eq_refl) as [s Hs]. rewrite Hs. cbn [negb].
    assert (public_health_request cfg r \/ device_request cfg r) as Hd by (destruct (H2 eq_refl) as [?|[?|[_ ?]]]; auto; done).
    destruct (route_kind (s_route s)) eqn:Ek; [|split; [done|exact Hd]..].
    split; [done|]. intros _. destruct Hd as [?|Hd]; [by left|]. right; left. split; [done|]. exists s. split_and!; auto.
    revert Ea. unfold _anonymous. rewrite Hs, Ek. intros Ea. by bdestr.
  - cbn [negb]. assert (forall P : Prop, authority urlsplit verify cfg r (Admin.history w0) p /\
      (p = Nobody -> public_health_request cfg r \/ device_request cfg r /\ mounted cfg r \/ login_request urlsplit cfg r)) as Hgoal.
    { intros _. split; [done|]. intros Hp. destruct (H2 Hp) as [?|[Hd|[? _]]]; auto. destruct Hd as [Hd _]. congruence. }
    specialize (Hgoal True). by destruct (selected cfg r).
Qed.

(** ** Headers *)
Lemma filter_none name (headers : list (string * string)) (names : list string) : name ∈ names ->
  lookup_header name (List.filter (fun h => negb (bool_decide (py_lower h.1 ∈ names))) headers) = [].
Proof.
  intros Hin. unfold lookup_header. induction headers as [|h l IH]; [done|]. cbn.
  destruct (negb _) eqn:E; [|done]. cbn. rewrite bool_decide_false; [done|]. intros <-. bdestr. done.
Qed.

Lemma filter_keeps name (headers : list (string * string)) (names : list string) : name ∉ names ->
  lookup_header name (List.filter (fun h => negb (bool_decide (py_lower h.1 ∈ names))) headers) = lookup_header name headers.
Proof.
  intros Hin. unfold lookup_header. induction headers as [|h l IH]; [done|]. cbn.
  destruct (bool_decide (py_lower h.1 ∈ names)) eqn:E; cbn.
  - rewrite (bool_decide_false (py_lower h.1 = name)); [done|]. intros Hn. bdestr. congruence.
  - destruct (bool_decide (py_lower h.1 = name)); cbn; by rewrite IH.
Qed.

Lemma lookup_header_app name l l' : lookup_header name (l ++ l') = lookup_header name l ++ lookup_header name l'.
Proof. unfold lookup_header. by rewrite List.filter_app, map_app. Qed.

Lemma existsb_lookup name headers :
  existsb (fun h : string * string => bool_decide (py_lower h.1 = name)) headers = negb (bool_decide (lookup_header name headers = [])).
Proof.
  unfold lookup_header. induction headers as [|h l IH]; [done|]. cbn. destruct (bool_decide (py_lower h.1 = name)); [done|]. exact IH.
Qed.

Lemma lookup_restriction name value : (name, value) ∈ RESTRICTIONS -> lookup_header name RESTRICTIONS = [value].
Proof.
  unfold RESTRICTIONS. intros Hin. repeat (apply elem_of_cons in Hin as [Hin|Hin]; [injection Hin as -> ->; reflexivity|]). by apply elem_of_nil in Hin.
Qed.

Lemma csp_not_restricted : CSP ∉ map fst RESTRICTIONS.
Proof. intros H. cbn in H. repeat (apply elem_of_cons in H as [H|H]; [discriminate|]). by apply elem_of_nil in H. Qed.

Lemma csp_lookup : lookup_header CSP RESTRICTIONS = [].
Proof. reflexivity. Qed.

Definition lower_names (l : list (string * string)) : Prop := forall h, h ∈ l -> py_lower h.1 = h.1.
Lemma lookup_absent name l : lower_names l -> name ∉ map fst l -> lookup_header name l = [].
Proof.
  unfold lookup_header. induction l as [|h l IH]; [done|]. intros Hl Hn. cbn in Hn |- *. apply not_elem_of_cons in Hn as [Hn1 Hn2].
  rewrite (Hl h) by by left. rewrite bool_decide_false by congruence. apply IH; [|done]. intros x Hx. apply Hl. by right.
Qed.

Lemma replacements_lower path h : lower_names (replacements path h).
Proof.
  unfold replacements. intros x Hx. apply elem_of_app in Hx as [Hx|Hx].
  - unfold RESTRICTIONS in Hx. repeat (apply elem_of_cons in Hx as [Hx|Hx]; [by subst|]). by apply elem_of_nil in Hx.
  - repeat case_match; [by apply list_elem_of_singleton in Hx as ->|by apply elem_of_nil in Hx|by apply list_elem_of_singleton in Hx as ->..].
Qed.

(** Every response to a human request leaves with exactly one value of each restricting header, whatever the
    application set; its own content policy is kept except on the login and automation pages, which have
    the strictest one; every other header is left alone and in order. *)
Theorem browser_headers_exact path p headers name :
  let sent := secure_send true path p headers in
  (forall value, (name, value) ∈ RESTRICTIONS -> lookup_header name sent = [value])
  /\ (name = CSP -> lookup_header CSP sent =
        if bool_decide (path ∈ ["/auth/login"; "/auth/automation"]) then [AUTH_CSP]
        else match lookup_header CSP headers with
             | [] => [if bool_decide (path ∈ INTERACTIVE_DOCS) then BASE_CSP else APP_CSP]
             | own => own
             end)
  /\ (name ∉ CSP :: map fst RESTRICTIONS -> lookup_header name sent = lookup_header name headers).
Proof.
  intros sent.
  set (h1 := match p with Nobody => headers ++ [("x-content-type-options", "nosniff"); ("referrer-policy", "no-referrer")]
    | _ => List.filter (fun h => negb (bool_decide (py_lower h.1 ∈ ["cache-control"]))) (headers ++ [("x-content-type-options", "nosniff"); ("referrer-policy", "no-referrer")])
           ++ [("cache-control", "no-store")] end).
  assert (sent = secure_browser_response path h1) as ->.
  { unfold sent, secure_send, h1. destruct p; try done; f_equal; f_equal; apply List.filter_ext; intros h; f_equal; apply bool_decide_ext;
      by rewrite list_elem_of_singleton. }
  assert (forall m, m ∉ map fst RESTRICTIONS -> lookup_header m h1 = lookup_header m headers) as Hh1.
  { intros m Hm. assert (lookup_header m [("x-content-type-options", "nosniff"); ("referrer-policy", "no-referrer")] = []) as Hx.
    { unfold lookup_header. cbn. rewrite !bool_decide_false; [done|intros <-; apply Hm; set_solver..]. }
    assert (lookup_header m [("cache-control", "no-store")] = []) as Hc.
    { unfold lookup_header. cbn. rewrite bool_decide_false; [done|intros <-; apply Hm; set_solver]. }
    unfold h1. destruct p; [by rewrite lookup_header_app, Hx, app_nil_r|..];
      rewrite lookup_header_app, filter_keeps, lookup_header_app, Hx, Hc, !app_nil_r; try done;
      intros ->%list_elem_of_singleton; apply Hm; set_solver. }
  clearbody h1. unfold secure_browser_response. set (new := replacements path h1).
  assert (map fst RESTRICTIONS ⊆ map fst new) as Hsub.
  { unfold new, replacements. rewrite map_app. intros m Hm. apply elem_of_app. by left. }
  assert (forall m, lookup_header m (List.filter (fun h => negb (bool_decide (py_lower h.1 ∈ map fst new))) h1 ++ new)
    = (if decide (m ∈ map fst new) then [] else lookup_header m h1) ++ lookup_header m new) as Hl.
  { intros m. rewrite lookup_header_app. case_decide; [by rewrite filter_none|by rewrite filter_keeps]. }
  split; [|split].
  - intros value Hin. rewrite Hl, decide_True by (apply Hsub; by apply (list_elem_of_fmap_2 fst) in Hin). cbn [app].
    unfold new, replacements. rewrite lookup_header_app. rewrite (lookup_restriction name value Hin).
    assert (name <> CSP) as Hn. { intros ->. unfold RESTRICTIONS in Hin. repeat (apply elem_of_cons in Hin as [Hin|Hin]; [discriminate|]). by apply elem_of_nil in Hin. }
    assert (forall v, lookup_header name [(CSP, v)] = []) as Hc. { intros v. unfold lookup_header. cbn. by rewrite bool_decide_false by (intros E; by apply Hn). }
    repeat case_match; rewrite ?Hc; done.
  - intros ->. rewrite Hl. unfold new, replacements. rewrite lookup_header_app, (existsb_lookup CSP h1), (Hh1 CSP csp_not_restricted). rewrite csp_lookup.
    destruct (bool_decide (path ∈ ["/auth/login"; "/auth/automation"])).
    { rewrite decide_True by (rewrite map_app; apply elem_of_app; right; by left). done. }
    destruct (lookup_header CSP headers) as [|v own] eqn:E; cbn [negb bool_decide].
    + rewrite bool_decide_true by done. cbn [negb]. rewrite decide_True by (rewrite map_app; apply elem_of_app; right; by left). done.
    + rewrite bool_decide_false by done. cbn [negb]. cbv iota. rewrite app_nil_r, decide_False by apply csp_not_restricted.
      rewrite ?E. cbn. by rewrite ?app_nil_r.
  - intros Hn. apply not_elem_of_cons in Hn as [Hn1 Hn2]. rewrite Hl.
    assert (name ∉ map fst new) as Hnew.
    { unfold new, replacements. rewrite map_app. intros [?|Hx]%elem_of_app; [done|]. repeat case_match; cbn in Hx; try by apply elem_of_nil in Hx.
      all: by apply list_elem_of_singleton in Hx. }
    rewrite decide_False by done. rewrite (lookup_absent name new (replacements_lower path h1) Hnew), app_nil_r. by apply Hh1.
Qed.

End Facts.

(** ** Examples *)
Definition demo_urlsplit (value : string) : option url_parts :=
  if starts_with "https://radio.home" value
  then Some {| u_scheme := "https"; u_hostname := Some "radio.home"; u_username := None; u_password := None;
               u_path := ""; u_query := ""; u_fragment := ""; u_port := Some None |}
  else None.
Definition rename_route : route :=
  {| route_id := 3; route_kind := IsAPIRoute; route_path := Some "/api/devices/{device_id}/rename";
     module_of := "basswiesn.app.routers.api"; name_of := "rename_device"; methods := Some ["POST"] |}.
Definition demo_config : config :=
  {| auth_required := true; allow_http := false; admin_origins := ["https://radio.home"]; listener := Web; anonymous := [];
     routes := [{| original_route := rename_route; context_path := "/api/devices/{device_id}/rename";
                   context_matches := fun r => if bool_decide (r_method r = "POST") then Some [("device_id", "AA")] else None |}];
     public_health := []; public_login := [] |}.
Definition demo_request : request :=
  {| r_type := "http"; r_scheme := "https"; r_method := "POST"; r_path := "/api/devices/AA/rename"; r_cookie := Admin.demo_cookie;
     r_headers := [("host", "radio.home"); ("origin", "https://radio.home"); ("cookie", "");
                   ("x-basswiesn-csrf", Admin._csrf Admin.demo_cookie)] |}.
Definition demo_schedule : schedule := [([Admin.Reserve 5 "10.0.0.9" 250 true], 300, true); ([], 301, true)].
Definition demo_session : Admin.AdminSession :=
  {| Admin.username := "admin"; Admin.expires_at := 29001; Admin.csrf_token := Admin._csrf Admin.demo_cookie |}.
Definition demo_call : option (handling * Admin.world) :=
  call demo_urlsplit Admin.demo_verify (fun _ => false) demo_config demo_request demo_schedule
    (Admin.run Admin.demo_verify (fun _ => false) Admin.start_world Admin.demo_login).

(** A write of a signed-in administrator, with another login between its two calls. *)
Lemma administration_needs_authority_witness :
  exists w, demo_call = Some (ToApp (Administrator demo_session), w)
    /\ authority demo_urlsplit Admin.demo_verify demo_config demo_request (Admin.history w) (Administrator demo_session).
Proof.
  exists (match demo_call with Some (_, w) => w | None => Admin.start_world end).
  assert (demo_call = Some (ToApp (Administrator demo_session), match demo_call with Some (_, w) => w | None => Admin.start_world end)) as H
    by (vm_compute; reflexivity).
  revert H. generalize (match demo_call with Some (_, w) => w | None => Admin.start_world end). intros w H. split; [exact H|].
  unfold demo_call in H. apply administration_needs_authority in H. exact (proj1 H).
Defined.

(** The automation credential of a token whose scopes do not cover the route. *)
Example token_of_another_scope :
  match call demo_urlsplit Admin.demo_verify (fun _ => false) demo_config
    {| r_type := "http"; r_scheme := "https"; r_method := "POST"; r_path := "/api/devices/AA/rename"; r_cookie := "";
       r_headers := [("host", "radio.home");
         ("authorization", "Bearer " +:+ Admin.token_text Admin.demo_id "0123456789abcdefghijABCDEFGHIJ0123456789-_c")] |}
    demo_schedule (Admin.run Admin.demo_verify (fun _ => false) Admin.start_world Admin.demo_tokens) with
  | Some (h, _) => h = Answer (AuthError "TOKEN_SCOPE_DENIED" 403)
  | None => False
  end.
Proof. vm_compute. reflexivity. Qed.

End Boundary.
