(* ===== verification/Xml.v ===== *)
(** * XML elements

    The part of [xml.etree.ElementTree] the sources use on a parsed document: attributes,
    the text before the first child, [find] and [findtext] by a tag, descendants, and the
    text of an element the program builds itself.  The parser ([defusedxml], behind
    [parse_xml] of core/xml_safety.py) is a parameter of the components: a function from
    texts to elements that may fail. *)
From Stdlib Require Import Ascii String.
From S2P Require Import Prelude PyNum PyStr.
#[local] Open Scope string_scope.
#[local] Open Scope list_scope.
#[local] Open Scope Z_scope.

Module Xml.

(** An [Element]; the text after its end tag plays no part. *)
#[warnings="-register-all"]
Inductive element : Type :=
| Element (tag : string) (attrib : list (string * string)) (text : option string) (children : list element).

Definition tag (e : element) : string := match e with Element t _ _ _ => t end.
Definition attrib (e : element) : list (string * string) := match e with Element _ a _ _ => a end.
Definition text (e : element) : option string := match e with Element _ _ t _ => t end.
Definition children (e : element) : list element := match e with Element _ _ _ c => c end.

(** A dictionary of strings, in the order of its insertions. *)
Fixpoint lookup_key {A} (k : string) (d : list (string * A)) : option A :=
  match d with
  | [] => None
  | (x, v) :: d => if bool_decide (x = k) then Some v else lookup_key k d
  end.

(** [e.get(name)] and [e.get(name, default)]. *)
Definition attr (name : string) (e : element) : option string := lookup_key name (attrib e).
Definition attr_or (name d : string) (e : element) : string := default d (attr name e).

(** [e.findall(name)] and [e.find(name)] for a plain tag: the children. *)
Definition has_tag (name : string) (e : element) : bool := bool_decide (tag e = name).
Definition findall (name : string) (e : element) : list element := List.filter (has_tag name) (children e).
Definition find (name : string) (e : element) : option element := head (findall name e).

(** [e.findtext(name)]: an empty element has the text "". *)
Definition text_of (e : element) : string := default "" (text e).
Definition findtext (name : string) (e : element) : option string := text_of <$> find name e.
Definition findtext_or (name d : string) (e : element) : string := default d (findtext name e).

(** The elements below [e] in document order: [e.iter()] without [e]; the path
    [.//name] is the first of them with that tag. *)
Fixpoint descendants (e : element) : list element :=
  match e with
  | Element _ _ _ cs => (fix below (l : list element) : list element :=
      match l with [] => [] | c :: l => c :: descendants c ++ below l end) cs
  end.
Definition deep_findtext_or (name d : string) (e : element) : string :=
  default d (text_of <$> head (List.filter (has_tag name) (descendants e))).

(** ** [ET.tostring(e, encoding="unicode")] of an element built by the program *)
Definition quote : string := String (chr 34) EmptyString.

Definition escape_char (in_attribute : bool) (c : ascii) : string :=
  if code c =? 38 then "&amp;"
  else if code c =? 60 then "&lt;"
  else if code c =? 62 then "&gt;"
  else if in_attribute && (code c =? 34) then "&quot;"
  else if in_attribute && (code c =? 13) then "&#13;"
  else if in_attribute && (code c =? 10) then "&#10;"
  else if in_attribute && (code c =? 9) then "&#09;"
  else String c EmptyString.
Fixpoint escape (in_attribute : bool) (s : string) : string :=
  match s with
  | EmptyString => EmptyString
  | String c s => escape_char in_attribute c +:+ escape in_attribute s
  end.

Definition print_attribute (kv : string * string) : string :=
  " " +:+ kv.1 +:+ "=" +:+ quote +:+ escape true kv.2 +:+ quote.

Fixpoint tostring (e : element) : string :=
  match e with
  | Element t a txt cs =>
      "<" +:+ t +:+ String.concat "" (map print_attribute a)
      +:+ (if empty_str (default "" txt) && bool_decide (cs = [])
           then " />"
           else ">" +:+ escape false (default "" txt) +:+ String.concat "" (map tostring cs) +:+ "</" +:+ t +:+ ">")
  end.

(** ** Escaped text *)
Definition plain_char (in_attribute : bool) (c : ascii) : bool :=
  negb ((code c =? 38) || (code c =? 60) || (code c =? 62)
        || in_attribute && ((code c =? 34) || (code c =? 13) || (code c =? 10) || (code c =? 9))).

Lemma escape_plain b s : sall (plain_char b) s = true -> escape b s = s.
Proof.
  induction s as [|c s IH]; [done|]. cbn [sall escape]. intros [Hc Hs]%andb_true_iff. rewrite (IH Hs).
  unfold plain_char, escape_char in *. apply negb_true_iff in Hc. rewrite !orb_false_iff in Hc.
  destruct Hc as [[[-> ->] ->] Hb]. destruct b; [|done]. cbn in Hb |- *.
  rewrite !orb_false_iff in Hb. by destruct Hb as [[[-> ->] ->] ->].
Qed.

(** What an attribute or a text prints contains no mark-up of its own. *)
Definition no_markup (c : ascii) : bool := negb ((code c =? 60) || (code c =? 62)).

Lemma escape_no_markup b s : sall no_markup (escape b s) = true.
Proof.
  induction s as [|c s IH]; [done|]. cbn [escape]. rewrite sall_app, IH, andb_true_r. unfold escape_char.
  repeat (case_match; [reflexivity|]). cbn. unfold no_markup.
  repeat match goal with H : (code c =? _) = false |- _ => rewrite H end. done.
Qed.

Lemma lookup_key_elem {A} k (d : list (string * A)) v : lookup_key k d = Some v -> (k, v) ∈ d.
Proof.
  induction d as [|[x w] d IH]; [done|]. cbn. case_bool_decide as Hk; intros H.
  - injection H as ->. subst. left.
  - right. by apply IH.
Qed.
#[export] Hint Resolve lookup_key_elem : py.

End Xml.
