(* ===== verification/Protected.v ===== *)
(** * Protected devices

    services/protected_devices.py: the policy that keeps every transport away from
    configured addresses and identities.  A decision reads the process settings, two rows
    of the settings table and one row of the device table; each read of the store may
    fail, and a failure never permits anything. *)
From Stdlib Require Import Ascii String.
From S2P Require Import Prelude PyNum PyStr Json Ingress.
#[local] Open Scope string_scope.
#[local] Open Scope list_scope.
#[local] Open Scope Z_scope.

Module Protected.

(** [c in s]. *)
Definition char_in (c : ascii) (s : string) : bool := negb (sall (fun x => negb (bool_decide (x = c))) s).

(** ** [_normalize_ip] and [_normalize_device_id] *)

(** [ipaddress.ip_address] with a scope id: everything after one percent sign, without a
    slash, which no address may contain. *)
Definition scoped_address (s : string) : option (Ingress.address * option string) :=
  match split_on "%"%char s with
  | [_] => (fun a => (a, None)) <$> Ingress.ip_address s
  | [addr; scope] =>
      if empty_str scope || char_in "/" scope then None
      else (fun v => (Ingress.IPv6Address v, Some scope)) <$> Ingress.ipv6 addr
  | _ => None
  end.

(** An IPv4 address in its IPv6 spelling is the IPv4 address, whatever its scope. *)
Definition host (x : Ingress.address * option string) : Ingress.address * option string :=
  match Ingress.unmapped x.1 with
  | Ingress.IPv4Address v => (Ingress.IPv4Address v, None)
  | a => (a, x.2)
  end.
Definition host_text (x : Ingress.address * option string) : string :=
  Ingress.address_text x.1 +:+ match x.2 with Some scope => "%" +:+ scope | None => "" end.

Definition _normalize_ip (value : string) : string :=
  match scoped_address (py_strip value) with
  | Some x => host_text (host x)
  | None => py_strip value
  end.
Definition _normalize_device_id (value : string) : string := py_upper (py_strip value).

(** [re.split(r"[\s,;]+", s)] without its empty pieces, and [s.split()], for the ASCII
    separators [sep]: [word] is the piece read so far, backwards. *)
Fixpoint srev (acc s : string) : string :=
  match s with EmptyString => acc | String c s => srev (String c acc) s end.
Definition flush_word (word : string) (rest : list string) : list string :=
  if empty_str word then rest else srev EmptyString word :: rest.
Definition is_separator (c : ascii) : bool := is_space c || bool_decide (c = ","%char) || bool_decide (c = ";"%char).
Fixpoint words (sep : ascii -> bool) (word s : string) : list string :=
  match s with
  | EmptyString => flush_word word []
  | String a s1 =>
      if sep a then flush_word word (words sep EmptyString s1)
      else match s1 with
           | EmptyString => flush_word (String a word) []
           | String b s2 =>
               if is_space2 a b then flush_word word (words sep EmptyString s2)
               else match s2 with
                    | String c s3 =>
                        if is_space3 a b c then flush_word word (words sep EmptyString s3) else words sep (String a word) s1
                    | EmptyString => words sep (String a word) s1
                    end
           end
  end.
Definition split_list (s : string) : list string := words is_separator EmptyString s.

Definition _parse_ip_list (value : string) : list string :=
  map _normalize_ip (List.filter (fun item => is_some (scoped_address item)) (split_list value)).

(** ** The inputs of a decision

    [IMMUTABLE_PROTECTED_IPS] and [IMMUTABLE_PROTECTED_DEVICE_IDS] of app/config.py are
    the constants of a build; the public build has none. *)
Inductive exn : Type := ProtectionPolicyUnavailable | Forbidden (status : Z).

Record policy := {
  immutable_ips : list string;
  immutable_ids : list string;
  settings_ips : list string;                          (* get_settings().protected_device_ips *)
  settings_ids : list string;
  setting_row : string -> option (option string);      (* None: the store failed; Some None: no row *)
  device_row : string -> option (option string)        (* the address stored for an identity *)
}.

Definition IMMUTABLE_PROTECTED_IPS : list string := [].
Definition IMMUTABLE_PROTECTED_DEVICE_IDS : list string := [].

Definition listed (x : string) (l : list string) : bool := bool_decide (x ∈ l).
Definition non_blank (l : list string) : list string := List.filter (fun s => negb (empty_str s)) l.

Definition _settings_table_protected_ips (p : policy) : res exn (list string) :=
  match setting_row p "protected_device_ips" with
  | None => Err ProtectionPolicyUnavailable
  | Some row => Ok (_parse_ip_list (default "" row))
  end.
Definition _settings_table_protected_ids (p : policy) : res exn (list string) :=
  match setting_row p "protected_device_ids" with
  | None => Err ProtectionPolicyUnavailable
  | Some row => Ok (non_blank (map _normalize_device_id (split_list (default "" row))))
  end.

Definition protected_device_ips (p : policy) : res exn (list string) :=
  let env_ips := map _normalize_ip (List.filter (fun item => negb (empty_str (py_strip item))) (settings_ips p)) in
  table ← _settings_table_protected_ips p;
  Ok (map _normalize_ip (non_blank (immutable_ips p ++ env_ips ++ table))).

Definition protected_device_ids (p : policy) : res exn (list string) :=
  let env_ids := non_blank (map _normalize_device_id (settings_ids p)) in
  table ← _settings_table_protected_ids p;
  Ok (immutable_ids p ++ env_ids ++ table).

(** The stored address of an identity, and whether the lookup failed. *)
Definition _device_row_by_id (p : policy) (device_id : string) : option string * bool :=
  let normalized_id := _normalize_device_id device_id in
  if empty_str normalized_id then (None, false)
  else match device_row p normalized_id with
       | None => (None, true)
       | Some row => (row, false)
       end.

(** ** Decisions: None in Python is the empty string here *)
Definition is_device_access_protected (p : policy) (ip_address device_id : string) : res exn bool :=
  let normalized_ip := _normalize_ip ip_address in
  let normalized_id := _normalize_device_id device_id in
  configured_ips ← protected_device_ips p;
  if listed normalized_ip (immutable_ips p) then Ok true
  else
    ids ← protected_device_ids p;
    if listed normalized_id ids then Ok true
    else if negb (empty_str normalized_ip) && listed normalized_ip configured_ips then Ok true
    else if empty_str normalized_id then Ok false
    else
      let '(row, lookup_failed) := _device_row_by_id p normalized_id in
      if lookup_failed then Ok true
      else match row with
           | None => Ok false
           | Some address =>
               let row_ip := _normalize_ip address in
               Ok (listed row_ip configured_ips
                   || negb (empty_str normalized_ip) && negb (empty_str row_ip) && negb (bool_decide (row_ip = normalized_ip)))
           end.

Definition is_protected_ip (p : policy) (value : string) : res exn bool :=
  configured ← protected_device_ips p;
  Ok (listed (_normalize_ip value) configured).

Definition is_explicit_discovery_target_protected (p : policy) (ip_address advertised_device_id : string) : res exn bool :=
  configured ← protected_device_ips p;
  if listed (_normalize_ip ip_address) configured then Ok true
  else
    ids ← protected_device_ids p;
    Ok (listed (_normalize_device_id advertised_device_id) ids).

Definition first_protected_ip (p : policy) (values : list string) : res exn (option string) :=
  protected ← protected_device_ips p;
  Ok (head (List.filter (fun normalized => negb (empty_str normalized) && listed normalized protected) (map _normalize_ip values))).

(** A device object: its address and identity. *)
Definition target : Type := string * string.

Definition is_protected_device (p : policy) (device : option target) : res exn bool :=
  match device with
  | None => mret false
  | Some (ip_address, id) =>
      if listed (_normalize_ip ip_address) (immutable_ips p) then Ok true
      else
        by_ip ← is_protected_ip p ip_address;
        if (by_ip : bool) then Ok true
        else
          let device_id := _normalize_device_id id in
          if empty_str device_id then Ok false
          else
            ids ← protected_device_ids p;
            if listed device_id ids then Ok true
            else
              let '(row, lookup_failed) := _device_row_by_id p device_id in
              if lookup_failed then Ok true
              else match row with
                   | None => Ok false
                   | Some address =>
                       let row_ip := _normalize_ip address in
                       configured ← protected_device_ips p;
                       Ok (listed row_ip configured
                           || negb (empty_str row_ip) && negb (empty_str (_normalize_ip ip_address))
                              && negb (bool_decide (row_ip = _normalize_ip ip_address)))
                   end
  end.

(** A list comprehension: the first failing decision leaves it. *)
Fixpoint filter_unprotected_devices (p : policy) (devices : list target) : res exn (list target) :=
  match devices with
  | [] => mret []
  | d :: devices =>
      protected ← is_protected_device p (Some d);
      rest ← filter_unprotected_devices p devices;
      Ok (if (protected : bool) then rest else d :: rest)
  end.

Definition reject_protected_device_access (p : policy) (ip_address device_id : string) : res exn unit :=
  protected ← is_device_access_protected p ip_address device_id;
  if (protected : bool) then Err (Forbidden 403) else Ok tt.

Definition require_unprotected_device (p : policy) (device : option target) : res exn unit :=
  protected ← is_protected_device p device;
  if (protected : bool) then Err (Forbidden 403) else Ok tt.


(** * Proofs *)

(** ** Texts of addresses read back *)

Lemma split_on_free c s : char_in c s = false -> split_on c s = [s].
Proof.
  unfold char_in. rewrite negb_false_iff. induction s as [|a s IH]; [done|]. cbn [sall split_on].
  intros [Ha Hs]%andb_true_iff. apply negb_true_iff in Ha. rewrite Ha. by rewrite (IH Hs).
Qed.

Lemma split_on_app c w s : char_in c w = false -> split_on c (w +:+ String c s) = w :: split_on c s.
Proof.
  unfold char_in. rewrite negb_false_iff. induction w as [|a w IH].
  - intros _. cbn [String.append split_on]. rewrite bool_decide_true by done. done.
  - cbn [sall String.append split_on]. intros [Ha Hs]%andb_true_iff. apply negb_true_iff in Ha. rewrite Ha. by rewrite (IH Hs).
Qed.

Lemma split_on_join c l :
  l <> [] -> Forall (fun w => char_in c w = false) l -> split_on c (Ingress.join (String c EmptyString) l) = l.
Proof.
  induction l as [|w l IH]; [done|]. intros _ [Hw Hl]%list.Forall_cons. destruct l as [|v l]; [by apply split_on_free|].
  change (Ingress.join _ (w :: v :: l)) with (w +:+ (String c EmptyString +:+ Ingress.join (String c EmptyString) (v :: l))).
  cbn [String.append]. rewrite (split_on_app c w _ Hw). f_equal. by apply IH.
Qed.

Lemma char_in_app c s t : char_in c (s +:+ t) = char_in c s || char_in c t.
Proof.
  unfold char_in. induction s as [|a s IH]; [done|]. cbn [String.append sall].
  destruct (negb (bool_decide (a = c))); [exact IH|done].
Qed.

Lemma char_in_join c sep l :
  char_in c sep = false -> Forall (fun w => char_in c w = false) l -> char_in c (Ingress.join sep l) = false.
Proof.
  intros Hs. induction l as [|w l IH]; [done|]. intros [Hw Hl]%list.Forall_cons. destruct l as [|v l]; [done|].
  change (Ingress.join _ (w :: v :: l)) with (w +:+ (sep +:+ Ingress.join sep (v :: l))).
  by rewrite !char_in_app, Hw, Hs, (IH Hl).
Qed.

(** Every octet and every hextet, by evaluation. *)
Fixpoint upfrom (n : nat) (z : Z) : list Z := match n with O => [] | S n => z :: upfrom n (z + 1) end.
Lemma elem_of_upfrom n z x : z <= x < z + Z.of_nat n -> x ∈ upfrom n z.
Proof.
  revert z. induction n as [|n IH]; intros z H; [lia|]. cbn. apply elem_of_cons.
  destruct (decide (x = z)); [by left|]. right. apply IH. lia.
Qed.

Definition dotless (s : string) : bool := negb (char_in ":" s || char_in "%" s || char_in "." s).
Definition octet_ok (n : Z) : bool :=
  bool_decide (Ingress.octet (Ingress.text_of_int n) = Some n) && dotless (Ingress.text_of_int n).
Definition hextet_ok (n : Z) : bool :=
  let t := Ingress.hex_text n in
  bool_decide (Ingress.hextet t = Some n) && dotless t && negb (empty_str t) && Bool.eqb (bool_decide (t = "0")) (n =? 0).

Lemma octet_text n : 0 <= n < 256 -> octet_ok n = true.
Proof.
  intros H. apply (elem_of_upfrom 256 0) in H. assert (forallb octet_ok (upfrom 256 0) = true) as E by (vm_compute; reflexivity).
  apply list_elem_of_In in H. rewrite forallb_forall in E. by apply E.
Qed.

Definition hex_digit_ok (d : Z) : bool :=
  let c := chr (hex_char d) in
  bool_decide (hex_digit (code c) = Some d) && dotless (String c EmptyString) && Bool.eqb (bool_decide (c = "0"%char)) (d =? 0).
Lemma hex_digit_text d : 0 <= d < 16 -> hex_digit_ok d = true.
Proof.
  intros H. apply (elem_of_upfrom 16 0) in H. assert (forallb hex_digit_ok (upfrom 16 0) = true) as E by (vm_compute; reflexivity).
  apply list_elem_of_In in H. rewrite forallb_forall in E. by apply E.
Qed.

Lemma dotless_cons c s : dotless (String c EmptyString) = true -> dotless (String c s) = dotless s.
Proof.
  unfold dotless. rewrite !negb_true_iff, !orb_false_iff. intros [[H1 H2] H3]. change (String c s) with (String c EmptyString +:+ s).
  by rewrite !char_in_app, H1, H2, H3.
Qed.

(** The hextets with leading zeros dropped. *)
Lemma hextet_digits l :
  Forall (fun d => 0 <= d < 16) l -> (0 < length l <= 4)%nat -> (head l = Some 0 -> length l = 1%nat) ->
  let t := string_of (map hex_char l) in
  Ingress.hextet t = Some (fold_left (fun v d => 16 * v + d) l 0) /\ dotless t = true /\ empty_str t = false
  /\ (t = "0" <-> l = [0]).
Proof.
  intros Hl Hn Hh t. split; [|split; [|split]].
  - unfold Ingress.hextet. replace (4 <? Ingress.slen t) with false.
    2: { symmetry. apply Z.ltb_ge. unfold Ingress.slen, t. clear -Hn. assert (String.length (string_of (map hex_char l)) = length l) as ->; [|lia].
         clear. induction l; cbn; congruence. }
    destruct l as [|d l]; [cbn in Hn; lia|]. cbn [empty_str orb]. subst t. cbn [map string_of].
    change (empty_str (String _ _)) with false. cbv iota. change (String _ _) with (string_of (map hex_char (d :: l))).
    generalize 0 at 1 2. clear Hn Hh. revert Hl. generalize (d :: l). induction l0 as [|x l0 IH]; intros Hl v; [done|].
    apply list.Forall_cons in Hl as [Hx Hl]. apply hex_digit_text in Hx. unfold hex_digit_ok in Hx. bdestr.
    cbn [map string_of Ingress.hex_value fold_left]. rewrite H. cbn. by apply IH.
  - subst t. clear Hn Hh. induction Hl as [|x l Hx _ IH]; [done|]. apply hex_digit_text in Hx. unfold hex_digit_ok in Hx. bdestr.
    cbn [map string_of]. rewrite dotless_cons; assumption.
  - destruct l; [cbn in Hn; lia|]. reflexivity.
  - subst t. destruct l as [|x l]; [cbn in Hn; lia|]. apply list.Forall_cons in Hl as [Hx Hl]. apply hex_digit_text in Hx.
    unfold hex_digit_ok in Hx. bdestr. apply Bool.eqb_prop in H0. cbn [map string_of]. split.
    + intros E. injection E as E1 E2. rewrite bool_decide_true in H0 by done. symmetry in H0. apply Z.eqb_eq in H0. subst x.
      assert (length (0 :: l) = 1%nat) by (by apply Hh). destruct l; [done|done].
    + intros [= -> ->]. reflexivity.
Qed.

Lemma hextet_text n : 0 <= n < 65536 ->
  let t := Ingress.hex_text n in
  Ingress.hextet t = Some n /\ dotless t = true /\ empty_str t = false /\ (t = "0" <-> n = 0).
Proof.
  intros H. unfold Ingress.hex_text.
  assert (forall x, 0 <= x mod 16 < 16) as Hm by (intros; apply Z.mod_pos_bound; lia).
  assert (n / 16 = 16 * (n / 256) + n / 16 mod 16) as H1.
  { rewrite <- (Z.div_div n 16 16) at 1 by lia. apply Z.div_mod. lia. }
  assert (n / 256 = 16 * (n / 4096) + n / 256 mod 16) as H2.
  { rewrite <- (Z.div_div n 256 16) at 1 by lia. apply Z.div_mod. lia. }
  assert (n = 16 * (n / 16) + n mod 16) as H3 by (apply Z.div_mod; lia).
  assert (0 <= n / 4096 < 16) by (split; [apply Z.div_pos; lia|apply Z.div_lt_upper_bound; lia]).
  destruct (n <? 16) eqn:E1; [|destruct (n <? 256) eqn:E2; [|destruct (n <? 4096) eqn:E3]]; bdestr; cbn [skipn].
  all: match goal with |- context [map hex_char ?l] => destruct (hextet_digits l) as (-> & -> & -> & ->) end; cbn [length fold_left list.head].
  all: try lia; try (by repeat constructor).
  all: repeat match goal with |- Forall _ _ => apply list.Forall_cons; split | |- _ /\ _ => split end; try apply Hm; try done; try lia.
  all: pose proof (Z.div_small n 256); pose proof (Z.div_small n 4096); pose proof (Z.div_str_pos n 16);
    pose proof (Z.div_str_pos n 256); pose proof (Z.div_str_pos n 4096).
  all: match goal with |- _ <-> _ => split; intros E; [first [by injection E|discriminate E]|] | |- @eq (option Z) _ _ => f_equal | _ => intros E; apply (inj Some) in E; exfalso end.
  all: try lia. by rewrite E.
Qed.

Fixpoint flag_runs (i run : nat) (best : nat * nat) (l : list bool) : nat * nat :=
  match l with
  | [] => best
  | true :: l => flag_runs (S i) (S run) (if (best.2 <? S run)%nat then ((i - run)%nat, S run) else best) l
  | false :: l => flag_runs (S i) 0 best l
  end.

Lemma zero_runs_flags i run best l :
  Ingress.zero_runs i run best l = flag_runs i run best (map (fun h => bool_decide (h = "0")) l).
Proof.
  revert i run best. induction l as [|h l IH]; intros i run best; [done|]. cbn [Ingress.zero_runs map flag_runs].
  by destruct (bool_decide (h = "0")); rewrite IH.
Qed.

(** The longest run of zeros found lies in the list and consists of zeros. *)
Definition run_ok (l : list bool) : bool :=
  let '(start, n) := flag_runs 0 0 (0%nat, 0%nat) l in
  (n <=? 1)%nat || ((start + n <=? length l)%nat && forallb id (firstn n (skipn start l))).

Fixpoint all_flags (n : nat) : list (list bool) :=
  match n with O => [[]] | S n => map (cons true) (all_flags n) ++ map (cons false) (all_flags n) end.
Lemma elem_of_all_flags l : In l (all_flags (length l)).
Proof.
  induction l as [|b l IH]; [by left|]. cbn. apply in_app_iff.
  destruct b; [left|right]; by apply in_map.
Qed.

Lemma run_found l : length l = 8%nat -> run_ok l = true.
Proof.
  intros H. assert (forallb run_ok (all_flags 8) = true) as E by (vm_compute; reflexivity).
  rewrite forallb_forall in E. apply E. rewrite <- H. apply elem_of_all_flags.
Qed.

Lemma dotless_spec s : dotless s = true -> char_in ":" s = false /\ char_in "%" s = false /\ char_in "." s = false.
Proof. unfold dotless. rewrite negb_true_iff, !orb_false_iff. tauto. Qed.

(** Eight hextets, given by their texts, are read back from the compressed form. *)
Record hextet_of (n : Z) (t : string) : Prop := {
  he_value : Ingress.hextet t = Some n;
  he_dotless : dotless t = true;
  he_empty : empty_str t = false;
  he_zero : t = "0" <-> n = 0
}.

Definition shorten (start n : nat) (l : list string) : list string :=
  (if (start =? 0)%nat then [""] else []) ++ firstn start l ++ [""]
    ++ (if (start + n =? length l)%nat then [""] else skipn (start + n) l).

Definition hextets_value (ns : list Z) : Z := fold_left (fun acc n => acc * 65536 + n) ns 0.

Lemma ipv6_join parts :
  parts <> [] -> Forall (fun w => dotless w = true) parts ->
  Ingress.ipv6 (Ingress.join ":" parts) =
  (let n := length parts in
   if (n <? 3)%nat then None
   else if (9 <? n)%nat then None
   else match List.filter (fun i => empty_str (nth i parts "")) (seq 1 (n - 2)) with
    | [] =>
        if negb (n =? 8)%nat || empty_str (nth 0 parts "") || empty_str (nth (n - 1) parts "") then None
        else Ingress.hextets 0 parts
    | [skip] =>
        let hi := if empty_str (nth 0 parts "") then (skip - 1)%nat else skip in
        let lo := if empty_str (nth (n - 1) parts "") then (n - skip - 2)%nat else (n - skip - 1)%nat in
        if (empty_str (nth 0 parts "") && negb (hi =? 0)%nat)
           || (empty_str (nth (n - 1) parts "") && negb (lo =? 0)%nat) then None
        else if (8 <? hi + lo + 1)%nat then None
        else v ← Ingress.hextets 0 (firstn hi parts);
             Ingress.hextets (v * 2 ^ (16 * (8 - Z.of_nat (hi + lo)))) (skipn (n - lo) parts)
    | _ => None
    end).
Proof.
  intros Hne Hd. unfold Ingress.ipv6. change ":" with (String ":"%char EmptyString). rewrite split_on_join; [|done|].
  2: { eapply list.Forall_impl; [exact Hd|]. by intros w (H & _)%dotless_spec. }
  cbv zeta. destruct (length parts <? 3)%nat; [done|]. unfold Ingress.quad_parts. destruct (list.last parts) as [p|] eqn:El.
  - assert (p ∈ parts) as Hp by (apply last_Some in El as (l & ->); set_solver).
    rewrite list.Forall_forall in Hd. apply Hd, dotless_spec in Hp as (_ & _ & Hp).
    rewrite (split_on_free _ _ Hp), bool_decide_true by done.
    reflexivity.
  - apply last_None in El. done.
Qed.

Lemma hextets_cons acc t h l : Ingress.hextet t = Some h -> Ingress.hextets acc (t :: l) = Ingress.hextets (acc * 65536 + h) l.
Proof. intros H. unfold Ingress.hextets. cbn [fold_left]. cbn [mbind option_bind]. by rewrite H. Qed.

Lemma hextets_nil acc : Ingress.hextets acc [] = Some acc.
Proof. reflexivity. Qed.

Lemma ipv6_shorten ns ts start n :
  Forall2 hextet_of ns ts -> length ts = 8%nat -> (2 <= n)%nat -> (start + n <= 8)%nat ->
  Forall (fun x => x = 0) (firstn n (skipn start ns)) ->
  Ingress.ipv6 (Ingress.join ":" (shorten start n ts)) = Some (hextets_value ns).
Proof.
  intros H2 Hlen Hn Hs Hz.
  assert (dotless "" = true) as He by reflexivity.
  assert (Forall (fun w => dotless w = true) ts) as Hd.
  { clear -H2. induction H2 as [|x t ns ts [] _ IH]; constructor; done. }
  rewrite ipv6_join.
  2: { unfold shorten. by destruct (start =? 0)%nat, (firstn start ts). }
  2: { unfold shorten. rewrite !list.Forall_app. repeat split; try case_match; try (by repeat constructor); auto using Forall_take, Forall_drop. }
  do 9 (destruct ts as [|? ts]; try discriminate Hlen). clear Hlen Hd.
  repeat match goal with H : Forall2 _ _ (_ :: _) |- _ => inversion H; subst; clear H | H : Forall2 _ _ [] |- _ => inversion H; subst; clear H end.
  repeat match goal with H : hextet_of _ _ |- _ => destruct H end.
  destruct start as [|[|[|[|[|[|[|start]]]]]]]; try lia; destruct n as [|[|[|[|[|[|[|[|[|n]]]]]]]]]; try lia; clear Hn Hs He.
  all: cbn [firstn skipn] in Hz; repeat match goal with H : Forall _ (_ :: _) |- _ => apply list.Forall_cons in H as [-> H] end; clear Hz.
  all: unfold shorten; cbn [Nat.eqb Nat.add length firstn skipn app Nat.ltb Nat.leb Nat.sub nth List.filter seq].
  all: repeat match goal with H : empty_str _ = false |- _ => rewrite H; clear H end.
  all: change (empty_str "") with true; cbn [negb orb andb Nat.sub Nat.eqb Nat.add firstn skipn].
  all: repeat (erewrite hextets_cons by eassumption); rewrite hextets_nil; cbn [mbind option_bind].
  all: repeat (erewrite hextets_cons by eassumption); rewrite hextets_nil; f_equal.
  all: unfold hextets_value; cbn [fold_left].
  all: match goal with |- context [2 ^ ?e] => let v := eval vm_compute in (2 ^ e) in change (2 ^ e) with v end; lia.
Qed.

Lemma ipv6_full ns ts :
  Forall2 hextet_of ns ts -> length ts = 8%nat -> Ingress.ipv6 (Ingress.join ":" ts) = Some (hextets_value ns).
Proof.
  intros H2 Hlen.
  assert (Forall (fun w => dotless w = true) ts) as Hd.
  { clear -H2. induction H2 as [|x t ns ts [] _ IH]; constructor; done. }
  rewrite ipv6_join by (done || by destruct ts).
  do 9 (destruct ts as [|? ts]; try discriminate Hlen). clear Hlen Hd.
  repeat match goal with H : Forall2 _ _ (_ :: _) |- _ => inversion H; subst; clear H | H : Forall2 _ _ [] |- _ => inversion H; subst; clear H end.
  repeat match goal with H : hextet_of _ _ |- _ => destruct H end.
  cbn [Nat.eqb Nat.add length Nat.ltb Nat.leb Nat.sub nth List.filter seq].
  repeat match goal with H : empty_str _ = false |- _ => rewrite H; clear H end.
  cbn [negb orb andb]. repeat (erewrite hextets_cons by eassumption). rewrite hextets_nil. reflexivity.
Qed.

Lemma ipv6_compressed ns ts :
  Forall2 hextet_of ns ts -> length ts = 8%nat ->
  Ingress.ipv6 (Ingress.join ":" (Ingress.compress_hextets ts)) = Some (hextets_value ns).
Proof.
  intros H2 Hlen. unfold Ingress.compress_hextets. rewrite zero_runs_flags.
  pose proof (run_found (map (fun h => bool_decide (h = "0")) ts)) as Hr. rewrite length_map in Hr. specialize (Hr Hlen).
  unfold run_ok in Hr. destruct (flag_runs _ _ _ _) as [start n]. destruct (1 <? n)%nat eqn:En.
  2: { by apply ipv6_full. }
  apply Nat.ltb_lt in En. rewrite length_map, Hlen in Hr. apply orb_true_iff in Hr as [Hr|Hr]; [apply Nat.leb_le in Hr; lia|].
  apply andb_true_iff in Hr as [Hr Hf]. apply Nat.leb_le in Hr. change (if (start =? 0)%nat then _ else _) with (if (start =? 0)%nat then [""] else []).
  change (Ingress.ipv6 (Ingress.join ":" (shorten start n ts)) = Some (hextets_value ns)).
  apply ipv6_shorten; try done.
  rewrite skipn_map, firstn_map in Hf. apply (Forall2_drop _ _ _ start) in H2. apply (Forall2_take _ _ _ n) in H2.
  revert H2 Hf. generalize (firstn n (skipn start ns)) (firstn n (skipn start ts)). clear. intros l l' H2.
  induction H2 as [|x t l l' [] _ IH]; intros Hf; constructor; cbn in Hf; apply andb_true_iff in Hf as [Hf1 Hf2]; [|by apply IH].
  apply bool_decide_eq_true in Hf1. tauto.
Qed.

(** ** Addresses: what is printed is read back *)
Definition address_ok (a : Ingress.address) : Prop :=
  match a with Ingress.IPv4Address v => 0 <= v < 2 ^ 32 | Ingress.IPv6Address v => 0 <= v < 2 ^ 128 end.

Lemma ipv4_text v : 0 <= v < 2 ^ 32 -> Ingress.ipv4 (Ingress.address_text (Ingress.IPv4Address v)) = Some v.
Proof.
  intros Hv. unfold Ingress.address_text, Ingress.ipv4. change "." with (String "."%char EmptyString).
  assert (0 <= v / 16777216 < 256) as H0 by (split; [apply Z.div_pos; lia|apply Z.div_lt_upper_bound; lia]).
  assert (forall x, 0 <= x mod 256 < 256) as Hm by (intros; apply Z.mod_pos_bound; lia).
  pose proof (octet_text _ H0) as O0. pose proof (octet_text _ (Hm (v / 65536))) as O1.
  pose proof (octet_text _ (Hm (v / 256))) as O2. pose proof (octet_text _ (Hm v)) as O3.
  unfold octet_ok in *. bdestr. rewrite split_on_join; [|done|].
  2: { repeat (apply list.Forall_cons; split); try done; by apply dotless_spec. }
  cbn [map]. repeat match goal with H : Ingress.octet _ = Some _ |- _ => rewrite H; clear H; cbn [mbind option_bind] end.
  f_equal. clear. Z.div_mod_to_equations. lia.
Qed.

Lemma hextet_texts l :
  Forall (fun n => 0 <= n < 65536) l -> Forall2 hextet_of l (map Ingress.hex_text l).
Proof.
  induction 1 as [|n l Hn _ IH]; cbn; constructor; [|exact IH]. destruct (hextet_text n Hn) as (? & ? & ? & ?). by constructor.
Qed.

(** The eight hextets of an address. *)
Definition hextet_list (v : Z) : list Z := map (fun i => v / 2 ^ (16 * Z.of_nat (7 - i)) mod 65536) (seq 0 8).

Lemma hextet_list_value v : 0 <= v < 2 ^ 128 -> hextets_value (hextet_list v) = v.
Proof.
  intros Hv. unfold hextet_list, hextets_value. cbn [seq map fold_left Nat.sub].
  assert (forall k, 0 <= k -> v / 2 ^ (16 * k) = 65536 * (v / 2 ^ (16 * (k + 1))) + v / 2 ^ (16 * k) mod 65536) as Hs.
  { intros k Hk. replace (v / 2 ^ (16 * (k + 1))) with (v / 2 ^ (16 * k) / 65536).
    - apply Z.div_mod. lia.
    - rewrite Z.div_div by (try apply Z.pow_nonzero; lia). f_equal. change 65536 with (2 ^ 16). rewrite <- Z.pow_add_r by lia. f_equal. lia. }
  pose proof (Hs 0 ltac:(lia)) as H0. pose proof (Hs 1 ltac:(lia)) as H1. pose proof (Hs 2 ltac:(lia)) as H2. pose proof (Hs 3 ltac:(lia)) as H3.
  pose proof (Hs 4 ltac:(lia)) as H4. pose proof (Hs 5 ltac:(lia)) as H5. pose proof (Hs 6 ltac:(lia)) as H6. pose proof (Hs 7 ltac:(lia)) as H7.
  clear Hs. replace (v / 2 ^ (16 * (7 + 1))) with 0 in H7 by (symmetry; apply Z.div_small; lia).
  change (Z.of_nat 0) with 0; change (Z.of_nat 1) with 1; change (Z.of_nat 2) with 2; change (Z.of_nat 3) with 3;
    change (Z.of_nat 4) with 4; change (Z.of_nat 5) with 5; change (Z.of_nat 6) with 6; change (Z.of_nat 7) with 7.
  change (0 + 1) with 1 in H0; change (1 + 1) with 2 in H1; change (2 + 1) with 3 in H2; change (3 + 1) with 4 in H3;
    change (4 + 1) with 5 in H4; change (5 + 1) with 6 in H5; change (6 + 1) with 7 in H6.
  assert (v / 2 ^ (16 * 0) = v) as Hv0 by (change (2 ^ (16 * 0)) with 1; apply Z.div_1_r). rewrite <- Hv0 at 9. clear Hv Hv0.
  generalize dependent (v / 2 ^ (16 * 0)). generalize dependent (v / 2 ^ (16 * 1)). generalize dependent (v / 2 ^ (16 * 2)).
  generalize dependent (v / 2 ^ (16 * 3)). generalize dependent (v / 2 ^ (16 * 4)). generalize dependent (v / 2 ^ (16 * 5)).
  generalize dependent (v / 2 ^ (16 * 6)). generalize dependent (v / 2 ^ (16 * 7)). intros. lia.
Qed.

Lemma ipv6_address_text v : 0 <= v < 2 ^ 128 -> Ingress.ipv6 (Ingress.address_text (Ingress.IPv6Address v)) = Some v.
Proof.
  intros Hv. unfold Ingress.address_text.
  replace (map _ (seq 0 8)) with (map Ingress.hex_text (hextet_list v)) by (unfold hextet_list; rewrite map_map; reflexivity).
  rewrite (ipv6_compressed (hextet_list v)); [by rewrite hextet_list_value| |by rewrite length_map].
  apply hextet_texts, list.Forall_forall. intros x Hx. unfold hextet_list in Hx. apply list_elem_of_fmap in Hx as (i & -> & _).
  apply Z.mod_pos_bound. lia.
Qed.

(** The texts of addresses contain no percent sign and no white space. *)
Lemma tidy_app s t : tidy (s +:+ t) = tidy s && tidy t.
Proof. unfold tidy. induction s as [|c s IH]; [done|]. cbn. by rewrite IH, andb_assoc. Qed.

Definition clean (s : string) : bool := tidy s && negb (char_in "%" s).
Lemma clean_app s t : clean (s +:+ t) = clean s && clean t.
Proof.
  unfold clean. rewrite tidy_app, char_in_app. by destruct (tidy s), (tidy t), (char_in "%" s), (char_in "%" t).
Qed.
Lemma clean_join sep l : clean sep = true -> Forall (fun w => clean w = true) l -> clean (Ingress.join sep l) = true.
Proof.
  intros Hs. induction l as [|w l IH]; [done|]. intros [Hw Hl]%list.Forall_cons. destruct l as [|v l]; [done|].
  change (Ingress.join _ (w :: v :: l)) with (w +:+ (sep +:+ Ingress.join sep (v :: l))). by rewrite !clean_app, Hw, Hs, (IH Hl).
Qed.

Lemma clean_digits l : Forall (fun c => 33 <= c < 128 /\ c <> 37) l -> clean (string_of l) = true.
Proof.
  induction 1 as [|c l [Hc Hp] _ IH]; [done|]. change (string_of (c :: l)) with (String (chr c) EmptyString +:+ string_of l).
  rewrite clean_app, IH, andb_true_r. unfold clean, tidy, char_in. cbn. unfold is_space, in_range. rewrite code_chr by lia.
  replace (9 <=? c) with true by (symmetry; apply Z.leb_le; lia). replace (c <=? 13) with false by (symmetry; apply Z.leb_gt; lia).
  replace (28 <=? c) with true by (symmetry; apply Z.leb_le; lia). replace (c <=? 32) with false by (symmetry; apply Z.leb_gt; lia).
  replace (c <? 128) with true by (symmetry; apply Z.ltb_lt; lia). cbn.
  rewrite bool_decide_false; [done|]. intros E. apply (f_equal code) in E. rewrite code_chr in E by lia. change (code "%"%char) with 37 in E. lia.
Qed.

Lemma hex_text_chars n : 0 <= n < 65536 -> clean (Ingress.hex_text n) = true /\ dotless (Ingress.hex_text n) = true.
Proof.
  intros Hn. split; [|by apply hextet_text].
  unfold Ingress.hex_text. apply clean_digits. assert (forall d, 0 <= d < 16 -> 33 <= hex_char d < 128 /\ hex_char d <> 37) as Hd.
  { intros d Hd. unfold hex_char. destruct (d <? 10) eqn:E; bdestr; lia. }
  assert (forall x, 0 <= x mod 16 < 16) as Hm by (intros; apply Z.mod_pos_bound; lia).
  assert (0 <= n / 4096 < 16) by (split; [apply Z.div_pos; lia|apply Z.div_lt_upper_bound; lia]).
  destruct (n <? 16) eqn:E1; [|destruct (n <? 256); [|destruct (n <? 4096)]]; bdestr; cbn [skipn map];
    repeat (apply list.Forall_cons; split); auto; apply Hd; try apply Hm; lia.
Qed.

Lemma elem_of_compress w l : w ∈ Ingress.compress_hextets l -> w = "" \/ w ∈ l.
Proof.
  unfold Ingress.compress_hextets. destruct (Ingress.zero_runs _ _ _ _) as [start n]. destruct (1 <? n)%nat; [|by right].
  assert (forall k, w ∈ firstn k l -> w ∈ l) as Ht by (intros k Hk; rewrite <- (firstn_skipn k l); set_solver).
  assert (forall k, w ∈ skipn k l -> w ∈ l) as Hs by (intros k Hk; rewrite <- (firstn_skipn k l); set_solver).
  rewrite !elem_of_app. intros [H|[H|[H|H]]].
  - destruct (start =? 0)%nat; set_solver.
  - right. by eapply Ht.
  - set_solver.
  - destruct (start + n =? length l)%nat; [set_solver|]. right. by eapply Hs.
Qed.

Lemma hextet_list_range v n : n ∈ hextet_list v -> 0 <= n < 65536.
Proof. intros (i & -> & _)%list_elem_of_fmap. apply Z.mod_pos_bound. lia. Qed.

Lemma ipv6_parts v w :
  w ∈ Ingress.compress_hextets (map Ingress.hex_text (hextet_list v)) -> clean w = true /\ dotless w = true.
Proof.
  intros [->|Hw]%elem_of_compress; [done|]. apply list_elem_of_fmap in Hw as (n & -> & Hn).
  apply hex_text_chars. by apply hextet_list_range in Hn.
Qed.

Lemma ipv6_text_eq v :
  Ingress.address_text (Ingress.IPv6Address v) = Ingress.join ":" (Ingress.compress_hextets (map Ingress.hex_text (hextet_list v))).
Proof. unfold Ingress.address_text, hextet_list. by rewrite map_map. Qed.

Lemma address_clean a : address_ok a -> clean (Ingress.address_text a) = true.
Proof.
  destruct a as [v|v]; intros Hv.
  - assert (forall x, 0 <= x mod 256 < 256) as Hm by (intros; apply Z.mod_pos_bound; lia).
    assert (forall n, 0 <= n < 256 -> clean (Ingress.text_of_int n) = true) as Hc.
    { assert (forallb (fun n => clean (Ingress.text_of_int n)) (upfrom 256 0) = true) as E by (vm_compute; reflexivity).
      intros n Hn. apply (elem_of_upfrom 256 0), list_elem_of_In in Hn. rewrite forallb_forall in E. by apply E. }
    apply clean_join; [done|]. cbn in Hv. cbn [map].
    repeat (apply list.Forall_cons; split); auto. apply Hc. split; [apply Z.div_pos; lia|apply Z.div_lt_upper_bound; lia].
  - rewrite ipv6_text_eq. apply clean_join; [done|]. apply list.Forall_forall. intros w [? _]%ipv6_parts. done.
Qed.

Lemma ip_address_text a : address_ok a -> Ingress.ip_address (Ingress.address_text a) = Some a.
Proof.
  destruct a as [v|v]; intros Hv; unfold Ingress.ip_address.
  - by rewrite ipv4_text.
  - rewrite ipv6_address_text by done. replace (Ingress.ipv4 _) with (@None Z); [done|]. unfold Ingress.ipv4.
    rewrite split_on_free; [done|]. rewrite ipv6_text_eq. apply char_in_join; [done|].
    apply list.Forall_forall. intros w Hw. apply ipv6_parts in Hw as [_ (_ & _ & ?)%dotless_spec]. done.
Qed.

(** The values [ip_address] yields are addresses. *)
Lemma digits_value_nonneg s acc : 0 <= acc -> sall is_digit s = true -> 0 <= digits_value acc s.
Proof.
  revert acc. induction s as [|c s IH]; intros acc Ha; [done|]. cbn. intros [Hc Hs]%andb_true_iff. apply IH; [|done].
  unfold is_digit, in_range in Hc. bdestr. lia.
Qed.

Lemma octet_range s v : Ingress.octet s = Some v -> 0 <= v < 256.
Proof.
  unfold Ingress.octet, py_isdigit. destruct (_ || _ || _) eqn:E; [done|]. destruct (255 <? digits_value 0 s) eqn:Ev; [done|].
  intros [= <-]. apply orb_false_iff in E as [[E _]%orb_false_iff _]. apply negb_false_iff, andb_true_iff in E as [_ E].
  apply (digits_value_nonneg s 0) in E; [|done]. bdestr. lia.
Qed.

Lemma ipv4_range s v : Ingress.ipv4 s = Some v -> 0 <= v < 2 ^ 32.
Proof.
  unfold Ingress.ipv4. destruct (split_on _ s) as [|a [|b [|c [|d [|]]]]]; try discriminate.
  intros (x & Ha & (y & Hb & (z & Hc & (t & Hd & [= <-])%bind_Some)%bind_Some)%bind_Some)%bind_Some.
  apply octet_range in Ha, Hb, Hc, Hd. lia.
Qed.

Lemma hex_value_range s acc v :
  0 <= acc -> Ingress.hex_value acc s = Some v -> 0 <= v < (acc + 1) * 16 ^ Ingress.slen s.
Proof.
  revert acc. induction s as [|c s IH]; intros acc Ha; cbn [Ingress.hex_value].
  - intros [= <-]. change (16 ^ Ingress.slen "") with 1. lia.
  - intros (h & Hh & Hv)%bind_Some. assert (0 <= h < 16) as Hr.
    { unfold hex_digit, is_dig in Hh. repeat case_match; try discriminate; injection Hh as <-; bdestr; lia. }
    apply IH in Hv; [|lia]. unfold Ingress.slen in *. cbn [String.length]. rewrite Nat2Z.inj_succ, Z.pow_succ_r by lia.
    assert (0 < 16 ^ Z.of_nat (String.length s)) by (apply Z.pow_pos_nonneg; lia). nia.
Qed.

Lemma hextet_range s v : Ingress.hextet s = Some v -> 0 <= v < 65536.
Proof.
  unfold Ingress.hextet. destruct (4 <? Ingress.slen s) eqn:E; [done|]. destruct (empty_str s); [done|]. cbn.
  intros H%hex_value_range; [|done]. bdestr. assert (16 ^ Ingress.slen s <= 16 ^ 4) by (apply Z.pow_le_mono_r; lia). lia.
Qed.

Lemma hextets_range l acc v :
  0 <= acc -> Ingress.hextets acc l = Some v -> 0 <= v < (acc + 1) * 2 ^ (16 * Z.of_nat (length l)).
Proof.
  revert acc. induction l as [|t l IH]; intros acc Ha H.
  - rewrite hextets_nil in H. injection H as <-. cbn. lia.
  - destruct (Ingress.hextet t) as [h|] eqn:Et.
    + rewrite (hextets_cons _ _ _ _ Et) in H. apply hextet_range in Et. apply IH in H; [|lia].
      cbn [length]. rewrite Nat2Z.inj_succ. replace (16 * Z.succ (Z.of_nat (length l))) with (16 + 16 * Z.of_nat (length l)) by lia.
      rewrite Z.pow_add_r by lia. assert (0 < 2 ^ (16 * Z.of_nat (length l))) by (apply Z.pow_pos_nonneg; lia).
      change (2 ^ 16) with 65536. nia.
    + exfalso. unfold Ingress.hextets in H. cbn [fold_left mbind option_bind] in H. rewrite Et in H. cbn in H.
      clear -H. induction l; [done|]. by apply IHl.
Qed.

Lemma ipv6_range s v : Ingress.ipv6 s = Some v -> 0 <= v < 2 ^ 128.
Proof.
  unfold Ingress.ipv6. destruct (_ <? 3)%nat; [done|]. intros (parts & _ & H)%bind_Some.
  destruct (9 <? length parts)%nat; [done|]. destruct (List.filter _ _) as [|skip [|]]; [| |done].
  - destruct (length parts =? 8)%nat eqn:E8; [|done]. destruct (_ || _); [done|].
    apply Nat.eqb_eq in E8. apply hextets_range in H; [|done]. rewrite E8 in H. cbn in H. lia.
  - set (hi := if empty_str (nth 0 parts "") then _ else _) in *. set (lo := if empty_str (nth (length parts - 1) parts "") then _ else _) in *.
    cbv zeta in H. destruct (_ || _); [done|]. destruct (8 <? hi + lo + 1)%nat eqn:E; [done|]. apply Nat.ltb_ge in E.
    apply bind_Some in H as (w & Hw & H). apply hextets_range in Hw; [|done].
    assert (0 <= w < 2 ^ (16 * Z.of_nat hi)) as Hw'.
    { split; [lia|]. eapply Z.lt_le_trans; [apply Hw|]. rewrite Z.mul_1_l. apply Z.pow_le_mono_r; [lia|]. rewrite length_firstn. lia. }
    apply hextets_range in H; [|assert (0 < 2 ^ (16 * (8 - Z.of_nat (hi + lo)))) by (apply Z.pow_pos_nonneg; lia); nia].
    assert (length (skipn (length parts - lo) parts) <= lo)%nat as Hl by (rewrite length_skipn; lia).
    split; [lia|]. eapply Z.lt_le_trans; [apply H|].
    transitivity (2 ^ (16 * Z.of_nat hi) * 2 ^ (16 * (8 - Z.of_nat (hi + lo))) * 2 ^ (16 * Z.of_nat lo)).
    + apply Z.mul_le_mono_nonneg; [assert (0 < 2 ^ (16 * (8 - Z.of_nat (hi + lo)))) by (apply Z.pow_pos_nonneg; lia); nia| | |].
      * assert (0 < 2 ^ (16 * (8 - Z.of_nat (hi + lo)))) by (apply Z.pow_pos_nonneg; lia). nia.
      * apply Z.pow_nonneg. lia.
      * apply Z.pow_le_mono_r; lia.
    + rewrite <- !Z.pow_add_r by lia. apply Z.pow_le_mono_r; lia.
Qed.

(** ** The pieces of a list have no white space *)
Definition space_head (s : string) : bool :=
  match s with
  | EmptyString => false
  | String a s1 =>
      is_space a || match s1 with
                    | EmptyString => false
                    | String b s2 => is_space2 a b || match s2 with EmptyString => false | String c _ => is_space3 a b c end
                    end
  end.

Lemma space_head_lstrip s : space_head s = false -> lstrip s = s.
Proof.
  destruct s as [|a [|b [|c s]]]; [done| | |]; cbn; rewrite ?orb_false_iff; [intros [-> _]|intros (-> & -> & _)|intros (-> & -> & ->)]; done.
Qed.

Lemma space_head_app t s : space_head (t +:+ s) = false -> t <> EmptyString -> space_head t = false.
Proof.
  destruct t as [|a [|b [|c t]]]; [done| | |]; intros H _; cbn in H |- *; rewrite ?orb_false_iff in *; try tauto.
Qed.

(** Every suffix of [u] followed by [s] begins with something else. *)
Definition spaceless (u s : string) : Prop := forall u1 u2, u = u1 +:+ u2 -> u2 <> EmptyString -> space_head (u2 +:+ s) = false.

Lemma append_assoc (a b c : string) : (a +:+ b) +:+ c = a +:+ (b +:+ c).
Proof. induction a as [|x a IH]; [done|]. cbn. by rewrite IH. Qed.
Lemma append_empty (a : string) : a +:+ EmptyString = a.
Proof. induction a as [|x a IH]; [done|]. cbn. by rewrite IH. Qed.

Lemma spaceless_strip u s : spaceless u s -> py_strip u = u.
Proof.
  intros H. apply strip_fixed. split.
  - induction u as [|a u IH]; [done|]. rewrite rstrip_cons.
    + rewrite IH; [done|]. intros u1 u2 E. apply (H (String a u1)). by rewrite E.
    + rewrite space_head_lstrip; [done|]. apply (space_head_app _ s); [|done]. by apply (H EmptyString).
  - destruct u as [|a u]; [done|]. apply space_head_lstrip. apply (space_head_app _ s); [|done]. by apply (H EmptyString).
Qed.

Lemma srev_app acc s : srev acc s = srev EmptyString s +:+ acc.
Proof.
  revert acc. induction s as [|c s IH]; intros acc; [done|]. cbn. rewrite (IH (String c acc)), (IH (String c EmptyString)).
  by rewrite append_assoc.
Qed.

Lemma append_snoc_inv (u1 u2 w : string) (a : ascii) :
  w +:+ String a EmptyString = u1 +:+ u2 -> u2 = EmptyString \/ exists v, u2 = v +:+ String a EmptyString /\ w = u1 +:+ v.
Proof.
  revert w. induction u1 as [|x u1 IH]; intros w E; cbn in E.
  - right. by exists w.
  - destruct w as [|y w]; cbn in E; injection E as -> E.
    + destruct u1; [|discriminate]. cbn in E. by left.
    + apply IH in E as [->|(v & -> & ->)]; [by left|]. right. by exists v.
Qed.

(** One more character that is not white space, whatever follows it. *)
Lemma spaceless_snoc word a s :
  spaceless (srev EmptyString word) (String a s) -> space_head (String a s) = false ->
  spaceless (srev EmptyString (String a word)) s.
Proof.
  intros H Hh u1 u2 E Hne. cbn [srev] in E. rewrite srev_app in E.
  apply append_snoc_inv in E as [->|(v & -> & E)]; [done|]. rewrite append_assoc. cbn [String.append].
  destruct v as [|x v]; [exact Hh|]. by apply (H u1).
Qed.

Lemma spaceless_empty s : spaceless EmptyString s.
Proof. intros u1 u2 E Hne. destruct u1; [|discriminate]. cbn in E. by subst u2. Qed.

Lemma words_spaceless sep item word s :
  (forall c, is_space c = true -> sep c = true) ->
  spaceless (srev EmptyString word) s -> item ∈ words sep word s -> exists u, spaceless item u.
Proof.
  intros Hsep.
  assert (forall n item word s, (String.length s < n)%nat -> spaceless (srev EmptyString word) s -> item ∈ words sep word s ->
    exists u, spaceless item u) as H.
  2: { intros Hs Hi. apply (H (S (String.length s)) item word s); [lia|done|done]. }
  clear -Hsep. induction n as [|n IH]; intros item word s Hn Hs Hi; [lia|].
  assert (forall u rest, (item ∈ rest -> exists u, spaceless item u) -> spaceless (srev EmptyString word) u ->
    item ∈ flush_word word rest -> exists u, spaceless item u) as Hf.
  { intros u rest Hr Hu. unfold flush_word. destruct (empty_str word); [done|].
    intros [->|Hin]%elem_of_cons; [by exists u|by apply Hr]. }
  assert (forall t, (String.length t < n)%nat -> item ∈ words sep EmptyString t -> exists u, spaceless item u) as Hnext.
  { intros t Ht. apply IH; [done|]. apply spaceless_empty. }
  assert (forall a t, (String.length t < n)%nat -> spaceless (srev EmptyString word) (String a t) -> space_head (String a t) = false ->
    item ∈ words sep (String a word) t -> exists u, spaceless item u) as Hgo.
  { intros a t Ht Hw Hh. apply IH; [done|]. by apply spaceless_snoc. }
  destruct s as [|a s]; [by apply (Hf EmptyString) in Hi; [|set_solver|]|].
  cbn [String.length] in Hn. cbn [words] in Hi. destruct (sep a) eqn:Es.
  { eapply Hf; [|exact Hs|exact Hi]. apply Hnext. lia. }
  assert (is_space a = false) as Ea by (destruct (is_space a) eqn:E; [|done]; by rewrite (Hsep a E) in Es).
  destruct s as [|b s].
  { assert (spaceless (srev EmptyString (String a word)) EmptyString) as Hw by (apply spaceless_snoc; [done|]; cbn; by rewrite Ea).
    unfold flush_word in Hi. cbn in Hi. apply list_elem_of_singleton in Hi. subst item. eauto. }
  cbn [String.length] in Hn. destruct (is_space2 a b) eqn:E2.
  { eapply Hf; [|exact Hs|exact Hi]. apply Hnext. lia. }
  destruct s as [|c s].
  { eapply Hgo; [|exact Hs| |exact Hi]; [cbn; lia|]. cbn. by rewrite Ea, E2. }
  cbn [String.length] in Hn. destruct (is_space3 a b c) eqn:E3.
  { eapply Hf; [|exact Hs|exact Hi]. apply Hnext. lia. }
  eapply Hgo; [|exact Hs| |exact Hi]; [cbn; lia|]. cbn. by rewrite Ea, E2, E3.
Qed.

Lemma split_list_stripped item s : item ∈ split_list s -> py_strip item = item.
Proof.
  intros (u & Hu)%words_spaceless; [by eapply spaceless_strip| |apply spaceless_empty].
  intros c Hc. unfold is_separator. by rewrite Hc.
Qed.

(** ** Normal forms *)
Definition scope_ok (x : Ingress.address * option string) : Prop :=
  address_ok x.1 /\
  match x.2 with
  | None => True
  | Some sc => (exists v, x.1 = Ingress.IPv6Address v) /\ sc <> EmptyString /\ char_in "%" sc = false /\ char_in "/" sc = false
               /\ rstrip ("%" +:+ sc) = "%" +:+ sc
  end.

Lemma split_on_pieces c s l : split_on c s = l -> Forall (fun w => char_in c w = false) l.
Proof.
  intros <-. induction s as [|a s IH]; cbn [split_on]; [by repeat constructor|].
  destruct (bool_decide (a = c)) eqn:E; [by constructor|].
  destruct (split_on c s) as [|w ws]; [constructor; [|constructor]|].
  - unfold char_in. cbn. by rewrite E.
  - apply list.Forall_cons in IH as [Hw Hws]. constructor; [|done]. unfold char_in in *. cbn. by rewrite E.
Qed.

Lemma split_on_some c s : split_on c s <> [].
Proof. destruct s as [|a s]; [done|]. cbn. destruct (bool_decide _); [done|]. by destruct (split_on c s). Qed.

Lemma split_on_two c s u w : split_on c s = [u; w] -> s = u +:+ String c w.
Proof.
  revert u. induction s as [|a s IH]; intros u; cbn [split_on]; [discriminate|]. destruct (bool_decide (a = c)) eqn:E.
  - intros [= <- H]. bdestr. subst a. cbn. f_equal. revert H. clear. revert w.
    induction s as [|b s IH]; intros w; cbn [split_on]; [by intros [= <-]|].
    destruct (bool_decide (b = c)); [intros [= <- H]; by apply split_on_some in H|].
    destruct (split_on c s) as [|x xs] eqn:Es; [by apply split_on_some in Es|]. intros [= <- ->]. f_equal. by apply IH.
  - destruct (split_on c s) as [|x xs] eqn:Es; [by apply split_on_some in Es|]. intros [= <- ->]. cbn. f_equal. by apply IH.
Qed.

Lemma ip_address_range s a : Ingress.ip_address s = Some a -> address_ok a.
Proof.
  unfold Ingress.ip_address. destruct (Ingress.ipv4 s) as [v|] eqn:E; [intros [= <-]; by apply ipv4_range in E|].
  intros (v & Hv & ->)%fmap_Some_1. by apply ipv6_range in Hv.
Qed.

Lemma scoped_address_ok s x : py_strip s = s -> scoped_address s = Some x -> scope_ok x.
Proof.
  intros Hs. unfold scoped_address. destruct (split_on "%" s) as [|u [|w [|]]] eqn:E; try discriminate.
  - intros (a & Ha & ->)%fmap_Some_1. split; [|done]. by apply ip_address_range in Ha.
  - destruct (empty_str w) eqn:Ew; [done|]. destruct (char_in "/" w) eqn:Ew'; [done|]. intros (v & Hv & ->)%fmap_Some_1. split; [by apply ipv6_range in Hv|].
    cbn [fst snd]. split; [by eexists|]. split; [by intros ->|]. pose proof (split_on_pieces _ _ _ E) as Hp.
    rewrite !list.Forall_cons in Hp. split; [tauto|]. split; [done|]. apply split_on_two in E. subst s. apply strip_fixed in Hs as [Hs _].
    exact (rstrip_fixed_app u _ Hs).
Qed.

Lemma host_ok x : scope_ok x -> scope_ok (host x) /\ host (host x) = host x.
Proof.
  destruct x as [[v|v] sc]; intros [Ha Hsc]; unfold host; cbn [fst snd Ingress.unmapped].
  - done.
  - destruct (v / 2 ^ 32 =? 65535) eqn:E; cbn [fst snd Ingress.unmapped].
    + split; [|done]. split; [|done]. cbn [fst address_ok]. apply Z.mod_pos_bound. lia.
    + by rewrite E.
Qed.

Lemma host_text_strip x : scope_ok x -> py_strip (host_text x) = host_text x.
Proof.
  intros [Ha Hsc]. apply address_clean in Ha as Hc. unfold clean in Hc. apply andb_true_iff in Hc as [Ht _].
  apply strip_tidy_app; [|done|].
  - intros E. destruct x as [[v|v] sc]; cbn [fst] in *; apply ip_address_text in Ha; rewrite E in Ha; discriminate.
  - destruct x.2 as [sc|]; [|done]. apply Hsc.
Qed.

Lemma scoped_host_text x : scope_ok x -> scoped_address (host_text x) = Some x.
Proof.
  intros [Ha Hsc]. pose proof (address_clean _ Ha) as Hc. unfold clean in Hc. apply andb_true_iff in Hc as [_ Hp]. apply negb_true_iff in Hp.
  unfold scoped_address, host_text. destruct x as [a [sc|]]; cbn [fst snd] in *.
  - destruct Hsc as ((v & ->) & Hne & Hf & Hsl & _). change ("%" +:+ sc) with (String "%"%char sc).
    rewrite split_on_app by done. rewrite split_on_free by done. cbv beta iota.
    destruct (empty_str sc) eqn:E; [unfold empty_str in E; by bdestr|]. rewrite Hsl. cbn [orb]. by rewrite ipv6_address_text.
  - rewrite append_empty, split_on_free by done. by rewrite ip_address_text.
Qed.

Lemma normalize_spec s x : scoped_address (py_strip s) = Some x -> _normalize_ip s = host_text (host x) /\ _normalize_ip (_normalize_ip s) = _normalize_ip s.
Proof.
  intros H. pose proof (scoped_address_ok _ _ (strip_idem s) H) as Hok. apply host_ok in Hok as [Hok Hid].
  assert (_normalize_ip s = host_text (host x)) as E by (unfold _normalize_ip; by rewrite H). split; [done|].
  rewrite E. unfold _normalize_ip. rewrite host_text_strip, scoped_host_text by done. by rewrite Hid.
Qed.

(** [_normalize_ip] is idempotent. *)
Lemma normalize_idem s : _normalize_ip (_normalize_ip s) = _normalize_ip s.
Proof.
  destruct (scoped_address (py_strip s)) as [x|] eqn:E; [by eapply normalize_spec|].
  unfold _normalize_ip. rewrite E, strip_idem, E. done.
Qed.

Lemma normalize_nonempty s x : scoped_address (py_strip s) = Some x -> _normalize_ip s <> EmptyString.
Proof.
  intros H E. pose proof (normalize_spec s x H) as [E' _]. rewrite E in E'.
  pose proof (scoped_address_ok _ _ (strip_idem s) H) as Hok. apply host_ok in Hok as [Hok _].
  apply scoped_host_text in Hok. by rewrite <- E' in Hok.
Qed.

(** ** The policy *)

(** An address that protection is configured for: in the table, in the settings of the
    process or in the build. *)
Definition configured (p : policy) (item : string) : Prop :=
  (exists text, setting_row p "protected_device_ips" = Some (Some text) /\ item ∈ split_list text) \/ item ∈ settings_ips p.

(** Two texts that name one host: the same address, IPv4 addresses in their IPv6 spelling
    included. *)
Definition same_host (s t : string) : Prop :=
  exists x y, scoped_address (py_strip s) = Some x /\ scoped_address (py_strip t) = Some y /\ host x = host y.

Lemma configured_listed p item ips s :
  configured p item -> same_host s item -> protected_device_ips p = Ok ips -> listed (_normalize_ip s) ips = true.
Proof.
  intros Hc (x & y & Hx & Hy & Exy) Hips. apply bool_decide_eq_true.
  pose proof (normalize_spec s x Hx) as [Es _]. pose proof (normalize_spec item y Hy) as [Ei Hi].
  assert (_normalize_ip s = _normalize_ip item) as E by congruence. rewrite E, <- Hi.
  pose proof (normalize_nonempty item y Hy) as Hne.
  unfold protected_device_ips, _settings_table_protected_ips in Hips. apply bind_Ok in Hips as (table & Ht & [= <-]).
  apply (list_elem_of_fmap_2 _normalize_ip). apply list_elem_of_In, filter_In. split.
  2: { apply negb_true_iff, bool_decide_eq_false. exact Hne. }
  apply list_elem_of_In, elem_of_app. right. apply elem_of_app. destruct Hc as [(text & Hrow & Hin)|Hin].
  - right. rewrite Hrow in Ht. injection Ht as <-. apply (list_elem_of_fmap_2 _normalize_ip), list_elem_of_In, filter_In.
    split; [by apply list_elem_of_In|]. rewrite (split_list_stripped _ _ Hin) in Hy. by rewrite Hy.
  - left. apply (list_elem_of_fmap_2 _normalize_ip), list_elem_of_In, filter_In. split; [by apply list_elem_of_In|].
    apply negb_true_iff, bool_decide_eq_false. intros E'. rewrite E' in Hy. discriminate.
Qed.

(** C22. No spelling of a protected address gets through: a text that names the same host as a configured one - an
    IPv4 address as such or in its IPv6 form, any way of writing an IPv6 address, with any spaces around it - is
    refused by every decision, whatever identity comes with it, and no device at it passes the filter. *)
Theorem no_spelling_escapes p item s id :
  configured p item -> same_host s item ->
  is_device_access_protected p s id <> Ok false
  /\ is_protected_device p (Some (s, id)) <> Ok false
  /\ is_explicit_discovery_target_protected p s id <> Ok false
  /\ reject_protected_device_access p s id <> Ok tt
  /\ require_unprotected_device p (Some (s, id)) <> Ok tt
  /\ (forall values, s ∈ values -> first_protected_ip p values <> Ok None)
  /\ (forall devices l, filter_unprotected_devices p devices = Ok l -> (s, id) ∉ l).
Proof.
  intros Hc Hs. pose proof (fun ips => configured_listed p item ips s Hc Hs) as Hl.
  assert (negb (empty_str (_normalize_ip s)) = true) as Hne.
  { destruct Hs as (x & _ & Hx & _). apply negb_true_iff, bool_decide_eq_false. by eapply normalize_nonempty. }
  assert (is_device_access_protected p s id <> Ok false) as H1.
  { unfold is_device_access_protected. destruct (protected_device_ips p) as [ips|]; [|done]. cbn. rewrite (Hl ips eq_refl), Hne.
    destruct (listed (_normalize_ip s) _); [done|]. destruct (protected_device_ids p); [|done]. cbn. by destruct (listed _ a). }
  assert (is_protected_device p (Some (s, id)) <> Ok false) as H2.
  { unfold is_protected_device, is_protected_ip. destruct (listed (_normalize_ip s) _); [done|].
    destruct (protected_device_ips p) as [ips|]; [|done]. cbn. by rewrite (Hl ips eq_refl). }
  split_and!; [done|done| | | | |].
  - unfold is_explicit_discovery_target_protected. destruct (protected_device_ips p) as [ips|]; [|done]. cbn. by rewrite (Hl ips eq_refl).
  - unfold reject_protected_device_access. destruct (is_device_access_protected p s id) as [[]|]; done.
  - unfold require_unprotected_device. destruct (is_protected_device p (Some (s, id))) as [[]|]; done.
  - intros values Hin. unfold first_protected_ip. destruct (protected_device_ips p) as [ips|]; [|done]. cbn. intros [= H].
    assert (In (_normalize_ip s) []) as []. apply head_None in H. rewrite <- H. apply filter_In. split.
    + by apply in_map, list_elem_of_In.
    + by rewrite Hne, (Hl ips eq_refl).
  - intros devices. induction devices as [|d devices IH]; intros l; [intros [= <-]; apply not_elem_of_nil|].
    cbn [filter_unprotected_devices]. intros (b & Hb & (rest & Hr & [= <-])%bind_Ok)%bind_Ok. specialize (IH rest Hr).
    destruct b; [done|]. intros [<-|?]%elem_of_cons; done.
Qed.

Definition office : policy := {|
  immutable_ips := IMMUTABLE_PROTECTED_IPS; immutable_ids := IMMUTABLE_PROTECTED_DEVICE_IDS;
  settings_ips := []; settings_ids := [];
  setting_row := fun key => Some (if bool_decide (key = "protected_device_ips") then Some "10.0.0.9; 10.0.0.7,not-an-address" else None);
  device_row := fun _ => Some None |}.

Lemma no_spelling_escapes_witness :
  is_device_access_protected office " ::ffff:a00:7 " "AA" = Ok true /\ is_device_access_protected office "10.0.0.8" "AA" = Ok false
  /\ is_protected_device office (Some ("::FFFF:10.0.0.7", "AA")) <> Ok false.
Proof.
  split; [vm_compute; reflexivity|]. split; [vm_compute; reflexivity|].
  apply (no_spelling_escapes office "10.0.0.7" "::FFFF:10.0.0.7" "AA").
  - left. eexists. split; [reflexivity|]. apply list_elem_of_In. vm_compute. right. left. reflexivity.
  - eexists _, _. split; [vm_compute; reflexivity|]. split; [vm_compute; reflexivity|]. vm_compute. reflexivity.
Defined.

(** ** Identities *)
Lemma upper_code c : is_lower c = true \/ upper_char c = c.
Proof. unfold upper_char. destruct (is_lower c); auto. Qed.

Lemma upper_space a b c :
  is_space (upper_char a) = is_space a /\ is_space2 (upper_char a) (upper_char b) = is_space2 a b
  /\ is_space3 (upper_char a) (upper_char b) (upper_char c) = is_space3 a b c.
Proof.
  assert (forall x k, (k <= 64 \/ 123 <= k) -> (code (upper_char x) =? k) = (code x =? k)) as He.
  { intros x k Hk. unfold upper_char. destruct (is_lower x) eqn:E; [|done]. unfold is_lower, in_range in E. bdestr.
    pose proof (code_range x). rewrite code_chr by lia. destruct (code x =? k) eqn:E1; bdestr; [lia|]. apply Z.eqb_neq. lia. }
  assert (forall x lo hi, (hi <= 64 \/ 123 <= lo) -> in_range lo hi (upper_char x) = in_range lo hi x) as Hr.
  { intros x lo hi Hk. unfold upper_char. destruct (is_lower x) eqn:E; [|done]. unfold is_lower, in_range in *. bdestr.
    pose proof (code_range x). rewrite code_chr by lia.
    destruct (lo <=? code x - 32) eqn:E1, (code x - 32 <=? hi) eqn:E2, (lo <=? code x) eqn:E3, (code x <=? hi) eqn:E4; bdestr; cbn; try done; lia. }
  unfold is_space, is_space2, is_space3. rewrite !He, !Hr by lia. done.
Qed.

Lemma lstrip_upper s : lstrip (py_upper s) = py_upper (lstrip s).
Proof.
  induction s as [u E|a t E1 IH|a b t E1 E2 IH|a b c t E1 E2 E3 IH] using lstrip_ind; unfold py_upper in *.
  - rewrite E. destruct u as [|a [|b [|c u]]]; [done|..]; cbn [smap].
    + pose proof (upper_space a a a) as (Ha & _ & _). cbn [lstrip] in E |- *. rewrite Ha. destruct (is_space a); [|done]. discriminate E.
    + pose proof (upper_space a b a) as (Ha & Hb & _). cbn [lstrip] in E |- *. rewrite Ha, Hb.
      destruct (is_space a); [exfalso|destruct (is_space2 a b); [discriminate E|done]].
      assert (String.length (lstrip (String b EmptyString)) <= 1)%nat by (cbn; destruct (is_space b); cbn; lia).
      cbn [lstrip] in H. rewrite E in H. cbn in H. lia.
    + pose proof (upper_space a b c) as (Ha & Hb & Hc).
      assert (forall t, (String.length (lstrip t) <= String.length t)%nat) as Hl.
      { intros t. destruct (lstrip_suffix t) as (v & Ev). rewrite Ev at 2. clear. induction v; cbn; lia. }
      pose proof (Hl (String b (String c u))). pose proof (Hl (String c u)). pose proof (Hl u).
      remember (String b (String c u)) as t eqn:Et. cbn [lstrip] in E. cbn [lstrip]. rewrite Ha.
      destruct (is_space a); [exfalso; rewrite E in H; subst t; cbn in H; lia|]. subst t. rewrite Hb.
      destruct (is_space2 a b); [exfalso; rewrite E in H0; cbn in H0; lia|]. rewrite Hc.
      destruct (is_space3 a b c); [exfalso; rewrite E in H1; cbn in H1; lia|done].
  - cbn [smap lstrip]. pose proof (upper_space a a a) as (Ha & _ & _). by rewrite Ha, E1.
  - cbn [smap lstrip]. pose proof (upper_space a b a) as (Ha & Hb & _). by rewrite Ha, E1, Hb, E2.
  - cbn [smap lstrip]. pose proof (upper_space a b c) as (Ha & Hb & Hc). by rewrite Ha, E1, Hb, E2, Hc, E3.
Qed.

Lemma rstrip_upper s : rstrip (py_upper s) = py_upper (rstrip s).
Proof.
  induction s as [|a s IH]; [done|]. destruct (decide (lstrip (String a s) = EmptyString)) as [E|E].
  - change (py_upper (String a s)) with (String (upper_char a) (py_upper s)). cbn [rstrip].
    change (String (upper_char a) (py_upper s)) with (py_upper (String a s)). by rewrite lstrip_upper, E.
  - rewrite (rstrip_cons a s E). change (py_upper (String a s)) with (String (upper_char a) (py_upper s)).
    rewrite rstrip_cons; [by rewrite IH|]. change (String (upper_char a) (py_upper s)) with (py_upper (String a s)).
    rewrite lstrip_upper. by destruct (lstrip (String a s)).
Qed.

Lemma upper_idem s : py_upper (py_upper s) = py_upper s.
Proof.
  unfold py_upper. induction s as [|c s IH]; [done|]. cbn [smap]. rewrite IH. f_equal.
  unfold upper_char at 2 3. destruct (is_lower c) eqn:E; [|unfold upper_char; by rewrite E].
  unfold is_lower, in_range in E. bdestr. pose proof (code_range c). unfold upper_char, is_lower, in_range. rewrite code_chr by lia.
  replace (97 <=? code c - 32) with false by (symmetry; apply Z.leb_gt; lia). done.
Qed.

Lemma normalize_id_idem s : _normalize_device_id (_normalize_device_id s) = _normalize_device_id s.
Proof.
  unfold _normalize_device_id, py_strip. rewrite rstrip_upper, lstrip_upper, upper_idem.
  fold (py_strip s). fold (py_strip (py_strip s)). by rewrite strip_idem.
Qed.

(** Access is allowed exactly when the whole policy could be read and nothing of it names the address or the
    identity: a store that fails raises or forbids, and a stored identity whose address is protected, or differs from
    the one asked for, is forbidden. *)
Theorem access_decision_exact p s id :
  let ip := _normalize_ip s in
  let did := _normalize_device_id id in
  is_device_access_protected p s id = Ok false <->
  exists ips ids, protected_device_ips p = Ok ips /\ protected_device_ids p = Ok ids
    /\ ip ∉ immutable_ips p /\ did ∉ ids /\ (ip = "" \/ ip ∉ ips)
    /\ (did = "" \/ exists row, device_row p did = Some row /\
          forall address, row = Some address ->
            _normalize_ip address ∉ ips /\ (ip = "" \/ _normalize_ip address = "" \/ _normalize_ip address = ip)).
Proof.
  intros ip did. unfold is_device_access_protected. fold ip did.
  destruct (protected_device_ips p) as [ips|e]; cbn.
  2: { split; [discriminate|]. intros (? & ? & [=] & _). }
  unfold listed at 1. destruct (bool_decide (ip ∈ immutable_ips p)) eqn:Ei.
  { split; [discriminate|]. intros (? & ? & _ & _ & H & _). by bdestr. }
  destruct (protected_device_ids p) as [ids|e]; cbn.
  2: { split; [discriminate|]. intros (? & ? & _ & [=] & _). }
  unfold listed. destruct (bool_decide (did ∈ ids)) eqn:Ed.
  { split; [discriminate|]. intros (? & ? & _ & [= <-] & _ & H & _). by bdestr. }
  destruct (negb (empty_str ip) && bool_decide (ip ∈ ips)) eqn:En.
  { split; [discriminate|]. unfold empty_str in En. intros (? & ? & [= <-] & _ & _ & _ & H & _). bdestr. by destruct H. }
  assert (ip = "" \/ ip ∉ ips) as Hn.
  { unfold empty_str in En. apply andb_false_iff in En as [En|En]; [left|right]; by bdestr. }
  unfold _device_row_by_id. fold did. unfold did at 2 3. rewrite normalize_id_idem. fold did.
  destruct (empty_str did) eqn:Ee; unfold empty_str in Ee.
  { split; [|done]. intros _. exists ips, ids. bdestr. split_and!; auto. }
  bdestr. destruct (device_row p did) as [row|] eqn:Er.
  2: { split; [discriminate|]. intros (? & ? & _ & _ & _ & _ & _ & [H|(row & Hrow & _)]); [done|discriminate Hrow]. }
  destruct row as [address|].
  - split.
    + intros [= H]. exists ips, ids. split_and!; auto. right. eexists. split; [done|]. intros a [= <-].
      apply orb_false_iff in H as [H1 H2]. bdestr. split; [done|]. unfold empty_str in H2. destruct (decide (ip = "")); [by left|].
      destruct (decide (_normalize_ip address = "")); [by right; left|]. right. right.
      rewrite !bool_decide_false in H2 by done. cbn in H2. by bdestr.
    + intros (? & ? & [= <-] & [= <-] & _ & _ & _ & [H|(row & Hrow & H)]); [done|]. injection Hrow as <-. destruct (H address eq_refl) as [H1 H2].
      f_equal. rewrite bool_decide_false by done. cbn. unfold empty_str. destruct H2 as [-> | [-> | ->]]; [done| |].
      * rewrite (bool_decide_true ("" = "")) by done. cbn. by rewrite andb_false_r.
      * rewrite (bool_decide_true (ip = ip)) by done. by rewrite !andb_false_r.
  - split; [|done]. intros _. exists ips, ids. split_and!; auto. right. eexists. split; [done|]. discriminate.
Qed.

End Protected.
