(* ===== verification/Radio.v ===== *)
(** * Transactions on radios

    What the services that change radios share: requests to a radio over HTTP, the guard
    of every write, the ownership of the radios, and a database session whose rows become
    durable at its commits.  A radio may be changed by anybody at any moment and every
    call may fail or be cancelled, so all answers come from an environment on a world of
    its own; what a transaction did is its log.

    [watch] reads such a log as the contract of a careful writer: a request that changes
    a radio uses up an intent that is already durable, and the intent names a backup that
    is durable too and was read again from the database.  [holding] reads it for the
    ownership: every request goes to a radio that an open transaction named. *)
From Stdlib Require Import Ascii String.
From S2P Require Import Prelude PyNum PyStr Json Sha256 Xml Protected.
#[local] Open Scope string_scope.
#[local] Open Scope list_scope.
#[local] Open Scope Z_scope.

Module Radio.

(** The exceptions the transactions tell apart; [Cancelled] is no [Exception]. *)
Inductive fault : Type :=
| IdentityMismatch          (* a ValueError of device_settings_writer.py *)
| ValueError
| ParseError                (* of the XML parser *)
| TransportError            (* httpx.TransportError *)
| HTTPError                 (* any other httpx.HTTPError *)
| OSError
| HTTPException (status : Z)
| ProtectionPolicyUnavailable
| DeviceBusy
| DatabaseError
| OtherException
| Cancelled.

#[export] Instance fault_eq_dec : EqDecision fault.
Proof. solve_decision. Defined.

Definition is_exception (f : fault) : bool := negb (bool_decide (f = Cancelled)).

(** The columns of [Device] the transactions read. *)
Record Device := {
  device_id : string; name : string; model : string; ip_address : string; firmware : string; info_xml : string
}.

(** [device_fingerprint]. *)
Definition device_fingerprint (d : Device) : string * string * string * string * string :=
  (device_id d, ip_address d, model d, firmware d, info_xml d).

(** A row of the action journal, as the transactions fill it: the stored texts are
    bounded and redacted forms of these values, and the states read before and after are
    left out but for the digest of the backup. *)
Record action := {
  job_id : string; a_device : string; a_action : string; phase : string; backup_ref : string;
  before_sha256 : string; requested_state : json; a_verified : bool; error_category : string
}.

Inductive row : Type :=
| ConfigBackup (device path content : string)
| DeviceActionJournal (a : action)
| Setting (key value : string)
| DeviceUpdate (ref : nat) (new_name new_info : string).    (* attributes assigned to a Device *)

(** A client made for the device object [c_device], and the address it talks to. *)
Record client := { c_device : nat; c_peer : string }.

Inductive event : Type :=
| Entered (targets : list string)                        (* device_transaction holds the radios *)
| Left (targets : list string)
| Guarded (ref : nat)                                    (* the guard let the write pass *)
| Got (c : client) (path : string) (answer : res fault string)
| Posted (c : client) (path xml : string) (answer : res fault string)
| Saved (rows : list (Z * row))                          (* a commit made these rows durable *)
| ReadBack (id : Z) (content : option string)            (* a backup as the database has it *)
| Ledger (a : action).                                   (* record_transport_attempt: its own session *)

(** ** The environment *)
Record env (W : Type) := {
  device : nat -> W -> Device;                                    (* the attributes of an ORM object now *)
  policy : W -> Protected.policy;
  guard : nat -> W -> res fault unit * W;
  enter : list string -> W -> res fault unit * W;                 (* device_transaction: Ownership *)
  leave : list string -> W -> W;
  owns : string -> W -> bool;                                     (* device_lock(id).owned_by_current_task() *)
  connect : nat -> W -> res fault string * W;                     (* the client of a device: its address *)
  get_xml : client -> string -> W -> res fault string * W;
  post_xml : client -> string -> string -> W -> res fault string * W;
  sleep : Z -> W -> res fault unit * W;                           (* milliseconds *)
  uuid4 : W -> string * W;
  flush : row -> W -> res fault Z * W;                            (* the primary key of the new row *)
  commit : list (Z * row) -> W -> option (fault * bool) * W;      (* the exception, and whether the rows are durable *)
  rollback : W -> W;
  stored_backup : Z -> W -> res fault (option string) * W;        (* db.get(..., populate_existing=True) *)
  setting_value : string -> W -> res fault (option string) * W;
  all_devices : W -> res fault (list nat) * W
}.
Arguments device {W}. Arguments policy {W}. Arguments guard {W}. Arguments enter {W}. Arguments leave {W}. Arguments owns {W}.
Arguments connect {W}. Arguments get_xml {W}. Arguments post_xml {W}. Arguments sleep {W}. Arguments uuid4 {W}.
Arguments flush {W}. Arguments commit {W}. Arguments rollback {W}. Arguments stored_backup {W}.
Arguments setting_value {W}. Arguments all_devices {W}.

Record session (W : Type) := { world : W; pending : list (Z * row); log : list event }.
Arguments world {W}. Arguments pending {W}. Arguments log {W}.

(** A component's exceptions contain the environment's. *)
Class Raises (E : Type) := fault_in : fault -> E.
#[export] Instance raises_fault : Raises fault := id.

Section Operations.
Context {W : Type} (v : env W) {E : Type} `{!Raises E}.

#[local] Abbreviation M := (ST (session W) E).

Definition emit (e : event) : M unit := modify (fun s => {| world := world s; pending := pending s; log := log s ++ [e] |}).
Definition set_world (w : W) (s : session W) : session W := {| world := w; pending := pending s; log := log s |}.
Definition set_pending (l : list (Z * row)) (s : session W) : session W := {| world := world s; pending := l; log := log s |}.

(** A call into the environment that is not part of the log. *)
Definition ask {A} (f : W -> res fault A * W) : M A := fun s =>
  match f (world s) with
  | (Ok a, w) => (Ok a, set_world w s)
  | (Err e, w) => (Err (fault_in e), set_world w s)
  end.
(** A call whose answer, an exception too, is an event. *)
Definition call {A} (f : W -> res fault A * W) (e : res fault A -> event) : M A := fun s =>
  let '(r, w) := f (world s) in
  let s := {| world := w; pending := pending s; log := log s ++ [e r] |} in
  match r with Ok a => (Ok a, s) | Err x => (Err (fault_in x), s) end.

Definition get_device (ref : nat) : M Device := gets (fun s => device v ref (world s)).
Definition get_policy : M Protected.policy := gets (fun s => policy v (world s)).
Definition run_guard (ref : nat) : M unit := ask (guard v ref);; emit (Guarded ref).
Definition make_client (ref : nat) : M client := peer ← ask (connect v ref); mret {| c_device := ref; c_peer := peer |}.
Definition get (c : client) (path : string) : M string := call (get_xml v c path) (Got c path).
Definition post (c : client) (path xml : string) : M string := call (post_xml v c path xml) (Posted c path xml).
Definition pause (ms : Z) : M unit := ask (sleep v ms).
Definition fresh : M string := ask (fun w => let '(u, w) := uuid4 v w in (Ok u, w)).

(** [db.add(row); db.flush()]: a flush that fails rolls the session back. *)
Definition add (r : row) : M Z := fun s =>
  match flush v r (world s) with
  | (Ok id, w) => (Ok id, {| world := w; pending := pending s ++ [(id, r)]; log := log s |})
  | (Err e, w) => (Err (fault_in e), {| world := w; pending := []; log := log s |})
  end.
(** An assignment to attributes of an object of the session. *)
Definition assign (r : row) : M unit := modify (fun s => set_pending (pending s ++ [(0, r)]) s).

Definition record_action (a : action) : M unit := _ ← add (DeviceActionJournal a); mret tt.

Definition commit_db : M unit := fun s =>
  match commit v (pending s) (world s) with
  | (None, w) => (Ok tt, {| world := w; pending := []; log := log s ++ [Saved (pending s)] |})
  | (Some (e, true), w) => (Err (fault_in e), {| world := w; pending := []; log := log s ++ [Saved (pending s)] |})
  | (Some (e, false), w) => (Err (fault_in e), {| world := w; pending := []; log := log s |})
  end.
Definition rollback_db : M unit := modify (fun s => {| world := rollback v (world s); pending := []; log := log s |}).

Definition read_backup (id : Z) : M (option string) := fun s =>
  match stored_backup v id (world s) with
  | (Ok c, w) => (Ok c, {| world := w; pending := pending s; log := log s ++ [ReadBack id c] |})
  | (Err e, w) => (Err (fault_in e), set_world w s)
  end.

(** [record_transport_attempt] contains its own failures. *)
Definition record_transport_attempt (a : action) : M unit := emit (Ledger a).

(** [async with device_transaction(targets): body]. *)
Definition device_transaction {A} (targets : list string) (body : M A) : M A :=
  ask (enter v targets);; emit (Entered targets);;
  finally body (fun s => {| world := leave v targets (world s); pending := pending s; log := log s ++ [Left targets] |}).

Definition require_unprotected_device (d : Device) (p : Protected.policy) : res fault unit :=
  match Protected.require_unprotected_device p (Some (ip_address d, device_id d)) with
  | Ok _ => Ok tt
  | Err (Protected.Forbidden status) => Err (HTTPException status)
  | Err Protected.ProtectionPolicyUnavailable => Err ProtectionPolicyUnavailable
  end.
End Operations.

Definition lift {W E A} `{!Raises E} (r : res fault A) : ST (session W) E A :=
  match r with Ok a => mret a | Err f => raise (fault_in f) end.

(** ** The contract of a careful writer *)
Record contract := {
  depth : nat;                         (* open device transactions *)
  backups : list (Z * string);         (* durable *)
  checked : list Z;                    (* and read again with the same digest *)
  intent : option action               (* durable and not used up *)
}.
Definition fresh_contract : contract := {| depth := 0; backups := []; checked := []; intent := None |}.

Definition saved_backups (rows : list (Z * row)) : list (Z * string) :=
  omap (fun x => match x.2 with ConfigBackup _ _ content => Some (x.1, content) | _ => None end) rows.
Definition saved_intents (phases : list string) (rows : list (Z * row)) : list action :=
  omap (fun x => match x.2 with
                 | DeviceActionJournal a => if bool_decide (phase a ∈ phases) then Some a else None
                 | _ => None end) rows.

Definition same_digest (a b : string) : bool := bool_decide (sha256_hex a = sha256_hex b).

Section Watch.
(** The phases that declare an intent, and the text that names a backup. *)
Context (phases : list string) (ref_text : Z -> string).

(** The depth only says that a transaction is open; whose radios the open ones own is read
    by [holding]. *)
Definition watch_step (m : contract) (e : event) : option contract :=
  match e with
  | Entered _ => Some {| depth := S (depth m); backups := backups m; checked := checked m; intent := intent m |}
  | Left _ => Some {| depth := pred (depth m); backups := backups m; checked := checked m; intent := intent m |}
  | Guarded _ | Ledger _ => Some m
  | Got _ _ _ => if (0 <? depth m)%nat then Some m else None
  | Saved rows =>
      Some {| depth := depth m; backups := backups m ++ saved_backups rows; checked := checked m;
              intent := match last_opt (saved_intents phases rows) with Some a => Some a | None => intent m end |}
  | ReadBack id (Some c) =>
      Some {| depth := depth m; backups := backups m;
              checked := if existsb (fun b => (b.1 =? id) && same_digest b.2 c) (backups m) then id :: checked m else checked m;
              intent := intent m |}
  | ReadBack _ None => Some m
  | Posted _ _ _ _ =>
      match intent m with
      | Some a =>
          if (0 <? depth m)%nat && existsb (fun id => bool_decide (backup_ref a = ref_text id)) (checked m)
          then Some {| depth := depth m; backups := backups m; checked := checked m; intent := None |}
          else None
      | None => None
      end
  end.

Fixpoint watch (m : contract) (l : list event) : option contract :=
  match l with
  | [] => Some m
  | e :: l => m ← watch_step m e; watch m l
  end.
End Watch.

(** ** Who is owned

    The transactions that are open, by their targets, as long as every request goes to a
    radio that one of them owns; [who] names the radio of a device object. *)
Definition hold_step (who : nat -> string) (open : list (list string)) (e : event) : option (list (list string)) :=
  match e with
  | Entered targets => Some (targets :: open)
  | Left _ => Some (tail open)
  | Got c _ _ | Posted c _ _ _ => if bool_decide (who (c_device c) ∈ List.concat open) then Some open else None
  | _ => Some open
  end.
Fixpoint holding (who : nat -> string) (open : list (list string)) (l : list event) : option (list (list string)) :=
  match l with
  | [] => Some open
  | e :: l => open ← hold_step who open e; holding who open l
  end.

(** Requests to these radios only, inside a transaction. *)
Definition within (refs : list nat) (e : event) : bool :=
  match e with Got c _ _ | Posted c _ _ _ => bool_decide (c_device c ∈ refs) | Entered _ | Left _ => false | _ => true end.

Lemma holding_app who open l1 l2 : holding who open (l1 ++ l2) = o ← holding who open l1; holding who o l2.
Proof.
  revert open. induction l1 as [|e l1 IH]; intros open; [done|]. cbn [app holding].
  destruct (hold_step who open e) as [o|]; [|done]. cbn. apply IH.
Qed.

Lemma holding_within who open refs l :
  (forall ref, ref ∈ refs -> who ref ∈ List.concat open) -> forallb (within refs) l = true -> holding who open l = Some open.
Proof.
  intros Hw. induction l as [|e l IH]; [done|]. cbn [forallb holding]. intros [He Hl]%andb_true_iff.
  assert (hold_step who open e = Some open) as ->; [|by apply IH].
  destruct e as [| | |c pa a|c pa x a| | |]; try done; cbn in He |- *; apply bool_decide_eq_true in He;
    by rewrite bool_decide_true by by apply Hw.
Qed.

Lemma holding_transaction who open t t' l :
  holding who (t :: open) l = Some (t :: open) -> holding who open (Entered t :: l ++ [Left t']) = Some open.
Proof. intros H. cbn. by rewrite holding_app, H. Qed.

(** The requests that may have changed a radio. *)
Definition posts (l : list event) : list (nat * string * string) :=
  omap (fun e => match e with Posted c path xml _ => Some (c_device c, path, xml) | _ => None end) l.

(** ** What a transaction cannot do by reading and recording *)

(** Events other than a request that changes a radio and the ends of a transaction. *)
Definition looks (e : event) : bool :=
  match e with Posted _ _ _ _ | Entered _ | Left _ => false | _ => true end.

Lemma posts_app l1 l2 : posts (l1 ++ l2) = posts l1 ++ posts l2.
Proof. apply omap_app. Qed.

Lemma posts_looks l : forallb looks l = true -> posts l = [].
Proof. induction l as [|e l IH]; [done|]. cbn. intros [He Hl]%andb_true_iff. destruct e; try discriminate; by apply IH. Qed.

Section WatchFacts.
Context (phases : list string) (ref_text : Z -> string).
Abbreviation step := (watch_step phases ref_text).
Abbreviation watches := (watch phases ref_text).

Lemma watch_app m l1 l2 : watches m (l1 ++ l2) = m' ← watches m l1; watches m' l2.
Proof.
  revert m. induction l1 as [|e l1 IH]; intros m; [done|]. cbn [app watch]. destruct (step m e) as [m'|]; [|done]. cbn. apply IH.
Qed.

(** Reading and recording inside a transaction keeps the contract and what was checked. *)
Lemma watch_looks m l :
  forallb looks l = true -> (0 < depth m)%nat ->
  exists m', watches m l = Some m' /\ depth m' = depth m /\ (forall id, id ∈ checked m -> id ∈ checked m').
Proof.
  revert m. induction l as [|e l IH]; intros m; [by exists m|]. cbn [forallb watch]. intros [He Hl]%andb_true_iff Hd.
  assert (exists m', step m e = Some m' /\ depth m' = depth m /\ (forall id, id ∈ checked m -> id ∈ checked m')) as (m1 & E & Hd1 & Hc1).
  { destruct e as [| | |c p a|c p x a|rows|id [content|]|a]; try discriminate; cbn [watch_step]; eauto.
    - apply Nat.ltb_lt in Hd. rewrite Hd. eauto.
    - eexists. split; [done|]. split; [done|]. intros i Hi. cbn. case_match; [by right|done]. }
  rewrite E. cbn. destruct (IH m1 Hl) as (m' & Hm & Hd' & Hc'); [by rewrite Hd1|]. exists m'. rewrite Hm. split; [done|].
  split; [congruence|]. auto.
Qed.

Lemma watch_post m c path xml answer a id :
  intent m = Some a -> id ∈ checked m -> backup_ref a = ref_text id -> (0 < depth m)%nat ->
  step m (Posted c path xml answer) = Some {| depth := depth m; backups := backups m; checked := checked m; intent := None |}.
Proof.
  intros Hi Hid Hr Hd. cbn [watch_step]. rewrite Hi. apply Nat.ltb_lt in Hd. rewrite Hd. cbn [andb].
  replace (existsb _ (checked m)) with true; [done|]. symmetry. apply existsb_exists. exists id. split; [by apply list_elem_of_In|].
  by apply bool_decide_eq_true.
Qed.
End WatchFacts.

(** Of those, the events that leave the declared intent as it is. *)
Definition quiet (e : event) : bool := looks e && match e with Saved _ => false | _ => true end.

(** Events that need no radio. *)
Definition free (e : event) : bool := match e with Guarded _ | Ledger _ => true | _ => false end.

Lemma free_looks l : forallb free l = true -> forallb looks l = true.
Proof. rewrite !forallb_forall. intros H e He. specialize (H e He). by destruct e. Qed.

Lemma quiet_looks l : forallb quiet l = true -> forallb looks l = true.
Proof. rewrite !forallb_forall. intros H e He. specialize (H e He). unfold quiet in H. by apply andb_true_iff in H as [? _]. Qed.

Section Adds.
Context {W : Type}.

(** [s'] is [s] after more events of a kind. *)
Definition adds (p : event -> bool) (s s' : session W) : Prop := exists l, log s' = log s ++ l /\ forallb p l = true.

#[export] Instance adds_preorder p : PreOrder (adds p).
Proof.
  split.
  - intros s. exists []. by rewrite app_nil_r.
  - intros s1 s2 s3 (l1 & H1 & L1) (l2 & H2 & L2). exists (l1 ++ l2). rewrite H2, H1, app_assoc. split; [done|].
    by rewrite forallb_app, L1, L2.
Qed.

Lemma adds_same p s s' : log s' = log s -> adds p s s'.
Proof. intros H. exists []. by rewrite app_nil_r. Qed.
Lemma adds_event p s s' e : log s' = log s ++ [e] -> p e = true -> adds p s s'.
Proof. intros H He. exists [e]. split; [done|]. cbn. by rewrite He. Qed.

Context (v : env W) {E : Type} `{!Raises E} (p : event -> bool).
Abbreviation calmly := (@steps_in (session W) E _ (adds p)).

Lemma adds_emit e : p e = true -> calmly (emit e).
Proof. intros He s. by eapply adds_event. Qed.
Lemma adds_ask {A} (f : W -> res fault A * W) : steps_in (adds p) (ask f : ST (session W) E A).
Proof. intros s. unfold ask. destruct (f (world s)) as [[a|e] w]; by apply adds_same. Qed.
Lemma adds_call {A} (f : W -> res fault A * W) e : (forall r, p (e r) = true) -> steps_in (adds p) (call f e : ST (session W) E A).
Proof. intros He s. unfold call. destruct (f (world s)) as [[a|x] w]; by eapply adds_event. Qed.
Lemma adds_get_device ref : calmly (get_device v ref).
Proof. intros s. by apply adds_same. Qed.
Lemma adds_get_policy : calmly (get_policy v).
Proof. intros s. by apply adds_same. Qed.
Lemma adds_run_guard ref : p (Guarded ref) = true -> calmly (run_guard v ref).
Proof. intros Hp. apply steps_in_bind; [apply _|apply adds_ask|intros _; by apply adds_emit]. Qed.
Lemma adds_make_client ref : calmly (make_client v ref).
Proof. apply steps_in_bind; [apply _|apply adds_ask|intros a; apply steps_in_ret, _]. Qed.
Lemma adds_get c path : (forall r, p (Got c path r) = true) -> calmly (get v c path).
Proof. intros Hp. by apply adds_call. Qed.
Lemma adds_pause ms : calmly (pause v ms).
Proof. apply adds_ask. Qed.
Lemma adds_fresh : calmly (fresh v).
Proof. apply adds_ask. Qed.
Lemma adds_add r : calmly (add v r).
Proof. intros s. unfold add. destruct (flush v r (world s)) as [[id|e] w]; by apply adds_same. Qed.
Lemma adds_assign r : calmly (assign r).
Proof. intros s. by apply adds_same. Qed.
Lemma adds_record_action a : calmly (record_action v a).
Proof. apply steps_in_bind; [apply _|apply adds_add|intros x; apply steps_in_ret, _]. Qed.
Lemma adds_commit_db : (forall rows, p (Saved rows) = true) -> calmly (commit_db v).
Proof.
  intros Hp s. unfold commit_db. destruct (commit v (pending s) (world s)) as [[[e []]|] w]; [|by apply adds_same|]; by eapply adds_event.
Qed.
Lemma adds_rollback_db : calmly (rollback_db v).
Proof. intros s. by apply adds_same. Qed.
Lemma adds_read_backup id : (forall c, p (ReadBack id c) = true) -> calmly (read_backup v id).
Proof. intros Hp s. unfold read_backup. destruct (stored_backup v id (world s)) as [[c|e] w]; [by eapply adds_event|by apply adds_same]. Qed.
Lemma adds_record_transport_attempt a : p (Ledger a) = true -> calmly (record_transport_attempt a).
Proof. by apply adds_emit. Qed.
Lemma adds_lift {A} (r : res fault A) : steps_in (adds p) (lift r : ST (session W) E A).
Proof. destruct r; intros s; by apply adds_same. Qed.
End Adds.
#[export] Hint Extern 1 (looks _ = true) => reflexivity : py.
#[export] Hint Extern 1 (quiet _ = true) => reflexivity : py.
#[export] Hint Extern 1 (free _ = true) => reflexivity : py.
#[export] Hint Resolve adds_preorder adds_ask adds_get_device adds_get_policy adds_run_guard adds_make_client adds_get adds_pause adds_fresh
  adds_add adds_assign adds_record_action adds_commit_db adds_rollback_db adds_read_backup adds_record_transport_attempt adds_lift : py.

Abbreviation calm := (adds looks).
Abbreviation silent := (adds quiet).

(** ** The environment raises faults only *)
Section Faults.
Context {W : Type} (v : env W) {E : Type} `{!Raises E} (X : E -> Prop) (HX : forall f, X (fault_in f)).
Abbreviation faulty := (@raises_in (session W) E _ X).

Lemma faults_ask {A} (f : W -> res fault A * W) : raises_in X (ask f : ST (session W) E A).
Proof using HX. intros s. unfold ask. destruct (f (world s)) as [[a|e] w]; cbn; auto. Qed.
Lemma faults_call {A} (f : W -> res fault A * W) e : raises_in X (call f e : ST (session W) E A).
Proof using HX. intros s. unfold call. destruct (f (world s)) as [[a|x] w]; cbn; auto. Qed.
Lemma faults_lift {A} (r : res fault A) : raises_in X (lift r : ST (session W) E A).
Proof using HX. destruct r; intros s; cbn; auto. Qed.
Lemma faults_get_device ref : faulty (get_device v ref).
Proof. by intros s. Qed.
Lemma faults_get_policy : faulty (get_policy v).
Proof. by intros s. Qed.
Lemma faults_run_guard ref : faulty (run_guard v ref).
Proof using HX. apply raises_in_bind; [apply faults_ask|intros _; apply raises_in_modify]. Qed.
Lemma faults_make_client ref : faulty (make_client v ref).
Proof using HX. apply raises_in_bind; [apply faults_ask|intros a; apply raises_in_ret]. Qed.
Lemma faults_get c path : faulty (get v c path).
Proof using HX. apply faults_call. Qed.
Lemma faults_post c path xml : faulty (post v c path xml).
Proof using HX. apply faults_call. Qed.
Lemma faults_pause ms : faulty (pause v ms).
Proof using HX. apply faults_ask. Qed.
Lemma faults_add r : faulty (add v r).
Proof using HX. intros s. unfold add. destruct (flush v r (world s)) as [[id|e] w]; cbn; auto. Qed.
Lemma faults_record_action a : faulty (record_action v a).
Proof using HX. apply raises_in_bind; [apply faults_add|intros x; apply raises_in_ret]. Qed.
Lemma faults_commit_db : faulty (commit_db v).
Proof using HX. intros s. unfold commit_db. destruct (commit v (pending s) (world s)) as [[[e []]|] w]; cbn; auto. Qed.
Lemma faults_read_backup id : faulty (read_backup v id).
Proof using HX. intros s. unfold read_backup. destruct (stored_backup v id (world s)) as [[c|e] w]; cbn; auto. Qed.
Lemma faults_assign r : faulty (assign r).
Proof. by intros s. Qed.
Lemma faults_rollback_db : faulty (rollback_db v).
Proof. by intros s. Qed.
Lemma faults_record_transport_attempt a : faulty (record_transport_attempt a).
Proof. by intros s. Qed.
Lemma faults_fresh : faulty (fresh v).
Proof using HX. apply faults_ask. Qed.
End Faults.
#[export] Hint Resolve faults_assign faults_rollback_db faults_record_transport_attempt faults_fresh faults_ask faults_lift faults_get_device faults_get_policy faults_run_guard faults_make_client faults_get
  faults_post faults_pause faults_add faults_record_action faults_commit_db faults_read_backup : py.

(** ** Single steps *)
Section Steps.
Context {W : Type} (v : env W) {E : Type} `{!Raises E}.

Lemma adds_run p {A} (m : ST (session W) E A) s r s' : steps_in (adds p) m -> m s = (r, s') -> adds p s s'.
Proof. intros Hm H. specialize (Hm s). by rewrite H in Hm. Qed.
Lemma calm_run {A} (m : ST (session W) E A) s r s' : steps_in calm m -> m s = (r, s') -> calm s s'.
Proof. apply adds_run. Qed.

Lemma raises_run {A} (X : E -> Prop) (m : ST (session W) E A) s e s' : raises_in X m -> m s = (Err e, s') -> X e.
Proof. intros Hm H. specialize (Hm s). by rewrite H in Hm. Qed.

Lemma get_Ok c path s text s' :
  get v c path s = (Ok text : res E string, s') -> log s' = log s ++ [Got c path (Ok text)].
Proof. unfold get, call. destruct (get_xml v c path (world s)) as [[a|e] w]; [by intros [= <- <-]|done]. Qed.

Lemma commit_Ok s s' :
  commit_db v s = (Ok tt : res E unit, s') -> log s' = log s ++ [Saved (pending s)] /\ pending s' = [].
Proof. unfold commit_db. destruct (commit v (pending s) (world s)) as [[[e []]|] w]; [done|done|by intros [= <-]]. Qed.

Lemma add_Ok r s id s' :
  add v r s = (Ok id : res E Z, s') -> log s' = log s /\ pending s' = pending s ++ [(id, r)].
Proof. unfold add. destruct (flush v r (world s)) as [[a|e] w]; [by intros [= <- <-]|done]. Qed.

Lemma record_action_Ok a s s' :
  record_action v a s = (Ok tt : res E unit, s') ->
  log s' = log s /\ exists id, pending s' = pending s ++ [(id, DeviceActionJournal a)].
Proof. intros (id & s1 & H & [= <-])%st_bind_Ok. apply add_Ok in H as [? ?]. eauto. Qed.

Lemma post_run c path xml s r s' :
  post v c path xml s = (r : res E string, s') -> exists answer, log s' = log s ++ [Posted c path xml answer].
Proof. unfold post, call. destruct (post_xml v c path xml (world s)) as [[a|e] w]; intros [= <- <-]; eauto. Qed.

Lemma make_client_Ok ref s c s' : make_client v ref s = (Ok c : res E client, s') -> c_device c = ref.
Proof. by intros (peer & s1 & _ & [= <- _])%st_bind_Ok. Qed.

(** A client is made for its device object. *)
Lemma within_client refs {A} ref (k : client -> ST (session W) E A) :
  ref ∈ refs -> (forall c, c_device c ∈ refs -> steps_in (adds (within refs)) (k c)) ->
  steps_in (adds (within refs)) (c ← make_client v ref; k c).
Proof.
  intros Hr Hk s. unfold make_client, ask, mbind, st_bind. destruct (connect v ref (world s)) as [[a|e] w]; cbn.
  - exact (Hk {| c_device := ref; c_peer := a |} Hr (set_world w s)).
  - by apply adds_same.
Qed.

Lemma device_transaction_run {A} targets (body : ST (session W) E A) s o s' :
  device_transaction v targets body s = (o, s') ->
  (exists f, o = Err (fault_in f) /\ log s' = log s)
  \/ exists s1 s2, log s1 = log s ++ [Entered targets] /\ body s1 = (o, s2) /\ log s' = log s2 ++ [Left targets].
Proof.
  unfold device_transaction, ask, emit, modify, finally, mbind, st_bind.
  destruct (enter v targets (world s)) as [[[]|f] w]; [|intros [= <- <-]; left; by exists f].
  cbn. destruct (body _) as [r s2] eqn:E2. intros [= <- <-]. right. eexists _, _. split; [|split; [exact E2|]]; done.
Qed.
End Steps.

(** ** What the operations tell *)
Section ToldSteps.
Context {W : Type} (v : env W) {E : Type} `{!Raises E}.

(** An answer of the environment as a component sees it. *)
Definition faulted {A} (r : res fault A) : res E A := match r with Ok a => Ok a | Err f => Err (fault_in f) end.

Lemma told_get c path s : told log (get v c path) s (fun l r _ => exists a, l = [Got c path a] /\ r = faulted a).
Proof. unfold told, get, call. destruct (get_xml v c path (world s)) as [[a|e] w]; eexists [_]; split; eauto. Qed.
Lemma told_post c path xml s : told log (post v c path xml) s (fun l r _ => exists a, l = [Posted c path xml a] /\ r = faulted a).
Proof. unfold told, post, call. destruct (post_xml v c path xml (world s)) as [[a|e] w]; eexists [_]; split; eauto. Qed.
Lemma told_make_client ref s :
  told log (make_client v ref) s (fun l r _ => l = [] /\ match r with Ok c => c_device c = ref | Err e => exists f, e = fault_in f end).
Proof.
  unfold told, make_client, ask, mbind, st_bind. destruct (connect v ref (world s)) as [[a|e] w]; exists []; rewrite app_nil_r; cbn; eauto.
Qed.
Lemma told_run_guard ref s :
  told log (run_guard v ref) s (fun l r _ => match r with Ok _ => l = [Guarded ref] | Err e => l = [] /\ exists f, e = fault_in f end).
Proof.
  unfold told, run_guard, ask, mbind, st_bind. destruct (guard v ref (world s)) as [[[]|e] w]; [by exists [Guarded ref]|].
  exists []. rewrite app_nil_r. cbn. eauto.
Qed.
Lemma told_get_device ref s :
  told log (get_device v ref) s (fun l (r : res E Device) s' => l = [] /\ r = Ok (device v ref (world s)) /\ s' = s).
Proof. exists []. by rewrite app_nil_r. Qed.
Lemma told_get_policy s :
  told log (get_policy v) s (fun l (r : res E Protected.policy) s' => l = [] /\ r = Ok (policy v (world s)) /\ s' = s).
Proof. exists []. by rewrite app_nil_r. Qed.
Lemma told_lift {A} (x : res fault A) s :
  told log (lift x : ST (session W) E A) s (fun l r s' => l = [] /\ r = faulted x /\ s' = s).
Proof. exists []. rewrite app_nil_r. by destruct x. Qed.
Lemma told_commit s :
  told log (commit_db v) s (fun l r _ => match r with
    | Ok _ => l = [Saved (pending s)]
    | Err e => (l = [] \/ l = [Saved (pending s)]) /\ exists f, e = fault_in f end).
Proof.
  unfold told, commit_db. destruct (commit v (pending s) (world s)) as [[[e []]|] w]; cbn.
  - exists [Saved (pending s)]. eauto.
  - exists []. rewrite app_nil_r. eauto.
  - by exists [Saved (pending s)].
Qed.
Lemma told_add r s :
  told log (add v r) s (fun l o s' => l = [] /\ match o with Ok id => pending s' = pending s ++ [(id, r)] | Err e => exists f, e = fault_in f end).
Proof. unfold told, add. destruct (flush v r (world s)) as [[id|e] w]; exists []; rewrite app_nil_r; cbn; eauto. Qed.
Lemma told_record_action a s :
  told log (record_action v a) s (fun l o s' => l = [] /\ match o with
    | Ok _ => exists id, pending s' = pending s ++ [(id, DeviceActionJournal a)] | Err e => exists f, e = fault_in f end).
Proof.
  unfold told, record_action, add, mbind, st_bind. destruct (flush v _ (world s)) as [[id|e] w]; exists []; rewrite app_nil_r; cbn; eauto.
Qed.
Lemma told_read_backup id s :
  told log (read_backup v id) s (fun l r _ => match r with Ok c => l = [ReadBack id c] | Err e => l = [] /\ exists f, e = fault_in f end).
Proof.
  unfold told, read_backup. destruct (stored_backup v id (world s)) as [[c|e] w]; cbn; [by exists [ReadBack id c]|].
  exists []. rewrite app_nil_r. eauto.
Qed.
End ToldSteps.

Lemma told_adds {W E A} p (m : ST (session W) E A) s :
  steps_in (adds p) m -> told log m s (fun l _ _ => forallb p l = true).
Proof. intros H. destruct (H s) as (l & L & K). by exists l. Qed.

(** ** What a stretch of a transaction adds to its log

    [keeps ids l]: read from inside a transaction in which [ids] are checked, the events
    obey the contract and leave the transaction open. *)
Section Keeps.
Context (phases : list string) (ref_text : Z -> string).
Abbreviation watches := (watch phases ref_text).

Definition keeps (ids : list Z) (l : list event) : Prop :=
  forall m, (0 < depth m)%nat -> (forall id, id ∈ ids -> id ∈ checked m) ->
  exists m', watches m l = Some m' /\ depth m' = depth m /\ (forall id, id ∈ checked m -> id ∈ checked m').

Lemma keeps_looks ids l : forallb looks l = true -> keeps ids l.
Proof. intros Hl m Hd _. by apply watch_looks. Qed.

Lemma keeps_app ids l1 l2 : keeps ids l1 -> keeps ids l2 -> keeps ids (l1 ++ l2).
Proof.
  intros H1 H2 m Hd Hi. destruct (H1 m Hd Hi) as (m1 & E1 & D1 & C1).
  destruct (H2 m1) as (m2 & E2 & D2 & C2); [by rewrite D1|auto|]. exists m2. rewrite watch_app, E1. cbn. rewrite E2.
  split; [done|]. split; [congruence|auto].
Qed.

Lemma keeps_weaken ids ids' l : (forall id, id ∈ ids -> id ∈ ids') -> keeps ids l -> keeps ids' l.
Proof. intros Hi H m Hd Hc. apply H; auto. Qed.

(** What does not save anything leaves the declared intent standing. *)
Lemma watch_quiet m l :
  forallb quiet l = true -> (0 < depth m)%nat ->
  exists m', watches m l = Some m' /\ depth m' = depth m /\ (forall id, id ∈ checked m -> id ∈ checked m') /\ intent m' = intent m.
Proof.
  revert m. induction l as [|e l IH]; intros m; [by exists m|]. cbn [forallb watch]. intros [He Hl]%andb_true_iff Hd.
  assert (exists m', watch_step phases ref_text m e = Some m' /\ depth m' = depth m
    /\ (forall id, id ∈ checked m -> id ∈ checked m') /\ intent m' = intent m) as (m1 & E & Hd1 & Hc1 & Hi1).
  { destruct e as [| | |c p a|c p x a|rows|id [content|]|a]; try discriminate; cbn [watch_step]; eauto.
    - apply Nat.ltb_lt in Hd. rewrite Hd. eauto.
    - eexists. split; [done|]. split; [done|]. split; [|done]. intros i Hi. cbn. case_match; [by right|done]. }
  rewrite E. cbn. destruct (IH m1 Hl) as (m' & Hm & Hd' & Hc' & Hi'); [by rewrite Hd1|]. exists m'. rewrite Hm. split; [done|].
  split; [congruence|]. split; [auto|congruence].
Qed.

Definition saved_to (m : contract) (rows : list (Z * row)) : contract :=
  {| depth := depth m; backups := backups m ++ saved_backups rows; checked := checked m;
     intent := match last_opt (saved_intents phases rows) with Some a => Some a | None => intent m end |}.

Lemma watch_saved m rows l : watches m (Saved rows :: l) = watches (saved_to m rows) l.
Proof. done. Qed.

Lemma elem_of_saved_backups id dev name content rows :
  (id, ConfigBackup dev name content) ∈ rows -> (id, content) ∈ saved_backups rows.
Proof. intros H. apply list_elem_of_omap. by exists (id, ConfigBackup dev name content). Qed.

Lemma watch_read_back m id content c l :
  (id, content) ∈ backups m -> sha256_hex content = sha256_hex c ->
  watches m (ReadBack id (Some c) :: l) =
  watches {| depth := depth m; backups := backups m; checked := id :: checked m; intent := intent m |} l.
Proof.
  intros Hin Hd. cbn [watch watch_step mbind option_bind].
  replace (existsb _ (backups m)) with true; [done|]. symmetry. apply existsb_exists. exists (id, content).
  split; [by apply list_elem_of_In|]. cbn. rewrite Z.eqb_refl. by apply bool_decide_eq_true.
Qed.

(** A declared intent, whatever is read before it is used, covers one request. *)
Lemma watch_intended m a l c path xml answer id :
  intent m = Some a -> id ∈ checked m -> backup_ref a = ref_text id -> (0 < depth m)%nat -> forallb quiet l = true ->
  exists m', watches m (l ++ [Posted c path xml answer]) = Some m' /\ depth m' = depth m /\ (forall id, id ∈ checked m -> id ∈ checked m').
Proof.
  intros Hi Hid Hr Hd Hl. destruct (watch_quiet m l Hl Hd) as (m1 & E1 & D1 & C1 & I1).
  rewrite watch_app, E1. cbn [mbind option_bind watch].
  rewrite (watch_post phases ref_text m1 c path xml answer a id); [|congruence|auto|done|by rewrite D1].
  eexists. split; [done|]. cbn. auto.
Qed.

(** A write: its intent is saved with the rows of the session, then the request is made. *)
Lemma keeps_intended ids l rows iid a l1 c path xml answer id :
  forallb looks l = true -> forallb quiet l1 = true -> phase a ∈ phases -> backup_ref a = ref_text id -> id ∈ ids ->
  keeps ids (l ++ Saved (rows ++ [(iid, DeviceActionJournal a)]) :: l1 ++ [Posted c path xml answer]).
Proof.
  intros Hl Hl1 Hp Hr Hid m Hd Hi. destruct (watch_looks phases ref_text m l Hl Hd) as (m1 & E1 & D1 & C1).
  rewrite watch_app, E1. cbn [mbind option_bind]. rewrite watch_saved.
  destruct (watch_intended (saved_to m1 (rows ++ [(iid, DeviceActionJournal a)])) a l1 c path xml answer id) as (m' & E & D & C);
    [|cbn; auto|done|cbn; lia|done|].
  - unfold saved_to, saved_intents. cbn [intent]. rewrite omap_app. cbn [omap list_omap snd]. rewrite bool_decide_true by done.
    by rewrite last_opt_snoc.
  - exists m'. rewrite E. split; [done|]. split; [rewrite D; exact D1|]. intros i Hc. apply C. cbn. auto.
Qed.

Lemma keeps_write ids l rows iid a c path xml answer id :
  forallb looks l = true -> phase a ∈ phases -> backup_ref a = ref_text id -> id ∈ ids ->
  keeps ids (l ++ [Saved (rows ++ [(iid, DeviceActionJournal a)])] ++ [Posted c path xml answer]).
Proof. intros Hl. by apply (keeps_intended ids l rows iid a []). Qed.

(** [secures id l]: the stretch makes a backup durable and finds it intact. *)
Definition secures (id : Z) (l : list event) : Prop :=
  exists l0 rows dev name content c l1, l = l0 ++ Saved rows :: ReadBack id (Some c) :: l1
    /\ forallb looks l0 = true /\ forallb looks l1 = true
    /\ (id, ConfigBackup dev name content) ∈ rows /\ sha256_hex content = sha256_hex c.

Lemma keeps_secured id l1 l2 : secures id l1 -> keeps [id] l2 -> keeps [] (l1 ++ l2).
Proof.
  intros (l0 & rows & dev & name & content & c & l3 & -> & Hl0 & Hl3 & Hin & Hd) H2 m Hm _.
  destruct (watch_looks phases ref_text m l0 Hl0 Hm) as (m1 & E1 & D1 & C1).
  set (m2 := saved_to m1 rows).
  set (m3 := {| depth := depth m2; backups := backups m2; checked := id :: checked m2; intent := intent m2 |}).
  destruct (watch_looks phases ref_text m3 l3 Hl3) as (m4 & E4 & D4 & C4); [cbn; lia|].
  destruct (H2 m4) as (m5 & E5 & D5 & C5); [rewrite D4; cbn; lia|intros i ->%list_elem_of_singleton; apply C4; left|].
  exists m5. rewrite <- app_assoc, watch_app, E1. cbn [mbind option_bind app]. rewrite watch_saved.
  rewrite (watch_read_back _ id content c); [|apply elem_of_app; right; by eapply elem_of_saved_backups|done].
  change (watches m3 (l3 ++ l2) = Some m5 /\ depth m5 = depth m /\ (forall id, id ∈ checked m -> id ∈ checked m5)).
  rewrite watch_app, E4. cbn [mbind option_bind]. split; [done|]. split; [rewrite D5, D4; cbn; done|].
  intros i Hc. apply C5, C4. right. cbn. auto.
Qed.

(** The backup and the intent that names it may be saved together. *)
Lemma keeps_single_write l0 rows iid a id dev name content c l1 cl path xml answer l2 :
  forallb looks l0 = true -> forallb quiet l1 = true -> forallb looks l2 = true ->
  phase a ∈ phases -> backup_ref a = ref_text id -> (id, ConfigBackup dev name content) ∈ rows ->
  sha256_hex content = sha256_hex c ->
  keeps [] (l0 ++ Saved (rows ++ [(iid, DeviceActionJournal a)]) :: ReadBack id (Some c) :: l1 ++ Posted cl path xml answer :: l2).
Proof.
  intros Hl0 Hl1 Hl2 Hp Hr Hin Hd m Hm _. destruct (watch_looks phases ref_text m l0 Hl0 Hm) as (m1 & E1 & D1 & C1).
  rewrite watch_app, E1. cbn [mbind option_bind]. rewrite watch_saved. set (rows' := rows ++ [(iid, DeviceActionJournal a)]).
  rewrite (watch_read_back _ id content c); [|apply elem_of_app; right; eapply elem_of_saved_backups, elem_of_app; left; exact Hin|done].
  match goal with |- context [watches ?x (l1 ++ _)] => set (m3 := x) end.
  destruct (watch_intended m3 a l1 cl path xml answer id) as (m4 & E4 & D4 & C4); [|left|done|cbn; lia|done|].
  - unfold m3, saved_to, saved_intents, rows'. cbn [intent]. rewrite omap_app. cbn [omap list_omap snd].
    rewrite bool_decide_true by done. by rewrite last_opt_snoc.
  - destruct (watch_looks phases ref_text m4 l2 Hl2) as (m5 & E5 & D5 & C5); [rewrite D4; cbn; lia|].
    exists m5. replace (l1 ++ Posted cl path xml answer :: l2) with ((l1 ++ [Posted cl path xml answer]) ++ l2) by (by rewrite <- app_assoc).
    rewrite watch_app, E4. cbn [mbind option_bind]. split; [done|]. split; [rewrite D5, D4; exact D1|].
    intros i Hc. apply C5, C4. right. cbn. auto.
Qed.

(** A whole transaction, wherever it stands. *)
Definition obeys (l : list event) : Prop :=
  forall m, exists m', watches m l = Some m' /\ depth m' = depth m /\ (forall id, id ∈ checked m -> id ∈ checked m').

Lemma obeys_keeps ids l : obeys l -> keeps ids l.
Proof. intros H m _ _. apply H. Qed.
Lemma obeys_nil : obeys [].
Proof. intros m. by exists m. Qed.
Lemma obeys_app l1 l2 : obeys l1 -> obeys l2 -> obeys (l1 ++ l2).
Proof.
  intros H1 H2 m. destruct (H1 m) as (m1 & E1 & D1 & C1). destruct (H2 m1) as (m2 & E2 & D2 & C2). exists m2.
  rewrite watch_app, E1. cbn [mbind option_bind]. rewrite E2. split; [done|]. split; [congruence|auto].
Qed.
Lemma obeys_free l : forallb free l = true -> obeys l.
Proof.
  induction l as [|e l IH]; [intros _; apply obeys_nil|]. intros [He Hl]%andb_true_iff m. destruct (IH Hl m) as (m' & E & H).
  exists m'. split; [|done]. destruct e; done.
Qed.
Lemma obeys_transaction t t' l : keeps [] l -> obeys (Entered t :: l ++ [Left t']).
Proof.
  intros H m. cbn [watch watch_step mbind option_bind].
  destruct (H {| depth := S (depth m); backups := backups m; checked := checked m; intent := intent m |}) as (m' & E & D & C);
    [cbn; lia|by intros id ?%elem_of_nil|].
  rewrite watch_app, E. cbn [mbind option_bind watch watch_step]. eexists. split; [done|]. cbn. rewrite D. split; [done|]. exact C.
Qed.
End Keeps.

End Radio.
