(* ===== verification/Profiles.v ===== *)
(** * Radio profiles and identity

    setup_rebuild/profiles/: the registry of exactly researched radios and
    [detect_profile]; device_settings_writer.py: [verify_settings_identity], which every
    transaction repeats before and after it touches a radio. *)
From Stdlib Require Import Ascii String.
From S2P Require Import Prelude PyNum PyStr Xml Protected Radio.
#[local] Open Scope string_scope.
#[local] Open Scope list_scope.
#[local] Open Scope Z_scope.

Module Profiles.
Import Xml Radio.

(** ** base.py, stationary.py, portable.py *)
Record DeviceFacts := {
  f_device_id : string; f_ip_address : string; f_model : string; f_firmware : string;
  f_product_id : string; f_variant : string; f_platform : string
}.

(** The fields detection and identity read; the others name operations of the setup. *)
Record SshProfile := {
  key : string;
  model_family : string;
  supported_model_patterns : list string;
  firmware_patterns : list string;
  product_id : string;
  variants : list string;
  platforms : list string;
  port : Z;
  persistent_operation : string;
  temporary_operation : string;
  reboot_operation : string;
  status_operation : string;
  recovery_operation : string
}.

Definition BUILD : string := "27.0.6.46330.5043500".

Definition stationary (k pattern product variant platform : string) : SshProfile := {|
  key := k; model_family := "stationary"; supported_model_patterns := [pattern]; firmware_patterns := [BUILD];
  product_id := product; variants := [variant]; platforms := [platform]; port := 22;
  persistent_operation := "stationary.persist_ssh"; temporary_operation := "stationary.start_ssh";
  reboot_operation := "common.reboot"; status_operation := "common.read_ssh_state";
  recovery_operation := "common.rollback_ssh" |}.

Definition ST20_LEGACY_PROFILE : SshProfile :=
  stationary "soundtouch-20-scm-27.0.6.46330.5043500" "soundtouch 20" "0x0923" "spotty" "scm".
Definition ST30_LEGACY_PROFILE : SshProfile :=
  stationary "soundtouch-30-scm-27.0.6.46330.5043500" "soundtouch 30" "0x0924" "mojo" "scm".
Definition ST20_SERIES_III_PROFILE : SshProfile :=
  stationary "soundtouch-20-sm2-27.0.6.46330.5043500" "soundtouch 20" "0x093B" "spotty" "sm2".
Definition ST30_SERIES_III_PROFILE : SshProfile :=
  stationary "soundtouch-30-sm2-27.0.6.46330.5043500" "soundtouch 30" "0x093C" "mojo" "sm2".
Definition STATIONARY_PROFILES : list SshProfile :=
  [ST20_LEGACY_PROFILE; ST30_LEGACY_PROFILE; ST20_SERIES_III_PROFILE; ST30_SERIES_III_PROFILE].

Definition PORTABLE_PROFILE : SshProfile := {|
  key := "soundtouch-portable-scm-27.0.6.46330.5043500"; model_family := "portable";
  supported_model_patterns := ["soundtouch portable"; "portable"]; firmware_patterns := [BUILD];
  product_id := "0x0925"; variants := ["taigan"]; platforms := ["scm"]; port := 22;
  persistent_operation := "portable.persist_ssh"; temporary_operation := "portable.start_ssh";
  reboot_operation := "common.reboot"; status_operation := "common.read_ssh_state";
  recovery_operation := "common.rollback_ssh" |}.

Definition all_profiles : list SshProfile := STATIONARY_PROFILES ++ [PORTABLE_PROFILE].

(** ** detection.py *)

(** [s.split()]. *)
Definition split_space (s : string) : list string := Protected.words is_space EmptyString s.

Fixpoint replace_char (a b : ascii) (s : string) : string :=
  match s with
  | EmptyString => EmptyString
  | String c s => String (if bool_decide (c = a) then b else c) (replace_char a b s)
  end.

Definition _normalized (value : string) : string :=
  String.concat " " (split_space (replace_char "_" " " (py_lower value))).
Definition _firmware_build (value : string) : string := default "" (head (split_space (py_strip value))).
Definition _product_id (value : string) : string :=
  let cleaned := py_upper (py_strip value) in
  if negb (empty_str cleaned) && negb (starts_with "0X" cleaned) then "0X" +:+ cleaned else cleaned.

(** [p in s] for strings. *)
Fixpoint contains (p s : string) : bool :=
  starts_with p s || match s with EmptyString => false | String _ s => contains p s end.

Record ProfileMatch := { profile : option SshProfile; reason : string; confidence : string; matched_product : string }.
Definition no_match (reason confidence : string) : ProfileMatch :=
  {| profile := None; reason := reason; confidence := confidence; matched_product := "" |}.

Definition is_in (x : string) (l : list string) : bool := bool_decide (x ∈ l).

Definition detect_profile (facts : DeviceFacts) : ProfileMatch :=
  let model := _normalized (f_model facts) in
  let firmware := _firmware_build (f_firmware facts) in
  let variant := _normalized (f_variant facts) in
  let platform := _normalized (f_platform facts) in
  let observed_product := _product_id (f_product_id facts) in
  let model_profiles := List.filter (fun item => existsb (fun pattern => contains pattern model) (supported_model_patterns item)) all_profiles in
  if bool_decide (model_profiles = []) then no_match "model family is not supported by a setup profile" "none"
  else if empty_str firmware then no_match "exact firmware build is missing" "firmware"
  else
    let build_profiles := List.filter (fun item => is_in firmware (firmware_patterns item)) model_profiles in
    if bool_decide (build_profiles = []) then no_match "exact firmware build is not approved for critical writes" "firmware"
    else if empty_str variant then no_match "live firmware variant is missing" "variant"
    else
      let variant_profiles := List.filter (fun item => is_in variant (variants item)) build_profiles in
      if bool_decide (variant_profiles = []) then no_match "firmware variant does not match the approved model profile" "variant"
      else if empty_str platform then no_match "live platform/moduleType is missing" "platform"
      else
        match List.filter (fun item => is_in platform (platforms item)) variant_profiles with
        | [found] =>
            let expected_product := _product_id (product_id found) in
            if negb (empty_str observed_product) && negb (bool_decide (observed_product = expected_product))
            then no_match "observed product ID conflicts with the approved profile" "product_id"
            else if empty_str observed_product
            then {| profile := Some found;
                    reason := "exact firmware, variant, model and platform profile; product ID derived from the unique approved profile";
                    confidence := "exact-profile-derived-product"; matched_product := expected_product |}
            else {| profile := Some found; reason := "exact firmware, product, variant, model and platform profile";
                    confidence := "exact-research-profile"; matched_product := expected_product |}
        | _ => no_match "platform does not identify one approved write profile" "platform"
        end.

(** ** [verify_settings_identity] of device_settings_writer.py *)
Section Identity.
(** [parse_xml] of core/xml_safety.py. *)
Context (parse_xml : string -> option element).

Definition parsed (text : string) : res fault element :=
  match parse_xml text with Some e => Ok e | None => Err ParseError end.

(** [str.casefold] as [lower] (ASCII). *)
Definition casefold : string -> string := py_lower.

Definition PRODUCT_TAGS : list string := ["productID"; "productId"; "product_id"; "productCode"].

Definition facts (expected_id : string) (d : Device) (node : element) : DeviceFacts := {|
  f_device_id := expected_id; f_ip_address := ip_address d;
  f_model := py_strip (findtext_or "type" "" node);
  f_firmware := py_strip (deep_findtext_or "softwareVersion" "" node);
  f_product_id := default "" (head (List.filter (fun t => negb (empty_str t)) (map (fun t => findtext_or t "" node) PRODUCT_TAGS)
                                    ) ≫= fun t => Some (py_strip t));
  f_variant := py_strip (findtext_or "variant" "" node);
  f_platform := py_strip (findtext_or "moduleType" "" node) |}.

Definition hardware (f : DeviceFacts) : string * string * string * string :=
  (casefold (f_model f), f_firmware f, casefold (f_variant f), casefold (f_platform f)).

Definition names_device (expected_id : string) (node : element) : bool :=
  bool_decide (tag node = "info") && bool_decide (py_upper (py_strip (attr_or "deviceID" "" node)) = expected_id).

Definition verify_settings_identity (p : Protected.policy) (d : Device) (xml : string) : res fault string :=
  root ← parsed xml;
  cached ← parsed (info_xml d);
  let expected_id := py_upper (py_strip (device_id d)) in
  if negb (names_device expected_id root) then Err IdentityMismatch
  else if negb (names_device expected_id cached) then Err IdentityMismatch
  else
    _ ← require_unprotected_device d p;
    let live := facts expected_id d root in
    let old := facts expected_id d cached in
    if empty_str (model d) || empty_str (firmware d) then Err ValueError
    else if negb (bool_decide (casefold (f_model live) = casefold (py_strip (model d))))
            || negb (bool_decide (f_firmware live = py_strip (firmware d))) then Err IdentityMismatch
    else if negb (bool_decide (hardware live = hardware old)) then Err IdentityMismatch
    else
      match profile (detect_profile live), profile (detect_profile old) with
      | Some current, Some before => if bool_decide (key current = key before) then Ok (key current) else Err IdentityMismatch
      | _, _ => Err ValueError
      end.
End Identity.

(** ** Detection *)

(** What a profile asks of the facts. *)
Definition fits (f : DeviceFacts) (p : SshProfile) : Prop :=
  (exists pattern, pattern ∈ supported_model_patterns p /\ contains pattern (_normalized (f_model f)) = true)
  /\ _firmware_build (f_firmware f) ∈ firmware_patterns p
  /\ _normalized (f_variant f) ∈ variants p
  /\ _normalized (f_platform f) ∈ platforms p.

Lemma all_profiles_spec p :
  p ∈ all_profiles -> exists build variant platform,
    firmware_patterns p = [build] /\ variants p = [variant] /\ platforms p = [platform] /\ empty_str build = false
    /\ empty_str variant = false /\ empty_str platform = false.
Proof.
  intros H. repeat (apply elem_of_cons in H as [->|H]; [eexists _, _, _; split_and!; reflexivity|]). by apply elem_of_nil in H.
Qed.

(** Variant and platform identify a profile of the registry. *)
Lemma profile_unique p q :
  p ∈ all_profiles -> q ∈ all_profiles -> variants p = variants q -> platforms p = platforms q -> p = q.
Proof.
  intros Hp Hq. repeat (apply elem_of_cons in Hp as [->|Hp]); try (by apply elem_of_nil in Hp);
    repeat (apply elem_of_cons in Hq as [->|Hq]); try (by apply elem_of_nil in Hq); cbn; try done; discriminate.
Qed.

Lemma filter_unique {A} (f : A -> bool) l x :
  NoDup l -> x ∈ l -> f x = true -> (forall y, y ∈ l -> f y = true -> y = x) -> List.filter f l = [x].
Proof.
  intros Hn Hx Hf Hu. apply list_elem_of_split in Hx as (l1 & l2 & ->). rewrite filter_app. cbn. rewrite Hf.
  apply list.NoDup_app in Hn as (_ & Hd & [Hx2 _]%list.NoDup_cons).
  assert (forall l', (forall y, y ∈ l' -> y ∈ l1 ++ x :: l2 /\ y <> x) -> List.filter f l' = []) as Hnil.
  { intros l' Hl'. induction l' as [|y l' IH]; [done|]. cbn. destruct (f y) eqn:Ey.
    - exfalso. destruct (Hl' y) as [Hin Hne]; [left|]. by apply Hne, Hu.
    - apply IH. intros z Hz. apply Hl'. by right. }
  rewrite (Hnil l1), (Hnil l2); [done| |].
  - intros y Hy. split; [set_solver|]. by intros ->.
  - intros y Hy. split; [set_solver|]. intros ->. apply (Hd x Hy). left.
Qed.

Lemma filter_filter {A} (f g : A -> bool) l : List.filter g (List.filter f l) = List.filter (fun x => f x && g x) l.
Proof. induction l as [|x l IH]; [done|]. cbn. destruct (f x) eqn:E; cbn; [by rewrite IH|exact IH]. Qed.

Definition fitsb (f : DeviceFacts) (p : SshProfile) : bool :=
  existsb (fun pattern => contains pattern (_normalized (f_model f))) (supported_model_patterns p)
  && is_in (_firmware_build (f_firmware f)) (firmware_patterns p) && is_in (_normalized (f_variant f)) (variants p)
  && is_in (_normalized (f_platform f)) (platforms p).

Lemma fitsb_spec f p : fitsb f p = true <-> fits f p.
Proof.
  unfold fitsb, fits, is_in. rewrite !andb_true_iff, !bool_decide_eq_true, existsb_exists. split.
  - intros [[[(x & Hx & Hc) ?] ?] ?]. split; [|done]. exists x. by rewrite list_elem_of_In.
  - intros ((x & Hx & Hc) & ? & ? & ?). repeat split; try done. exists x. by rewrite <- list_elem_of_In.
Qed.

Lemma elem_of_filter {A} (f : A -> bool) l x : x ∈ List.filter f l <-> x ∈ l /\ f x = true.
Proof. by rewrite list_elem_of_In, filter_In, <- list_elem_of_In. Qed.

(** Detection names a profile exactly when a profile of the registry fits the facts in model, firmware build,
    variant and platform and no other product was observed; at most one can, so no tie is ever broken. *)
Theorem detect_profile_exact f p :
  profile (detect_profile f) = Some p <->
  p ∈ all_profiles /\ fits f p /\ (_product_id (f_product_id f) = "" \/ _product_id (f_product_id f) = _product_id (product_id p)).
Proof.
  unfold detect_profile. rewrite !filter_filter.
  replace (List.filter (fun x => _ && is_in (_normalized (f_platform f)) (platforms x)) all_profiles) with (List.filter (fitsb f) all_profiles) by done.
  split.
  - destruct (bool_decide (List.filter _ all_profiles = [])); [done|]. destruct (empty_str (_firmware_build _)); [done|].
    destruct (bool_decide (List.filter _ all_profiles = [])); [done|]. destruct (empty_str (_normalized (f_variant f))); [done|].
    destruct (bool_decide (List.filter _ all_profiles = [])); [done|]. destruct (empty_str (_normalized (f_platform f))); [done|].
    destruct (List.filter (fitsb f) all_profiles) as [|q [|]] eqn:E; [done| |done].
    assert (q ∈ all_profiles /\ fitsb f q = true) as [Hq Hf] by (apply elem_of_filter; rewrite E; left).
    apply fitsb_spec in Hf. destruct (negb (empty_str _) && _) eqn:Ep; [done|]. unfold empty_str in *.
    destruct (bool_decide (_product_id (f_product_id f) = "")) eqn:E0; intros [= <-]; bdestr; (split; [done|]; split; [done|]);
      [by left|right]. cbn in Ep. by bdestr.
  - intros (Hp & Hf & Ho). pose proof (all_profiles_spec p Hp) as (build & variant & platform & Eb & Ev & Epl & Nb & Nv & Np).
    assert (forall g, (forall q, q ∈ all_profiles -> fitsb f q = true -> g q = true) -> bool_decide (List.filter g all_profiles = []) = false) as Hne.
    { intros g Hg. apply bool_decide_eq_false. intros E. assert (p ∈ List.filter g all_profiles) as Hin.
      { apply elem_of_filter. split; [done|]. apply Hg; [done|]. by apply fitsb_spec. }
      rewrite E in Hin. by apply elem_of_nil in Hin. }
    rewrite (filter_unique (fitsb f) all_profiles p).
    + rewrite !Hne by (intros q _; unfold fitsb; rewrite ?andb_true_iff; tauto).
      destruct Hf as (_ & Hb & Hv & Hpl). rewrite Eb in Hb. rewrite Ev in Hv. rewrite Epl in Hpl.
      apply list_elem_of_singleton in Hb, Hv, Hpl. rewrite Hb, Hv, Hpl, Nb, Nv, Np.
      unfold empty_str. destruct Ho as [Ho|Ho]; rewrite Ho.
      * done.
      * rewrite (bool_decide_true (_product_id (product_id p) = _product_id (product_id p))) by done. rewrite andb_false_r.
        by destruct (bool_decide (_product_id (product_id p) = "")).
    + apply (NoDup_fmap_1 key). refine (bool_decide_unpack _ _). vm_compute. exact I.
    + done.
    + by apply fitsb_spec.
    + intros q Hq Hfq. apply fitsb_spec in Hfq as (_ & _ & Hv & Hpl). destruct Hf as (_ & _ & Hv' & Hpl').
      pose proof (all_profiles_spec q Hq) as (b' & v' & pl' & _ & Ev' & Epl' & _).
      rewrite Ev in Hv'. rewrite Epl in Hpl'. rewrite Ev' in Hv. rewrite Epl' in Hpl.
      apply list_elem_of_singleton in Hv, Hpl, Hv', Hpl'. apply profile_unique; try done; congruence.
Qed.

(** What an accepted answer to /info says. *)
Lemma identity_spec parse p d xml k :
  verify_settings_identity parse p d xml = Ok k ->
  exists root, parse xml = Some root /\ names_device (py_upper (py_strip (device_id d))) root = true
    /\ Protected.is_protected_device p (Some (ip_address d, device_id d)) = Ok false
    /\ exists found, profile (detect_profile (facts (py_upper (py_strip (device_id d))) d root)) = Some found /\ key found = k.
Proof.
  unfold verify_settings_identity, parsed. destruct (parse xml) as [root|]; [|done]. cbn. destruct (parse (info_xml d)) as [cached|]; [|done]. cbn.
  destruct (names_device _ root) eqn:En; [|done]. destruct (names_device _ cached); [|done]. cbn.
  unfold require_unprotected_device, Protected.require_unprotected_device.
  destruct (Protected.is_protected_device p _) as [[]|e] eqn:Ep; cbn; [discriminate| |destruct e; discriminate].
  destruct (_ || _); [done|]. destruct (_ || _); [done|]. destruct (negb _); [done|].
  destruct (profile (detect_profile (facts _ d root))) as [found|] eqn:Ef; [|done].
  destruct (profile (detect_profile (facts _ d cached))) as [before|]; [|done]. destruct (bool_decide _); [|done].
  intros [= <-]. exists root. split_and!; try done. eauto.
Qed.

End Profiles.
