(* ===== verification/Settings.v ===== *)
(** * Settings of a radio

    services/settings_contract.py (what a setting may be and how it is written and read
    back) and services/device_settings_writer.py (the transaction that writes settings). *)
From Stdlib Require Import Ascii String.
From S2P Require Import Prelude PyNum PyStr Json Sha256 Xml Protected Radio Profiles.
#[local] Open Scope string_scope.
#[local] Open Scope list_scope.
#[local] Open Scope Z_scope.

Module Settings.
Import Xml Radio.

(** ** settings_contract.py *)
Definition LANGUAGE_IDS : list (string * Z) := [
  ("da", 1); ("de", 2); ("en", 3); ("es", 4); ("fr", 5); ("it", 6);
  ("nl", 7); ("sv", 8); ("ja", 9); ("zh_hans", 10); ("zh_hant", 11);
  ("ko", 12); ("th", 13); ("cs", 15); ("fi", 16); ("el", 17);
  ("no", 18); ("nb", 18); ("pl", 19); ("pt", 20); ("ro", 21);
  ("ru", 22); ("sl", 23); ("tr", 24); ("hu", 25)].

(** [LANGUAGE_CODES_BY_ID.get(number)]: a later entry of the comprehension wins. *)
Definition code_by_id (number : Z) : option string :=
  fst <$> last_opt (List.filter (fun x => (x.2 =? number) && negb (bool_decide (x.1 = "nb"))) LANGUAGE_IDS).

Definition TIME_ZONES : list string := [
  "UTC"; "Europe/Berlin"; "Europe/Vienna"; "Europe/Zurich"; "Europe/London"; "Europe/Paris"; "Europe/Rome"; "Europe/Madrid";
  "America/New_York"; "America/Chicago"; "America/Denver"; "America/Los_Angeles"; "Asia/Tokyo"; "Australia/Sydney"].

(** [SettingValue]: a dictionary is in the order of its insertions, each key once. *)
Inductive value : Type :=
| VStr (s : string)
| VInt (n : Z)
| VBool (b : bool)
| VDict (d : list (string * string)).

Record SettingPlan := { setting : string; path : string; read_path : string; xml : string; expected : value }.

(** [all(actual.get(k) == v for k, v in d.items())]. *)
Definition includes (d actual : list (string * string)) : bool :=
  forallb (fun kv => bool_decide (lookup_key kv.1 actual = Some kv.2)) d.
(** [==] of two dictionaries. *)
Definition same_dict (d e : list (string * string)) : bool := includes d e && includes e d.

(** [type(a) is type(b) and a == b]. *)
Definition same_value (a b : value) : bool :=
  match a, b with
  | VStr s, VStr t => bool_decide (s = t)
  | VInt n, VInt m => n =? m
  | VBool x, VBool y => Bool.eqb x y
  | VDict d, VDict e => same_dict d e
  | _, _ => false
  end.

Definition plan_matches (p : SettingPlan) (actual : value) : bool :=
  match expected p with
  | VDict d => match actual with VDict a => includes d a | _ => false end
  | e => same_value actual e
  end.

(** The same comparison with a value of a request. *)
Definition string_items (kvs : list (string * json)) : option (list (string * string)) :=
  mapM (fun kv => match kv.2 with JStr s => Some (kv.1, s) | _ => None end) kvs.
Definition same_as_json (actual : value) (previous : json) : bool :=
  match actual, previous with
  | VStr s, JStr t => bool_decide (s = t)
  | VInt n, JNum (PInt m) => n =? m
  | VBool x, JBool y => Bool.eqb x y
  | VDict d, JObj kvs => match string_items kvs with Some e => same_dict d e | None => false end
  | _, _ => false
  end.

Definition matches_previous (p : SettingPlan) (actual : value) (previous : json) : bool :=
  if bool_decide (setting p = "clockConfig") then
    match expected p, actual, previous with
    | VDict d, VDict a, JObj kvs =>
        negb (bool_decide (map fst kvs = []))
        && forallb (fun kv => bool_decide (kv.1 ∈ map fst kvs)) d
        && forallb (fun kv => match kv.2 with JStr v => bool_decide (lookup_key kv.1 a = Some v) | _ => false end) kvs
    | _, _, _ => false
    end
  else same_as_json actual previous.

Section Contract.
(** [str] of a float, a list or a dictionary. *)
Context (str_of : json -> string).

Definition text_of_int (n : Z) : string := string_of (print_int n).
Definition py_str (v : json) : string :=
  match v with
  | JNull => "None"
  | JBool b => if b then "True" else "False"
  | JNum (PInt n) => text_of_int n
  | JStr s => s
  | _ => str_of v
  end.

(** The code points a name may contain. *)
Definition name_point (u : Z) : bool :=
  negb ((u =? 60) || (u =? 62) || (u =? 34) || (u =? 38))
  && (((32 <=? u) && (u <=? 55295)) || ((57344 <=? u) && (u <=? 65533)) || ((65536 <=? u) && (u <=? 1114111))).

Definition device_name (v : json) : res fault string :=
  let name := py_strip (if truthy v then py_str v else "") in
  if empty_str name then Err ValueError
  else match utf8_decode (bytes_of name) with
       | Some points => if (Z.of_nat (length points) <=? 63) && forallb name_point points then Ok name else Err ValueError
       | None => Err ValueError
       end.

(** [re.fullmatch(r"-?[0-9]+", s)], then [int]. *)
Definition integer_regex : regex :=
  RCat (RAlt REps (lit "-"%char)) (RCat (RChar is_digit) (RStar (RChar is_digit))).
Definition integer_text (s : string) : res fault Z :=
  if negb (fullmatch integer_regex s) then Err ValueError
  else match py_int s with Some n => Ok n | None => Err ValueError end.
Definition _integer (v : json) : res fault Z :=
  match v with JBool _ => Err ValueError | _ => integer_text (py_str v) end.

Definition TRUE_WORDS : list string := ["true"; "on"; "1"; "yes"].
Definition FALSE_WORDS : list string := ["false"; "off"; "0"; "no"].
Definition boolean_text (s : string) : res fault bool :=
  let text := py_lower s in
  if bool_decide (text ∈ TRUE_WORDS) then Ok true
  else if bool_decide (text ∈ FALSE_WORDS) then Ok false else Err ValueError.
Definition _boolean (v : json) : res fault bool := boolean_text (py_str v).
Definition bool_text (b : bool) : string := if b then "true" else "false".

Definition CLOCK_FIELDS : list string :=
  ["timezoneInfo"; "timeFormat"; "userOffsetMinute"; "brightnessLevel"; "userUtcTime"; "userEnable"].

(** [d[k] = v]. *)
Fixpoint set_key {A} (k : string) (v : A) (d : list (string * A)) : list (string * A) :=
  match d with
  | [] => [(k, v)]
  | (x, w) :: d => if bool_decide (x = k) then (x, v) :: d else (x, w) :: set_key k v d
  end.

Definition clock_field (key : string) (item : json) : res fault string :=
  if bool_decide (key = "timezoneInfo") then
    if bool_decide (py_str item ∈ TIME_ZONES) then Ok (py_str item) else Err ValueError
  else if bool_decide (key = "timeFormat") then
    if bool_decide (py_str item ∈ ["TIME_FORMAT_24HOUR_ID"; "TIME_FORMAT_12HOUR_ID"]) then Ok (py_str item) else Err ValueError
  else if bool_decide (key = "userEnable") then b ← _boolean item; Ok (bool_text b)
  else n ← _integer item; Ok (text_of_int n).

Fixpoint clock_fields (kvs : list (string * json)) (cfg : list (string * string)) : res fault (list (string * string)) :=
  match kvs with
  | [] => Ok cfg
  | (key, item) :: kvs => text ← clock_field key item; clock_fields kvs (set_key key text cfg)
  end.

Definition tagged (tag text : string) : string := "<" +:+ tag +:+ ">" +:+ text +:+ "</" +:+ tag +:+ ">".

Definition plan_setting (setting : string) (v : json) : res fault SettingPlan :=
  let path := "/" +:+ setting in
  if bool_decide (setting = "name") then
    name ← device_name v;
    Ok {| setting := setting; path := "/name"; read_path := "/info"; xml := tagged "name" name; expected := VStr name |}
  else if bool_decide (setting ∈ ["volume"; "bass"; "systemtimeout"; "auto_standby_minutes"]) then
    n ← _integer v;
    let '(minimum, maximum) :=
      if bool_decide (setting = "volume") then (0, 100) else if bool_decide (setting = "bass") then (-9, 0) else (0, 1440) in
    if negb ((minimum <=? n) && (n <=? maximum)) then Err ValueError
    else
      let tag := if bool_decide (setting = "auto_standby_minutes") then "systemtimeout" else setting in
      Ok {| setting := setting; path := "/" +:+ tag; read_path := "/" +:+ tag; xml := tagged tag (text_of_int n); expected := VInt n |}
  else if bool_decide (setting = "clockDisplay") then
    b ← _boolean v;
    Ok {| setting := setting; path := path; read_path := path;
          xml := "<clockDisplay><clockConfig userEnable=" +:+ quote +:+ bool_text b +:+ quote +:+ " /></clockDisplay>";
          expected := VBool b |}
  else if bool_decide (setting = "powersaving") then
    b ← _boolean v;
    Ok {| setting := setting; path := "/systemtimeout"; read_path := "/systemtimeout";
          xml := tagged "systemtimeout" (tagged "powersaving_enabled" (bool_text b)); expected := VBool b |}
  else if bool_decide (setting = "clockConfig") then
    match v with
    | JObj (kv :: kvs) =>
        if negb (forallb (fun kv => bool_decide (kv.1 ∈ CLOCK_FIELDS)) (kv :: kvs)) then Err ValueError
        else
          cfg ← clock_fields (kv :: kvs) [];
          Ok {| setting := setting; path := "/clockDisplay"; read_path := "/clockDisplay";
                xml := tostring (Element "clockDisplay" [] None [Element "clockConfig" cfg None []]);
                expected := VDict cfg |}
    | _ => Err ValueError
    end
  else if bool_decide (setting = "language") then
    match lookup_key (py_str v) LANGUAGE_IDS with
    | None => Err ValueError
    | Some number =>
        match code_by_id number with
        | Some code => Ok {| setting := setting; path := path; read_path := path;
                             xml := tagged "sysLanguage" (text_of_int number); expected := VStr code |}
        | None => Err OtherException
        end
    end
  else if bool_decide (setting = "rebroadcastlatencymode") then
    match v with
    | JStr mode =>
        if bool_decide (mode ∈ ["SYNC_TO_ZONE"; "SYNC_TO_ROOM"])
        then Ok {| setting := setting; path := path; read_path := path;
                   xml := "<rebroadcastlatencymode mode=" +:+ quote +:+ mode +:+ quote +:+ " />"; expected := VStr mode |}
        else Err ValueError
    | _ => Err ValueError
    end
  else Err ValueError.
End Contract.

Definition response_tag (setting : string) : string :=
  if bool_decide (setting = "name") then "info"
  else if bool_decide (setting = "language") then "sysLanguage"
  else if bool_decide (setting = "clockConfig") then "clockDisplay"
  else if bool_decide (setting = "powersaving") then "systemtimeout"
  else if bool_decide (setting = "auto_standby_minutes") then "systemtimeout"
  else setting.

(** [_integer] and [_boolean] of an optional text: [str(None)] is no number and no word. *)
Definition read_integer (o : option string) : res fault Z := match o with Some s => integer_text s | None => Err ValueError end.
Definition read_boolean (o : option string) : res fault bool := match o with Some s => boolean_text s | None => Err ValueError end.

Definition read_setting (setting : string) (root : element) : res fault value :=
  if negb (bool_decide (tag root = response_tag setting)) then Err ValueError
  else if bool_decide (setting ∈ ["volume"; "bass"]) then VInt <$> read_integer (findtext ("actual" +:+ setting) root)
  else if bool_decide (setting = "name") then
    match findtext "name" root with Some text => Ok (VStr text) | None => Err ValueError end
  else if bool_decide (setting ∈ ["clockDisplay"; "clockConfig"]) then
    match find "clockConfig" root with
    | None => Err ValueError
    | Some cfg =>
        if bool_decide (setting = "clockDisplay") then VBool <$> read_boolean (attr "userEnable" cfg) else Ok (VDict (attrib cfg))
    end
  else if bool_decide (setting = "language") then
    number ← integer_text (py_strip (text_of root));
    Ok (VStr (default ("id:" +:+ text_of_int number) (code_by_id number)))
  else if bool_decide (setting = "powersaving") then VBool <$> read_boolean (findtext "powersaving_enabled" root)
  else if bool_decide (setting = "rebroadcastlatencymode") then
    match attr "mode" root with
    | Some mode => if bool_decide (mode ∈ ["SYNC_TO_ZONE"; "SYNC_TO_ROOM"]) then Ok (VStr mode) else Err ValueError
    | None => Err ValueError
    end
  else if bool_decide (setting ∈ ["systemtimeout"; "auto_standby_minutes"]) then VInt <$> integer_text (py_strip (text_of root))
  else Err ValueError.

(** ** device_settings_writer.py *)

Inductive change : Type :=
| RadioChange (setting : string) (before : value) (after : value) (path response : string) (transport_uncertain : bool)
    (ref : string)
| ArtChange (before after : string).

Record result := {
  r_device : string; r_job : string; changed : list change; unchanged : list string; preset_sync_required : bool
}.

(** The dictionary of a [SettingsOperationError]; the rows of a batch carry the radio and
    its transaction. *)
Record failure := {
  status : string; code : string; failed_setting : string; failed_device : string; applied : Z;
  reconciliation_required : bool; verified_rows : list result
}.

Inductive exn : Type := Fault (f : fault) | SettingsOperationError (e : failure).
#[export] Instance raises_exn : Raises exn := Fault.

Definition _fail (r : result) (c setting : string) (attempted : bool) : exn :=
  let uncertain := attempted || negb (bool_decide (length (changed r) = 0%nat)) in
  SettingsOperationError {|
    status := if uncertain then "DIVERGED" else "BLOCKED"; code := c; failed_setting := setting; failed_device := r_device r;
    applied := Z.of_nat (length (changed r)); reconciliation_required := uncertain; verified_rows := [] |}.

(** The code of an exception that is not an answer already. *)
Definition code_of (f : fault) (other : string) : string :=
  if bool_decide (f = IdentityMismatch) then "IDENTITY_MISMATCH" else other.

Section Writer.
Context {W : Type} (v : env W) (parse_xml : string -> option element).

#[local] Abbreviation M := (ST (session W) exn).

Definition _read (p : SettingPlan) (xml : string) (d : Device) : res fault value :=
  root ← Profiles.parsed parse_xml xml;
  match attr "deviceID" root with
  | Some observed =>
      if negb (bool_decide (py_upper (py_strip observed) = py_upper (py_strip (device_id d)))) then Err IdentityMismatch
      else read_setting (setting p) root
  | None => read_setting (setting p) root
  end.

(** [verify_settings_identity(device, xml)], with the device and the policy as they are now. *)
Definition verify (ref : nat) (xml : string) : M unit :=
  d ← get_device v ref; p ← get_policy v;
  _ ← lift (Profiles.verify_settings_identity parse_xml p d xml);
  mret tt.
Definition read_now (ref : nat) (p : SettingPlan) (xml : string) : M value :=
  d ← get_device v ref; lift (_read p xml d).

(** *** The precondition *)
Definition read_path_xml (c : client) (info path : string) : M string :=
  if bool_decide (path = "/info") then mret info else get v c path.

(** The responses read so far, by path, and the values before, by setting. *)
Fixpoint read_plans (ref : nat) (r : result) (c : client) (expected_previous : option (list (string * json)))
    (plans : list SettingPlan) (raw : list (string * string)) (before : list (string * value))
    : M (list (string * string) * list (string * value)) :=
  match plans with
  | [] => mret (raw, before)
  | p :: plans =>
      raw ← (match lookup_key (read_path p) raw with
             | Some _ => mret raw
             | None => text ← get v c (read_path p); mret (set_key (read_path p) text raw) end);
      actual ← read_now ref p (default "" (lookup_key (read_path p) raw));
      match expected_previous ≫= lookup_key (setting p) with
      | Some previous =>
          if negb (matches_previous p actual previous)
          then raise (_fail r "WRITE_PRECONDITION_FAILED" (setting p) false)
          else read_plans ref r c expected_previous plans raw (set_key (setting p) actual before)
      | None => read_plans ref r c expected_previous plans raw (set_key (setting p) actual before)
      end
  end.

Fixpoint save_backups (ref : nat) (raw : list (string * string)) : M (list (string * (Z * string))) :=
  match raw with
  | [] => mret []
  | (path, content) :: raw =>
      d ← get_device v ref;
      id ← add v (ConfigBackup (device_id d) ("http8090:" +:+ path) content);
      rest ← save_backups ref raw;
      mret ((path, (id, sha256_hex content)) :: rest)
  end.

Definition check_backup (b : string * (Z * string)) : M unit :=
  let '(_, (id, digest)) := b in
  stored ← read_backup v id;
  match stored with
  | Some content => if bool_decide (sha256_hex content = digest) then mret tt else raise (Fault ValueError)
  | None => raise (Fault ValueError)
  end.

Definition preflight (ref : nat) (r : result) (c : client) (expected_previous : option (list (string * json)))
    (plans : list SettingPlan) : M (list (string * value) * list (string * (Z * string))) :=
  info ← get v c "/info";
  verify ref info;;
  '(raw, before) ← read_plans ref r c expected_previous plans [("/info", info)] [];
  backups ← save_backups ref raw;
  commit_db v;;
  for_each backups check_backup;;
  mret (before, backups).

Definition after_preflight {A} (r : result) (e : exn) : M A :=
  match e with
  | SettingsOperationError _ => rollback_db v;; raise e
  | Fault f => if is_exception f then rollback_db v;; raise (_fail r (code_of f "SETTINGS_PREFLIGHT_FAILED") "" false) else raise e
  end.

(** *** One write *)
Definition precondition_matches (p : SettingPlan) (current previous : value) : bool :=
  match bool_decide (setting p = "clockConfig"), current, previous, expected p with
  | true, VDict cur, VDict prev, VDict wanted =>
      forallb (fun kv => bool_decide (lookup_key kv.1 cur = lookup_key kv.1 prev) || bool_decide (lookup_key kv.1 cur = Some kv.2)) wanted
  | _, _, _, _ => same_value current previous
  end.

Fixpoint value_json (x : value) : json :=
  match x with
  | VStr s => JStr s | VInt n => JNum (PInt n) | VBool b => JBool b
  | VDict d => JObj (map (fun kv => (kv.1, JStr kv.2)) d)
  end.

Definition backup_text (id : Z) : string := "config-backup:" +:+ text_of_int id.

Definition journal (d : Device) (r : result) (p : SettingPlan) (phase ref digest category : string) (ok : bool) : action := {|
  job_id := r_job r; a_device := device_id d; a_action := "setting:" +:+ setting p; phase := phase; backup_ref := ref;
  before_sha256 := digest; requested_state := value_json (expected p); a_verified := ok; error_category := category |}.

(** The locals of the loop body when an exception leaves it: whether the POST was
    attempted and what was observed. *)
Definition locals : Type := bool * option value * exn.
#[local] Instance raises_locals : Raises locals := fun f => (false, None, Fault f).
Definition with_locals {A} (attempted : bool) (observed : option value) (m : M A) : ST (session W) locals A :=
  try_except m (fun e => raise (attempted, observed, e)).

(** Up to the commit of the intent; None when the radio already is as wanted. *)
Definition before_post (ref : nat) (r : result) (c : client) (before : list (string * value)) (p : SettingPlan)
    (backup digest : string) : M (option value) :=
  run_guard v ref;;
  info ← get v c "/info";
  verify ref info;;
  latest ← read_path_xml c info (read_path p);
  current ← read_now ref p latest;
  match lookup_key (setting p) before with
  | None => raise (Fault OtherException)
  | Some previous =>
      if negb (precondition_matches p current previous) then raise (_fail r "WRITE_PRECONDITION_FAILED" (setting p) false)
      else if plan_matches p current then mret None
      else
        d ← get_device v ref;
        record_action v (journal d r p "settings_intent" backup digest "" false);;
        commit_db v;;
        mret (Some current)
  end.

(** The POST: its response, and the name of an error of the transport, which is not
    evidence of an unchanged radio. *)
Definition send (c : client) (p : SettingPlan) : M (string * string) :=
  try_except (response ← post v c (path p) (xml p); mret (response, ""))
    (fun e => match e with
              | Fault TransportError => mret ("", "TransportError")
              | Fault HTTPError => mret ("", "HTTPError")
              | Fault OSError => mret ("", "OSError")
              | _ => raise e end).

Definition read_after (ref : nat) (c : client) (p : SettingPlan) : M (string * value) :=
  info ← get v c "/info";
  verify ref info;;
  xml ← read_path_xml c info (read_path p);
  observed ← read_now ref p xml;
  mret (info, observed).

Definition record_verified (ref : nat) (r : result) (p : SettingPlan) (backup transport_error : string)
    (info : string) (observed : value) : M unit :=
  if negb (plan_matches p observed) then raise (_fail r "WRITE_READBACK_MISMATCH" (setting p) true)
  else
    d ← get_device v ref;
    record_action v (journal d r p "settings_verified" backup "" transport_error true);;
    (if bool_decide (setting p = "name")
     then assign (DeviceUpdate ref (match observed with VStr s => s | _ => "" end) info) else mret tt);;
    commit_db v.

Definition write_body (ref : nat) (r : result) (c : client) (before : list (string * value)) (p : SettingPlan)
    (backup digest : string) : ST (session W) locals result :=
  current ← with_locals false None (before_post ref r c before p backup digest);
  match current with
  | None => mret {| r_device := r_device r; r_job := r_job r; changed := changed r; unchanged := unchanged r ++ [setting p];
                    preset_sync_required := preset_sync_required r |}
  | Some current =>
      '(response, transport_error) ← with_locals true None (send c p);
      '(info, observed) ← with_locals true None (read_after ref c p);
      with_locals true (Some observed) (record_verified ref r p backup transport_error info observed);;
      mret {| r_device := r_device r; r_job := r_job r;
              changed := changed r ++ [RadioChange (setting p) current observed (path p) response (negb (empty_str transport_error)) backup];
              unchanged := unchanged r; preset_sync_required := preset_sync_required r |}
  end.

Definition write_failed (ref : nat) (r : result) (p : SettingPlan) (backup : string) (l : locals) : M result :=
  let '(attempted, _, e) := l in
  let phase := if attempted : bool then "settings_diverged" else "settings_blocked" in
  match e with
  | Fault f =>
      if is_exception f then
        rollback_db v;;
        let error := _fail r (code_of f "SETTINGS_VERIFICATION_FAILED") (setting p) attempted in
        d ← get_device v ref;
        record_transport_attempt (journal d r p phase backup "" (code_of f "SETTINGS_VERIFICATION_FAILED") false);;
        raise error
      else raise e
  | SettingsOperationError x =>
      rollback_db v;;
      d ← get_device v ref;
      record_transport_attempt (journal d r p phase backup "" (code x) false);;
      raise e
  end.

Fixpoint write_plans (ref : nat) (r : result) (c : client) (before : list (string * value))
    (backups : list (string * (Z * string))) (plans : list SettingPlan) : M result :=
  match plans with
  | [] => mret r
  | p :: plans =>
      match lookup_key (read_path p) backups with
      | None => raise (Fault OtherException)
      | Some (id, digest) =>
          r ← try_except (write_body ref r c before p (backup_text id) digest) (write_failed ref r p (backup_text id));
          write_plans ref r c before backups plans
      end
  end.

Definition write_radio (ref : nat) (r : result) (expected_previous : option (list (string * json))) (plans : list SettingPlan) : M result :=
  run_guard v ref;;
  c ← make_client v ref;
  '(before, backups) ← try_except (preflight ref r c expected_previous plans) (after_preflight r);
  write_plans ref r c before backups plans.

(** *** The local art mode *)
Definition art_key (ref : nat) : M string := d ← get_device v ref; mret ("station_art_mode:" +:+ device_id d).

Definition check_art (ref : nat) (r : result) (expected_previous : option (list (string * json))) (art_mode : option string) : M unit :=
  match art_mode, expected_previous ≫= lookup_key "station_art_mode" with
  | Some _, Some previous =>
      key ← art_key ref;
      row ← ask (setting_value v key);
      if negb (match previous with JStr s => bool_decide (default "radio_symbol" row = s) | _ => false end)
      then raise (_fail r "WRITE_PRECONDITION_FAILED" "station_art_mode" false) else mret tt
  | _, _ => mret tt
  end.

Definition write_art (ref : nat) (r : result) (art_mode : option string) : M result :=
  match art_mode with
  | None => mret r
  | Some mode =>
      key ← art_key ref;
      row ← ask (setting_value v key);
      let current := default "radio_symbol" row in
      if bool_decide (current = mode) then
        mret {| r_device := r_device r; r_job := r_job r; changed := changed r; unchanged := unchanged r ++ ["station_art_mode"];
                preset_sync_required := preset_sync_required r |}
      else
        try_except (assign (Setting key mode);; commit_db v)
          (fun e => match e with
                    | Fault f => if is_exception f then rollback_db v;; raise (_fail r "SETTINGS_LOCAL_COMMIT_FAILED" "station_art_mode" false)
                                 else raise e
                    | _ => raise e end);;
        mret {| r_device := r_device r; r_job := r_job r; changed := changed r ++ [ArtChange current mode]; unchanged := unchanged r;
                preset_sync_required := true |}
  end.

Definition apply_settings (ref : nat) (plans : list SettingPlan) (expected_previous : option (list (string * json)))
    (art_mode : option string) : M result :=
  d ← get_device v ref;
  u ← fresh v;
  let r := {| r_device := device_id d; r_job := "settings-" +:+ u; changed := []; unchanged := []; preset_sync_required := false |} in
  device_transaction v [device_id d] (
    check_art ref r expected_previous art_mode;;
    r ← (match plans with [] => mret r | _ => write_radio ref r expected_previous plans end);
    write_art ref r art_mode).

(** *** Several radios *)
Definition batch_failure (status c device : string) (uncertain : bool) (rows : list result) : exn :=
  SettingsOperationError {| status := status; code := c; failed_setting := ""; failed_device := device; applied := 0;
                            reconciliation_required := uncertain; verified_rows := rows |}.

Definition preflight_one (p : SettingPlan) (ref : nat) : M value :=
  c ← make_client v ref;
  info ← get v c "/info";
  verify ref info;;
  raw ← read_path_xml c info (read_path p);
  read_now ref p raw.

Fixpoint preflight_all (p : SettingPlan) (refs : list nat) : M (list value) :=
  match refs with
  | [] => mret []
  | ref :: refs =>
      x ← try_except (preflight_one p ref) (fun e => match e with
            | Fault f => if is_exception f
                         then d ← get_device v ref; raise (batch_failure "BLOCKED" (code_of f "SETTINGS_PREFLIGHT_FAILED") (device_id d) false [])
                         else raise e
            | SettingsOperationError _ => d ← get_device v ref; raise (batch_failure "BLOCKED" "SETTINGS_PREFLIGHT_FAILED" (device_id d) false [])
            end);
      rest ← preflight_all p refs;
      mret (x :: rest)
  end.

Definition no_change (r : result) : bool := bool_decide (length (changed r) = 0%nat).

Definition batch_failed (rows : list result) (ref : nat) (e : exn) : M result :=
  let changed := existsb (fun r => negb (no_change r)) rows in
  d ← get_device v ref;
  match e with
  | Fault f =>
      if is_exception f then raise (batch_failure "DIVERGED" "SETTINGS_BATCH_INTERRUPTED" (device_id d) true rows) else raise e
  | SettingsOperationError x =>
      let uncertain := changed || reconciliation_required x in
      raise (SettingsOperationError {| status := if uncertain then "DIVERGED" else "BLOCKED"; code := code x;
               failed_setting := failed_setting x; failed_device := device_id d; applied := applied x;
               reconciliation_required := uncertain; verified_rows := rows |})
  end.

Fixpoint apply_all (p : SettingPlan) (targets : list (nat * value)) (rows : list result) : M (list result) :=
  match targets with
  | [] => mret rows
  | (ref, previous) :: targets =>
      r ← try_except (apply_settings ref [p] (Some [(setting p, value_json previous)]) None) (batch_failed rows ref);
      apply_all p targets (rows ++ [r])
  end.

Definition apply_settings_batch (refs : list nat) (p : SettingPlan) : M (list result) :=
  ids ← gets (fun s => map (fun ref => device_id (device v ref (world s))) refs);
  if bool_decide (refs = []) || negb (distinct ids) then raise (Fault ValueError)
  else
    device_transaction v ids (
      for_each refs (run_guard v);;
      previous ← preflight_all p refs;
      apply_all p (zip refs previous) []).
End Writer.

(** ** Proofs *)
#[local] Opaque sha256_hex.
Section Facts.
Context {W : Type} (v : env W) (parse_xml : string -> option element).
#[local] Arguments write_failed : simpl never.
#[local] Arguments backup_text : simpl never.

Lemma calm_verify ref x : steps_in calm (verify v parse_xml ref x).
Proof. unfold verify. steps. Qed.
Lemma calm_read_now ref p x : steps_in calm (read_now v parse_xml ref p x).
Proof. unfold read_now. steps. Qed.
#[local] Hint Resolve calm_verify calm_read_now : py.

Lemma calm_read_path_xml c info path : steps_in calm (read_path_xml v c info path).
Proof. unfold read_path_xml. steps. Qed.
#[local] Hint Resolve calm_read_path_xml : py.

Lemma calm_before_post ref r c before p backup digest : steps_in calm (before_post v parse_xml ref r c before p backup digest).
Proof. unfold before_post. steps. Qed.

Lemma calm_read_plans ref r c expected_previous plans raw before :
  steps_in calm (read_plans v parse_xml ref r c expected_previous plans raw before).
Proof. revert raw before. induction plans as [|p plans IH]; intros raw before; cbn [read_plans]; steps. Qed.

Lemma calm_save_backups ref raw : steps_in calm (save_backups v ref raw).
Proof. induction raw as [|[path content] raw IH]; cbn [save_backups]; steps. Qed.

Lemma calm_check_backup b : steps_in calm (check_backup v b).
Proof. unfold check_backup. steps. Qed.
#[local] Hint Resolve calm_read_plans calm_save_backups calm_check_backup : py.

Lemma calm_preflight ref r c expected_previous plans : steps_in calm (preflight v parse_xml ref r c expected_previous plans).
Proof. unfold preflight. steps. Qed.

Lemma calm_read_after ref c p : steps_in calm (read_after v parse_xml ref c p).
Proof. unfold read_after. steps. Qed.
Lemma calm_record_verified ref r p backup t info observed : steps_in calm (record_verified v ref r p backup t info observed).
Proof. unfold record_verified. steps. Qed.
Lemma calm_write_failed ref r p backup l : steps_in calm (write_failed v ref r p backup l).
Proof. unfold write_failed. destruct l as [[attempted observed] e]. steps. Qed.
Lemma calm_check_art ref r expected_previous art : steps_in calm (check_art v ref r expected_previous art).
Proof. unfold check_art, art_key. steps. Qed.
Lemma calm_write_art ref r art : steps_in calm (write_art v ref r art).
Proof. unfold write_art, art_key. steps. Qed.
Lemma calm_after_preflight {A} r e : steps_in calm (after_preflight v r e : ST (session W) exn A).
Proof. unfold after_preflight. steps. Qed.
Lemma calm_preflight_all p refs : steps_in calm (preflight_all v parse_xml p refs).
Proof. induction refs as [|ref refs IH]; cbn [preflight_all]; unfold preflight_one; steps. Qed.
Lemma calm_batch_failed rows ref e : steps_in calm (batch_failed v rows ref e).
Proof. unfold batch_failed. steps. Qed.
#[local] Hint Resolve calm_before_post calm_preflight calm_read_after calm_record_verified calm_write_failed calm_check_art calm_write_art
  calm_preflight_all calm_batch_failed : py.

(** *** Which radios are asked *)
Section Within.
Context (refs : list nat).
#[local] Hint Extern 1 (within refs _ = true) => first [reflexivity|by apply bool_decide_eq_true] : py.
Abbreviation among := (adds (within refs)).

Lemma among_verify ref x : steps_in among (verify v parse_xml ref x).
Proof. unfold verify. steps. Qed.
Lemma among_read_now ref p x : steps_in among (read_now v parse_xml ref p x).
Proof. unfold read_now. steps. Qed.
#[local] Hint Resolve among_verify among_read_now : py.
Lemma among_read_path_xml c info path : c_device c ∈ refs -> steps_in among (read_path_xml v c info path).
Proof. intros Hc. unfold read_path_xml. steps. Qed.
#[local] Hint Resolve among_read_path_xml : py.

Lemma among_preflight ref r c expected_previous plans : c_device c ∈ refs -> steps_in among (preflight v parse_xml ref r c expected_previous plans).
Proof.
  intros Hc.
  assert (forall raw before, steps_in among (read_plans v parse_xml ref r c expected_previous plans raw before)) as H1.
  { induction plans as [|p plans IH]; intros raw before; cbn [read_plans]; steps. }
  assert (forall raw, steps_in among (save_backups v ref raw)) as H2.
  { induction raw as [|[path content] raw IH]; cbn [save_backups]; steps. }
  unfold preflight, check_backup. steps.
Qed.
Lemma among_after_preflight {A} r e : steps_in among (after_preflight v r e : ST (session W) exn A).
Proof. unfold after_preflight. steps. Qed.
Lemma among_send c p : c_device c ∈ refs -> steps_in among (send v c p).
Proof. intros Hc. unfold send. steps; apply adds_call; intros; by apply bool_decide_eq_true. Qed.
#[local] Hint Resolve among_preflight among_after_preflight among_send : py.

Lemma among_write_plans ref c before bs plans : c_device c ∈ refs -> forall r, steps_in among (write_plans v parse_xml ref r c before bs plans).
Proof.
  intros Hc. induction plans as [|p plans IH]; intros r; cbn [write_plans];
    unfold write_body, write_failed, before_post, read_after, record_verified, with_locals; steps.
Qed.
#[local] Hint Resolve among_write_plans : py.

Lemma among_write_radio ref r expected_previous plans : ref ∈ refs -> steps_in among (write_radio v parse_xml ref r expected_previous plans).
Proof.
  intros Hr. unfold write_radio. apply steps_in_bind; [apply _|auto with py|intros _].
  apply within_client; [done|]. intros c Hc. steps.
Qed.

Lemma among_preflight_all p l : (forall ref, ref ∈ l -> ref ∈ refs) -> steps_in among (preflight_all v parse_xml p l).
Proof.
  intros Hl. induction l as [|ref l IH]; cbn [preflight_all]; [steps|].
  apply steps_in_bind; [apply _| |intros x; apply steps_in_bind; [apply _|apply IH; intros; apply Hl; by right|intros; steps]].
  apply steps_in_try; [apply _| |intros e; steps]. unfold preflight_one.
  apply within_client; [apply Hl; left|]. intros c Hc. steps.
Qed.
End Within.
#[local] Hint Resolve among_write_radio among_preflight_all : py.

(** The radio of a device object when an operation begins. *)
Definition named (s : session W) (ref : nat) : string := device_id (device v ref (world s)).

Lemma apply_settings_holds ref plans expected_previous art s o s' who open :
  apply_settings v parse_xml ref plans expected_previous art s = (o, s') ->
  who ref = named s ref \/ who ref ∈ List.concat open ->
  exists l, log s' = log s ++ l /\ holding who open l = Some open.
Proof.
  intros H Hw. unfold apply_settings in H. unfold mbind at 1, st_bind at 1 in H. cbn [get_device gets] in H.
  unfold mbind at 1, st_bind at 1 in H. destruct (fresh v s) as [[u|e] s1] eqn:E1.
  2: { injection H as <- <-. unfold fresh, ask in E1. destruct (uuid4 v (world s)). done. }
  assert (log s1 = log s) as L1 by (unfold fresh, ask in E1; destruct (uuid4 v (world s)); by injection E1 as _ <-).
  cbn beta zeta iota in H. apply device_transaction_run in H as [(f & -> & L)|(s2 & s3 & L2 & H & L3)].
  { exists []. by rewrite app_nil_r, L, L1. }
  assert (adds (within [ref]) s2 s3) as (l & L & K).
  { eapply adds_run; [|exact H]. pose proof (fun r e p => among_write_radio [ref] ref r e p ltac:(left)) as Hradio.
    unfold check_art, write_art, art_key. steps. }
  eexists. rewrite L3, L, L2, L1, <- !app_assoc. split; [reflexivity|]. apply holding_transaction.
  apply (holding_within _ _ [ref]); [|done]. intros x ->%list_elem_of_singleton. cbn. destruct Hw as [->|Hw]; [by left|by right].
Qed.

(** *** What the parts may raise *)
Definition plain (e : exn) : Prop := exists f, e = Fault f.
Definition failed_with (r : result) (attempted : bool) (e : exn) : Prop :=
  plain e \/ exists c setting, e = _fail r c setting attempted.

Lemma plain_fault f : plain (fault_in f).
Proof. by exists f. Qed.
Lemma failed_fault r b f : failed_with r b (fault_in f).
Proof. left. apply plain_fault. Qed.
#[local] Hint Resolve plain_fault failed_fault : py.

Lemma faults_verify X ref x : (forall f, X (fault_in f)) -> raises_in X (verify v parse_xml ref x).
Proof. intros HX. unfold verify. raising. Qed.
Lemma faults_read_now X ref p x : (forall f, X (fault_in f)) -> raises_in X (read_now v parse_xml ref p x).
Proof. intros HX. unfold read_now. raising. Qed.
#[local] Hint Resolve faults_verify faults_read_now : py.

Lemma raises_before_post ref r c before p backup digest :
  raises_in (failed_with r false) (before_post v parse_xml ref r c before p backup digest).
Proof.
  unfold before_post, read_path_xml. raising. all: first [left; eexists; reflexivity|right; eauto].
Qed.
Lemma raises_send c p : raises_in plain (send v c p).
Proof.
  unfold send. apply (raises_in_handled _ plain); [raising|]. intros e [f ->]. raising. all: eexists; reflexivity.
Qed.
Lemma raises_read_after ref c p : raises_in plain (read_after v parse_xml ref c p).
Proof. unfold read_after, read_path_xml. raising. Qed.
Lemma raises_record_verified ref r p backup t info observed :
  raises_in (failed_with r true) (record_verified v ref r p backup t info observed).
Proof. unfold record_verified. raising. all: first [left; eexists; reflexivity|right; eauto]. Qed.

Lemma raises_preflight ref r c expected_previous plans :
  raises_in (failed_with r false) (preflight v parse_xml ref r c expected_previous plans).
Proof.
  assert (forall raw before, raises_in (failed_with r false) (read_plans v parse_xml ref r c expected_previous plans raw before)) as H1.
  { induction plans as [|p plans IH]; intros raw before; cbn [read_plans]; raising. all: first [left; eexists; reflexivity|right; eauto]. }
  assert (forall raw, raises_in (failed_with r false) (save_backups v ref raw)) as H2.
  { induction raw as [|[path content] raw IH]; cbn [save_backups]; raising. }
  unfold preflight, check_backup. raising. all: first [left; eexists; reflexivity|right; eauto].
Qed.

(** *** One write *)
Definition post_of (ref : nat) (p : SettingPlan) : nat * string * string := (ref, path p, xml p).

(** The radio was asked for its identity and for the setting after the last POST: the
    answer was that of the radio on record, by the device row and the policy as they were
    when it was judged, and the setting is as the plan wants it. *)
Definition verified (ref : nat) (p : SettingPlan) (observed : value) (l : list event) : Prop :=
  exists l1 c answer l2 info text w w',
    l = l1 ++ Posted c (path p) (xml p) answer :: l2 /\ forallb looks l2 = true /\ c_device c = ref
    /\ Got c "/info" (Ok info) ∈ l2 /\ Got c (read_path p) (Ok text) ∈ l2
    /\ is_ok (Profiles.verify_settings_identity parse_xml (policy v w) (device v ref w) info) = true
    /\ _read parse_xml p text (device v ref w') = Ok observed /\ plan_matches p observed = true.

Lemma verify_Ok ref x s s' :
  verify v parse_xml ref x s = (Ok tt, s') ->
  log s' = log s /\ exists w, is_ok (Profiles.verify_settings_identity parse_xml (policy v w) (device v ref w) x) = true.
Proof.
  intros (d & s1 & [= <- <-] & (pol & s2 & [= <- <-] & (k & s3 & Hk & [= <-])%st_bind_Ok)%st_bind_Ok)%st_bind_Ok.
  unfold lift in Hk. destruct (Profiles.verify_settings_identity _ _ _ x) eqn:E; [|done]. injection Hk as _ <-. split; [done|].
  eexists. by rewrite E.
Qed.

Lemma read_now_Ok ref p x s a s' :
  read_now v parse_xml ref p x s = (Ok a, s') -> log s' = log s /\ exists w, _read parse_xml p x (device v ref w) = Ok a.
Proof.
  intros (d & s1 & [= <- <-] & Hk)%st_bind_Ok. unfold lift in Hk. destruct (_read parse_xml p x _) eqn:E; [|done].
  injection Hk as <- <-. eauto.
Qed.

Lemma read_after_Ok ref c p s info observed s' :
  read_after v parse_xml ref c p s = (Ok (info, observed), s') ->
  exists l text w w', log s' = log s ++ l /\ forallb looks l = true
    /\ Got c "/info" (Ok info) ∈ l /\ Got c (read_path p) (Ok text) ∈ l
    /\ is_ok (Profiles.verify_settings_identity parse_xml (policy v w) (device v ref w) info) = true
    /\ _read parse_xml p text (device v ref w') = Ok observed.
Proof.
  intros (i & s1 & H1%get_Ok & ([] & s2 & (H2 & w & Hv)%verify_Ok & (text & s3 & H3 & (a & s4 & (H4 & w' & Hr)%read_now_Ok & [= <- <- <-])%st_bind_Ok)%st_bind_Ok)%st_bind_Ok)%st_bind_Ok.
  unfold read_path_xml in H3. destruct (bool_decide (read_path p = "/info")) eqn:E; bdestr.
  - injection H3 as <- <-. exists [Got c "/info" (Ok i)], i, w, w'. rewrite H4, H2, H1, E. split_and!; try done; left.
  - apply get_Ok in H3. exists [Got c "/info" (Ok i); Got c (read_path p) (Ok text)], text, w, w'.
    rewrite H4, H3, H2, H1, <- app_assoc. split_and!; try done; [left|right; left].
Qed.

(** The intent of a write is the last row saved before it. *)
Lemma before_post_Ok ref r c before p backup digest s current s' :
  before_post v parse_xml ref r c before p backup digest s = (Ok (Some current), s') ->
  exists l rows iid a, log s' = log s ++ l ++ [Saved (rows ++ [(iid, DeviceActionJournal a)])] /\ forallb looks l = true
    /\ phase a = "settings_intent" /\ backup_ref a = backup.
Proof.
  intros H. unfold before_post in H.
  apply st_bind_Ok in H as ([] & s1 & H1 & H). apply calm_run in H1; [|auto with py].
  apply st_bind_Ok in H as (info & s2 & H2 & H). apply calm_run in H2; [|auto with py].
  apply st_bind_Ok in H as ([] & s3 & H3 & H). apply calm_run in H3; [|auto with py].
  apply st_bind_Ok in H as (latest & s4 & H4 & H). apply calm_run in H4; [|auto with py].
  apply st_bind_Ok in H as (cur & s5 & H5 & H). apply calm_run in H5; [|auto with py].
  assert (calm s s5) as (l & El & Hl) by (do 4 (etransitivity; [eassumption|]); exact H5).
  destruct (lookup_key (setting p) before) as [previous|]; [|done]. destruct (negb _); [done|]. destruct (plan_matches p cur); [done|].
  apply st_bind_Ok in H as (d & s6 & [= <- <-] & H).
  apply st_bind_Ok in H as ([] & s7 & (H7 & iid & P7)%record_action_Ok & H).
  apply st_bind_Ok in H as ([] & s8 & (H8 & _)%commit_Ok & [= <- <-]).
  eexists l, (pending s5), iid, _. rewrite H8, P7, H7, El, <- app_assoc. split; [done|]. split; [done|]. done.
Qed.

Lemma send_run c p s r s' :
  send v c p s = (r, s') -> exists answer, log s' = log s ++ [Posted c (path p) (xml p) answer].
Proof.
  unfold send, try_except. intros H. destruct ((response ← post v c (path p) (xml p); mret (response, "")) s) as [o s1] eqn:E.
  assert (exists answer, log s1 = log s ++ [Posted c (path p) (xml p) answer]) as Hl.
  { unfold mbind, st_bind in E. destruct (post v c (path p) (xml p) s) as [[a|e] s2] eqn:E2; apply post_run in E2; injection E as <- <-; done. }
  destruct o as [a|e]; [by injection H as <- <-|]. destruct e as [f|x]; [destruct f|]; injection H as <- <-; done.
Qed.

Abbreviation keeping := (keeps ["settings_intent"] backup_text).
Definition uncertain (r : result) (l : list event) : bool := negb (no_change r) || negb (bool_decide (posts l = [])).

(** A refusal says DIVERGED exactly when a change was made or may have been made. *)
Definition honest (r : result) (l : list event) (e : exn) : Prop :=
  match e with
  | Fault _ => True
  | SettingsOperationError x =>
      reconciliation_required x = uncertain r l /\ status x = if uncertain r l then "DIVERGED" else "BLOCKED"
  end.

Lemma fail_honest r l c setting attempted :
  (attempted = true <-> posts l <> []) -> honest r l (_fail r c setting attempted).
Proof.
  intros Ha. unfold honest, _fail, uncertain, no_change. cbn.
  replace (negb (bool_decide (posts l = []))) with attempted; [by destruct attempted, (bool_decide (length (changed r) = 0%nat))|].
  destruct (bool_decide (posts l = [])) eqn:E; bdestr; cbn; destruct attempted; try done.
  - destruct Ha as [Ha _]. by destruct (Ha eq_refl).
  - destruct Ha as [_ Ha]. by rewrite Ha.
Qed.

(** *** One pass through the loop *)
Definition added (r r' : result) (c : list change) (u : list string) : Prop :=
  r_device r' = r_device r /\ r_job r' = r_job r /\ changed r' = changed r ++ c /\ unchanged r' = unchanged r ++ u.

(** The outcome of a stretch that may write [p], with the events it added. *)
Definition wrote (ref : nat) (r : result) (p : SettingPlan) (l : list event) (o : res exn result) : Prop :=
  match o with
  | Ok r' => (posts l = [] /\ added r r' [] [setting p])
             \/ (posts l = [post_of ref p] /\ exists before observed response t b,
                   verified ref p observed l /\ added r r' [RadioChange (setting p) before observed (path p) response t b] [])
  | Err e => (posts l = [] \/ posts l = [post_of ref p]) /\ honest r l e
  end.

Lemma write_failed_run ref r p backup attempted observed e s o s' :
  failed_with r attempted e -> write_failed v ref r p backup (attempted, observed, e) s = (o, s') ->
  exists l, log s' = log s ++ l /\ forallb looks l = true /\
    exists x, o = Err x /\ forall l0, (attempted = true <-> posts l0 <> []) -> honest r l0 x.
Proof.
  intros He H. destruct (calm_run _ _ _ _ (calm_write_failed ref r p backup (attempted, observed, e)) H) as (l & El & Hl).
  exists l. split; [done|]. split; [done|]. unfold write_failed in H. destruct He as [[f ->]|(c & st & ->)].
  - destruct (is_exception f).
    + injection H as <- <-. eexists. split; [done|]. intros l0 Ha. by apply fail_honest.
    + injection H as <- <-. by eexists.
  - injection H as <- <-. eexists. split; [done|]. intros l0 Ha. by apply fail_honest.
Qed.

Lemma write_one ref r c before p id digest s o s' :
  c_device c = ref ->
  try_except (write_body v parse_xml ref r c before p (backup_text id) digest) (write_failed v ref r p (backup_text id)) s = (o, s') ->
  exists l, log s' = log s ++ l /\ keeping [id] l /\ wrote ref r p l o.
Proof.
  intros Hc H. unfold try_except, write_body in H.
  unfold mbind at 1, st_bind at 1, with_locals at 1, try_except at 1 in H.
  destruct (before_post v parse_xml ref r c before p (backup_text id) digest s) as [[current|e] s1] eqn:E1.
  2: { pose proof (raises_run _ _ _ _ _ (raises_before_post _ _ _ _ _ _ _) E1) as He.
       apply calm_run in E1 as (l1 & L1 & K1); [|auto with py]. cbn in H.
       apply write_failed_run in H as (l2 & L2 & K2 & x & -> & Hx); [|exact He].
       exists (l1 ++ l2). rewrite L2, L1, app_assoc. assert (forallb looks (l1 ++ l2) = true) as K by (by rewrite forallb_app, K1, K2).
       split; [done|]. split; [by apply keeps_looks|]. cbn. rewrite (posts_looks _ K). split; [by left|]. apply Hx. by rewrite (posts_looks _ K). }
  destruct current as [current|].
  2: { apply calm_run in E1 as (l1 & L1 & K1); [|auto with py]. cbn in H. injection H as <- <-. exists l1. split; [done|].
       split; [by apply keeps_looks|]. cbn. left. split; [by apply posts_looks|]. unfold added. cbn. by rewrite app_nil_r. }
  apply before_post_Ok in E1 as (l1 & rows & iid & a & L1 & K1 & Pa & Ba).
  unfold with_locals in H. unfold mbind at 1, st_bind at 1, try_except at 1 in H.
  destruct (send v c p s1) as [o2 s2] eqn:E2. pose proof (send_run _ _ _ _ _ E2) as (answer & L2).
  set (w := l1 ++ [Saved (rows ++ [(iid, DeviceActionJournal a)])] ++ [Posted c (path p) (xml p) answer]).
  assert (log s2 = log s ++ w) as Lw by (unfold w; rewrite L2, L1, <- !app_assoc; done).
  assert (keeping [id] w) as Kw by (eapply keeps_write; [done|rewrite Pa; left|exact Ba|left]).
  assert (posts w = [post_of ref p]) as Pw by (unfold w; rewrite !posts_app, (posts_looks _ K1); cbn; by rewrite Hc).
  assert (forall l, forallb looks l = true -> keeping [id] (w ++ l) /\ posts (w ++ l) = [post_of ref p]) as Hw.
  { intros l Hl. split; [apply keeps_app; [done|by apply keeps_looks]|]. by rewrite posts_app, (posts_looks _ Hl), app_nil_r, Pw. }
  assert (forall b e s3 l, failed_with r true e -> forallb looks l = true -> log s3 = log s2 ++ l ->
    write_failed v ref r p (backup_text id) (true, b, e) s3 = (o, s') ->
    exists l, log s' = log s ++ l /\ keeping [id] l /\ wrote ref r p l o) as Hfail.
  { intros b e s3 l He Hl L3 Hf. apply write_failed_run in Hf as (l' & L' & K' & x & -> & Hx); [|exact He].
    exists (w ++ l ++ l'). rewrite L', L3, Lw, <- !app_assoc. split; [done|].
    assert (forallb looks (l ++ l') = true) as Hll by (by rewrite forallb_app, Hl, K'). destruct (Hw _ Hll) as [Hk Hp].
    split; [done|]. cbn. rewrite Hp. split; [by right|]. apply Hx. by rewrite Hp. }
  destruct o2 as [[response t]|e].
  2: { eapply (Hfail None e s2 []); [|done|by rewrite app_nil_r|exact H]. left. by apply (raises_run _ _ _ _ _ (raises_send c p) E2). }
  cbn beta iota in H. unfold mbind at 1, st_bind at 1, try_except at 1 in H.
  destruct (read_after v parse_xml ref c p s2) as [[[info observed]|e] s3] eqn:E3.
  2: { pose proof (raises_run _ _ _ _ _ (raises_read_after _ _ _) E3) as He. apply calm_run in E3 as (l3 & L3 & K3); [|auto with py].
       eapply (Hfail None e s3 l3); [by left|done|done|exact H]. }
  apply read_after_Ok in E3 as (l3 & text & d & d' & L3 & K3 & G1 & G2 & Hid & Hread).
  cbn beta iota in H. unfold mbind at 1, st_bind at 1, try_except at 1 in H.
  destruct (record_verified v ref r p (backup_text id) t info observed s3) as [[[]|e] s4] eqn:E4.
  2: { pose proof (raises_run _ _ _ _ _ (raises_record_verified _ _ _ _ _ _ _) E4) as He. apply calm_run in E4 as (l4 & L4 & K4); [|auto with py].
       eapply (Hfail (Some observed) e s4 (l3 ++ l4)); [done|by rewrite forallb_app, K3, K4|by rewrite L4, L3, app_assoc|exact H]. }
  assert (plan_matches p observed = true) as Hm.
  { unfold record_verified in E4. destruct (plan_matches p observed); [done|discriminate E4]. }
  apply calm_run in E4 as (l4 & L4 & K4); [|auto with py]. cbn in H. injection H as <- <-.
  assert (forallb looks (l3 ++ l4) = true) as Hll by (by rewrite forallb_app, K3, K4). destruct (Hw _ Hll) as [Hk Hp].
  exists (w ++ l3 ++ l4). split; [by rewrite L4, L3, Lw, <- !app_assoc|]. split; [done|]. cbn. right. split; [done|].
  eexists current, observed, response, _, _. split.
  - exists (l1 ++ [Saved (rows ++ [(iid, DeviceActionJournal a)])]), c, answer, (l3 ++ l4), info, text, d, d'. unfold w.
    rewrite <- !app_assoc. split_and!; try done; apply elem_of_app; by left.
  - unfold added. cbn. by rewrite app_nil_r.
Qed.

(** *** All writes *)
Definition backup_ids (bs : list (string * (Z * string))) : list Z := map (fun b => b.2.1) bs.

(** A change of the result and the plan it stands for, read back as wanted in [l]. *)
Definition change_of (ref : nat) (l : list event) (p : SettingPlan) (c : change) : Prop :=
  exists before observed response t b l1 l2 l3,
    c = RadioChange (setting p) before observed (path p) response t b /\ l = l1 ++ l2 ++ l3 /\ verified ref p observed l2.

Definition wrote_all (ref : nat) (r : result) (plans ps : list SettingPlan) (l : list event) (o : res exn result) : Prop :=
  match o with
  | Ok r' => exists cs us, added r r' cs us /\ Forall2 (change_of ref l) ps cs
             /\ Forall (fun p => p ∈ ps \/ setting p ∈ us) plans
  | Err e => honest r l e
  end.

Lemma change_of_app ref l0 l l' p c : change_of ref l p c -> change_of ref (l0 ++ l ++ l') p c.
Proof.
  intros (b & ob & resp & t & bk & l1 & l2 & l3 & -> & -> & Hv). exists b, ob, resp, t, bk, (l0 ++ l1), l2, (l3 ++ l').
  by rewrite <- !app_assoc.
Qed.

Lemma honest_later r r' l l' c u e :
  added r r' c u -> (c <> [] <-> posts l <> []) -> honest r' l' e -> honest r (l ++ l') e.
Proof.
  intros (_ & _ & Hc & _) Hp. destruct e as [f|x]; [done|]. unfold honest.
  replace (uncertain r (l ++ l')) with (uncertain r' l'); [done|]. unfold uncertain, no_change. rewrite posts_app, Hc, length_app.
  destruct c as [|x0 c].
  - assert (posts l = []) as -> by (destruct (posts l); [done|]; exfalso; by apply Hp). cbn. by rewrite Nat.add_0_r.
  - assert (posts l <> []) as Hl by (by apply Hp). rewrite (bool_decide_false (posts l ++ posts l' = [])) by (by destruct (posts l)).
    cbn. rewrite bool_decide_false by lia. by rewrite orb_true_r.
Qed.

Lemma write_plans_run ref c before bs plans : c_device c = ref -> forall r s o s',
  write_plans v parse_xml ref r c before bs plans s = (o, s') ->
  exists l ps, log s' = log s ++ l /\ keeping (backup_ids bs) l /\ ps `sublist_of` plans
    /\ posts l = map (post_of ref) ps /\ wrote_all ref r plans ps l o.
Proof.
  intros Hc. induction plans as [|p plans IH]; intros r s o s' H; cbn [write_plans] in H.
  { injection H as <- <-. exists [], []. rewrite app_nil_r. split; [done|]. split; [by apply keeps_looks|]. split; [constructor|].
    split; [done|]. exists [], []. unfold added. rewrite !app_nil_r. split; [done|]. split; constructor. }
  destruct (lookup_key (read_path p) bs) as [[id digest]|] eqn:Eb.
  2: { injection H as <- <-. exists [], []. rewrite app_nil_r. split; [done|]. split; [by apply keeps_looks|].
       split; [apply sublist_nil_l|]. done. }
  assert (id ∈ backup_ids bs) as Hid.
  { apply lookup_key_elem in Eb. apply (list_elem_of_fmap_2 (fun b => b.2.1)) in Eb. exact Eb. }
  unfold mbind, st_bind in H.
  destruct (try_except _ _ s) as [o1 s1] eqn:E1 in H. apply write_one in E1 as (l1 & L1 & K1 & W1); [|done].
  assert (keeping (backup_ids bs) l1) as K1' by (eapply keeps_weaken; [|exact K1]; by intros i ->%list_elem_of_singleton).
  destruct o1 as [r1|e].
  2: { injection H as <- <-. destruct W1 as [W1 Hh]. destruct W1 as [W1|W1]; [exists l1, []|exists l1, [p]]; (split; [done|]; split; [done|]).
       - split; [apply sublist_nil_l|]. by rewrite W1.
       - split; [apply sublist_skip, sublist_nil_l|]. by rewrite W1. }
  apply IH in H as (l2 & ps & L2 & K2 & Hsub & P2 & W2).
  assert (log s' = log s ++ l1 ++ l2) as L by (by rewrite L2, L1, app_assoc).
  destruct W1 as [[P1 A1]|(P1 & b & ob & resp & t & bk & V1 & A1)].
  - exists (l1 ++ l2), ps. split; [done|]. split; [by apply keeps_app|]. split; [by apply sublist_cons|].
    rewrite posts_app, P1. split; [done|]. destruct o as [r'|e]; cbn in W2 |- *.
    + destruct W2 as (cs & us & A2 & F2 & U2). exists cs, ([setting p] ++ us). destruct A1 as (D1 & J1 & C1 & U1), A2 as (D2 & J2 & C2 & N2). unfold added.
      split; [|split].
      * split_and!; [congruence..| |]; [by rewrite C2, C1, app_nil_r|]. by rewrite N2, U1, <- app_assoc.
      * eapply Forall2_impl; [|exact F2]. intros q ch Hq. rewrite <- (app_nil_r (l1 ++ l2)), <- app_assoc. by apply change_of_app.
      * constructor; [right; left|]. eapply list.Forall_impl; [exact U2|]. intros q [Hq|Hq]; [by left|right; by right].
    + eapply honest_later; [exact A1| |exact W2]. by rewrite P1.
  - exists (l1 ++ l2), (p :: ps). split; [done|]. split; [by apply keeps_app|]. split; [by apply sublist_skip|].
    rewrite posts_app, P1, P2. split; [done|]. destruct o as [r'|e]; cbn in W2 |- *.
    + destruct W2 as (cs & us & A2 & F2 & U2). eexists (_ :: cs), us. destruct A1 as (D1 & J1 & C1 & U1), A2 as (D2 & J2 & C2 & N2). unfold added.
      split; [|split].
      * split_and!; [congruence..| |]; [by rewrite C2, C1, <- app_assoc|]. by rewrite N2, U1, app_nil_r.
      * constructor.
        -- exists b, ob, resp, t, bk, [], l1, l2. done.
        -- eapply Forall2_impl; [|exact F2]. intros q ch Hq. rewrite <- (app_nil_r (l1 ++ l2)), <- app_assoc. by apply change_of_app.
      * constructor; [left; left|]. eapply list.Forall_impl; [exact U2|]. intros q [Hq|Hq]; [left; by right|by right].
    + eapply honest_later; [exact A1| |exact W2]. by rewrite P1.
Qed.

(** *** The backups of the preflight *)
Lemma save_backups_Ok ref raw s bs s' :
  save_backups v ref raw s = (Ok bs, s') ->
  log s' = log s /\ exists rows, pending s' = pending s ++ rows /\
    forall path id digest, (path, (id, digest)) ∈ bs -> exists dev name content, (id, ConfigBackup dev name content) ∈ rows /\ digest = sha256_hex content.
Proof.
  revert s bs s'. induction raw as [|[path content] raw IH]; intros s bs s' H; cbn [save_backups] in H.
  - injection H as <- <-. split; [done|]. exists []. rewrite app_nil_r. split; [done|]. intros ? ? ? []%elem_of_nil.
  - apply st_bind_Ok in H as (d & s1 & [= <- <-] & H). apply st_bind_Ok in H as (id & s2 & (L2 & P2)%add_Ok & H).
    apply st_bind_Ok in H as (rest & s3 & (L3 & rows & P3 & R3)%IH & [= <- <-]). split; [congruence|].
    eexists ((id, _) :: rows). rewrite P3, P2, <- app_assoc. split; [done|].
    intros path' id' digest' [[= -> -> ->]|Hin]%elem_of_cons.
    + eexists _, _, content. split; [left|done].
    + apply R3 in Hin as (dev & name & c & Hin & ->). eexists dev, name, c. split; [by right|done].
Qed.

Definition has_backup (m : contract) (b : string * (Z * string)) : Prop :=
  exists content, (b.2.1, content) ∈ backups m /\ b.2.2 = sha256_hex content.

Abbreviation watches := (watch ["settings_intent"] backup_text).

Lemma check_backups_Ok bs s s' :
  for_each bs (check_backup v) s = (Ok tt, s') ->
  exists l, log s' = log s ++ l /\ forall m, Forall (has_backup m) bs ->
    exists m', watches m l = Some m' /\ depth m' = depth m /\ (forall id, id ∈ checked m -> id ∈ checked m')
      /\ (forall id, id ∈ backup_ids bs -> id ∈ checked m').
Proof.
  revert s. induction bs as [|[path [id digest]] bs IH]; intros s H; cbn [for_each] in H.
  - injection H as <-. exists []. rewrite app_nil_r. split; [done|]. intros m _. exists m. split; [done|]. split; [done|]. split; [done|].
    intros i []%elem_of_nil.
  - apply st_bind_Ok in H as ([] & s1 & H1 & (l & L & Hl)%IH). unfold check_backup in H1.
    apply st_bind_Ok in H1 as (stored & s2 & H2 & H1). unfold read_backup in H2.
    destruct (stored_backup v id (world s)) as [[c|e] w]; [|done]. injection H2 as <- <-. destruct c as [content|]; [|done].
    destruct (bool_decide (sha256_hex content = digest)) eqn:Ed; [|done]. injection H1 as <-. bdestr. cbn in L.
    exists (ReadBack id (Some content) :: l). rewrite L, <- app_assoc. split; [done|].
    intros m [(c & Hin & Hd) Hb]%list.Forall_cons. cbn in Hin, Hd. cbn [watch watch_step mbind option_bind].
    replace (existsb _ (backups m)) with true.
    2: { symmetry. apply existsb_exists. exists (id, c). split; [by apply list_elem_of_In|]. cbn. rewrite Z.eqb_refl. cbn.
         apply bool_decide_eq_true. congruence. }
    destruct (Hl {| depth := depth m; backups := backups m; checked := id :: checked m; intent := intent m |}) as (m' & Em & Dm & Cm & Im).
    { exact Hb. }
    exists m'. split; [done|]. split; [done|]. cbn in Cm. split; [intros i Hi; apply Cm; by right|].
    intros i [->|Hi]%elem_of_cons; [apply Cm; left|by apply Im].
Qed.

Lemma preflight_Ok ref r c expected_previous plans s before bs s' :
  preflight v parse_xml ref r c expected_previous plans s = (Ok (before, bs), s') ->
  exists l, log s' = log s ++ l /\ forallb looks l = true /\ forall m, (0 < depth m)%nat ->
    exists m', watches m l = Some m' /\ depth m' = depth m /\ (forall id, id ∈ checked m -> id ∈ checked m')
      /\ (forall id, id ∈ backup_ids bs -> id ∈ checked m').
Proof.
  intros H. assert (calm s s') as (lc & Lc & Kc) by (eapply calm_run; [|exact H]; auto with py). unfold preflight in H.
  apply st_bind_Ok in H as (info & s1 & H1 & H). apply calm_run in H1; [|auto with py].
  apply st_bind_Ok in H as ([] & s2 & H2 & H). apply calm_run in H2; [|auto with py].
  apply st_bind_Ok in H as ([raw before'] & s3 & H3 & H). apply calm_run in H3; [|auto with py].
  assert (calm s s3) as (l3 & L3 & K3) by (do 2 (etransitivity; [eassumption|]); exact H3).
  apply st_bind_Ok in H as (bs' & s4 & (L4 & rows & P4 & R4)%save_backups_Ok & H).
  apply st_bind_Ok in H as ([] & s5 & (L5 & _)%commit_Ok & H).
  apply st_bind_Ok in H as ([] & s6 & (l6 & L6 & R6)%check_backups_Ok & [= <- <- <-]).
  assert (lc = l3 ++ [Saved (pending s4)] ++ l6) as ->.
  { rewrite L6, L5, L4, L3, <- !app_assoc in Lc. by apply app_inv_head in Lc. }
  exists (l3 ++ [Saved (pending s4)] ++ l6). split; [by rewrite L6, L5, L4, L3, <- !app_assoc|]. split; [done|].
  intros m Hd. destruct (watch_looks ["settings_intent"] backup_text m l3 K3 Hd) as (m3 & E3 & D3 & C3).
  set (m4 := {| depth := depth m3; backups := backups m3 ++ saved_backups (pending s4); checked := checked m3;
                intent := match last_opt (saved_intents ["settings_intent"] (pending s4)) with Some a => Some a | None => intent m3 end |}).
  destruct (R6 m4) as (m' & E' & D' & C' & I').
  { apply list.Forall_forall. intros [path [id digest]] Hin. apply R4 in Hin as (dev & name & content & Hin & ->).
    exists content. split; [|done]. cbn. apply elem_of_app. right. rewrite P4. unfold saved_backups. rewrite omap_app.
    apply elem_of_app. right. by eapply elem_of_saved_backups. }
  exists m'. rewrite watch_app, E3. cbn [mbind option_bind app watch watch_step].
  change (watches m4 l6 = Some m' /\ depth m' = depth m /\ (forall id, id ∈ checked m -> id ∈ checked m') /\ (forall id, id ∈ backup_ids bs' -> id ∈ checked m')).
  split; [done|]. cbn in D', C'. split; [congruence|]. auto.
Qed.

Lemma write_radio_run ref r expected_previous plans s o s' :
  write_radio v parse_xml ref r expected_previous plans s = (o, s') ->
  exists l ps, log s' = log s ++ l /\ keeping [] l /\ ps `sublist_of` plans
    /\ posts l = map (post_of ref) ps /\ wrote_all ref r plans ps l o.
Proof.
  assert (forall l0 e (s1 : session W), log s1 = log s ++ l0 -> forallb looks l0 = true -> honest r [] e ->
    exists l ps, log s1 = log s ++ l /\ keeping [] l /\ ps `sublist_of` plans /\ posts l = map (post_of ref) ps /\ wrote_all ref r plans ps l (Err e)) as Hquiet.
  { intros l0 e s1 L K He. exists l0, []. split; [done|]. split; [by apply keeps_looks|]. split; [apply sublist_nil_l|].
    rewrite (posts_looks _ K). split; [done|]. cbn. unfold honest, uncertain in *. destruct e; [done|]. by rewrite (posts_looks _ K). }
  intros H. unfold write_radio in H. unfold mbind at 1, st_bind at 1 in H.
  destruct (run_guard v ref s) as [[[]|e] s1] eqn:E1.
  2: { injection H as <- <-. pose proof (raises_run plain _ _ _ _ (faults_run_guard v plain plain_fault ref) E1) as [f ->].
       apply calm_run in E1 as (l & L & K); [|auto with py]. by eapply Hquiet. }
  apply calm_run in E1 as (l1 & L1 & K1); [|auto with py]. cbn beta iota in H. unfold mbind at 1, st_bind at 1 in H.
  destruct (make_client v ref s1) as [[c|e] s2] eqn:E2.
  2: { injection H as <- <-. pose proof (raises_run plain _ _ _ _ (faults_make_client v plain plain_fault ref) E2) as [f ->].
       apply calm_run in E2 as (l & L & K); [|auto with py]. apply (Hquiet (l1 ++ l)); [by rewrite L, L1, app_assoc|by rewrite forallb_app, K1, K|done]. }
  assert (c_device c = ref) as Hc by (by eapply make_client_Ok).
  apply calm_run in E2 as (l2 & L2 & K2); [|auto with py]. cbn beta iota in H. unfold mbind at 1, st_bind at 1, try_except at 1 in H.
  destruct (preflight v parse_xml ref r c expected_previous plans s2) as [[[before bs]|e] s3] eqn:E3.
  2: { pose proof (raises_run _ _ _ _ _ (raises_preflight _ _ _ _ _) E3) as He. apply calm_run in E3 as (l3 & L3 & K3); [|auto with py].
       destruct (after_preflight v r e s3 : res exn _ * _) as [o4 s4] eqn:E4.
       assert (exists x, o4 = Err x /\ honest r [] x) as (x & -> & Hx).
       { unfold after_preflight in E4. destruct He as [[f ->]|(cd & st & ->)].
         - destruct (is_exception f); injection E4 as <- <-; [|by eexists]. eexists. split; [done|]. apply fail_honest. done.
         - injection E4 as <- <-. eexists. split; [done|]. apply fail_honest. done. }
       apply calm_run in E4 as (l4 & L4 & K4); [|apply calm_after_preflight]. injection H as <- <-.
       apply (Hquiet (l1 ++ l2 ++ l3 ++ l4)); [by rewrite L4, L3, L2, L1, <- !app_assoc|by rewrite !forallb_app, K1, K2, K3, K4|done]. }
  apply preflight_Ok in E3 as (l3 & L3 & K3 & R3). cbn beta iota in H.
  apply write_plans_run in H as (l4 & ps & L4 & K4 & Hsub & P4 & W4); [|done].
  assert (forallb looks (l1 ++ l2) = true) as K12 by (by rewrite forallb_app, K1, K2).
  exists ((l1 ++ l2) ++ l3 ++ l4), ps. split; [by rewrite L4, L3, L2, L1, <- !app_assoc|]. split; [|split; [done|split]].
  - apply keeps_app; [by apply keeps_looks|]. intros m Hd _. destruct (R3 m Hd) as (m3 & E3 & D3 & C3 & I3).
    destruct (K4 m3) as (m4 & E4 & D4 & C4); [by rewrite D3|done|]. exists m4. rewrite watch_app, E3. cbn. rewrite E4.
    split; [done|]. split; [congruence|auto].
  - by rewrite !posts_app, (posts_looks _ K1), (posts_looks _ K2), (posts_looks _ K3), P4.
  - destruct o as [r'|e]; cbn in W4 |- *.
    + destruct W4 as (cs & us & A & F & U). exists cs, us. split; [done|]. split; [|done]. eapply Forall2_impl; [|exact F].
      intros q ch Hq. apply (change_of_app ref ((l1 ++ l2) ++ l3) l4 []) in Hq. by rewrite app_nil_r, <- app_assoc in Hq.
    + unfold honest, uncertain in *. destruct e; [done|]. by rewrite !posts_app, (posts_looks _ K1), (posts_looks _ K2), (posts_looks _ K3).
Qed.

(** *** The transaction of one radio *)
Definition outcome (ref : nat) (ps : list SettingPlan) (l : list event) (o : res exn result) : Prop :=
  match o with
  | Ok r => exists cs art, changed r = cs ++ art /\ Forall2 (change_of ref l) ps cs
            /\ (art = [] \/ exists a b, art = [ArtChange a b])
  | Err (SettingsOperationError x) =>
      status x = "BLOCKED" /\ reconciliation_required x = false /\ posts l = []
      \/ status x = "DIVERGED" /\ reconciliation_required x = true /\ posts l <> []
  | Err (Fault _) => True
  end.

Lemma honest_outcome ref ps r l e : changed r = [] -> honest r l e -> outcome ref ps l (Err e).
Proof.
  intros Hr. destruct e as [f|x]; [done|]. unfold honest, uncertain, no_change. rewrite Hr. cbn. intros [-> ->].
  destruct (bool_decide (posts l = [])) eqn:E; bdestr; [by left|by right].
Qed.

Lemma check_art_run ref r expected_previous art s o s' :
  check_art v ref r expected_previous art s = (o, s') ->
  exists l, log s' = log s ++ l /\ forallb looks l = true /\ match o with Ok _ => True | Err e => honest r [] e end.
Proof.
  intros H. destruct (calm_run _ _ _ _ (calm_check_art ref r expected_previous art) H) as (l & L & K). exists l. split; [done|]. split; [done|].
  destruct o as [[]|e]; [done|]. assert (raises_in (failed_with r false) (check_art v ref r expected_previous art)) as Hr.
  { unfold check_art, art_key. raising. all: right; eauto. }
  apply (raises_run _ _ _ _ _ Hr) in H as [[f ->]|(c & st & ->)]; [done|]. by apply fail_honest.
Qed.

Lemma write_art_run ref r art s o s' :
  write_art v ref r art s = (o, s') ->
  exists l, log s' = log s ++ l /\ forallb looks l = true /\
    match o with
    | Ok r' => exists c, changed r' = changed r ++ c /\ (c = [] \/ exists a b, c = [ArtChange a b])
    | Err e => honest r [] e
    end.
Proof.
  intros H. destruct (calm_run _ _ _ _ (calm_write_art ref r art) H) as (l & L & K). exists l. split; [done|]. split; [done|].
  destruct o as [r'|e].
  - unfold write_art in H. destruct art as [mode|]; [|injection H as <- <-; exists []; rewrite app_nil_r; eauto].
    apply st_bind_Ok in H as (key & s1 & _ & H). apply st_bind_Ok in H as (row & s2 & _ & H). cbv zeta in H.
    destruct (bool_decide _); [injection H as <- <-; exists []; rewrite app_nil_r; eauto|].
    apply st_bind_Ok in H as ([] & s3 & _ & [= <- <-]). eexists. split; [reflexivity|]. eauto.
  - assert (raises_in (failed_with r false) (write_art v ref r art)) as Hr.
    { unfold write_art, art_key. destruct art as [mode|]; [|raising].
      apply raises_in_bind; [raising|intros key]. apply raises_in_bind; [raising|intros row]. cbv zeta. destruct (bool_decide _); [raising|].
      apply raises_in_bind; [|intros []; raising]. apply (raises_in_handled _ plain); [raising|].
      intros x [f ->]. raising. all: first [right; eauto; fail|left; by exists f]. }
    apply (raises_run _ _ _ _ _ Hr) in H as [[f ->]|(c & st & ->)]; [done|]. by apply fail_honest.
Qed.

Abbreviation obeying := (obeys ["settings_intent"] backup_text).

Lemma apply_settings_run ref plans expected_previous art s o s' :
  apply_settings v parse_xml ref plans expected_previous art s = (o, s') ->
  exists l ps, log s' = log s ++ l /\ obeying l /\ ps `sublist_of` plans /\ posts l = map (post_of ref) ps /\ outcome ref ps l o.
Proof.
  assert (forall o, (exists f, o = Err (Fault f)) -> forall (s1 : session W), log s1 = log s -> exists l ps, log s1 = log s ++ l /\ obeying l
    /\ ps `sublist_of` plans /\ posts l = map (post_of ref) ps /\ outcome ref ps l o) as Hnothing.
  { intros o1 [f ->] s1 L. exists [], []. rewrite app_nil_r. split; [done|]. split; [apply obeys_nil|]. split; [apply sublist_nil_l|]. done. }
  intros H. unfold apply_settings in H.
  unfold mbind at 1, st_bind at 1 in H. cbn [get_device gets] in H. unfold mbind at 1, st_bind at 1 in H.
  unfold fresh, ask at 1 in H. destruct (uuid4 v (world s)) as [u w]. cbn beta iota zeta in H.
  set (r0 := {| r_device := _; r_job := _; changed := []; unchanged := []; preset_sync_required := false |}) in H.
  apply device_transaction_run in H as [(f & -> & L)|(s1 & s2 & L1 & H & L2)]; [apply Hnothing; [by exists f|exact L]|]. cbn in L1.
  assert (exists l ps, log s2 = log s1 ++ l /\ keeping [] l /\ ps `sublist_of` plans /\ posts l = map (post_of ref) ps /\ outcome ref ps l o) as
    (l & ps & L & K & Hsub & P & O).
  { clear L2 L1. unfold mbind at 1, st_bind at 1 in H.
    destruct (check_art v ref r0 expected_previous art s1) as [[[]|e] s3] eqn:E3; apply check_art_run in E3 as (l3 & L3 & K3 & H3).
    2: { injection H as <- <-. exists l3, []. split; [done|]. split; [by apply keeps_looks|]. split; [apply sublist_nil_l|].
         rewrite (posts_looks _ K3). split; [done|]. apply (honest_outcome _ _ r0); [done|]. destruct e; [done|].
         unfold honest, uncertain in *. by rewrite (posts_looks _ K3). }
    cbn beta iota in H. unfold mbind at 1, st_bind at 1 in H.
    destruct (match plans with [] => mret r0 | _ => write_radio v parse_xml ref r0 expected_previous plans end s3) as [o4 s4] eqn:E4.
    assert (exists l ps, log s4 = log s3 ++ l /\ keeping [] l /\ ps `sublist_of` plans /\ posts l = map (post_of ref) ps /\ wrote_all ref r0 plans ps l o4)
      as (l4 & ps & L4 & K4 & Hsub & P4 & W4).
    { destruct plans as [|p plans]; [|by eapply write_radio_run]. injection E4 as <- <-. exists [], []. rewrite app_nil_r. split; [done|].
      split; [by apply keeps_looks|]. split; [constructor|]. split; [done|]. exists [], []. unfold added. rewrite !app_nil_r.
      split; [done|]. split; constructor. }
    destruct o4 as [r4|e].
    2: { injection H as <- <-. exists (l3 ++ l4), ps. split; [by rewrite L4, L3, app_assoc|]. split; [apply keeps_app; [by apply keeps_looks|done]|].
         rewrite posts_app, (posts_looks _ K3). split; [done|]. split; [done|]. apply (honest_outcome _ _ r0); [done|].
         cbn in W4. destruct e; [done|]. unfold honest, uncertain in *. by rewrite posts_app, (posts_looks _ K3). }
    cbn in W4. destruct W4 as (cs & us & A4 & F4 & _). pose proof A4 as (_ & _ & C4 & _).
    apply write_art_run in H as (l5 & L5 & K5 & H5). exists (l3 ++ l4 ++ l5), ps.
    split; [by rewrite L5, L4, L3, <- !app_assoc|]. split; [apply keeps_app; [by apply keeps_looks|apply keeps_app; [done|by apply keeps_looks]]|].
    split; [done|]. split; [by rewrite !posts_app, (posts_looks _ K3), (posts_looks _ K5), app_nil_r|].
    cbn in C4. destruct o as [r'|e].
    - destruct H5 as (c & C5 & Hc). exists cs, c. split; [by rewrite C5, C4|]. split; [|done].
      eapply Forall2_impl; [|exact F4]. intros q ch Hq. by apply change_of_app.
    - assert (honest r0 (l3 ++ l4 ++ l5) e) as Hh; [|by apply (honest_outcome _ _ r0)].
      assert (honest r0 (l4 ++ []) e) as Hh.
      { eapply (honest_later r0 r4 l4 [] cs us); [exact A4|split; intros Hne E|exact H5].
        - rewrite P4 in E. destruct ps; [|done]. apply Forall2_nil_inv_l in F4. by apply Hne. 
        - rewrite E in F4. apply Forall2_nil_inv_r in F4. subst ps. by rewrite P4 in Hne. }
      destruct e; [done|]. unfold honest, uncertain in *.
      by rewrite !posts_app, (posts_looks _ K3), (posts_looks _ K5), app_nil_r in *. }
  exists (Entered [device_id (device v ref (world s))] :: l ++ [Left [device_id (device v ref (world s))]]), ps. split; [rewrite L2, L, L1, <- !app_assoc; done|]. split; [by apply obeys_transaction|].
  split; [done|]. assert (posts (Entered [device_id (device v ref (world s))] :: l ++ [Left [device_id (device v ref (world s))]]) = posts l) as Hp.
  { change (posts (?e :: ?l)) with (posts l). cbn. by rewrite posts_app, app_nil_r. }
  rewrite Hp. split; [done|]. unfold outcome in *. rewrite Hp. destruct o as [r'|e]; [|exact O].
  destruct O as (cs & art' & C & F & A). exists cs, art'. split; [done|]. split; [|done]. eapply Forall2_impl; [|exact F].
  intros q ch Hq. exact (change_of_app ref [_] l [_] q ch Hq).
Qed.

(** *** Several radios *)
Lemma sublist_one {A} (l : list A) x : l `sublist_of` [x] -> l = [] \/ l = [x].
Proof. intros H. inversion H as [|? ? ? H1|? ? ? H1]; subst; apply sublist_nil_r in H1 as ->; auto. Qed.

Definition batch_outcome (l : list event) (earlier : bool) (o : res exn (list result)) : Prop :=
  match o with
  | Ok _ => True
  | Err (SettingsOperationError x) =>
      status x = "BLOCKED" /\ reconciliation_required x = false /\ posts l = [] /\ earlier = false
      \/ status x = "DIVERGED" /\ reconciliation_required x = true
  | Err (Fault _) => True
  end.

Definition any_change (rows : list result) : bool := existsb (fun r => negb (no_change r)) rows.

Lemma batch_failed_run rows ref e s o s' l :
  batch_failed v rows ref e s = (o, s') ->
  match e with SettingsOperationError x => (reconciliation_required x = false -> posts l = []) | _ => True end ->
  log s' = log s /\ exists x, o = Err x /\ batch_outcome l (any_change rows) (Err x).
Proof.
  intros H He. unfold batch_failed in H. apply (f_equal id) in H. unfold mbind, st_bind, get_device, gets in H. cbn in H.
  destruct e as [f|x].
  - destruct (is_exception f); injection H as <- <-; (split; [done|]); eexists; (split; [done|]); [by right|done].
  - injection H as <- <-. split; [done|]. eexists. split; [done|]. cbn. fold (any_change rows).
    destruct (any_change rows); cbn; [by right|]. destruct (reconciliation_required x); [by right|]. left. auto.
Qed.

Lemma apply_all_run p targets : forall rows s o s',
  apply_all v parse_xml p targets rows s = (o, s') ->
  exists l refs, log s' = log s ++ l /\ obeying l /\ refs `sublist_of` map fst targets
    /\ posts l = map (fun ref => post_of ref p) refs /\ batch_outcome l (any_change rows) o
    /\ (forall rows', o = Ok rows' -> exists new, rows' = rows ++ new /\ length new = length targets).
Proof.
  induction targets as [|[ref previous] targets IH]; intros rows s o s' H; cbn [apply_all] in H.
  { injection H as <- <-. exists [], []. rewrite app_nil_r. split; [done|]. split; [apply obeys_nil|]. split; [constructor|].
    split; [done|]. split; [done|]. intros rows' [= <-]. exists []. by rewrite app_nil_r. }
  unfold mbind, st_bind, try_except in H.
  destruct (apply_settings v parse_xml ref [p] (Some [(setting p, value_json previous)]) None s) as [[r|e] s1] eqn:E1;
    apply apply_settings_run in E1 as (l1 & ps & L1 & K1 & Hsub & P1 & O1); apply sublist_one in Hsub.
  - apply IH in H as (l2 & refs & L2 & K2 & Hs2 & P2 & O2 & R2). exists (l1 ++ l2), (match ps with [] => refs | _ => ref :: refs end).
    split; [by rewrite L2, L1, app_assoc|]. split.
    { intros m. destruct (K1 m) as (m1 & E1 & D1 & C1). destruct (K2 m1) as (m2 & E2 & D2 & C2). exists m2.
      rewrite watch_app, E1. cbn. rewrite E2. split; [done|]. split; [congruence|auto]. }
    split; [destruct Hsub as [-> | ->]; by constructor|]. split.
    { rewrite posts_app, P1, P2. by destruct Hsub as [-> | ->]. }
    split.
    + destruct o as [rows'|[f|x]]; [done|done|]. cbn in O2 |- *. destruct O2 as [(Hs & Hr & Hp & Hc)|O2]; [|by right]. left.
      split; [done|]. split; [done|]. unfold any_change in Hc. rewrite existsb_app in Hc. apply orb_false_iff in Hc as [Hc Hn].
      cbn in Hn. rewrite orb_false_r in Hn. apply negb_false_iff in Hn. unfold no_change in Hn. bdestr. split; [|done].
      cbn in O1. destruct O1 as (cs & art & C & F & _). rewrite C in Hn. destruct cs; [|done]. apply Forall2_nil_inv_r in F. subst ps.
      by rewrite posts_app, P1, Hp.
    + intros rows' Hr. destruct (R2 rows' Hr) as (new & -> & Hl). exists (r :: new). rewrite <- app_assoc. split; [done|]. cbn. by rewrite Hl.
  - destruct (batch_failed v rows ref e s1) as [o2 s2] eqn:E2. apply (batch_failed_run _ _ _ _ _ _ l1) in E2 as (L2 & x & -> & Hx).
    2: { destruct e as [f|x]; [done|]. cbn in O1. destruct O1 as [(_ & _ & H1)|(_ & Hr & _)]; [done|]. rewrite Hr. discriminate. }
    injection H as <- <-. exists l1, (match ps with [] => [] | _ => [ref] end). split; [by rewrite L2, L1|]. split; [done|].
    split; [destruct Hsub as [-> | ->]; [apply sublist_nil_l|]; cbn; apply sublist_skip, sublist_nil_l|].
    split; [rewrite P1; by destruct Hsub as [-> | ->]|]. split; [exact Hx|]. done.
Qed.

(** A radio passed the preflight of a batch in [l]. *)
Definition looked_at (l : list event) (ref : nat) : Prop :=
  exists c info w, c_device c = ref /\ Got c "/info" (Ok info) ∈ l
    /\ is_ok (Profiles.verify_settings_identity parse_xml (policy v w) (device v ref w) info) = true.

Lemma preflight_one_Ok p ref s x s' :
  preflight_one v parse_xml p ref s = (Ok x, s') -> exists l, log s' = log s ++ l /\ forallb looks l = true /\ looked_at l ref.
Proof.
  intros H. assert (calm s s') as (l & L & K) by (eapply calm_run; [|exact H]; unfold preflight_one; steps). exists l. split; [done|]. split; [done|].
  unfold preflight_one in H. apply st_bind_Ok in H as (c & s1 & H1 & H). pose proof (make_client_Ok _ _ _ _ _ H1) as Hc.
  apply calm_run in H1 as (l1 & L1 & _); [|auto with py].
  apply st_bind_Ok in H as (info & s2 & L2%get_Ok & H). apply st_bind_Ok in H as ([] & s3 & (L3 & wv & Hv)%verify_Ok & H).
  assert (calm s3 s') as (l4 & L4 & _) by (eapply calm_run; [|exact H]; steps).
  exists c, info, wv. split; [done|]. split; [|done]. rewrite L4, L3, L2, L1, <- !app_assoc in L. apply app_inv_head in L. subst l.
  apply elem_of_app. right. left.
Qed.

Lemma preflight_all_run p refs : forall s o s', preflight_all v parse_xml p refs s = (o, s') ->
  exists l, log s' = log s ++ l /\ forallb looks l = true /\
    match o with
    | Ok xs => length xs = length refs /\ forall ref, ref ∈ refs -> looked_at l ref
    | Err e => forall l', posts l' = [] -> batch_outcome l' false (Err e)
    end.
Proof.
  induction refs as [|ref refs IH]; intros s o s' H; cbn [preflight_all] in H.
  { injection H as <- <-. exists []. rewrite app_nil_r. split; [done|]. split; [done|]. split; [done|]. intros ? []%elem_of_nil. }
  unfold mbind at 1, st_bind at 1, try_except at 1 in H.
  destruct (preflight_one v parse_xml p ref s) as [[x|e] s1] eqn:E1.
  - apply preflight_one_Ok in E1 as (l1 & L1 & K1 & Hl1). cbn beta iota in H. unfold mbind at 1, st_bind at 1 in H.
    destruct (preflight_all v parse_xml p refs s1) as [o2 s2] eqn:E2. apply IH in E2 as (l2 & L2 & K2 & R2).
    assert (log s2 = log s ++ l1 ++ l2) as L by (by rewrite L2, L1, app_assoc).
    assert (forallb looks (l1 ++ l2) = true) as K by (by rewrite forallb_app, K1, K2).
    destruct o2 as [xs|e]; injection H as <- <-; exists (l1 ++ l2); (split; [done|]; split; [done|]).
    + destruct R2 as [Hlen R2]. split; [cbn; by rewrite Hlen|]. intros r Hr. assert (forall la lb, looked_at la r -> looked_at (lb ++ la) r) as Hmono.
      { intros la lb (c & info & wv & ? & ? & ?). exists c, info, wv. split; [done|]. split; [apply elem_of_app; by right|done]. }
      apply elem_of_cons in Hr as [->|Hr]; [|by apply Hmono, R2].
      destruct Hl1 as (c & info & wv & ? & ? & ?). exists c, info, wv. split; [done|]. split; [apply elem_of_app; by left|done].
    + exact R2.
  - apply calm_run in E1 as (l1 & L1 & K1); [|unfold preflight_one; steps]. exists l1.
    destruct e as [f|x]; [destruct (is_exception f)|]; injection H as <- <-; (split; [exact L1|]; split; [done|]); intros l' Hl'; try done; by left.
Qed.

Lemma guards_run refs s o s' :
  for_each refs (run_guard v) s = (o : res exn unit, s') ->
  exists l, log s' = log s ++ l /\ forallb looks l = true /\
    match o with Ok _ => forall ref, ref ∈ refs -> Guarded ref ∈ l | Err e => exists f, e = Fault f end.
Proof.
  revert s. induction refs as [|ref refs IH]; intros s H; cbn [for_each] in H.
  { injection H as <- <-. exists []. rewrite app_nil_r. split; [done|]. split; [done|]. intros ? []%elem_of_nil. }
  unfold mbind at 1, st_bind at 1 in H. destruct (run_guard v ref s) as [[[]|e] s1] eqn:E1.
  - apply IH in H as (l2 & L2 & K2 & R2). unfold run_guard, ask, mbind, st_bind in E1. destruct (guard v ref (world s)) as [[[]|f] w]; [|done].
    injection E1 as <-. cbn in L2. exists (Guarded ref :: l2). rewrite L2, <- app_assoc. split; [done|]. split; [done|].
    destruct o as [[]|e]; [|done]. intros r [->|Hr]%elem_of_cons; [left|right; by apply R2].
  - injection H as <- <-. pose proof (raises_run plain _ _ _ _ (faults_run_guard v plain plain_fault ref) E1) as [f ->].
    apply calm_run in E1 as (l & L & K); [|auto with py]. eauto.
Qed.

Lemma apply_settings_batch_run refs p s o s' :
  apply_settings_batch v parse_xml refs p s = (o, s') ->
  exists l written, log s' = log s ++ l /\ obeying l /\ written `sublist_of` refs
    /\ posts l = map (fun ref => post_of ref p) written /\ batch_outcome l false o
    /\ (forall rows, o = Ok rows -> length rows = length refs)
    /\ (posts l <> [] -> exists l1 l2, l = l1 ++ l2 /\ posts l1 = [] /\ forall ref, ref ∈ refs -> Guarded ref ∈ l1 /\ looked_at l1 ref).
Proof.
  intros H. unfold apply_settings_batch in H. unfold mbind at 1, st_bind at 1 in H. cbn [gets] in H.
  assert (forall f (s1 : session W), log s1 = log s -> exists l written, log s1 = log s ++ l /\ obeying l /\ written `sublist_of` refs
    /\ posts l = map (fun ref => post_of ref p) written /\ batch_outcome l false (Err (Fault f))
    /\ (forall rows, Err (Fault f) = Ok rows :> res exn (list result) -> length rows = length refs)
    /\ (posts l <> [] -> exists l1 l2, l = l1 ++ l2 /\ posts l1 = [] /\ forall ref, ref ∈ refs -> Guarded ref ∈ l1 /\ looked_at l1 ref)) as Hnothing.
  { intros f s1 L. exists [], []. rewrite app_nil_r. split_and!; try done. apply obeys_nil. apply sublist_nil_l. }
  set (ids := map _ refs) in H. destruct (_ || _); [injection H as <- <-; by apply Hnothing|].
  apply device_transaction_run in H as [(f & -> & L)|(s1 & s2 & L1 & H & L2)]; [by apply Hnothing|].
  assert (exists l written, log s2 = log s1 ++ l /\ keeping [] l /\ written `sublist_of` refs
    /\ posts l = map (fun ref => post_of ref p) written /\ batch_outcome l false o
    /\ (forall rows, o = Ok rows -> length rows = length refs)
    /\ (posts l <> [] -> exists l1 l2, l = l1 ++ l2 /\ posts l1 = [] /\ forall ref, ref ∈ refs -> Guarded ref ∈ l1 /\ looked_at l1 ref)) as
    (l & written & L & K & Hsub & P & O & R & F).
  { clear L1 L2 Hnothing. unfold mbind at 1, st_bind at 1 in H.
    destruct (for_each refs (run_guard v) s1) as [o3 s3] eqn:E3. apply guards_run in E3 as (l3 & L3 & K3 & R3).
    destruct o3 as [[]|e].
    2: { destruct R3 as [f ->]. injection H as <- <-. exists l3, []. rewrite (posts_looks _ K3). split_and!; try done; [by apply keeps_looks|apply sublist_nil_l]. }
    unfold mbind at 1, st_bind at 1 in H. destruct (preflight_all v parse_xml p refs s3) as [o4 s4] eqn:E4.
    apply preflight_all_run in E4 as (l4 & L4 & K4 & R4). assert (forallb looks (l3 ++ l4) = true) as K34 by (by rewrite forallb_app, K3, K4).
    destruct o4 as [previous|e].
    2: { injection H as <- <-. exists (l3 ++ l4), []. rewrite (posts_looks _ K34). split_and!; try done;
           [by rewrite L4, L3, app_assoc|by apply keeps_looks|apply sublist_nil_l|by apply R4, posts_looks]. }
    destruct R4 as [Hlen R4]. apply apply_all_run in H as (l5 & written & L5 & K5 & Hs5 & P5 & O5 & R5).
    assert (map fst (zip refs previous) = refs) as Hz by (apply fst_zip; lia). rewrite Hz in Hs5.
    exists ((l3 ++ l4) ++ l5), written. split; [by rewrite L5, L4, L3, <- !app_assoc|].
    split; [apply keeps_app; [by apply keeps_looks|by apply obeys_keeps]|]. split; [done|].
    rewrite posts_app, (posts_looks _ K34). split; [done|]. split; [|split].
    - destruct o as [rows|[f|x]]; [done|done|]. cbn in O5 |- *. by rewrite posts_app, (posts_looks _ K34).
    - intros rows Hr. destruct (R5 rows Hr) as (new & -> & Hn). cbn. rewrite Hn, length_zip. lia.
    - intros _. exists (l3 ++ l4), l5. split; [done|]. split; [by apply posts_looks|]. intros ref Hr. split; [apply elem_of_app; left; by apply R3|].
      destruct (R4 ref Hr) as (c & info & wv & ? & ? & ?). exists c, info, wv. split; [done|]. split; [apply elem_of_app; by right|done]. }
  exists (Entered ids :: l ++ [Left ids]), written. split; [by rewrite L2, L, L1, <- !app_assoc|]. split; [by apply obeys_transaction|].
  split; [done|]. assert (posts (Entered ids :: l ++ [Left ids]) = posts l) as Hp.
  { change (posts (l ++ [Left ids]) = posts l). by rewrite posts_app, app_nil_r. }
  rewrite Hp. split; [done|]. split; [|split; [done|]].
  - destruct o as [rows|[f|x]]; [done|done|]. unfold batch_outcome in *. by rewrite Hp.
  - intros Hne. destruct (F Hne) as (l1 & l2 & -> & Hp1 & Hl). exists (Entered ids :: l1), (l2 ++ [Left ids]). split; [by rewrite <- app_assoc|].
    split; [exact Hp1|]. intros ref Hr. destruct (Hl ref Hr) as (Hg & c & info & wv & ? & ? & ?). split; [by right|].
    exists c, info, wv. split; [done|]. split; [by right|done].
Qed.

(** Several radios, one transaction inside the other. *)
Lemma apply_all_holds p targets rows s o s' who open :
  apply_all v parse_xml p targets rows s = (o, s') ->
  (forall ref x, (ref, x) ∈ targets -> who ref ∈ List.concat open) ->
  exists l, log s' = log s ++ l /\ holding who open l = Some open.
Proof.
  revert rows s. induction targets as [|[ref x] targets IH]; intros rows s H Hw; cbn [apply_all] in H.
  { injection H as <- <-. exists []. by rewrite app_nil_r. }
  unfold mbind at 1, st_bind at 1, try_except at 1 in H.
  destruct (apply_settings v parse_xml ref [p] _ None s) as [[r|e] s1] eqn:E1;
    apply (apply_settings_holds _ _ _ _ _ _ _ who open) in E1 as (l1 & L1 & K1); try (right; apply (Hw ref x); left).
  - cbn beta iota in H. apply IH in H as (l2 & L2 & K2); [|intros r' x' Hin; apply (Hw r' x'); by right].
    exists (l1 ++ l2). rewrite L2, L1, app_assoc. split; [done|]. by rewrite holding_app, K1.
  - destruct (batch_failed v rows ref e s1) as [o2 s2] eqn:E2.
    assert (adds (within []) s1 s2) as (l2 & L2 & K2).
    { eapply adds_run; [|exact E2]. unfold batch_failed. steps. }
    exists l1. unfold batch_failed in E2. cbn in E2.
    assert (log s2 = log s1 /\ exists y, o2 = Err y) as [L y].
    { destruct e as [f|y]; [destruct (is_exception f)|]; injection E2 as <- <-; eauto. }
    destruct y as [y ->]. injection H as <- <-. rewrite L, L1. done.
Qed.

Lemma apply_settings_batch_holds refs p s o s' :
  apply_settings_batch v parse_xml refs p s = (o, s') ->
  exists l, log s' = log s ++ l /\ holding (named s) [] l = Some [].
Proof.
  intros H. unfold apply_settings_batch in H. unfold mbind at 1, st_bind at 1 in H. cbn [gets] in H.
  set (ids := map _ refs) in H. destruct (_ || _); [injection H as <- <-; exists []; by rewrite app_nil_r|].
  apply device_transaction_run in H as [(f & -> & L)|(s1 & s2 & L1 & H & L2)]; [exists []; by rewrite app_nil_r|].
  assert (forall ref, ref ∈ refs -> named s ref ∈ List.concat [ids]) as Hin.
  { intros ref Hr. cbn. rewrite app_nil_r. unfold ids. by apply (list_elem_of_fmap_2 (named s)). }
  assert (exists l, log s2 = log s1 ++ l /\ holding (named s) [ids] l = Some [ids]) as (l & L & K).
  { unfold mbind at 1, st_bind at 1 in H.
    destruct (for_each refs (run_guard v) s1) as [o3 s3] eqn:E3.
    assert (adds (within refs) s1 s3) as (l3 & L3 & K3) by (eapply adds_run; [|exact E3]; steps).
    destruct o3 as [[]|e]; [|injection H as <- <-; exists l3; split; [done|by apply (holding_within _ _ refs)]].
    unfold mbind at 1, st_bind at 1 in H. destruct (preflight_all v parse_xml p refs s3) as [o4 s4] eqn:E4.
    assert (adds (within refs) s3 s4) as (l4 & L4 & K4) by (eapply adds_run; [by apply among_preflight_all|exact E4]).
    assert (log s4 = log s1 ++ l3 ++ l4) as L34 by (by rewrite L4, L3, app_assoc).
    assert (holding (named s) [ids] (l3 ++ l4) = Some [ids]) as K34
      by (apply (holding_within _ _ refs); [done|]; by rewrite forallb_app, K3, K4).
    destruct o4 as [previous|e]; [|injection H as <- <-; eauto].
    apply (apply_all_holds _ _ _ _ _ _ (named s) [ids]) in H as (l5 & L5 & K5).
    2: { intros ref x Hx. apply Hin. by apply elem_of_zip_l in Hx. }
    exists ((l3 ++ l4) ++ l5). split; [by rewrite L5, L34, <- !app_assoc|]. by rewrite holding_app, K34. }
  exists (Entered ids :: l ++ [Left ids]). split; [by rewrite L2, L, L1, <- !app_assoc|]. by apply holding_transaction.
Qed.

(** C10. Whatever the radios answer, whichever call fails or is cancelled, and whatever others do meanwhile: no request
    leaves for a radio but inside a transaction that owns this radio - its targets hold the identity the radio's device
    had when the operation began - and every request that changes a radio uses up an intent of
    its own that was already durable and names a backup that was durable, read again and found intact - for one radio
    and for a batch, and whatever the session did before. *)
Theorem settings_keep_the_contract s m :
  watches fresh_contract (log s) = Some m ->
  (forall ref plans expected_previous art, exists l m',
     log (apply_settings v parse_xml ref plans expected_previous art s).2 = log s ++ l /\
     holding (named s) [] l = Some [] /\
     watches fresh_contract (log s ++ l) = Some m' /\ depth m' = depth m)
  /\ (forall refs p, exists l m',
     log (apply_settings_batch v parse_xml refs p s).2 = log s ++ l /\
     holding (named s) [] l = Some [] /\
     watches fresh_contract (log s ++ l) = Some m' /\ depth m' = depth m).
Proof.
  intros Hm. split; intros.
  - destruct (apply_settings _ _ _ _ _ _ s) as [o s'] eqn:E.
    destruct (apply_settings_holds _ _ _ _ _ _ _ (named s) [] E (or_introl eq_refl)) as (l0 & L0 & Hh).
    apply apply_settings_run in E as (l & ps & L & K & _). rewrite L in L0. apply app_inv_head in L0 as <-.
    destruct (K m) as (m' & Em & Dm & _). exists l, m'. by rewrite watch_app, Hm.
  - destruct (apply_settings_batch _ _ _ _ s) as [o s'] eqn:E.
    destruct (apply_settings_batch_holds _ _ _ _ _ E) as (l0 & L0 & Hh).
    apply apply_settings_batch_run in E as (l & written & L & K & _). rewrite L in L0. apply app_inv_head in L0 as <-.
    destruct (K m) as (m' & Em & Dm & _). exists l, m'. by rewrite watch_app, Hm.
Qed.

(** C11. The answer of a transaction is true. The plans written are some of those asked for, in their order and each once:
    no request is ever repeated. A success lists for every written plan a change that was read back from the verified
    radio after the request and is what the plan wants, and nothing else but the local art mode; a refusal says BLOCKED
    exactly when no request that changes the radio was sent, and otherwise DIVERGED. *)
Theorem settings_answer_is_true ref plans expected_previous art s :
  let '(o, s') := apply_settings v parse_xml ref plans expected_previous art s in
  exists l ps, log s' = log s ++ l /\ ps `sublist_of` plans /\ posts l = map (post_of ref) ps /\ outcome ref ps l o.
Proof.
  destruct (apply_settings _ _ _ _ _ _ s) as [o s'] eqn:E. apply apply_settings_run in E as (l & ps & L & _ & H). eauto.
Qed.

(** In a batch the first request that changes any radio comes after every radio passed the guard and was found to be
    itself; each radio is written at most once, in order; BLOCKED means that nothing was written. *)
Theorem batch_looks_before_it_writes refs p s :
  let '(o, s') := apply_settings_batch v parse_xml refs p s in
  exists l written, log s' = log s ++ l /\ written `sublist_of` refs /\ posts l = map (fun ref => post_of ref p) written
    /\ (posts l <> [] -> exists l1 l2, l = l1 ++ l2 /\ posts l1 = [] /\ forall ref, ref ∈ refs -> Guarded ref ∈ l1 /\ looked_at l1 ref)
    /\ match o with
       | Ok rows => length rows = length refs
       | Err (SettingsOperationError x) => status x = "BLOCKED" -> posts l = []
       | Err (Fault _) => True
       end.
Proof.
  destruct (apply_settings_batch _ _ _ _ s) as [o s'] eqn:E.
  apply apply_settings_batch_run in E as (l & written & L & _ & Hs & P & O & R & F). exists l, written.
  split; [done|]. split; [done|]. split; [done|]. split; [done|]. destruct o as [rows|[f|x]]; [by apply R|done|].
  cbn in O. destruct O as [(_ & _ & H & _)|[-> _]]; [done|discriminate].
Qed.
End Facts.

(** ** A radio *)

(** Its state is the volume it plays at; it obeys requests when [obedient], and [lost]
    says that the answer to a request is lost on its way. *)
Definition demo_info : string := "<info/>".
Definition demo_parse (text : string) : option element :=
  if bool_decide (text = demo_info) then
    Some (Element "info" [("deviceID", "AA")] None
            [Element "type" [] (Some "SoundTouch 20") []; Element "variant" [] (Some "spotty") [];
             Element "moduleType" [] (Some "sm2") [];
             Element "components" [] None [Element "softwareVersion" [] (Some "27.0.6.46330.5043500 epdbuild") []]])
  else Some (Element "volume" [("deviceID", "aa")] None [Element "actualvolume" [] (Some text) []]).
Definition demo_device : Device := {|
  device_id := "AA"; name := "Kitchen"; model := "SoundTouch 20"; ip_address := "10.0.0.8";
  firmware := "27.0.6.46330.5043500 epdbuild"; info_xml := demo_info |}.
(** The volume, the next primary key and the backups of the database. *)
Definition demo_world : Type := Z * Z * list (Z * string).
Definition demo_env (obedient lost : bool) : env demo_world := {|
  device := fun _ _ => demo_device; policy := fun _ => Protected.office;
  guard := fun _ w => (Ok tt, w); owns := fun _ _ => true; enter := fun _ w => (Ok tt, w); leave := fun _ w => w;
  connect := fun _ w => (Ok "10.0.0.8", w);
  get_xml := fun _ path w => (Ok (if bool_decide (path = "/info") then demo_info else text_of_int w.1.1), w);
  post_xml := fun _ _ _ w => ((if lost : bool then Err TransportError else Ok "<status/>"),
                              ((if obedient : bool then 20 else w.1.1), w.1.2, w.2));
  sleep := fun _ w => (Ok tt, w); uuid4 := fun w => ("0123", w);
  flush := fun _ w => (Ok w.1.2, (w.1.1, w.1.2 + 1, w.2));
  commit := fun rows w => (None, (w.1, w.2 ++ saved_backups rows));
  rollback := fun w => w;
  stored_backup := fun id w => (Ok (snd <$> head (List.filter (fun b => b.1 =? id) w.2)), w);
  setting_value := fun _ w => (Ok None, w);
  all_devices := fun w => (Ok [], w) |}.
Definition demo_start : session demo_world := {| world := (10, 1, []); pending := []; log := [] |}.
Definition demo_plan : SettingPlan :=
  {| setting := "volume"; path := "/volume"; read_path := "/volume"; xml := "<volume>20</volume>"; expected := VInt 20 |}.
Definition demo_run (obedient lost : bool) : res exn result * session demo_world :=
  apply_settings (demo_env obedient lost) demo_parse 0 [demo_plan] None None demo_start.

Lemma settings_keep_the_contract_witness :
  (exists r, (demo_run true true).1 = Ok r /\ length (changed r) = 1%nat) /\ length (posts (log (demo_run true true).2)) = 1%nat
  /\ exists l m', log (demo_run true true).2 = [] ++ l
    /\ holding (named (demo_env true true) demo_start) [] l = Some []
    /\ watch ["settings_intent"] backup_text fresh_contract ([] ++ l) = Some m' /\ depth m' = 0%nat.
Proof.
  split; [eexists; split; [vm_compute; reflexivity|reflexivity]|]. split; [vm_compute; reflexivity|].
  apply (proj1 (settings_keep_the_contract (demo_env true true) demo_parse demo_start fresh_contract eq_refl) 0%nat [demo_plan] None None).
Defined.

(** A radio that ignores the request is reported as diverged. *)
Example ignored_request :
  exists x, (demo_run false false).1 = Err (SettingsOperationError x) /\ status x = "DIVERGED" /\ code x = "WRITE_READBACK_MISMATCH".
Proof. eexists. split; [vm_compute; reflexivity|]. split; reflexivity. Qed.

(** What a plan may be. *)
Example plans_of_values :
  (exists p, plan_setting (fun _ => "") "volume" (JNum (PInt 20)) = Ok p /\ xml p = "<volume>20</volume>")
  /\ plan_setting (fun _ => "") "volume" (JNum (PInt 101)) = Err ValueError
  /\ plan_setting (fun _ => "") "name" (JStr "a<b") = Err ValueError.
Proof. split; [eexists; split; vm_compute; reflexivity|]. split; vm_compute; reflexivity. Qed.

End Settings.
