(* ===== verification/Zones.v ===== *)
(** * Zones of radios

    services/[zone_changes.py] and [zone_creation.py] over Radio: dissolving a zone or
    removing one member of it, and the scope in which a zone is created step by step.
    One request changes several radios, so every radio that may be affected is owned,
    backed up and read again before it, and read back after it.

    The programs that create a zone inside the scope (routers/multiroom.py and the AirPlay
    group owner) reach radios only through its checked clients; they are [orchestration]s:
    any finite interaction that requests, sees the answers, exceptions too, and goes on. *)
From Stdlib Require Import Ascii String.
From S2P Require Import Prelude PyNum PyStr Json Sha256 Xml Ingress Group Protected Radio Profiles Settings.
Import Xml Radio.
#[local] Open Scope string_scope.
#[local] Open Scope list_scope.
#[local] Open Scope Z_scope.

Module Zones.

(** ** Zone *)
Record Zone := { master : string; members : list (string * string) }.

#[export] Instance zone_eq_dec : EqDecision Zone.
Proof. solve_decision. Defined.

(** Tuples of strings in Python's order, and [sorted]. *)
Definition pair_le (x y : string * string) : bool :=
  match String.compare x.1 y.1 with Lt => true | Gt => false | Eq => Group.str_le x.2 y.2 end.
Fixpoint insert_pair (x : string * string) (l : list (string * string)) : list (string * string) :=
  match l with
  | [] => [x]
  | y :: l' => if pair_le x y then x :: l else y :: insert_pair x l'
  end.
Definition sorted_pairs (l : list (string * string)) : list (string * string) := fold_right insert_pair [] l.

Definition upper_id (s : string) : string := py_upper (py_strip s).

Section Parse.
(** [SafeXML.fromstring(xml, forbid_dtd=True)]. *)
Context (fromstring : string -> res fault element).

Definition parse (xml device_id : string) : res fault Zone :=
  root ← fromstring xml;
  if negb (has_tag "zone" root) then Err ValueError
  else if negb (empty_str device_id)
          && match attr "deviceID" root with
             | Some claimed => negb (bool_decide (upper_id claimed = py_upper device_id))
             | None => false end then Err ValueError
  else
    let members := sorted_pairs (map (fun node => (upper_id (text_of node), attr_or "ipaddress" "" node)) (findall "member" root)) in
    let ids := map fst members in
    if existsb empty_str ids || negb (distinct ids) then Err ValueError
    else
      let master := upper_id (attr_or "master" "" root) in
      if negb (bool_decide (members = [])) && empty_str master then Err ValueError
      else Ok {| master := master; members := members |}.
End Parse.

Definition standalone (z : Zone) (identity : string) : bool :=
  (empty_str (master z) || bool_decide (master z = py_upper identity))
  && negb (existsb (fun m => negb (bool_decide (m.1 = py_upper identity))) (members z)).

(** ** Errors *)
Inductive evidence : Type :=
| NoEvidence
| Cause (f : fault)
| BackupRef (ref : string)
| Readback (verified : bool) (response xml backup_ref : string).

Inductive exn : Type :=
| Fault (f : fault)
| ZoneChangeError (code : string) (attempted : bool) (e : evidence)
| ZoneCreationError (code : string) (attempted : bool) (backup_ref job_id cause : string).
#[export] Instance raises_exn : Raises exn := Fault.

Definition refused (code : string) : exn := ZoneChangeError code false NoEvidence.

(** [except Exception]. *)
Definition caught (e : exn) : bool := match e with Fault f => is_exception f | _ => true end.

(** [except ZoneChangeError: raise; except Exception: raise ZoneChangeError(code, cause)]. *)
Definition zone_errors {S A} (code : string) (m : ST S exn A) : ST S exn A :=
  try_except m (fun e =>
    match e with
    | ZoneChangeError _ _ _ => raise e
    | Fault f => if is_exception f then raise (ZoneChangeError code false (Cause f)) else raise e
    | ZoneCreationError _ _ _ _ _ => raise (ZoneChangeError code false (Cause OtherException))
    end).

(** ** [require_selected_scope] *)
Definition require_selected_scope (z : Zone) (selected : list (string * string)) : res exn unit :=
  let peers := map (fun x => (py_upper x.1, Ingress.canonical_peer x.2)) selected in
  let peer_of key := lookup_key key (rev peers) in        (* the last of equal keys wins *)
  if negb (empty_str (master z)) && is_none (peer_of (master z)) then Err (refused "ZONE_FORMER_COORDINATOR_NOT_SELECTED")
  else if existsb (fun m => match peer_of m.1 with
                            | None => true
                            | Some peer => negb (empty_str m.2) && negb (bool_decide (Ingress.canonical_peer m.2 = peer)) end) (members z)
  then Err (refused "ZONE_UNSELECTED_PARTICIPANT")
  else Ok tt.

(** ** [json.dumps(x, sort_keys=True)] of dictionaries of strings *)
Definition joined (l : list (list Z)) : list Z :=
  match l with [] => [] | x :: l => x ++ List.concat (map (fun y => bytes_of ", " ++ y) l) end.
Definition print_dict {A} (print : A -> list Z) (d : list (string * A)) : list Z :=
  bytes_of "{" ++ joined (map (fun kv => Json.print_string kv.1 ++ bytes_of ": " ++ kv.2)
                              (Json.sort_keys (map (fun kv => (kv.1, print kv.2)) d))) ++ bytes_of "}".
Definition print_reads : list (string * list (string * string)) -> list Z := print_dict (print_dict Json.print_string).

(** ** zone_changes.py *)
Section Changes.
Context {W : Type} (v : env W) (parse_xml : string -> option element) (fromstring : string -> res fault element).
#[local] Abbreviation M := (ST (session W) exn).
#[local] Abbreviation parse := (parse fromstring).

(** The attributes of all objects now. *)
Definition view : M (nat -> Device) := gets (fun s ref => device v ref (world s)).

Definition verify (ref : nat) (info : string) : M unit :=
  d ← get_device v ref;
  p ← get_policy v;
  _ ← lift (Profiles.verify_settings_identity parse_xml p d info);
  mret tt.

Definition read_zone (ref : nat) : M (Zone * list (string * string)) :=
  d ← get_device v ref;
  p ← get_policy v;
  lift (require_unprotected_device d p);;
  c ← make_client v ref;
  info ← get v c "/info";
  verify ref info;;
  xml ← get v c "/getZone";
  d ← get_device v ref;
  z ← lift (parse xml (device_id d));
  mret (z, [("/info", info); ("/getZone", xml)]).

(** A dictionary of objects by identity, in insertion order. *)
Fixpoint joining (ds : nat -> Device) (known : list (string * nat)) (l : list (string * string)) (acc : list (string * nat)) :
    res exn (list (string * nat)) :=
  match l with
  | [] => Ok acc
  | (identity, ip) :: l =>
      match lookup_key identity known with
      | None => Err (refused "ZONE_UNKNOWN_PARTICIPANT")
      | Some ref =>
          if negb (empty_str ip) && negb (bool_decide (Ingress.canonical_peer ip = Ingress.canonical_peer (ip_address (ds ref))))
          then Err (refused "ZONE_UNKNOWN_PARTICIPANT")
          else joining ds known l (Settings.set_key identity ref acc)
      end
  end.

Definition _participants (m : nat) (expected : Zone) : M (list nat) :=
  ds ← view;
  if negb (empty_str (master expected)) && negb (bool_decide (master expected = py_upper (device_id (ds m))))
  then raise (refused "ZONE_COORDINATOR_CHANGED")
  else
    all ← ask (all_devices v);
    ds ← view;
    let known := rev (map (fun ref => (py_upper (device_id (ds ref)), ref)) all) in
    found ← of_res (joining ds known (members expected) [(py_upper (device_id (ds m)), m)]);
    mret (map snd found).

Definition payload (ds : nat -> Device) (m : nat) (remaining : list nat) : string :=
  tostring (Element "zone" [("master", device_id (ds m))] None
              (map (fun ref => Element "member" [("ipaddress", ip_address (ds ref))] (Some (device_id (ds ref))) []) remaining)).

(** What stays fixed through a change. *)
Record frozen := {
  z_master : nat; z_remove : option nat; expected : Zone; participants : list nat; remaining : list nat;
  fingerprints : list (nat * (string * string * string * string * string));
  targets : list (string * string)
}.

Definition freeze (ds : nat -> Device) (m : nat) (expected : Zone) (remove : option nat) (participants : list nat) : res exn frozen :=
  let id ref := device_id (ds ref) in
  if match remove with Some r => bool_decide (py_upper (id r) = py_upper (id m)) | None => false end
  then Err (refused "ZONE_CANNOT_REMOVE_COORDINATOR")
  else if match remove with Some r => negb (bool_decide (id r ∈ map id participants)) | None => false end
  then Err (refused "ZONE_MEMBER_NOT_PRESENT")
  else Ok {|
    z_master := m; z_remove := remove; expected := expected; participants := participants;
    remaining := List.filter (fun ref => negb (bool_decide (id ref = id m))
                   && match remove with Some r => negb (bool_decide (id ref = id r)) | None => false end) participants;
    fingerprints := map (fun ref => (ref, device_fingerprint (ds ref))) participants;
    targets := fold_left (fun acc ref => Settings.set_key (id ref) (ip_address (ds ref)) acc) participants [] |}.

Definition fingerprint_of (f : frozen) (ref : nat) : option (string * string * string * string * string) :=
  snd <$> head (List.filter (fun x => bool_decide (x.1 = ref)) (fingerprints f)).

Definition guard_current (f : frozen) (ref : nat) : M unit :=
  run_guard v ref;;
  d ← get_device v ref;
  if bool_decide (Some (device_fingerprint d) = fingerprint_of f ref) then mret tt
  else raise (refused "ZONE_TARGET_CHANGED").

(** The first look at every participant: its topology is what the caller expects. *)
Fixpoint look (f : frozen) (refs : list nat) (before : list (string * list (string * string))) :
    M (list (string * list (string * string))) :=
  match refs with
  | [] => mret before
  | ref :: refs =>
      guard_current f ref;;
      '(zone, reads) ← read_zone ref;
      ds ← view;
      let before := Settings.set_key (device_id (ds ref)) reads before in
      of_res (require_selected_scope zone (targets f));;
      if bool_decide (device_id (ds ref) = device_id (ds (z_master f))) && negb (bool_decide (zone = expected f))
      then raise (refused "ZONE_PRECONDITION_CHANGED")
      else if negb (bool_decide (master zone = py_upper (device_id (ds (z_master f)))))
              && negb (standalone zone (device_id (ds ref)))
      then raise (refused "ZONE_CONFLICTING_TOPOLOGY")
      else look f refs before
  end.

Definition ref_text (id : Z) : string := "config_backup:" +:+ Settings.text_of_int id.

Definition zone_action (remove : option nat) : string := if is_some remove then "zone_remove" else "zone_clear".

(** The backup and the intent, durable before anything is written. *)
Definition save_backup (f : frozen) (job content digest : string) : M (Z * string) :=
  ds ← view;
  id ← add v (ConfigBackup (device_id (ds (z_master f))) (job +:+ "/before.json") content);
  ds ← view;
  record_action v {| job_id := job; a_device := device_id (ds (z_master f)); a_action := zone_action (z_remove f); phase := "ZONE_INTENT";
                     backup_ref := ref_text id; before_sha256 := digest;
                     requested_state := JObj [("members", JList (map (fun ref => JStr (device_id (ds ref))) (remaining f)))];
                     a_verified := false; error_category := "" |};;
  commit_db v;;
  mret (id, ref_text id).

Definition check_backup (id : Z) (ref digest : string) : M unit :=
  stored ← read_backup v id;
  match stored with
  | Some content =>
      if bool_decide (sha256_hex content = digest) then mret tt
      else raise (ZoneChangeError "ZONE_BACKUP_INTEGRITY" false (BackupRef ref))
  | None => raise (ZoneChangeError "ZONE_BACKUP_INTEGRITY" false (BackupRef ref))
  end.

(** The second look: nothing changed while the backup was made. *)
Definition unchanged (f : frozen) (before : list (string * list (string * string))) (ref : nat) : M unit :=
  guard_current f ref;;
  '(current, _) ← read_zone ref;
  d ← get_device v ref;
  match reads ← lookup_key (device_id d) before; lookup_key "/getZone" reads with
  | None => raise (Fault OtherException)                                                  (* KeyError *)
  | Some xml =>
      was ← lift (parse xml "");
      if bool_decide (current = was) then mret tt else raise (refused "ZONE_PRECONDITION_CHANGED")
  end.

Definition type_name (f : fault) : string :=
  match f with
  | IdentityMismatch => "IdentityMismatch" | ValueError => "ValueError" | ParseError => "ParseError"
  | TransportError => "TransportError" | HTTPError => "HTTPError" | OSError => "OSError" | HTTPException _ => "HTTPException"
  | ProtectionPolicyUnavailable => "ProtectionPolicyUnavailable" | DeviceBusy => "DeviceBusy" | DatabaseError => "DatabaseError"
  | OtherException => "OtherException" | Cancelled => "CancelledError"
  end.
Definition exn_name (e : exn) : string :=
  match e with Fault f => type_name f | ZoneChangeError _ _ _ => "ZoneChangeError" | ZoneCreationError _ _ _ _ _ => "ZoneCreationError" end.

(** A request: the response, the error of the transport, and whether that error means
    that the request was refused rather than that its answer was lost. *)
Definition answered {S} (m : ST S exn string) : ST S exn (string * string * bool) :=
  try_except (response ← m; mret (response, "", false))
    (fun e => match e with
              | Fault TransportError => mret ("", "TransportError", false)
              | Fault OSError => mret ("", "OSError", false)
              | _ => if caught e then mret ("", exn_name e, true) else raise e end).

Definition send (f : frozen) (xml : string) : M (string * string * bool) :=
  answered (c ← make_client v (z_master f); post v c "/setZone" xml).

(** ** The readback *)
Inductive observation : Type :=
| Seen (z : Zone) (ok : bool)
| Unseen (error : string).
Definition obs_ok (o : observation) : bool := match o with Seen _ ok => ok | Unseen _ => false end.
Definition observations : Type := list (string * observation).

Definition without (x : string) (l : list string) : list string := List.filter (fun y => negb (bool_decide (y = x))) l.

(** The part of a participant in the zone that is wanted. *)
Definition role (ds : nat -> Device) (m : nat) (desired : list string) (ref : nat) (z : Zone) : bool :=
  let leader := py_upper (device_id (ds m)) in
  if bool_decide (device_id (ds ref) = device_id (ds m)) then
    if bool_decide (desired = []) then standalone z (device_id (ds ref))
    else bool_decide (master z = leader) && same_set (without leader (map fst (members z))) desired
  else if bool_decide (py_upper (device_id (ds ref)) ∈ desired) then
    bool_decide (master z = leader) && forallb (fun x => bool_decide (x.1 ∈ desired ++ [leader])) (members z)
  else standalone z (device_id (ds ref)).

Definition observe (f : frozen) (desired : list string) (ref : nat) : M observation :=
  try_except (
    guard_current f ref;;
    '(zone, _) ← read_zone ref;
    of_res (require_selected_scope zone (targets f));;
    ds ← view;
    mret (Seen zone (role ds (z_master f) desired ref zone)))
  (fun e => if caught e then mret (Unseen (exn_name e)) else raise e).

Fixpoint observe_all (f : frozen) (desired : list string) (refs : list nat) (seen : observations) (all_ok : bool) : M (observations * bool) :=
  match refs with
  | [] => mret (seen, all_ok)
  | ref :: refs =>
      o ← observe f desired ref;
      d ← get_device v ref;
      observe_all f desired refs (Settings.set_key (device_id d) o seen) (all_ok && obs_ok o)
  end.

(** [attempts] more rounds; the rows of readback_attempts. *)
Record attempt := { a_number : Z; master_excludes_target : bool; target_is_standalone : bool; all_participants_verified : bool }.

Fixpoint read_back (f : frozen) (desired : list string) (rejected : bool) (attempts : nat) (number : Z) (seen : observations)
    (rows : list attempt) : M (bool * observations * list attempt) :=
  match attempts with
  | O => mret (false, seen, rows)
  | S attempts =>
      pause v (if number =? 1 then 350 else 500);;
      '(seen, all_ok) ← observe_all f desired (participants f) seen true;
      ds ← view;
      let target_ok := match z_remove f with
                       | Some r => match lookup_key (device_id (ds r)) seen with Some o => obs_ok o | None => false end
                       | None => all_ok end in
      match lookup_key (device_id (ds (z_master f))) seen with
      | None => raise (Fault OtherException)                                              (* KeyError *)
      | Some o =>
          let rows := rows ++ [{| a_number := number; master_excludes_target := obs_ok o; target_is_standalone := target_ok;
                                  all_participants_verified := all_ok |}] in
          if all_ok : bool then mret (negb rejected, seen, rows)
          else read_back f desired rejected attempts (number + 1) seen rows
      end
  end.

Record zone_result := {
  verified : bool; response : string; zone_xml : string; r_backup_ref : string; r_remaining : list string;
  readback_attempts : list attempt; verification : observations; transport_error : string
}.

Definition final_record (f : frozen) (job : string) (r : zone_result) : M unit :=
  try_except (
    ds ← view;
    record_action v {| job_id := job; a_device := device_id (ds (z_master f)); a_action := zone_action (z_remove f);
                       phase := if verified r then "VERIFIED" else "READBACK_MISMATCH"; backup_ref := r_backup_ref r;
                       before_sha256 := ""; requested_state := JNull; a_verified := verified r; error_category := transport_error r |};;
    commit_db v)
  (fun e => if caught e then
              rollback_db v;;
              raise (ZoneChangeError "ZONE_FINAL_RECORD_FAILED" true (Readback (verified r) (response r) (zone_xml r) (r_backup_ref r)))
            else raise e).

(** From the durable intent to the answer. *)
Definition write_zone (f : frozen) (before : list (string * list (string * string))) (job ref : string) : M zone_result :=
  zone_errors "ZONE_PRECONDITION_UNAVAILABLE" (for_each (participants f) (unchanged f before));;
  ds ← view;
  let xml := payload ds (z_master f) (remaining f) in
  for_each (participants f) (guard_current f);;
  '(response, transport_error, rejected) ← send f xml;
  ds ← view;
  let desired := map (fun r => py_upper (device_id (ds r))) (remaining f) in
  '(verified, seen, rows) ← read_back f desired rejected 10 1 [] [];
  ds ← view;
  let r := {| verified := verified; response := response; zone_xml := xml; r_backup_ref := ref;
              r_remaining := map (fun r => name (ds r)) (remaining f); readback_attempts := rows; verification := seen;
              transport_error := transport_error |} in
  final_record f job r;;
  if verified : bool then mret r
  else raise (ZoneChangeError "ZONE_READBACK_MISMATCH" true (Readback verified response xml ref)).

(** What happens while the participants are owned. *)
Definition owned_change (f : frozen) : M zone_result :=
  before ← zone_errors "ZONE_BACKUP_UNAVAILABLE" (look f (participants f) []);
  u ← fresh v;
  let job := "zone-" +:+ u in
  let content := string_of (print_reads before) in
  let digest := sha256_hex content in
  '(id, ref) ← save_backup f job content digest;
  check_backup id ref digest;;
  write_zone f before job ref.

Definition change_zone (m : nat) (expected : Zone) (remove : option nat) : M zone_result :=
  participants ← _participants m expected;
  ds ← view;
  f ← of_res (freeze ds m expected remove participants);
  for_each participants (guard_current f);;
  ds ← view;
  device_transaction v (map (fun ref => device_id (ds ref)) participants) (owned_change f).
End Changes.

(** ** zone_creation.py *)

(** [int(text or '')]. *)
Definition volume_of (text : option string) : res fault Z :=
  match py_int (default "" text) with Some n => Ok n | None => Err ValueError end.

Definition READS : list string := ["/info"; "/getZone"; "/volume"; "/rebroadcastlatencymode"].

(** What [_value] returns: the profile of the radio, its zone, or a setting. *)
Inductive seen_value : Type :=
| Profile (key : string)
| Topology (z : Zone)
| Value (x : Settings.value).
#[export] Instance setting_value_eq_dec : EqDecision Settings.value.
Proof. solve_decision. Defined.
#[export] Instance seen_value_eq_dec : EqDecision seen_value.
Proof. solve_decision. Defined.

(** The arguments of a [Creation] and what it derives from them once. *)
Record scope := {
  devices : list (string * nat); c_master : nat; c_targets : list (string * string);
  c_fingerprints : list (string * (string * string * string * string * string)); c_job : string; requested : json
}.

(** Its mutable attributes, with the session it works on. *)
Record creation (W : Type) := {
  sess : session W; attempted : bool; c_backup : string; clients : list (string * client);
  before : list (string * list (string * string)); steps_seen : list (string * Zone * bool);
  observed : list (string * list (string * string))
}.
Arguments sess {W}. Arguments attempted {W}. Arguments c_backup {W}. Arguments clients {W}. Arguments before {W}.
Arguments steps_seen {W}. Arguments observed {W}.

Definition set_sess {W} (s : session W) (c : creation W) := {| sess := s; attempted := attempted c; c_backup := c_backup c;
  clients := clients c; before := before c; steps_seen := steps_seen c; observed := observed c |}.
Definition set_attempted {W} (c : creation W) := {| sess := sess c; attempted := true; c_backup := c_backup c;
  clients := clients c; before := before c; steps_seen := steps_seen c; observed := observed c |}.
Definition set_backup {W} (ref : string) (c : creation W) := {| sess := sess c; attempted := attempted c; c_backup := ref;
  clients := clients c; before := before c; steps_seen := steps_seen c; observed := observed c |}.
Definition add_client {W} (identity : string) (x : client) (c : creation W) := {| sess := sess c; attempted := attempted c; c_backup := c_backup c;
  clients := Settings.set_key identity x (clients c); before := before c; steps_seen := steps_seen c; observed := observed c |}.
Definition add_before {W} (identity : string) (x : list (string * string)) (c : creation W) := {| sess := sess c; attempted := attempted c;
  c_backup := c_backup c; clients := clients c; before := Settings.set_key identity x (before c); steps_seen := steps_seen c; observed := observed c |}.
Definition set_seen {W} (l : list (string * Zone * bool)) (c : creation W) := {| sess := sess c; attempted := attempted c; c_backup := c_backup c;
  clients := clients c; before := before c; steps_seen := l; observed := observed c |}.
Definition set_observed {W} (identity path xml : string) (c : creation W) := {| sess := sess c; attempted := attempted c; c_backup := c_backup c;
  clients := clients c; before := before c; steps_seen := steps_seen c;
  observed := Settings.set_key identity (Settings.set_key path xml (default [] (lookup_key identity (observed c)))) (observed c) |}.

Section Creation.
Context {W : Type} (v : env W) (parse_xml : string -> option element) (fromstring : string -> res fault element).
#[local] Abbreviation M := (ST (creation W) exn).
#[local] Abbreviation parse := (parse fromstring).

(** A statement on the session. *)
Definition on {A} (m : ST (session W) exn A) : M A := fun c => let '(r, s) := m (sess c) in (r, set_sess s c).

Context (z : scope).

Definition fail {A} (code cause : string) : M A := fun c =>
  (Err (ZoneCreationError code (attempted c) (c_backup c) (c_job z) cause), c).

(** [d[k]]: a missing key is a [KeyError]. *)
Definition item {S A} (k : string) (d : list (string * A)) : ST S exn A :=
  match lookup_key k d with Some x => mret x | None => raise (Fault OtherException) end.

Definition guard (identity : string) : M nat :=
  ref ← item identity (devices z);
  on (run_guard v ref);;
  d ← on (get_device v ref);
  if negb (bool_decide (Some (device_fingerprint d) = lookup_key identity (c_fingerprints z)))
  then fail "ZONE_CREATION_TARGET_CHANGED" ""
  else
    owned ← on (gets (fun s => owns v identity (world s)));
    if owned : bool then mret ref else fail "ZONE_CREATION_OWNERSHIP_REQUIRED" "".

(** [_value], with the device and the policy as they are now. *)
Definition value_of (path xml : string) (ref : nat) : ST (session W) exn seen_value :=
  d ← get_device v ref;
  p ← get_policy v;
  root ← lift (fromstring xml);
  if match attr "deviceID" root with Some claimed => negb (bool_decide (upper_id claimed = py_upper (device_id d))) | None => false end
  then raise (Fault IdentityMismatch)
  else if bool_decide (path = "/info") then
    key ← lift (Profiles.verify_settings_identity parse_xml p d xml); mret (Profile key)
  else if bool_decide (path = "/getZone") then
    zone ← lift (parse xml ""); mret (Topology zone)
  else
    x ← lift (root ← Profiles.parsed parse_xml xml; Settings.read_setting (substring 1 (String.length path) path) root);
    if bool_decide (path = "/volume") && negb (match x with Settings.VInt n => (0 <=? n) && (n <=? 100) | _ => false end)
    then raise (Fault ValueError)
    else mret (Value x).

Definition read (identity path : string) : M string :=
  ref ← guard identity;
  c ← gets clients;
  c ← item identity c;
  info ← on (get v c "/info");
  on (value_of "/info" info ref);;
  if bool_decide (path = "/info") then mret info
  else
    result ← on (get v c path);
    (if bool_decide (path ∈ READS) then
       on (value_of path result ref);; modify (set_observed identity path result)
     else mret tt);;
    mret result.

Definition read_topology (identity : string) : M Zone :=
  xml ← read identity "/getZone"; of_res (match parse xml "" with Ok zone => Ok zone | Err f => Err (Fault f) end).

(** [require_selected_scope] with the scope's targets. *)
Definition in_scope (zone : Zone) : M unit := of_res (require_selected_scope zone (c_targets z)).

Definition make_clients : M unit :=
  for_each (devices z) (fun '(identity, ref) =>
    guard identity;; c ← on (make_client v ref); modify (add_client identity c)).

Fixpoint read_paths (identity : string) (paths : list string) (state : list (string * string)) : M (list (string * string)) :=
  match paths with
  | [] => mret state
  | path :: paths => xml ← read identity path; read_paths identity paths (state ++ [(path, xml)])
  end.

Definition back_up_states : M unit :=
  for_each (devices z) (fun '(identity, _) =>
    state ← read_paths identity READS [];
    xml ← item "/getZone" state;
    zone ← of_res (match parse xml "" with Ok zone => Ok zone | Err f => Err (Fault f) end);
    in_scope zone;;
    modify (add_before identity state)).

Definition creation_action (device phase ref digest : string) (requested : json) (category : string) (verified : bool) : action :=
  {| job_id := c_job z; a_device := device; a_action := "multiroom_create"; phase := phase; backup_ref := ref;
     before_sha256 := digest; requested_state := requested; a_verified := verified; error_category := category |}.

Definition save_states (digest content : string) : M Z :=
  d ← on (get_device v (c_master z));
  id ← on (add v (ConfigBackup (device_id d) (c_job z +:+ "/before.json") content));
  modify (set_backup (ref_text id));;
  d ← on (get_device v (c_master z));
  on (record_action v (creation_action (device_id d) "ZONE_CREATION_INTENT" (ref_text id) digest (requested z) "" false));;
  on (commit_db v);;
  mret id.

Definition recheck_states : M unit :=
  for_each (devices z) (fun '(identity, ref) =>
    for_each READS (fun path =>
      current ← read identity path;
      states ← gets before;
      state ← item identity states;
      was ← item path state;
      now ← on (value_of path current ref);
      then_ ← on (value_of path was ref);
      if bool_decide (now = then_) then mret tt else fail "ZONE_CREATION_PRECONDITION_CHANGED" "")).

Definition prepare : M unit :=
  make_clients;;
  back_up_states;;
  states ← gets before;
  let content := string_of (print_dict print_reads [("devices", states)]) in
  let digest := sha256_hex content in
  id ← save_states digest content;
  stored ← on (read_backup v id);
  (if match stored with Some content => bool_decide (sha256_hex content = digest) | None => false end
   then mret tt else fail "ZONE_CREATION_BACKUP_INTEGRITY" "");;
  recheck_states.

(** *** A verified write *)
Definition keys_upper : list string := map (fun x => py_upper x.1) (devices z).

Fixpoint match_participants (expected : Zone) (desired : list string) (l : list (string * nat)) (all_ok : bool) : M bool :=
  match l with
  | [] => mret all_ok
  | (identity, _) :: l =>
      actual ← read_topology identity;
      let ok := bool_decide (master actual = master expected) && is_ok (require_selected_scope actual (c_targets z)) in
      let ok := if bool_decide (py_upper identity = master expected)
                then ok && same_set (without (master expected) (map fst (members actual))) desired else ok in
      seen ← gets steps_seen;
      modify (set_seen (seen ++ [(identity, actual, ok)]));;
      match_participants expected desired l (all_ok && ok)
  end.

Definition zone_matches (expected : Zone) : M bool :=
  d ← on (get_device v (c_master z));
  if negb (bool_decide (master expected = py_upper (device_id d))) then fail "ZONE_CREATION_COORDINATOR_CHANGED" ""
  else
    let desired := without (master expected) keys_upper in
    if negb (same_set (map fst (members expected)) desired) then fail "ZONE_CREATION_TARGET_SET_CHANGED" ""
    else modify (set_seen []);; match_participants expected desired (devices z) true.

(** What a planned request wants the radio to say afterwards. *)
Definition planned (ref : nat) (identity path xml : string) : M seen_value :=
  request ← on (lift (fromstring xml));
  if bool_decide (path = "/setZone") then
    zone ← on (lift (parse xml ""));
    in_scope zone;;
    d ← on (get_device v (c_master z));
    if negb (bool_decide (identity = device_id d)) then fail "ZONE_CREATION_WRONG_COORDINATOR" ""
    else
      let wanted := without (py_upper (device_id d)) keys_upper in
      if negb (bool_decide (master zone = py_upper (device_id d))) || negb (same_set (map fst (members zone)) wanted)
      then fail "ZONE_CREATION_TARGET_SET_CHANGED" ""
      else mret (Topology zone)
  else if bool_decide (path = "/volume") && has_tag "volume" request then
    n ← on (lift (volume_of (text request)));
    if negb ((0 <=? n) && (n <=? 100)) then fail "ZONE_CREATION_INVALID_VOLUME" "" else mret (Value (Settings.VInt n))
  else if bool_decide (path = "/rebroadcastlatencymode") then on (value_of path xml ref)
  else fail "ZONE_CREATION_UNPLANNED_WRITE" "".

Definition write_intent (identity path xml : string) : M unit :=
  backup ← gets c_backup;
  on (record_action v (creation_action identity "ZONE_CREATION_WRITE_INTENT" backup ""
                         (JObj [("path", JStr path); ("xml", JStr xml)]) "" false));;
  on (commit_db v).

Definition matches (ref : nat) (identity path : string) (expected : seen_value) : M bool :=
  match expected with
  | Topology zone => if bool_decide (path = "/setZone") then zone_matches zone else mret false
  | _ => xml ← read identity path; x ← on (value_of path xml ref); mret (bool_decide (x = expected))
  end.

(** Only the reads are retried, never the request. *)
Fixpoint confirm (ref : nat) (identity path : string) (expected : seen_value) (attempts : nat) : M bool :=
  matched ← try_except (matches ref identity path expected)
    (fun e => match e with
              | Fault TransportError => mret false
              | Fault OSError => mret false
              | _ => raise e end);
  if matched : bool then mret true
  else match attempts with
       | O => mret false
       | S attempts => on (pause v 200);; confirm ref identity path expected attempts
       end.

Definition step_verified (identity path error : string) : M unit :=
  backup ← gets c_backup;
  on (record_action v (creation_action identity "ZONE_CREATION_STEP_VERIFIED" backup "" (JObj [("path", JStr path)]) error true));;
  on (commit_db v).

Definition post_xml (identity path xml : string) : M string :=
  ref ← guard identity;
  expected ← planned ref identity path xml;
  for_each (devices z) (fun '(participant, _) => current ← read_topology participant; in_scope current);;
  write_intent identity path xml;;
  for_each (devices z) (fun '(participant, _) => _ ← guard participant; mret tt);;
  read identity "/info";;
  modify set_attempted;;
  '(response, error, rejected) ← answered (c ← gets clients; c ← item identity c; on (post v c path xml));
  matched ← confirm ref identity path expected 3;
  if negb matched || rejected then fail "ZONE_CREATION_READBACK_MISMATCH" ""
  else
    step_verified identity path error;;
    mret response.

Definition record_failure (e : exn) : M unit :=
  on (rollback_db v);;
  try_except (
    d ← on (get_device v (c_master z));
    a ← gets attempted;
    backup ← gets c_backup;
    on (record_action v (creation_action (device_id d) (if a : bool then "ZONE_CREATION_DIVERGED" else "ZONE_CREATION_BLOCKED") backup ""
                           JNull (exn_name e) false));;
    on (commit_db v))
  (fun x => if caught x then on (rollback_db v) else raise x).
End Creation.

(** *** The programs that run inside the scope *)
Inductive orchestration (A : Type) : Type :=
| Return (a : A)
| Raise (e : exn)
| GetXml (identity path : string) (k : res exn string -> orchestration A)
| PostXml (identity path xml : string) (k : res exn string -> orchestration A)
| Sleep (ms : Z) (k : res exn unit -> orchestration A).
Arguments Return {A}. Arguments Raise {A}. Arguments GetXml {A}. Arguments PostXml {A}. Arguments Sleep {A}.

Section Scope.
Context {W : Type} (v : env W) (parse_xml : string -> option element) (fromstring : string -> res fault element).
#[local] Abbreviation M := (ST (creation W) exn).

(** [creation_client(device, client)]: only selected radios have one. *)
Definition checked {A} (z : scope) (identity : string) (m : M A) : M A :=
  if is_some (lookup_key identity (devices z)) then m else fail z "ZONE_CREATION_UNSELECTED_TARGET" "".

Definition attempt_of {S A} (m : ST S exn A) : ST S exn (res exn A) := fun s => let '(r, s') := m s in (Ok r, s').

Fixpoint perform {A} (z : scope) (o : orchestration A) : M A :=
  match o with
  | Return a => mret a
  | Raise e => raise e
  | GetXml identity path k => r ← attempt_of (checked z identity (read v parse_xml fromstring z identity path)); perform z (k r)
  | PostXml identity path xml k => r ← attempt_of (checked z identity (post_xml v parse_xml fromstring z identity path xml)); perform z (k r)
  | Sleep ms k => r ← attempt_of (on (pause v ms)); perform z (k r)
  end.

Definition start (ds : nat -> Device) (refs : list nat) (job : string) (requested : json) : scope := {|
  devices := map (fun ref => (device_id (ds ref), ref)) refs; c_master := default 0%nat (head refs);
  c_targets := map (fun ref => (device_id (ds ref), ip_address (ds ref))) refs;
  c_fingerprints := map (fun ref => (device_id (ds ref), device_fingerprint (ds ref))) refs;
  c_job := "zone-create-" +:+ job; requested := requested |}.

(** The failure is recorded and, but for the scope's own errors and cancellation, wrapped. *)
Definition failing {A} (z : scope) (code : string) (every : bool) (m : M A) : M A :=
  try_except m (fun e =>
    if every || caught e then
      record_failure v z e;;
      match e with
      | ZoneCreationError _ _ _ _ _ => raise e
      | _ => if caught e then fail z code (exn_name e) else raise e
      end
    else raise e).

(** A [Creation] is a new object of its scope. *)
Definition within {A} (m : M A) : ST (session W) exn A := fun s =>
  let '(r, c) := m {| sess := s; attempted := false; c_backup := ""; clients := []; before := []; steps_seen := []; observed := [] |} in
  (r, sess c).

(** [active]: another creation is under way in this context. *)
Definition creation_scope {A} (active : bool) (refs : list nat) (requested : json) (body : scope -> orchestration A) : ST (session W) exn A :=
  for_each refs (run_guard v);;
  ds ← view v;
  if bool_decide (refs = []) || negb (distinct (map (fun ref => device_id (ds ref)) refs)) || active
  then raise (ZoneCreationError "ZONE_CREATION_INVALID_SCOPE" false "" "" "")
  else
    u ← fresh v;
    let z := start ds refs u requested in
    within (
      failing z "ZONE_CREATION_PREFLIGHT_FAILED" false (prepare v parse_xml fromstring z);;
      failing z "ZONE_CREATION_FAILED" true (perform z (body z))).
End Scope.


(** ** Proofs about changes *)
#[local] Opaque sha256_hex.
Section ChangeFacts.
Context {W : Type} (v : env W) (parse_xml : string -> option element) (fromstring : string -> res fault element).
Abbreviation zparse := (parse fromstring).

Lemma lasting_elem (e : event) : lasting (fun l => e ∈ l).
Proof. intros l1 l l2 H. rewrite !elem_of_app. auto. Qed.

(** *** What stays silent *)
Lemma silent_verify ref x : steps_in silent (verify v parse_xml ref x).
Proof. unfold verify. steps. Qed.
#[local] Hint Resolve silent_verify : py.
Lemma silent_read_zone ref : steps_in silent (read_zone v parse_xml fromstring ref).
Proof. unfold read_zone. steps. Qed.
Lemma silent_guard_current f ref : steps_in silent (guard_current v f ref).
Proof. unfold guard_current. steps. Qed.
#[local] Hint Resolve silent_read_zone silent_guard_current : py.
Lemma silent_participants m e : steps_in silent (_participants v m e).
Proof. unfold _participants, view. steps. Qed.
Lemma silent_look f refs before : steps_in silent (look v parse_xml fromstring f refs before).
Proof. revert before. induction refs as [|ref refs IH]; intros before; cbn [look]; unfold view; steps. Qed.
Lemma silent_unchanged f before ref : steps_in silent (unchanged v parse_xml fromstring f before ref).
Proof. unfold unchanged. steps. Qed.
Lemma silent_observe f desired ref : steps_in silent (observe v parse_xml fromstring f desired ref).
Proof. unfold observe, view. steps. Qed.
#[local] Hint Resolve silent_observe silent_unchanged silent_look silent_participants : py.
Lemma silent_observe_all f desired refs seen ok : steps_in silent (observe_all v parse_xml fromstring f desired refs seen ok).
Proof. revert seen ok. induction refs as [|ref refs IH]; intros seen ok; cbn [observe_all]; steps. Qed.
#[local] Hint Resolve silent_observe_all : py.
Lemma silent_read_back f desired rejected n number seen rows :
  steps_in silent (read_back v parse_xml fromstring f desired rejected n number seen rows).
Proof. revert number seen rows. induction n as [|n IH]; intros number seen rows; cbn [read_back]; unfold view; steps. Qed.
Lemma silent_check_backup id ref digest : steps_in silent (check_backup v id ref digest).
Proof. unfold check_backup. steps. Qed.
Lemma calm_final_record f job r : steps_in calm (final_record v f job r).
Proof. unfold final_record, view. steps. Qed.

(** *** What refuses before a request was made *)
Definition blocked (e : exn) : Prop := match e with ZoneChangeError _ a _ => a = false | _ => True end.
Lemma blocked_fault f : blocked (fault_in f).
Proof. done. Qed.
#[local] Hint Resolve blocked_fault : py.

Lemma blocked_verify ref x : raises_in blocked (verify v parse_xml ref x).
Proof. unfold verify. raising. Qed.
#[local] Hint Resolve blocked_verify : py.
Lemma blocked_read_zone ref : raises_in blocked (read_zone v parse_xml fromstring ref).
Proof. unfold read_zone. raising. Qed.
Lemma blocked_guard_current f ref : raises_in blocked (guard_current v f ref).
Proof. unfold guard_current. raising. all: done. Qed.
#[local] Hint Resolve blocked_read_zone blocked_guard_current : py.

Lemma blocked_scope z t : match require_selected_scope z t with Ok _ => True | Err e => blocked e end.
Proof. unfold require_selected_scope. repeat case_match; simplify_eq; done. Qed.
Lemma blocked_of_res {S A} (r : res exn A) : match r with Ok _ => True | Err e => blocked e end -> raises_in blocked (of_res r : ST S exn A).
Proof. intros H s. exact H. Qed.
Lemma blocked_in_scope {S} z t : raises_in blocked (of_res (require_selected_scope z t) : ST S exn unit).
Proof. apply blocked_of_res, blocked_scope. Qed.
#[local] Hint Resolve blocked_in_scope : py.

Lemma blocked_joining ds known l acc : match joining ds known l acc with Ok _ => True | Err e => blocked e end.
Proof. revert acc. induction l as [|[id ip] l IH]; intros acc; [done|]. cbn [joining]. destruct (lookup_key id known); [|done]. destruct (_ && _); [done|apply IH]. Qed.
Lemma blocked_freeze ds m e r ps : match freeze ds m e r ps with Ok _ => True | Err e => blocked e end.
Proof. unfold freeze. destruct (match r with Some _ => _ | None => _ end); [done|]. by destruct (match r with Some _ => _ | None => _ end). Qed.
Lemma blocked_participants m e : raises_in blocked (_participants v m e).
Proof. unfold _participants, view. raising. all: first [done|apply blocked_of_res, blocked_joining]. Qed.
Lemma blocked_look f refs before : raises_in blocked (look v parse_xml fromstring f refs before).
Proof. revert before. induction refs as [|ref refs IH]; intros before; cbn [look]; unfold view; raising. all: done. Qed.
Lemma blocked_unchanged f before ref : raises_in blocked (unchanged v parse_xml fromstring f before ref).
Proof. unfold unchanged. raising. all: done. Qed.
Lemma blocked_zone_errors {S A} code (m : ST S exn A) : raises_in blocked m -> raises_in blocked (zone_errors code m).
Proof.
  intros H. unfold zone_errors. eapply raises_in_handled; [exact H|]. intros e He. destruct e; raising; done.
Qed.
Lemma blocked_save_backup f job content digest : raises_in blocked (save_backup v f job content digest).
Proof. unfold save_backup, view. raising. Qed.
Lemma blocked_check_backup id ref digest : raises_in blocked (check_backup v id ref digest).
Proof. unfold check_backup. raising. all: done. Qed.
#[local] Hint Resolve blocked_participants blocked_look blocked_unchanged blocked_zone_errors blocked_save_backup blocked_check_backup : py.

Lemma zone_errors_adds p {A} code (m : ST (session W) exn A) : steps_in (adds p) m -> steps_in (adds p) (zone_errors code m).
Proof. intros H. unfold zone_errors. steps. Qed.
(** A step of a change before its request: silent, and what it establishes on return. *)
Definition before_post {A} (m : ST (session W) exn A) (s : session W) (Q : list event -> A -> Prop) : Prop :=
  told log m s (fun l r _ => forallb quiet l = true /\ match r with Ok a => Q l a | Err e => blocked e end).

Lemma before_post_intro {A} (m : ST (session W) exn A) s (Q : list event -> A -> Prop) :
  told log m s (fun l r _ => match r with Ok a => Q l a | Err _ => True end) ->
  steps_in silent m -> raises_in blocked m -> before_post m s Q.
Proof.
  intros H1 H2 H3. pose proof (told_both _ _ _ _ _ H1 (told_adds _ _ s H2)) as (l & L & H & K).
  exists l. split; [done|]. split; [done|]. specialize (H3 s). by destruct (m s).1.
Qed.

Lemma before_post_zone_errors {A} code (m : ST (session W) exn A) s (Q : list event -> A -> Prop) :
  before_post m s Q -> before_post (zone_errors code m) s Q.
Proof.
  intros H. unfold before_post, zone_errors. eapply told_try; [exact H|done|]. intros e l1 s1 [K He]. cbn in He.
  destruct e as [f| |]; [destruct (is_exception f)| |]; apply told_raise; rewrite app_nil_r; done.
Qed.

(** *** What a look establishes *)

(** The identity of the radio was verified, and then it told its zone. *)
Definition topology (l : list event) (ref : nat) (z : Zone) : Prop :=
  exists c info xml w w', c_device c = ref /\ Got c "/info" (Ok info) ∈ l /\ Got c "/getZone" (Ok xml) ∈ l
    /\ is_ok (Profiles.verify_settings_identity parse_xml (policy v w) (device v ref w) info) = true
    /\ zparse xml (device_id (device v ref w')) = Ok z.

Lemma lasting_topology ref z : lasting (fun l => topology l ref z).
Proof.
  intros l1 l l2 (c & info & xml & w & w' & Hc & H1 & H2 & H3 & H4). exists c, info, xml, w, w'. rewrite !elem_of_app. auto 10.
Qed.

Lemma told_verify ref x s :
  told log (verify v parse_xml ref x) s (fun l r s' => l = [] /\ s' = s /\ match r with
    | Ok _ => is_ok (Profiles.verify_settings_identity parse_xml (policy v (world s)) (device v ref (world s)) x) = true
    | Err _ => True end).
Proof.
  unfold verify, told, mbind, st_bind, get_device, get_policy, gets, lift.
  destruct (Profiles.verify_settings_identity _ _ _ x) as [k|f]; exists []; rewrite app_nil_r; done.
Qed.

Lemma told_read_zone ref s :
  told log (read_zone v parse_xml fromstring ref) s (fun l r _ => match r with
    | Ok (z, reads) => topology l ref z /\ exists xml w, lookup_key "/getZone" reads = Some xml /\ zparse xml (device_id (device v ref w)) = Ok z
    | Err _ => True end).
Proof.
  unfold read_zone. eapply told_bind_now; [reflexivity|].
  eapply told_bind_now; [reflexivity|].
  eapply told_bind; [apply told_lift|done|]. intros [] l1 s1 (-> & _ & ->).
  eapply told_bind; [apply told_make_client|done|]. intros c l1 s1 (-> & Hc).
  eapply told_bind; [apply told_get|done|]. intros info l1 s2 ([a|] & -> & [= <-]).
  eapply told_bind; [apply told_verify|done|]. intros [] l1 s3 (-> & -> & Hv).
  eapply told_bind; [apply told_get|done|]. intros xml l1 s4 ([a|] & -> & [= <-]).
  eapply told_bind_now; [reflexivity|].
  eapply told_bind; [apply told_lift|done|]. intros z l1 s5 (-> & Hz & ->). apply told_ret.
  destruct (zparse xml _) as [z'|] eqn:E; [|done]. injection Hz as <-. split; [|eexists _, _; split; [reflexivity|exact E]].
  exists c, info, xml, (world s2), (world s4). split; [done|]. cbn. split; [left|]. split; [right; left|]. done.
Qed.

Lemma told_guard_current f ref s :
  told log (guard_current v f ref) s (fun l r _ => match r with Ok _ => Guarded ref ∈ l | Err _ => True end).
Proof.
  unfold guard_current. eapply told_bind; [apply told_run_guard|done|]. intros [] l1 s1 ->.
  eapply told_bind_now; [reflexivity|].
  case_match; [apply told_ret|apply told_raise; done]. left.
Qed.

(** A zone that the caller of a change may expect of the radio [id]: it stays among the
    participants, it is the expected zone if the radio leads, and it is led by the master
    or is no zone. *)
Definition fits_change (f : frozen) (w : W) (id : string) (z : Zone) : Prop :=
  let leader := device_id (device v (z_master f) w) in
  require_selected_scope z (targets f) = Ok tt /\ (id = leader -> z = expected f)
  /\ (master z = py_upper leader \/ standalone z id = true).

Lemma parse_any_device xml id z : zparse xml id = Ok z -> zparse xml "" = Ok z.
Proof.
  unfold parse. destruct (fromstring xml) as [root|e]; [|done]. cbn [mbind res_bind]. destruct (negb (has_tag "zone" root)); [done|].
  destruct (_ && _); done.
Qed.

(** What the first look keeps for the backup. *)
Definition kept (f : frozen) (before : list (string * list (string * string))) : Prop :=
  forall id reads, lookup_key id before = Some reads ->
  exists w xml z, lookup_key "/getZone" reads = Some xml /\ zparse xml "" = Ok z /\ fits_change f w id z.

Lemma lookup_set_key {A} k (x : A) d k' :
  lookup_key k' (Settings.set_key k x d) = if bool_decide (k = k') then Some x else lookup_key k' d.
Proof.
  induction d as [|[y u] d IH]; cbn; [done|]. repeat case_bool_decide; subst; cbn; repeat case_bool_decide; subst; try done.
  all: rewrite IH; case_bool_decide; done.
Qed.

Lemma told_look f refs before s :
  kept f before -> told log (look v parse_xml fromstring f refs before) s (fun l r _ => match r with Ok before' => kept f before' | Err _ => True end).
Proof.
  revert before s. induction refs as [|ref refs IH]; intros before s Hk; cbn [look]; [by apply told_ret|].
  eapply told_bind; [apply told_guard_current|done|]. intros [] l1 s1 _.
  eapply told_bind; [apply told_read_zone|done|]. intros [z reads] l2 s2 (_ & xml & w & Hx & Hz).
  eapply told_bind_now; [reflexivity|].
  eapply told_bind; [apply told_of_res_now|done|]. intros [] l4 s4 (-> & Hs & ->).
  destruct (_ && _) eqn:E1; [by apply told_raise|]. destruct (negb _ && _) eqn:E2; [by apply told_raise|]. apply IH.
  intros id rds. rewrite lookup_set_key. destruct (decide (device_id (device v ref (world s2)) = id)) as [Hid|Hid];
    [rewrite bool_decide_true by done|rewrite bool_decide_false by done; exact (Hk id rds)]. intros [= <-].
  exists (world s2), xml, z. split; [done|]. split; [by eapply parse_any_device|]. subst id. split; [done|]. split.
  - intros Hl. rewrite bool_decide_true in E1 by done. cbn in E1. by apply negb_false_iff, bool_decide_eq_true in E1.
  - apply andb_false_iff in E2 as [E2|E2]; apply negb_false_iff in E2; [left; by apply bool_decide_eq_true in E2|by right].
Qed.

(** The zone that the backup [before] has of a radio. *)
Definition backed_zone (before : list (string * list (string * string))) (id : string) (z : Zone) : Prop :=
  exists reads xml, lookup_key id before = Some reads /\ lookup_key "/getZone" reads = Some xml /\ zparse xml "" = Ok z.

(** Ready for the request: the guard let it pass, and the radio proved its identity and
    showed the zone that the backup has of it, which fits the change. *)
Definition ready (f : frozen) (before : list (string * list (string * string))) (l : list event) (ref : nat) : Prop :=
  Guarded ref ∈ l /\ exists z w w', topology l ref z /\ fits_change f w (device_id (device v ref w')) z
    /\ backed_zone before (device_id (device v ref w')) z.

Lemma lasting_ready f before ref : lasting (fun l => ready f before l ref).
Proof.
  intros l1 l l2 (Hg & z & w & w' & Ht & Hf). split; [by apply (lasting_elem (Guarded ref))|].
  exists z, w, w'. split; [|done]. by apply (lasting_topology ref z).
Qed.

Lemma told_unchanged f before ref s :
  kept f before -> told log (unchanged v parse_xml fromstring f before ref) s (fun l r _ => match r with Ok _ => ready f before l ref | Err _ => True end).
Proof.
  intros Hk. unfold unchanged. eapply told_bind; [apply told_guard_current|done|]. intros [] l1 s1 Hg.
  eapply told_bind; [apply told_read_zone|done|]. intros [z reads] l2 s2 (Ht & _).
  eapply told_bind_now; [reflexivity|].
  destruct (lookup_key (device_id _) before) as [rds|] eqn:E; cbn [mbind option_bind]; [|by apply told_raise].
  destruct (Hk _ _ E) as (w & xml & z' & Hx & Hz & Hf). rewrite Hx.
  eapply told_bind; [apply told_lift|done|]. intros was l4 s4 (-> & Hw & ->). rewrite Hz in Hw. injection Hw as <-.
  case_bool_decide as Heq; [apply told_ret|by apply told_raise]. cbn. rewrite !app_nil_r. split.
  - apply elem_of_app. by left.
  - exists z, w, (world s2). split; [|rewrite Heq; split; [done|by exists rds, xml]]. specialize (lasting_topology ref z l1 l2 [] Ht). by rewrite app_nil_r.
Qed.

(** *** What follows the request *)
Definition in_role (f : frozen) (desired : list string) (l : list event) (ref : nat) : Prop :=
  exists z w, topology l ref z /\ require_selected_scope z (targets f) = Ok tt
    /\ role (fun r => device v r w) (z_master f) desired ref z = true.

Lemma lasting_in_role f desired ref : lasting (fun l => in_role f desired l ref).
Proof. intros l1 l l2 (z & w & Ht & H). exists z, w. split; [by apply (lasting_topology ref z)|done]. Qed.

Lemma told_observe f desired ref s :
  told log (observe v parse_xml fromstring f desired ref) s (fun l r _ => match r with Ok o => obs_ok o = true -> in_role f desired l ref | Err _ => True end).
Proof.
  unfold observe. eapply (told_try log _ _ _ (fun l r _ => match r with Ok o => obs_ok o = true -> in_role f desired l ref | Err _ => True end)); [|done|].
  - eapply told_bind; [apply told_guard_current|done|]. intros [] l1 s1 Hg.
    eapply told_bind; [apply told_read_zone|done|]. intros [z reads] l2 s2 (Ht & _).
    eapply told_bind; [apply told_of_res_now|done|].
    intros [] l4 s4 (-> & Hs & ->).
    eapply told_bind_now; [reflexivity|]. apply told_ret. cbn. intros Hr. exists z, (world s2). split; [|done].
    rewrite app_nil_r. specialize (lasting_topology ref z l1 l2 [] Ht). by rewrite app_nil_r.
  - intros e l1 s1 _. destruct (caught e); [by apply told_ret|by apply told_raise].
Qed.

Lemma told_observe_all f desired refs seen ok s :
  told log (observe_all v parse_xml fromstring f desired refs seen ok) s
    (fun l r _ => match r with Ok (_, all_ok) => all_ok = true -> ok = true /\ forall ref, ref ∈ refs -> in_role f desired l ref | Err _ => True end).
Proof.
  revert seen ok s. induction refs as [|ref refs IH]; intros seen ok s; cbn [observe_all].
  { apply told_ret. intros ->. split; [done|]. by intros r ?%elem_of_nil. }
  eapply told_bind; [apply told_observe|done|]. intros o l1 s1 Ho. cbn in Ho.
  eapply told_bind_now; [reflexivity|].
  eapply told_weaken; [apply IH|]. intros l r s' H. destruct r as [[sn all_ok]|e]; [|done]. intros Ha. destruct (H Ha) as [Hok Hr].
  apply andb_true_iff in Hok as [-> Hoo]. split; [done|]. intros x [->|Hx]%elem_of_cons.
  - by apply (lasting_in_role f desired ref []), Ho.
  - specialize (lasting_in_role f desired x l1 l [] (Hr x Hx)). by rewrite app_nil_r.
Qed.

Lemma told_read_back f desired rejected n number seen rows s :
  told log (read_back v parse_xml fromstring f desired rejected n number seen rows) s
    (fun l r _ => match r with Ok (ok, _, _) => ok = true -> rejected = false /\ forall ref, ref ∈ participants f -> in_role f desired l ref | Err _ => True end).
Proof.
  revert number seen rows s. induction n as [|n IH]; intros number seen rows s; cbn [read_back]; [by apply told_ret|].
  eapply told_bind; [apply (told_adds looks), adds_ask|done|]. intros [] l1 s1 _.
  eapply told_bind; [apply told_observe_all|done|]. intros [sn all_ok] l2 s2 H2. cbn in H2.
  eapply told_bind_now; [reflexivity|].
  destruct (lookup_key _ sn) as [o|]; [|by apply told_raise]. destruct all_ok.
  - apply told_ret. intros Hr%negb_true_iff. split; [done|]. intros ref Href. destruct (H2 eq_refl) as [_ Hin]. rewrite app_nil_r.
    specialize (lasting_in_role f desired ref l1 l2 [] (Hin ref Href)). by rewrite app_nil_r.
  - eapply told_weaken; [apply IH|]. intros l r s' H. destruct r as [[[ok sn'] rows']|e]; [|done]. intros Hok.
    destruct (H Hok) as [Hr Hin]. split; [done|]. intros ref Href. cbn. rewrite app_assoc.
    specialize (lasting_in_role f desired ref (l1 ++ l2) l [] (Hin ref Href)). by rewrite app_nil_r.
Qed.

(** *** The whole change *)
Definition names (w : W) (ref : nat) (id : string) : Prop := py_upper (device_id (device v ref w)) = id.

(** The participants are the master and every member of the expected zone. *)
Definition covers (m : nat) (z : Zone) (refs : list nat) : Prop :=
  exists w, forall id, names w m id \/ id ∈ map fst (members z) -> exists ref, ref ∈ refs /\ names w ref id.

Lemma joining_covers (P : nat -> string -> Prop) ds known l acc acc' :
  (forall k ref, lookup_key k known = Some ref -> P ref k) -> (forall k ref, lookup_key k acc = Some ref -> P ref k) ->
  joining ds known l acc = Ok acc' ->
  (forall k ref, lookup_key k acc' = Some ref -> P ref k)
  /\ forall k, (is_some (lookup_key k acc) = true \/ k ∈ map fst l) -> is_some (lookup_key k acc') = true.
Proof.
  intros Hk. revert acc. induction l as [|[id ip] l IH]; intros acc Ha; cbn [joining].
  - intros [= <-]. split; [done|]. intros k [H|H%elem_of_nil]; done.
  - destruct (lookup_key id known) as [ref|] eqn:E; [|done]. destruct (_ && _); [done|]. intros H. apply IH in H as [H1 H2].
    + split; [done|]. intros k Hc. apply H2. rewrite lookup_set_key. cbn in Hc. destruct (decide (id = k)) as [->|Hne].
      * left. by rewrite bool_decide_true.
      * rewrite bool_decide_false by done. destruct Hc as [Hc|[Hc|Hc]%elem_of_cons]; [by left|congruence|by right].
    + intros k ref'. rewrite lookup_set_key. case_bool_decide as Hne; [|apply Ha]. intros [= <-]. subst. by apply Hk.
Qed.

Lemma lookup_key_map {A} (g : A -> string) l k ref :
  lookup_key k (map (fun x => (g x, x)) l) = Some ref -> g ref = k.
Proof. intros H%lookup_key_elem. apply list_elem_of_In, in_map_iff in H as (x & [= <- <-] & _). done. Qed.

Lemma told_participants m z s :
  told log (_participants v m z) s (fun l r _ => match r with Ok refs => covers m z refs | Err _ => True end).
Proof.
  unfold _participants. eapply told_bind_now; [reflexivity|].
  case_match; [by apply told_raise|].
  eapply told_bind; [apply (told_adds looks), adds_ask|done|]. intros all l1 s1 _.
  eapply told_bind_now; [reflexivity|].
  eapply told_bind; [apply told_of_res_now|done|]. intros found l3 s3 (-> & Hj & ->). apply told_ret. symmetry in Hj.
  apply (joining_covers (fun ref k => names (world s1) ref k)) in Hj as [H1 H2].
  - exists (world s1). intros id Hid.
    assert (is_some (lookup_key id found) = true) as Hs.
    { apply H2. destruct Hid as [Hid|Hid]; [left|by right]. cbn. by rewrite bool_decide_true. }
    destruct (lookup_key id found) as [ref|] eqn:E; [|done]. exists ref. split; [|by apply H1].
    apply lookup_key_elem in E. by apply (list_elem_of_fmap_2 snd) in E.
  - intros k ref. rewrite <- map_rev. apply lookup_key_map.
  - intros k ref. cbn. destruct (decide (py_upper (device_id (device v m (world s1))) = k)); [rewrite bool_decide_true by done; by intros [= <-]|by rewrite bool_decide_false by done].
Qed.

(** The one request of a change. *)
Definition request (f : frozen) (req : list event) : Prop :=
  req = [] \/ exists c a w, c_device c = z_master f
    /\ req = [Posted c "/setZone" (payload (fun ref => device v ref w) (z_master f) (remaining f)) a].

Definition faulty {A} (r : res exn A) : Prop := match r with Ok _ => True | Err e => exists x, e = Fault x end.

Lemma told_send f xml s :
  told log (send v f xml) s (fun l r _ => (l = [] \/ exists c a, c_device c = z_master f /\ l = [Posted c "/setZone" xml a]) /\ faulty r).
Proof.
  set (P := fun l => l = [] \/ exists c a, c_device c = z_master f /\ l = [Posted c "/setZone" xml a]).
  unfold send, answered. eapply (told_try log _ _ _ (fun l r _ => P l /\ faulty r)).
  - eapply (told_bind log _ _ _ (fun l r _ => P l /\ faulty r)).
    + eapply told_bind; [apply told_make_client|intros e l s1 [-> H]; split; [by left|exact H]|].
      intros c l1 s1 [-> Hc]. eapply told_weaken; [apply told_post|]. intros l r s' (a & -> & ->).
      split; [by right; exists c, a|]. destruct a as [|x]; [done|]. by exists x.
    + done.
    + intros a l1 s1 [H _]. apply told_ret. rewrite app_nil_r. done.
  - done.
  - intros e l1 s1 [H [x ->]]. destruct x; cbn; first [apply told_ret|apply told_raise]; rewrite app_nil_r; (split; [exact H|]); cbn; eauto.
Qed.

Lemma told_final_record f job r s :
  told log (final_record v f job r) s (fun l o _ => forallb looks l = true
    /\ match o with Err (ZoneChangeError _ a _) => a = true | _ => True end).
Proof.
  destruct (calm_final_record f job r s) as (l & L & K). exists l. split; [done|]. split; [done|]. clear L K l.
  unfold final_record, try_except. match goal with |- context [match ?x with _ => _ end] => destruct x as [[[]|e] s1] end; [done|]. destruct (caught e) eqn:Hc; [done|]. by destruct e.
Qed.

Lemma faults_observe_all f desired refs seen ok :
  raises_in (fun e => exists x, e = Fault x) (observe_all v parse_xml fromstring f desired refs seen ok).
Proof.
  revert seen ok. induction refs as [|ref refs IH]; intros seen ok; cbn [observe_all]; [raising|].
  apply raises_in_bind; [|intros o; raising]. unfold observe. apply raises_in_try. intros e. destruct (caught e) eqn:Hc; [raising|].
  apply raises_in_raise. destruct e as [x| |]; [by exists x|done..].
Qed.
Lemma faults_read_back f desired rejected n number seen rows :
  raises_in (fun e => exists x, e = Fault x) (read_back v parse_xml fromstring f desired rejected n number seen rows).
Proof.
  revert number seen rows. induction n as [|n IH]; intros number seen rows; cbn [read_back]; [raising|].
  apply raises_in_bind; [apply faults_ask; intros x; by exists x|]. intros _.
  apply raises_in_bind; [apply faults_observe_all|]. intros [sn all_ok]. unfold view. raising. by eexists.
Qed.
Lemma told_read_back_faults f desired rejected n number seen rows s :
  told log (read_back v parse_xml fromstring f desired rejected n number seen rows) s (fun l r _ => forallb quiet l = true
    /\ match r with Ok (ok, _, _) => ok = true -> rejected = false /\ forall ref, ref ∈ participants f -> in_role f desired l ref
       | Err _ => True end
    /\ match r with Ok _ => True | Err e => exists x, e = Fault x end).
Proof.
  destruct (told_both _ _ _ _ _ (told_read_back f desired rejected n number seen rows s)
    (told_adds _ _ s (silent_read_back f desired rejected n number seen rows))) as (l & L & H & K).
  exists l. split; [done|]. split; [done|]. split; [done|]. apply faults_read_back.
Qed.

Definition desired_of (f : frozen) (w : W) : list string := map (fun r => py_upper (device_id (device v r w))) (remaining f).

(** What a change did when it got as far as its request. *)
Definition requested_change (f : frozen) (before : list (string * list (string * string))) (l : list event) (o : res exn zone_result) : Prop :=
  exists l1 req l2 w, l = l1 ++ req ++ l2 /\ forallb quiet l1 = true /\ forallb looks l2 = true /\ request f req
    /\ (forall ref, ref ∈ participants f -> ready f before l1 ref)
    /\ match o with
       | Ok r => verified r = true /\ forall ref, ref ∈ participants f -> in_role f (desired_of f w) l2 ref
       | Err (ZoneChangeError _ attempted _) => attempted = true
       | Err _ => True
       end.
Definition refused_change (l : list event) (o : res exn zone_result) : Prop :=
  posts l = [] /\ exists e, o = Err e /\ blocked e.

Lemma told_write_zone f before job ref s :
  kept f before ->
  told log (write_zone v parse_xml fromstring f before job ref) s
    (fun l o _ => forallb quiet l = true /\ refused_change l o \/ requested_change f before l o).
Proof.
  intros Hk. assert (forall l (o : res exn zone_result) e, forallb quiet l = true -> o = Err e -> blocked e ->
    forallb quiet l = true /\ refused_change l o \/ requested_change f before l o) as Hrefuse.
  { intros l o e Hl -> He. left. split; [done|]. split; [by apply posts_looks, quiet_looks|eauto]. }
  unfold write_zone. eapply told_bind; [apply (before_post_zone_errors _ _ _ (fun l _ => forall r, r ∈ participants f -> ready f before l r))| |].
  { apply (told_for_each log quiet (fun r l => ready f before l r) blocked); [apply lasting_ready|]. intros r s1.
    apply (before_post_intro _ _ (fun l _ => ready f before l r)); [by apply told_unchanged|auto with py|auto with py]. }
  { intros e l s1 [K He]. by eapply Hrefuse. }
  intros [] l1 s1 [K1 R1]. cbn in R1.
  eapply told_bind_now; [reflexivity|]. cbv zeta.
  eapply told_bind; [apply (before_post_intro _ _ (fun _ _ => True))| |].
  { eapply told_weaken; [apply (told_adds quiet)|]; [steps|]. by intros l [] s'. }
  { steps. }
  { raising. }
  { intros e l s2 [K He]. eapply Hrefuse; [|done|exact He]. cbn. by rewrite !forallb_app, K1, K. }
  intros [] l2 s2 [K2 _].
  assert (forall r, r ∈ participants f -> ready f before (l1 ++ l2) r) as R2.
  { intros r Hr. specialize (lasting_ready f before r [] l1 l2 (R1 r Hr)). done. }
  assert (forallb quiet (l1 ++ l2) = true) as K12 by (by rewrite forallb_app, K1, K2).
  set (xml := payload _ _ _).
  assert (forall l3 l4 (o : res exn zone_result) w, (l3 = [] \/ exists c a, c_device c = z_master f /\ l3 = [Posted c "/setZone" xml a]) ->
    forallb looks l4 = true ->
    match o with
    | Ok r => verified r = true /\ forall ref, ref ∈ participants f -> in_role f (desired_of f w) l4 ref
    | Err (ZoneChangeError _ attempted _) => attempted = true
    | Err _ => True end ->
    requested_change f before (l1 ++ l2 ++ l3 ++ l4) o) as Hdone.
  { intros l3 l4 o w H3 H4 Ho. exists (l1 ++ l2), l3, l4, w. split; [by rewrite <- app_assoc|]. split; [done|]. split; [done|]. split; [|done].
    destruct H3 as [->|(c & a & Hc & ->)]; [by left|]. right. exists c, a, (world s1). done. }
  eapply told_bind; [apply told_send| |].
  { intros e l s3 [H3 [x ->]]. right. rewrite <- (app_nil_r l). by apply (Hdone l [] _ (world s1)). }
  intros [[response transport_error] rejected] l3 s3 [H3 _].
  eapply told_bind_now; [reflexivity|]. cbv zeta.
  eapply told_bind; [apply told_read_back_faults| |].
  { intros e l s4 (K & _ & [x ->]). right. apply (Hdone l3 l _ (world s1)); [done|by apply quiet_looks|done]. }
  intros [[ok seen] rows] l4 s4 (K4 & R4 & _).
  eapply told_bind_now; [reflexivity|]. cbv zeta.
  eapply told_bind; [apply told_final_record| |].
  { intros e l s5 [K5 He]. right. apply (Hdone l3 (l4 ++ l) _ (world s1)); [done| |].
    - by rewrite forallb_app, (quiet_looks _ K4), K5.
    - by destruct e. }
  intros [] l5 s5 [K5 _].
  assert (forallb looks (l4 ++ l5) = true) as K45 by (by rewrite forallb_app, (quiet_looks _ K4), K5).
  destruct ok; [apply told_ret|apply told_raise]; right; rewrite app_nil_r.
  - apply (Hdone l3 (l4 ++ l5) _ (world s3)); [done|done|]. split; [done|]. intros r Hr. destruct (R4 eq_refl) as [_ R].
    by apply (lasting_in_role f _ r [] l4 l5), R.
  - by apply (Hdone l3 (l4 ++ l5) _ (world s1)).
Qed.

Abbreviation keeping := (keeps ["ZONE_INTENT"] ref_text).
Abbreviation obeying := (obeys ["ZONE_INTENT"] ref_text).
#[local] Arguments ref_text : simpl never.

(** The rows that one commit makes durable: the backup, then the intent that names it. *)
Definition backed_up (content : string) (id : Z) (l : list event) : Prop :=
  exists rows dev name iid a, l = [Saved (rows ++ [(iid, DeviceActionJournal a)])]
    /\ (id, ConfigBackup dev name content) ∈ rows /\ phase a = "ZONE_INTENT" /\ backup_ref a = ref_text id.

Lemma told_save_backup f job content digest s :
  told log (save_backup v f job content digest) s (fun l r _ => forallb looks l = true
    /\ match r with Ok (id, ref) => backed_up content id l /\ ref = ref_text id | Err e => blocked e end).
Proof.
  assert (steps_in calm (save_backup v f job content digest)) as Hc by (unfold save_backup, view; steps).
  destruct (Hc s) as (l & L & K). exists l. split; [done|]. split; [done|].
  pose proof (blocked_save_backup f job content digest s) as Hb. destruct (save_backup v f job content digest s) as [[[id ref]|e] s'] eqn:E; [|exact Hb].
  cbn in L. clear Hb Hc. unfold save_backup in E. apply st_bind_Ok in E as (ds & s1 & [= <- <-] & E).
  apply st_bind_Ok in E as (id' & s2 & [L2 P2]%add_Ok & E). apply st_bind_Ok in E as (ds2 & s3 & [= <- <-] & E).
  apply st_bind_Ok in E as ([] & s4 & (L4 & iid & P4)%record_action_Ok & E).
  apply st_bind_Ok in E as ([] & s5 & (L5 & _)%commit_Ok & [= <- <- <-]). split; [|done].
  rewrite L5, L4, L2 in L. apply app_inv_head in L. subst l.
  eexists (pending s2), _, _, iid, _. rewrite P4. split; [reflexivity|]. split; [|done].
  rewrite P2. apply elem_of_app. right. left.
Qed.

Lemma told_check_backup id ref digest s :
  told log (check_backup v id ref digest) s (fun l r _ => forallb quiet l = true
    /\ match r with Ok _ => exists c, l = [ReadBack id (Some c)] /\ sha256_hex c = digest | Err e => blocked e end).
Proof.
  destruct (silent_check_backup id ref digest s) as (l & L & K). exists l. split; [done|]. split; [done|].
  pose proof (blocked_check_backup id ref digest s) as Hb. destruct (check_backup v id ref digest s) as [[[]|e] s'] eqn:E; [|exact Hb].
  unfold check_backup in E. apply st_bind_Ok in E as (c & s1 & H1 & E). unfold read_backup in H1.
  destruct (stored_backup v id (world s)) as [[c'|e] w]; [|done]. injection H1 as <- <-. destruct c' as [content|]; [|done].
  case_bool_decide as Hd; [|done]. injection E as <-. cbn in L. apply app_inv_head in L as <-. by exists content.
Qed.

(** The events before the request: a backup of [before] became durable, was read again
    intact, and after that every participant was found ready. *)
Definition backed_change (f : frozen) (l : list event) : Prop :=
  exists l0 before id rows dev nm c l1, l = l0 ++ ReadBack id (Some c) :: l1 /\ Saved rows ∈ l0
    /\ (id, ConfigBackup dev nm (string_of (print_reads before))) ∈ rows
    /\ sha256_hex c = sha256_hex (string_of (print_reads before))
    /\ forall ref, ref ∈ participants f -> ready f before l1 ref.

Lemma backed_change_after f l0 l : backed_change f l -> backed_change f (l0 ++ l).
Proof.
  intros (la & before & id & rows & dev & nm & c & l1 & -> & Hs & H). exists (l0 ++ la), before, id, rows, dev, nm, c, l1.
  split; [by rewrite <- app_assoc|]. split; [apply elem_of_app; by right|done].
Qed.

Definition careful_change (m : nat) (e : Zone) (remove : option nat) (l : list event) (o : res exn zone_result) : Prop :=
  exists f l1 req l2 w, l = l1 ++ req ++ l2 /\ posts l1 = [] /\ posts l2 = []
    /\ (exists refs w', covers m e refs /\ freeze (fun ref => device v ref w') m e remove refs = Ok f)
    /\ request f req /\ backed_change f l1
    /\ match o with
       | Ok r => verified r = true /\ forall ref, ref ∈ participants f -> in_role f (desired_of f w) l2 ref
       | Err (ZoneChangeError _ attempted _) => attempted = true
       | Err _ => True
       end.

Lemma told_owned_change f m e remove s :
  (exists refs w', covers m e refs /\ freeze (fun ref => device v ref w') m e remove refs = Ok f) ->
  told log (owned_change v parse_xml fromstring f) s
    (fun l o _ => keeping [] l /\ (refused_change l o \/ careful_change m e remove l o)).
Proof.
  intros Hf. assert (forall l (o : res exn zone_result) e', forallb looks l = true -> o = Err e' -> blocked e' ->
    keeping [] l /\ (refused_change l o \/ careful_change m e remove l o)) as Hrefuse.
  { intros l o e' Hl -> He. split; [by apply keeps_looks|]. left. split; [by apply posts_looks|eauto]. }
  unfold owned_change. eapply told_bind; [apply (before_post_zone_errors _ _ _ (fun _ before => kept f before))| |].
  { apply before_post_intro; [apply told_look; by intros id rds|auto with py|auto with py]. }
  { intros e' l s1 [K He]. by eapply Hrefuse; [apply quiet_looks| |]. }
  intros before l1 s1 [K1%quiet_looks Hk].
  eapply told_bind; [eapply told_both; [apply (told_adds looks), adds_fresh|]| |].
  { apply (told_weaken log _ _ (fun _ r _ => match r with Ok _ => True | Err e => blocked e end)); [|intros l r s' H; exact H].
    destruct (adds_fresh v looks s1) as (l & L & _). exists l. split; [done|]. apply (faults_fresh v blocked blocked_fault). }
  { intros e' l s2 [K He]. eapply Hrefuse; [|done|exact He]. by rewrite forallb_app, K1, K. }
  intros u l2 s2 [K2 _]. cbv zeta. set (content := string_of _).
  eapply told_bind; [apply told_save_backup| |].
  { intros e' l s3 [K He]. eapply Hrefuse; [|done|exact He]. by rewrite !forallb_app, K1, K2, K. }
  intros [id ref] l3 s3 [K3 [(rows & dev & nm & iid & a & -> & Hin & Hp & Hr) ->]].
  eapply told_bind; [apply told_check_backup| |].
  { intros e' l s4 [K%quiet_looks He]. eapply Hrefuse; [|done|exact He]. by rewrite !forallb_app, K1, K2, K3, K. }
  intros [] l4 s4 [K4%quiet_looks (c & -> & Hd)].
  eapply told_weaken; [by apply told_write_zone|]. intros l o s' [[Kl Ho]|H].
  { split; [|left; split; [|apply Ho]].
    - apply keeps_looks. by rewrite !forallb_app, K1, K2, K3, (quiet_looks _ Kl).
    - apply posts_looks. by rewrite !forallb_app, K1, K2, K3, (quiet_looks _ Kl). }
  destruct H as (la & req & lb & w & -> & Ka & Kb & Hreq & Hready & Ho).
  assert (forallb looks (l1 ++ l2) = true) as K12 by (by rewrite forallb_app, K1, K2). split.
  - destruct Hreq as [->|(cl & an & w' & Hcl & ->)].
    + apply keeps_looks. rewrite !forallb_app, K1, K2, K3, (quiet_looks _ Ka), Kb. done.
    + rewrite app_assoc. cbn [app]. eapply (keeps_single_write _ _ (l1 ++ l2) rows iid a id dev nm content c la); [done..| |done|done|congruence].
      rewrite Hp. left.
  - right. exists f, (l1 ++ l2 ++ [Saved (rows ++ [(iid, DeviceActionJournal a)])] ++ [ReadBack id (Some c)] ++ la), req, lb, w.
    split; [by rewrite <- !app_assoc|]. split.
    { apply posts_looks. by rewrite !forallb_app, K1, K2, K3, (quiet_looks _ Ka). }
    split; [by apply posts_looks|]. split; [done|]. split; [done|]. split; [|done].
    exists (l1 ++ l2 ++ [Saved (rows ++ [(iid, DeviceActionJournal a)])]), before, id, (rows ++ [(iid, DeviceActionJournal a)]), dev, nm, c, la.
    split; [by rewrite <- !app_assoc|]. split; [rewrite !elem_of_app; right; right; left|]. split; [apply elem_of_app; by left|]. done.
Qed.

Lemma freeze_participants ds m e remove refs f : freeze ds m e remove refs = Ok f -> participants f = refs.
Proof. unfold freeze. destruct (match remove with Some _ => _ | None => _ end); [done|]. destruct (match remove with Some _ => _ | None => _ end); [done|]. by intros [= <-]. Qed.

Lemma posts_wrapped l0 t l t' : forallb looks l0 = true -> posts (l0 ++ Entered t :: l ++ [Left t']) = posts l.
Proof. intros H. rewrite posts_app, (posts_looks _ H). change (posts (l ++ [Left t']) = posts l). by rewrite posts_app, app_nil_r. Qed.

Lemma free_guard_current f ref : steps_in (adds free) (guard_current v f ref).
Proof. unfold guard_current. steps. Qed.
Lemma free_participants m e : steps_in (adds free) (_participants v m e).
Proof. unfold _participants, view. steps. Qed.

Lemma refused_now m e remove l0 (o : res exn zone_result) x : forallb free l0 = true -> o = Err x -> blocked x ->
  obeying l0 /\ (refused_change l0 o \/ careful_change m e remove l0 o).
Proof. intros H -> Hx. split; [by apply obeys_free|]. left. split; [by apply posts_looks, free_looks|eauto]. Qed.

Lemma told_change_zone m e remove s :
  told log (change_zone v parse_xml fromstring m e remove) s
    (fun l o _ => obeying l /\ (refused_change l o \/ careful_change m e remove l o)).
Proof.
  unfold change_zone. eapply told_bind; [eapply told_both; [apply (told_adds free), free_participants|eapply told_both; [apply told_participants|]]| |].
  { apply (told_weaken log _ _ (fun _ r _ => match r with Ok _ => True | Err e => blocked e end)); [|intros l r s' H; exact H].
    destruct (free_participants m e s) as (l & L & _). exists l. split; [done|]. apply blocked_participants. }
  { intros x l s1 (K & _ & Hx). by eapply refused_now. }
  intros refs l1 s1 (K1 & Hcov & _). eapply told_bind_now; [reflexivity|].
  eapply told_bind; [apply told_of_res_now| |].
  { intros x l s2 (-> & Hx & ->). eapply refused_now; [by rewrite app_nil_r|done|].
    pose proof (blocked_freeze (fun ref => device v ref (world s1)) m e remove refs) as Hb. by rewrite <- Hx in Hb. }
  intros f l2 s2 (-> & Hf & ->). symmetry in Hf. assert (participants f = refs) as <- by (by eapply freeze_participants).
  eapply told_bind; [eapply told_both; [apply (told_adds free)|]| |].
  { apply steps_in_for_each; [apply _|]. intros ref. apply free_guard_current. }
  { apply (told_weaken log _ _ (fun _ r _ => match r with Ok _ => True | Err e => blocked e end)); [|intros l r s' H; exact H].
    pose proof (silent_guard_current f) as Hs. assert (steps_in silent (for_each (participants f) (guard_current v f))) as Hs' by steps.
    destruct (Hs' s1) as (l & L & _). exists l. split; [done|].
    assert (raises_in blocked (for_each (participants f) (guard_current v f))) as Hr by raising. apply Hr. }
  { intros x l s3 [K Hx]. eapply refused_now; [|done|exact Hx]. by rewrite !forallb_app, K1, K. }
  intros [] l3 s3 [K3 _]. eapply told_bind_now; [reflexivity|]. set (ids := map _ (participants f)).
  unfold told. destruct (device_transaction _ _ _ s3) as [o s4] eqn:E.
  apply device_transaction_run in E as [(x & -> & L)|(sa & sb & La & E & Lb)].
  - exists []. rewrite app_nil_r. split; [exact L|]. eapply refused_now; [|done|apply blocked_fault]. by rewrite !forallb_app, K1, K3.
  - destruct (told_owned_change f m e remove sa) as (l & L & K & H); [by eauto|]. rewrite E in L, H. cbn in L, H |- *.
    exists (Entered ids :: l ++ [Left ids]). split; [by rewrite Lb, L, La, <- !app_assoc|].
    assert (forallb free (l1 ++ l3) = true) as K13 by (by rewrite forallb_app, K1, K3). rewrite app_assoc. split.
    + apply obeys_app; [by apply obeys_free|by apply obeys_transaction].
    + destruct H as [[Hp He]|(f' & la & req & lb & w & -> & Ha & Hb & Hc & Hreq & Hready & Ho)].
      * left. split; [by rewrite posts_wrapped by (by apply free_looks)|done].
      * right. exists f', ((l1 ++ l3) ++ [Entered ids] ++ la), req, (lb ++ [Left ids]), w. split; [by rewrite <- !app_assoc|].
        split; [rewrite posts_app, (posts_looks _ (free_looks _ K13)); exact Ha|].
        split; [by rewrite posts_app, Hb|]. split; [done|]. split; [done|]. split.
        -- rewrite app_assoc. by apply backed_change_after.
        -- destruct o as [r|x]; [|done]. destruct Ho as [Hv Hin]. split; [done|]. intros ref Href.
           by apply (lasting_in_role f' _ ref [] lb [Left ids]), Hin.
Qed.
End ChangeFacts.

(** ** Proofs about creations *)
Section CreationFacts.
Context {W : Type} (v : env W) (parse_xml : string -> option element) (fromstring : string -> res fault element) (z : scope).
#[local] Arguments ref_text : simpl never.
Abbreviation clog := (fun c : creation W => log (sess c)).
Abbreviation topology := (topology v parse_xml fromstring).

(** Reads change the session and the diagnostics of the creation only. *)
Definition reads (p : event -> bool) (c c' : creation W) : Prop :=
  adds p (sess c) (sess c') /\ attempted c' = attempted c /\ c_backup c' = c_backup c /\ clients c' = clients c.

#[export] Instance reads_preorder p : PreOrder (reads p).
Proof.
  split.
  - intros c. by split.
  - intros c1 c2 c3 (A1 & B1 & C1 & D1) (A2 & B2 & C2 & D2). split; [by etransitivity|]. split_and!; congruence.
Qed.

Lemma reads_on p {A} (m : ST (session W) exn A) : steps_in (adds p) m -> steps_in (reads p) (on m).
Proof. intros H c. specialize (H (sess c)). unfold on. destruct (m (sess c)) as [r s]. by split. Qed.
Lemma reads_fail p {A} code cause : steps_in (reads p) (fail z code cause : ST (creation W) exn A).
Proof. intros c. reflexivity. Qed.
Lemma reads_item p {A} k (d : list (string * A)) : steps_in (reads p) (item k d : ST (creation W) exn A).
Proof. unfold item. steps. Qed.
Lemma reads_observed p identity path xml : steps_in (reads p) (modify (set_observed identity path xml) : ST (creation W) exn unit).
Proof. intros c. by split. Qed.
Lemma reads_seen p l : steps_in (reads p) (modify (set_seen l) : ST (creation W) exn unit).
Proof. intros c. by split. Qed.
Lemma reads_before p k l : steps_in (reads p) (modify (add_before k l) : ST (creation W) exn unit).
Proof. intros c. by split. Qed.
#[local] Hint Resolve reads_preorder reads_on reads_fail reads_item reads_observed reads_seen reads_before : py.

Lemma reads_guard p identity : (forall ref, p (Guarded ref) = true) -> steps_in (reads p) (guard v z identity).
Proof. intros Hp. unfold guard. steps. Qed.
Lemma adds_value_of p path xml ref : steps_in (adds p) (value_of v parse_xml fromstring path xml ref).
Proof. unfold value_of. steps. Qed.
#[local] Hint Resolve reads_guard adds_value_of : py.
Lemma silent_read identity path : steps_in (reads quiet) (read v parse_xml fromstring z identity path).
Proof. unfold read. steps. Qed.
#[local] Hint Resolve silent_read : py.
Lemma silent_read_topology identity : steps_in (reads quiet) (read_topology v parse_xml fromstring z identity).
Proof. unfold read_topology. steps. Qed.
#[local] Hint Resolve silent_read_topology : py.
Lemma silent_in_scope zone : steps_in (reads quiet) (in_scope z zone : ST (creation W) exn unit).
Proof. unfold in_scope. steps. Qed.
#[local] Hint Resolve silent_in_scope : py.
Lemma silent_read_paths identity paths state : steps_in (reads quiet) (read_paths v parse_xml fromstring z identity paths state).
Proof. revert state. induction paths as [|path paths IH]; intros state; cbn [read_paths]; steps. Qed.
#[local] Hint Resolve silent_read_paths : py.
Lemma silent_back_up : steps_in (reads quiet) (back_up_states v parse_xml fromstring z).
Proof. unfold back_up_states. steps. Qed.
Lemma silent_recheck : steps_in (reads quiet) (recheck_states v parse_xml fromstring z).
Proof. unfold recheck_states. steps. Qed.
Lemma silent_match expected desired l ok : steps_in (reads quiet) (match_participants v parse_xml fromstring z expected desired l ok).
Proof. revert ok. induction l as [|[identity ref] l IH]; intros ok; cbn [match_participants]; steps. Qed.
#[local] Hint Resolve silent_match : py.
Lemma silent_zone_matches expected : steps_in (reads quiet) (zone_matches v parse_xml fromstring z expected).
Proof. unfold zone_matches. steps. Qed.
#[local] Hint Resolve silent_zone_matches : py.
Lemma silent_planned ref identity path xml : steps_in (reads quiet) (planned v parse_xml fromstring z ref identity path xml).
Proof. unfold planned. steps. Qed.
Lemma silent_matches ref identity path expected : steps_in (reads quiet) (matches v parse_xml fromstring z ref identity path expected).
Proof. unfold matches. steps. Qed.
#[local] Hint Resolve silent_matches : py.
Lemma silent_confirm ref identity path expected n : steps_in (reads quiet) (confirm v parse_xml fromstring z ref identity path expected n).
Proof. induction n as [|n IH]; cbn [confirm]; steps. Qed.
Lemma calm_write_intent identity path xml : steps_in (reads looks) (write_intent v z identity path xml).
Proof. unfold write_intent. steps. Qed.
Lemma calm_step_verified identity path error : steps_in (reads looks) (step_verified v z identity path error).
Proof. unfold step_verified. steps. Qed.
Lemma calm_record_failure e : steps_in (reads looks) (record_failure v z e).
Proof. unfold record_failure. steps. Qed.

(** *** What the statements of a creation tell *)
Lemma told_on {A} (m : ST (session W) exn A) c (Q : list event -> res exn A -> session W -> Prop) :
  told log m (sess c) Q -> told clog (on m) c (fun l r c' => Q l r (sess c') /\ c' = set_sess (sess c') c).
Proof. intros (l & L & H). exists l. unfold on. destruct (m (sess c)) as [r s]. done. Qed.

Lemma told_reads p {A} (m : ST (creation W) exn A) c :
  steps_in (reads p) m -> told clog m c (fun l _ c' => forallb p l = true /\ attempted c' = attempted c /\ c_backup c' = c_backup c /\ clients c' = clients c).
Proof. intros H. destruct (H c) as ((l & L & K) & R). by exists l. Qed.

Lemma told_guard identity c :
  told clog (guard v z identity) c (fun l r _ => match r with Ok ref => lookup_key identity (devices z) = Some ref /\ Guarded ref ∈ l | Err _ => True end).
Proof.
  unfold guard, item. destruct (lookup_key identity (devices z)) as [ref|]; [|by apply told_raise].
  eapply told_bind_now; [reflexivity|]. eapply told_bind; [apply told_on, told_run_guard|done|]. intros [] l1 c1 [-> _].
  eapply told_bind; [apply told_on, told_get_device|done|]. intros d l2 c2 ((-> & _) & _).
  case_match; [by exists []; rewrite app_nil_r|].
  eapply told_bind; [apply told_on, told_gets_now|done|]. intros owned l3 c3 ((-> & _) & _).
  destruct owned; [|by exists []; rewrite app_nil_r]. apply told_ret. split; [done|left].
Qed.

(** [_value] answers for the device and the policy of one moment. *)
Definition means (path xml : string) (ref : nat) (x : seen_value) : Prop :=
  exists s s', value_of v parse_xml fromstring path xml ref s = (Ok x, s').

Lemma told_value_of path xml ref s :
  told log (value_of v parse_xml fromstring path xml ref) s (fun l r _ => l = [] /\ match r with Ok x => means path xml ref x | Err _ => True end).
Proof.
  destruct (adds_value_of (fun _ => false) path xml ref s) as ([|e l] & L & K); [|done]. exists []. split; [done|]. split; [done|].
  destruct (value_of _ _ _ path xml ref s) as [[x|] s'] eqn:E; [|done]. by exists s, s'.
Qed.

Lemma means_info info ref x : means "/info" info ref x ->
  exists w, is_ok (Profiles.verify_settings_identity parse_xml (policy v w) (device v ref w) info) = true.
Proof.
  intros (s & s' & H). exists (world s). revert H. unfold value_of, mbind, st_bind, get_device, get_policy, gets, lift.
  destruct (fromstring info) as [root|]; [|done]. cbn. destruct (match attr "deviceID" root with Some _ => _ | None => _ end); [done|].
  rewrite bool_decide_true by done. by destruct (Profiles.verify_settings_identity _ _ _ info).
Qed.

Lemma parse_claimed xml id root zone : fromstring xml = Ok root ->
  match attr "deviceID" root with Some claimed => negb (bool_decide (upper_id claimed = py_upper id)) | None => false end = false ->
  parse fromstring xml "" = Ok zone -> parse fromstring xml id = Ok zone.
Proof. intros Hr Hc. unfold parse. rewrite Hr. cbn. destruct (negb (has_tag "zone" root)); [done|]. by rewrite Hc, andb_false_r. Qed.

Lemma means_zone xml ref x : means "/getZone" xml ref x ->
  exists w zone, x = Topology zone /\ parse fromstring xml "" = Ok zone /\ parse fromstring xml (device_id (device v ref w)) = Ok zone.
Proof.
  intros (s & s' & H). exists (world s). revert H. unfold value_of, mbind, st_bind, get_device, get_policy, gets, lift.
  destruct (fromstring xml) as [root|] eqn:Er; [|done]. cbn -[parse]. destruct (match attr "deviceID" root with Some _ => _ | None => _ end) eqn:Ec; [done|].
  rewrite bool_decide_false by done. rewrite bool_decide_true by done. destruct (parse fromstring xml "") as [zone|] eqn:Ep; [|done].
  intros [= <- _]. exists zone. split; [done|]. split; [done|]. by eapply parse_claimed.
Qed.

(** The clients of the creation talk to the radios they are named for. *)
Definition wired (c : creation W) : Prop :=
  forall identity x, lookup_key identity (clients c) = Some x -> lookup_key identity (devices z) = Some (c_device x).

(** The identity was verified and then the radio answered, and the answer is valid. *)
Definition answered_by (l : list event) (ref : nat) (path text : string) : Prop :=
  exists x info w, c_device x = ref /\ Got x "/info" (Ok info) ∈ l /\ Got x path (Ok text) ∈ l
    /\ is_ok (Profiles.verify_settings_identity parse_xml (policy v w) (device v ref w) info) = true
    /\ (path ∈ READS -> path <> "/info" -> exists y, means path text ref y).

Lemma lasting_answered ref path text : lasting (fun l => answered_by l ref path text).
Proof. intros l1 l l2 (x & info & w & ? & ? & ? & ? & ?). exists x, info, w. rewrite !elem_of_app. auto 10. Qed.

Lemma told_read identity path c :
  wired c -> told clog (read v parse_xml fromstring z identity path) c
    (fun l r _ => match r with Ok text => exists ref, lookup_key identity (devices z) = Some ref /\ Guarded ref ∈ l /\ answered_by l ref path text
                         | Err _ => True end).
Proof.
  intros Hw. unfold read. eapply told_bind; [eapply told_both; [apply told_guard|apply (told_reads quiet); auto with py]|done|].
  intros ref l1 c1 ((Hr & Hg) & _ & _ & _ & Hcl). eapply told_bind_now; [reflexivity|].
  unfold item. rewrite Hcl. destruct (lookup_key identity (clients c)) as [x|] eqn:Ex; [|by apply told_raise].
  apply Hw in Ex. rewrite Hr in Ex. injection Ex as Ex. eapply told_bind_now; [reflexivity|].
  eapply told_bind; [apply told_on, told_get|done|]. intros info l2 c2 [([a|] & -> & [= <-]) _].
  eapply told_bind; [apply told_on, told_value_of|done|]. intros y l3 c3 [[-> [w Hv]%means_info] _].
  case_bool_decide as Hp.
  - apply told_ret. exists ref. split; [done|]. split; [apply elem_of_app; by left|]. exists x, info, w. subst path.
    assert (Got x "/info" (Ok info) ∈ l1 ++ [Got x "/info" (Ok info)] ++ [] ++ []) as Hin by (apply elem_of_app; right; left).
    split_and!; [done..|]. by intros _ Hn.
  - eapply told_bind; [apply told_on, told_get|done|]. intros text l4 c4 [([a|] & -> & [= <-]) _].
    eapply (told_bind _ _ _ _ (fun l r _ => l = [] /\ match r with Ok _ => path ∈ READS -> exists y, means path text ref y | Err _ => True end)).
    + case_bool_decide as Hin; [|apply told_ret; by split].
      eapply told_bind; [apply told_on, told_value_of|intros e l c5 [[-> _] _]; done|]. intros y' l5 c5 [[-> Hm] _].
      exists []. rewrite app_nil_r. split; [done|]. split; [done|]. cbn. eauto.
    + done.
    + intros [] l5 c5 [-> Hm]. apply told_ret. exists ref. split; [done|]. split; [apply elem_of_app; by left|]. exists x, info, w.
      split; [done|]. split; [apply elem_of_app; right; left|]. split; [apply elem_of_app; right; right; left|]. auto.
Qed.

Lemma told_read_topology identity c :
  wired c -> told clog (read_topology v parse_xml fromstring z identity) c
    (fun l r _ => match r with Ok zone => exists ref, lookup_key identity (devices z) = Some ref /\ Guarded ref ∈ l /\ topology l ref zone
                         | Err _ => True end).
Proof.
  intros Hw. unfold read_topology. eapply told_bind; [by apply told_read|done|]. intros xml l1 c1 (ref & Hr & Hg & x & info & w & Hx & Hi & Hz & Hv & Hm).
  apply told_of_res. rewrite app_nil_r. destruct (parse fromstring xml "") as [zone|] eqn:Ep; [|done]. exists ref. split; [done|]. split; [done|].
  destruct Hm as [y Hy]; [right; left|done|]. apply means_zone in Hy as (w' & zone' & _ & Hp & Hp'). rewrite Ep in Hp. injection Hp as <-.
  by exists x, info, xml, w, w'.
Qed.

(** *** The flag of an error *)

(** Errors of the creation say whether a request had been attempted. *)
Definition flag_ok {A} (r : res exn A) (a : bool) : Prop := match r with Err (ZoneCreationError _ b _ _ _) => b = a | _ => True end.
Definition flagged {A} (m : ST (creation W) exn A) : Prop := forall c, attempted (m c).2 = attempted c /\ flag_ok (m c).1 (attempted c).
Definition other (e : exn) : Prop := match e with ZoneCreationError _ _ _ _ _ => False | _ => True end.
Lemma other_fault f : other (fault_in f).
Proof. done. Qed.
#[local] Hint Resolve other_fault : py.

Lemma flagged_ret {A} (a : A) : flagged (mret a).
Proof. done. Qed.
Lemma flagged_raise {A} e : other e -> flagged (raise e : ST (creation W) exn A).
Proof. intros H c. by destruct e. Qed.
Lemma flagged_fail {A} code cause : flagged (fail z code cause : ST (creation W) exn A).
Proof. done. Qed.
Lemma flagged_gets {A} (f : creation W -> A) : flagged (gets f).
Proof. done. Qed.
Lemma flagged_on {A} (m : ST (session W) exn A) : raises_in other m -> flagged (on m).
Proof. intros H c. specialize (H (sess c)). unfold on. destruct (m (sess c)) as [[a|[]] s]; done. Qed.
Lemma flagged_of_res {A} (r : res exn A) : match r with Ok _ => True | Err e => other e end -> flagged (of_res r).
Proof. intros H c. by destruct r as [|[]]. Qed.
Lemma flagged_bind {A B} (m : ST (creation W) exn A) (f : A -> ST (creation W) exn B) :
  flagged m -> (forall a, flagged (f a)) -> flagged (m ≫= f).
Proof.
  intros Hm Hf c. destruct (Hm c) as [H1 H2]. unfold mbind, st_bind. destruct (m c) as [[a|e] c1]; cbn in *; [|done].
  rewrite <- H1. apply Hf.
Qed.
Lemma flagged_for_each {A} (l : list A) (f : A -> ST (creation W) exn unit) : (forall a, flagged (f a)) -> flagged (for_each l f).
Proof. intros Hf. induction l as [|x l IH]; [done|]. apply flagged_bind; [apply Hf|intros _; exact IH]. Qed.
Lemma flagged_try {A} (m : ST (creation W) exn A) (h : exn -> ST (creation W) exn A) :
  flagged m -> (forall c e, flag_ok (Err e : res exn A) (attempted c) -> attempted (h e c).2 = attempted c /\ flag_ok (h e c).1 (attempted c)) ->
  flagged (try_except m h).
Proof.
  intros Hm Hh c. destruct (Hm c) as [H1 H2]. unfold try_except. destruct (m c) as [[a|e] c1]; cbn in *; [done|].
  rewrite <- H1 in *. by apply Hh.
Qed.
Lemma flagged_item {A} k (d : list (string * A)) : flagged (item k d).
Proof. unfold item. by destruct (lookup_key k d). Qed.
Lemma flagged_modify f : (forall c, attempted (f c) = attempted c) -> flagged (modify f).
Proof. intros H c. split; [apply H|done]. Qed.
#[local] Hint Resolve flagged_ret flagged_fail flagged_gets flagged_on flagged_item : py.

Ltac flags :=
  repeat (first
    [ solve [auto with py]
    | apply flagged_bind; [|intros ?]
    | apply flagged_for_each; intros ?
    | apply flagged_raise; done
    | apply flagged_modify; done
    | match goal with
      | |- flagged (let '_ := ?x in _) => destruct x
      | |- flagged (match ?x with _ => _ end) => destruct x
      | |- flagged (if ?x then _ else _) => destruct x
      end
    | progress cbv beta zeta ]).

Lemma other_value_of path xml ref : raises_in other (value_of v parse_xml fromstring path xml ref).
Proof. unfold value_of. raising. all: done. Qed.
#[local] Hint Resolve other_value_of : py.
Lemma flagged_guard identity : flagged (guard v z identity).
Proof. unfold guard. flags. Qed.
#[local] Hint Resolve flagged_guard : py.
Lemma flagged_read identity path : flagged (read v parse_xml fromstring z identity path).
Proof. unfold read. flags. Qed.
#[local] Hint Resolve flagged_read : py.
Lemma flagged_read_topology identity : flagged (read_topology v parse_xml fromstring z identity).
Proof. unfold read_topology. flags. apply flagged_of_res. by destruct (parse _ _ _). Qed.
Lemma flagged_in_scope zone : flagged (in_scope z zone).
Proof.
  apply flagged_of_res. unfold require_selected_scope. destruct (_ && _); [done|]. by destruct (existsb _ _).
Qed.
#[local] Hint Resolve flagged_read_topology flagged_in_scope : py.
Lemma flagged_match expected desired l ok : flagged (match_participants v parse_xml fromstring z expected desired l ok).
Proof. revert ok. induction l as [|[identity ref] l IH]; intros ok; cbn [match_participants]; flags. Qed.
#[local] Hint Resolve flagged_match : py.
Lemma flagged_matches ref identity path expected : flagged (matches v parse_xml fromstring z ref identity path expected).
Proof. unfold matches, zone_matches. flags. Qed.
Lemma flagged_planned ref identity path xml : flagged (planned v parse_xml fromstring z ref identity path xml).
Proof. unfold planned. flags. Qed.
Lemma flagged_confirm ref identity path expected n : flagged (confirm v parse_xml fromstring z ref identity path expected n).
Proof.
  induction n as [|n IH]; cbn [confirm]; flags.
  all: apply flagged_try; [apply flagged_matches|]; intros c e He; destruct e as [[]| |]; done.
Qed.
Lemma flagged_write_intent identity path xml : flagged (write_intent v z identity path xml).
Proof. unfold write_intent. flags. Qed.
Lemma flagged_step_verified identity path error : flagged (step_verified v z identity path error).
Proof. unfold step_verified. flags. Qed.
#[local] Hint Resolve flagged_confirm flagged_write_intent flagged_step_verified flagged_planned : py.

(** What a statement that only reads leaves. *)
Definition stays (p : event -> bool) {A} (c : creation W) (l : list event) (r : res exn A) (c' : creation W) : Prop :=
  forallb p l = true /\ attempted c' = attempted c /\ c_backup c' = c_backup c /\ clients c' = clients c /\ flag_ok r (attempted c).

Lemma told_stays p {A} (m : ST (creation W) exn A) c (Q : list event -> res exn A -> creation W -> Prop) :
  told clog m c Q -> steps_in (reads p) m -> flagged m -> told clog m c (fun l r c' => stays p c l r c' /\ Q l r c').
Proof.
  intros HQ Hs Hf. destruct (told_both _ _ _ _ _ HQ (told_reads p m c Hs)) as (l & L & H & K & Ha & Hb & Hc).
  exists l. destruct (Hf c) as [_ Hfl]. split; [done|]. split; [by split_and!|done].
Qed.
Lemma told_stays' p {A} (m : ST (creation W) exn A) c : steps_in (reads p) m -> flagged m -> told clog m c (stays p c).
Proof. intros Hs Hf. destruct (told_reads p m c Hs) as (l & L & K & Ha & Hb & Hc). exists l. destruct (Hf c) as [_ Hfl]. by split_and!. Qed.

Lemma stays_wired p {A} c l (r : res exn A) c' : stays p c l r c' -> wired c -> wired c'.
Proof. intros (_ & _ & _ & Hc & _) Hw. unfold wired. by rewrite Hc. Qed.

(** *** A planned write *)
Definition planned_write (ref : nat) (identity path xml : string) (x : seen_value) : Prop :=
  (path = "/setZone" /\ exists zone w, x = Topology zone /\ parse fromstring xml "" = Ok zone
     /\ require_selected_scope zone (c_targets z) = Ok tt /\ identity = device_id (device v (c_master z) w)
     /\ master zone = py_upper identity /\ same_set (map fst (members zone)) (without (py_upper identity) (keys_upper z)) = true)
  \/ (path = "/volume" /\ exists root n, fromstring xml = Ok root /\ tag root = "volume" /\ volume_of (text root) = Ok n
     /\ 0 <= n <= 100 /\ x = Value (Settings.VInt n))
  \/ (path = "/rebroadcastlatencymode" /\ means path xml ref x).

Lemma told_planned ref identity path xml c :
  told clog (planned v parse_xml fromstring z ref identity path xml) c (fun l r _ => match r with Ok x => planned_write ref identity path xml x | Err _ => True end).
Proof.
  unfold planned. eapply told_bind; [apply told_on, told_lift|done|]. intros root l1 c1 [(-> & Hroot & _) _].
  assert (fromstring xml = Ok root) as Hx by (destruct (fromstring xml); cbn in Hroot; congruence).
  case_bool_decide as H1.
  { eapply told_bind; [apply told_on, told_lift|done|]. intros zone l2 c2 [(-> & Hz & _) _].
    assert (parse fromstring xml "" = Ok zone) as Hp by (destruct (parse fromstring xml ""); cbn in Hz; congruence).
    eapply told_bind; [apply told_of_res_now|done|]. intros [] l3 c3 (-> & Hs & ->).
    eapply told_bind; [apply told_on, told_get_device|done|]. intros d l4 c4 [(-> & [= ->] & _) _].
    case_bool_decide as Hi; cbn [negb]; [|by exists []; rewrite app_nil_r].
    destruct (_ || _) eqn:E; [by exists []; rewrite app_nil_r|]. apply told_ret. left. split; [done|]. exists zone, (world (sess c2)).
    apply orb_false_iff in E as [E1%negb_false_iff E2%negb_false_iff]. apply bool_decide_eq_true in E1. rewrite <- Hi in *. by split_and!. }
  destruct (bool_decide (path = "/volume") && has_tag "volume" root) eqn:H2.
  { apply andb_true_iff in H2 as [Hv%bool_decide_eq_true Ht]. eapply told_bind; [apply told_on, told_lift|done|].
    intros n l2 c2 [(-> & Hn & _) _]. destruct (_ && _) eqn:En; [|by exists []; rewrite app_nil_r]. apply told_ret. right. left. bdestr.
    split; [done|]. exists root, n. split_and!; [done| |destruct (volume_of (text root)); cbn in Hn; congruence|lia|lia|done].
    by apply bool_decide_eq_true in Ht. }
  destruct (bool_decide (path = "/rebroadcastlatencymode")) eqn:H3; [apply bool_decide_eq_true in H3|by exists []; rewrite app_nil_r].
  eapply told_weaken; [apply told_on, told_value_of|]. intros l [x|e] c' [[-> Hm] _]; [|done]. right. right. by subst.
Qed.

(** *** What is read back *)
Definition in_place (expected : Zone) (l : list event) (identity : string) : Prop :=
  exists ref zone, lookup_key identity (devices z) = Some ref /\ topology l ref zone /\ master zone = master expected
    /\ require_selected_scope zone (c_targets z) = Ok tt
    /\ (py_upper identity = master expected ->
        same_set (without (master expected) (map fst (members zone))) (without (master expected) (keys_upper z)) = true).
Definition confirmed (l : list event) (identity path : string) (x : seen_value) : Prop :=
  match x with
  | Topology zone => forall k, k ∈ map fst (devices z) -> in_place zone l k
  | _ => exists ref text, lookup_key identity (devices z) = Some ref /\ answered_by l ref path text /\ means path text ref x
  end.

Lemma lasting_in_place expected k : lasting (fun l => in_place expected l k).
Proof.
  intros l1 l l2 (ref & zone & H1 & H2 & H3). exists ref, zone. split; [done|]. split; [|done].
  by apply (lasting_topology v parse_xml fromstring ref zone).
Qed.
Lemma lasting_confirmed identity path x : lasting (fun l => confirmed l identity path x).
Proof.
  intros l1 l l2. destruct x as [key|zone|y]; cbn.
  - intros (ref & t & H1 & H2 & H3). exists ref, t. split; [done|]. split; [by apply (lasting_answered ref path t)|done].
  - intros H k Hk. by apply (lasting_in_place zone k), H.
  - intros (ref & t & H1 & H2 & H3). exists ref, t. split; [done|]. split; [by apply (lasting_answered ref path t)|done].
Qed.

Lemma told_match expected l ok c :
  wired c -> told clog (match_participants v parse_xml fromstring z expected (without (master expected) (keys_upper z)) l ok) c
    (fun es r _ => r = Ok true -> ok = true /\ forall k, k ∈ map fst l -> in_place expected es k).
Proof.
  revert ok c. induction l as [|[identity ref0] l IH]; intros ok c Hw; cbn [match_participants].
  { apply told_ret. intros [= ->]. split; [done|]. by intros k ?%elem_of_nil. }
  eapply told_bind; [apply (told_stays quiet); [by apply told_read_topology|auto with py|auto with py]|done|].
  intros zone l1 c1 [Hst (ref & Hr & Hg & Ht)]. eapply told_bind_now; [reflexivity|].
  eapply told_bind; [apply (told_stays' quiet); [auto with py|by apply flagged_modify]|done|]. intros [] l2 c2 Hst2.
  eapply told_weaken; [apply IH, (stays_wired _ _ _ _ _ Hst2), (stays_wired _ _ _ _ _ Hst), Hw|].
  intros es r c' H Hok. destruct (H Hok) as [Ho Hin]. apply andb_true_iff in Ho as [-> Ho]. split; [done|].
  intros k [->|Hk]%elem_of_cons.
  - exists ref, zone. split; [done|]. split; [by apply (lasting_topology v parse_xml fromstring ref zone [])|].
    cbn in Ho. case_bool_decide as Hl.
    + rewrite !andb_true_iff in Ho. destruct Ho as [[H1%bool_decide_eq_true H2] H3]. split_and!; try done.
      by destruct (require_selected_scope _ _) as [[]|].
    + rewrite !andb_true_iff in Ho. destruct Ho as [H1%bool_decide_eq_true H2]. split_and!; try done.
      by destruct (require_selected_scope _ _) as [[]|].
  - specialize (lasting_in_place expected k (l1 ++ l2) es [] (Hin k Hk)). by rewrite app_nil_r, <- app_assoc.
Qed.

Lemma means_value path xml ref x : path <> "/info" -> path <> "/getZone" -> means path xml ref x -> exists y, x = Value y.
Proof.
  intros H1 H2 (s & s' & Hm). unfold value_of in Hm. do 3 (apply st_bind_Ok in Hm as (? & ? & _ & Hm)).
  destruct (match attr "deviceID" _ with Some _ => _ | None => _ end) in Hm; [done|]. rewrite !bool_decide_false in Hm by done.
  apply st_bind_Ok in Hm as (y & s1 & _ & Hm). destruct (_ && _) in Hm; [done|]. injection Hm as <- _. by exists y.
Qed.

Lemma told_matches ref identity path x c :
  wired c -> (path = "/setZone" \/ forall zone, x <> Topology zone) ->
  lookup_key identity (devices z) = Some ref ->
  told clog (matches v parse_xml fromstring z ref identity path x) c (fun l r _ => r = Ok true -> confirmed l identity path x).
Proof.
  intros Hw Hx Hr. unfold matches.
  assert (forall y, (forall zone, y <> Topology zone) ->
    told clog (xml ← read v parse_xml fromstring z identity path; x0 ← on (value_of v parse_xml fromstring path xml ref); mret (bool_decide (x0 = y))) c
      (fun l r _ => r = Ok true -> confirmed l identity path y)) as Hval.
  { intros y Hy. eapply told_bind; [by apply told_read|done|]. intros t l1 c1 (ref' & Hr' & Hg & Ha).
    eapply told_bind; [apply told_on, told_value_of|done|]. intros x0 l2 c2 [[-> Hm] _]. apply told_ret.
    intros [= ->%bool_decide_eq_true]. rewrite app_nil_r. rewrite Hr in Hr'. injection Hr' as <-. destruct y; [|by destruct (Hy z0)|]; by exists ref, t. }
  destruct x as [key|zone|y]; [by apply Hval| |by apply Hval]. destruct Hx as [->|Hx]; [|by destruct (Hx zone)]. rewrite bool_decide_true by done.
  unfold zone_matches. eapply told_bind; [apply told_on, told_get_device|done|]. intros d l1 c1 [(-> & _) Hc1].
  destruct (negb (bool_decide (master zone = _))); [by exists []; rewrite app_nil_r|].
  destruct (negb (same_set _ _)); [by exists []; rewrite app_nil_r|].
  eapply told_bind; [apply (told_stays' quiet); [auto with py|by apply flagged_modify]|done|]. intros [] l2 c2 Hst.
  eapply told_weaken; [apply told_match, (stays_wired _ _ _ _ _ Hst); by rewrite Hc1|]. intros l r c' H Hok k Hk. destruct (H Hok) as [_ Hin].
  specialize (lasting_in_place zone k l2 l [] (Hin k Hk)). by rewrite app_nil_r.
Qed.

Lemma told_confirm ref identity path x n c :
  wired c -> (path = "/setZone" \/ forall zone, x <> Topology zone) -> lookup_key identity (devices z) = Some ref ->
  told clog (confirm v parse_xml fromstring z ref identity path x n) c (fun l r _ => r = Ok true -> confirmed l identity path x).
Proof.
  intros Hw Hx Hr. revert c Hw. induction n as [|n IH]; intros c Hw; cbn [confirm].
  all: match goal with |- context [try_except ?m ?h] => set (once := try_except m h) end;
    assert (flagged once) as Hf by (apply flagged_try; [apply flagged_matches|]; intros c1 e He; destruct e as [[]| |]; done);
    assert (steps_in (reads quiet) once) as Hs by (unfold once; steps);
    (eapply (told_bind _ _ _ _ (fun l r c' => stays quiet c l r c' /\ (r = Ok true -> confirmed l identity path x)));
     [apply (told_stays quiet); [|done|done];
      eapply (told_try _ _ _ _ (fun l r _ => r = Ok true -> confirmed l identity path x)); [by apply told_matches|done|];
      intros e l1 c1 _; destruct e as [[]| |]; first [apply told_ret|apply told_raise]; done|done|]).
  - intros [] l1 c1 [Hst H1]; apply told_ret; rewrite app_nil_r; [auto|done].
  - intros [] l1 c1 [Hst H1]; [apply told_ret; rewrite app_nil_r; auto|].
    eapply told_bind; [apply (told_stays' quiet); [auto with py|auto with py]|done|]. intros [] l2 c2 Hst2.
    eapply told_weaken; [apply IH, (stays_wired _ _ _ _ _ Hst2), (stays_wired _ _ _ _ _ Hst), Hw|]. intros l r c' H Hok.
    rewrite app_assoc. specialize (lasting_confirmed identity path x (l1 ++ l2) l [] (H Hok)). by rewrite app_nil_r.
Qed.

Lemma told_write_intent identity path xml c :
  told clog (write_intent v z identity path xml) c (fun l r _ => match r with
    | Ok _ => exists rows iid a, l = [Saved (rows ++ [(iid, DeviceActionJournal a)])] /\ phase a = "ZONE_CREATION_WRITE_INTENT" /\ backup_ref a = c_backup c
    | Err _ => True end).
Proof.
  unfold write_intent. eapply told_bind_now; [reflexivity|].
  eapply told_bind; [apply told_on, told_record_action|done|]. intros [] l2 c2 [[-> [iid Hp]] Hc2].
  eapply told_weaken; [apply told_on, told_commit|]. intros l [[]|e] c' [H _]; [|done]. cbn in H |- *. subst l.
  eexists (pending (sess c)), iid, _. by rewrite Hp.
Qed.

(** A participant that is guarded, known and inside the scope. *)
Definition is_cleared (k : string) (l : list event) : Prop :=
  exists ref zone, lookup_key k (devices z) = Some ref /\ Guarded ref ∈ l /\ topology l ref zone /\ require_selected_scope zone (c_targets z) = Ok tt.
Definition cleared (l : list event) : Prop := forall k, k ∈ map fst (devices z) -> is_cleared k l.
Lemma lasting_cleared k : lasting (is_cleared k).
Proof.
  intros l1 l l2 (ref & zone & H1 & H2 & H3 & H4). exists ref, zone. split; [done|]. split; [by apply (lasting_elem (Guarded ref))|].
  split; [|done]. by apply (lasting_topology v parse_xml fromstring ref zone).
Qed.

Lemma told_clear (l : list (string * nat)) c :
  wired c -> told clog (for_each l (fun '(participant, _) => current ← read_topology v parse_xml fromstring z participant; in_scope z current)) c
    (fun es r c' => stays quiet c es r c' /\ match r with Ok _ => forall k, k ∈ map fst l -> is_cleared k es | Err _ => True end).
Proof.
  revert c. induction l as [|[k0 ref0] l IH]; intros c Hw; cbn [for_each].
  { apply told_ret. split; [by split_and!|]. by intros k ?%elem_of_nil. }
  eapply (told_bind _ _ _ _ (fun es r c' => stays quiet c es r c' /\ match r with Ok _ => is_cleared k0 es | Err _ => True end)).
  - apply (told_stays quiet); [|steps|flags].
    eapply told_bind; [by apply told_read_topology|done|]. intros zone l1 c1 (ref & Hr & Hg & Ht).
    apply told_of_res. rewrite app_nil_r. destruct (require_selected_scope _ _) as [[]|] eqn:Es; [|done]. by exists ref, zone.
  - intros e l1 c1 [H _]. split; [exact H|done].
  - intros [] l1 c1 [Hst1 H1]. eapply told_weaken; [apply IH, (stays_wired _ _ _ _ _ Hst1), Hw|].
    intros es r c' [Hst2 H2]. split.
    + destruct Hst1 as (K1 & A1 & B1 & C1 & _), Hst2 as (K2 & A2 & B2 & C2 & F2).
      split_and!; [by rewrite forallb_app, K1, K2|congruence..|by rewrite <- A1].
    + destruct r as [[]|e]; [|done]. intros k [->|Hk]%elem_of_cons; [by apply (lasting_cleared _ [])|].
      specialize (lasting_cleared k l1 es [] (H2 k Hk)). by rewrite app_nil_r.
Qed.

(** A write that was made: planned, cleared since the call began, and confirmed after the
    one request it made. *)
Definition careful_write (identity path xml : string) (l : list event) (r : res exn string) : Prop :=
  exists l1 req l2 ref x, l = l1 ++ req ++ l2 /\ posts l1 = [] /\ posts l2 = [] /\ lookup_key identity (devices z) = Some ref
    /\ planned_write ref identity path xml x /\ cleared l1
    /\ (req = [] \/ exists cl a, c_device cl = ref /\ req = [Posted cl path xml a])
    /\ match r with
       | Ok _ => confirmed l2 identity path x
       | Err (ZoneCreationError _ attempted _ _ _) => attempted = true
       | Err _ => True
       end.
Definition no_write (before_ : bool) (l : list event) (r : res exn string) : Prop :=
  posts l = [] /\ exists e, r = Err e /\ flag_ok r before_.

Abbreviation kept_in := (keeps ["ZONE_CREATION_WRITE_INTENT"] ref_text).

Lemma told_request identity path xml ref c :
  wired c -> lookup_key identity (devices z) = Some ref ->
  told clog (answered (c ← gets clients; c ← item identity c; on (post v c path xml))) c
    (fun l r c' => (l = [] \/ exists cl a, c_device cl = ref /\ l = [Posted cl path xml a]) /\ clients c' = clients c
       /\ attempted c' = attempted c /\ c_backup c' = c_backup c /\ flag_ok r (attempted c)).
Proof.
  intros Hw Hr. set (P := fun l => l = [] \/ exists cl a, c_device cl = ref /\ l = [Posted cl path xml a]).
  set (same := fun c' : creation W => clients c' = clients c /\ attempted c' = attempted c /\ c_backup c' = c_backup c).
  unfold answered. eapply (told_weaken _ _ _ (fun l r c' => P l /\ same c' /\ flag_ok r (attempted c))).
  2: { intros l r c' (H1 & (H2 & H3 & H4) & H5). by split_and!. }
  eapply (told_try _ _ _ _ (fun l r c' => P l /\ same c' /\ match r with Ok _ => True | Err e => exists x, e = Fault x end)).
  - eapply (told_bind _ _ _ _ (fun l r c' => P l /\ same c' /\ match r with Ok _ => True | Err e => exists x, e = Fault x end)).
    + eapply told_bind_now; [reflexivity|]. unfold item.
      destruct (lookup_key identity (clients c)) as [cl|] eqn:E; [|apply told_raise; split_and!; [by left|done..|by eexists]].
      eapply told_bind_now; [reflexivity|]. apply Hw in E. rewrite Hr in E. injection E as E.
      eapply told_weaken; [apply told_on, told_post|]. intros l r c' [(a & -> & ->) Hc]. rewrite Hc. split; [by right; exists cl, a|].
      split; [done|]. destruct a as [|x]; [done|]. by exists x.
    + done.
    + intros a l1 c1 H. apply told_ret. by rewrite app_nil_r.
  - intros a l c1 (H1 & H2 & _). by split_and!.
  - intros e l c1 (H1 & H2 & [x ->]). destruct x; cbn; first [apply told_ret|apply told_raise]; rewrite app_nil_r; by split_and!.
Qed.

Lemma stays_looks {A} c l (r : res exn A) c' : stays quiet c l r c' -> stays looks c l r c'.
Proof. intros (K & H). split; [by apply quiet_looks|done]. Qed.
Lemma stays_app p {A B} c l1 (r1 : res exn A) c1 l2 (r : res exn B) c2 : stays p c l1 r1 c1 -> stays p c1 l2 r c2 -> stays p c (l1 ++ l2) r c2.
Proof.
  intros (K1 & A1 & B1 & C1 & _) (K2 & A2 & B2 & C2 & F2).
  split_and!; [by rewrite forallb_app, K1, K2|congruence..|by rewrite <- A1].
Qed.

(** What one call of [post_xml] adds. *)
Definition post_outcome (id : Z) (identity path xml : string) (c : creation W) (l : list event) (r : res exn string) (c' : creation W) : Prop :=
  kept_in [id] l /\ c_backup c' = c_backup c /\ clients c' = clients c
  /\ ((no_write (attempted c) l r /\ attempted c' = attempted c) \/ (careful_write identity path xml l r /\ attempted c' = true)).

Lemma no_post id identity path xml {A} c l (r : res exn A) c' e :
  stays looks c l r c' -> r = Err e -> post_outcome id identity path xml c l (Err e) c'.
Proof.
  intros (K & A1 & B1 & C1 & F1) ->. split; [by apply keeps_looks|]. split; [done|]. split; [done|]. left.
  split; [|done]. split; [by apply posts_looks|by exists e].
Qed.

(** The request with its intent before and its readback behind it. *)
Lemma post_outcome_intro id identity path xml c l1 rows iid a l2 req l3 ref x (r : res exn string) c' :
  forallb looks l1 = true -> forallb quiet l2 = true -> forallb looks l3 = true ->
  phase a = "ZONE_CREATION_WRITE_INTENT" -> backup_ref a = ref_text id ->
  lookup_key identity (devices z) = Some ref -> planned_write ref identity path xml x -> cleared l1 ->
  (req = [] \/ exists cl a, c_device cl = ref /\ req = [Posted cl path xml a]) ->
  match r with
  | Ok _ => confirmed l3 identity path x
  | Err (ZoneCreationError _ attempted _ _ _) => attempted = true
  | Err _ => True
  end ->
  c_backup c' = c_backup c -> clients c' = clients c -> attempted c' = true ->
  post_outcome id identity path xml c (l1 ++ Saved (rows ++ [(iid, DeviceActionJournal a)]) :: l2 ++ req ++ l3) r c'.
Proof.
  intros K1 K2 K3 Hp Hb Hr Hpl Hcl Hreq Ho Hbk Hcs Ha. split; [|split; [done|split; [done|right; split; [|done]]]].
  - destruct Hreq as [->|(cl & an & Hd & ->)].
    + apply keeps_looks. rewrite forallb_app. cbn. by rewrite K1, forallb_app, (quiet_looks _ K2), K3.
    + replace (l1 ++ _) with ((l1 ++ Saved (rows ++ [(iid, DeviceActionJournal a)]) :: l2 ++ [Posted cl path xml an]) ++ l3)
        by (rewrite <- app_assoc; cbn; by rewrite <- app_assoc).
      apply keeps_app; [|by apply keeps_looks]. apply (keeps_intended _ _ _ _ _ _ _ _ _ _ _ _ id); [exact K1|exact K2|rewrite Hp; left|exact Hb|left].
  - exists (l1 ++ Saved (rows ++ [(iid, DeviceActionJournal a)]) :: l2), req, l3, ref, x. split; [rewrite <- app_assoc; done|].
    split; [apply posts_looks; rewrite forallb_app; cbn; by rewrite K1, (quiet_looks _ K2)|]. split; [by apply posts_looks|].
    split; [done|]. split; [done|]. split; [|done]. intros k Hk.
    by apply (lasting_cleared k [] l1 (Saved (rows ++ [(iid, DeviceActionJournal a)]) :: l2)), Hcl.
Qed.

Lemma told_post_xml identity path xml c id :
  wired c -> c_backup c = ref_text id ->
  told clog (post_xml v parse_xml fromstring z identity path xml) c (post_outcome id identity path xml c).
Proof.
  intros Hw Hb. unfold post_xml. eapply told_bind; [apply (told_stays quiet); [apply told_guard|auto with py|auto with py]| |].
  { intros e l c' [H _]. eapply no_post; [by eapply stays_looks|done]. }
  intros ref l1 c1 [Hst1 [Hr _]]. pose proof (stays_wired _ _ _ _ _ Hst1 Hw) as Hw1.
  eapply told_bind; [apply (told_stays quiet); [apply told_planned|apply silent_planned|auto with py]| |].
  { intros e l c' [H _]. eapply no_post; [eapply stays_looks, stays_app; [exact Hst1|exact H]|done]. }
  intros x l2 c2 [Hst2 Hpl]. pose proof (stays_app _ _ _ _ _ _ _ _ Hst1 Hst2) as Hst12. clear Hst1 Hst2.
  eapply told_bind; [apply told_clear, (stays_wired _ _ _ _ _ Hst12), Hw| |].
  { intros e l c' [H _]. rewrite app_assoc. eapply no_post; [eapply stays_looks, stays_app; [exact Hst12|exact H]|done]. }
  intros [] l3 c3 [Hst3 Hcl]. pose proof (stays_app _ _ _ _ _ _ _ _ Hst12 Hst3) as Hst. clear Hst12 Hst3.
  pose proof (stays_wired _ _ _ _ _ Hst Hw) as Hw3.
  eapply told_bind; [apply (told_stays looks); [apply told_write_intent|apply calm_write_intent|auto with py]| |].
  { intros e l c' [H _]. rewrite !app_assoc. eapply no_post; [eapply stays_app; [by eapply stays_looks|exact H]|done]. }
  intros [] l4 c4 [Hst4 (rows & iid & a & -> & Hp & Hba)].
  eapply told_bind; [apply (told_stays' quiet); [steps|flags]| |].
  { intros e l c' H. rewrite !app_assoc. eapply no_post; [|done].
    eapply stays_app; [eapply stays_app; [by eapply stays_looks|exact Hst4]|eapply stays_looks, H]. }
  intros [] l5 c5 Hst5. eapply told_bind; [apply (told_stays' quiet); [auto with py|auto with py]| |].
  { intros e l c' H. rewrite !app_assoc. eapply no_post; [|done].
    eapply stays_app; [eapply stays_app; [eapply stays_app; [by eapply stays_looks|exact Hst4]|by eapply stays_looks]|eapply stays_looks, H]. }
  intros info l6 c6 Hst6. pose proof (stays_app _ _ _ _ _ _ _ _ Hst5 Hst6) as Hst56. clear Hst5 Hst6.
  eapply (told_bind _ _ _ _ (fun l r c' => l = [] /\ r = Ok tt /\ c' = set_attempted c6)); [by exists []; rewrite app_nil_r|by intros e l c' (_ & ? & _)|].
  intros [] l7 c7 (-> & _ & ->).
  assert (forall req l r c', (req = [] \/ exists cl a, c_device cl = ref /\ req = [Posted cl path xml a]) -> forallb looks l = true ->
    match r with Ok _ => confirmed l identity path x | Err (ZoneCreationError _ attempted _ _ _) => attempted = true | Err _ => True end ->
    c_backup c' = c_backup c6 -> clients c' = clients c6 -> attempted c' = true ->
    post_outcome id identity path xml c (l1 ++ l2 ++ l3 ++ [Saved (rows ++ [(iid, DeviceActionJournal a)])] ++ l5 ++ l6 ++ req ++ l) r c') as Hdone.
  { destruct Hst as (K & A1 & B1 & C1 & _), Hst4 as (_ & A4 & B4 & C4 & _), Hst56 as (K56 & A5 & B5 & C5 & _).
    intros req l r c' Hreq Hl Ho Hbk Hcs Ha.
    replace (l1 ++ l2 ++ l3 ++ [Saved (rows ++ [(iid, DeviceActionJournal a)])] ++ l5 ++ l6 ++ req ++ l)
      with ((l1 ++ l2 ++ l3) ++ Saved (rows ++ [(iid, DeviceActionJournal a)]) :: (l5 ++ l6) ++ req ++ l) by (by rewrite <- !app_assoc).
    eapply post_outcome_intro; [rewrite <- app_assoc in K; exact (quiet_looks _ K)|exact K56|exact Hl|exact Hp|congruence|exact Hr|exact Hpl| |exact Hreq|exact Ho|congruence..|exact Ha].
    intros k Hk. specialize (lasting_cleared k (l1 ++ l2) l3 [] (Hcl k Hk)). by rewrite app_nil_r, <- !app_assoc. }
  assert (wired (set_attempted c6)) as Hw6.
  { intros k y Hk. apply (stays_wired _ _ _ _ _ Hst56 (stays_wired _ _ _ _ _ Hst4 Hw3)). exact Hk. }
  eapply told_bind; [by apply told_request| |].
  { intros e l c' (Hreq & C & A' & B & F). rewrite <- (app_nil_r l).
    apply (Hdone l []); [exact Hreq|done| |exact B|exact C|exact A']. destruct e; [done..|exact F]. }
  intros [[response error] rejected] l8 c8 (Hreq & C8 & A8 & B8 & _). cbn in C8, A8, B8.
  assert (path = "/setZone" \/ forall zone, x <> Topology zone) as Hx.
  { destruct Hpl as [[-> _]|[[_ (root & n & _ & _ & _ & _ & ->)]|[-> Hm]]]; [by left|by right|]. right. intros zone ->.
    apply means_value in Hm as [y Hy]; done. }
  eapply told_bind; [apply (told_stays quiet); [apply (told_confirm ref); [|exact Hx|exact Hr]|apply silent_confirm|auto with py]| |].
  { intros k y Hk. apply Hw6. cbn. rewrite <- C8. exact Hk. }
  { intros e l c' [(K & A' & B & C & F) _]. apply (Hdone l8 l); [exact Hreq|by apply quiet_looks| |congruence..].
    destruct e; [done..|]. cbn in F. congruence. }
  intros matched l9 c9 [(K9 & A9 & B9 & C9 & _) Hm].
  assert (attempted c9 = true) as At by (rewrite A9; exact A8).
  destruct (negb matched || rejected) eqn:Em.
  { exists []. rewrite app_nil_r. split; [done|]. rewrite app_nil_r.
    apply (Hdone l8 l9); [exact Hreq|by apply quiet_looks|exact At|cbn; congruence..]. }
  apply orb_false_iff in Em as [->%negb_false_iff _].
  eapply told_bind; [apply (told_stays' looks); [apply calm_step_verified|auto with py]| |].
  { intros e l c' (K & A' & B & C & F). apply (Hdone l8 (l9 ++ l)); [exact Hreq|by rewrite forallb_app, (quiet_looks _ K9), K| |congruence..].
    destruct e; [done..|]. cbn in F. congruence. }
  intros [] l10 c10 (K10 & A10 & B10 & C10 & _). apply told_ret. rewrite app_nil_r.
  apply (Hdone l8 (l9 ++ l10)); [exact Hreq|by rewrite forallb_app, (quiet_looks _ K9), K10| |congruence..].
  by apply (lasting_confirmed identity path x [] l9 l10), Hm.
Qed.

(** *** A whole orchestration *)

(** Every request was planned, and since the last one before it every participant had been
    guarded and found inside the scope. *)
Definition all_careful (l : list event) : Prop :=
  forall la x path xml a lb, l = la ++ Posted x path xml a :: lb ->
  exists la1 la2 identity y, la = la1 ++ la2 /\ posts la2 = [] /\ lookup_key identity (devices z) = Some (c_device x)
    /\ planned_write (c_device x) identity path xml y /\ cleared la2.

Lemma all_careful_silent l : posts l = [] -> all_careful l.
Proof. intros H la x path xml a lb ->. rewrite posts_app in H. by apply app_eq_nil in H as [_ H]. Qed.

Lemma all_careful_app l1 l2 : all_careful l1 -> all_careful l2 -> all_careful (l1 ++ l2).
Proof.
  intros H1 H2 la x path xml a lb E. apply app_eq_app in E as (l & [[-> E]|[-> E]]).
  - destruct l as [|e l]; cbn in E; [|injection E as <- ->; by eapply H1].
    destruct (H2 [] x path xml a lb) as (la1 & la2 & k & y & El & Hrest); [done|]. symmetry in El. apply app_eq_nil in El as [-> ->].
    exists (la ++ []), [], k, y. by rewrite !app_nil_r.
  - destruct (H2 l x path xml a lb E) as (la1 & la2 & k & y & -> & Hrest). exists (l1 ++ la1), la2, k, y. by rewrite app_assoc.
Qed.

Lemma posted_once la e lb l1 e0 l2 : posts l1 = [] -> posts l2 = [] -> posts [e] <> [] ->
  l1 ++ e0 :: l2 = la ++ e :: lb -> la = l1 /\ e = e0.
Proof.
  intros H1 H2 He E. apply app_eq_app in E as (l & [[-> E]|[-> E]]).
  - destruct l as [|x l]; cbn in E; [injection E as -> _; by rewrite app_nil_r|]. injection E as <- _.
    rewrite posts_app in H1. apply app_eq_nil in H1 as [_ H1]. change (posts ([e] ++ l) = []) in H1. rewrite posts_app in H1.
    by apply app_eq_nil in H1 as [? _].
  - destruct l as [|x l]; cbn in E; [injection E as -> _; by rewrite app_nil_r|]. injection E as -> E. rewrite E, posts_app in H2.
    apply app_eq_nil in H2 as [_ H2]. change (posts ([e] ++ lb) = []) in H2. rewrite posts_app in H2. by apply app_eq_nil in H2 as [? _].
Qed.

Lemma all_careful_write identity path xml l r : careful_write identity path xml l r -> all_careful l.
Proof.
  intros (l1 & req & l2 & ref & y & -> & H1 & H2 & Hr & Hp & Hc & Hreq & _). destruct Hreq as [->|(cl & a & Hd & ->)].
  - apply all_careful_silent. by rewrite !posts_app, H1, H2.
  - intros la x path' xml' a' lb E. cbn [app] in E. apply posted_once in E as [-> [= -> -> -> _]]; [|done..].
    exists [], l1, identity, y. rewrite Hd. done.
Qed.

Lemma told_attempt {S A} (lg : S -> list event) (m : ST S exn A) s Q :
  told lg m s Q -> told lg (attempt_of m) s (fun l o s' => exists r, o = Ok r /\ Q l r s').
Proof. intros (l & L & H). exists l. unfold attempt_of. destruct (m s) as [r s']. split; [done|]. by exists r. Qed.

Definition performed (id : Z) {A} (c : creation W) (l : list event) (r : res exn A) (c' : creation W) : Prop :=
  kept_in [id] l /\ all_careful l /\ (posts l = [] \/ attempted c' = true) /\ (attempted c = true -> attempted c' = true).

Lemma told_perform {A} (o : orchestration A) c id :
  wired c -> c_backup c = ref_text id -> told clog (perform v parse_xml fromstring z o) c (performed id c).
Proof.
  revert c.
  assert (forall {B} (m : ST (creation W) exn B) (k : res exn B -> orchestration A) c,
    (forall r c, wired c -> c_backup c = ref_text id -> told clog (perform v parse_xml fromstring z (k r)) c (performed id c)) ->
    told clog m c (fun l r c' => performed id c l r c' /\ c_backup c' = c_backup c /\ clients c' = clients c) ->
    wired c -> c_backup c = ref_text id ->
    told clog (r ← attempt_of m; perform v parse_xml fromstring z (k r)) c (performed id c)) as Hstep.
  { intros B m k c IH Hm Hw Hb. eapply told_bind; [apply told_attempt, Hm|by intros e l c' (r & ? & _)|].
    intros r l1 c1 (r' & [= <-] & (K1 & A1 & P1 & T1) & B1 & C1). eapply told_weaken; [apply IH; [|congruence]|].
    { unfold wired. by rewrite C1. }
    intros l r' c' (K & Al & P & T). split; [by apply keeps_app|]. split; [by apply all_careful_app|]. split; [|auto].
    rewrite posts_app. destruct P1 as [->|P1]; [exact P|right; auto]. }
  assert (forall {B} l (r : res exn B) c c', stays looks c l r c' -> performed id c l r c' /\ c_backup c' = c_backup c /\ clients c' = clients c) as Hstay.
  { intros B l r c c' (K & Ha & Hb & Hc & _). split; [|done]. split; [by apply keeps_looks|].
    split; [by apply all_careful_silent, posts_looks|]. split; [left; by apply posts_looks|congruence]. }
  induction o as [a|e|k path kont IH|k path xml kont IH|ms kont IH]; intros c Hw Hb; cbn [perform].
  - apply told_ret. by apply (Hstay A [] (Ok a)).
  - apply told_raise. split; [by apply keeps_looks|]. split; [by apply all_careful_silent|]. split; [by left|done].
  - apply Hstep; [exact IH| |done|done]. unfold checked. destruct (is_some _).
    + eapply told_weaken; [apply (told_stays' quiet); auto with py|]. intros l r c' H. by apply Hstay, stays_looks.
    + eapply told_weaken; [apply (told_stays' looks); auto with py|]. intros l r c' H. by apply Hstay.
  - apply Hstep; [exact IH| |done|done]. unfold checked. destruct (is_some _).
    + eapply told_weaken; [by apply (told_post_xml k path xml c id)|]. intros l r c' (K & B & C & H). split; [|done].
      split; [done|]. destruct H as [[[P _] Ha]|[H Ha]].
      * split; [by apply all_careful_silent|]. split; [by left|congruence].
      * split; [by eapply all_careful_write|]. split; [by right|done].
    + eapply told_weaken; [apply (told_stays' looks); auto with py|]. intros l r c' H. by apply Hstay.
  - apply Hstep; [exact IH| |done|done]. eapply told_weaken; [apply (told_stays' looks); [auto with py|]|].
    + apply flagged_on. auto with py.
    + intros l r c' H. by apply Hstay.
Qed.

(** *** The preparation *)
Lemma lookup_distinct {A} k (x : A) d : distinct (map fst d) = true -> (k, x) ∈ d -> lookup_key k d = Some x.
Proof.
  induction d as [|[k0 x0] d IH]; [by intros _ ?%elem_of_nil|]. cbn. intros [Hn Hd]%andb_true_iff [[= <- <-]|Hin]%elem_of_cons.
  - by rewrite bool_decide_true.
  - rewrite bool_decide_false; [by apply IH|]. intros ->. apply negb_true_iff, bool_decide_eq_false in Hn. apply Hn.
    by apply (list_elem_of_fmap_2 fst) in Hin.
Qed.

Lemma told_make_clients l c :
  (forall k ref, (k, ref) ∈ l -> lookup_key k (devices z) = Some ref) -> wired c ->
  told clog (for_each l (fun '(identity, ref) => guard v z identity;; x ← on (make_client v ref); modify (add_client identity x))) c
    (fun es r c' => forallb looks es = true /\ attempted c' = attempted c /\ wired c').
Proof.
  revert c. induction l as [|[k ref] l IH]; intros c Hl Hw; cbn [for_each]; [by apply told_ret|].
  eapply (told_bind _ _ _ _ (fun es r c' => forallb looks es = true /\ attempted c' = attempted c /\ wired c')).
  - eapply told_bind; [apply (told_stays' quiet); [auto with py|auto with py]| |].
    { intros e es c' H. split; [apply quiet_looks, H|]. split; [apply H|by eapply stays_wired]. }
    intros ref' l1 c1 Hst. eapply told_bind; [apply told_on, told_make_client| |].
    { intros e es c' [[-> _] ->]. rewrite app_nil_r. split; [apply quiet_looks, Hst|]. split; [apply Hst|by eapply stays_wired]. }
    intros x es c' [[-> Hx] ->]. exists []. rewrite !app_nil_r. split; [done|]. split; [apply quiet_looks, Hst|].
    split; [apply Hst|]. intros k' y. cbn. rewrite lookup_set_key. destruct (decide (k = k')) as [<-|Hk].
    + rewrite bool_decide_true by done. intros [= <-]. rewrite Hx. apply Hl. left.
    + rewrite bool_decide_false by done. apply (stays_wired _ _ _ _ _ Hst Hw).
  - done.
  - intros [] l1 c1 (K1 & A1 & W1). eapply told_weaken; [apply IH; [|exact W1]; intros k' r' H; apply Hl; by right|].
    intros es r c' (K & Ha & Hw'). rewrite forallb_app, K1, K. split; [done|]. split; [congruence|done].
Qed.

Lemma told_save_states digest content c :
  told clog (save_states v z digest content) c (fun l r c' => forallb looks l = true /\ attempted c' = attempted c /\ clients c' = clients c
    /\ match r with
       | Ok id => c_backup c' = ref_text id /\ exists rows dev name, l = [Saved rows] /\ (id, ConfigBackup dev name content) ∈ rows
       | Err _ => True end).
Proof.
  unfold save_states. eapply told_bind; [apply (told_stays looks); [apply told_on, told_get_device|auto with py|auto with py]|by intros e l c' [_ [(_ & ? & _) _]]|].
  intros d l1 c1 [(_ & A1 & _ & C1 & _) [(-> & _) _]].
  eapply told_bind; [apply (told_stays looks); [apply told_on, told_add|auto with py|auto with py]| |].
  { intros e l c' [(_ & A & _ & C & _) [[-> _] _]]. split_and!; [done|congruence..|done]. }
  intros id l2 c2 [(_ & A2 & _ & C2 & _) [[-> Hp2] _]].
  eapply (told_bind _ _ _ _ (fun l r c' => l = [] /\ r = Ok tt /\ c' = set_backup (ref_text id) c2)); [by exists []; rewrite app_nil_r|by intros e l c' (_ & ? & _)|].
  intros [] l3 c3 (-> & _ & ->).
  eapply told_bind; [apply (told_stays looks); [apply told_on, told_get_device|auto with py|auto with py]|by intros e l c' [_ [(_ & ? & _) _]]|].
  intros d' l4 c4 [(_ & A4 & B4 & C4 & _) [(-> & _ & Hs4) _]]. cbn in A4, B4, C4, Hs4.
  eapply told_bind; [apply (told_stays looks); [apply told_on, told_record_action|auto with py|auto with py]| |].
  { intros e l c' [(_ & A & _ & C & _) [[-> _] _]]. split_and!; [done|congruence..|done]. }
  intros [] l5 c5 [(_ & A5 & B5 & C5 & _) [[-> [iid Hp5]] _]].
  eapply told_bind; [apply (told_stays looks); [apply told_on, told_commit|auto with py|auto with py]| |].
  { intros e l c' [(K & A & _ & C & _) _]. split_and!; [done|congruence..|done]. }
  intros [] l6 c6 [(_ & A6 & B6 & C6 & _) [-> _]]. apply told_ret. split; [done|]. do 3 (split; [congruence|]). eexists _, _, _. split; [done|]. rewrite Hp5, Hs4, Hp2. apply elem_of_app. left. apply elem_of_app. right. left.
Qed.

Lemma told_prepare c :
  distinct (map fst (devices z)) = true -> wired c ->
  told clog (prepare v parse_xml fromstring z) c (fun l r c' => forallb looks l = true /\ attempted c' = attempted c
    /\ match r with Ok _ => exists id, secures id l /\ c_backup c' = ref_text id /\ wired c' | Err _ => True end).
Proof.
  intros Hd Hw. unfold prepare. eapply told_bind; [apply told_make_clients; [by intros k ref; apply lookup_distinct|done]|by intros e l c' (K & A & _)|].
  intros [] l1 c1 (K1 & A1 & W1). eapply told_bind; [apply (told_reads quiet), silent_back_up| |].
  { intros e l c' (K & A & _). rewrite forallb_app, K1, (quiet_looks _ K). split_and!; [done|congruence|done]. }
  intros [] l2 c2 (K2%quiet_looks & A2 & B2 & C2). eapply told_bind_now; [reflexivity|]. cbv zeta. set (content := string_of _).
  eapply told_bind; [apply told_save_states| |].
  { intros e l c' (K & A & _). rewrite !forallb_app, K1, K2, K. split_and!; [done|congruence|done]. }
  intros id l3 c3 (K3 & A3 & C3 & B3 & rows & dev & nm & -> & Hin).
  eapply told_bind; [apply (told_stays quiet); [apply told_on, told_read_backup|auto with py|auto with py]| |].
  { intros e l c' [(K%quiet_looks & A & _) _]. rewrite !forallb_app, K1, K2, K3, K. split_and!; [done|congruence|done]. }
  intros stored l4 c4 [(K4%quiet_looks & A4 & B4 & C4 & _) [-> _]].
  assert (forallb looks (l1 ++ l2 ++ [Saved rows] ++ [ReadBack id stored]) = true) as K by (by rewrite !forallb_app, K1, K2, K3, K4).
  eapply (told_bind _ _ _ _ (fun l r c' => l = [] /\ c' = c4 /\ (r = Ok tt -> exists x, stored = Some x /\ sha256_hex x = sha256_hex content))).
  { destruct stored as [x|]; [|by exists []; rewrite app_nil_r]. case_bool_decide as Hx; [|by exists []; rewrite app_nil_r].
    apply told_ret. split_and!; [done..|]. intros _. by exists x. }
  { intros e l c' (-> & -> & _). rewrite app_nil_r. split; [exact K|]. split; [congruence|done]. }
  intros [] l5 c5 (-> & -> & Hx). destruct (Hx eq_refl) as (x & -> & Hsha).
  eapply told_weaken; [apply (told_reads quiet), silent_recheck|]. intros l r c' (K6%quiet_looks & A6 & B6 & C6).
  split; [by rewrite !forallb_app, K1, K2, K6|]. split; [congruence|]. destruct r as [[]|e]; [|done]. exists id. split; [|split; [congruence|]].
  - exists (l1 ++ l2), rows, dev, nm, content, x, l. rewrite <- app_assoc. split_and!; [done|by rewrite forallb_app, K1, K2|done|done|done].
  - unfold wired. rewrite C6, C4, C3, C2. exact W1.
Qed.

(** *** Failures *)
Lemma told_failing {A} code every (m : ST (creation W) exn A) c Q :
  told clog m c Q ->
  told clog (failing v z code every m) c (fun l r c' => exists l1 l2 r1 c1, l = l1 ++ l2 /\ forallb looks l2 = true
    /\ Q l1 r1 c1 /\ (attempted c1 = true -> attempted c' = true) /\ match r with Ok _ => r = r1 /\ c' = c1 /\ l2 = [] | Err _ => True end).
Proof.
  intros H. unfold failing. eapply told_try; [exact H| |].
  - intros a l c1 HQ. exists l, [], (Ok a), c1. by rewrite app_nil_r.
  - intros e l1 c1 HQ. destruct (every || caught e).
    + eapply told_bind; [apply (told_reads looks), calm_record_failure| |].
      { intros x l2 c2 (K & Ha & _). exists l1, l2, (Err e), c1. split_and!; [done..|congruence|done]. }
      intros [] l2 c2 (K & Ha & _). assert (forall x : exn, told clog (raise x : ST (creation W) exn A) c2 (fun l3 r c' =>
        exists l4 l5 r1 c3, l1 ++ l2 ++ l3 = l4 ++ l5 /\ forallb looks l5 = true /\ Q l4 r1 c3
          /\ (attempted c3 = true -> attempted c' = true) /\ match r with Ok _ => r = r1 /\ c' = c3 /\ l5 = [] | Err _ => True end)) as Hr.
      { intros x. apply told_raise. exists l1, l2, (Err e), c1. rewrite app_nil_r. split_and!; [done..|congruence|done]. }
      destruct e as [f| |]; [destruct (caught (Fault f)); [|apply Hr]|cbn [caught]|apply Hr];
        match goal with |- told _ (fail z code ?x) _ _ => exact (Hr (ZoneCreationError code (attempted c2) (c_backup c2) (c_job z) x)) end.
    + apply told_raise. exists l1, [], (Err e), c1. by rewrite !app_nil_r.
Qed.

(** The preparation and the orchestration behind it. *)
Lemma told_creation {A} (body : orchestration A) c :
  distinct (map fst (devices z)) = true -> wired c ->
  told clog (failing v z "ZONE_CREATION_PREFLIGHT_FAILED" false (prepare v parse_xml fromstring z);;
             failing v z "ZONE_CREATION_FAILED" true (perform v parse_xml fromstring z body)) c
    (fun l r c' => kept_in [] l /\ all_careful l).
Proof.
  intros Hd Hw. eapply told_bind; [by apply told_failing, told_prepare| |].
  { intros e l c' (l1 & l2 & r1 & c1 & -> & K2 & (K1 & _) & _). assert (forallb looks (l1 ++ l2) = true) as K by (by rewrite forallb_app, K1, K2).
    split; [by apply keeps_looks|by apply all_careful_silent, posts_looks]. }
  intros [] l c' (l1 & l2 & r1 & c1 & -> & _ & (K1 & A1 & H1) & _ & <- & -> & ->). destruct H1 as (id & Hs & Hb & Hw').
  eapply told_weaken; [by apply told_failing, (told_perform _ _ id)|]. intros l r c' (l3 & l4 & r3 & c3 & -> & K4 & (K3 & C3 & _) & _).
  rewrite app_nil_r. split.
  - apply (keeps_secured _ _ id); [exact Hs|]. apply keeps_app; [exact K3|by apply keeps_looks].
  - apply all_careful_app; [by apply all_careful_silent, posts_looks|]. apply all_careful_app; [exact C3|by apply all_careful_silent, posts_looks].
Qed.
End CreationFacts.

Section Theorems.
Context {W : Type} (v : env W) (parse_xml : string -> option element) (fromstring : string -> res fault element).

Lemma told_scope {A} active refs requested (body : scope -> orchestration A) s :
  told log (creation_scope v parse_xml fromstring active refs requested body) s (fun l _ _ =>
    keeps ["ZONE_CREATION_WRITE_INTENT"] ref_text [] l
    /\ exists w job, all_careful v parse_xml fromstring (start (fun ref => device v ref w) refs job requested) l).
Proof.
  assert (forall (w : W) l, forallb looks l = true -> keeps ["ZONE_CREATION_WRITE_INTENT"] ref_text [] l
    /\ exists w job, all_careful v parse_xml fromstring (start (fun ref => device v ref w) refs job requested) l) as Hnone.
  { intros w l K. split; [by apply keeps_looks|]. exists w, "". by apply all_careful_silent, posts_looks. }
  unfold creation_scope. eapply told_bind; [apply (told_adds looks); steps|intros e l s1 K; by apply (Hnone (world s))|].
  intros [] l1 s1 K1. eapply told_bind_now; [reflexivity|].
  destruct (bool_decide (refs = [])); [apply told_raise; rewrite app_nil_r; by apply (Hnone (world s))|].
  destruct (distinct _) eqn:Hd; cbn [negb orb]; [|apply told_raise; rewrite app_nil_r; by apply (Hnone (world s))].
  destruct active; [apply told_raise; rewrite app_nil_r; by apply (Hnone (world s))|].
  eapply told_bind; [apply (told_adds looks), adds_fresh| |].
  { intros e l s2 K. apply (Hnone (world s)). by rewrite forallb_app, K1, K. }
  intros u l2 s2 K2. cbv zeta. set (z := start _ refs u requested).
  match goal with |- told log (within ?m) s2 _ => set (run := m) end.
  destruct (told_creation v parse_xml fromstring z (body z)
    {| sess := s2; attempted := false; c_backup := ""; clients := []; before := []; steps_seen := []; observed := [] |}) as (l & L & K & C).
  { unfold z, start. cbn [devices]. rewrite map_map. exact Hd. }
  { by intros k x. }
  exists l. unfold within. fold run in L. destruct (run _) as [r c]. split; [exact L|].
  assert (forallb looks (l1 ++ l2) = true) as K12 by (by rewrite forallb_app, K1, K2). rewrite app_assoc. split.
  - apply keeps_app; [by apply keeps_looks|exact K].
  - exists (world s1), u. apply all_careful_app; [by apply all_careful_silent, posts_looks|exact C].
Qed.

(** C12. A change of a zone and the scope in which a zone is created keep the contract of a careful writer, whatever the
    radios answer, whichever call fails or is cancelled, and whatever others do meanwhile: no request leaves for a radio
    outside a transaction, and each one that changes a radio uses up an intent of its own that was already durable and
    names a backup that was durable, read again and found intact. The scope keeps it around every orchestration, run
    inside the transaction of its caller. *)
Theorem zones_keep_the_contract s n :
  watch ["ZONE_INTENT"] ref_text fresh_contract (log s) = Some n ->
  (forall m e remove, exists n', watch ["ZONE_INTENT"] ref_text fresh_contract
     (log (change_zone v parse_xml fromstring m e remove s).2) = Some n' /\ depth n' = depth n)
  /\ (forall A active refs requested (body : scope -> orchestration A) n1, (0 < depth n1)%nat ->
     watch ["ZONE_CREATION_WRITE_INTENT"] ref_text fresh_contract (log s) = Some n1 ->
     exists n', watch ["ZONE_CREATION_WRITE_INTENT"] ref_text fresh_contract
       (log (creation_scope v parse_xml fromstring active refs requested body s).2) = Some n' /\ depth n' = depth n1).
Proof.
  intros Hn. split.
  - intros m e remove. destruct (told_change_zone v parse_xml fromstring m e remove s) as (l & L & K & _).
    rewrite L, watch_app, Hn. cbn. destruct (K n) as (n' & E & D & _). eauto.
  - intros A active refs requested body n1 Hd Hn1. destruct (told_scope active refs requested body s) as (l & L & K & _).
    rewrite L, watch_app, Hn1. cbn. destruct (K n1) as (n' & E & D & _); [done|by intros id ?%elem_of_nil|]. eauto.
Qed.

(** C13. A change of a zone asks once, when it is sure, and answers truly. Either nothing was sent and the error says so,
    or at most one request left: the wanted zone, to the master, after every participant - the master and all members of
    the expected zone - had passed the guard, had proved its identity and showed its zone once more, after a backup of all
    participants' zones was durable and read again intact: the same zone as in that backup, and one the caller's
    expectation allows. A success means that every participant, read after the request, has its part in the wanted
    zone; an error from then on says that a request was attempted. *)
Theorem zone_change_is_careful m e remove s :
  let '(o, s') := change_zone v parse_xml fromstring m e remove s in
  exists l, log s' = log s ++ l
    /\ (refused_change l o \/ careful_change v parse_xml fromstring m e remove l o).
Proof.
  destruct (told_change_zone v parse_xml fromstring m e remove s) as (l & L & _ & H).
  destruct (change_zone _ _ _ m e remove s) as [o s']. by exists l.
Qed.

(** C14. Inside the scope of a creation no orchestration can do more than was planned. Every request that may change a radio
    goes to a selected radio and is the zone of exactly the selected radios sent to their master, a volume in 0..100, or
    a valid latency mode; and since the request before it every selected radio had passed the guard, had proved its
    identity and was in no zone but one of selected radios. *)
Theorem creation_writes_are_planned {A} active refs requested (body : scope -> orchestration A) s :
  let '(o, s') := creation_scope v parse_xml fromstring active refs requested body s in
  exists l w job, log s' = log s ++ l
    /\ all_careful v parse_xml fromstring (start (fun ref => device v ref w) refs job requested) l.
Proof.
  destruct (told_scope active refs requested body s) as (l & L & _ & w & job & H).
  destruct (creation_scope _ _ _ active refs requested body s) as [o s']. by exists l, w, job.
Qed.

(** C15. A step of a creation asks once and answers truly: it returns only when the radio that was written - for a zone,
    every selected radio - was read after the request and is what the request wanted; an error of the creation that
    says nothing was attempted means that nothing was sent. *)
Theorem creation_step_is_true z c id identity path xml :
  wired z c -> c_backup c = ref_text id ->
  let '(r, c') := post_xml v parse_xml fromstring z identity path xml c in
  exists l, log (sess c') = log (sess c) ++ l
    /\ (no_write (attempted c) l r /\ attempted c' = attempted c
        \/ careful_write v parse_xml fromstring z identity path xml l r /\ attempted c' = true).
Proof.
  intros Hw Hb. destruct (told_post_xml v parse_xml fromstring z identity path xml c id Hw Hb) as (l & L & _ & _ & _ & H).
  destruct (post_xml _ _ _ z identity path xml c) as [r c']. by exists l.
Qed.
End Theorems.

(** ** Two radios *)

(** Their state is whether they form a zone; both obey. *)
Definition demo_ids : list string := ["AA"; "BB"].
Definition demo_ip (ref : nat) : string := if bool_decide (ref = 0%nat) then "10.0.0.8" else "10.0.0.6".
Definition demo_id (ref : nat) : string := nth ref demo_ids "BB".
Definition demo_info (ref : nat) : string := "info" +:+ demo_id ref.
Definition demo_device (_ : nat) : nat -> Device := fun ref => {|
  device_id := demo_id ref; name := demo_id ref; model := "SoundTouch 20"; ip_address := demo_ip ref;
  firmware := "27.0.6.46330.5043500 epdbuild"; info_xml := demo_info ref |}.
Definition demo_payload : string := payload (demo_device 0) 0 [1%nat].
Definition demo_clear : string := payload (demo_device 0) 0 [].
Definition info_element (id : string) : element :=
  Element "info" [("deviceID", id)] None
    [Element "type" [] (Some "SoundTouch 20") []; Element "variant" [] (Some "spotty") []; Element "moduleType" [] (Some "sm2") [];
     Element "components" [] None [Element "softwareVersion" [] (Some "27.0.6.46330.5043500 epdbuild") []]].
Definition demo_parse (text : string) : option element :=
  if bool_decide (text = "infoAA") then Some (info_element "AA")
  else if bool_decide (text = "infoBB") then Some (info_element "BB")
  else if bool_decide (text = demo_payload) then
    Some (Element "zone" [("master", "AA")] None [Element "member" [("ipaddress", "10.0.0.6")] (Some "BB") []])
  else if bool_decide (text = demo_clear) then Some (Element "zone" [] None [])
  else if bool_decide (text = "volume") then Some (Element "volume" [] None [Element "actualvolume" [] (Some "10") []])
  else Some (Element "rebroadcastlatencymode" [("mode", "SYNC_TO_ZONE")] None []).
Definition demo_fromstring (text : string) : res fault element := match demo_parse text with Some e => Ok e | None => Err ParseError end.

(** The zone as the radios tell it, the next primary key and the backups of the database. *)
Definition demo_world : Type := string * Z * list (Z * string).
Definition demo_env : env demo_world := {|
  device := fun ref _ => demo_device 0 ref; policy := fun _ => Protected.office;
  Radio.guard := fun _ w => (Ok tt, w); enter := fun _ w => (Ok tt, w); leave := fun _ w => w; owns := fun _ _ => true;
  connect := fun ref w => (Ok (demo_ip ref), w);
  get_xml := fun c path w => (Ok (if bool_decide (path = "/info") then demo_info (c_device c)
                                  else if bool_decide (path = "/getZone") then w.1.1
                                  else if bool_decide (path = "/volume") then "volume" else "latency"), w);
  Radio.post_xml := fun _ path xml w => (Ok "<status/>", ((if bool_decide (path = "/setZone") then xml else w.1.1), w.1.2, w.2));
  sleep := fun _ w => (Ok tt, w); uuid4 := fun w => ("0123", w);
  flush := fun _ w => (Ok w.1.2, (w.1.1, w.1.2 + 1, w.2));
  commit := fun rows w => (None, (w.1, w.2 ++ saved_backups rows));
  rollback := fun w => w;
  stored_backup := fun id w => (Ok (snd <$> head (List.filter (fun b => b.1 =? id) w.2)), w);
  setting_value := fun _ w => (Ok None, w);
  all_devices := fun w => (Ok [0%nat; 1%nat], w) |}.
Definition demo_start (zone : string) : session demo_world :=
  {| world := (zone, 1, []); pending := []; log := [Entered demo_ids] |}.
Definition demo_zone : Zone := {| master := "AA"; members := [("BB", "10.0.0.6")] |}.
Definition demo_change : res exn zone_result * session demo_world :=
  change_zone demo_env demo_parse demo_fromstring 0 demo_zone None (demo_start demo_payload).
Definition demo_body (_ : scope) : orchestration string :=
  PostXml "AA" "/setZone" demo_payload (fun r => match r with Ok x => Return x | Err e => Raise e end).
Definition demo_create : res exn string * session demo_world :=
  creation_scope demo_env demo_parse demo_fromstring false [0%nat; 1%nat] JNull demo_body (demo_start demo_clear).

Lemma zones_keep_the_contract_witness :
  (exists r, demo_change.1 = Ok r /\ verified r = true) /\ posts (log demo_change.2) = [(0%nat, "/setZone", demo_clear)]
  /\ demo_create.1 = Ok "<status/>" /\ posts (log demo_create.2) = [(0%nat, "/setZone", demo_payload)]
  /\ (exists n', watch ["ZONE_INTENT"] ref_text fresh_contract (log demo_change.2) = Some n' /\ depth n' = 1%nat)
  /\ exists n', watch ["ZONE_CREATION_WRITE_INTENT"] ref_text fresh_contract (log demo_create.2) = Some n' /\ depth n' = 1%nat.
Proof.
  split; [eexists; split; vm_compute; reflexivity|]. split; [vm_compute; reflexivity|]. split; [vm_compute; reflexivity|].
  split; [vm_compute; reflexivity|]. split.
  - apply (proj1 (zones_keep_the_contract demo_env demo_parse demo_fromstring (demo_start demo_payload)
      {| depth := 1; backups := []; Radio.checked := []; intent := None |} eq_refl) 0%nat demo_zone None).
  - apply (proj2 (zones_keep_the_contract demo_env demo_parse demo_fromstring (demo_start demo_clear)
      {| depth := 1; backups := []; Radio.checked := []; intent := None |} eq_refl) string false [0%nat; 1%nat] JNull demo_body
      {| depth := 1; backups := []; Radio.checked := []; intent := None |}); [cbn; lia|reflexivity].
Defined.

Definition demo_scope : scope := start (demo_device 0) [0%nat; 1%nat] "0123" JNull.
Definition demo_creation : creation demo_world := {|
  sess := demo_start demo_clear; attempted := false; c_backup := ref_text 7;
  clients := [("AA", {| c_device := 0; c_peer := "10.0.0.8" |}); ("BB", {| c_device := 1; c_peer := "10.0.0.6" |})];
  before := []; steps_seen := []; observed := [] |}.

Lemma creation_step_is_true_witness :
  (post_xml demo_env demo_parse demo_fromstring demo_scope "AA" "/setZone" demo_payload demo_creation).1 = Ok "<status/>"
  /\ let '(r, c') := post_xml demo_env demo_parse demo_fromstring demo_scope "AA" "/setZone" demo_payload demo_creation in
     exists l, log (sess c') = [Entered demo_ids] ++ l
       /\ (no_write false l r /\ attempted c' = false
           \/ careful_write demo_env demo_parse demo_fromstring demo_scope "AA" "/setZone" demo_payload l r /\ attempted c' = true).
Proof.
  split; [vm_compute; reflexivity|].
  apply (creation_step_is_true demo_env demo_parse demo_fromstring demo_scope demo_creation 7 "AA" "/setZone" demo_payload); [|reflexivity].
  intros k x. unfold demo_creation, demo_scope, start. cbn. intros H. repeat case_bool_decide; simplify_eq; done.
Defined.

End Zones.
