(* ===== verification/Slots.v ===== *)
(** * What a radio says about its presets

    services/[preset_contract.py] and the observation of [preset_observation.py], without
    requests or rows: the summaries of a preset document, the observation of its six
    slots, the comparison of two documents around a write, and the request a stored intent
    stands for.

    The element model keeps neither the prefixes of a document nor the text after end
    tags, so what [ET.tostring] prints of parsed elements is a parameter, a function of the
    document; [urlparse] is one too. *)
From Stdlib Require Import Ascii String.
From stdpp Require Import sorting.
From S2P Require Import Prelude PyNum PyStr Json Xml Radio Group Zones.
Import Xml Radio.
#[local] Open Scope string_scope.
#[local] Open Scope list_scope.
#[local] Open Scope Z_scope.

Module Slots.

(** ** [urllib.parse] *)
Record url := { scheme : string; netloc : string; url_path : string; query : string }.

Definition hex_value (b : Z) : option Z :=
  if (48 <=? b) && (b <=? 57) then Some (b - 48)
  else if (65 <=? b) && (b <=? 70) then Some (b - 55)
  else if (97 <=? b) && (b <=? 102) then Some (b - 87)
  else None.

(** [unquote_to_bytes]. *)
Fixpoint percent (l : list Z) : list Z :=
  match l with
  | [] => []
  | x :: t =>
      if x =? 37
      then match t with
           | a :: b :: r => match hex_value a, hex_value b with
                            | Some h, Some k => 16 * h + k :: percent r
                            | _, _ => x :: percent t
                            end
           | _ => x :: percent t
           end
      else x :: percent t
  end.

(** [bytes.decode("utf-8", "replace")]: [needed] continuation bytes are missing, the next
    between [lo] and [hi]; every maximal broken prefix becomes U+FFFD. *)
Definition REPLACEMENT : Z := 65533.
Inductive lead : Type := Whole (point : Z) | First (needed : nat) (acc lo hi : Z) | Broken.
Definition lead_byte (b : Z) : lead :=
  if b <? 128 then Whole b
  else if (194 <=? b) && (b <=? 223) then First 1 (b - 192) 128 191
  else if b =? 224 then First 2 0 160 191
  else if b =? 237 then First 2 13 128 159
  else if (225 <=? b) && (b <=? 239) then First 2 (b - 224) 128 191
  else if b =? 240 then First 3 0 144 191
  else if (241 <=? b) && (b <=? 243) then First 3 (b - 240) 128 191
  else if b =? 244 then First 3 4 128 143
  else Broken.
Fixpoint decode_replace (state : option (nat * Z * Z * Z)) (l : list Z) : list Z :=
  let start b rest :=
    match lead_byte b with
    | Whole p => p :: decode_replace None rest
    | First n acc lo hi => decode_replace (Some (n, acc, lo, hi)) rest
    | Broken => REPLACEMENT :: decode_replace None rest
    end in
  match l with
  | [] => match state with Some _ => [REPLACEMENT] | None => [] end
  | b :: rest =>
      match state with
      | None => start b rest
      | Some (n, acc, lo, hi) =>
          if (lo <=? b) && (b <=? hi)
          then match n with
               | S (S n) => decode_replace (Some (S n, 64 * acc + (b - 128), 128, 191)) rest
               | _ => 64 * acc + (b - 128) :: decode_replace None rest
               end
          else REPLACEMENT :: start b rest
      end
  end.

(** [unquote]: every run of ASCII characters is decoded for itself. *)
Definition unquote_run (run : list Z) : list Z := bytes_of (str_of_points (decode_replace None (percent run))).
Fixpoint unquote_runs (l run : list Z) : list Z :=
  match l with
  | [] => unquote_run (rev run)
  | b :: l => if b <? 128 then unquote_runs l (b :: run) else unquote_run (rev run) ++ b :: unquote_runs l []
  end.
Definition unquote (s : string) : string := string_of (unquote_runs (bytes_of s) []).

(** [s.split("=", 1)] into a name and, after the first sign, a value. *)
Fixpoint split_first (c : ascii) (s : string) : string * option string :=
  match s with
  | EmptyString => (EmptyString, None)
  | String x s => if bool_decide (x = c) then (EmptyString, Some s)
                  else let '(a, b) := split_first c s in (String x a, b)
  end.
Definition plus_to_space (s : string) : string := smap (fun c => if bool_decide (c = "+"%char) then " "%char else c) s.

(** [parse_qs(query).get(name, [default])[0]]: the first value that is not blank. *)
Definition query_values (name q : string) : list string :=
  omap (fun pair => match split_first "="%char pair with
                    | (n, Some v) => if negb (empty_str v) && bool_decide (unquote (plus_to_space n) = name)
                                     then Some (unquote (plus_to_space v)) else None
                    | (_, None) => None
                    end) (split_on "&"%char q).
Definition first_value (name d q : string) : string := default d (head (query_values name q)).

(** ** Elements *)

(** [tag.rsplit("}", 1)[-1]]. *)
Fixpoint _xml_local_name (tag : string) : string :=
  match tag with
  | EmptyString => EmptyString
  | String c s => if bool_decide (c = "}"%char) then _xml_local_name s
                  else if existsb (fun b => bool_decide (b = "}"%char)) (list_ascii_of_string s) then _xml_local_name s
                  else String c s
  end.

Definition named (local : string) (e : element) : bool := bool_decide (_xml_local_name (tag e) = local).
(** [e.iter()]. *)
Definition iter (e : element) : list element := e :: descendants e.

Definition _child_text (node : element) (local : string) : string :=
  match head (List.filter (named local) (iter node)) with
  | Some child => py_strip (default "" (text child))
  | None => ""
  end.

(** [_canonical] of maintenance_reboot.py: an element without the order of its attributes
    and the blanks around its texts. *)
Fixpoint _canonical (e : element) : element :=
  match e with
  | Element t a txt cs => Element t (Zones.sorted_pairs a) (Some (py_strip (default "" txt))) (map _canonical cs)
  end.

#[global] Instance element_eq_dec : EqDecision element.
Proof.
  unfold EqDecision, Decision. fix go 1. intros [t a u cs] [t' a' u' cs'].
  assert ({cs = cs'} + {cs <> cs'}) as Hcs.
  { revert cs'. induction cs as [|c cs IH]; intros [|c' cs']; [by left|by right|by right|].
    destruct (go c c') as [Hc|N]; [|right; congruence]. destruct (IH cs') as [Hs|N]; [left|right]; congruence. }
  destruct (decide (t = t')) as [Ht|N]; [|right; congruence]. destruct (decide (a = a')) as [Ha|N]; [|right; congruence].
  destruct (decide (u = u')) as [Hu|N]; [|right; congruence]. destruct Hcs as [Hs|N]; [left|right]; congruence.
Defined.

(** ** Summaries *)
Record summary := {
  button : Z; source : string; source_account : string; kind : string; location : string; item_name : string;
  container_art : string; container_art_present : bool; content_item_xml : string
}.

(** What a projection adds: the Orion payload of the location and the reprinted content. *)
Record projection := { row : summary; orion_payload : string }.

#[global] Instance summary_eq_dec : EqDecision summary.
Proof. solve_decision. Defined.
#[global] Instance projection_eq_dec : EqDecision projection.
Proof. solve_decision. Defined.

(** The fields two summaries are compared in, in the order of the code. *)
Inductive field : Type := Fsource | Fsource_account | Ftype | Fitem_name | Fcontainer_art | Fcontainer_art_present.
Definition FIELDS : list field := [Fsource; Fsource_account; Ftype; Fitem_name; Fcontainer_art; Fcontainer_art_present].
#[global] Instance field_eq_dec : EqDecision field.
Proof. solve_decision. Defined.

Definition value := (string + bool)%type.
Definition field_of (s : summary) (f : field) : value :=
  match f with
  | Fsource => inl (source s)
  | Fsource_account => inl (source_account s)
  | Ftype => inl (kind s)
  | Fitem_name => inl (item_name s)
  | Fcontainer_art => inl (container_art s)
  | Fcontainer_art_present => inr (container_art_present s)
  end.
Definition same_field (a b : summary) (f : field) : bool := bool_decide (field_of a f = field_of b f).

(** What is expected of a slot: the values of the keys that are present and not [None]. *)
Definition wanted := list (field * value).
Definition wants (s : summary) : wanted := map (fun f => (f, field_of s f)) FIELDS.
Fixpoint want (w : wanted) (f : field) : option value :=
  match w with
  | [] => None
  | (k, v) :: w => if bool_decide (k = f) then Some v else want w f
  end.

Section Documents.
(** [parse_xml] of core/xml_safety.py, [SafeXML.fromstring(xml, forbid_dtd=True)]. *)
Context (parse_xml : string -> option element) (fromstring : string -> res fault element).
(** [ET.tostring] of the content of the [i]-th preset of a document, and of a document
    that [parse_xml] reads. *)
Context (content_xml : string -> nat -> string) (reprint : string -> option string).
(** [urlparse]: [None] for its [ValueError]. *)
Context (urlparse : string -> option url).

(** The first of [id], [button], [index] that is not empty, or the position. *)
Definition button_of (node : element) (position : nat) : res fault Z :=
  match List.filter (fun s => negb (empty_str s)) (omap (fun k => attr k node) ["id"; "button"; "index"]) with
  | s :: _ => match py_int s with Some n => Ok n | None => Err ValueError end
  | [] => Ok (Z.of_nat position)
  end.

Definition summary_of (doc : string) (i : nat) (node : element) : res fault summary :=
  b ← button_of node (S i);
  Ok match head (List.filter (named "ContentItem") (iter node)) with
     | Some c => {| button := b; source := attr_or "source" "" c; source_account := attr_or "sourceAccount" "" c;
                    kind := attr_or "type" "" c; location := attr_or "location" "" c; item_name := _child_text c "itemName";
                    container_art := _child_text c "containerArt"; container_art_present := existsb (named "containerArt") (children c);
                    content_item_xml := content_xml doc i |}
     | None => {| button := b; source := ""; source_account := ""; kind := ""; location := ""; item_name := "";
                  container_art := ""; container_art_present := false; content_item_xml := "" |}
     end.

Fixpoint summaries_of (doc : string) (i : nat) (nodes : list element) : res fault (list summary) :=
  match nodes with
  | [] => Ok []
  | node :: nodes => s ← summary_of doc i node; rest ← summaries_of doc (S i) nodes; Ok (s :: rest)
  end.

Definition preset_summaries_from_xml (doc : string) : res fault (list summary) :=
  match parse_xml doc with
  | None => Ok []
  | Some root => summaries_of doc 0 (List.filter (named "preset") (iter root))
  end.

(** ** Locations *)
Definition _orion_data_key (location : string) : string :=
  match urlparse location with
  | None => ""
  | Some u => unquote (first_value "data" "" (query u))
  end.

Definition _locations_match (left right : string) : bool :=
  let left := py_strip left in
  let right := py_strip right in
  if empty_str left || empty_str right then false
  else if bool_decide (left = right) then true
  else let left_data := _orion_data_key left in
       let right_data := _orion_data_key right in
       negb (empty_str left_data) && negb (empty_str right_data) && bool_decide (left_data = right_data).

Definition _canonical_xml (t : string) : string := default (py_strip t) (reprint t).

Definition _preset_projection (s : summary) : projection :=
  {| row := {| button := button s; source := source s; source_account := source_account s; kind := kind s;
               location := location s; item_name := item_name s; container_art := container_art s;
               container_art_present := container_art_present s; content_item_xml := _canonical_xml (content_item_xml s) |};
     orion_payload := _orion_data_key (location s) |}.

Definition _preset_contract_matches (actual expected : option projection) : bool :=
  match actual, expected with
  | Some a, Some e => _locations_match (location (row a)) (location (row e)) && forallb (same_field (row a) (row e)) FIELDS
  | _, _ => false
  end.

(** ** [compare_preset_snapshots] *)
Inductive status : Type := Verified | Mismatch | Missing | Normalized | Unchanged | Changed.
#[global] Instance status_eq_dec : EqDecision status.
Proof. solve_decision. Defined.

Inductive unexpected : Type :=
| TargetField (button : Z) (f : field) (before after : value)
| SlotChanged (button : Z) (before : projection) (after : option projection)
| SlotAdded (button : Z) (after : projection).
#[global] Instance unexpected_eq_dec : EqDecision unexpected.
Proof. solve_decision. Defined.

Inductive overall : Type := verified_status | partial_failure | integrity_failure.
#[global] Instance overall_eq_dec : EqDecision overall.
Proof. solve_decision. Defined.

Record integrity := {
  target_verified : bool; untouched_slots_verified : bool;
  normalization_detected : list (Z * string * string);         (* button, location before and after *)
  unexpected_changes : list unexpected;
  slot_results : list (Z * bool * status);                      (* button, whether it is a target *)
  before_slot_count : nat; after_slot_count : nat
}.
Definition overall_status (i : integrity) : overall :=
  match unexpected_changes i with
  | [] => if target_verified i && untouched_slots_verified i then verified_status else partial_failure
  | _ :: _ => integrity_failure
  end.
Definition rollback_recommended (i : integrity) : bool := negb (bool_decide (unexpected_changes i = [])).
Definition manual_review_required (i : integrity) : bool := rollback_recommended i || negb (target_verified i).

(** [{int(item["button"]): _preset_projection(item) for item in rows}]: the last of equal
    buttons counts. *)
Definition by_button (rows : list summary) : gmap Z projection :=
  foldl (fun m s => <[button s := _preset_projection s]> m) ∅ rows.

(** One target: whether it is as expected, and the fields that are not. *)
Definition field_changes (b : Z) (w : wanted) (actual : summary) : list unexpected :=
  omap (fun f => match want w f with
                 | Some v => if bool_decide (field_of actual f = v) then None else Some (TargetField b f v (field_of actual f))
                 | None => None
                 end) FIELDS.
Definition check_target (after : gmap Z projection) (b : Z) (expected : string) (w : wanted)
    : bool * list unexpected * (Z * bool * status) :=
  match after !! b with
  | None => (false, [], (b, true, Missing))
  | Some a =>
      let changes := field_changes b w (row a) in
      let ok := _locations_match (location (row a)) expected && bool_decide (changes = []) in
      (ok, changes, (b, true, if ok then Verified else Mismatch))
  end.

(** [f"{scheme}://{netloc}"] of a location that has both. *)
Definition origin_of (u : url) : option string :=
  if empty_str (scheme u) || empty_str (netloc u) then None else Some (scheme u ++ "://" ++ netloc u)%string.

(** A slot nobody asked to change: [Ok (unchanged, the migration of its location)]. *)
Definition check_untouched (allowed : list string) (before : projection) (after : option projection)
    : res fault (bool * option (string * string)) :=
  if bool_decide (after = Some before) then Ok (true, None)
  else match after with
       | None => Ok (false, None)
       | Some a =>
           match urlparse (location (row a)) with
           | None => Err ValueError
           | Some u =>
               let same_contract :=
                 _locations_match (location (row before)) (location (row a))
                 && forallb (same_field (row before) (row a)) FIELDS
                 && bool_decide (orion_payload before = orion_payload a) in
               if same_contract && bool_decide (default "" (origin_of u) ∈ allowed)
               then Ok (true, Some (location (row before), location (row a)))
               else Ok (false, None)
           end
       end.

Fixpoint check_targets (after : gmap Z projection) (items : Z -> option wanted) (expected : list (Z * string))
    : list (bool * list unexpected * (Z * bool * status)) :=
  match expected with
  | [] => []
  | (b, place) :: expected => check_target after b place (default [] (items b)) :: check_targets after items expected
  end.

Definition untouched_status (unchanged : bool) (migration : option (string * string)) (after : option projection) : status :=
  if is_some migration then Normalized else if unchanged then Unchanged else if is_some after then Changed else Missing.

Fixpoint check_others (allowed : list string) (before after : gmap Z projection) (buttons : list Z)
    : res fault (list (Z * projection * option projection * bool * option (string * string))) :=
  match buttons with
  | [] => Ok []
  | b :: buttons =>
      match before !! b with
      | None => Err OtherException        (* a key of the dictionary is one of its keys *)
      | Some p =>
          '(unchanged, migration) ← check_untouched allowed p (after !! b);
          rest ← check_others allowed before after buttons;
          Ok ((b, p, after !! b, unchanged, migration) :: rest)
      end
  end.

Definition sorted_keys (l : list Z) : list Z := merge_sort Z.le l.
Definition keys {A} (m : gmap Z A) : list Z := (map_to_list m).*1.

(** [expected_items.get(button, {"button": ..., "location": ...})]: no field is compared
    where there is no item. *)
Definition compare_preset_snapshots (before_xml after_xml : string) (expected : list (Z * string))
    (items : Z -> option wanted) (allowed : list string) : res fault integrity :=
  before_list ← preset_summaries_from_xml before_xml;
  after_list ← preset_summaries_from_xml after_xml;
  let before := by_button before_list in
  let after := by_button after_list in
  let targets := map fst expected in
  let target_rows := check_targets after items expected in
  others ← check_others allowed before after (sorted_keys (List.filter (fun b => negb (bool_decide (b ∈ targets))) (keys before)));
  let extra := sorted_keys (List.filter (fun b => negb (bool_decide (b ∈ keys before)) && negb (bool_decide (b ∈ targets))) (keys after)) in
  let changed := omap (fun x => let '(b, p, a, unchanged, _) := x in
                                if unchanged : bool then None else Some (SlotChanged b p a)) others in
  let added := omap (fun b => SlotAdded b <$> after !! b) extra in
  Ok {| target_verified := forallb (fun x => x.1.1) target_rows;
        untouched_slots_verified := forallb (fun x => let '(_, _, _, unchanged, _) := x in unchanged) others && bool_decide (extra = []);
        normalization_detected := omap (fun x => let '(b, _, _, _, m) := x in (fun '(l, r) => (b, l, r)) <$> m) others;
        unexpected_changes := List.concat (map (fun x => x.1.2) target_rows) ++ changed ++ added;
        slot_results := map snd target_rows
          ++ map (fun x => let '(b, _, a, unchanged, m) := x in (b, false, untouched_status unchanged m a)) others;
        before_slot_count := size before; after_slot_count := size after |}.

(** ** [classify_notification_sequence] *)
Record classification := { variant : string; safe_for_full_sync : bool; write_integrity_verified : bool }.
Definition classify_notification_sequence (sequence : list string) : classification :=
  let normalized := map py_strip sequence in
  if bool_decide (normalized = ["storePreset"; "readback"; "notification"; "final_readback"])
  then {| variant := "A"; safe_for_full_sync := false; write_integrity_verified := false |}
  else if bool_decide (normalized = ["notification"; "storePreset"; "readback"])
  then {| variant := "B"; safe_for_full_sync := false; write_integrity_verified := false |}
  else if bool_decide (normalized = ["storePreset"; "readback"])
  then {| variant := "C"; safe_for_full_sync := true; write_integrity_verified := true |}
  else if bool_decide (normalized = ["notification"])
  then {| variant := "D"; safe_for_full_sync := false; write_integrity_verified := false |}
  else {| variant := "unbekannt"; safe_for_full_sync := false; write_integrity_verified := false |}.

(** ** preset_observation.py *)
Record PresetObservation := { raw : string; rows : list summary; slots : gmap Z element }.

Definition _root (xml tg identity : string) : res fault element :=
  if empty_str xml || (131072 <? Z.of_nat (String.length xml)) then Err ValueError
  else
    root ← fromstring xml;
    if negb (has_tag tg root) then Err ValueError
    else if negb (empty_str identity)
            && match attr "deviceID" root with
               | Some id => negb (bool_decide (py_upper id = py_upper identity))
               | None => false end then Err IdentityMismatch
    else Ok root.

Definition SLOTS : list string := ["1"; "2"; "3"; "4"; "5"; "6"].

(** One child of the document: its slot and the content of the slot. *)
Definition read_slot (node : element) : res fault (Z * element) :=
  if negb (named "preset" node) then Err ValueError
  else
    match omap (fun k => attr k node) ["id"; "button"; "index"] with
    | [] => Err ValueError
    | s :: others =>
        if negb (forallb (fun o => bool_decide (o = s)) others) || negb (bool_decide (s ∈ SLOTS)) then Err ValueError
        else
          match py_int s, List.filter (named "ContentItem") (children node) with
          | Some b, [content] =>
              if empty_str (attr_or "source" "" content) || empty_str (attr_or "location" "" content) then Err ValueError
              else Ok (b, _canonical content)
          | _, _ => Err ValueError
          end
    end.

Fixpoint read_slots (nodes : list element) (acc : gmap Z element) : res fault (gmap Z element) :=
  match nodes with
  | [] => Ok acc
  | node :: nodes =>
      '(b, content) ← read_slot node;
      match acc !! b with
      | Some _ => Err ValueError
      | None => read_slots nodes (<[b := content]> acc)
      end
  end.

Definition parse (xml identity : string) : res fault PresetObservation :=
  root ← _root xml "presets" identity;
  slots ← read_slots (children root) ∅;
  rows ← preset_summaries_from_xml xml;
  Ok {| raw := xml; rows := rows; slots := slots |}.

(** [PresetObservation.without]. *)
Definition without (o : PresetObservation) (b : Z) : gmap Z element := delete b (slots o).

Definition decimal (n : Z) : string := string_of (digits (digit_fuel (Z.abs n)) (Z.abs n) []).
(** A document with one preset. *)
Definition preset_element (b : Z) (content : string) : string :=
  ("<preset id=" ++ quote ++ decimal b ++ quote ++ ">" ++ content ++ "</preset>")%string.
Definition document_of (b : Z) (content : string) : string := ("<presets>" ++ preset_element b content ++ "</presets>")%string.

(** [key in requested and requested[key] != value]. *)
Definition contradicts (requested : list (string * json)) (k v : string) : bool :=
  match Json.get k requested with
  | Some (JStr s) => negb (bool_decide (s = v))
  | Some _ => true
  | None => false
  end.

Definition requested_observation (b : Z) (requested : list (string * json)) (identity : string) : res fault PresetObservation :=
  match Json.get "content_item_xml" requested with
  | Some (JStr content) =>
      if empty_str content then Err ValueError
      else
        o ← parse (document_of b content) identity;
        match rows o with
        | [] => Err OtherException
        | r :: _ =>
            if contradicts requested "source" (source r) || contradicts requested "source_account" (source_account r)
               || contradicts requested "location" (location r) then Err ValueError
            else Ok o
        end
  | _ => Err ValueError
  end.
End Documents.


(** ** The comparison is exact *)
Section Exact.
Context (parse_xml : string -> option element) (content_xml : string -> nat -> string) (reprint : string -> option string)
  (urlparse : string -> option url).
#[local] Abbreviation by_button := (by_button reprint urlparse).
#[local] Abbreviation _locations_match := (_locations_match urlparse).
#[local] Abbreviation check_target := (check_target urlparse).
#[local] Abbreviation check_untouched := (check_untouched urlparse).
#[local] Abbreviation check_others := (check_others urlparse).

(** A slot shows what is expected of it. *)
Definition as_expected (after : gmap Z projection) (b : Z) (place : string) (w : wanted) : Prop :=
  exists a, after !! b = Some a /\ _locations_match (location (row a)) place = true
    /\ forall f v, want w f = Some v -> field_of (row a) f = v.

(** The location of a slot moved to an approved origin, and nothing else of it changed. *)
Definition migrated (allowed : list string) (p a : projection) : Prop :=
  (exists u, urlparse (location (row a)) = Some u /\ default "" (origin_of u) ∈ allowed)
  /\ _locations_match (location (row p)) (location (row a)) = true
  /\ (forall f, field_of (row p) f = field_of (row a) f) /\ orion_payload p = orion_payload a.

Definition left_alone (allowed : list string) (after : gmap Z projection) (b : Z) (p : projection) : Prop :=
  after !! b = Some p \/ exists a, after !! b = Some a /\ migrated allowed p a.

(** What the verdict "verified" means. *)
Definition intact (before after : gmap Z projection) (expected : list (Z * string)) (items : Z -> option wanted) (allowed : list string) : Prop :=
  (forall b place, (b, place) ∈ expected -> as_expected after b place (default [] (items b)))
  /\ (forall b p, before !! b = Some p -> b ∉ map fst expected -> left_alone allowed after b p)
  /\ (forall b, is_Some (after !! b) -> is_Some (before !! b) \/ b ∈ map fst expected).

Lemma elem_of_FIELDS f : f ∈ FIELDS.
Proof. unfold FIELDS. rewrite !elem_of_cons. destruct f; auto 10. Qed.

Lemma field_changes_nil b w a : field_changes b w a = [] <-> forall f v, want w f = Some v -> field_of a f = v.
Proof.
  unfold field_changes. split.
  - intros H f v Hw. destruct (decide (field_of a f = v)) as [|Hn]; [done|]. exfalso.
    assert (TargetField b f v (field_of a f) ∈ (omap (fun f => match want w f with
      | Some v => if bool_decide (field_of a f = v) then None else Some (TargetField b f v (field_of a f)) | None => None end) FIELDS)) as Hin.
    { apply list_elem_of_omap. exists f. split; [apply elem_of_FIELDS|]. rewrite Hw. by rewrite bool_decide_false. }
    rewrite H in Hin. by apply elem_of_nil in Hin.
  - intros H. generalize FIELDS. intros l. induction l as [|f l IH]; [done|]. cbn. destruct (want w f) as [v|] eqn:Hw; [|exact IH].
    rewrite bool_decide_true by auto. exact IH.
Qed.

Lemma check_target_ok after b place w : (check_target after b place w).1.1 = true <-> as_expected after b place w.
Proof.
  unfold Slots.check_target, as_expected. destruct (after !! b) as [a|]; cbv zeta; cbn [fst snd]; [|split; [done|by intros (? & ? & _)]].
  rewrite andb_true_iff, bool_decide_eq_true, field_changes_nil. split; [intros []; eauto|]. by intros (x & [= <-] & H1 & H2).
Qed.
Lemma check_target_changes after b place w : (check_target after b place w).1.1 = true -> (check_target after b place w).1.2 = [].
Proof. unfold Slots.check_target. destruct (after !! b) as [a|]; cbv zeta; cbn [fst snd]; [|done]. rewrite andb_true_iff, bool_decide_eq_true. by intros []. Qed.

Lemma targets_hold after items expected :
  forallb (fun x => x.1.1) (check_targets urlparse after items expected) = true
  <-> forall b place, (b, place) ∈ expected -> as_expected after b place (default [] (items b)).
Proof.
  induction expected as [|[b place] l IH]; cbn [check_targets forallb]; [split; [by intros _ b place ?%elem_of_nil|done]|].
  rewrite andb_true_iff, check_target_ok, IH. split.
  - intros [H1 H2] c q [[= -> ->]|Hin]%elem_of_cons; auto.
  - intros H. split; [apply H; left|]. intros c q Hin. apply H. by right.
Qed.
Lemma check_targets_changes after items expected :
  forallb (fun x => x.1.1) (check_targets urlparse after items expected) = true ->
  List.concat (map (fun x => x.1.2) (check_targets urlparse after items expected)) = [].
Proof.
  induction expected as [|[b place] l IH]; [done|]. cbn [check_targets forallb map List.concat]. intros [H1 H2]%andb_true_iff.
  rewrite (check_target_changes _ _ _ _ H1). by apply IH.
Qed.

Lemma check_untouched_ok allowed p after b unchanged m : check_untouched allowed p (after !! b) = Ok (unchanged, m) ->
  unchanged = true <-> left_alone allowed after b p.
Proof.
  unfold Slots.check_untouched, left_alone, migrated. case_bool_decide as Hb; [intros [= <- _]; split; [by left|done]|].
  destruct (after !! b) as [a|]; [|intros [= <- _]; split; [done|]; intros [?|(? & ? & _)]; done].
  destruct (urlparse (location (row a))) as [u|] eqn:Hu; [|done].
  assert (forallb (same_field (row p) (row a)) FIELDS = true <-> forall f, field_of (row p) f = field_of (row a) f) as Hf.
  { rewrite forallb_forall. unfold same_field. split.
    - intros H f. specialize (H f). rewrite bool_decide_eq_true in H. apply H, list_elem_of_In, elem_of_FIELDS.
    - intros H f _. by apply bool_decide_eq_true. }
  destruct (_locations_match (location (row p)) (location (row a)) && _ && _ && _) eqn:Hc; intros [= <- _].
  - rewrite !andb_true_iff, !bool_decide_eq_true, Hf in Hc. destruct Hc as [[[H1 H2] H3] H4]. split; [|done]. intros _. right.
    exists a. split; [done|]. split; [by exists u|done].
  - split; [done|]. intros [?|(x & [= <-] & (u' & Hu' & H1) & H2 & H3 & H4)]; [done|].
    rewrite Hu in Hu'. injection Hu' as <-. apply Hf in H3. rewrite H2, H3, !bool_decide_true in Hc by done. done.
Qed.

Lemma check_others_ok allowed before after bs others : check_others allowed before after bs = Ok others ->
  (forallb (fun x => let '(_, _, _, unchanged, _) := x in unchanged) others = true
   <-> forall b p, b ∈ bs -> before !! b = Some p -> left_alone allowed after b p).
Proof.
  revert others. induction bs as [|b bs IH]; intros others; cbn [Slots.check_others].
  { intros [= <-]. split; [by intros _ b p ?%elem_of_nil|done]. }
  destruct (before !! b) as [p|] eqn:Hp; [|done]. intros ([unchanged m] & Hc & (rest & Hr & [= <-])%bind_Ok)%bind_Ok.
  cbn [forallb]. rewrite andb_true_iff, (IH _ Hr), (check_untouched_ok _ _ _ _ _ _ Hc). split.
  - intros [H1 H2] c q [->|Hin]%elem_of_cons; [|auto]. rewrite Hp. by intros [= <-].
  - intros H. split; [apply H; [left|done]|]. intros c q Hin. apply H. by right.
Qed.
Lemma check_others_changes others :
  forallb (fun x : Z * projection * option projection * bool * option (string * string) => let '(_, _, _, unchanged, _) := x in unchanged) others = true ->
  omap (fun x => let '(b, p, a, unchanged, _) := x in if unchanged : bool then None else Some (SlotChanged b p a)) others = [].
Proof. induction others as [|[[[[b p] a] []] m] l IH]; cbn; [done|exact IH|done]. Qed.

Lemma elem_of_sorted_keys b l : b ∈ sorted_keys l <-> b ∈ l.
Proof. unfold sorted_keys. by rewrite merge_sort_Permutation. Qed.
Lemma elem_of_keys {A} b (m : gmap Z A) : b ∈ keys m <-> is_Some (m !! b).
Proof.
  unfold keys. rewrite list_elem_of_fmap. split.
  - intros ([k x] & -> & H%elem_of_map_to_list). by exists x.
  - intros [x H]. exists (b, x). split; [done|]. by apply elem_of_map_to_list.
Qed.
Lemma elem_of_lfilter {A} (f : A -> bool) x l : x ∈ List.filter f l <-> x ∈ l /\ f x = true.
Proof. rewrite !list_elem_of_In. apply filter_In. Qed.

Lemma added_nil (after : gmap Z projection) extra : (forall b, b ∈ extra -> is_Some (after !! b)) ->
  omap (fun b => SlotAdded b <$> after !! b) extra = [] <-> extra = [].
Proof.
  destruct extra as [|b l]; [done|]. intros H. destruct (H b) as [a Ha]; [left|]. cbn. by rewrite Ha.
Qed.

(** C20. The comparison of two preset documents around a write answers "verified" exactly
    when every target slot shows its location and every field that is expected of it, every
    other slot is as it was - or differs only by an approved origin of the same station -
    and no slot was added.  In particular a difference is never hidden by another slot, and
    the order and number of the targets play no part. *)
Theorem compare_is_exact before_xml after_xml expected items allowed bl al r :
  preset_summaries_from_xml parse_xml content_xml before_xml = Ok bl ->
  preset_summaries_from_xml parse_xml content_xml after_xml = Ok al ->
  compare_preset_snapshots parse_xml content_xml reprint urlparse before_xml after_xml expected items allowed = Ok r ->
  overall_status r = verified_status <-> intact (by_button bl) (by_button al) expected items allowed.
Proof.
  unfold compare_preset_snapshots. intros -> ->. cbn [mbind res_bind]. set (before := by_button bl). set (after := by_button al).
  intros (others & Ho & [= <-])%bind_Ok. unfold overall_status. cbn [unexpected_changes target_verified untouched_slots_verified].
  set (tg := check_targets urlparse after items expected). set (extra := sorted_keys _).
  assert (forall b, b ∈ extra <-> is_Some (after !! b) /\ before !! b = None /\ b ∉ map fst expected) as Hx.
  { intros b. unfold extra. rewrite elem_of_sorted_keys, elem_of_lfilter, elem_of_keys. cbv beta. rewrite andb_true_iff, !negb_true_iff, !bool_decide_eq_false.
    rewrite elem_of_keys, <- eq_None_not_Some. tauto. }
  assert (bool_decide (extra = []) = true <-> forall b, is_Some (after !! b) -> is_Some (before !! b) \/ b ∈ map fst expected) as He.
  { rewrite bool_decide_eq_true. split.
    - intros E b Hb. destruct (before !! b) as [p|] eqn:Hp; [left; by exists p|right]. destruct (decide (b ∈ map fst expected)) as [|Hn]; [done|].
      assert (b ∈ extra) as Hin by (by apply Hx). rewrite E in Hin. by apply elem_of_nil in Hin.
    - intros H. destruct extra as [|b l]; [done|]. destruct (proj1 (Hx b)) as (Hb & Hn & Ht); [left|].
      destruct (H b Hb) as [[p Hp]|]; [congruence|done]. }
  pose proof (check_others_ok _ _ _ _ _ Ho) as Hoth.
  assert (forallb (fun x => let '(_, _, _, unchanged, _) := x in unchanged) others = true
    <-> forall b p, before !! b = Some p -> b ∉ map fst expected -> left_alone allowed after b p) as Hoth'.
  { rewrite Hoth. split; intros H b p.
    - intros Hp Hn. apply H; [|done]. rewrite elem_of_sorted_keys, elem_of_lfilter, elem_of_keys. cbv beta. rewrite negb_true_iff, bool_decide_eq_false. by split; [exists p|].
    - rewrite elem_of_sorted_keys, elem_of_lfilter. cbv beta. rewrite negb_true_iff, bool_decide_eq_false. intros [_ Hn] Hp. by apply H. }
  unfold intact. rewrite <- Hoth', <- He, <- (targets_hold after items expected). fold tg. split.
  - destruct (_ ++ _) eqn:Hu; [|done]. destruct (forallb (fun x => x.1.1) tg && _) eqn:Hb; [|done]. by rewrite !andb_true_iff in Hb.
  - intros (H1 & H2 & H3). pose proof (check_targets_changes _ _ _ H1) as Hc. fold tg in Hc.
    rewrite H1, H2, H3, Hc, (check_others_changes _ H2). cbn [app].
    apply bool_decide_eq_true in H3. rewrite H3. done.
Qed.
End Exact.

(** A document with two presets, and one whose second preset moved. *)
Definition demo_content (place : string) : element := Element "ContentItem" [("source", "TUNEIN"); ("location", place)] None [].
Definition demo_document (place : string) : element :=
  Element "presets" [] None [Element "preset" [("id", "1")] None [demo_content "/a"]; Element "preset" [("id", "2")] None [demo_content place]].
Definition demo_parse (t : string) : option element :=
  if bool_decide (t = "before") then Some (demo_document "/b") else if bool_decide (t = "after") then Some (demo_document "/c") else None.
Definition demo_text (doc : string) (i : nat) : string := if (i =? 0)%nat then "first" else doc.
Definition demo_urls (_ : string) : option url := Some {| scheme := ""; netloc := ""; url_path := ""; query := "" |}.
Definition demo_items (b : Z) : option wanted := Some [(Fsource, inl "TUNEIN")].
Definition demo_compare (expected : list (Z * string)) : res fault integrity :=
  compare_preset_snapshots demo_parse demo_text Some demo_urls "before" "after" expected demo_items [].
Definition demo_rows (doc : string) : list summary :=
  match preset_summaries_from_xml demo_parse demo_text doc with Ok l => l | Err _ => [] end.

Lemma compare_is_exact_witness :
  (exists r, demo_compare [(2, "/c")] = Ok r /\ overall_status r = verified_status
     /\ intact demo_urls (by_button Some demo_urls (demo_rows "before")) (by_button Some demo_urls (demo_rows "after")) [(2, "/c")] demo_items [])
  /\ exists r, demo_compare [(1, "/a")] = Ok r /\ overall_status r = integrity_failure.
Proof.
  split; [|eexists; split; vm_compute; reflexivity]. eexists. split; [vm_compute; reflexivity|]. split; [reflexivity|].
  eapply (compare_is_exact demo_parse demo_text Some demo_urls "before" "after" [(2, "/c")] demo_items []); vm_compute; reflexivity.
Defined.

End Slots.
