(* ===== verification/Store.v ===== *)
(** * The rows and the radio of one preset change

    [PresetAccess] and [local_version] of services/[preset_observation.py], with what the
    preset services use of a database session: statements that see what other sessions
    committed until this one holds the write reservation of the database, objects that
    keep the attributes they were loaded with until a commit or a rollback expires them,
    and updates that write the changed columns only.  Sessions are made with
    [autoflush=False]; [others] is what the rest of the program commits between two
    statements, anything at all.

    The objects of [PresetMutation] are told apart by their [mutation_id], which is unique. *)
From Stdlib Require Import Ascii String.
From stdpp Require Import sorting.
From S2P Require Import Prelude PyNum PyStr Json Sha256 Xml Protected Presets Radio Profiles Slots.
Import Xml Mutation.
#[local] Open Scope string_scope.
#[local] Open Scope list_scope.
#[local] Open Scope Z_scope.

Module Store.

Abbreviation fault := Radio.fault.

(** ** Rows *)
Record store := { tables : Mutation.tables; journal : list Radio.action }.

#[global] Instance preset_eq_dec : EqDecision Preset.
Proof. solve_decision. Defined.

Definition with_mutations (l : list PresetMutation) (t : store) : store :=
  {| tables := {| presets := presets (tables t); mutations := l; backups := backups (tables t) |}; journal := journal t |}.
Definition with_presets (l : list Preset) (t : store) : store :=
  {| tables := {| presets := l; mutations := mutations (tables t); backups := backups (tables t) |}; journal := journal t |}.
Definition add_backup (b : ConfigBackup) (t : store) : store :=
  {| tables := {| presets := presets (tables t); mutations := mutations (tables t); backups := backups (tables t) ++ [b] |};
     journal := journal t |}.
Definition add_action (a : Radio.action) (t : store) : store := {| tables := tables t; journal := journal t ++ [a] |}.

Definition is_slot (device : string) (b : Z) (p : Preset) : bool := bool_decide (p_device p = device) && (p_button p =? b).
Definition of_device (device : string) (p : Preset) : bool := bool_decide (p_device p = device).
Definition is_mutation (id : string) (m : PresetMutation) : bool := bool_decide (mutation_id m = id).
Definition find_mutation (id : string) (t : store) : option PresetMutation :=
  head (List.filter (is_mutation id) (mutations (tables t))).

(** The columns of [new] that differ from [old], over those of [row]. *)
Definition changed {A} `{EqDecision A} (old new row : A) : A := if bool_decide (new = old) then row else new.
Definition update_row (old new row : PresetMutation) : PresetMutation :=
  {| mutation_id := mutation_id row; device_id := device_id row; button := button row; operation := operation row;
     state := changed (state old) (state new) (state row); revision := revision row;
     expected_previous_sha256 := expected_previous_sha256 row; requested_sha256 := requested_sha256 row;
     before_radio_sha256 := changed (before_radio_sha256 old) (before_radio_sha256 new) (before_radio_sha256 row);
     after_radio_sha256 := changed (after_radio_sha256 old) (after_radio_sha256 new) (after_radio_sha256 row);
     backup_ref := changed (backup_ref old) (backup_ref new) (backup_ref row);
     diverged := changed (diverged old) (diverged new) (diverged row);
     error := changed (error old) (error new) (error row) |}.

(** [UPDATE ... WHERE id = ?]: a row that is gone is an error of the flush. *)
Definition update_mutation (old new : PresetMutation) (t : store) : res fault store :=
  if existsb (is_mutation (mutation_id old)) (mutations (tables t))
  then Ok (with_mutations (map (fun m => if is_mutation (mutation_id old) m then update_row old new m else m)
                               (mutations (tables t))) t)
  else Err Radio.DatabaseError.

(** ** The environment *)
Record env (W : Type) := {
  device : W -> Radio.Device;                                   (* the attributes of the object now *)
  policy : W -> Protected.policy;
  write_guard : W -> res fault unit * W;                        (* [guard(db, device)]; it changes no row *)
  enter : W -> res fault unit * W;                              (* device_transaction([device_id]) *)
  leave : W -> W;
  connect : string -> string -> W -> res fault unit * W;        (* the client for an address and an identity *)
  get_xml : string -> W -> res fault string * W;
  post_xml : string -> string -> W -> res fault string * W;
  sleep : Z -> W -> res fault unit * W;                         (* milliseconds *)
  uuid4 : W -> string * W;
  refresh : W -> res fault unit * W;                            (* db.refresh(device) *)
  statement : W -> option fault * W;                            (* a statement of the database may fail *)
  others : store -> W -> store * W;                             (* what other sessions committed meanwhile *)
  commit_fault : W -> option (fault * bool) * W                 (* a commit: its exception, and whether it is durable *)
}.
Arguments device {W}. Arguments policy {W}. Arguments write_guard {W}. Arguments enter {W}. Arguments leave {W}.
Arguments connect {W}. Arguments get_xml {W}. Arguments post_xml {W}. Arguments sleep {W}. Arguments uuid4 {W}.
Arguments refresh {W}. Arguments statement {W}. Arguments others {W}. Arguments commit_fault {W}.

Inductive event : Type :=
| Entered
| Left
| Guarded                                                       (* the guard let the access pass *)
| Got (path : string) (answer : res fault string)
| Posted (path xml : string) (answer : res fault string)
| Committed (old new : store)                                   (* the rows when the reservation was taken, and now *)
| Ledger (a : Radio.action)                                     (* record_transport_attempt: its own session *)
| Slept (ms : Z)
| Looked (identity : string) (rows : store).                    (* the rows that a version was taken of *)

Record session (W : Type) := {
  world : W;
  disk : store;                                                 (* what is committed *)
  view : option (store * store);                                (* under the reservation: what it found, what it made *)
  unflushed : bool;                                             (* db.new, db.dirty or db.deleted *)
  loaded : list PresetMutation;                                 (* objects with loaded attributes *)
  log : list event
}.
Arguments world {W}. Arguments disk {W}. Arguments view {W}. Arguments unflushed {W}. Arguments loaded {W}. Arguments log {W}.

Section Operations.
Context {W : Type} (v : env W) {E : Type} `{!Radio.Raises E}.
#[local] Abbreviation M := (ST (session W) E).
#[local] Abbreviation fault_in := Radio.fault_in.

Definition set_world (w : W) (s : session W) : session W :=
  {| world := w; disk := disk s; view := view s; unflushed := unflushed s; loaded := loaded s; log := log s |}.
Definition set_loaded (l : list PresetMutation) (s : session W) : session W :=
  {| world := world s; disk := disk s; view := view s; unflushed := unflushed s; loaded := l; log := log s |}.
Definition set_unflushed (b : bool) (s : session W) : session W :=
  {| world := world s; disk := disk s; view := view s; unflushed := b; loaded := loaded s; log := log s |}.
(** The transaction is over: nothing is reserved and every object is expired. *)
Definition expired (w : W) (d : store) (s : session W) : session W :=
  {| world := w; disk := d; view := None; unflushed := false; loaded := []; log := log s |}.

Definition emit (e : event) : M unit := modify (fun s =>
  {| world := world s; disk := disk s; view := view s; unflushed := unflushed s; loaded := loaded s; log := log s ++ [e] |}).
Definition lift {A} (r : res fault A) : M A := match r with Ok a => mret a | Err f => raise (fault_in f) end.
Definition ask {A} (f : W -> res fault A * W) : M A := fun s =>
  match f (world s) with
  | (Ok a, w) => (Ok a, set_world w s)
  | (Err e, w) => (Err (fault_in e), set_world w s)
  end.
Definition call {A} (f : W -> res fault A * W) (e : res fault A -> event) : M A := fun s =>
  let '(r, w) := f (world s) in
  let s := {| world := w; disk := disk s; view := view s; unflushed := unflushed s; loaded := loaded s; log := log s ++ [e r] |} in
  match r with Ok a => (Ok a, s) | Err x => (Err (fault_in x), s) end.

Definition get_device : M Radio.Device := gets (fun s => device v (world s)).
Definition get (path : string) : M string := call (get_xml v path) (Got path).
Definition post (path xml : string) : M string := call (post_xml v path xml) (Posted path xml).
Definition pause (ms : Z) : M unit := ask (sleep v ms);; emit (Slept ms).
Definition fresh : M string := ask (fun w => let '(u, w) := uuid4 v w in (Ok u, w)).
Definition record_transport_attempt (a : Radio.action) : M unit := emit (Ledger a).

(** A [SELECT]: what is committed now, or the rows of the own transaction. *)
Definition read {A} (f : store -> A) : M A := fun s =>
  match statement v (world s) with
  | (Some e, w) => (Err (fault_in e), set_world w s)
  | (None, w) =>
      match view s with
      | Some (_, t) => (Ok (f t), set_world w s)
      | None => let '(t, w) := others v (disk s) w in
                (Ok (f t), {| world := w; disk := t; view := None; unflushed := unflushed s; loaded := loaded s; log := log s |})
      end
  end.

(** Takes the write reservation, unless it is held already. *)
Definition reserve : M unit := fun s =>
  match statement v (world s) with
  | (Some e, w) => (Err (fault_in e), expired w (disk s) s)
  | (None, w) =>
      match view s with
      | Some _ => (Ok tt, set_world w s)
      | None => let '(t, w) := others v (disk s) w in
                (Ok tt, {| world := w; disk := t; view := Some (t, t); unflushed := unflushed s; loaded := loaded s; log := log s |})
      end
  end.
Definition rewrite_view (f : store -> res fault store) : M unit := fun s =>
  match view s with
  | Some (old, t) =>
      match f t with
      | Ok t => (Ok tt, {| world := world s; disk := disk s; view := Some (old, t); unflushed := unflushed s; loaded := loaded s; log := log s |})
      | Err e => (Err (fault_in e), expired (world s) (disk s) s)
      end
  | None => (Err (fault_in Radio.OtherException), s)
  end.
(** Statements that change rows; a failure of the flush rolls everything back. *)
Definition alter (f : store -> res fault store) : M unit := reserve;; rewrite_view f.
(** [db.add], [db.delete] and assignments to attributes: pending until the next flush. *)
Definition stage (f : store -> res fault store) : M unit := alter f;; modify (set_unflushed true).
Definition flush : M unit := modify (set_unflushed false).

Definition commit_db : M unit := fun s =>
  match view s with
  | None => (Ok tt, expired (world s) (disk s) s)
  | Some (old, t) =>
      let done w := {| world := w; disk := t; view := None; unflushed := false; loaded := []; log := log s ++ [Committed old t] |} in
      match commit_fault v (world s) with
      | (None, w) => (Ok tt, done w)
      | (Some (e, true), w) => (Err (fault_in e), done w)
      | (Some (e, false), w) => (Err (fault_in e), expired w (disk s) s)
      end
  end.
Definition rollback_db : M unit := modify (fun s => expired (world s) (disk s) s).

(** ** Objects of [PresetMutation] *)
Definition remember (m : PresetMutation) (l : list PresetMutation) : list PresetMutation :=
  m :: List.filter (fun x => negb (is_mutation (mutation_id m) x)) l.
Definition put (m : PresetMutation) : M unit := modify (fun s => set_loaded (remember m (loaded s)) s).

(** [db.refresh(mutation)]. *)
Definition refresh_mutation (id : string) : M PresetMutation :=
  found ← read (find_mutation id);
  match found with
  | Some m => put m;; mret m
  | None => raise (fault_in Radio.OtherException)
  end.
(** The attributes of an object: loaded when it is expired. *)
Definition attributes (id : string) : M PresetMutation :=
  known ← gets (fun s => head (List.filter (is_mutation id) (loaded s)));
  match known with Some m => mret m | None => refresh_mutation id end.

Definition transition_preset_mutation (id target : string) (before after backup err : option string) (div : option bool)
    (commit : bool) : M unit :=
  m ← attributes id;
  match Mutation.transition_preset_mutation m target before after backup err div with
  | Err _ => raise (fault_in Radio.ValueError)
  | Ok m' =>
      alter (update_mutation m m');;
      put m';;
      if commit then commit_db else flush
  end.

(** [device_transaction([device_id])]. *)
Definition device_transaction {A} (body : M A) : M A :=
  ask (enter v);; emit Entered;;
  finally body (fun s => {| world := leave v (world s); disk := disk s; view := view s; unflushed := unflushed s;
                            loaded := loaded s; log := log s ++ [Left] |}).

Definition require_unprotected : M unit :=
  d ← get_device; p ← gets (fun s => policy v (world s)); lift (Radio.require_unprotected_device d p).
End Operations.

(** ** [local_version] *)
Section Versions.
Context (float_repr : Z -> list Z).

Definition by_button (a b : Preset) : Prop := p_button a <= p_button b.
#[global] Instance by_button_dec a b : Decision (by_button a b).
Proof. unfold by_button. apply _. Defined.

Definition mutation_document (m : PresetMutation) : json :=
  JObj [("mutation_id", JStr (mutation_id m)); ("button", JNum (PInt (button m))); ("operation", JStr (operation m));
        ("revision", JNum (PInt (revision m))); ("state", JStr (state m)); ("diverged", JBool (diverged m));
        ("requested_sha256", JStr (requested_sha256 m)); ("expected_previous_sha256", JStr (expected_previous_sha256 m));
        ("before_radio_sha256", JStr (before_radio_sha256 m)); ("after_radio_sha256", JStr (after_radio_sha256 m));
        ("backup_ref", JStr (backup_ref m))].

Definition version_document (identity : string) (exclude : list string) (t : store) : json :=
  JObj [("presets", JList (map (fun p => preset_snapshot (Some p))
                               (merge_sort by_button (List.filter (of_device identity) (presets (tables t))))));
        ("mutations", JList (map mutation_document
           (List.filter (fun m => bool_decide (device_id m = identity) && negb (bool_decide (mutation_id m ∈ exclude)))
                        (mutations (tables t)))))].
Definition version_of (identity : string) (exclude : list string) (t : store) : string :=
  _digest float_repr (version_document identity exclude t).

Context {W : Type} (v : env W) {E : Type} `{!Radio.Raises E}.
#[local] Abbreviation M := (ST (session W) E).

(** Both queries reload the objects they find: the presets, and their version with the
    mutations. *)
Definition local_state (identity : string) (exclude : list string) : M (list Preset * string) :=
  stored ← read v (fun t => List.filter (of_device identity) (presets (tables t)));
  found ← read v (fun t => List.filter (fun m => bool_decide (device_id m = identity)) (mutations (tables t)));
  for_each found put;;
  let rows := {| tables := {| presets := stored; mutations := found; backups := [] |}; journal := [] |} in
  emit (Looked identity rows);;
  mret (stored, version_of identity exclude rows).
Definition local_version (identity : string) (exclude : list string) : M string :=
  '(_, version) ← local_state identity exclude;
  mret version.
End Versions.

(** ** Mutations, presets and the journal *)
Definition CLOSED : list string := ["LOCAL_COMMIT"; "ROLLBACK"].
Definition is_closed (m : PresetMutation) : bool := bool_decide (state m ∈ CLOSED).

(** The mutation of a slot with the highest revision, the latest of equals. *)
Definition later (a : option PresetMutation) (b : PresetMutation) : option PresetMutation :=
  match a with Some a => if revision b <? revision a then Some a else Some b | None => Some b end.
Definition latest_of (identity : string) (b : Z) (l : list PresetMutation) : option PresetMutation :=
  foldl later None (List.filter (of_slot identity b) l).

(** The row of a slot as the radio shows it. *)
Definition projected (identity : string) (item : Slots.summary) (station : option Z) : Preset :=
  {| p_device := identity; p_button := Slots.button item; station_id := station; source := Slots.source item;
     source_account := Slots.source_account item; location := Slots.location item;
     content_item_xml := Slots.content_item_xml item |}.

Definition replace_preset (p : Preset) (t : store) : res fault store :=
  Ok (with_presets (map (fun q => if is_slot (p_device p) (p_button p) q then p else q) (presets (tables t))) t).
(** A second row of a slot violates its unique constraint. *)
Definition insert_preset (p : Preset) (t : store) : res fault store :=
  if existsb (is_slot (p_device p) (p_button p)) (presets (tables t)) then Err Radio.DatabaseError
  else Ok (with_presets (presets (tables t) ++ [p]) t).
Definition delete_preset (identity : string) (b : Z) (t : store) : res fault store :=
  Ok (with_presets (List.filter (fun p => negb (is_slot identity b p)) (presets (tables t))) t).

Fixpoint lookup_slot {A} (b : Z) (l : list (Z * A)) : option A :=
  match l with
  | [] => None
  | (k, a) :: l => if k =? b then Some a else lookup_slot b l
  end.

Definition action_of (job device name ph : string) (verified : bool) (ref : string) (requested : json) (category : string) : Radio.action :=
  {| Radio.job_id := job; Radio.a_device := device; Radio.a_action := name; Radio.phase := ph; Radio.backup_ref := ref;
     Radio.before_sha256 := ""; Radio.requested_state := requested; Radio.a_verified := verified; Radio.error_category := category |}.

Section Statements.
Context (float_repr : Z -> list Z) {W : Type} (v : env W) {E : Type} `{!Radio.Raises E}.
#[local] Abbreviation M := (ST (session W) E).
#[local] Abbreviation fault_in := Radio.fault_in.

Definition _latest (identity : string) (b : Z) : M (option PresetMutation) :=
  m ← read v (fun t => latest_of identity b (mutations (tables t)));
  match m with Some m => put m;; mret (Some m) | None => mret None end.

(** [record_action] flushes its row. *)
Definition record_action (a : Radio.action) : M unit := stage v (fun t => Ok (add_action a t));; flush.

(** ** [prepare_preset_mutation]: its reads and its insert *)
Definition insert_mutation (m : PresetMutation) (t : store) : res fault store :=
  if existsb (is_mutation (mutation_id m)) (mutations (tables t)) then Err Radio.DatabaseError
  else Ok (with_mutations (mutations (tables t) ++ [m]) t).
Definition prepare_preset_mutation (device : string) (b : Z) (op : string) (requested : json) : M PresetMutation :=
  previous ← read v (fun t => presets (tables t));
  known ← read v (fun t => mutations (tables t));
  u ← fresh v;
  match Mutation.prepare_preset_mutation float_repr u device b op requested {| presets := previous; mutations := known; backups := [] |} with
  | Err _ => raise (fault_in Radio.OtherException)
  | Ok (m, _) =>
      stage v (insert_mutation m);;
      stage v (fun t => Ok (add_backup {| b_device := device; path := intent_path u; content := canonical float_repr requested |} t));;
      commit_db v;;
      refresh_mutation v u
  end.
End Statements.

(** ** [PresetAccess] *)
Record access := { a_write : bool; frozen : string * string * string * string * string }.
Definition identity (a : access) : string := (frozen a).1.1.1.1.
Definition address (a : access) : string := (frozen a).1.1.1.2.

Section Access.
Context (float_repr : Z -> list Z).
Context (parse_xml : string -> option element) (fromstring : string -> res fault element) (content_xml : string -> nat -> string).
Context {W : Type} (v : env W) {E : Type} `{!Radio.Raises E}.
#[local] Abbreviation M := (ST (session W) E).
(** The guard of the caller. *)
Context (guard : M unit).

Definition run_guard : M unit := guard;; emit Guarded.

Definition verify (xml : string) : M unit :=
  d ← get_device v;
  p ← gets (fun s => policy v (world s));
  _ ← lift (Profiles.verify_settings_identity parse_xml p d xml);
  mret tt.

Definition open_access (write : bool) : M access :=
  d ← get_device v;
  let a := {| a_write := write; frozen := Radio.device_fingerprint d |} in
  run_guard;;
  (if write then
     d ← get_device v;
     _ ← lift (Slots._root fromstring (Radio.info_xml d) "info" (identity a));
     verify (Radio.info_xml d)
   else mret tt);;
  ask (connect v (address a) (identity a));;
  mret a.

Definition unchanged (a : access) : M unit :=
  ask (refresh v);;
  d ← get_device v;
  if negb (bool_decide (Radio.device_fingerprint d = frozen a)) then raise (Radio.fault_in Radio.IdentityMismatch) else run_guard.

Definition observe (a : access) : M Slots.PresetObservation :=
  unchanged a;;
  info ← get v "/info";
  node ← lift (Slots._root fromstring info "info" (identity a));
  (if negb (bool_decide (py_upper (attr_or "deviceID" "" node) = py_upper (identity a)))
   then raise (Radio.fault_in Radio.IdentityMismatch) else mret tt);;
  (if a_write a then verify info else mret tt);;
  unchanged a;;
  xml ← get v "/presets";
  o ← lift (Slots.parse parse_xml fromstring content_xml xml (identity a));
  unchanged a;;
  mret o.

(** Reserves the database and compares; the caller commits. *)
Definition commit_window (a : access) (expected : string) (exclude : list string) : M unit :=
  dirty ← gets unflushed;
  (if dirty : bool then raise (Radio.fault_in Radio.ValueError) else mret tt);;
  rollback_db;;
  reserve v;;
  unchanged a;;
  current ← local_version float_repr v (identity a) exclude;
  if bool_decide (current = expected) then mret tt else raise (Radio.fault_in Radio.ValueError).
End Access.

(** ** What the operations do to the rows *)

(** The events that neither change a radio nor a row. *)
Definition quiet (e : event) : bool := match e with Posted _ _ _ | Committed _ _ => false | _ => true end.
(** Nor ask one anything, nor wait. *)
Definition hushed (e : event) : bool := match e with Got _ _ | Posted _ _ _ | Committed _ _ | Slept _ => false | _ => true end.
(** The events that do not change a radio, nor the rows of presets. *)
Definition mild (e : event) : bool :=
  match e with
  | Posted _ _ _ => false
  | Committed old new => bool_decide (presets (tables new) = presets (tables old))
  | _ => true
  end.
(** The documents of presets a stretch received. *)
Definition presets_seen (l : list event) : list string :=
  omap (fun e => match e with Got path (Ok xml) => if bool_decide (path = "/presets") then Some xml else None | _ => None end) l.

(** The same, with the waiting between them. *)
Inductive sight : Type :=
| Shown (xml : string)
| Waited (ms : Z).
Definition sights (l : list event) : list sight :=
  omap (fun e => match e with
                 | Got path (Ok xml) => if bool_decide (path = "/presets") then Some (Shown xml) else None
                 | Slept ms => Some (Waited ms)
                 | _ => None
                 end) l.
Definition shown (l : list sight) : list string := omap (fun x => match x with Shown xml => Some xml | Waited _ => None end) l.

Lemma sights_app l1 l2 : sights (l1 ++ l2) = sights l1 ++ sights l2.
Proof. apply omap_app. Qed.
Lemma presets_seen_app l1 l2 : presets_seen (l1 ++ l2) = presets_seen l1 ++ presets_seen l2.
Proof. apply omap_app. Qed.
Lemma shown_sights l : shown (sights l) = presets_seen l.
Proof.
  induction l as [|e l IH]; [done|]. change (e :: l) with ([e] ++ l). rewrite sights_app, presets_seen_app, <- IH. unfold shown. rewrite omap_app. f_equal.
  destruct e as [| | |path [xml|x]|path xml x|o n|x|ms|who t]; try done. cbn. by case_bool_decide.
Qed.

Lemma quiet_mild l : forallb quiet l = true -> forallb mild l = true.
Proof. rewrite !forallb_forall. intros H e He. specialize (H e He). by destruct e. Qed.

Lemma hushed_quiet l : forallb hushed l = true -> forallb quiet l = true.
Proof. rewrite !forallb_forall. intros H e He. specialize (H e He). by destruct e. Qed.
Lemma hushed_sights l : forallb hushed l = true -> sights l = [].
Proof. induction l as [|e l IH]; [done|]. cbn. intros [He Hl]%andb_true_iff. by destruct e; try discriminate; apply IH. Qed.
Lemma hushed_seen l : forallb hushed l = true -> presets_seen l = [].
Proof. intros H. by rewrite <- shown_sights, hushed_sights. Qed.

Section Relations.
Context {W : Type}.

(** The rows and objects of the session, which requests to a radio leave alone. *)
Definition rows_of (s : session W) : store * option (store * store) * bool * list PresetMutation :=
  (disk s, view s, unflushed s, loaded s).

(** Only events of a kind happened. *)
Definition aside (p : event -> bool) (s s' : session W) : Prop :=
  rows_of s' = rows_of s /\ exists l, log s' = log s ++ l /\ forallb p l = true.

(** The reservation holds, and nothing was committed. *)
Definition calmly (s s' : session W) : Prop :=
  (is_some (view s) = true -> view s' = view s /\ disk s' = disk s)
  /\ (view s = None -> view s' = None)
  /\ exists l, log s' = log s ++ l /\ forallb hushed l = true.

(** The rows of presets are those the reservation found. *)
Definition tidy (s : session W) : Prop :=
  match view s with Some (old, t) => presets (tables t) = presets (tables old) | None => True end.
Definition mildly (s s' : session W) : Prop :=
  tidy s -> tidy s' /\ exists l, log s' = log s ++ l /\ forallb mild l = true.

#[export] Instance aside_preorder p : PreOrder (aside p).
Proof.
  split.
  - intros s. split; [done|]. exists []. by rewrite app_nil_r.
  - intros s1 s2 s3 (H1 & l1 & L1 & K1) (H2 & l2 & L2 & K2). split; [congruence|]. exists (l1 ++ l2).
    by rewrite L2, L1, app_assoc, forallb_app, K1, K2.
Qed.
#[export] Instance calmly_preorder : PreOrder calmly.
Proof.
  split.
  - intros s. split; [done|]. split; [done|]. exists []. by rewrite app_nil_r.
  - intros s1 s2 s3 (V1 & N1 & l1 & L1 & K1) (V2 & N2 & l2 & L2 & K2). split; [|split].
    + intros H. destruct (V1 H) as [E1 E2]. rewrite <- E1 in H. destruct (V2 H). split; congruence.
    + auto.
    + exists (l1 ++ l2). by rewrite L2, L1, app_assoc, forallb_app, K1, K2.
Qed.
#[export] Instance mildly_preorder : PreOrder mildly.
Proof.
  split.
  - intros s H. split; [done|]. exists []. by rewrite app_nil_r.
  - intros s1 s2 s3 H1 H2 T. destruct (H1 T) as (T2 & l1 & L1 & K1). destruct (H2 T2) as (T3 & l2 & L2 & K2).
    split; [done|]. exists (l1 ++ l2). by rewrite L2, L1, app_assoc, forallb_app, K1, K2.
Qed.

Lemma aside_calmly s s' : aside hushed s s' -> calmly s s'.
Proof. intros [[= Hd Hv Hu Hl] H]. split; [done|]. split; [congruence|done]. Qed.
Lemma calmly_mildly s s' : calmly s s' -> mildly s s'.
Proof.
  intros (V & N & l & L & K) T. split; [|exists l; split; [done|by apply quiet_mild, hushed_quiet]]. unfold tidy in *.
  destruct (view s) as [p|] eqn:E; [destruct (V eq_refl) as [-> _]|rewrite N by done]; done.
Qed.
Lemma aside_mildly s s' : aside quiet s s' -> mildly s s'.
Proof.
  intros [[= Hd Hv Hu Hl] (l & L & K)] T. split; [unfold tidy in *; by rewrite Hv|]. exists l. split; [done|by apply quiet_mild].
Qed.
Lemma aside_quiet s s' : aside hushed s s' -> aside quiet s s'.
Proof. intros (H & l & L & K). split; [done|]. exists l. split; [done|by apply hushed_quiet]. Qed.
Lemma aside_log p s s' l : rows_of s' = rows_of s -> log s' = log s ++ l -> forallb p l = true -> aside p s s'.
Proof. intros H L K. split; [done|]. by exists l. Qed.
Lemma aside_same p s s' : rows_of s' = rows_of s -> log s' = log s -> aside p s s'.
Proof. intros H L. apply (aside_log p s s' []); [done|by rewrite app_nil_r|done]. Qed.
End Relations.
#[export] Hint Resolve aside_preorder calmly_preorder mildly_preorder : py.

Lemma steps_in_weaken {S E A} (R R' : S -> S -> Prop) (m : ST S E A) :
  (forall s s', R s s' -> R' s s') -> steps_in R m -> steps_in R' m.
Proof. intros H Hm s. apply H, Hm. Qed.

Section OperationFacts.
Context {W : Type} (v : env W) {E : Type} `{!Radio.Raises E}.
Abbreviation asides p := (@steps_in (session W) E _ (aside p)).
Abbreviation calms := (@steps_in (session W) E _ calmly).
Abbreviation milds := (@steps_in (session W) E _ mildly).

Lemma calms_asides {A} (m : ST (session W) E A) : steps_in (aside hushed) m -> steps_in calmly m.
Proof. apply steps_in_weaken, aside_calmly. Qed.
Lemma quiet_asides {A} (m : ST (session W) E A) : steps_in (aside hushed) m -> steps_in (aside quiet) m.
Proof. apply steps_in_weaken, aside_quiet. Qed.
Lemma milds_calms {A} (m : ST (session W) E A) : steps_in calmly m -> steps_in mildly m.
Proof. apply steps_in_weaken, calmly_mildly. Qed.
Lemma milds_asides {A} (m : ST (session W) E A) : steps_in (aside quiet) m -> steps_in mildly m.
Proof. apply steps_in_weaken, aside_mildly. Qed.

(** *** Requests *)
Lemma asides_emit p e : p e = true -> asides p (emit e).
Proof. intros He s. apply (aside_log _ _ _ [e]); [done|done|]. cbn. by rewrite He. Qed.
Lemma asides_ask p {A} (f : W -> res fault A * W) : steps_in (aside p) (ask f : ST (session W) E A).
Proof. intros s. unfold ask. destruct (f (world s)) as [[a|e] w]; by apply aside_same. Qed.
Lemma asides_lift p {A} (r : res fault A) : steps_in (aside p) (lift r : ST (session W) E A).
Proof. destruct r; intros s; by apply aside_same. Qed.
Lemma asides_get_device p : asides p (get_device v).
Proof. intros s. by apply aside_same. Qed.
Lemma asides_get path : asides quiet (get v path).
Proof.
  intros s. unfold get, call. destruct (get_xml v path (world s)) as [[a|e] w]; eapply aside_log; try done; done.
Qed.
Lemma asides_pause p ms : p (Slept ms) = true -> asides p (pause v ms).
Proof. intros Hp. apply steps_in_bind; [apply _|apply asides_ask|intros _; by apply asides_emit]. Qed.
Lemma asides_fresh p : asides p (fresh v).
Proof. apply asides_ask. Qed.
Lemma asides_record_transport_attempt a : asides hushed (record_transport_attempt a).
Proof. by apply asides_emit. Qed.
Lemma asides_require_unprotected p : asides p (require_unprotected v).
Proof.
  apply steps_in_bind; [apply _|apply asides_get_device|intros d]. apply steps_in_bind; [apply _|intros s; by apply aside_same|intros x].
  apply asides_lift.
Qed.

(** *** Statements *)
Lemma calms_read {A} (f : store -> A) : steps_in calmly (read v f : ST (session W) E A).
Proof.
  intros s. unfold read. destruct (statement v (world s)) as [[e|] w]; [by apply aside_calmly, aside_same|].
  destruct (view s) as [[old t]|] eqn:Hv; [by apply aside_calmly, aside_same|].
  destruct (others v (disk s) w) as [t w'] eqn:Ho. rewrite ?Ho. split; [by rewrite Hv|]. split; [done|]. exists []. by rewrite app_nil_r.
Qed.
Lemma calms_put m : calms (put m).
Proof. intros s. split; [done|]. split; [done|]. exists []. by rewrite app_nil_r. Qed.
Lemma calms_flush : calms flush.
Proof. intros s. split; [done|]. split; [done|]. exists []. by rewrite app_nil_r. Qed.
Lemma milds_rollback_db : milds rollback_db.
Proof. intros s T. split; [done|]. exists []. by rewrite app_nil_r. Qed.
Lemma milds_reserve : milds (reserve v).
Proof.
  intros s T. unfold reserve. destruct (statement v (world s)) as [[e|] w]; [split; [done|]; exists []; by rewrite app_nil_r|].
  destruct (view s) as [[old t]|] eqn:Hv.
  - split; [by unfold tidy in *; cbn; rewrite Hv in *|]. exists []. by rewrite app_nil_r.
  - destruct (others v (disk s) w) as [t w']. split; [done|]. exists []. by rewrite app_nil_r.
Qed.
Lemma milds_rewrite_view (f : store -> res fault store) :
  (forall t t', f t = Ok t' -> presets (tables t') = presets (tables t)) -> milds (rewrite_view f).
Proof.
  intros Hf s T. unfold rewrite_view. destruct (view s) as [[old t]|] eqn:Hv; [|split; [done|]; exists []; by rewrite app_nil_r].
  destruct (f t) as [t'|e] eqn:Ht; (split; [|exists []; by rewrite app_nil_r]); [|done].
  unfold tidy in *. cbn. rewrite Hv in T. rewrite (Hf _ _ Ht). done.
Qed.
Lemma milds_alter (f : store -> res fault store) :
  (forall t t', f t = Ok t' -> presets (tables t') = presets (tables t)) -> milds (alter v f).
Proof. intros Hf. apply steps_in_bind; [apply _|apply milds_reserve|intros _; by apply milds_rewrite_view]. Qed.
Lemma milds_stage (f : store -> res fault store) :
  (forall t t', f t = Ok t' -> presets (tables t') = presets (tables t)) -> milds (stage v f).
Proof.
  intros Hf. apply steps_in_bind; [apply _|by apply milds_alter|intros _]. apply milds_calms. intros s.
  split; [done|]. split; [done|]. exists []. by rewrite app_nil_r.
Qed.
Lemma milds_commit_db : milds (commit_db v).
Proof.
  intros s T. unfold commit_db. unfold tidy in T. destruct (view s) as [[old t]|]; [|split; [done|]; exists []; by rewrite app_nil_r].
  destruct (commit_fault v (world s)) as [[[e []]|] w]; (split; [done|]); cbn.
  1, 3: exists [Committed old t]; split; [done|]; cbn; by rewrite bool_decide_true.
  exists []. by rewrite app_nil_r.
Qed.

(** *** Objects *)
Lemma calms_refresh_mutation id : calms (refresh_mutation v id).
Proof.
  apply steps_in_bind; [apply _|apply calms_read|intros [m|]]; [|apply steps_in_raise, _].
  apply steps_in_bind; [apply _|apply calms_put|intros _; apply steps_in_ret, _].
Qed.
Lemma calms_attributes id : calms (attributes v id).
Proof.
  apply steps_in_bind; [apply _|apply steps_in_gets, _|intros [m|]]; [apply steps_in_ret, _|apply calms_refresh_mutation].
Qed.
Lemma update_mutation_presets old new t t' : update_mutation old new t = Ok t' -> presets (tables t') = presets (tables t).
Proof. unfold update_mutation. destruct (existsb _ _); [by intros [= <-]|done]. Qed.
Lemma milds_transition id target before after backup err div commit :
  milds (transition_preset_mutation v id target before after backup err div commit).
Proof.
  apply steps_in_bind; [apply _|apply milds_calms, calms_attributes|intros m].
  destruct (Mutation.transition_preset_mutation _ _ _ _ _ _ _) as [m'|]; [|apply steps_in_raise, _].
  apply steps_in_bind; [apply _|apply milds_alter; intros; by eapply update_mutation_presets|intros _].
  apply steps_in_bind; [apply _|apply milds_calms, calms_put|intros _]. destruct commit; [apply milds_commit_db|].
  apply milds_calms, calms_flush.
Qed.
Lemma milds_device_transaction {A} (body : ST (session W) E A) : steps_in mildly body -> steps_in mildly (device_transaction v body).
Proof.
  intros Hb. apply steps_in_bind; [apply _|apply milds_calms, calms_asides, asides_ask|intros _].
  apply steps_in_bind; [apply _|by apply milds_calms, calms_asides, asides_emit|intros _]. intros s T. unfold finally.
  specialize (Hb s T). destruct (body s) as [r s']. destruct Hb as (T' & l & L & K). split; [done|]. exists (l ++ [Left]).
  cbn in *. by rewrite L, app_assoc, forallb_app, K.
Qed.
End OperationFacts.
#[export] Hint Extern 1 (quiet _ = true) => reflexivity : py.
#[export] Hint Extern 1 (hushed _ = true) => reflexivity : py.
#[export] Hint Resolve asides_emit asides_ask asides_lift asides_get_device asides_get asides_pause asides_fresh
  asides_record_transport_attempt asides_require_unprotected calms_asides quiet_asides milds_asides milds_calms calms_read calms_put calms_flush
  milds_rollback_db milds_reserve milds_commit_db calms_refresh_mutation calms_attributes milds_transition : py.

(** *** Under the reservation *)

(** The object of a mutation, if its attributes are loaded. *)
Definition known {W} (id : string) (s : session W) : option PresetMutation := head (List.filter (is_mutation id) (loaded s)).

Lemma known_remember {W} m (s : session W) l : loaded s = remember m l -> known (mutation_id m) s = Some m.
Proof. intros H. unfold known. rewrite H. unfold remember. cbn. unfold is_mutation at 1. by rewrite bool_decide_true. Qed.

Lemma find_mutation_id id t m : find_mutation id t = Some m -> mutation_id m = id.
Proof.
  unfold find_mutation. intros H. assert (In m (List.filter (is_mutation id) (mutations (tables t)))) as Hin.
  { destruct (List.filter _ _); [done|]. injection H as ->. by left. }
  apply filter_In in Hin as [_ Hin]. unfold is_mutation in Hin. by apply bool_decide_eq_true in Hin.
Qed.

Lemma known_id {W} id (s : session W) m : known id s = Some m -> mutation_id m = id.
Proof.
  unfold known. intros Hk.
  assert (In m (List.filter (is_mutation id) (loaded s))) as Hin by (destruct (List.filter _ _); [done|injection Hk as ->; by left]).
  apply filter_In in Hin as [_ Hin]. by apply bool_decide_eq_true in Hin.
Qed.

(** What a transition keeps of a row. *)
Definition same_intent (m m' : PresetMutation) : Prop :=
  mutation_id m' = mutation_id m /\ device_id m' = device_id m /\ button m' = button m /\ operation m' = operation m
  /\ revision m' = revision m /\ expected_previous_sha256 m' = expected_previous_sha256 m /\ requested_sha256 m' = requested_sha256 m.

Lemma transition_intent m target b a r e d m' :
  Mutation.transition_preset_mutation m target b a r e d = Ok m' -> same_intent m m' /\ state m' = py_upper target.
Proof. unfold Mutation.transition_preset_mutation. destruct (_ && _); [done|]. by intros [= <-]. Qed.

Lemma update_row_self m m' : same_intent m m' -> update_row m m' m = m'.
Proof.
  intros (H1 & H2 & H3 & H4 & H5 & H6 & H7).
  assert (forall {A} `{EqDecision A} (old new : A), changed old new old = new) as Hc.
  { intros A ? old new. unfold changed. case_bool_decide; congruence. }
  unfold update_row. rewrite !Hc, <- H1, <- H2, <- H3, <- H4, <- H5, <- H6, <- H7. by destruct m'.
Qed.

Lemma update_mutation_find m m' t t' :
  update_mutation m m' t = Ok t' -> find_mutation (mutation_id m) t = Some m -> same_intent m m' ->
  find_mutation (mutation_id m) t' = Some m'.
Proof.
  unfold update_mutation. destruct (existsb _ _); [|done]. intros [= <-] Hf Hi. unfold find_mutation in *. cbn.
  induction (mutations (tables t)) as [|x l IH]; [done|]. cbn in *. destruct (is_mutation (mutation_id m) x) eqn:Hx; cbn in *.
  - injection Hf as ->. rewrite update_row_self by done. destruct Hi as [Hi _]. unfold is_mutation. by rewrite bool_decide_true.
  - rewrite Hx. by apply IH.
Qed.

(** The unique constraints of the tables. *)
Definition constrained (t : store) : Prop :=
  NoDup (map mutation_id (mutations (tables t))) /\ NoDup (map (fun p => (p_device p, p_button p)) (presets (tables t))).

Lemma is_mutation_unique (l : list PresetMutation) m x : NoDup (map mutation_id l) -> m ∈ l -> x ∈ l -> is_mutation (mutation_id m) x = true -> x = m.
Proof.
  intros Hn Hm Hx Hi. unfold is_mutation in Hi. apply bool_decide_eq_true in Hi. induction l as [|y l IH]; [by apply elem_of_nil in Hm|].
  cbn in Hn. inversion Hn as [|? ? Hy Hn']; subst. rewrite elem_of_cons in Hm, Hx.
  assert (forall z, z ∈ l -> mutation_id z ∈ map mutation_id l) as Hin by (intros z Hz; by apply (list_elem_of_fmap_2 mutation_id)).
  destruct Hm as [->|Hm], Hx as [->|Hx]; auto; exfalso; apply Hy; [rewrite <- Hi|rewrite Hi]; auto.
Qed.

Lemma find_unique m t : constrained t -> m ∈ mutations (tables t) -> find_mutation (mutation_id m) t = Some m.
Proof.
  intros [Hn _] Hm. unfold find_mutation. destruct (List.filter _ _) as [|x l] eqn:Hf.
  - assert (In m (List.filter (is_mutation (mutation_id m)) (mutations (tables t)))) as H; [|by rewrite Hf in H].
    apply filter_In. split; [by apply list_elem_of_In|]. unfold is_mutation. by rewrite bool_decide_true.
  - assert (In x (List.filter (is_mutation (mutation_id m)) (mutations (tables t)))) as H by (rewrite Hf; by left).
    apply filter_In in H as [Hx Hi]. cbn. f_equal. eapply is_mutation_unique; [exact Hn|done|by apply list_elem_of_In|done].
Qed.

#[global] Instance constrained_dec t : Decision (constrained t).
Proof. unfold constrained. apply _. Defined.

(** The loaded objects have the attributes of their rows. *)
Definition fresh_objects {W} (s : session W) (t : store) : Prop := forall id m, known id s = Some m -> find_mutation id t = Some m.

Lemma head_filter_in {A} (f : A -> bool) l x : head (List.filter f l) = Some x -> x ∈ l /\ f x = true.
Proof.
  intros H. assert (In x (List.filter f l)) as Hin by (destruct (List.filter f l); [done|injection H as ->; by left]).
  apply filter_In in Hin as [Hin Hf]. split; [by apply list_elem_of_In|done].
Qed.

Lemma remembered_in ms l x : x ∈ foldl (fun l m => remember m l) l ms -> x ∈ ms \/ x ∈ l.
Proof.
  revert l. induction ms as [|m ms IH]; intros l H; [by right|]. cbn in H. apply IH in H as [H|H]; [left; by right|].
  unfold remember in H. apply elem_of_cons in H as [->|H]; [left; left|]. right. apply list_elem_of_In in H.
  apply filter_In in H as [H _]. by apply list_elem_of_In.
Qed.

Lemma reloaded_fresh {W} who t (s : session W) : constrained t -> loaded s = foldl (fun l m => remember m l) []
    (List.filter (fun m => bool_decide (device_id m = who)) (mutations (tables t))) -> fresh_objects s t.
Proof.
  intros Hc L id m Hk. pose proof (known_id _ _ _ Hk) as Hid. unfold known in Hk. rewrite L in Hk.
  apply head_filter_in in Hk as [Hin _]. apply remembered_in in Hin as [Hin|Hin]; [|by apply elem_of_nil in Hin].
  apply list_elem_of_In, filter_In in Hin as [Hin _]. rewrite <- Hid. apply find_unique; [done|by apply list_elem_of_In].
Qed.

Section Held.
Context {W : Type} (v : env W) {E : Type} `{!Radio.Raises E}.
Context (old : store).
#[local] Abbreviation M := (ST (session W) E).

Lemma told_asides p {A} (m : M A) s :
  steps_in (aside p) m -> told log m s (fun l _ s' => forallb p l = true /\ rows_of s' = rows_of s).
Proof. intros Hm. destruct (Hm s) as (Hr & l & L & K). by exists l. Qed.

Lemma told_pause ms s :
  told log (pause v ms : M unit) s (fun l r s' => rows_of s' = rows_of s /\ match r with Ok _ => l = [Slept ms] | Err _ => l = [] end).
Proof.
  unfold told, pause, mbind, st_bind, ask. destruct (sleep v ms (world s)) as [[[]|e] w]; [by exists [Slept ms]|].
  exists []. by rewrite app_nil_r.
Qed.

Lemma told_calms {A} (m : M A) s :
  steps_in calmly m -> told log m s (fun l _ s' => forallb hushed l = true /\ (forall p, view s = Some p -> view s' = Some p)
                                                  /\ (view s = None -> view s' = None)).
Proof.
  intros Hm. destruct (Hm s) as (Hv & Hn & l & L & K). exists l. split; [done|]. split; [done|]. split; [|done].
  intros p Hp. rewrite Hp in Hv. by destruct (Hv eq_refl) as [-> _].
Qed.

Lemma told_lift_result {A} (x : res fault A) s :
  told log (lift x : M A) s (fun l r s' => l = [] /\ match r with Ok a => x = Ok a | Err _ => True end).
Proof. exists []. rewrite app_nil_r. by destruct x. Qed.

Lemma told_milds {A} (m : M A) s :
  steps_in mildly m -> tidy s -> told log m s (fun l _ s' => forallb mild l = true /\ tidy s').
Proof. intros Hm T. destruct (Hm s T) as (T' & l & L & K). by exists l. Qed.

(** The exception of a statement. *)
Definition failed_statement (e : E) : Prop := exists w x, (statement v w).1 = Some x /\ e = Radio.fault_in x.

Lemma told_read_rows {A} (f : store -> A) t s : view s = Some (old, t) ->
  told log (read v f : M A) s (fun l r s' => l = [] /\ view s' = Some (old, t) /\ loaded s' = loaded s
                                             /\ match r with Ok a => a = f t | Err e => failed_statement e end).
Proof.
  intros Hv. unfold told, read. exists []. rewrite app_nil_r. destruct (statement v (world s)) as [[e|] w] eqn:Hs; [|by rewrite Hv].
  split_and!; try done. exists (world s), e. by rewrite Hs.
Qed.

Lemma told_put m s : told log (put m : M unit) s (fun l r s' => l = [] /\ r = Ok tt /\ view s' = view s /\ loaded s' = remember m (loaded s)).
Proof. exists []. by rewrite app_nil_r. Qed.

Lemma told_refresh id t s : view s = Some (old, t) ->
  told log (refresh_mutation v id : M PresetMutation) s (fun l r s' => l = [] /\ view s' = Some (old, t)
    /\ match r with Ok m => find_mutation id t = Some m /\ known id s' = Some m | Err _ => True end).
Proof.
  intros Hv. eapply told_bind; [by apply told_read_rows|naive_solver|]. intros found l1 s1 (-> & V1 & _ & ->).
  destruct (find_mutation id t) as [m|] eqn:Hm; [|by apply told_raise].
  eapply told_bind; [apply told_put|naive_solver|]. intros [] l2 s2 (-> & _ & V2 & L2). apply told_ret.
  split; [done|]. split; [congruence|]. split; [done|]. rewrite <- (find_mutation_id _ _ _ Hm). by eapply known_remember.
Qed.

Lemma told_attributes id m s : known id s = Some m ->
  told log (attributes v id : M PresetMutation) s (fun l r s' => l = [] /\ r = Ok m /\ s' = s).
Proof.
  intros Hv. eapply told_bind_now; [reflexivity|]. fold (known id s). rewrite Hv. by apply told_ret.
Qed.

Lemma told_alter f t s : view s = Some (old, t) ->
  told log (alter v f : M unit) s (fun l r s' => l = [] /\ match r with
    | Ok _ => exists t', f t = Ok t' /\ view s' = Some (old, t') /\ loaded s' = loaded s
    | Err _ => view s' = None end).
Proof.
  intros Hv. unfold told, alter, reserve, mbind, st_bind. exists []. rewrite app_nil_r.
  destruct (statement v (world s)) as [[e|] w]; [done|]. rewrite Hv. cbn. unfold rewrite_view. cbn. rewrite Hv.
  destruct (f t) as [t'|e] eqn:Hf; [|done]. cbn. split; [done|]. split; [done|]. by exists t'.
Qed.

Lemma told_stage f t s : view s = Some (old, t) ->
  told log (stage v f : M unit) s (fun l r s' => l = [] /\ match r with
    | Ok _ => exists t', f t = Ok t' /\ view s' = Some (old, t') /\ loaded s' = loaded s
    | Err _ => view s' = None end).
Proof.
  intros Hv. eapply told_bind; [by apply told_alter|done|]. intros [] l s1 (-> & t' & Hf & V & L). exists []. rewrite app_nil_r.
  split; [done|]. split; [done|]. by exists t'.
Qed.

Lemma told_commit_rows t s : view s = Some (old, t) ->
  told log (commit_db v : M unit) s (fun l r s' => view s' = None /\ loaded s' = [] /\ match r with
    | Ok _ => l = [Committed old t] | Err _ => l = [] \/ l = [Committed old t] end).
Proof.
  intros Hv. unfold told, commit_db. rewrite Hv. destruct (commit_fault v (world s)) as [[[e []]|] w]; cbn.
  - exists [Committed old t]. eauto.
  - exists []. rewrite app_nil_r. eauto.
  - by exists [Committed old t].
Qed.

(** A transition of an object whose attributes are loaded. *)
Lemma told_apply id target before after backup err div (commit : bool) m t s :
  view s = Some (old, t) -> mutation_id m = id ->
  told log (match Mutation.transition_preset_mutation m target before after backup err div with
            | Err _ => raise (Radio.fault_in Radio.ValueError)
            | Ok m' => alter v (update_mutation m m');; put m';; if commit then commit_db v else flush
            end : M unit) s (fun l r s' =>
    match r with
    | Ok _ => exists m' t', Mutation.transition_preset_mutation m target before after backup err div = Ok m'
        /\ update_mutation m m' t = Ok t'
        /\ if commit then l = [Committed old t'] /\ view s' = None
           else l = [] /\ view s' = Some (old, t') /\ known id s' = Some m' /\ unflushed s' = false
    | Err _ => l = [] \/ commit = true /\ exists t', l = [Committed old t'] /\ presets (tables t') = presets (tables t)
    end).
Proof.
  intros V Hid. destruct (Mutation.transition_preset_mutation _ _ _ _ _ _ _) as [m'|e] eqn:Ht; [|apply told_raise; by left].
  destruct (transition_intent _ _ _ _ _ _ _ _ Ht) as [(Hm' & _) _].
  eapply told_bind; [by apply told_alter|naive_solver|]. intros [] l2 s2 (-> & t' & Hu & V2 & _).
  eapply told_bind; [apply told_put|naive_solver|]. intros [] l3 s3 (-> & _ & V3 & L3). destruct commit.
  - eapply told_weaken; [apply (told_commit_rows t'); congruence|]. intros l r s' (V' & _ & Hl). destruct r as [[]|e].
    + subst l. by exists m', t'.
    + destruct Hl as [-> | ->]; [by left|right]. split; [done|]. exists t'. split; [done|]. by eapply update_mutation_presets.
  - exists []. rewrite app_nil_r. split; [done|]. exists m', t'. split; [done|]. split; [done|]. cbn. split; [done|].
    split; [congruence|]. split; [|done]. rewrite <- Hid, <- Hm'. by eapply known_remember.
Qed.

Lemma told_transition id target before after backup err div (commit : bool) m t s :
  view s = Some (old, t) -> known id s = Some m -> mutation_id m = id ->
  told log (transition_preset_mutation v id target before after backup err div commit : M unit) s (fun l r s' =>
    match r with
    | Ok _ => exists m' t', Mutation.transition_preset_mutation m target before after backup err div = Ok m'
        /\ update_mutation m m' t = Ok t'
        /\ if commit then l = [Committed old t'] /\ view s' = None
           else l = [] /\ view s' = Some (old, t') /\ known id s' = Some m' /\ unflushed s' = false
    | Err _ => l = [] \/ commit = true /\ exists t', l = [Committed old t'] /\ presets (tables t') = presets (tables t)
    end).
Proof.
  intros V K Hid. eapply told_bind; [by apply told_attributes|naive_solver|]. intros m1 l1 s1 (-> & [= ->] & ->).
  by apply told_apply.
Qed.

(** The same where the reservation is still to be taken, or the object to be loaded. *)
Lemma told_alter_free f s : view s = None ->
  told log (alter v f : M unit) s (fun l r s' => l = [] /\ match r with
    | Ok _ => exists t t', f t = Ok t' /\ view s' = Some (t, t')
    | Err _ => view s' = None end).
Proof.
  intros Hv. unfold told, alter, reserve, rewrite_view, mbind, st_bind. exists []. rewrite app_nil_r.
  destruct (statement v (world s)) as [[e|] w]; [done|]. rewrite Hv. destruct (others v (disk s) w) as [t w']. cbn.
  destruct (f t) as [t'|e] eqn:Hf; [|done]. cbn. split; [done|]. split; [done|]. by exists t, t'.
Qed.
Lemma told_stage_free f s : view s = None ->
  told log (stage v f : M unit) s (fun l r s' => l = [] /\ match r with
    | Ok _ => exists t t', f t = Ok t' /\ view s' = Some (t, t')
    | Err _ => view s' = None end).
Proof.
  intros Hv. eapply told_bind; [by apply told_alter_free|done|]. intros [] l s1 (-> & t & t' & Hf & V). exists []. rewrite app_nil_r.
  split; [done|]. split; [done|]. by exists t, t'.
Qed.

Lemma told_attributes_any id t s : view s = Some (old, t) ->
  told log (attributes v id : M PresetMutation) s (fun l r s' => l = [] /\ view s' = Some (old, t)
    /\ match r with Ok m => mutation_id m = id | Err _ => True end).
Proof.
  intros Hv. eapply told_bind_now; [reflexivity|]. fold (known id s). destruct (known id s) as [m|] eqn:Hk.
  - apply told_ret. split_and!; [done..|by eapply known_id].
  - eapply told_weaken; [by apply told_refresh|]. intros l r s' (-> & V & H1). split; [done|]. split; [done|].
    destruct r as [m|]; [|done]. destruct H1 as [H1 _]. by eapply find_mutation_id.
Qed.

Lemma told_transition_any id target before after backup err div t s : view s = Some (old, t) ->
  told log (transition_preset_mutation v id target before after backup err div true : M unit) s (fun l r s' =>
    match r with
    | Ok _ => exists m m' t', mutation_id m = id
        /\ Mutation.transition_preset_mutation m target before after backup err div = Ok m'
        /\ update_mutation m m' t = Ok t' /\ l = [Committed old t'] /\ view s' = None
    | Err _ => l = [] \/ exists t', l = [Committed old t'] /\ presets (tables t') = presets (tables t)
    end).
Proof.
  intros V. eapply told_bind; [by apply told_attributes_any|naive_solver|]. intros m l1 s1 (-> & V1 & Hid).
  eapply told_weaken; [apply (told_apply id target before after backup err div true m t s1 V1 Hid)|]. intros l r s'. destruct r as [[]|e].
  - intros (m' & t' & H1 & H2 & -> & H4). by exists m, m', t'.
  - intros [-> |(_ & H')]; [by left|by right].
Qed.
End Held.

(** A transition under the reservation, whose objects have the attributes of their rows. *)
Lemma update_mutation_other id m m' t t' : id <> mutation_id m -> update_mutation m m' t = Ok t' -> find_mutation id t' = find_mutation id t.
Proof.
  unfold update_mutation. destruct (existsb _ _); [|done]. intros Hn [= <-]. unfold find_mutation. cbn. f_equal.
  induction (mutations (tables t)) as [|x l IH]; [done|]. cbn. destruct (is_mutation (mutation_id m) x) eqn:Hx.
  - assert (is_mutation id x = false) as Hf by (apply bool_decide_eq_false; apply bool_decide_eq_true in Hx; congruence).
    assert (is_mutation id (update_row m m' x) = false) as Hf' by exact Hf. by rewrite Hf, Hf', IH.
  - destruct (is_mutation id x); [by rewrite IH|exact IH].
Qed.

Lemma known_other {W} id m (s : session W) l : loaded s = remember m l -> id <> mutation_id m -> known id s = head (List.filter (is_mutation id) l).
Proof.
  intros H Hn. unfold known. rewrite H. unfold remember. cbn.
  assert (forall x, is_mutation (mutation_id m) x = true -> is_mutation id x = false) as Hd.
  { intros x Hx%bool_decide_eq_true. apply bool_decide_eq_false. congruence. }
  rewrite (Hd m) by (unfold is_mutation; by apply bool_decide_eq_true). f_equal.
  clear H. induction l as [|x l IH]; [done|]. cbn. destruct (is_mutation (mutation_id m) x) eqn:Hx; cbn; rewrite IH; [|done]. by rewrite (Hd x Hx).
Qed.

Lemma fresh_remember {W} m (s s' : session W) t t' : fresh_objects s t -> loaded s' = remember m (loaded s) ->
  find_mutation (mutation_id m) t' = Some m -> (forall id, id <> mutation_id m -> find_mutation id t' = find_mutation id t) -> fresh_objects s' t'.
Proof.
  intros Hf L Hm Ho id x Hk. destruct (decide (id = mutation_id m)) as [->|Hn].
  - rewrite (known_remember _ _ _ L) in Hk. congruence.
  - rewrite Ho by done. apply Hf. by rewrite (known_other _ _ _ _ L Hn) in Hk.
Qed.

Lemma told_transition_held {W} (v : env W) {E} `{!Radio.Raises E} old id target before after backup err div t s :
  view s = Some (old, t) -> fresh_objects s t ->
  told log (transition_preset_mutation v id target before after backup err div false : ST (session W) E unit) s (fun l r s' => l = []
    /\ match r with
       | Ok _ => exists m m' t', find_mutation id t = Some m
           /\ Mutation.transition_preset_mutation m target before after backup err div = Ok m'
           /\ update_mutation m m' t = Ok t' /\ view s' = Some (old, t') /\ fresh_objects s' t' /\ find_mutation id t' = Some m'
       | Err _ => True end).
Proof.
  intros V F. eapply told_bind.
  { instantiate (1 := fun l r s' => l = [] /\ match r with Ok m => view s' = Some (old, t) /\ find_mutation id t = Some m /\ fresh_objects s' t | Err _ => True end).
    eapply told_bind_now; [reflexivity|]. fold (known id s). destruct (known id s) as [m|] eqn:Hk; [apply told_ret; by eauto|].
    eapply told_bind; [by eapply told_read_rows|naive_solver|]. intros found l1 s1 (-> & V1 & L1 & ->).
    destruct (find_mutation id t) as [m|] eqn:Hm; [|by apply told_raise].
    eapply told_bind; [apply told_put|naive_solver|]. intros [] l2 s2 (-> & _ & V2 & L2). apply told_ret. split; [done|].
    split; [congruence|]. split; [done|]. eapply (fresh_remember m s); [done|congruence| |done].
    by rewrite (find_mutation_id _ _ _ Hm). }
  { by intros e l s' [-> _]. }
  intros m l1 s1 (-> & V1 & Hm & F1). destruct (Mutation.transition_preset_mutation _ _ _ _ _ _ _) as [m'|] eqn:Ht; [|by apply told_raise].
  destruct (transition_intent _ _ _ _ _ _ _ _ Ht) as [Hi _]. pose proof (find_mutation_id _ _ _ Hm) as Hid.
  eapply told_bind; [by apply told_alter|naive_solver|]. intros [] l2 s2 (-> & t' & Hu & V2 & L2).
  eapply told_bind; [apply told_put|naive_solver|]. intros [] l3 s3 (-> & _ & V3 & L3). exists []. rewrite app_nil_r.
  split; [done|]. split; [done|]. exists m, m', t'. pose proof Hi as [Hi' _].
  assert (find_mutation (mutation_id m) t' = Some m') as Hf' by (eapply update_mutation_find; [done|by rewrite Hid|done]).
  split_and!; [done|done|done|cbn; congruence| |by rewrite <- Hid].
  apply (fresh_remember m' s1 _ t); [done|cbn; congruence|by rewrite Hi'|]. intros x Hx. eapply update_mutation_other; [|done]. congruence.
Qed.

(** ** Access to the radio *)
Lemma filter_filter_same {A} (f : A -> bool) l : List.filter f (List.filter f l) = List.filter f l.
Proof. induction l as [|x l IH]; [done|]. cbn. destruct (f x) eqn:Hx; cbn; rewrite ?Hx, IH; done. Qed.
Lemma filter_filter_weaker {A} (f g : A -> bool) l : (forall x, f x = true -> g x = true) -> List.filter f (List.filter g l) = List.filter f l.
Proof.
  intros H. induction l as [|x l IH]; [done|]. cbn. destruct (g x) eqn:Hg; cbn; destruct (f x) eqn:Hf; rewrite ?IH; try done.
  rewrite (H _ Hf) in Hg. discriminate.
Qed.

Section WindowFacts.
Context (float_repr : Z -> list Z) {W : Type} (v : env W) {E : Type} `{!Radio.Raises E}.
#[local] Abbreviation M := (ST (session W) E).
Context (guard : M unit) (guard_aside : steps_in (aside hushed) guard).
#[local] Abbreviation version_of := (version_of float_repr).

(** The version of the rows a query finds is the version of the rows. *)
Lemma version_of_own who exclude t :
  version_of who exclude {| tables := {| presets := List.filter (of_device who) (presets (tables t));
    mutations := List.filter (fun m => bool_decide (device_id m = who)) (mutations (tables t)); backups := [] |}; journal := [] |}
  = version_of who exclude t.
Proof.
  unfold Store.version_of, version_document. cbn. rewrite filter_filter_same. rewrite filter_filter_weaker; [done|].
  intros m. by intros [? _]%andb_true_iff.
Qed.

Lemma calms_local_state who exclude : steps_in calmly (local_state float_repr v who exclude : M _).
Proof. unfold local_state. steps. Qed.
Lemma calms_local_version who exclude : steps_in calmly (local_version float_repr v who exclude : M _).
Proof. apply steps_in_bind; [apply _|apply calms_local_state|intros []; apply steps_in_ret, _]. Qed.

Lemma asides_run_guard : steps_in (aside hushed) (run_guard guard).
Proof using guard_aside. apply steps_in_bind; [apply _|done|intros _; by apply asides_emit]. Qed.
Lemma asides_unchanged a : steps_in (aside hushed) (unchanged v guard a).
Proof using guard_aside.
  apply steps_in_bind; [apply _|apply asides_ask|intros _]. apply steps_in_bind; [apply _|apply asides_get_device|intros d].
  destruct (negb _); [apply steps_in_raise, _|apply asides_run_guard].
Qed.
(** The version of the rows under the reservation; its query reloads the mutations. *)
Definition reloaded (who : string) (t : store) (l : list PresetMutation) : list PresetMutation :=
  foldl (fun l m => remember m l) l (List.filter (fun m => bool_decide (device_id m = who)) (mutations (tables t))).
Lemma told_puts (ms : list PresetMutation) p s : view s = Some p ->
  told log (for_each ms put : M unit) s (fun l _ s' => l = [] /\ view s' = Some p /\ loaded s' = foldl (fun l m => remember m l) (loaded s) ms).
Proof.
  revert s. induction ms as [|m ms IH]; intros s V; cbn [for_each]; [by apply told_ret|].
  eapply told_bind; [apply told_put|naive_solver|]. intros [] l s1 (-> & _ & V1 & L1). cbn. rewrite <- L1. apply IH. congruence.
Qed.
Lemma told_local_state who exclude old t s : view s = Some (old, t) ->
  told log (local_state float_repr v who exclude : M _) s (fun l r s' => forallb hushed l = true /\ view s' = Some (old, t)
    /\ match r with Ok (_, version) => version = version_of who exclude t /\ loaded s' = reloaded who t (loaded s) | Err _ => True end).
Proof.
  intros V. unfold local_state. eapply told_bind; [by eapply told_read_rows|naive_solver|]. intros stored l1 s1 (-> & V1 & L1 & ->).
  eapply told_bind; [by eapply told_read_rows|naive_solver|]. intros found l2 s2 (-> & V2 & L2 & ->).
  eapply told_bind; [by apply told_puts|naive_solver|]. intros [] l3 s3 (-> & V3 & L3).
  eapply told_bind; [by apply (told_asides hushed), asides_emit|intros e l s' [K [= _ V' _ _]]; by rewrite V'|].
  intros [] l4 s4 [K4 [= _ V4 _ L4]]. apply told_ret. cbn [app]. rewrite app_nil_r.
  split; [done|]. split; [congruence|]. rewrite version_of_own. split; [done|]. unfold reloaded. by rewrite L4, L3, L2, L1.
Qed.
Lemma told_local_version who exclude old t s : view s = Some (old, t) ->
  told log (local_version float_repr v who exclude : M _) s (fun l r s' => forallb hushed l = true /\ view s' = Some (old, t)
    /\ match r with Ok version => version = version_of who exclude t /\ loaded s' = reloaded who t (loaded s) | Err _ => True end).
Proof.
  intros V. eapply told_bind; [by apply told_local_state|naive_solver|]. intros [stored version] l1 s1 (K1 & V1 & Hver).
  apply told_ret. by rewrite app_nil_r.
Qed.

(** The version of rows that were looked at before anything was asked of the radio, before
    any waiting and before anything became durable. *)
Definition planned (version : string) (l : list event) : Prop :=
  exists l0 who rows l1, l = l0 ++ Looked who rows :: l1 /\ forallb hushed l0 = true /\ version = version_of who [] rows.

Lemma planned_around version l0 l l1 : forallb hushed l0 = true -> planned version l -> planned version (l0 ++ l ++ l1).
Proof.
  intros K (la & who & rows & lb & -> & Ka & ->). exists (l0 ++ la), who, rows, (lb ++ l1). rewrite <- !app_assoc. split; [done|].
  by rewrite forallb_app, K.
Qed.

(** A version is that of the rows that were looked at. *)
Definition looked (who : string) (exclude : list string) (version : string) (l : list event) : Prop :=
  exists rows, l = [Looked who rows] /\ version = version_of who exclude rows.

Lemma looked_planned who version l : looked who [] version l -> planned version l.
Proof. intros (rows & -> & ->). by exists [], who, rows, []. Qed.

Lemma told_version who exclude s :
  told log (local_version float_repr v who exclude : M _) s (fun l r s' => forallb hushed l = true /\ (view s = None -> view s' = None)
    /\ match r with Ok version => looked who exclude version l | Err _ => True end).
Proof.
  assert (forall {A} (f : store -> A) s, told log (read v f : M A) s (fun l _ s' => l = [] /\ (view s = None -> view s' = None))) as Hr.
  { intros A f s0. exists []. rewrite app_nil_r. unfold read. destruct (statement v (world s0)) as [[e|] w]; [done|].
    destruct (view s0) as [[]|]; [done|]. by destruct (others v (disk s0) w) as [t w']. }
  assert (forall ms s, told log (for_each ms put : M unit) s (fun l _ s' => l = [] /\ (view s = None -> view s' = None))) as Hp.
  { intros ms. induction ms as [|m ms IH]; intros s0; cbn [for_each]; [by apply told_ret|].
    eapply told_bind; [apply told_put|by intros e l s' (-> & _ & -> & _)|].
    intros [] l1 s1 (-> & _ & V1 & _). rewrite <- V1. apply IH. }
  unfold local_version, local_state. eapply told_bind.
  { instantiate (1 := fun l r s' => forallb hushed l = true /\ (view s = None -> view s' = None)
      /\ match r with Ok (_, version) => looked who exclude version l | Err _ => True end).
    eapply told_bind; [apply Hr|by intros e l s' [-> ?]|]. intros stored l1 s1 [-> V1].
    eapply told_bind; [apply Hr|by intros e l s' [-> ?]; split_and!; auto|]. intros found l2 s2 [-> V2].
    eapply told_bind; [apply Hp|by intros e l s' [-> ?]; split_and!; auto|]. intros [] l3 s3 [-> V3].
    exists [Looked who {| tables := {| presets := stored; mutations := found; backups := [] |}; journal := [] |}].
    split; [done|]. split; [done|]. split; [cbn; auto|]. by eexists. }
  { by intros e l s' (K & V' & _). }
  intros [stored version] l1 s1 (K1 & V1 & H1). apply told_ret. by rewrite app_nil_r.
Qed.

(** A window opens on rows whose version is the expected one. *)
Lemma told_commit_window a expected exclude s :
  told log (commit_window float_repr v guard a expected exclude) s (fun l r s' => forallb hushed l = true
    /\ match r with
       | Ok _ => exists t, view s' = Some (t, t) /\ version_of (identity a) exclude t = expected
                   /\ (exists t0 w, t = (others v t0 w).1) /\ loaded s' = reloaded (identity a) t []
       | Err _ => True end).
Proof using guard_aside.
  unfold commit_window. eapply told_bind_now; [reflexivity|].
  eapply told_bind.
  { instantiate (1 := fun l _ s' => l = []). destruct (unflushed s); [by apply told_raise|by apply told_ret]. }
  { by intros e l s' ->. }
  intros [] l2 s2 ->. eapply told_bind.
  { instantiate (1 := fun l r s' => l = [] /\ view s' = None /\ loaded s' = []). exists []. by rewrite app_nil_r. }
  { by intros e l s' (-> & _). }
  intros [] l3 s3 (-> & V3 & L3). eapply told_bind.
  { instantiate (1 := fun l r s' => l = [] /\ match r with Ok _ => exists t, view s' = Some (t, t) /\ loaded s' = [] /\ exists t0 w, t = (others v t0 w).1 | Err _ => True end).
    unfold told, reserve. exists []. rewrite app_nil_r. destruct (statement v (world s3)) as [[e|] w]; [done|].
    rewrite V3. destruct (others v (disk s3) w) as [t w'] eqn:Ho. split; [done|]. split; [done|]. exists t. split; [done|]. split; [done|].
    exists (disk s3), w. by rewrite Ho. }
  { by intros e l s' (-> & _). }
  intros [] l4 s4 (-> & t & V4 & L4 & Ho). eapply told_bind; [apply (told_asides hushed), asides_unchanged| |].
  { by intros e l s' (K & _). }
  intros [] l5 s5 (K5 & [= _ V5 _ L5]). eapply told_bind; [by apply told_local_version; rewrite V5|by intros e l s' (K & _); rewrite !forallb_app, K5, K|].
  intros version l6 s6 (K6 & V6 & -> & L6). case_bool_decide as Hv.
  - apply told_ret. rewrite !app_nil_r. cbn [app]. split; [by rewrite forallb_app, K5, K6|]. exists t. rewrite L6, L5, L4. by split_and!.
  - apply told_raise. rewrite !app_nil_r. cbn [app]. split; [by rewrite forallb_app, K5, K6|done].
Qed.

Lemma milds_commit_window a expected exclude : steps_in mildly (commit_window float_repr v guard a expected exclude).
Proof using guard_aside.
  assert (steps_in mildly (unchanged v guard a)) as Hu by apply milds_calms, calms_asides, asides_unchanged.
  assert (steps_in mildly (local_version float_repr v (identity a) exclude : M string)) as Hv by apply milds_calms, calms_local_version.
  unfold commit_window.  steps.
Qed.
End WindowFacts.

Section AccessFacts.
Context (parse_xml : string -> option element) (fromstring : string -> res fault element) (content_xml : string -> nat -> string).
Context {W : Type} (v : env W) {E : Type} `{!Radio.Raises E}.
#[local] Abbreviation M := (ST (session W) E).
Context (guard : M unit) (guard_aside : steps_in (aside hushed) guard).

Lemma asides_verify p xml : steps_in (aside p) (verify parse_xml v xml : M unit).
Proof.
  unfold verify. apply steps_in_bind; [apply _|apply asides_get_device|intros d].
  apply steps_in_bind; [apply _|apply steps_in_gets, _|intros x]. apply steps_in_bind; [apply _|apply asides_lift|intros y; apply steps_in_ret, _].
Qed.
Lemma asides_open_access write : steps_in (aside hushed) (open_access parse_xml fromstring v guard write).
Proof using guard_aside.
  unfold open_access. apply steps_in_bind; [apply _|apply asides_get_device|intros d].
  apply steps_in_bind; [apply _|by apply asides_run_guard|intros _].
  apply steps_in_bind; [apply _| |intros _; apply steps_in_bind; [apply _|apply asides_ask|intros _; apply steps_in_ret, _]].
  destruct write; [|apply steps_in_ret, _]. apply steps_in_bind; [apply _|apply asides_get_device|intros d'].
  apply steps_in_bind; [apply _|apply asides_lift|intros _; apply asides_verify].
Qed.

Lemma asides_observe a : steps_in (aside quiet) (observe parse_xml fromstring content_xml v guard a).
Proof using guard_aside.
  assert (steps_in (aside quiet) (unchanged v guard a)) as Hu by (apply quiet_asides; by apply asides_unchanged).
  pose proof asides_verify. unfold observe. steps.
Qed.

(** The requests before the one for the presets. *)
Definition elsewhere (e : event) : bool :=
  match e with Got path _ => negb (bool_decide (path = "/presets")) | Slept _ => false | e => quiet e end.
Lemma elsewhere_sights l : forallb elsewhere l = true -> sights l = [].
Proof.
  induction l as [|e l IH]; [done|]. cbn. intros [He Hl]%andb_true_iff. specialize (IH Hl).
  destruct e as [| | |path [xml|x]|path xml x|o n|x|ms|who t]; try done. cbn in He. case_bool_decide; [done|]. exact IH.
Qed.
Lemma hushed_elsewhere {A} (m : M A) : steps_in (aside hushed) m -> steps_in (aside elsewhere) m.
Proof.
  apply steps_in_weaken. intros s s' (R & l & L & K). split; [done|]. exists l. split; [done|].
  rewrite !forallb_forall in *. intros e He. specialize (K e He). by destruct e.
Qed.
Lemma asides_get_elsewhere path : path <> "/presets" -> steps_in (aside elsewhere) (get v path : M string).
Proof.
  intros Hp s. unfold get, call. destruct (get_xml v path (world s)) as [[a|e] w]; eapply aside_log; try done; cbn;
    by rewrite bool_decide_false.
Qed.

(** An observation reads the presets once. *)
Lemma told_sight a s :
  told log (observe parse_xml fromstring content_xml v guard a) s (fun l r _ =>
    match r with
    | Ok o => exists xml, sights l = [Shown xml] /\ Slots.parse parse_xml fromstring content_xml xml (identity a) = Ok o
    | Err _ => True end).
Proof using guard_aside.
  pose proof (asides_unchanged v guard guard_aside a) as Hu. unfold observe.
  eapply told_bind; [by apply (told_asides elsewhere), hushed_elsewhere|done|]. intros [] l1 s1 [K1%elsewhere_sights _].
  eapply told_bind; [by apply (told_asides elsewhere), asides_get_elsewhere|done|]. intros info l2 s2 [K2%elsewhere_sights _].
  eapply told_bind; [apply (told_asides elsewhere), asides_lift|done|]. intros node l3 s3 [K3%elsewhere_sights _].
  eapply told_bind; [apply (told_asides elsewhere)|done|]; [destruct (negb _); [apply steps_in_raise, _|apply steps_in_ret, _]|].
  intros [] l4 s4 [K4%elsewhere_sights _].
  eapply told_bind; [apply (told_asides elsewhere)|done|]; [destruct (a_write a); [apply asides_verify|apply steps_in_ret, _]|].
  intros [] l5 s5 [K5%elsewhere_sights _].
  eapply told_bind; [by apply (told_asides elsewhere), hushed_elsewhere|done|]. intros [] l6 s6 [K6%elsewhere_sights _].
  eapply told_bind.
  { instantiate (1 := fun l r _ => match r with Ok xml => sights l = [Shown xml] | Err _ => True end).
    unfold told, get, call. destruct (get_xml v "/presets" (world s6)) as [[x|x] w]; by eexists [_]. }
  { done. }
  intros xml l7 s7 K7. eapply told_bind; [apply told_lift_result|done|]. intros o l8 s8 (-> & Ho).
  eapply told_bind; [by apply (told_asides elsewhere), hushed_elsewhere|done|]. intros [] l9 s9 [K9%elsewhere_sights _].
  apply told_ret. exists xml. split; [|done]. rewrite !sights_app, K1, K2, K3, K4, K5, K6, K7, K9. done.
Qed.

Lemma told_observed a s :
  told log (observe parse_xml fromstring content_xml v guard a) s (fun l r _ =>
    match r with
    | Ok o => exists xml, presets_seen l = [xml] /\ Slots.parse parse_xml fromstring content_xml xml (identity a) = Ok o
    | Err _ => True end).
Proof using guard_aside.
  eapply told_weaken; [apply told_sight|]. intros l r s' Hr. destruct r as [o|]; [|done]. destruct Hr as (xml & K & Ho).
  exists xml. by rewrite <- shown_sights, K.
Qed.

Lemma told_observation a s :
  told log (observe parse_xml fromstring content_xml v guard a) s (fun l r s' => (forallb quiet l = true /\ rows_of s' = rows_of s)
    /\ match r with
       | Ok o => exists xml, presets_seen l = [xml] /\ Slots.parse parse_xml fromstring content_xml xml (identity a) = Ok o
       | Err _ => True end).
Proof using guard_aside. apply told_both; [apply told_asides, asides_observe|apply told_observed]. Qed.

End AccessFacts.

(** ** What a session does to its mutations *)
Section StatementFacts.
Context (float_repr : Z -> list Z) {W : Type} (v : env W) {E : Type} `{!Radio.Raises E}.
#[local] Abbreviation M := (ST (session W) E).

Lemma calms_latest who b : steps_in calmly (_latest v who b : M _).
Proof. unfold _latest. steps. Qed.
Lemma milds_insert m : steps_in mildly (stage v (insert_mutation m) : M unit).
Proof. apply milds_stage. intros t t'. unfold insert_mutation. destruct (existsb _ _); [done|]. by intros [= <-]. Qed.
Lemma milds_add_backup b : steps_in mildly (stage v (fun t => Ok (add_backup b t)) : M unit).
Proof. apply milds_stage. by intros t t' [= <-]. Qed.
Lemma milds_record_action a : steps_in mildly (record_action v a : M unit).
Proof. apply steps_in_bind; [apply _| |intros _; apply milds_calms, calms_flush]. apply milds_stage. by intros t t' [= <-]. Qed.
Lemma milds_prepare who b op requested : steps_in mildly (prepare_preset_mutation float_repr v who b op requested : M PresetMutation).
Proof.
  pose proof milds_insert. pose proof milds_add_backup. unfold prepare_preset_mutation. steps.
Qed.

Lemma update_mutation_backups m m' t t' : update_mutation m m' t = Ok t' -> backups (tables t') = backups (tables t).
Proof. unfold update_mutation. destruct (existsb _ _); [by intros [= <-]|done]. Qed.

Lemma same_intent_trans m1 m2 m3 : same_intent m1 m2 -> same_intent m2 m3 -> same_intent m1 m3.
Proof. unfold same_intent. intuition congruence. Qed.

Lemma update_mutation_in m m' t t' : update_mutation m m' t = Ok t' ->
  exists x, x ∈ mutations (tables t') /\ mutation_id x = mutation_id m.
Proof.
  unfold update_mutation. destruct (existsb _ _) eqn:Hx; [|done]. intros [= <-]. apply existsb_exists in Hx as (x & Hin & Hx).
  exists (update_row m m' x). split.
  - cbn. apply list_elem_of_In, in_map_iff. exists x. by rewrite Hx.
  - cbn. by apply bool_decide_eq_true in Hx.
Qed.

Lemma told_record a old t s : view s = Some (old, t) ->
  told log (record_action v a : M unit) s (fun l o s' => l = []
    /\ match o with Ok _ => view s' = Some (old, add_action a t) | Err _ => True end).
Proof.
  intros V. eapply told_bind; [by apply told_stage|naive_solver|]. intros [] l s' (-> & t4 & [= <-] & V' & _). exists [].
  by rewrite app_nil_r.
Qed.

(** A new mutation, with its original request. *)
Definition recorded (who : string) (b : Z) (op : string) (requested : json) (id : string) (old new : store) : Prop :=
  find_mutation id old = None
  /\ exists m, find_mutation id new = Some m /\ state m = "PREPARED" /\ operation m = op /\ device_id m = who
       /\ button m = b /\ requested_sha256 m = _digest float_repr requested
       /\ {| b_device := who; path := intent_path id; content := canonical float_repr requested |} ∈ backups (tables new).

Lemma insert_mutation_find m t t' : insert_mutation m t = Ok t' ->
  find_mutation (mutation_id m) t = None /\ find_mutation (mutation_id m) t' = Some m.
Proof.
  unfold insert_mutation, find_mutation. destruct (existsb _ _) eqn:Hx; [done|]. intros [= <-]. cbn. rewrite filter_app.
  assert (List.filter (is_mutation (mutation_id m)) (mutations (tables t)) = []) as ->.
  { induction (mutations (tables t)) as [|x l IH]; [done|]. cbn in *. apply orb_false_iff in Hx as [-> Hx]. by apply IH. }
  cbn. unfold is_mutation. by rewrite bool_decide_true.
Qed.

Lemma told_fresh s : told log (fresh v : M string) s (fun l _ s' => l = [] /\ view s' = view s).
Proof. unfold told, fresh, ask. destruct (uuid4 v (world s)) as [u w]. exists []. by rewrite app_nil_r. Qed.

Lemma told_refresh_free id s : view s = None ->
  told log (refresh_mutation v id : M PresetMutation) s (fun l r s' => l = [] /\ view s' = None
    /\ match r with Ok m => mutation_id m = id | Err _ => True end).
Proof.
  intros V. eapply told_bind.
  { instantiate (1 := fun l r s' => l = [] /\ view s' = None /\ match r with Ok (Some m) => mutation_id m = id | _ => True end).
    unfold told, read. exists []. rewrite app_nil_r. destruct (statement v (world s)) as [[e|] w]; [done|]. rewrite V.
    destruct (others v (disk s) w) as [t w']. cbn. split_and!; [done..|]. destruct (find_mutation id t) eqn:Hf; [|done].
    by eapply find_mutation_id. }
  { naive_solver. }
  intros [m|] l1 s1 (-> & V1 & Hm); [|by apply told_raise].
  eapply told_bind; [apply told_put|naive_solver|]. intros [] l2 s2 (-> & _ & V2 & _). apply told_ret. split; [done|]. split; [congruence|done].
Qed.

Lemma told_prepared who b op requested s t : py_upper op = op -> view s = Some (t, t) ->
  told log (prepare_preset_mutation float_repr v who b op requested : M PresetMutation) s (fun l o s' =>
    match o with
    | Ok m => exists new, l = [Committed t new] /\ recorded who b op requested (mutation_id m) t new /\ view s' = None
    | Err _ => True end).
Proof.
  intros Hop V. unfold prepare_preset_mutation.
  eapply told_bind; [by eapply told_read_rows|done|]. intros previous l1 s1 (-> & V1 & _ & ->).
  eapply told_bind; [by eapply told_read_rows|done|]. intros known l2 s2 (-> & V2 & _ & ->).
  eapply told_bind; [apply told_fresh|done|]. intros u l3 s3 (-> & V3).
  destruct (Mutation.prepare_preset_mutation _ _ _ _ _ _ _) as [[m rest]|] eqn:Hp; [|by apply told_raise].
  apply bind_Ok in Hp as (p & _ & [= <- _]). match goal with |- context [insert_mutation ?x] => set (m := x) end.
  eapply told_bind; [by apply told_stage; rewrite V3|done|]. intros [] l4 s4 (-> & t1 & I1 & V4 & _).
  eapply told_bind; [by apply told_stage|done|]. intros [] l5 s5 (-> & t2 & [= <-] & V5 & _).
  eapply told_bind; [by eapply told_commit_rows|done|]. intros [] l6 s6 (V6 & _ & ->).
  eapply told_weaken; [apply told_refresh_free; exact V6|]. intros l o s' (-> & V' & Ho). destruct o as [m'|e]; [|done].
  eexists. split; [done|]. split; [|done]. rewrite Ho. destruct (insert_mutation_find _ _ _ I1) as [F1 F2].
  change u with (mutation_id m). split; [done|]. exists m. split; [exact F2|]. split_and!; try done.
  cbn. apply elem_of_app. right. left.
Qed.
End StatementFacts.

(** ** The rows of presets by slot *)
Section Slot_rows.
Context (who : string).

Definition at_slot (l : list Preset) (b : Z) : list Preset := List.filter (is_slot who b) l.
Definition elsewhere_rows (l : list Preset) : list Preset := List.filter (fun p => negb (of_device who p)) l.

Lemma is_slot_self p : is_slot (p_device p) (p_button p) p = true.
Proof. unfold is_slot. by rewrite bool_decide_true, Z.eqb_refl. Qed.
Lemma is_slot_device b p : is_slot who b p = true -> of_device who p = true /\ p_button p = b.
Proof. unfold is_slot, of_device. intros [H H2]%andb_true_iff. split; [done|]. by apply Z.eqb_eq. Qed.

(** A replacement of the row of a slot. *)
Lemma replaced_at p l b : p_device p = who ->
  at_slot (map (fun q => if is_slot who (p_button p) q then p else q) l) b
  = if b =? p_button p then map (fun _ => p) (at_slot l b) else at_slot l b.
Proof.
  intros Hp. assert (is_slot who (p_button p) p = true) as Hs by (rewrite <- Hp; apply is_slot_self).
  unfold at_slot in *. induction l as [|q l IH]; cbn; [by destruct (b =? _)|]. destruct (is_slot who (p_button p) q) eqn:Hq.
  - destruct (b =? p_button p) eqn:Hb; [apply Z.eqb_eq in Hb as ->; by rewrite Hs, Hq, IH|].
    assert (forall x, is_slot who (p_button p) x = true -> is_slot who b x = false) as Hn.
    { intros x [_ Hx]%is_slot_device. unfold is_slot. rewrite Hx, (Z.eqb_sym _ b), Hb. apply andb_false_r. }
    by rewrite !Hn.
  - destruct (is_slot who b q) eqn:Hq'; rewrite IH; [|done]. destruct (b =? p_button p) eqn:Hb; [|done]. apply Z.eqb_eq in Hb as ->. congruence.
Qed.
Lemma replaced_elsewhere p l : p_device p = who ->
  elsewhere_rows (map (fun q => if is_slot who (p_button p) q then p else q) l) = elsewhere_rows l.
Proof.
  intros Hp. assert (of_device who p = true) as Hs by (unfold of_device; by rewrite bool_decide_true).
  unfold elsewhere_rows in *. induction l as [|q l IH]; [done|]. cbn. destruct (is_slot who (p_button p) q) eqn:Hq; [|by rewrite IH].
  apply is_slot_device in Hq as [-> _]. by rewrite Hs.
Qed.
Lemma deleted_at l b c : at_slot (List.filter (fun p => negb (is_slot who b p)) l) c = if c =? b then [] else at_slot l c.
Proof.
  unfold at_slot. induction l as [|q l IH]; cbn; [by destruct (c =? b)|]. destruct (is_slot who b q) eqn:Hb; cbn; rewrite IH; [|].
  - destruct (c =? b) eqn:Hc; [done|]. destruct (is_slot who c q) eqn:Hq; [|done]. apply is_slot_device in Hb as [_ Hb], Hq as [_ Hq].
    apply Z.eqb_neq in Hc. congruence.
  - destruct (c =? b) eqn:Hc; [|done]. apply Z.eqb_eq in Hc as ->. by rewrite Hb.
Qed.
Lemma deleted_elsewhere l b : elsewhere_rows (List.filter (fun p => negb (is_slot who b p)) l) = elsewhere_rows l.
Proof.
  unfold elsewhere_rows. induction l as [|q l IH]; [done|]. cbn. destruct (is_slot who b q) eqn:Hb; cbn; rewrite IH; [|done].
  by apply is_slot_device in Hb as [-> _].
Qed.

(** The row of a slot put in place of the one there is, or added. *)
Lemma row_put (p : Preset) (found : bool) t t' : p_device p = who -> (found = true -> exists q, at_slot (presets (tables t)) (p_button p) = [q]) ->
  (if found then replace_preset p else insert_preset p) t = Ok t' ->
  at_slot (presets (tables t')) (p_button p) = [p]
  /\ (forall b, b <> p_button p -> at_slot (presets (tables t')) b = at_slot (presets (tables t)) b)
  /\ elsewhere_rows (presets (tables t')) = elsewhere_rows (presets (tables t))
  /\ mutations (tables t') = mutations (tables t) /\ backups (tables t') = backups (tables t).
Proof.
  intros Hp Hq Hf. destruct found; [injection Hf as <-; cbn [tables presets with_presets mutations backups]; rewrite Hp; split_and!; try done|].
  - destruct (Hq eq_refl) as [q Ha]. rewrite replaced_at by done. by rewrite Z.eqb_refl, Ha.
  - intros b Hn. rewrite replaced_at by done. apply Z.eqb_neq in Hn. by rewrite Hn.
  - by apply replaced_elsewhere.
  - unfold insert_preset in Hf. destruct (existsb _ _) eqn:Hx; [done|]. injection Hf as <-. rewrite Hp in Hx. cbn.
    assert (at_slot (presets (tables t)) (p_button p) = []) as Ha.
    { unfold at_slot. clear -Hx. induction (presets (tables t)) as [|x l IH]; [done|]. cbn in *. by apply orb_false_iff in Hx as [-> Hx]; apply IH. }
    unfold at_slot, elsewhere_rows in *. split_and!; try done.
    + rewrite filter_app, Ha. cbn. unfold is_slot. by rewrite bool_decide_true, Z.eqb_refl.
    + intros b Hn. rewrite filter_app. cbn. unfold is_slot at 2. apply Z.eqb_neq in Hn.
      rewrite Z.eqb_sym, Hn, andb_false_r. by rewrite app_nil_r.
    + rewrite filter_app. cbn. unfold of_device at 2. rewrite bool_decide_true by done. by rewrite app_nil_r.
Qed.
End Slot_rows.

(** ** A radio with two presets, for the witnesses *)
Definition demo_info : element :=
  Element "info" [("deviceID", "AA")] None
    [Element "type" [] (Some "SoundTouch 20") []; Element "variant" [] (Some "spotty") []; Element "moduleType" [] (Some "sm2") [];
     Element "components" [] None [Element "softwareVersion" [] (Some "27.0.6.46330.5043500 epdbuild") []]].
Definition demo_content (place : string) : element :=
  Element "ContentItem" [("source", "TUNEIN"); ("location", place)] None [Element "itemName" [] (Some place) []].
Definition demo_preset (id : string) (place : string) : element := Element "preset" [("id", id)] None [demo_content place].
Definition demo_parse (t : string) : option element :=
  if bool_decide (t = "info") then Some demo_info
  else if bool_decide (t = "both") then Some (Element "presets" [] None [demo_preset "1" "/a"; demo_preset "2" "/b"])
  else if bool_decide (t = "one") then Some (Element "presets" [] None [demo_preset "1" "/a"])
  else if bool_decide (t = Slots.document_of 2 "b") then Some (Element "presets" [] None [demo_preset "2" "/b"])
  else None.
Definition demo_fromstring (t : string) : res fault element :=
  match demo_parse t with Some e => Ok e | None => Err Radio.ParseError end.
Definition demo_text (_ : string) (i : nat) : string := nth i ["a"; "b"] "".
Definition demo_floats (_ : Z) : list Z := [].

(** Whether the radio has removed the preset. *)
Definition demo_env : env bool := {|
  device := fun _ => {| Radio.device_id := "AA"; Radio.name := "AA"; Radio.model := "SoundTouch 20"; Radio.ip_address := "10.0.0.5";
                        Radio.firmware := "27.0.6.46330.5043500 epdbuild"; Radio.info_xml := "info" |};
  policy := fun _ => Protected.office;
  write_guard := fun w => (Ok tt, w); enter := fun w => (Ok tt, w); leave := fun w => w;
  connect := fun _ _ w => (Ok tt, w);
  get_xml := fun path w => (Ok (if bool_decide (path = "/info") then "info" else if w : bool then "one" else "both"), w);
  post_xml := fun path xml _ => (Err Radio.TransportError, true);
  sleep := fun _ w => (Ok tt, w); uuid4 := fun w => ("0123", w); refresh := fun w => (Ok tt, w);
  statement := fun w => (None, w); others := fun t w => (t, w); commit_fault := fun w => (None, w) |}.
Definition demo_row (b : Z) (place text : string) : Preset :=
  {| p_device := "AA"; p_button := b; station_id := None; source := "TUNEIN"; source_account := ""; location := place;
     content_item_xml := text |}.
Definition demo_store : store :=
  {| tables := {| presets := [demo_row 1 "/a" "a"; demo_row 2 "/b" "b"]; mutations := []; backups := [] |}; journal := [] |}.
Definition demo_session (removed : bool) : session bool :=
  {| world := removed; disk := demo_store; view := None; unflushed := false; loaded := []; log := [] |}.
Definition row_summary (s : session bool) : list Z * list (string * string) :=
  (map p_button (presets (tables (disk s))), map (fun m => (operation m, state m)) (mutations (tables (disk s)))).

End Store.
