(* ===== verification/Removal.v ===== *)
(** * Reading presets back and removing one

    services/[preset_recovery.py] over Store: the one-shot removal of a preset from a radio,
    and the download that closes uncertain mutations when the radio shows what their
    original intents asked for.  An exception inside a removal is handled with the local
    variables [mutation_id] and [attempted] of that moment; [at_] tags it with them. *)
From Stdlib Require Import Ascii String.
From S2P Require Import Prelude PyNum PyStr Json Sha256 Xml Protected Presets Radio Profiles Slots Store.
Import Xml Mutation Store.
#[local] Open Scope string_scope.
#[local] Open Scope list_scope.
#[local] Open Scope Z_scope.

Module Removal.

Inductive exn : Type :=
| Fault (f : fault)
| PresetRecoveryError (code : string) (attempted : bool) (mutation_id : string).
#[global] Instance raises_exn : Radio.Raises exn := Fault.
Definition caught (e : exn) : bool := match e with Fault f => Radio.is_exception f | _ => true end.

(** An exception with [mutation_id] and [attempted] where it was raised. *)
Definition trouble : Type := exn * string * bool.
#[global] Instance raises_trouble : Radio.Raises trouble := fun f => (Fault f, "", false).
Definition at_ {S A} (id : string) (attempted : bool) (m : ST S exn A) : ST S trouble A :=
  try_except m (fun e => raise (e, id, attempted)).

Definition UNCERTAIN : list string := ["FAILED"; "RECONCILE"; "RADIO_WRITE"; "RADIO_READBACK"; "VERIFIED"].

Section Services.
Context (float_repr : Z -> list Z).
Context (parse_xml : string -> option element) (fromstring : string -> res fault element) (content_xml : string -> nat -> string).
Context {W : Type} (v : env W).
(** [db.get(Station, key)]: the identifier of the station found. *)
Context (find_station : json -> W -> res fault (option Z) * W).
#[local] Abbreviation M := (ST (session W) exn).
#[local] Abbreviation invalid := (raise (Fault Radio.ValueError)).
#[local] Abbreviation _latest := (_latest v).
#[local] Abbreviation prepare_preset_mutation := (prepare_preset_mutation float_repr v).
#[local] Abbreviation record_action := (record_action v).
#[local] Abbreviation local_version := (local_version float_repr v).
#[local] Abbreviation transition := (transition_preset_mutation v).
#[local] Abbreviation observe := (observe parse_xml fromstring content_xml v).
#[local] Abbreviation unchanged := (unchanged v).
#[local] Abbreviation commit_window := (commit_window float_repr v).

Definition write_guard : M unit := ask (write_guard v).

Definition _intent (row : PresetMutation) : M (list (string * json)) :=
  t ← read v tables;
  match original_preset_intent float_repr t row with
  | Some (JObj kvs) => mret kvs
  | _ => invalid
  end.

Definition _start (row : PresetMutation) : M Slots.PresetObservation :=
  records ← read v (fun t => List.filter (fun b => bool_decide (b_device b = device_id row) && bool_decide (path b = backup_ref row))
                                         (backups (tables t)));
  match records with
  | [b] => if bool_decide (sha256_hex (content b) = before_radio_sha256 row)
           then lift (Slots.parse parse_xml fromstring content_xml (content b) (device_id row))
           else invalid
  | _ => invalid
  end.

(** ** [_confirmed]: the intent, if the radio shows that it was carried out *)
Definition confirms (row : PresetMutation) (requested : list (string * json)) (before actual : Slots.PresetObservation)
    (local : option Preset) : res fault bool :=
  if negb (bool_decide (_digest float_repr (preset_snapshot local) = expected_previous_sha256 row)) then Ok false
  else if negb (bool_decide (Slots.without before (button row) = Slots.without actual (button row))) then Ok false
  else if bool_decide (operation row = "DELETE")
  then Ok (match Json.get "deleted" requested with Some (JBool true) => true | _ => false end
           && is_none (Slots.slots actual !! button row))
  else
    desired ← Slots.requested_observation parse_xml fromstring content_xml (button row) requested (device_id row);
    match Slots.slots desired !! button row with
    | Some content => Ok (bool_decide (Slots.slots actual !! button row = Some content))
    | None => Ok false                                       (* KeyError *)
    end.

Definition _confirmed (row : PresetMutation) (actual : Slots.PresetObservation) (local : option Preset) :
    M (option (list (string * json))) :=
  if negb (bool_decide (state row ∈ UNCERTAIN)) then mret None
  else
    try_except
      (requested ← _intent row;
       before ← _start row;
       matched ← lift (confirms row requested before actual local);
       mret (if matched : bool then Some requested else None))
      (fun e => match e with
                | Fault (Radio.ValueError | Radio.IdentityMismatch) => mret None
                | _ => raise e
                end).

(** ** [_project] *)

(** [station_id if station_id and db.get(Station, station_id) else None]. *)
Definition resolved_station (intent : list (string * json)) : M (option Z) :=
  match Json.get "station_id" intent with
  | Some j => if truthy j then ask (find_station j) else mret None
  | None => mret None
  end.

Definition same_selection (p : Preset) (item : Slots.summary) : bool :=
  bool_decide ((source p, source_account p, location p) = (Slots.source item, Slots.source_account item, Slots.location item)).

Definition remove_slot {A} (b : Z) (l : list (Z * A)) : list (Z * A) := List.filter (fun x => negb (x.1 =? b)) l.

Fixpoint project_items (identity : string) (items : list Slots.summary) (resolved : list (Z * list (string * json)))
    (pending : list Z) (rows : list (Z * Preset)) : M (list (Z * Preset)) :=
  match items with
  | [] => mret rows
  | item :: items =>
      let slot := Slots.button item in
      if bool_decide (slot ∈ pending) then project_items identity items resolved pending rows
      else
        let row := lookup_slot slot rows in
        station ← match lookup_slot slot resolved with
                  | Some intent => resolved_station intent
                  | None => mret (match row with Some p => if same_selection p item then station_id p else None | None => None end)
                  end;
        stage v (if is_some row then replace_preset (projected identity item station) else insert_preset (projected identity item station));;
        project_items identity items resolved pending (remove_slot slot rows)
  end.

(** [{row.button: row for row in ...}] of the rows of the device. *)
Definition device_rows (identity : string) : M (list (Z * Preset)) :=
  rows ← read v (fun t => List.filter (of_device identity) (presets (tables t)));
  mret (map (fun p => (p_button p, p)) rows).

Definition _project (identity : string) (actual : Slots.PresetObservation) (resolved : list (Z * list (string * json)))
    (pending : list Z) : M unit :=
  rows ← device_rows identity;
  rest ← project_items identity (Slots.rows actual) resolved pending rows;
  for_each rest (fun x => if bool_decide (x.1 ∈ pending) then mret tt else stage v (delete_preset identity x.1)).

(** ** [download_presets] *)
Record reconciliation := { resolved : list (Z * list (string * json)); pending : list Z; reconciled : list (Z * string * Z) }.

(** The transitions that close a confirmed mutation. *)
Definition close (m : PresetMutation) (actual : Slots.PresetObservation) : M unit :=
  let id := mutation_id m in
  (if bool_decide (state m = "RADIO_WRITE") then transition id "RADIO_READBACK" None None None None None false else mret tt);;
  (if bool_decide (state m = "FAILED") then transition id "RECONCILE" None None None None None false else mret tt);;
  transition id "VERIFIED" None (Some (Slots.raw actual)) None None (Some false) false;;
  transition id "LOCAL_COMMIT" None None None None None false.

Definition reconcile_slot (identity : string) (actual : Slots.PresetObservation) (rows : list (Z * Preset)) (slot : Z)
    (acc : reconciliation) : M reconciliation :=
  m ← _latest identity slot;
  match m with
  | None => mret acc
  | Some m =>
      if is_closed m then mret acc
      else
        intent ← _confirmed m actual (lookup_slot slot rows);
        match intent with
        | None => mret {| resolved := resolved acc; pending := pending acc ++ [slot]; reconciled := reconciled acc |}
        | Some intent =>
            close m actual;;
            record_action (action_of (mutation_id m) identity "preset_reconcile" "VERIFIED" true (backup_ref m) JNull "");;
            mret {| resolved := (slot, intent) :: resolved acc; pending := pending acc;
                    reconciled := reconciled acc ++ [(slot, mutation_id m, revision m)] |}
        end
  end.
Fixpoint reconcile (identity : string) (actual : Slots.PresetObservation) (rows : list (Z * Preset)) (slots : list Z)
    (acc : reconciliation) : M reconciliation :=
  match slots with
  | [] => mret acc
  | slot :: slots => acc ← reconcile_slot identity actual rows slot acc; reconcile identity actual rows slots acc
  end.

Record download := { d_presets : list Slots.summary; d_reconciled : list (Z * string * Z); d_pending : list Z }.

Definition download_body : M download :=
  let guard := require_unprotected v in
  a ← open_access parse_xml fromstring v guard false;
  expected ← local_version (identity a) [];
  before ← observe guard a;
  pause v 500;;
  actual ← observe guard a;
  (if negb (bool_decide (Slots.slots before = Slots.slots actual)) then invalid else mret tt);;
  commit_window guard a expected [];;
  rows ← device_rows (identity a);
  r ← reconcile (identity a) actual rows [1; 2; 3; 4; 5; 6] {| resolved := []; pending := []; reconciled := [] |};
  _project (identity a) actual (resolved r) (pending r);;
  stage v (fun t => Ok (add_backup {| b_device := identity a; path := "/presets"; content := Slots.raw actual |} t));;
  commit_db v;;
  mret {| d_presets := Slots.rows actual; d_reconciled := reconciled r; d_pending := pending r |}.

Definition download_presets : M download :=
  try_except (device_transaction v download_body)
    (fun e => rollback_db;;
              if caught e then raise (PresetRecoveryError "PRESET_READBACK_NOT_CONFIRMED" false "") else raise e).

(** ** [remove_preset] *)
Definition anchor_of (m : PresetMutation) : string * string * string * string * Z :=
  (requested_sha256 m, expected_previous_sha256 m, before_radio_sha256 m, backup_ref m, revision m).

Definition single {A} (l : list A) : M A := match l with [x] => mret x | _ => raise (Fault Radio.OtherException) end.
Definition local_preset (identity : string) (b : Z) : M Preset :=
  rows ← read v (fun t => List.filter (is_slot identity b) (presets (tables t)));
  single rows.

Definition requested_delete (b : Z) : json := JObj [("button", JNum (PInt b)); ("deleted", JBool true)].

(** What the local state and the radio must be before anything is declared: the access,
    the version of the local rows and the observation. *)
Definition plan_removal (device_id : string) (b : Z) (expected_revision : option Z) : M (access * string * Slots.PresetObservation) :=
  a ← open_access parse_xml fromstring v write_guard true;
  latest ← _latest device_id b;
  (if match latest with
      | Some m => negb (is_closed m) && negb (bool_decide (state m = "FAILED") && negb (diverged m))
      | None => false end then invalid else mret tt);;
  (if match expected_revision with
      | Some r => negb (r =? match latest with Some m => revision m | None => 0 end)
      | None => false end then invalid else mret tt);;
  local ← local_preset device_id b;
  '(stored, expected) ← local_state float_repr v device_id [];
  let local := default local (head (List.filter (is_slot device_id b) stored)) in
  before ← observe write_guard a;
  wanted ← lift (Slots.requested_observation parse_xml fromstring content_xml b [("content_item_xml", JStr (content_item_xml local))] device_id);
  match Slots.slots wanted !! b with
  | None => raise (Fault Radio.OtherException)
  | Some content =>
      if bool_decide (Slots.slots before !! b = Some content)
      then commit_window write_guard a expected [];; mret (a, expected, before)
      else invalid
  end.

Definition backup_path (id : string) : string := ("preset-delete/" ++ id ++ "/before.xml")%string.

(** What a removal holds on to after its intent is durable. *)
Record removal := { r_access : access; r_device : string; r_button : Z; r_id : string; r_expected : string;
                    r_before : Slots.PresetObservation; r_anchor : string * string * string * string * Z }.

Definition check (r : removal) : M unit :=
  unchanged write_guard (r_access r);;
  current ← local_version (r_device r) [r_id r];
  (if negb (bool_decide (current = r_expected r)) then invalid else mret tt);;
  m ← refresh_mutation v (r_id r);
  (if negb (bool_decide (r_anchor r = anchor_of m)) then invalid else mret tt);;
  _intent m;;
  start ← _start m;
  if bool_decide (Slots.slots start = Slots.slots (r_before r)) then mret tt else invalid.

(** The backup and the state RADIO_WRITE become durable; the radio is looked at again. *)
Definition declare_removal (a : access) (device_id : string) (b : Z) (expected : string) (before : Slots.PresetObservation)
    (id : string) : M removal :=
  version ← local_version device_id [id];
  (if negb (bool_decide (version = expected)) then invalid else mret tt);;
  let ref := backup_path id in
  stage v (fun t => Ok (add_backup {| b_device := device_id; path := ref; content := Slots.raw before |} t));;
  transition id "RADIO_WRITE" (Some (Slots.raw before)) None (Some ref) None None true;;
  m ← attributes v id;
  let r := {| r_access := a; r_device := device_id; r_button := b; r_id := id; r_expected := expected;
              r_before := before; r_anchor := anchor_of m |} in
  now ← observe write_guard a;
  (if negb (bool_decide (Slots.slots now = Slots.slots before)) then invalid else mret tt);;
  check r;;
  mret r.

(** The readbacks: the last observation and the number of absences in a row. *)
Fixpoint await_absence (n : nat) (r : removal) (actual : Slots.PresetObservation) (stable : nat)
    : M (Slots.PresetObservation * nat) :=
  match n with
  | O => mret (actual, stable)
  | S n =>
      pause v 500;;
      check r;;
      actual ← observe write_guard (r_access r);
      (if negb (bool_decide (Slots.without actual (r_button r) = Slots.without (r_before r) (r_button r))) then invalid else mret tt);;
      let stable := if is_some (Slots.slots actual !! r_button r) then O else S stable in
      if (stable =? 2)%nat then mret (actual, stable) else await_absence n r actual stable
  end.

Record removed := { x_id : string; x_revision : Z; x_response_received : bool }.

Definition remove_element (b : Z) : string := Slots.preset_element b "".

(** The rows are changed in one transaction that found them as they were. *)
Definition commit_removal (r : removal) (actual : Slots.PresetObservation) : M unit :=
  commit_window write_guard (r_access r) (r_expected r) [r_id r];;
  check r;;
  _ ← local_preset (r_device r) (r_button r);
  transition (r_id r) "VERIFIED" None (Some (Slots.raw actual)) None None (Some false) false;;
  stage v (delete_preset (r_device r) (r_button r));;
  transition (r_id r) "LOCAL_COMMIT" None None None None None false;;
  record_action (action_of (r_id r) (r_device r) "preset_delete" "VERIFIED" true (backup_path (r_id r)) (requested_delete (r_button r)) "");;
  commit_db v.

(** From the request to the answer. *)
Definition carry_out (r : removal) : M removed :=
  received ← try_except (post v "/removePreset" (remove_element (r_button r));; mret true)
               (fun e => if caught e then mret false else raise e);
  check r;;
  transition (r_id r) "RADIO_READBACK" None None None None None true;;
  '(actual, stable) ← await_absence 12 r (r_before r) 0;
  (if negb (stable =? 2)%nat then invalid else mret tt);;
  check r;;
  commit_removal r actual;;
  m ← attributes v (r_id r);
  mret {| x_id := r_id r; x_revision := revision m; x_response_received := received |}.

Definition remove_body (device_id : string) (b : Z) (expected_revision : option Z) : ST (session W) trouble removed :=
  '(a, expected, before) ← at_ "" false (plan_removal device_id b expected_revision);
  m ← at_ "" false (prepare_preset_mutation device_id b "DELETE" (requested_delete b));
  r ← at_ (mutation_id m) false (declare_removal a device_id b expected before (mutation_id m));
  at_ (mutation_id m) true (carry_out r).

(** The record of a removal that was not confirmed. *)
Definition record_failure (identity id : string) (attempted : bool) : M unit :=
  row ← (if empty_str id then mret None
         else found ← read v (fun t => List.filter (is_mutation id) (mutations (tables t)));
              match found with
              | [] => mret None
              | [m] => put m;; mret (Some m)
              | _ => raise (Fault Radio.OtherException)
              end);
  (match row with
   | Some m => if is_closed m then mret tt
               else transition id (if attempted then "RECONCILE" else "FAILED") None None None
                      (Some "PRESET_DELETE_NOT_CONFIRMED") (Some attempted) true
   | None => mret tt
   end);;
  ref ← (match row with Some _ => m ← attributes v id; mret (backup_ref m) | None => mret "" end);
  record_transport_attempt (action_of id identity "preset_delete" (if attempted then "RECONCILE" else "BLOCKED") false ref JNull
                                      "PRESET_DELETE_NOT_CONFIRMED").

Definition not_confirmed (identity : string) (e : trouble) : M removed :=
  let '(e, id, attempted) := e in
  rollback_db;;
  try_except (record_failure identity id attempted) (fun x => if caught x then rollback_db else raise x);;
  if caught e then raise (PresetRecoveryError "PRESET_DELETE_NOT_CONFIRMED" attempted id) else raise e.

Definition remove_preset (b : Z) (expected_revision : option Z) : M removed :=
  d ← get_device v;
  let identity := Radio.device_id d in
  if negb ((1 <=? b) && (b <=? 6)) then raise (PresetRecoveryError "INVALID_PRESET_SLOT" false "")
  else try_except (device_transaction v (remove_body identity b expected_revision)) (not_confirmed identity).
End Services.

(** ** What a removal does *)
Section Facts.
Context (float_repr : Z -> list Z).
Context (parse_xml : string -> option element) (fromstring : string -> res fault element) (content_xml : string -> nat -> string).
Context {W : Type} (v : env W).
#[local] Abbreviation M := (ST (session W) exn).
#[local] Abbreviation version_of := (version_of float_repr).
#[local] Abbreviation parse := (Slots.parse parse_xml fromstring content_xml).

Lemma guard_aside : steps_in (aside hushed) (write_guard v).
Proof. apply asides_ask. Qed.
Lemma protection_aside : steps_in (aside hushed) (require_unprotected v : M unit).
Proof. apply asides_require_unprotected. Qed.

Lemma calms_single {A} (l : list A) : steps_in calmly (single l : M A).
Proof. destruct l as [|x []]; [apply steps_in_raise|apply steps_in_ret|apply steps_in_raise]; apply _. Qed.
Lemma calms_intent m : steps_in calmly (_intent float_repr v m).
Proof. unfold _intent. steps. Qed.
Lemma calms_start m : steps_in calmly (_start parse_xml fromstring content_xml v m).
Proof.
  unfold _start. apply steps_in_bind; [apply _|apply calms_read|intros records]. destruct records as [|b []]; try (apply steps_in_raise, _).
  case_bool_decide; [apply calms_asides, asides_lift|apply steps_in_raise, _].
Qed.
Lemma calms_local_preset who b : steps_in calmly (local_preset v who b).
Proof. apply steps_in_bind; [apply _|apply calms_read|intros rows; apply calms_single]. Qed.

Lemma milds_observe a : steps_in mildly (observe parse_xml fromstring content_xml v (write_guard v) a).
Proof. apply milds_asides, asides_observe, guard_aside. Qed.
Lemma milds_window a expected exclude : steps_in mildly (commit_window float_repr v (write_guard v) a expected exclude).
Proof. apply milds_commit_window, guard_aside. Qed.

Lemma calms_check r : steps_in calmly (check float_repr parse_xml fromstring content_xml v r).
Proof.
  pose proof calms_intent. pose proof calms_start.
  assert (steps_in calmly (unchanged v (write_guard v) (r_access r))) as Hu by (apply calms_asides, asides_unchanged, guard_aside).
  pose proof (calms_local_version float_repr v (E := exn) (r_device r) [r_id r]). unfold check. steps.
Qed.

Lemma milds_plan who b rev : steps_in mildly (plan_removal float_repr parse_xml fromstring content_xml v who b rev).
Proof.
  assert (steps_in mildly (open_access parse_xml fromstring v (write_guard v) true)) as Ho.
  { apply milds_calms, calms_asides, asides_open_access, guard_aside. }
  pose proof (calms_local_state float_repr v (E := exn)). pose proof (calms_latest v (E := exn)). pose proof calms_local_preset. pose proof milds_observe.
  pose proof milds_window. unfold plan_removal.
  steps.
Qed.
Lemma milds_declare a who b expected before id :
  steps_in mildly (declare_removal float_repr parse_xml fromstring content_xml v a who b expected before id).
Proof.
  pose proof (milds_add_backup v (E := exn)). pose proof calms_check. pose proof milds_observe.
  pose proof (calms_local_version float_repr v (E := exn)). unfold declare_removal. steps.
Qed.
Lemma milds_await n r actual stable : steps_in mildly (await_absence float_repr parse_xml fromstring content_xml v n r actual stable).
Proof.
  pose proof calms_check. pose proof milds_observe. revert actual stable.
  induction n as [|n IH]; intros actual stable; cbn [await_absence]; steps.
Qed.
Lemma milds_record_failure who id attempted : steps_in mildly (record_failure v who id attempted).
Proof. unfold record_failure. steps. Qed.
End Facts.

(** *** The check, under the reservation *)
Section Carried.
Context (float_repr : Z -> list Z).
Context (parse_xml : string -> option element) (fromstring : string -> res fault element) (content_xml : string -> nat -> string).
Context {W : Type} (v : env W).
#[local] Abbreviation M := (ST (session W) exn).
#[local] Abbreviation version_of := (version_of float_repr).
#[local] Abbreviation parse := (Slots.parse parse_xml fromstring content_xml).
#[local] Abbreviation check := (check float_repr parse_xml fromstring content_xml v).

(** The original of the mutation is the one that was declared, and the local rows are those
    of the plan. *)
Definition anchored (r : removal) (t : store) (m : PresetMutation) : Prop :=
  find_mutation (r_id r) t = Some m /\ anchor_of m = r_anchor r /\ version_of (r_device r) [r_id r] t = r_expected r.

Lemma told_intent old m t s : view s = Some (old, t) ->
  told log (_intent float_repr v m) s (fun l o s' => l = [] /\ view s' = Some (old, t) /\ loaded s' = loaded s
    /\ match o with
       | Ok kvs => original_preset_intent float_repr (tables t) m = Some (JObj kvs)
       | Err e => failed_statement v e \/ forall kvs, original_preset_intent float_repr (tables t) m <> Some (JObj kvs)
       end).
Proof.
  intros V. eapply told_bind; [by eapply told_read_rows|naive_solver|]. intros x l s1 (-> & V1 & L1 & ->).
  destruct (original_preset_intent _ _ _) as [[]|] eqn:Ho; first [by apply told_ret|by apply told_raise; split_and!; auto; right].
Qed.
(** The observation a mutation began with, from its backup. *)
Definition start_of (t : store) (row : PresetMutation) : res fault Slots.PresetObservation :=
  match List.filter (fun b => bool_decide (b_device b = device_id row) && bool_decide (path b = backup_ref row)) (backups (tables t)) with
  | [b] => if bool_decide (sha256_hex (content b) = before_radio_sha256 row) then parse (content b) (device_id row) else Err Radio.ValueError
  | _ => Err Radio.ValueError
  end.

Lemma told_start old m t s : view s = Some (old, t) ->
  told log (_start parse_xml fromstring content_xml v m) s (fun l o s' => l = [] /\ view s' = Some (old, t) /\ loaded s' = loaded s
    /\ match o with Ok x => start_of t m = Ok x | Err e => failed_statement v e \/ forall x, start_of t m <> Ok x end).
Proof.
  intros V. eapply told_bind; [by eapply told_read_rows|naive_solver|]. intros x l s1 (-> & V1 & L1 & ->). unfold start_of.
  destruct (List.filter _ _) as [|b []]; try (apply told_raise; split_and!; [done..|by right]).
  case_bool_decide; [|apply told_raise; split_and!; [done..|by right]]. exists [].
  rewrite app_nil_r. destruct (Slots.parse _ _ _ _ _); split_and!; try done. by right.
Qed.

Lemma told_check r old t s : view s = Some (old, t) ->
  told log (check r) s (fun l o s' => forallb hushed l = true /\ view s' = Some (old, t)
    /\ match o with Ok _ => exists m, anchored r t m /\ known (r_id r) s' = Some m | Err _ => True end).
Proof.
  intros V. unfold Removal.check.
  eapply told_bind; [apply (told_asides hushed), asides_unchanged, guard_aside|intros e l s' (K & [= _ -> _ _]); by rewrite V|].
  intros [] l1 s1 (K1 & [= _ V1 _ _]). rewrite V in V1.
  eapply told_bind; [by apply told_local_version|intros e l s' (K & ? & _); by rewrite forallb_app, K1, K|]. intros version l2 s2 (K2 & V2 & -> & _).
  assert (forallb hushed (l1 ++ l2) = true) as K12 by (by rewrite forallb_app, K1).
  eapply told_bind; [apply told_unless|intros e l s' (-> & -> & _); by rewrite app_nil_r|].
  intros [] l0 s0 (-> & -> & Hv%negb_false_iff%bool_decide_eq_true). cbn [app].
  eapply told_bind; [by apply told_refresh|intros e l s' (-> & ? & _); by rewrite !app_nil_r|]. intros m l3 s3 (-> & V3 & Hf & Hk).
  destruct (decide (r_anchor r = anchor_of m)) as [Ha|Ha]; [|exists []; rewrite !app_nil_r, bool_decide_false by done; done].
  rewrite bool_decide_true by done. cbn [negb]. eapply told_bind_now; [reflexivity|].
  eapply told_bind; [by apply told_intent|intros e l s' (-> & ? & _); by rewrite !app_nil_r|]. intros kvs l4 s4 (-> & V4 & L4 & _).
  eapply told_bind; [by apply told_start|intros e l s' (-> & ? & _); by rewrite !app_nil_r|]. intros start l5 s5 (-> & V5 & L5 & _).
  case_bool_decide; [apply told_ret|apply told_raise; by rewrite !app_nil_r]. rewrite !app_nil_r. split_and!; [done|done|].
  exists m. split; [by split_and!|]. unfold known in *. by rewrite L5, L4.
Qed.

(** *** The transaction that removes the row *)
Definition without_slot (who : string) (b : Z) (l : list Preset) : list Preset :=
  List.filter (fun p => negb (is_slot who b p)) l.

(** [new] is [old], whose rows are those of the plan, less the row of the slot, with the
    mutation closed. *)
Definition closes (r : removal) (actual : Slots.PresetObservation) (old new : store) : Prop :=
  version_of (identity (r_access r)) [r_id r] old = r_expected r
  /\ version_of (r_device r) [r_id r] old = r_expected r
  /\ (exists p, List.filter (is_slot (r_device r) (r_button r)) (presets (tables old)) = [p])
  /\ presets (tables new) = without_slot (r_device r) (r_button r) (presets (tables old))
  /\ backups (tables new) = backups (tables old)
  /\ exists m m', find_mutation (r_id r) old = Some m /\ anchor_of m = r_anchor r
       /\ find_mutation (r_id r) new = Some m' /\ same_intent m m' /\ state m' = "LOCAL_COMMIT"
       /\ after_radio_sha256 m' = sha256_hex (Slots.raw actual) /\ diverged m' = false.

Lemma delete_preset_find who b id t t' : delete_preset who b t = Ok t' -> find_mutation id t' = find_mutation id t.
Proof. by intros [= <-]. Qed.

Lemma commits_removal r actual m m1 m2 t t1 t2 t3 a :
  anchored r t m -> version_of (identity (r_access r)) [r_id r] t = r_expected r ->
  (exists p, List.filter (is_slot (r_device r) (r_button r)) (presets (tables t)) = [p]) ->
  Mutation.transition_preset_mutation m "VERIFIED" None (Some (Slots.raw actual)) None None (Some false) = Ok m1 ->
  update_mutation m m1 t = Ok t1 -> delete_preset (r_device r) (r_button r) t1 = Ok t2 ->
  Mutation.transition_preset_mutation m1 "LOCAL_COMMIT" None None None None None = Ok m2 ->
  update_mutation m1 m2 t2 = Ok t3 -> closes r actual t (add_action a t3).
Proof.
  intros (Hf & Ha & Hv) Hv' Hp H1 U1 [= <-] H2 U2.
  destruct (transition_intent _ _ _ _ _ _ _ _ H1) as [I1 _]. destruct (transition_intent _ _ _ _ _ _ _ _ H2) as [I2 S2].
  pose proof (find_mutation_id _ _ _ Hf) as Hid. rewrite <- Hid in Hf.
  pose proof (update_mutation_find _ _ _ _ U1 Hf I1) as F1. destruct I1 as [E1 I1'] eqn:EI. clear EI.
  rewrite <- E1 in F1. assert (find_mutation (mutation_id m1) (with_presets (List.filter (fun p => negb (is_slot (r_device r) (r_button r) p))
    (presets (tables t1))) t1) = Some m1) as F1' by exact F1.
  pose proof (update_mutation_find _ _ _ _ U2 F1' I2) as F2. rewrite E1 in F2.
  split; [done|]. split; [done|]. split; [done|].
  split; [by cbn; rewrite (update_mutation_presets _ _ _ _ U2); cbn; rewrite (update_mutation_presets _ _ _ _ U1)|].
  split; [by cbn; rewrite (update_mutation_backups _ _ _ _ U2); cbn; rewrite (update_mutation_backups _ _ _ _ U1)|].
  exists m, m2. rewrite <- Hid. split; [done|]. split; [done|]. split; [exact F2|].
  split; [eapply same_intent_trans; [|exact I2]; by split|]. split; [exact S2|].
  unfold Mutation.transition_preset_mutation in H1, H2. destruct (_ && _); [done|]. injection H1 as <-.
  destruct (_ && _); [done|]. by injection H2 as <-.
Qed.

Lemma told_local_preset who b old t s : view s = Some (old, t) ->
  told log (local_preset v who b) s (fun l o s' => l = [] /\ view s' = Some (old, t) /\ loaded s' = loaded s
    /\ match o with Ok p => List.filter (is_slot who b) (presets (tables t)) = [p] | Err _ => True end).
Proof.
  intros V. eapply told_bind; [by eapply told_read_rows|naive_solver|]. intros rows l s' (-> & V' & L & ->). unfold single.
  destruct (List.filter _ _) as [|p []]; [by apply told_raise|by apply told_ret|by apply told_raise].
Qed.

(** Nothing is committed, or what the claim of the removal describes. *)
Definition at_most_closed (r : removal) (actual : Slots.PresetObservation) (l : list event) (failed : bool) : Prop :=
  (forallb hushed l = true /\ failed = true)
  \/ exists l0 old new, l = l0 ++ [Committed old new] /\ forallb hushed l0 = true /\ closes r actual old new.

Lemma told_commit_removal r actual s :
  told log (commit_removal float_repr parse_xml fromstring content_xml v r actual) s
    (fun l o _ => at_most_closed r actual l (negb (is_ok o))).
Proof.
  assert (forall l, forallb hushed l = true -> at_most_closed r actual l true) as Hq by (by left).
  unfold commit_removal.
  eapply told_bind; [apply told_commit_window, guard_aside|intros e l s' (K & _); auto|]. intros [] l1 s1 (K1 & t & V1 & Hv & _).
  eapply told_bind; [by apply told_check|intros e l s' (K & _); apply Hq; by rewrite forallb_app, K1, K|].
  intros [] l2 s2 (K2 & V2 & m & Ha & Hk).
  eapply told_bind; [by eapply told_local_preset| |].
  { intros e l s' (-> & _). apply Hq. by rewrite !forallb_app, K1, K2. }
  intros p l3 s3 (-> & V3 & L3 & Hp). destruct Ha as (Hf & Ha & Hv'). pose proof (find_mutation_id _ _ _ Hf) as Hid.
  eapply told_bind; [eapply (told_transition v t); [exact V3|unfold known in *; by rewrite L3|done]|..].
  { intros e l s' [-> |([=] & _)]. apply Hq. by rewrite !forallb_app, K1, K2. }
  intros [] l4 s4 (m1 & t1 & T1 & U1 & -> & V4 & Hk4 & _).
  eapply told_bind; [by apply told_stage|intros e l s' (-> & _); apply Hq; by rewrite !forallb_app, K1, K2|].
  intros [] l5 s5 (-> & t2 & D2 & V5 & L5).
  destruct (transition_intent _ _ _ _ _ _ _ _ T1) as [(I1 & _) _].
  eapply told_bind; [eapply (told_transition v t); [exact V5|unfold known in *; by rewrite L5|congruence]|..].
  { intros e l s' [-> |([=] & _)]. apply Hq. by rewrite !forallb_app, K1, K2. }
  intros [] l6 s6 (m2 & t3 & T2 & U2 & -> & V6 & Hk6 & _).
  eapply told_bind; [by eapply told_record| |].
  { intros e l s' (-> & _). apply Hq. by rewrite !forallb_app, K1, K2. }
  intros [] l7 s7 (-> & V7). eapply told_weaken; [by eapply told_commit_rows|]. intros l o s' (_ & _ & Hl). cbn [app].
  assert (closes r actual t (add_action (action_of (r_id r) (r_device r) "preset_delete" "VERIFIED" true (backup_path (r_id r))
    (requested_delete (r_button r)) "") t3)) as Hc by (eapply (commits_removal r actual m m1 m2 t t1 t2 t3); eauto; by split_and!).
  assert (forallb hushed (l1 ++ l2) = true) as K12 by (by rewrite forallb_app, K1, K2).
  destruct o as [[]|e].
  - right. eexists (l1 ++ l2), t, _. subst l. by rewrite <- app_assoc.
  - destruct Hl as [-> | ->]; [left; by rewrite app_nil_r|right]. eexists (l1 ++ l2), t, _. by rewrite <- app_assoc.
Qed.
End Carried.

(** *** From the request to the answer *)
Section Answered.
Context (float_repr : Z -> list Z).
Context (parse_xml : string -> option element) (fromstring : string -> res fault element) (content_xml : string -> nat -> string).
Context {W : Type} (v : env W).
#[local] Abbreviation M := (ST (session W) exn).
#[local] Abbreviation parse := (Slots.parse parse_xml fromstring content_xml).

(** A document without the slot, the others as they were. *)
Definition absent (r : removal) (xml : string) (o : Slots.PresetObservation) : Prop :=
  parse xml (identity (r_access r)) = Ok o /\ Slots.slots o !! r_button r = None
  /\ Slots.without o (r_button r) = Slots.without (r_before r) (r_button r).
(** The last two documents of a stretch were such. *)
Definition gone_twice (r : removal) (actual : Slots.PresetObservation) (l : list event) : Prop :=
  exists xs x1 x2 o, presets_seen l = xs ++ [x1; x2] /\ absent r x1 o /\ absent r x2 actual.

(** The last [n] documents. *)
Definition gone (r : removal) (n : nat) (seen : list string) : Prop :=
  exists xs ys, seen = xs ++ ys /\ length ys = n /\ Forall (fun x => exists o, absent r x o) ys.

Lemma told_await n r actual stable s seen : (stable <= 1)%nat -> gone r stable seen ->
  told log (await_absence float_repr parse_xml fromstring content_xml v n r actual stable) s (fun l o _ =>
    match o with
    | Ok (actual, k) => k = 2%nat -> exists xs x1 x2 o1, seen ++ presets_seen l = xs ++ [x1; x2] /\ absent r x1 o1 /\ absent r x2 actual
    | Err _ => True end).
Proof.
  revert actual stable s seen. induction n as [|n IH]; intros actual stable s seen Hs Hg; cbn [await_absence].
  { apply told_ret. lia. }
  eapply told_bind; [apply told_pause|done|]. intros [] l1 s1 [_ K1%(f_equal presets_seen)].
  eapply told_bind; [apply told_calms, calms_check|done|]. intros [] l2 s2 [K2%hushed_seen _].
  eapply told_bind; [apply told_observation, guard_aside|done|]. intros o l3 s3 (_ & xml & K3 & Ho).
  destruct (decide (Slots.without o (r_button r) = Slots.without (r_before r) (r_button r))) as [Hw|Hw].
  2: { rewrite bool_decide_false by done. by apply told_raise. }
  rewrite bool_decide_true by done. eapply told_bind_now; [reflexivity|].
  assert (presets_seen (l1 ++ l2 ++ l3) = [xml]) as Hseen by (by rewrite !presets_seen_app, K1, K2, K3).
  destruct (Slots.slots o !! r_button r) as [c|] eqn:Hb; cbn [is_some Nat.eqb].
  - eapply told_weaken; [apply (IH o 0%nat s3 (seen ++ [xml])); [lia|by exists (seen ++ [xml]), []; rewrite app_nil_r]|].
    intros l [[a k]|e] s'; [|done]. intros H Hk. rewrite !app_assoc, <- (app_assoc l1), presets_seen_app, Hseen, app_assoc. auto.
  - assert (absent r xml o) as Ha by done. destruct stable as [|[|]]; [| |lia]; cbn [Nat.eqb].
    + eapply told_weaken; [apply (IH o 1%nat s3 (seen ++ [xml])); [lia|exists seen, [xml]; split; [done|]; split; [done|]; repeat constructor; by exists o]|].
      intros l [[a k]|e] s'; [|done]. intros H Hk. rewrite !app_assoc, <- (app_assoc l1), presets_seen_app, Hseen, app_assoc. auto.
    + apply told_ret. intros _. rewrite !app_nil_r, Hseen. destruct Hg as (xs & [|y []] & -> & Hl & Hf); try done.
      apply Forall_cons_1 in Hf as [(o1 & H1) _]. exists xs, y, xml, o1. by rewrite <- app_assoc.
Qed.

Lemma told_post_remove r s :
  told log (try_except (post v "/removePreset" (remove_element (r_button r));; mret true)
              (fun e => if caught e then mret false else raise e) : M bool) s
    (fun l _ s' => (exists answer, l = [Posted "/removePreset" (remove_element (r_button r)) answer]) /\ view s' = view s).
Proof.
  unfold told, try_except, post, call, mbind, st_bind. destruct (post_xml v _ _ (world s)) as [[x|x] w]; cbn.
  - eexists [_]. split; [done|]. split; [by eexists|done].
  - unfold caught. destruct (Radio.is_exception x); cbn; eexists [_]; (split; [done|]); (split; [by eexists|done]).
Qed.

(** After the request: no row of a preset changes but as the claim says. *)
Definition ended (r : removal) (l : list event) (failed : bool) : Prop :=
  (forallb mild l = true /\ failed = true)
  \/ exists l3 actual old new l4, l = l3 ++ Committed old new :: l4 /\ forallb mild l3 = true /\ forallb mild l4 = true
       /\ gone_twice r actual l3 /\ closes float_repr r actual old new.

Lemma ended_before r l l' failed : forallb mild l = true -> ended r l' failed -> ended r (l ++ l') failed.
Proof.
  intros K [[K' F]|(l3 & actual & old & new & l4 & -> & K3 & K4 & (xs & x1 & x2 & o & Hs & H1 & H2) & Hc)].
  - left. by rewrite forallb_app, K, K'.
  - right. exists (l ++ l3), actual, old, new, l4. rewrite <- app_assoc, forallb_app, K, K3. split_and!; [done..| |done].
    exists (presets_seen l ++ xs), x1, x2, o. by rewrite presets_seen_app, Hs, app_assoc.
Qed.

(** A stretch that only reads ends the removal without success, or goes on. *)
Lemma told_going r {A B} (m : M A) (f : A -> M B) s :
  steps_in mildly m -> tidy s ->
  (forall a s1, tidy s1 -> told log (f a) s1 (fun l o _ => ended r l (negb (is_ok o)))) ->
  told log (m ≫= f) s (fun l o _ => ended r l (negb (is_ok o))).
Proof.
  intros Hm T Hf. eapply told_bind; [by apply told_milds|intros e l s' [K _]; by left|].
  intros a l s1 [K T1]. eapply told_weaken; [by apply Hf|]. intros l' o s' H. by apply ended_before.
Qed.

Lemma gone_twice_hushed r actual l l' : gone_twice r actual l -> forallb hushed l' = true -> gone_twice r actual (l ++ l').
Proof.
  intros (xs & x1 & x2 & o & Hs & H) K. exists xs, x1, x2, o. by rewrite presets_seen_app, Hs, (hushed_seen _ K), app_nil_r.
Qed.

Lemma ended_closed r actual l l' failed :
  forallb mild l = true -> gone_twice r actual l -> at_most_closed float_repr r actual l' failed -> ended r (l ++ l') failed.
Proof.
  intros K Hg [[K' F]|(l0 & old & new & -> & K' & Hc)].
  - left. by rewrite forallb_app, K, (quiet_mild _ (hushed_quiet _ K')).
  - right. exists (l ++ l0), actual, old, new, []. rewrite <- app_assoc, forallb_app, K, (quiet_mild _ (hushed_quiet _ K')).
    split_and!; [done..| |done]. by apply gone_twice_hushed.
Qed.

Lemma ended_after r l l' failed :
  ended r l false -> forallb mild l' = true -> ended r (l ++ l') failed.
Proof.
  intros [[_ [=]]|(l3 & actual & old & new & l4 & -> & K3 & K4 & Hg & Hc)] K. right.
  exists l3, actual, old, new, (l4 ++ l'). rewrite <- app_assoc, forallb_app, K4, K. by split_and!.
Qed.

Lemma told_carry_out r s : tidy s ->
  told log (carry_out float_repr parse_xml fromstring content_xml v r) s (fun l o _ =>
    exists answer l2, l = Posted "/removePreset" (remove_element (r_button r)) answer :: l2 /\ ended r l2 (negb (is_ok o))).
Proof.
  intros T. unfold carry_out.
  eapply told_bind; [apply told_post_remove|intros e l s' [(answer & ->) _]; exists answer, []; split; [done|by left]|].
  intros received l1 s1 [(answer & ->) V1]. eapply told_weaken.
  2: { intros l o s' H. exists answer, l. split; [done|]. exact H. }
  apply told_going; [apply milds_calms, calms_check|by unfold tidy in *; rewrite V1|]. intros [] s2 T2.
  apply told_going; [apply milds_transition|done|]. intros [] s3 T3.
  eapply told_bind.
  { apply told_both; [apply (told_milds _ s3 (milds_await _ _ _ _ _ _ _ _ _) T3)|].
    apply (told_await 12 r (r_before r) 0 s3 []); [lia|by exists [], []]. }
  { intros e l s' [[K _] _]. by left. }
  intros [actual k] l4 s4 [[K4 T4] Hg].
  destruct (decide (k = 2%nat)) as [->|Hk].
  2: { apply Nat.eqb_neq in Hk. rewrite Hk. exists []. rewrite !app_nil_r. split; [done|]. by left. }
  specialize (Hg eq_refl). cbn [Nat.eqb negb]. eapply told_bind_now; [reflexivity|].
  eapply told_bind; [apply told_both; [apply (told_milds _ s4 (milds_calms _ (calms_check _ _ _ _ _ _)) T4)|apply told_calms, calms_check]|..].
  { intros e l s' [[K _] _]. left. by rewrite forallb_app, K4, K. }
  intros [] l5 s5 [[K5 T5] [Q5 _]].
  assert (forallb mild (l4 ++ l5) = true) as K45 by (by rewrite forallb_app, K4, K5).
  assert (gone_twice r actual (l4 ++ l5)) as Hg' by (apply gone_twice_hushed; [exact Hg|exact Q5]).
  eapply told_bind; [apply told_commit_removal|..].
  { intros e l s' H. rewrite app_assoc. by eapply ended_closed. }
  intros [] l6 s6 H6. apply (ended_closed r actual (l4 ++ l5)) in H6; [|done|done].
  eapply told_bind; [apply told_calms, calms_attributes|..].
  { intros e l s' [K _]. rewrite !app_assoc. eapply ended_after; [exact H6|by apply quiet_mild, hushed_quiet]. }
  intros m l7 s7 [K7 _]. apply told_ret. rewrite app_nil_r, !app_assoc.
  eapply ended_after; [exact H6|by apply quiet_mild, hushed_quiet].
Qed.
End Answered.

(** *** Before the request *)
Section Declared.
Context (float_repr : Z -> list Z).
Context (parse_xml : string -> option element) (fromstring : string -> res fault element) (content_xml : string -> nat -> string).
Context {W : Type} (v : env W).
#[local] Abbreviation M := (ST (session W) exn).
#[local] Abbreviation version_of := (version_of float_repr).
#[local] Abbreviation parse := (Slots.parse parse_xml fromstring content_xml).

Lemma told_plan who b rev s :
  told log (plan_removal float_repr parse_xml fromstring content_xml v who b rev) s (fun l o s' =>
    match o with
    | Ok (a, expected, before) => exists t xml, view s' = Some (t, t) /\ version_of (identity a) [] t = expected
        /\ presets_seen l = [xml] /\ parse xml (identity a) = Ok before
    | Err _ => True end).
Proof.
  unfold plan_removal.
  eapply told_bind; [apply (told_asides hushed), asides_open_access, guard_aside|done|]. intros a l1 s1 [K1%hushed_seen _].
  eapply told_bind; [apply told_calms, calms_latest|done|]. intros latest l2 s2 [K2%hushed_seen _].
  eapply told_bind; [apply told_unless|done|]. intros [] l0 s0 (-> & -> & _).
  eapply told_bind; [apply told_unless|done|]. intros [] l0 s0 (-> & -> & _).
  eapply told_bind; [apply told_calms, calms_local_preset|done|]. intros local l3 s3 [K3%hushed_seen _].
  eapply told_bind; [apply told_calms, calms_local_state|done|]. intros [stored expected] l4 s4 [K4%hushed_seen _].
  eapply told_bind; [apply told_observation, guard_aside|done|]. intros before l5 s5 (_ & xml & K5 & Hb).
  eapply told_bind; [apply told_lift_result|done|]. intros wanted l6 s6 [-> _].
  destruct (Slots.slots wanted !! b) as [content|]; [|by apply told_raise]. case_bool_decide; [|by apply told_raise].
  eapply told_bind; [apply told_commit_window, guard_aside|done|]. intros [] l7 s7 (K7%hushed_seen & t & V & Hv & _).
  apply told_ret. exists t, xml. split_and!; [done..| |done]. rewrite !presets_seen_app, K1, K2, K3, K4, K5, K7. done.
Qed.

End Declared.

(** *** The whole removal *)
Section Removals.
Context (float_repr : Z -> list Z).
Context (parse_xml : string -> option element) (fromstring : string -> res fault element) (content_xml : string -> nat -> string).
Context {W : Type} (v : env W).
#[local] Abbreviation M := (ST (session W) exn).
#[local] Abbreviation version_of := (version_of float_repr).
#[local] Abbreviation parse := (Slots.parse parse_xml fromstring content_xml).

(** The backup of what was seen and the mutation that names it are durable, and the radio
    still shows the same presets. *)
Definition announced (r : removal) (l : list event) : Prop :=
  exists l1 old new l2 xml o, l = l1 ++ Committed old new :: l2
    /\ {| b_device := r_device r; path := backup_path (r_id r); content := Slots.raw (r_before r) |} ∈ backups (tables new)
    /\ (exists m, m ∈ mutations (tables new) /\ mutation_id m = r_id r)
    /\ presets_seen l2 = [xml] /\ parse xml (identity (r_access r)) = Ok o /\ Slots.slots o = Slots.slots (r_before r).

Lemma told_declare a who b expected before id s : view s = None ->
  told log (declare_removal float_repr parse_xml fromstring content_xml v a who b expected before id) s (fun l o _ =>
    match o with
    | Ok r => r_access r = a /\ r_device r = who /\ r_button r = b /\ r_id r = id /\ r_expected r = expected /\ r_before r = before
        /\ announced r l
    | Err _ => True end).
Proof.
  intros V. unfold declare_removal.
  eapply told_bind; [apply told_calms, calms_local_version|done|]. intros version l1 s1 (_ & _ & V1). specialize (V1 V).
  eapply told_bind; [apply told_unless|done|]. intros [] l2 s2 (-> & -> & _).
  eapply told_bind; [by apply told_stage_free|done|]. intros [] l3 s3 (-> & t & t' & [= <-] & V3).
  eapply told_bind; [by eapply told_transition_any|done|]. intros [] l4 s4 (m & m' & t1 & Hid & _ & Hu & -> & V4).
  eapply told_bind; [apply told_calms, calms_attributes|done|]. intros m1 l5 s5 (K5%hushed_seen & _ & _).
  eapply told_bind; [apply told_observation, guard_aside|done|]. intros now l6 s6 (_ & xml & K6 & Hn).
  eapply told_bind; [apply told_unless|done|]. intros [] l7 s7 (-> & -> & Hs). apply negb_false_iff, bool_decide_eq_true in Hs.
  eapply told_bind; [apply told_calms, calms_check|done|]. intros [] l8 s8 (K8%hushed_seen & _ & _).
  apply told_ret. split_and!; try done. exists l1. eexists _, t1, (l5 ++ l6 ++ l8), xml, now. cbn [app]. rewrite app_nil_r.
  split; [done|]. split_and!; try done.
  - cbn. rewrite (update_mutation_backups _ _ _ _ Hu). apply elem_of_app. right. left.
  - destruct (update_mutation_in _ _ _ _ Hu) as (x & Hx & Hi). exists x. split; [done|]. cbn. congruence.
  - by rewrite !presets_seen_app, K5, K6, K8.
Qed.

(** Before the request of a removal: the radio was read, the original intent became durable
    in a transaction that found the local rows of the plan, then the backup. *)
Definition declared (r : removal) (l : list event) : Prop :=
  exists l1 old new l2, l = l1 ++ Committed old new :: l2
    /\ (exists xml, xml ∈ presets_seen l1 /\ parse xml (identity (r_access r)) = Ok (r_before r))
    /\ version_of (identity (r_access r)) [] old = r_expected r
    /\ recorded float_repr (r_device r) (r_button r) "DELETE" (requested_delete (r_button r)) (r_id r) old new
    /\ announced r l2.

(** What one removal tells. *)
Definition careful (b : Z) (l : list event) (failed : bool) : Prop :=
  (forallb mild l = true /\ failed = true)
  \/ exists r l1 answer l2, l = l1 ++ Posted "/removePreset" (remove_element b) answer :: l2
       /\ r_button r = b /\ forallb mild l1 = true /\ declared r l1
       /\ ended float_repr parse_xml fromstring content_xml r l2 failed.

Lemma told_at {A B} id attempted (m : M A) (f : A -> ST (session W) trouble B) s
    (Q : list event -> res exn A -> session W -> Prop) (P : list event -> res trouble B -> session W -> Prop) :
  told log m s Q -> (forall e l s1, Q l (Err e) s1 -> P l (Err (e, id, attempted)) s1) ->
  (forall a l1 s1, Q l1 (Ok a) s1 -> told log (f a) s1 (fun l2 r s2 => P (l1 ++ l2) r s2)) ->
  told log (at_ id attempted m ≫= f) s P.
Proof.
  intros Hm He Hf.
  apply (told_bind log _ _ s (fun l r s' => match r with Ok a => Q l (Ok a) s' | Err x => exists e, x = (e, id, attempted) /\ Q l (Err e) s' end)).
  - eapply told_try; [exact Hm|done|]. intros e l s' Hq. apply told_raise. rewrite app_nil_r. by exists e.
  - intros x l s' (e & -> & Hq). by apply He.
  - exact Hf.
Qed.

Lemma told_at_last {A} id attempted (m : M A) s (P : list event -> res trouble A -> session W -> Prop) :
  told log m s (fun l r s' => match r with Ok a => P l (Ok a) s' | Err e => P l (Err (e, id, attempted)) s' end) ->
  told log (at_ id attempted m) s P.
Proof. intros H. eapply told_try; [exact H|done|]. intros e l s' Hq. apply told_raise. by rewrite app_nil_r. Qed.

Lemma told_remove_body who b rev s : tidy s ->
  told log (remove_body float_repr parse_xml fromstring content_xml v who b rev) s (fun l o _ => careful b l (negb (is_ok o))).
Proof.
  intros T. unfold remove_body.
  eapply told_at; [apply told_both; [apply (told_milds _ s (milds_plan _ _ _ _ _ who b rev) T)|apply told_plan]|..].
  { intros e l s' [[K _] _]. by left. }
  intros [[a expected] before] l1 s1 [[K1 T1] (t & xml & V1 & Hv & Hx & Hb)].
  eapply told_at; [apply told_both; [apply (told_milds _ s1 (milds_prepare _ _ _ _ _ _) T1)|by apply told_prepared]|..].
  { intros e l s' [[K _] _]. left. by rewrite forallb_app, K1, K. }
  intros m l2 s2 [[K2 T2] (new & -> & Hr & V2)].
  eapply told_at; [apply told_both; [apply (told_milds _ s2 (milds_declare _ _ _ _ _ _ _ _ _ _ _) T2)|by apply told_declare]|..].
  { intros e l s' [[K _] _]. left. by rewrite !forallb_app, K1, K2, K. }
  intros r l3 s3 [[K3 T3] (E1 & E2 & E3 & E4 & E5 & E6 & Ha)]. apply told_at_last.
  eapply told_weaken; [by apply told_carry_out|]. intros l o s' (answer & l4 & -> & He).
  assert (careful b (l1 ++ [Committed t new] ++ l3 ++ Posted "/removePreset" (remove_element (r_button r)) answer :: l4) (negb (is_ok o))) as Hc.
  { right. exists r, (l1 ++ Committed t new :: l3), answer, l4. rewrite E3. split; [by rewrite <- app_assoc|]. split; [done|].
    split; [change (l1 ++ Committed t new :: l3) with (l1 ++ [Committed t new] ++ l3); by rewrite !forallb_app, K1, K2, K3|].
    split; [|done]. exists l1, t, new, l3. split; [done|]. rewrite E1, E2, E3, E4, E5, E6. split_and!; try done.
    exists xml. rewrite Hx. split; [left|done]. }
  by destruct o.
Qed.

Lemma careful_around b l0 l l' failed failed' : forallb mild l0 = true -> forallb mild l' = true ->
  (failed = true -> failed' = true) -> careful b l failed -> careful b (l0 ++ l ++ l') failed'.
Proof.
  intros K0 K' Hf [[K F]|(r & l1 & answer & l2 & -> & Hb & K1 & (p1 & old & new & p2 & -> & (xml & Hx & Hp) & Hv & Hr & Ha) & He)].
  { left. rewrite !forallb_app, K0, K, K'. auto. }
  right. exists r, (l0 ++ p1 ++ Committed old new :: p2), answer, (l2 ++ l'). split; [by rewrite <- !app_assoc|]. split; [done|].
  split; [by rewrite forallb_app, K0|]. split.
  { exists (l0 ++ p1), old, new, p2. split; [by rewrite <- app_assoc|]. split; [|done]. exists xml. split; [|done].
    rewrite presets_seen_app. apply elem_of_app. by right. }
  destruct He as [[K F]|(l3 & actual & o & n & l4 & -> & K3 & K4 & Hg)].
  - left. rewrite forallb_app, K, K'. auto.
  - right. exists l3, actual, o, n, (l4 ++ l'). split; [by rewrite <- app_assoc|]. rewrite forallb_app, K4, K'. exact (conj K3 (conj eq_refl Hg)).
Qed.

(** The handler changes no row of a preset and never returns. *)
Lemma told_not_confirmed who x s :
  told log (not_confirmed v who x) s (fun l o _ => forallb mild l = true /\ negb (is_ok o) = true).
Proof.
  destruct x as [[e id] attempted]. unfold not_confirmed. eapply told_bind.
  { instantiate (1 := fun l _ s' => l = [] /\ tidy s'). exists []. by rewrite app_nil_r. }
  { by intros x l s' [-> _]. }
  intros [] l1 s1 [-> T]. eapply told_bind; [apply told_milds; [|exact T]|by intros x l s' [K _]|].
  { pose proof (milds_record_failure v). steps. }
  intros [] l2 s2 [K2 _]. destruct (caught e); apply told_raise; by rewrite app_nil_r.
Qed.

(** C18. Removing a preset from a radio, whatever the radio, the database and the other
    sessions do: the radio is asked at most once, after the original intent - recorded in a
    transaction that found the local rows the plan was made from - and a backup of what the
    radio showed are durable, and it showed the same again.  The local row is deleted, if at
    all, by one transaction that found those rows unchanged, after two last readbacks
    without the preset and with every other preset as it was; the same transaction closes
    the mutation.  Whenever that did not happen, the caller is told so and no row of a preset
    has changed. *)
Theorem removal_is_confirmed b rev s : view s = None ->
  told log (remove_preset float_repr parse_xml fromstring content_xml v b rev) s (fun l o _ => careful b l (negb (is_ok o))).
Proof.
  intros V. assert (tidy s) as T by (unfold tidy; by rewrite V). unfold remove_preset. eapply told_bind_now; [reflexivity|].
  destruct (negb _); [apply told_raise; by left|].
  eapply told_try.
  { instantiate (1 := fun l o s' => careful b l (negb (is_ok o))). unfold device_transaction.
    eapply told_bind; [apply (told_asides hushed), asides_ask|intros e l s' [K _]; left; split; [by apply quiet_mild, hushed_quiet|done]|].
    intros [] l1 s1 [K1 [= _ V1 _ _]]. eapply told_bind; [by apply (told_asides hushed), asides_emit|intros e l s' [K _]; left; by rewrite forallb_app, (quiet_mild _ (hushed_quiet _ K1)), (quiet_mild _ (hushed_quiet _ K))|].
    intros [] l2 s2 [K2 [= _ V2 _ _]].
    destruct (told_remove_body (Radio.device_id (device v (world s))) b rev s2) as (l & L & H); [unfold tidy; by rewrite V2, V1, V|].
    unfold told, finally. destruct (remove_body _ _ _ _ _ _ _ _ s2) as [o s3]. cbn in L, H |- *.
    exists (l ++ [Left]). split; [by rewrite L, app_assoc|].
    rewrite app_assoc. eapply careful_around; [|done|exact (fun h => h)|exact H].
    by rewrite forallb_app, (quiet_mild _ (hushed_quiet _ K1)), (quiet_mild _ (hushed_quiet _ K2)). }
  { done. }
  intros [[e id] attempted] l s1 H.
  eapply told_weaken; [apply told_not_confirmed|]. intros l' o s' [K Ho]. rewrite <- (app_nil_l (l ++ l')).
  by eapply careful_around.
Qed.
End Removals.

(** ** What a download does *)
Section Downloads.
Context (float_repr : Z -> list Z).
Context (parse_xml : string -> option element) (fromstring : string -> res fault element) (content_xml : string -> nat -> string).
Context {W : Type} (v : env W) (find_station : json -> W -> res fault (option Z) * W).
#[local] Abbreviation M := (ST (session W) exn).
#[local] Abbreviation version_of := (version_of float_repr).
#[local] Abbreviation parse := (Slots.parse parse_xml fromstring content_xml).

(** The original intent of a mutation, its backup and the radio agree that it was carried
    out. *)
Definition carried_out (t : store) (m : PresetMutation) (actual : Slots.PresetObservation) (local : option Preset)
    (requested : list (string * json)) : Prop :=
  state m ∈ UNCERTAIN /\ original_preset_intent float_repr (tables t) m = Some (JObj requested)
  /\ exists before, start_of parse_xml fromstring content_xml t m = Ok before
       /\ confirms float_repr parse_xml fromstring content_xml m requested before actual local = Ok true.

(** Statements that fail do so with an exception of the database. *)
Definition honest : Prop := forall w x, (statement v w).1 = Some x -> x <> Radio.ValueError /\ x <> Radio.IdentityMismatch.

(** What may become of a mutation: nothing, or it is closed because it was carried out. *)
Definition settles (t : store) (rows : list (Z * Preset)) (actual : Slots.PresetObservation) (m m' : PresetMutation) : Prop :=
  m' = m \/ (exists requested, carried_out t m actual (lookup_slot (button m) rows) requested)
            /\ same_intent m m' /\ state m' = "LOCAL_COMMIT" /\ after_radio_sha256 m' = sha256_hex (Slots.raw actual) /\ diverged m' = false.

(** *** One mutation *)
Definition turned (m' : PresetMutation) (t t' : store) : Prop :=
  mutations (tables t') = map (fun x => if is_mutation (mutation_id m') x then m' else x) (mutations (tables t))
  /\ presets (tables t') = presets (tables t) /\ backups (tables t') = backups (tables t).

Lemma update_turns m m' t t' : constrained t -> m ∈ mutations (tables t) -> same_intent m m' -> update_mutation m m' t = Ok t' -> turned m' t t'.
Proof.
  intros [Hn Hp] Hm Hi. unfold update_mutation. destruct (existsb _ _); [|done]. intros [= <-]. split; [|done]. cbn.
  destruct Hi as [Hid Hi]. rewrite Hid. apply map_ext_in. intros x Hx. destruct (is_mutation (mutation_id m) x) eqn:He; [|done].
  rewrite (is_mutation_unique _ m x Hn Hm); [|by apply list_elem_of_In|done]. apply update_row_self. by split.
Qed.

Lemma turned_constrained m' t t' : turned m' t t' -> constrained t -> constrained t'.
Proof.
  intros (Hm & Hp & _) [Hn Hq]. split; [|by rewrite Hp]. rewrite Hm, map_map. erewrite map_ext; [exact Hn|].
  intros x. cbn. destruct (is_mutation _ x) eqn:He; [|done]. apply bool_decide_eq_true in He. congruence.
Qed.

Lemma turned_in m' t t' x : turned m' t t' -> x ∈ mutations (tables t) -> mutation_id x = mutation_id m' -> m' ∈ mutations (tables t').
Proof.
  intros (Hm & _) Hx Hi. rewrite Hm. apply list_elem_of_In, in_map_iff. exists x. split; [|by apply list_elem_of_In].
  unfold is_mutation. by rewrite bool_decide_true.
Qed.

Lemma turned_twice m1 m2 t t1 t2 : mutation_id m1 = mutation_id m2 -> turned m1 t t1 -> turned m2 t1 t2 -> turned m2 t t2.
Proof.
  intros Hi (H1 & P1 & B1) (H2 & P2 & B2). split; [|split; congruence]. rewrite H2, H1, map_map. apply map_ext. intros x.
  rewrite Hi. destruct (is_mutation (mutation_id m2) x) eqn:He; [|by rewrite He]. unfold is_mutation. by rewrite bool_decide_true.
Qed.

(** A transition of a mutation that is a row of the view, as it is loaded. *)
Lemma told_turn id target after div m old t s :
  view s = Some (old, t) -> constrained t -> m ∈ mutations (tables t) -> mutation_id m = id -> known id s = Some m ->
  told log (transition_preset_mutation v id target None after None None div false : M unit) s (fun l o s' => l = []
    /\ match o with
       | Ok _ => exists m' t', Mutation.transition_preset_mutation m target None after None None div = Ok m'
           /\ turned m' t t' /\ constrained t' /\ m' ∈ mutations (tables t') /\ view s' = Some (old, t') /\ known id s' = Some m'
       | Err _ => True end).
Proof.
  intros V C Hm Hid K. eapply told_weaken; [by eapply (told_transition v old)|]. intros l [[]|e] s'.
  - intros (m' & t' & Ht & Hu & -> & V' & K' & _). split; [done|]. exists m', t'. destruct (transition_intent _ _ _ _ _ _ _ _ Ht) as [Hi _].
    pose proof (update_turns _ _ _ _ C Hm Hi Hu) as T. split_and!; try done.
    + by eapply turned_constrained.
    + eapply turned_in; [done|exact Hm|]. by destruct Hi as [-> _].
  - intros [-> |([=] & _)]. done.
Qed.

Lemma turned_refl m t : constrained t -> m ∈ mutations (tables t) -> turned m t t.
Proof.
  intros [Hn _] Hm. split; [|done]. rewrite <- (map_id (mutations (tables t))) at 1. apply map_ext_in. intros x Hx.
  destruct (is_mutation (mutation_id m) x) eqn:He; [|done]. eapply is_mutation_unique; [exact Hn|done|by apply list_elem_of_In|done].
Qed.

(** The mutation has become [m'] in the rows of the session. *)
Definition became (old : store) (t : store) (m m' : PresetMutation) (s' : session W) : Prop :=
  same_intent m m' /\ exists t', turned m' t t' /\ constrained t' /\ m' ∈ mutations (tables t') /\ view s' = Some (old, t')
                               /\ known (mutation_id m) s' = Some m'.

Lemma became_trans old t m m1 m2 t1 s' :
  same_intent m m1 -> turned m1 t t1 -> became old t1 m1 m2 s' -> became old t m m2 s'.
Proof.
  intros I1 T1 (I2 & t2 & T2 & C2 & H2 & V2 & K2). split; [by eapply same_intent_trans|]. exists t2. split_and!; try done.
  - eapply turned_twice; [|exact T1|exact T2]. by destruct I2 as [-> _].
  - by destruct I1 as [<- _].
Qed.

Lemma told_when (c : bool) target m old t s :
  view s = Some (old, t) -> constrained t -> m ∈ mutations (tables t) -> known (mutation_id m) s = Some m ->
  told log (if c then transition_preset_mutation v (mutation_id m) target None None None None None false else mret tt : M unit) s
    (fun l o s' => l = [] /\ match o with Ok _ => exists m', became old t m m' s' | Err _ => True end).
Proof.
  intros V C Hm K. destruct c.
  - eapply told_weaken; [by eapply told_turn|]. intros l [[]|e] s' (-> & H); [|done]. split; [done|].
    destruct H as (m' & t' & Ht & T & C' & Hm' & V' & K'). exists m'. split; [by eapply transition_intent|]. by exists t'.
  - apply told_ret. split; [done|]. exists m. split; [by split_and!|]. exists t. split_and!; try done. by apply turned_refl.
Qed.

Lemma told_close m actual old t s :
  view s = Some (old, t) -> constrained t -> m ∈ mutations (tables t) -> known (mutation_id m) s = Some m ->
  told log (close v m actual) s (fun l o s' => l = [] /\ match o with
    | Ok _ => exists m', became old t m m' s' /\ state m' = "LOCAL_COMMIT" /\ after_radio_sha256 m' = sha256_hex (Slots.raw actual)
                         /\ diverged m' = false
    | Err _ => True end).
Proof.
  intros V C Hm K. unfold close.
  eapply told_bind; [by apply told_when|intros e l s' [-> _]; done|]. intros [] l1 s1 (-> & m1 & (I1 & t1 & T1 & C1 & H1 & V1 & K1)).
  pose proof I1 as [E1 _]. rewrite <- E1 in *.
  eapply told_bind; [by apply told_when|intros e l s' [-> _]; done|]. intros [] l2 s2 (-> & m2 & (I2 & t2 & T2 & C2 & H2 & V2 & K2)).
  pose proof I2 as [E2 _]. rewrite <- E2 in *.
  eapply told_bind; [by apply (told_turn (mutation_id m2) "VERIFIED" (Some (Slots.raw actual)) (Some false) m2 old t2)|intros e l s' [-> _]; done|].
  intros [] l3 s3 (-> & m3 & t3 & X3 & T3 & C3 & H3 & V3 & K3). pose proof (transition_intent _ _ _ _ _ _ _ _ X3) as [I3 _].
  pose proof I3 as [E3 _]. rewrite <- E3 in *.
  eapply told_weaken; [by apply (told_turn (mutation_id m3) "LOCAL_COMMIT" None None m3 old t3)|].
  intros l [[]|e] s' (-> & H); [|done]. split; [done|]. destruct H as (m4 & t4 & X4 & T4 & C4 & H4 & V4 & K4).
  pose proof (transition_intent _ _ _ _ _ _ _ _ X4) as [I4 S4]. exists m4. split_and!; [|done|..].
  - eapply became_trans; [exact I1|exact T1|]. eapply became_trans; [exact I2|exact T2|]. eapply became_trans; [exact I3|exact T3|].
    split; [done|]. by exists t4.
  - unfold Mutation.transition_preset_mutation in X3, X4. destruct (_ && _); [done|]. injection X3 as <-.
    destruct (_ && _); [done|]. by injection X4 as <-.
  - unfold Mutation.transition_preset_mutation in X3, X4. destruct (_ && _); [done|]. injection X3 as <-.
    destruct (_ && _); [done|]. by injection X4 as <-.
Qed.
End Downloads.

(** *** The mutations of all slots *)
Section Reconciled.
Context (float_repr : Z -> list Z).
Context (parse_xml : string -> option element) (fromstring : string -> res fault element) (content_xml : string -> nat -> string).
Context {W : Type} (v : env W) (find_station : json -> W -> res fault (option Z) * W).
#[local] Abbreviation M := (ST (session W) exn).
#[local] Abbreviation carried_out := (carried_out float_repr parse_xml fromstring content_xml).
#[local] Abbreviation settles := (settles float_repr parse_xml fromstring content_xml).

Lemma told_confirmed old t m actual local s : view s = Some (old, t) ->
  told log (_confirmed float_repr parse_xml fromstring content_xml v m actual local) s (fun l o s' =>
    l = [] /\ view s' = Some (old, t) /\ loaded s' = loaded s
    /\ match o with
       | Ok (Some requested) => carried_out t m actual local requested
       | Ok None => honest v -> forall requested, ~ carried_out t m actual local requested
       | Err _ => True
       end).
Proof.
  intros V. unfold _confirmed. destruct (decide (state m ∈ UNCERTAIN)) as [Hs|Hs].
  2: { rewrite bool_decide_false by done. apply told_ret. split_and!; try done. by intros _ requested (Hu & _). }
  rewrite bool_decide_true by done. cbn [negb]. eapply told_try.
  - instantiate (1 := fun l o s' => l = [] /\ view s' = Some (old, t) /\ loaded s' = loaded s
      /\ match o with
         | Ok (Some requested) => carried_out t m actual local requested
         | Ok None => forall requested, ~ carried_out t m actual local requested
         | Err e => failed_statement v e \/ forall requested, ~ carried_out t m actual local requested
         end).
    eapply told_bind; [by eapply told_intent| |].
    { intros e l s' (-> & ? & ? & [Hf|Hn]); split_and!; auto. right. intros requested (_ & Hr & _). by eapply Hn. }
    intros kvs l1 s1 (-> & V1 & L1 & H1). eapply told_bind; [by eapply told_start| |].
    { intros e l s' (-> & ? & ? & [Hf|Hn]); split_and!; try congruence; auto. right. intros requested (_ & _ & b & Hb & _). by eapply Hn. }
    intros before l2 s2 (-> & V2 & L2 & H2).
    assert (forall requested, carried_out t m actual local requested ->
      confirms float_repr parse_xml fromstring content_xml m kvs before actual local = Ok true) as Hu.
    { intros requested (_ & Hr & b & Hb & Hc). rewrite H1 in Hr. injection Hr as <-. rewrite H2 in Hb. by injection Hb as <-. }
    exists []. rewrite app_nil_r. unfold mbind, st_bind, lift. destruct (confirms _ _ _ _ _ _ _ _ _) as [[]|] eqn:Hc; cbn;
      (split; [done|]; split; [done|]; split; [done|]; split; [congruence|]).
    + split; [done|]. split; [done|]. by exists before.
    + by intros requested ?%Hu.
    + right. by intros requested ?%Hu.
  - intros [requested|] l s' (-> & ? & ? & H); by split_and!.
  - intros e l1 s1 (-> & V1 & L1 & H).
    assert (honest v -> e = Fault Radio.ValueError \/ e = Fault Radio.IdentityMismatch -> forall requested, ~ carried_out t m actual local requested) as Hn.
    { intros Hh He. destruct H as [(w & x & Hw & ->)|H]; [|done]. destruct (Hh w x Hw). by destruct He as [[= ->]|[= ->]]. }
    destruct e as [[]|]; first [by apply told_raise|by apply told_ret; split_and!; auto].
Qed.

Section Slot.
Context (old : store) (rows : list (Z * Preset)) (actual : Slots.PresetObservation) (who : string).

Definition progress (t : store) : Prop :=
  constrained t /\ presets (tables t) = presets (tables old) /\ backups (tables t) = backups (tables old)
  /\ Forall2 (settles old rows actual) (mutations (tables old)) (mutations (tables t)).

(** The latest mutation of a slot, if any, is closed. *)
Definition closed_slot (t : store) (b : Z) : Prop :=
  forall m, latest_of who b (mutations (tables t)) = Some m -> is_closed m = true.

(** It is open as it was, and was not seen to be carried out. *)
Definition uncertain_slot (t : store) (b : Z) : Prop :=
  exists m, latest_of who b (mutations (tables t)) = Some m /\ is_closed m = false /\ m ∈ mutations (tables old)
    /\ (honest v -> forall requested, ~ carried_out old m actual (lookup_slot b rows) requested).

Lemma latest_related (R : PresetMutation -> PresetMutation -> Prop) b l l' :
  (forall x y, R x y -> device_id y = device_id x /\ button y = button x /\ revision y = revision x) ->
  Forall2 R l l' -> option_Forall2 R (latest_of who b l) (latest_of who b l').
Proof.
  intros HR H. unfold latest_of.
  assert (forall a a', option_Forall2 R a a' -> option_Forall2 R (foldl later a (List.filter (of_slot who b) l))
    (foldl later a' (List.filter (of_slot who b) l'))) as Hf; [|apply Hf; constructor].
  induction H as [|x y l l' Hxy H IH]; intros a a' Ha; [done|]. destruct (HR _ _ Hxy) as (E1 & E2 & E3). cbn.
  replace (of_slot who b y) with (of_slot who b x) by (unfold of_slot; by rewrite E1, E2).
  destruct (of_slot who b x); [|by apply IH]. cbn. apply IH. destruct Ha as [x0 y0 H0|]; cbn; [|by constructor].
  destruct (HR _ _ H0) as (_ & _ & E0). rewrite E3, E0. destruct (revision x <? revision x0); by constructor.
Qed.

Lemma latest_in b l m : latest_of who b l = Some m -> m ∈ l /\ device_id m = who /\ button m = b.
Proof.
  unfold latest_of. intros H.
  assert (forall a, foldl later a (List.filter (of_slot who b) l) = Some m -> a = Some m \/ m ∈ l /\ device_id m = who /\ button m = b) as Hf.
  { clear H. induction l as [|x l IH]; intros a; cbn; [by left|]. destruct (of_slot who b x) eqn:Hx; cbn.
    - intros [H|(H & Hb)]%IH; [|right; split; [by right|done]]. unfold of_slot in Hx. bdestr.
      unfold later in H. destruct a as [a|]; [destruct (_ <? _)|]; injection H as ->; [by left|right|right]; (split; [left|done]).
    - intros [H|(H & Hb)]%IH; [by left|right]. split; [by right|done]. }
  by destruct (Hf None H) as [|].
Qed.

Lemma turned_related m m' t t' : turned m' t t' -> constrained t -> m ∈ mutations (tables t) -> same_intent m m' ->
  Forall2 (fun x y => y = (if is_mutation (mutation_id m') x then m' else x) /\ same_intent x y) (mutations (tables t)) (mutations (tables t')).
Proof.
  intros (Hm & _) [Hn _] Hin Hi. rewrite Hm.
  assert (forall x, x ∈ mutations (tables t) -> same_intent x (if is_mutation (mutation_id m') x then m' else x)) as Hx.
  { intros x Hx. destruct (is_mutation _ x) eqn:He; [|by split_and!]. destruct Hi as [Hid Hi]. rewrite Hid in He.
    rewrite (is_mutation_unique _ m x Hn Hin Hx He). by split. }
  revert Hx. clear. induction (mutations (tables t)) as [|x l IH]; intros Hx; cbn; constructor.
  - split; [done|]. apply Hx. left.
  - apply IH. intros y Hy. apply Hx. by right.
Qed.

Lemma closed_slot_turned m m' t t' b : turned m' t t' -> constrained t -> m ∈ mutations (tables t) -> same_intent m m' ->
  is_closed m' = true -> closed_slot t b \/ latest_of who b (mutations (tables t)) = Some m -> closed_slot t' b.
Proof.
  intros T C Hm Hi Hc H y Hy. pose proof (turned_related m m' t t' T C Hm Hi) as HR.
  assert (forall x y, y = (if is_mutation (mutation_id m') x then m' else x) /\ same_intent x y ->
    device_id y = device_id x /\ button y = button x /\ revision y = revision x) as Hk.
  { intros x z [_ (_ & ? & ? & _ & ? & _)]. done. }
  pose proof (latest_related _ b _ _ Hk HR) as Hl. rewrite Hy in Hl. inversion Hl as [x z [Hz _] Ex Ez|]. rewrite Hz.
  destruct (is_mutation (mutation_id m') x) eqn:He; [done|]. destruct H as [H|H]; [apply H; congruence|].
  rewrite H in Ex. injection Ex as <-. unfold is_mutation in He. destruct Hi as [Hid _]. rewrite bool_decide_true in He by done. done.
Qed.

Lemma uncertain_slot_turned m m' t t' b : turned m' t t' -> constrained t -> m ∈ mutations (tables t) -> same_intent m m' ->
  b <> button m -> uncertain_slot t b -> uncertain_slot t' b.
Proof.
  intros T C Hm Hi Hb (x & Hx & H). exists x. split; [|done].
  pose proof (turned_related m m' t t' T C Hm Hi) as HR.
  assert (forall x y, y = (if is_mutation (mutation_id m') x then m' else x) /\ same_intent x y ->
    device_id y = device_id x /\ button y = button x /\ revision y = revision x) as Hk.
  { intros y z [_ (_ & ? & ? & _ & ? & _)]. done. }
  pose proof (latest_related _ b _ _ Hk HR) as Hl. rewrite Hx in Hl. inversion Hl as [y z [Hz _] Ey Ez|]. subst y. rewrite Hz.
  destruct (is_mutation (mutation_id m') x) eqn:He; [|done]. destruct (latest_in _ _ _ Hx) as (Hin & _ & Hbx).
  destruct Hi as [Hid _], C as [Hn _]. rewrite Hid in He. exfalso. apply Hb. rewrite <- Hbx. f_equal. by eapply is_mutation_unique.
Qed.
Lemma carried_out_backups t t' m a l requested : backups (tables t') = backups (tables t) ->
  carried_out t m a l requested -> carried_out t' m a l requested.
Proof.
  intros Hb (H1 & H2 & before & H3 & H4). split; [done|]. split; [unfold original_preset_intent in *; by rewrite Hb|].
  exists before. split; [|done]. unfold start_of in *. by rewrite Hb.
Qed.

(** A closed mutation was the one the session started with, if it was closed just now. *)
Lemma settles_open m m' : settles old rows actual m m' -> is_closed m' = false -> m' = m.
Proof. intros [->|(_ & _ & Hs & _)] Hc; [done|]. unfold is_closed in Hc. rewrite Hs in Hc. by vm_compute in Hc. Qed.

Lemma progress_turned m m' t t' : progress t -> turned m' t t' -> m ∈ mutations (tables t) -> same_intent m m' -> is_closed m = false ->
  (exists requested, carried_out t m actual (lookup_slot (button m) rows) requested) ->
  state m' = "LOCAL_COMMIT" -> after_radio_sha256 m' = sha256_hex (Slots.raw actual) -> diverged m' = false -> progress t'.
Proof.
  intros (C & Hp & Hb & Hf) T Hm Hi Ho (requested & Hs & Hq & before & H1 & H2) S1 S2 S3. pose proof T as (_ & Tp & Tb).
  split_and!; [by eapply turned_constrained|congruence|congruence|].
  pose proof (turned_related m m' t t' T C Hm Hi) as HR. revert Hf HR.
  assert (forall x, x ∈ mutations (tables t) -> is_mutation (mutation_id m') x = true -> x = m) as Hu.
  { intros x Hx He. destruct Hi as [Hid _]. rewrite Hid in He. destruct C as [Hn _]. by eapply is_mutation_unique. }
  revert Hu. generalize (mutations (tables old)) (mutations (tables t')). clear Hm.
  induction (mutations (tables t)) as [|y l IH]; intros l0 l' Hu Hf HR.
  { inversion Hf; subst. inversion HR; subst. constructor. }
  inversion Hf as [|x ? l0' ? Hxy Hf']; subst. inversion HR as [|? z ? l'' [Hz Hi'] HR']; subst. constructor.
  - destruct (is_mutation (mutation_id m') y) eqn:He; [|done]. assert (y = m) as -> by (apply Hu; [left|done]).
    apply settles_open in Hxy as <-; [|done]. right. split; [|done]. exists requested. split; [done|]. split.
    + unfold original_preset_intent in *. by rewrite <- Hb.
    + exists before. split; [|done]. unfold start_of in *. by rewrite <- Hb.
  - apply IH; [|done|done]. intros x' Hx'. apply Hu. by right.
Qed.

Lemma told_reconcile_slot b acc t s : view s = Some (old, t) -> progress t ->
  told log (reconcile_slot float_repr parse_xml fromstring content_xml v who actual rows b acc) s (fun l o s' => l = []
    /\ match o with
       | Ok acc' => exists t', view s' = Some (old, t') /\ progress t'
           /\ (forall c, closed_slot t c -> closed_slot t' c)
           /\ (forall c, c ∈ pending acc -> c ∈ pending acc') /\ (b ∈ pending acc' \/ closed_slot t' b)
           /\ (forall c, c <> b -> uncertain_slot t c -> uncertain_slot t' c)
           /\ (forall c, c ∈ pending acc' -> c ∈ pending acc \/ c = b /\ uncertain_slot t' b)
       | Err _ => True end).
Proof.
  intros V P. unfold reconcile_slot. eapply told_bind.
  { instantiate (1 := fun l o s' => l = [] /\ view s' = Some (old, t) /\ match o with
      | Ok m => m = latest_of who b (mutations (tables t)) /\ match m with Some m => known (mutation_id m) s' = Some m | None => True end
      | Err _ => True end).
    unfold _latest. eapply told_bind; [by eapply told_read_rows|naive_solver|]. intros m l1 s1 (-> & V1 & L1 & ->).
    destruct (latest_of who b (mutations (tables t))) as [m|]; [|by apply told_ret].
    eapply told_bind; [apply told_put|naive_solver|]. intros [] l2 s2 (-> & _ & V2 & L2). apply told_ret.
    split; [done|]. split; [congruence|]. split; [done|]. by eapply known_remember. }
  { intros e l s' (-> & _). done. }
  intros m l1 s1 (-> & V1 & -> & K1). destruct (latest_of who b (mutations (tables t))) as [m|] eqn:Hl.
  2: { apply told_ret. split; [done|]. exists t. split_and!; auto. right. intros m. by rewrite Hl. }
  destruct (is_closed m) eqn:Hc.
  { apply told_ret. split; [done|]. exists t. split_and!; auto. right. intros m'. rewrite Hl. by intros [= <-]. }
  pose proof (latest_in _ _ _ Hl) as (Hm & Hd & Hb). pose proof P as (C & _).
  eapply told_bind; [by eapply told_confirmed|intros e l s' (-> & _); done|]. intros intent l2 s2 (-> & V2 & L2 & H2).
  destruct intent as [requested|].
  2: { apply told_ret. split; [done|]. exists t. split_and!; auto; cbn; [intros c Hc'; apply elem_of_app; by left|left; apply elem_of_app; right; left|].
    intros c [Hc'|Hc'%list_elem_of_singleton]%elem_of_app; [by left|right]. split; [done|]. exists m. split; [done|]. split; [done|].
    destruct P as (_ & _ & Hbk & Hf). apply list_elem_of_lookup in Hm as (i & Hm). destruct (Forall2_lookup_r _ _ _ _ _ Hf Hm) as (x & Hx & Hs).
    apply settles_open in Hs as ->; [|done]. split; [by apply list_elem_of_lookup; exists i|]. intros Hh requested Hca. eapply (H2 Hh requested).
    by eapply carried_out_backups. }
  assert (known (mutation_id m) s2 = Some m) as K2 by (unfold known in *; by rewrite L2).
  eapply told_bind; [by eapply told_close|intros e l s' [-> _]; done|].
  intros [] l3 s3 (-> & m' & (Hi & t1 & T & C1 & Hm' & V3 & K3) & S1 & S2 & S3).
  eapply told_bind; [by eapply told_record|intros e l s' [-> _]; done|]. intros [] l4 s4 (-> & V4).
  apply told_ret. split; [done|]. eexists. split; [exact V4|].
  assert (is_closed m' = true) as Hc' by (unfold is_closed; rewrite S1; reflexivity).
  split.
  { assert (progress t1) as (? & ? & ? & ?); [|by split_and!]. eapply (progress_turned m m' t t1); try done. exists requested. by rewrite Hb. }
  split_and!; try done.
  - intros c Hcs. exact (closed_slot_turned m m' t t1 c T C Hm Hi Hc' (or_introl Hcs)).
  - right. exact (closed_slot_turned m m' t t1 b T C Hm Hi Hc' (or_intror Hl)).
  - intros c Hn Hu. apply (uncertain_slot_turned m m' t t1 c T C Hm Hi); [congruence|done].
  - intros c Hcs. by left.
Qed.

Lemma told_reconcile bs acc t s : view s = Some (old, t) -> progress t ->
  NoDup bs -> (forall b, b ∈ bs -> b ∉ pending acc) -> (forall b, b ∈ pending acc -> uncertain_slot t b) ->
  told log (reconcile float_repr parse_xml fromstring content_xml v who actual rows bs acc) s (fun l o s' => l = []
    /\ match o with
       | Ok acc' => exists t', view s' = Some (old, t') /\ progress t'
           /\ (forall c, closed_slot t c -> closed_slot t' c)
           /\ (forall c, c ∈ pending acc -> c ∈ pending acc') /\ (forall b, b ∈ bs -> b ∈ pending acc' \/ closed_slot t' b)
           /\ (forall b, b ∈ pending acc' -> (b ∈ pending acc \/ b ∈ bs) /\ uncertain_slot t' b)
       | Err _ => True end).
Proof.
  revert acc t s. induction bs as [|b bs IH]; intros acc t s V P Hn Hd Hu; cbn [reconcile].
  { apply told_ret. split; [done|]. exists t. split_and!; auto. by intros b ?%elem_of_nil. }
  inversion Hn as [|? ? Hb Hn']; subst.
  eapply told_bind; [by apply told_reconcile_slot|intros e l s' [-> _]; done|].
  intros acc1 l1 s1 (-> & t1 & V1 & P1 & C1 & I1 & H1 & U1 & N1).
  eapply told_weaken; [apply (IH acc1 t1); try done|].
  { intros c Hc [Hp|[-> _]]%N1; [|done]. apply (Hd c); [by right|done]. }
  { intros c Hc. destruct (N1 c Hc) as [Hp|[-> ?]]; [|done]. apply U1; [|by apply Hu]. intros ->. apply (Hd b); [left|done]. }
  intros l o s' (-> & H). split; [done|]. destruct o as [acc2|]; [|done]. destruct H as (t2 & V2 & P2 & C2 & I2 & H2 & N2).
  exists t2. split_and!; auto.
  - intros c [->|Hc]%elem_of_cons; [|auto]. destruct H1; auto.
  - intros c [[Hc|Hc] Hc']%N2; (split; [|done]); [|right; by right]. destruct (N1 c Hc) as [|[-> _]]; [by left|right; left].
Qed.
End Slot.
End Reconciled.

(** *** The local rows *)
Section Projection.
Context {W : Type} (v : env W) (find_station : json -> W -> res fault (option Z) * W).
#[local] Abbreviation M := (ST (session W) exn).
Context (who : string).
#[local] Abbreviation at_slot := (at_slot who).
#[local] Abbreviation elsewhere_rows := (elsewhere_rows who).

Definition as_slots (l : list Preset) : list (Z * Preset) := map (fun p => (p_button p, p)) (List.filter (of_device who) l).

Lemma lookup_slot_remove {A} (b c : Z) (l : list (Z * A)) : lookup_slot c (remove_slot b l) = if c =? b then None else lookup_slot c l.
Proof.
  induction l as [|[k a] l IH]; cbn; [by destruct (c =? b)|]. destruct (k =? b) eqn:Hk; cbn; rewrite ?IH.
  - apply Z.eqb_eq in Hk as ->. rewrite (Z.eqb_sym b c). by destruct (c =? b).
  - destruct (k =? c) eqn:Hc; [|done]. apply Z.eqb_eq in Hc as ->. by rewrite Hk.
Qed.

(** Under the unique constraint a dictionary of the rows of the device is its rows. *)
Lemma as_slots_at l b : NoDup (map (fun p => (p_device p, p_button p)) l) -> at_slot l b = option_list (lookup_slot b (as_slots l)).
Proof.
  unfold at_slot, as_slots. induction l as [|q l IH]; intros Hn; [done|]. cbn in Hn |- *. inversion Hn as [|? ? Hq Hn']; subst.
  specialize (IH Hn'). unfold is_slot at 1, of_device at 1. case_bool_decide as Hd; cbn; [|done].
  destruct (p_button q =? b) eqn:Hb; [|done]. cbn. f_equal. apply Z.eqb_eq in Hb.
  destruct (List.filter (is_slot who b) l) as [|x r] eqn:Hf; [done|].
  assert (In x (List.filter (is_slot who b) l)) as Hin by (rewrite Hf; by left). apply filter_In in Hin as [Hx Hs].
  apply is_slot_device in Hs as [Hs Hxb]. apply bool_decide_eq_true in Hs. exfalso. apply Hq.
  apply list_elem_of_In, in_map_iff. exists x. split; [congruence|done].
Qed.

Section Project.
Context (items : list Slots.summary) (kept : list Z) (old : store).
(** Its rows before the projection. *)
Context (l0 : list Preset) (rows0 : list (Z * Preset)) (rows0_at : forall b, at_slot l0 b = option_list (lookup_slot b rows0)).

(** After [done] items, with [rows] left. *)
Definition projecting (seen : list Slots.summary) (l : list Preset) (rows : list (Z * Preset)) : Prop :=
  elsewhere_rows l = elsewhere_rows l0
  /\ (forall b, b ∈ kept -> at_slot l b = at_slot l0 b)
  /\ (forall b, b ∉ kept -> b ∈ map Slots.button seen -> lookup_slot b rows = None
        /\ exists item st, item ∈ seen /\ Slots.button item = b /\ at_slot l b = [projected who item st])
  /\ (forall b, b ∉ kept -> b ∉ map Slots.button seen -> at_slot l b = at_slot l0 b /\ lookup_slot b rows = lookup_slot b rows0).

Lemma projecting_keep seen item l rows : Slots.button item ∈ kept -> projecting seen l rows -> projecting (seen ++ [item]) l rows.
Proof.
  intros Hk (H1 & H2 & H3 & H4). split; [done|]. split; [done|]. split; intros b Hb; rewrite map_app, elem_of_app; cbn.
  - intros [Hs|Hs%list_elem_of_singleton]; [|congruence]. destruct (H3 b Hb Hs) as (H5 & x & st & Hx & H6). split; [done|].
    exists x, st. split; [|done]. apply elem_of_app. by left.
  - intros Hs. apply H4; [done|]. intros Hx. apply Hs. by left.
Qed.

Lemma projecting_step seen item st l rows l' : Slots.button item ∉ kept -> projecting seen l rows ->
  at_slot l' (Slots.button item) = [projected who item st] ->
  (forall b, b <> Slots.button item -> at_slot l' b = at_slot l b) -> elsewhere_rows l' = elsewhere_rows l ->
  projecting (seen ++ [item]) l' (remove_slot (Slots.button item) rows).
Proof.
  intros Hk (H1 & H2 & H3 & H4) Ha Ho He. split; [congruence|]. split.
  { intros b Hb. rewrite Ho; [auto|]. congruence. }
  split; intros b Hb; rewrite map_app, elem_of_app, lookup_slot_remove; cbn.
  - destruct (decide (b = Slots.button item)) as [->|Hn].
    + intros _. rewrite Z.eqb_refl. split; [done|]. exists item, st. split; [apply elem_of_app; right; left|done].
    + intros [Hs|Hs%list_elem_of_singleton]; [|done]. apply Z.eqb_neq in Hn as Hn'. rewrite Hn'. destruct (H3 b Hb Hs) as (H5 & x & st' & Hx & H6 & H7).
      split; [done|]. exists x, st'. split; [apply elem_of_app; by left|]. split; [done|]. by rewrite Ho.
  - intros Hs. assert (b <> Slots.button item) as Hn by (intros ->; apply Hs; right; left).
    rewrite Ho by done. apply Z.eqb_neq in Hn. rewrite Hn. apply H4; [done|]. intros Hx. apply Hs. by left.
Qed.

Lemma told_resolved_station intent s :
  told log (resolved_station find_station intent) s (fun l _ s' => l = [] /\ view s' = view s).
Proof.
  assert (steps_in (aside (fun _ => false)) (resolved_station find_station intent)) as H.
  { unfold resolved_station. destruct (Json.get "station_id" intent) as [j|]; [|apply steps_in_ret, _].
    destruct (truthy j); [apply asides_ask|apply steps_in_ret, _]. }
  eapply told_weaken; [by eapply told_asides|]. intros l o s' (K & [= _ V _ _]). split; [|done]. by destruct l.
Qed.

Lemma told_project_items todo resolved seen t s rows :
  view s = Some (old, t) -> projecting seen (presets (tables t)) rows ->
  told log (project_items v find_station who todo resolved kept rows) s (fun l o s' => l = [] /\ match o with
    | Ok rest => exists t', view s' = Some (old, t') /\ projecting (seen ++ todo) (presets (tables t')) rest
        /\ mutations (tables t') = mutations (tables t) /\ backups (tables t') = backups (tables t)
    | Err _ => True end).
Proof using rows0_at.
  revert seen t s rows. induction todo as [|item todo IH]; intros seen t s rows V P; cbn [project_items].
  { apply told_ret. split; [done|]. exists t. rewrite app_nil_r. by split_and!. }
  assert (seen ++ item :: todo = (seen ++ [item]) ++ todo) as -> by (by rewrite <- app_assoc).
  case_bool_decide as Hk. { apply IH; [done|by apply projecting_keep]. }
  eapply told_bind.
  { instantiate (1 := fun l o s' => l = [] /\ view s' = view s). destruct (lookup_slot _ resolved); [apply told_resolved_station|by apply told_ret]. }
  { intros e l s' [-> _]. done. }
  intros st l1 s1 (-> & V1). rewrite V in V1. set (p := projected who item st).
  eapply told_bind; [by apply told_stage|intros e l s' [-> _]; done|]. intros [] l2 s2 (-> & t' & Hf & V2 & _).
  destruct (row_put who p (is_some (lookup_slot (Slots.button item) rows)) t t') as (R1 & R2 & R3 & Hm & Hb); [done| |by destruct (lookup_slot _ rows)|].
  { intros Hs. destruct P as (_ & _ & P3 & P4). cbn. destruct (decide (Slots.button item ∈ map Slots.button seen)) as [Hi|Hi].
    - destruct (P3 _ Hk Hi) as [Hn _]. by rewrite Hn in Hs.
    - destruct (P4 _ Hk Hi) as [Ha Hn]. destruct (lookup_slot (Slots.button item) rows) as [q|]; [|done]. exists q. by rewrite Ha, rows0_at, <- Hn. }
  assert (projecting (seen ++ [item]) (presets (tables t')) (remove_slot (Slots.button item) rows)) as P' by (by apply (projecting_step _ _ st _ _ _ Hk P)).
  eapply told_weaken; [by apply (IH (seen ++ [item]) t')|]. intros l o s' (-> & H). split; [done|]. destruct o as [rest|]; [|done].
  destruct H as (t2 & V3 & P3 & M3 & B3). exists t2. split_and!; try done; congruence.
Qed.

(** The rows that remain are deleted, except where a mutation is pending. *)
Lemma told_deletes (rest : list (Z * Preset)) t s : view s = Some (old, t) ->
  told log (for_each rest (fun x => if bool_decide (x.1 ∈ kept) then mret tt else stage v (delete_preset who x.1)) : M unit) s
    (fun l o s' => l = [] /\ match o with
    | Ok _ => exists t', view s' = Some (old, t') /\ elsewhere_rows (presets (tables t')) = elsewhere_rows (presets (tables t))
        /\ (forall b, at_slot (presets (tables t')) b
                      = if bool_decide (b ∈ kept) then at_slot (presets (tables t)) b
                        else if is_some (lookup_slot b rest) then [] else at_slot (presets (tables t)) b)
        /\ mutations (tables t') = mutations (tables t) /\ backups (tables t') = backups (tables t)
    | Err _ => True end).
Proof.
  revert t s. induction rest as [|[c p] rest IH]; intros t s V; cbn [for_each].
  { apply told_ret. split; [done|]. exists t. split_and!; try done. intros b. by destruct (bool_decide _). }
  cbn [fst]. destruct (decide (c ∈ kept)) as [Hc|Hc].
  - rewrite bool_decide_true by done. eapply told_bind_now; [reflexivity|]. eapply told_weaken; [by apply (IH t)|].
    intros l o s' (-> & H). split; [done|]. destruct o as [[]|]; [|done]. destruct H as (t' & V' & H1 & H2 & H3 & H4).
    exists t'. split_and!; try done. intros b. rewrite H2. cbn. destruct (c =? b) eqn:Hb; [|done]. apply Z.eqb_eq in Hb as <-.
    by rewrite bool_decide_true.
  - rewrite bool_decide_false by done. eapply told_bind; [by apply told_stage|intros e l s' [-> _]; done|].
    intros [] l1 s1 (-> & t1 & [= <-] & V1 & _). eapply told_weaken; [by eapply IH|].
    intros l o s' (-> & H). split; [done|]. destruct o as [[]|]; [|done]. destruct H as (t' & V' & H1 & H2 & H3 & H4).
    exists t'. split_and!; [done| | |done|done].
    + rewrite H1. apply deleted_elsewhere.
    + intros b. rewrite H2. cbn [lookup_slot tables presets with_presets]. rewrite deleted_at, (Z.eqb_sym c b). destruct (b =? c) eqn:Hb; [|done].
      apply Z.eqb_eq in Hb as ->. rewrite bool_decide_false by done. cbn. by destruct (is_some _).
Qed.
End Project.

(** The local rows [l'] of the device show the items of an observation, but for the slots
    in [kept], whose rows are those of [l]. *)
Definition shows (items : list Slots.summary) (kept : list Z) (l l' : list Preset) : Prop :=
  elsewhere_rows l' = elsewhere_rows l
  /\ (forall b, b ∈ kept -> at_slot l' b = at_slot l b)
  /\ (forall b, b ∉ kept -> (exists item st, item ∈ items /\ Slots.button item = b /\ at_slot l' b = [projected who item st])
                           \/ (b ∉ map Slots.button items /\ at_slot l' b = [])).

Lemma told_project actual resolved kept old t s : view s = Some (old, t) -> constrained t ->
  told log (_project v find_station who actual resolved kept) s (fun l o s' => l = [] /\ match o with
    | Ok _ => exists t', view s' = Some (old, t') /\ shows (Slots.rows actual) kept (presets (tables t)) (presets (tables t'))
        /\ mutations (tables t') = mutations (tables t) /\ backups (tables t') = backups (tables t)
    | Err _ => True end).
Proof.
  intros V [_ Hn]. unfold _project, device_rows. eapply told_bind.
  { instantiate (1 := fun l o s' => l = [] /\ view s' = Some (old, t) /\ match o with Ok r => r = as_slots (presets (tables t)) | Err _ => True end).
    eapply told_bind; [by eapply told_read_rows|naive_solver|]. intros rows l s' (-> & V' & _ & ->). by apply told_ret. }
  { intros e l s' [-> _]. done. }
  intros rows l1 s1 (-> & V1 & ->).
  eapply told_bind; [eapply (told_project_items kept old (presets (tables t)) (as_slots (presets (tables t)))); [|exact V1|]|
    intros e l s' [-> _]; done|].
  { intros b. by apply as_slots_at. }
  { instantiate (1 := []). split_and!; try done. by intros b _ ?%elem_of_nil. }
  intros rest l2 s2 (-> & t1 & V2 & (P1 & P2 & P3 & P4) & M1 & B1).
  eapply told_weaken; [by eapply told_deletes|]. intros l o s' (-> & H). split; [done|]. destruct o as [[]|]; [|done].
  destruct H as (t2 & V3 & D1 & D2 & M2 & B2). exists t2. split_and!; try congruence. cbn [app] in *.
  split; [congruence|]. split; intros b Hb; rewrite D2.
  - rewrite bool_decide_true by done. auto.
  - rewrite bool_decide_false by done. destruct (decide (b ∈ map Slots.button (Slots.rows actual))) as [Hs|Hs].
    + left. destruct (P3 b Hb Hs) as (Hl & item & st & Hi & Hbi & Ha). exists item, st. by rewrite Hl.
    + right. split; [done|]. destruct (P4 b Hb Hs) as [Ha ->]. rewrite Ha, (as_slots_at _ b) by done. by destruct (lookup_slot b _).
Qed.
End Projection.

(** *** The whole download *)
Section Downloaded.
Context (float_repr : Z -> list Z).
Context (parse_xml : string -> option element) (fromstring : string -> res fault element) (content_xml : string -> nat -> string).
Context {W : Type} (v : env W) (find_station : json -> W -> res fault (option Z) * W).
#[local] Abbreviation M := (ST (session W) exn).
#[local] Abbreviation parse := (Slots.parse parse_xml fromstring content_xml).

(** The one transaction of a download: the rows of a slot are kept only for a mutation that
    stays open. *)
Definition reconciles (who : string) (actual : Slots.PresetObservation) (kept : list Z) (old new : store) : Prop :=
  shows who (Slots.rows actual) kept (presets (tables old)) (presets (tables new))
  /\ Forall2 (settles float_repr parse_xml fromstring content_xml old (as_slots who (presets (tables old))) actual)
       (mutations (tables old)) (mutations (tables new))
  /\ (forall b, 1 <= b <= 6 -> b ∈ kept \/ closed_slot who new b)
  /\ (forall b, b ∈ kept -> 1 <= b <= 6
       /\ uncertain_slot float_repr parse_xml fromstring content_xml v old (as_slots who (presets (tables old))) actual who new b)
  /\ backups (tables new) = backups (tables old) ++ [{| b_device := who; path := "/presets"; content := Slots.raw actual |}].

(** Two equal observations of a radio, half a second apart, then that transaction, on the
    rows of the plan. *)
Definition downloaded (l : list event) (o : res exn download) : Prop :=
  exists l1 old new l2 who x1 x2 first actual kept, l = l1 ++ Committed old new :: l2
    /\ forallb quiet l1 = true /\ forallb quiet l2 = true
    /\ planned float_repr (version_of float_repr who [] old) l1
    /\ sights l1 = [Shown x1; Waited 500; Shown x2] /\ parse x1 who = Ok first /\ parse x2 who = Ok actual /\ Slots.slots first = Slots.slots actual
    /\ reconciles who actual kept old new
    /\ match o with Ok r => d_presets r = Slots.rows actual /\ d_pending r = kept | Err _ => True end.

Definition faithful (l : list event) (o : res exn download) : Prop :=
  (forallb quiet l = true /\ is_ok o = false) \/ downloaded l o.

Lemma quiet_nothing l (e : exn) : forallb quiet l = true -> faithful l (Err e).
Proof. by left. Qed.

(** What follows the reservation. *)
Lemma told_download_tail who first actual pre x1 x2 t s :
  view s = Some (t, t) -> constrained t -> forallb quiet pre = true -> planned float_repr (version_of float_repr who [] t) pre ->
  sights pre = [Shown x1; Waited 500; Shown x2] ->
  parse x1 who = Ok first -> parse x2 who = Ok actual -> Slots.slots first = Slots.slots actual ->
  told log (rows ← device_rows v who;
            r ← reconcile float_repr parse_xml fromstring content_xml v who actual rows [1; 2; 3; 4; 5; 6]
                  {| resolved := []; pending := []; reconciled := [] |};
            _project v find_station who actual (resolved r) (pending r);;
            stage v (fun t => Ok (add_backup {| b_device := who; path := "/presets"; content := Slots.raw actual |} t));;
            commit_db v;;
            mret {| d_presets := Slots.rows actual; d_reconciled := reconciled r; d_pending := pending r |}) s
    (fun l o _ => faithful (pre ++ l) o).
Proof.
  intros V Hc Kpre Gpre Ppre X1 X2 Hs.
  assert (forall l (e : exn), l = [] -> faithful (pre ++ l) (Err e)) as Hp by (intros l e ->; apply quiet_nothing; by rewrite app_nil_r).
  unfold device_rows. eapply told_bind.
  { instantiate (1 := fun l r s' => l = [] /\ view s' = Some (t, t) /\ match r with Ok r => r = as_slots who (presets (tables t)) | Err _ => True end).
    eapply told_bind; [by eapply told_read_rows|naive_solver|]. intros rows l s' (-> & V' & _ & ->). by apply told_ret. }
  { intros e l s' [-> _]. by apply Hp. }
  intros rows l8 s8 (-> & V8 & ->).
  eapply told_bind; [eapply (told_reconcile _ _ _ _ _ t (as_slots who (presets (tables t))) actual who); [exact V8|..]|..].
  { split_and!; try done. apply Forall2_same_length_lookup_2; [done|]. intros i x y Hx Hy. left. congruence. }
  { apply (bool_decide_unpack _). by vm_compute. }
  { by intros b _ ?%elem_of_nil. }
  { by intros b ?%elem_of_nil. }
  { intros e l s' [-> _]. by apply Hp. }
  intros r l9 s9 (-> & t9 & V9 & (C9 & Hp9 & Hb9 & Hf9) & _ & _ & Hk & Hu).
  eapply told_bind; [by eapply told_project|intros e l s' [-> _]; by apply Hp|].
  intros [] l10 s10 (-> & t10 & V10 & Hsh & Hm10 & Hb10). rewrite Hp9 in Hsh.
  eapply told_bind; [by eapply told_stage|intros e l s' [-> _]; by apply Hp|].
  intros [] l11 s11 (-> & t11 & [= <-] & V11 & _).
  match type of V11 with _ = Some (_, ?n) => set (new := n) in * end.
  assert (reconciles who actual (pending r) t new) as Hrec.
  { split; [exact Hsh|]. split; [cbn; by rewrite Hm10|]. split.
    - intros b Hb. assert (b ∈ [1; 2; 3; 4; 5; 6]) as Hin by (rewrite !elem_of_cons; lia).
      destruct (Hk b Hin) as [|H]; [by left|right]. intros m. cbn. rewrite Hm10. apply H.
    - split; [|cbn; by rewrite Hb10, Hb9]. intros b [[Hb|Hb] Hub]%Hu; [by apply elem_of_nil in Hb|].
      split; [rewrite !elem_of_cons, elem_of_nil in Hb; lia|]. unfold uncertain_slot in *. cbn. by rewrite Hm10. }
  eapply told_bind; [by eapply told_commit_rows| |].
  { intros e l s' (_ & _ & [-> | ->]); [by apply Hp|]. right. by exists pre, t, new, [], who, x1, x2, first, actual, (pending r). }
  intros [] l12 s12 (_ & _ & ->). apply told_ret. right. exists pre, t, new, [], who, x1, x2, first, actual, (pending r). by split_and!.
Qed.

Lemma faithful_around l0 l l' o o' : forallb hushed l0 = true -> forallb quiet l' = true ->
  o' = o \/ is_ok o' = false -> faithful l o -> faithful (l0 ++ l ++ l') o'.
Proof.
  intros K0 K' Ho [[K F]|(l1 & old & new & l2 & who & x1 & x2 & first & actual & kept & -> & K1 & K2 & G & P & H1 & H2 & H3 & H4 & H5)].
  { left. rewrite !forallb_app, (hushed_quiet _ K0), K, K'. split; [done|]. destruct Ho as [->|]; done. }
  right. exists (l0 ++ l1), old, new, (l2 ++ l'), who, x1, x2, first, actual, kept. rewrite sights_app, (hushed_sights _ K0).
  split; [by rewrite <- !app_assoc|]. rewrite !forallb_app, (hushed_quiet _ K0), K1, K2, K'. split_and!; try done.
  { pose proof (planned_around float_repr _ l0 l1 [] K0 G) as G'. by rewrite app_nil_r in G'. }
  destruct Ho as [->|Ho]; [done|]. by destruct o'.
Qed.

Lemma told_download_body s : (forall t w, constrained (others v t w).1) ->
  told log (download_body float_repr parse_xml fromstring content_xml v find_station) s (fun l o _ => faithful l o).
Proof.
  intros Hc. unfold download_body.
  assert (forall l1 l2 (e : exn), forallb quiet l1 = true -> forallb quiet l2 = true -> faithful (l1 ++ l2) (Err e)) as Hq.
  { intros l1 l2 e K1 K2. left. by rewrite forallb_app, K1, K2. }
  eapply told_bind; [apply (told_asides hushed), asides_open_access, protection_aside|intros e l s' [K _]; by apply quiet_nothing, hushed_quiet|].
  intros a l1 s1 [K1 _].
  eapply told_bind; [apply told_version|intros e l s' (K & _); by apply Hq; apply hushed_quiet|].
  intros expected l2 s2 (K2 & _ & G2).
  eapply told_bind; [apply told_both; [apply told_asides, asides_observe|apply told_sight]; apply protection_aside|intros e l s' [[K _] _]; rewrite app_assoc; apply Hq; [|done]|].
  { by rewrite forallb_app, (hushed_quiet _ K1), (hushed_quiet _ K2). }
  intros first l3 s3 [[K3 _] (x1 & P3 & X3)].
  eapply told_bind; [apply told_pause|intros e l s' [_ ->]; rewrite !app_assoc; apply Hq; [|done]|].
  { by rewrite !forallb_app, (hushed_quiet _ K1), (hushed_quiet _ K2), K3. }
  intros [] l4 s4 [_ ->].
  eapply told_bind; [apply told_both; [apply told_asides, asides_observe|apply told_sight]; apply protection_aside|intros e l s' [[K _] _]; rewrite !app_assoc; apply Hq; [|done]|].
  { by rewrite !forallb_app, (hushed_quiet _ K1), (hushed_quiet _ K2), K3. }
  intros actual l5 s5 [[K5 _] (x2 & P5 & X5)]. set (pre := l1 ++ l2 ++ l3 ++ [Slept 500] ++ l5).
  assert (forallb quiet pre = true) as Kpre by (unfold pre; by rewrite !forallb_app, (hushed_quiet _ K1), (hushed_quiet _ K2), K3, K5).
  assert (sights pre = [Shown x1; Waited 500; Shown x2]) as Ppre.
  { unfold pre. by rewrite !sights_app, (hushed_sights _ K1), (hushed_sights _ K2), P3, P5. }
  assert (planned float_repr expected pre) as Gpre by (apply planned_around; [done|by eapply looked_planned]).
  eapply told_weaken.
  2: { intros l o s' H. instantiate (1 := fun l o _ => faithful (pre ++ l) o) in H. unfold pre in H. by rewrite !app_assoc in *. }
  assert (forall l (e : exn), forallb quiet l = true -> faithful (pre ++ l) (Err e)) as Hp by (intros; by apply Hq).
  eapply told_bind; [apply told_unless|intros e l s' (-> & _); by apply Hp|]. intros [] l6 s6 (-> & -> & Hs).
  apply negb_false_iff, bool_decide_eq_true in Hs.
  eapply told_bind; [apply told_commit_window, protection_aside|intros e l s' [K _]; by apply Hp, hushed_quiet|].
  intros [] l7 s7 (K7 & t & V7 & <- & (t0 & w & Ht) & _). specialize (Hc t0 w). rewrite <- Ht in Hc. cbn [app].
  eapply told_weaken; [apply (told_download_tail (identity a) first actual (pre ++ l7) x1 x2 t); try done|].
  - by rewrite forallb_app, Kpre, (hushed_quiet _ K7).
  - apply (planned_around float_repr _ [] pre l7); [done|exact Gpre].
  - by rewrite sights_app, Ppre, (hushed_sights _ K7), app_nil_r.
  - intros l o s' H. by rewrite app_assoc.
Qed.

(** C19. A download changes nothing on the radio, whatever the radio, the database and the
    other sessions do.  It changes the local database in one transaction at most, after two
    equal observations of the presets half a second apart, on the rows whose version it took
    before it asked the radio anything.  Every local row of the device then shows the
    observed preset of its slot, except where the latest mutation of the slot stays open:
    such a row stays as it was, the mutation too, and - where no failing statement raises
    ValueError or IdentityMismatch, which the exceptions of a database are not - it had not
    been seen to be carried out.  A mutation is closed only when its original intent, its backup and the observation agree
    that it was carried out, and the latest mutation of every other slot is closed. *)
Theorem download_is_an_observation s : (forall t w, constrained (others v t w).1) ->
  told log (download_presets float_repr parse_xml fromstring content_xml v find_station) s (fun l o _ => faithful l o).
Proof.
  intros Hc. unfold download_presets. eapply told_try.
  { instantiate (1 := fun l o _ => faithful l o). unfold device_transaction.
    eapply told_bind; [apply (told_asides hushed), asides_ask|intros e l s' [K _]; by apply quiet_nothing, hushed_quiet|].
    intros [] l1 s1 [K1 _].
    eapply told_bind; [by apply (told_asides hushed), asides_emit|intros e l s' [K%hushed_quiet _]; apply quiet_nothing; by rewrite forallb_app, (hushed_quiet _ K1)|].
    intros [] l2 s2 [K2 _]. destruct (told_download_body s2 Hc) as (l & L & H).
    unfold told, finally. destruct (download_body _ _ _ _ _ _ s2) as [o s3]. cbn in L, H |- *. exists (l ++ [Left]).
    split; [by rewrite L, app_assoc|]. rewrite app_assoc. apply (faithful_around _ _ _ o); [by rewrite forallb_app, K1|done|by left|done]. }
  { done. }
  intros e l s1 H. eapply told_bind.
  { instantiate (1 := fun l _ _ => l = []). exists []. by rewrite app_nil_r. }
  { intros x l' s' ->. rewrite <- (app_nil_l (l ++ [])). apply (faithful_around _ _ _ (Err e)); [done|done|by right|done]. }
  intros [] l' s' ->. destruct (caught e); apply told_raise; rewrite <- (app_nil_l (l ++ [] ++ []));
    (apply (faithful_around _ _ _ (Err e)); [done|done|by right|done]).
Qed.
End Downloaded.

(** ** Removing the second preset of the radio of Store *)
Definition demo_removal : res exn removed * session bool :=
  remove_preset demo_floats demo_parse demo_fromstring demo_text demo_env 2 None (demo_session false).

Lemma removal_is_confirmed_witness :
  demo_removal.1 = Ok {| x_id := "0123"; x_revision := 1; x_response_received := false |}
  /\ row_summary demo_removal.2 = ([1], [("DELETE", "LOCAL_COMMIT")])
  /\ told log (remove_preset demo_floats demo_parse demo_fromstring demo_text demo_env 2 None) (demo_session false)
       (fun l o _ => careful demo_floats demo_parse demo_fromstring demo_text 2 l (negb (is_ok o))).
Proof.
  split; [vm_compute; reflexivity|]. split; [vm_compute; reflexivity|].
  apply (removal_is_confirmed demo_floats demo_parse demo_fromstring demo_text demo_env 2 None (demo_session false)). reflexivity.
Defined.

(** The preset is gone, and the other sessions leave the rows of [demo_store]. *)
Definition demo_others : env bool := {|
  device := device demo_env; policy := policy demo_env; Store.write_guard := Store.write_guard demo_env; enter := enter demo_env;
  leave := leave demo_env; connect := connect demo_env; get_xml := get_xml demo_env; post_xml := post_xml demo_env;
  sleep := sleep demo_env; uuid4 := uuid4 demo_env; refresh := refresh demo_env; statement := statement demo_env;
  others := fun _ w => (demo_store, w); commit_fault := commit_fault demo_env |}.
Definition demo_stations (_ : json) (w : bool) : res fault (option Z) * bool := (Ok None, w).
Definition demo_download : res exn download * session bool :=
  download_presets demo_floats demo_parse demo_fromstring demo_text demo_others demo_stations (demo_session true).

Lemma download_is_an_observation_witness :
  is_ok demo_download.1 = true /\ row_summary demo_download.2 = ([1], [])
  /\ told log (download_presets demo_floats demo_parse demo_fromstring demo_text demo_others demo_stations) (demo_session true)
       (fun l o _ => faithful demo_floats demo_parse demo_fromstring demo_text demo_others l o).
Proof.
  split; [vm_compute; reflexivity|]. split; [vm_compute; reflexivity|].
  apply (download_is_an_observation demo_floats demo_parse demo_fromstring demo_text demo_others demo_stations).
  intros t w. split; apply (bool_decide_unpack _); vm_compute; exact I.
Defined.

End Removal.
