(* ===== verification/Writer.v ===== *)
(** * Writing presets

    services/[preset_writer.py] over Store: [write_presets] - a backup, one request per slot,
    readbacks of the whole radio and a stability window - and [apply_prepared_presets], the
    one local commit of every preset operation.  Log lines ([write_masterlog], which catches
    every exception) are left out.  The row of the START backup is known by its path, which
    holds a fresh UUID.  An exception inside [apply_prepared_presets] is handled with the
    mutations prepared until then; [at_] tags it with them. *)
From Stdlib Require Import Ascii String.
From S2P Require Import Prelude PyNum PyStr Json Sha256 Xml Protected Presets Radio Profiles Slots Store.
Import Xml Mutation Store.
#[local] Open Scope string_scope.
#[local] Open Scope list_scope.
#[local] Open Scope Z_scope.

Module Writer.

(** The state of a slot while a write runs. *)
Inductive slot_status : Type := Pending | Unchanged | WrittenWaitingForReadback | OutcomeUnknown | Failed.

Inductive exn : Type :=
| Fault (f : fault)
| PresetWriteFailure (error : string) (slot_results : list (Z * slot_status)) (integrity : option Slots.integrity).
#[global] Instance raises_exn : Radio.Raises exn := Fault.
Definition caught (e : exn) : bool := match e with Fault f => Radio.is_exception f | _ => true end.

(** An exception with the [mutations] prepared when it was raised. *)
Definition trouble : Type := exn * list (Z * string).
#[global] Instance raises_trouble : Radio.Raises trouble := fun f => (Fault f, []).
Definition at_ {S A} (prepared : list (Z * string)) (m : ST S exn A) : ST S trouble A :=
  try_except m (fun e => raise (e, prepared)).

(** [isinstance(exc, (httpx.TransportError, TimeoutError, ConnectionError))]: the fault
    [TransportError] of a request stands for the three. *)
Definition reply_uncertain (e : exn) : bool := match e with Fault Radio.TransportError => true | _ => false end.

(** What is expected of a slot: a summary, or a location with perhaps a source. *)
Inductive item : Type :=
| Parsed (s : Slots.summary)
| Sketch (place : string) (source : option json).

(** A value that no text equals is a boolean here. *)
Definition wanted_of (i : item) : Slots.wanted :=
  match i with
  | Parsed s => Slots.wants s
  | Sketch _ (Some (JStr s)) => [(Slots.Fsource, inl s)]
  | Sketch _ (Some JNull) | Sketch _ None => []
  | Sketch _ (Some _) => [(Slots.Fsource, inr true)]
  end.

(** The list of rows with its report. *)
Inductive report : Type :=
| Verified (uncertain : option Z) (stability : list (Z * string * Slots.overall)) (integrity : Slots.integrity)
| NoOp.
Record PresetSyncResult := { radio_rows : list Slots.summary; integrity : report }.

(** The START of a write. *)
Definition intent_key (m : PresetMutation) : string * Z * string * Z * string * string :=
  (device_id m, button m, operation m, revision m, requested_sha256 m, expected_previous_sha256 m).
Record start := { w_access : access; w_owned : list string; w_keys : list (string * (string * Z * string * Z * string * string));
                  w_version : string; w_before : Slots.PresetObservation }.

Definition start_path (label id : string) : string := (label ++ "/" ++ id ++ "/before.xml")%string.
Definition in_slots (b : Z) : bool := (1 <=? b) && (b <=? 6).

Definition settled (i : Slots.integrity) : bool :=
  Slots.target_verified i && Slots.untouched_slots_verified i && bool_decide (Slots.unexpected_changes i = []).
Definition is_verified (i : Slots.integrity) : bool := bool_decide (Slots.overall_status i = Slots.verified_status).

(** [str(d.get(key) or "")]. *)
Definition text_or_empty (str_of : json -> string) (k : string) (kvs : list (string * json)) : string :=
  match Json.get k kvs with
  | Some (JStr s) => s
  | Some j => if truthy j then str_of j else ""
  | None => ""
  end.

Section Services.
Context (float_repr : Z -> list Z) (str_of : json -> string).
Context (parse_xml : string -> option element) (fromstring : string -> res fault element) (content_xml : string -> nat -> string)
  (reprint : string -> option string) (urlparse : string -> option Slots.url).
Context {W : Type} (v : env W).
(** The ports of the caller, which may read rows but change none, and its [precondition]. *)
Context (expected_summary : Z -> string -> W -> res fault item * W) (effective_item : Preset -> string -> W -> res fault string * W)
  (precondition : W -> res fault unit * W).
(** The value a JSON value has in the column [station_id]. *)
Context (station_column : json -> res fault (option Z)).
#[local] Abbreviation M := (ST (session W) exn).
#[local] Abbreviation local_version := (local_version float_repr v).
#[local] Abbreviation transition := (transition_preset_mutation v).
#[local] Abbreviation refused error := (PresetWriteFailure error [] None).
#[local] Abbreviation compare := (Slots.compare_preset_snapshots parse_xml content_xml reprint urlparse).
#[local] Abbreviation summaries := (Slots.preset_summaries_from_xml parse_xml content_xml).

Definition guard : M unit := ask (write_guard v).
#[local] Abbreviation observe := (observe parse_xml fromstring content_xml v guard).
#[local] Abbreviation unchanged := (unchanged v guard).

Definition device_id_now : M string := d ← get_device v; mret (Radio.device_id d).

(** [except Exception as exc: raise PresetWriteFailure(...)]. *)
Definition or_refuse {A} (m : M A) (error : string) (report : option Slots.integrity) : M A :=
  try_except m (fun e => if caught e then raise (PresetWriteFailure error [] report) else raise e).

(** The attributes of the mutations, in their order. *)
Fixpoint load_all (ids : list string) : M (list PresetMutation) :=
  match ids with
  | [] => mret []
  | id :: ids => m ← attributes v id; rest ← load_all ids; mret (m :: rest)
  end.

Definition invalid_slots (expected : list (Z * string)) : bool :=
  bool_decide (expected = []) || existsb (fun x => negb (in_slots x.1)) expected.

Definition open_start (expected : list (Z * string)) (mutations : list string) (expected_before : option Slots.PresetObservation)
    : M start :=
  a ← open_access parse_xml fromstring v guard true;
  owned ← load_all mutations;
  who ← device_id_now;
  version ← local_version who (map mutation_id owned);
  ask precondition;;
  before ← observe a;
  (if match expected_before with Some o => negb (bool_decide (Slots.slots before = Slots.slots o)) | None => false end
   then raise (Fault Radio.ValueError) else mret tt);;
  (if invalid_slots expected then raise (Fault Radio.ValueError) else mret tt);;
  mret {| w_access := a; w_owned := map mutation_id owned; w_keys := map (fun m => (mutation_id m, intent_key m)) owned;
          w_version := version; w_before := before |}.

Definition backup_at (ref : string) (t : store) : option ConfigBackup :=
  head (List.filter (fun b => bool_decide (path b = ref)) (backups (tables t))).

Definition check_mutation (x : string * (string * Z * string * Z * string * string)) : M unit :=
  m ← refresh_mutation v x.1;
  (if negb (bool_decide (intent_key m = x.2)) then raise (refused "preset original intent changed") else mret tt);;
  t ← read v tables;
  if is_none (original_preset_intent float_repr t m) then raise (refused "preset intent integrity failed") else mret tt.

Definition check (w : start) (ref : string) : M unit :=
  unchanged (w_access w);;
  ask precondition;;
  for_each (w_keys w) check_mutation;;
  who ← device_id_now;
  current ← local_version who (w_owned w);
  (if negb (bool_decide (current = w_version w)) then raise (refused "preset local state/revision changed") else mret tt);;
  stored ← read v (backup_at ref);
  if match stored with
     | Some b => bool_decide (b_device b = who) && bool_decide (sha256_hex (content b) = sha256_hex (Slots.raw (w_before w)))
     | None => false
     end
  then mret tt
  else raise (refused "preset START integrity failed").

(** ** What is expected *)
Fixpoint allowed_origins (expected : list (Z * string)) : res fault (list string) :=
  match expected with
  | [] => Ok []
  | (_, place) :: expected =>
      match urlparse place with
      | None => Err Radio.ValueError
      | Some u => rest ← allowed_origins expected; Ok (match Slots.origin_of u with Some o => o :: rest | None => rest end)
      end
  end.

Definition prepared_of (prepared : list (Z * list (string * json))) (b : Z) : list (string * json) := default [] (lookup_slot b prepared).

Definition expect_slot (prepared : list (Z * list (string * json))) (b : Z) (place : string) : M item :=
  let content := text_or_empty str_of "content_item_xml" (prepared_of prepared b) in
  if empty_str content then ask (expected_summary b place)
  else
    parsed ← lift (summaries (Slots.document_of b content));
    mret match parsed with
         | s :: _ => Parsed s
         | [] => Sketch place (Some (default (JStr "") (Json.get "source" (prepared_of prepared b))))
         end.
Fixpoint expect_slots (prepared : list (Z * list (string * json))) (expected : list (Z * string)) : M (list (Z * item)) :=
  match expected with
  | [] => mret []
  | (b, place) :: expected => i ← expect_slot prepared b place; rest ← expect_slots prepared expected; mret ((b, i) :: rest)
  end.

(** [_preset_projection] of an expected item; [None] when its source is no text. *)
Definition projection_of (i : item) : option Slots.projection :=
  let of_source s place := Slots._preset_projection reprint urlparse
    {| Slots.button := 0; Slots.source := s; Slots.source_account := ""; Slots.kind := ""; Slots.location := place; Slots.item_name := "";
       Slots.container_art := ""; Slots.container_art_present := false; Slots.content_item_xml := "" |} in
  match i with
  | Parsed s => Some (Slots._preset_projection reprint urlparse s)
  | Sketch place None => Some (of_source "" place)
  | Sketch place (Some (JStr s)) => Some (of_source s place)
  | Sketch _ (Some _) => None
  end.

(** ** The requests *)
Definition set_status (b : Z) (st : slot_status) (l : list (Z * slot_status)) : list (Z * slot_status) :=
  map (fun x => if x.1 =? b then (x.1, st) else x) l.

Definition at_most_one {A} (l : list A) : M (option A) :=
  match l with [] => mret None | [x] => mret (Some x) | _ => raise (Fault Radio.OtherException) end.

(** The content item a slot is asked to hold, empty when there is none. *)
Definition content_for (prepared : list (Z * list (string * json))) (b : Z) (place : string) : M string :=
  who ← device_id_now;
  rows ← read v (fun t => List.filter (is_slot who b) (presets (tables t)));
  preset ← at_most_one rows;
  let content := text_or_empty str_of "content_item_xml" (prepared_of prepared b) in
  if negb (empty_str content) then mret content
  else match preset with Some p => ask (effective_item p place) | None => mret "" end.

Definition already_there (before : gmap Z Slots.projection) (b : Z) (i : option item) : bool :=
  Slots._preset_contract_matches urlparse (before !! b) (i ≫= projection_of).

(** One request: [Ok true] when its reply was lost. *)
Definition send_slot (b : Z) (content : string) (slots : list (Z * slot_status)) : M bool :=
  try_except (post v "/storePreset" (Slots.preset_element b content);; mret false)
    (fun e => if reply_uncertain e then mret true
              else if caught e then raise (PresetWriteFailure "radio direct /storePreset failed" (set_status b Failed slots) None)
              else raise e).

(** The slots in their order, until a reply is lost: their states and the uncertain slot. *)
Fixpoint store_slots (w : start) (ref : string) (prepared : list (Z * list (string * json))) (items : list (Z * item))
    (before : gmap Z Slots.projection) (expected : list (Z * string)) (slots : list (Z * slot_status)) : M (list (Z * slot_status) * option Z) :=
  match expected with
  | [] => mret (slots, None)
  | (b, place) :: expected =>
      check w ref;;
      content ← content_for prepared b place;
      if empty_str content then store_slots w ref prepared items before expected slots
      else if already_there before b (lookup_slot b items)
      then store_slots w ref prepared items before expected (set_status b Unchanged slots)
      else
        lost ← send_slot b content slots;
        if lost : bool then mret (set_status b OutcomeUnknown slots, Some b)
        else store_slots w ref prepared items before expected (set_status b WrittenWaitingForReadback slots)
  end.

(** ** The readbacks *)
Section Readbacks.
Context (w : start) (ref : string) (expected : list (Z * string)) (items : list (Z * item)) (allowed : list string).

Definition compared (xml : string) : res fault Slots.integrity :=
  compare (Slots.raw (w_before w)) xml expected (fun b => wanted_of <$> lookup_slot b items) allowed.

(** One observation: [None] when it failed for a reason that may pass.  What is read is kept
    before it is compared; a comparison raises [ValueError] or nothing. *)
Definition look_back : M (option (string * Slots.integrity)) :=
  try_except
    (check w ref;;
     o ← observe (w_access w);
     _ ← lift (summaries (Slots.raw o));
     i ← lift (compared (Slots.raw o));
     mret (Some (Slots.raw o, i)))
    (fun e => match e with
              | Fault (Radio.ValueError | Radio.IdentityMismatch) | PresetWriteFailure _ _ _ =>
                  raise (refused "preset identity or readback precondition changed")
              | Fault f => if Radio.is_exception f then mret None else raise (Fault f)
              end).

Fixpoint read_back (delays : list Z) (last : string) (report : option Slots.integrity) : M (string * option Slots.integrity) :=
  match delays with
  | [] => mret (last, report)
  | ms :: delays =>
      (if ms =? 0 then mret tt else pause v ms);;
      seen ← look_back;
      match seen with
      | None => read_back delays last report
      | Some (xml, i) => if settled i then mret (xml, Some i) else read_back delays xml (Some i)
      end
  end.

(** The stability window: the last document, its report and every readback. *)
Fixpoint stability (delays : list Z) (final : string) (report : Slots.integrity) (acc : list (Z * string * Slots.overall))
    : M (string * Slots.integrity * list (Z * string * Slots.overall)) :=
  match delays with
  | [] => mret (final, report, acc)
  | ms :: delays =>
      pause v ms;;
      o ← or_refuse (check w ref;; observe (w_access w)) "radio preset stability readback failed" (Some report);
      i ← lift (compared (Slots.raw o));
      let acc := acc ++ [(ms, sha256_hex (Slots.raw o), Slots.overall_status i)] in
      if is_verified i then stability delays (Slots.raw o) i acc else mret (Slots.raw o, i, acc)
  end.
End Readbacks.

Definition READBACK_DELAYS : list Z := [0; 500; 500; 500; 500; 500; 500; 500; 500; 500; 500; 500; 1000; 2000; 3000].
Definition STABILITY_DELAYS : list Z := [500; 1000].

Definition save_backup (b : ConfigBackup) : M unit := stage v (fun t => Ok (add_backup b t));; commit_db v.
Definition save_readback (label name xml : string) : M unit :=
  who ← device_id_now;
  save_backup {| b_device := who; path := (label ++ name)%string; content := xml |}.

(** ** [write_presets] *)

(** START becomes durable, and every mutation names it: its path. *)
Definition declare_start (label : string) (w : start) (mutations : list string) : M string :=
  u ← fresh v;
  let ref := start_path label u in
  who ← device_id_now;
  save_backup {| b_device := who; path := ref; content := Slots.raw (w_before w) |};;
  saved ← read v (backup_at ref);
  (if is_none saved then raise (Fault Radio.OtherException) else mret tt);;
  for_each mutations (fun id => transition id "RADIO_WRITE" (Some (Slots.raw (w_before w))) None (Some ref) None None true);;
  mret ref.

Definition written_action (job device ref : string) (expected : list (Z * string)) (before : string) : Radio.action :=
  {| Radio.job_id := job; Radio.a_device := device; Radio.a_action := "preset_sync"; Radio.phase := "VERIFIED";
     Radio.backup_ref := ref; Radio.before_sha256 := sha256_hex before;
     Radio.requested_state := JObj [("slots", JObj (map (fun x => (Slots.decimal x.1, JStr x.2)) expected))];
     Radio.a_verified := true; Radio.error_category := "" |}.

(** From the last readback to the answer. *)
Definition conclude (w : start) (ref : string) (expected : list (Z * string)) (mutations : list string) (uncertain : option Z)
    (final : string) (i : Slots.integrity) (readbacks : list (Z * string * Slots.overall)) : M PresetSyncResult :=
  check w ref;;
  rows ← lift (summaries final);
  (if negb (is_verified i) then raise (PresetWriteFailure "preset integrity check failed during stability window" [] (Some i)) else mret tt);;
  for_each mutations (fun id => transition id "VERIFIED" None (Some final) None None (Some false) true);;
  job ← (match mutations with id :: _ => m ← attributes v id; mret (mutation_id m) | [] => mret "" end);
  who ← device_id_now;
  record_action v (written_action job who ref expected (Slots.raw (w_before w)));;
  commit_db v;;
  check w ref;;
  mret {| radio_rows := rows; integrity := Verified uncertain readbacks i |}.

(** From the last request to the answer. *)
Definition finish (w : start) (ref label : string) (expected : list (Z * string)) (items : list (Z * item)) (allowed : list string)
    (mutations : list string) (uncertain : option Z) : M PresetSyncResult :=
  for_each mutations (fun id => transition id "RADIO_READBACK" None None None None None true);;
  '(last, report) ← read_back w ref expected items allowed READBACK_DELAYS (Slots.raw (w_before w)) None;
  save_readback label "/after-storePreset.xml" last;;
  match report with
  | None => raise (refused "preset integrity check failed after storePreset")
  | Some i =>
      (if negb (is_verified i) then raise (PresetWriteFailure "preset integrity check failed after storePreset" [] (Some i)) else mret tt);;
      '(final, i, readbacks) ← stability w ref expected items allowed STABILITY_DELAYS last i [];
      save_readback label "/after-stable-readback.xml" final;;
      conclude w ref expected mutations uncertain final i readbacks
  end.

Definition write_body (expected : list (Z * string)) (label : string) (prepared : list (Z * list (string * json)))
    (mutations : list string) (expected_before : option Slots.PresetObservation) : M PresetSyncResult :=
  w ← or_refuse (open_start expected mutations expected_before) "preset identity or START precondition failed" None;
  ref ← declare_start label w mutations;
  check w ref;;
  now ← observe (w_access w);
  (if negb (bool_decide (Slots.slots now = Slots.slots (w_before w)))
   then raise (refused "radio presets changed while START persisted") else mret tt);;
  allowed ← lift (allowed_origins expected);
  items ← expect_slots prepared expected;
  rows ← lift (summaries (Slots.raw (w_before w)));
  '(_, uncertain) ← store_slots w ref prepared items (Slots.by_button reprint urlparse rows) expected (map (fun x => (x.1, Pending)) expected);
  finish w ref label expected items allowed mutations uncertain.

Definition write_presets (expected : list (Z * string)) (label : string) (prepared : list (Z * list (string * json)))
    (mutations : list string) (expected_before : option Slots.PresetObservation) : M PresetSyncResult :=
  device_transaction v (write_body expected label prepared mutations expected_before).

(** ** [apply_prepared_presets] *)
Definition OPERATIONS : list string := ["WRITE"; "CLONE"; "ARTWORK"].

(** No mutation of the slot is open, or the last one failed before it reached the radio. *)
Definition slot_is_free (who : string) (b : Z) : M unit :=
  latest ← _latest v who b;
  match latest with
  | Some m => if negb (is_closed m) && negb (bool_decide (state m = "FAILED") && negb (diverged m))
              then raise (Fault Radio.ValueError) else mret tt
  | None => mret tt
  end.

(** Nothing to write: two observations of the expected state, and one commit. *)
Fixpoint watch_unchanged (n : nat) (a : access) (expected_before actual : Slots.PresetObservation) : M Slots.PresetObservation :=
  match n with
  | O => mret actual
  | S n =>
      actual ← observe a;
      (if negb (bool_decide (Slots.slots actual = Slots.slots expected_before)) then raise (Fault Radio.ValueError) else mret tt);;
      pause v 500;;
      watch_unchanged n a expected_before actual
  end.
Definition certify_unchanged (a : access) (previous : string) (expected_before : option Slots.PresetObservation) : M PresetSyncResult :=
  match expected_before with
  | None => raise (Fault Radio.ValueError)
  | Some o =>
      actual ← watch_unchanged 2 a o o;
      commit_window float_repr v guard a previous [];;
      ask precondition;;
      who ← device_id_now;
      save_backup {| b_device := who; path := "/presets"; content := Slots.raw actual |};;
      mret {| radio_rows := Slots.rows actual; integrity := NoOp |}
  end.

(** Before any intent: the access, once everything that was planned still holds. *)
Definition plan (prepared : list (Z * list (string * json))) (operation : string) (previous : string) (expected_local : option string)
    : M access :=
  (if match expected_local with Some e => negb (bool_decide (previous = e)) | None => false end
   then raise (Fault Radio.ValueError) else mret tt);;
  (if negb (bool_decide (operation ∈ OPERATIONS)) then raise (Fault Radio.ValueError) else mret tt);;
  ask precondition;;
  for_each prepared (fun x =>
    who ← device_id_now;
    _ ← lift (Slots.requested_observation parse_xml fromstring content_xml x.1 x.2 who);
    mret tt);;
  for_each prepared (fun x => who ← device_id_now; slot_is_free who x.1);;
  open_access parse_xml fromstring v guard true.

Fixpoint prepare_all (operation : string) (prepared : list (Z * list (string * json))) (done : list (Z * string))
    : ST (session W) trouble (list (Z * string)) :=
  match prepared with
  | [] => mret done
  | (b, intent) :: prepared =>
      m ← at_ done (who ← device_id_now; prepare_preset_mutation float_repr v who b operation (JObj intent));
      prepare_all operation prepared (done ++ [(b, mutation_id m)])
  end.

(** [{slot: str(intent["location"])}]: a [KeyError] where there is none. *)
Fixpoint locations (prepared : list (Z * list (string * json))) : res fault (list (Z * string)) :=
  match prepared with
  | [] => Ok []
  | (b, intent) :: prepared =>
      match Json.get "location" intent with
      | None => Err Radio.OtherException
      | Some j => rest ← locations prepared; Ok ((b, match j with JStr s => s | _ => str_of j end) :: rest)
      end
  end.

Definition adopt (who : string) (prepared : list (Z * list (string * json))) (mutations : list (Z * string)) (i : Slots.summary) : M unit :=
  let b := Slots.button i in
  match lookup_slot b prepared with
  | None => mret tt
  | Some intent =>
      rows ← read v (fun t => List.filter (is_slot who b) (presets (tables t)));
      row ← at_most_one rows;
      station ← lift (station_column (default JNull (Json.get "station_id" intent)));
      stage v (if is_some row then replace_preset (projected who i station) else insert_preset (projected who i station));;
      match lookup_slot b mutations with
      | None => raise (Fault Radio.OtherException)
      | Some id => transition id "LOCAL_COMMIT" None None None None None false
      end
  end.

(** The one transaction that changes the local rows. *)
Definition adopt_all (a : access) (previous : string) (prepared : list (Z * list (string * json))) (mutations : list (Z * string))
    (result : PresetSyncResult) : M unit :=
  commit_window float_repr v guard a previous (map snd mutations);;
  ask precondition;;
  who ← device_id_now;
  for_each (radio_rows result) (adopt who prepared mutations);;
  commit_db v.

(** Once every intent is recorded: the write, and its adoption. *)
Definition write_and_adopt (a : access) (prepared : list (Z * list (string * json))) (label previous : string)
    (expected_before : option Slots.PresetObservation) (mutations : list (Z * string)) : M PresetSyncResult :=
  owned ← load_all (map snd mutations);
  who ← device_id_now;
  version ← local_version who (map mutation_id owned);
  (if negb (bool_decide (version = previous)) then raise (Fault Radio.ValueError) else mret tt);;
  expected ← lift (locations prepared);
  result ← write_presets expected label prepared (map snd mutations) expected_before;
  adopt_all a previous prepared mutations result;;
  mret result.

Definition apply_all (prepared : list (Z * list (string * json))) (operation label : string) (previous : string)
    (expected_before : option Slots.PresetObservation) (expected_local : option string) : ST (session W) trouble PresetSyncResult :=
  a ← at_ [] (plan prepared operation previous expected_local);
  if bool_decide (prepared = []) then at_ [] (certify_unchanged a previous expected_before)
  else
    mutations ← prepare_all operation prepared [];
    at_ mutations (write_and_adopt a prepared label previous expected_before mutations).

(** A mutation of an operation that was not confirmed. *)
Definition mark_failed (x : Z * string) : M unit :=
  try_except
    (m ← refresh_mutation v x.2;
     if is_closed m then mret tt
     else
       let untouched := bool_decide (state m = "PREPARED") in
       transition x.2 (if untouched then "FAILED" else "RECONCILE") None None None (Some "PRESET_APPLY_NOT_CONFIRMED")
         (Some (negb untouched)) true)
    (fun e => if caught e then rollback_db else raise e).

(** [except (Exception, asyncio.CancelledError)]. *)
Definition not_confirmed (e : trouble) : M PresetSyncResult :=
  rollback_db;;
  for_each e.2 mark_failed;;
  if caught e.1
  then raise (PresetWriteFailure "preset apply not confirmed; local rows unchanged" []
                (match e.1 with PresetWriteFailure _ _ i => i | Fault _ => None end))
  else raise e.1.

Definition apply_prepared_presets (prepared : list (Z * list (string * json))) (label operation : string)
    (expected_before : option Slots.PresetObservation) (expected_local : option string) : M PresetSyncResult :=
  device_transaction v (
    guard;;
    (if (bool_decide (prepared = []) && is_none expected_before) || existsb (fun x => negb (in_slots x.1)) prepared
     then raise (refused "invalid or empty preset profile") else mret tt);;
    who ← device_id_now;
    previous ← local_version who [];
    try_except (apply_all prepared operation label previous expected_before expected_local) not_confirmed).
End Services.

(** ** Stretches of a write

    [tame]: no row of a preset changes; [mild], moreover nothing is asked of a radio. *)
Definition tame (e : event) : bool :=
  match e with Committed old new => bool_decide (presets (tables new) = presets (tables old)) | _ => true end.
(** The requests that change a radio. *)
Definition requests (l : list event) : list (string * string * res fault string) :=
  omap (fun e => match e with Posted path xml answer => Some (path, xml, answer) | _ => None end) l.

Lemma requests_app l1 l2 : requests (l1 ++ l2) = requests l1 ++ requests l2.
Proof. apply omap_app. Qed.
Lemma mild_tame l : forallb mild l = true -> forallb tame l = true.
Proof. rewrite !forallb_forall. intros H e He. specialize (H e He). by destruct e. Qed.
Lemma mild_requests l : forallb mild l = true -> requests l = [].
Proof. induction l as [|e l IH]; [done|]. cbn. intros [He Hl]%andb_true_iff. by destruct e; try discriminate; apply IH. Qed.
Lemma hushed_mild l : forallb hushed l = true -> forallb mild l = true.
Proof. intros H. by apply quiet_mild, hushed_quiet. Qed.

Section Facts.
Context (float_repr : Z -> list Z) (str_of : json -> string).
Context (parse_xml : string -> option element) (fromstring : string -> res fault element) (content_xml : string -> nat -> string)
  (reprint : string -> option string) (urlparse : string -> option Slots.url).
Context {W : Type} (v : env W).
Context (expected_summary : Z -> string -> W -> res fault item * W) (effective_item : Preset -> string -> W -> res fault string * W)
  (precondition : W -> res fault unit * W).
#[local] Abbreviation M := (ST (session W) exn).
#[local] Abbreviation check := (check float_repr v precondition).
#[local] Abbreviation look_back := (look_back float_repr parse_xml fromstring content_xml reprint urlparse v precondition).
#[local] Abbreviation read_back := (read_back float_repr parse_xml fromstring content_xml reprint urlparse v precondition).
#[local] Abbreviation stability := (stability float_repr parse_xml fromstring content_xml reprint urlparse v precondition).
#[local] Abbreviation observe := (observe parse_xml fromstring content_xml v (guard v)).
#[local] Abbreviation compared := (compared parse_xml content_xml reprint urlparse).
#[local] Abbreviation parse := (Slots.parse parse_xml fromstring content_xml).

Lemma guard_hushed : steps_in (aside hushed) (guard v).
Proof. apply asides_ask. Qed.
Lemma asides_device_id_now p : steps_in (aside p) (device_id_now v).
Proof. apply steps_in_bind; [apply _|apply asides_get_device|intros d; apply steps_in_ret, _]. Qed.
Lemma calms_device_id_now : steps_in calmly (device_id_now v).
Proof. apply calms_asides, asides_device_id_now. Qed.
Lemma calms_ask {A} (f : W -> res fault A * W) : steps_in calmly (ask f : M A).
Proof. apply calms_asides, asides_ask. Qed.
Lemma calms_lift {A} (r : res fault A) : steps_in calmly (lift r : M A).
Proof. apply calms_asides, asides_lift. Qed.
Lemma calms_load_all ids : steps_in calmly (load_all v ids).
Proof. induction ids as [|id ids IH]; cbn [load_all]; steps. Qed.
Lemma calms_unchanged a : steps_in calmly (unchanged v (guard v) a).
Proof. apply calms_asides, asides_unchanged, guard_hushed. Qed.
Lemma calms_check_mutation x : steps_in calmly (check_mutation float_repr v x).
Proof. unfold check_mutation. steps. Qed.
Lemma calms_check_start w ref : steps_in calmly (check w ref).
Proof.
  pose proof calms_device_id_now. pose proof calms_check_mutation. pose proof calms_unchanged.
  pose proof (@calms_ask unit). pose proof (calms_local_version float_repr v (E := exn)). unfold Writer.check. steps.
Qed.
Lemma milds_observation a : steps_in mildly (observe a).
Proof. apply milds_asides, asides_observe, guard_hushed. Qed.
Lemma milds_check w ref : steps_in mildly (check w ref).
Proof. apply milds_calms, calms_check_start. Qed.
Lemma milds_save_backup b : steps_in mildly (save_backup v b).
Proof. pose proof (milds_add_backup v (E := exn)). unfold save_backup. steps. Qed.
Lemma milds_save_readback label name xml : steps_in mildly (save_readback v label name xml).
Proof. pose proof milds_save_backup. pose proof calms_device_id_now. unfold save_readback. steps. Qed.

Lemma milds_look_back w ref expected items allowed : steps_in mildly (look_back w ref expected items allowed).
Proof.
  pose proof milds_check. pose proof milds_observation. pose proof (fun A => @calms_lift A). unfold Writer.look_back. steps.
Qed.
Lemma milds_read_back w ref expected items allowed delays last report :
  steps_in mildly (read_back w ref expected items allowed delays last report).
Proof.
  pose proof milds_look_back. revert last report. induction delays as [|ms delays IH]; intros last report; cbn [Writer.read_back]; steps.
Qed.
Lemma milds_stability w ref expected items allowed delays final report acc :
  steps_in mildly (stability w ref expected items allowed delays final report acc).
Proof.
  pose proof milds_check. pose proof milds_observation. pose proof (fun A => @calms_lift A). revert final report acc.
  induction delays as [|ms delays IH]; intros final report acc; cbn [Writer.stability]; unfold or_refuse; steps.
Qed.
Lemma milds_open_start expected mutations before :
  steps_in mildly (open_start float_repr parse_xml fromstring content_xml v precondition expected mutations before).
Proof.
  assert (steps_in mildly (open_access parse_xml fromstring v (guard v) true)) as Ho.
  { apply milds_calms, calms_asides, asides_open_access, guard_hushed. }
  pose proof calms_load_all. pose proof calms_device_id_now. pose proof milds_observation. pose proof (@calms_ask unit).
  pose proof (calms_local_version float_repr v (E := exn)). unfold open_start. steps.
Qed.
Lemma milds_declare_start label w mutations : steps_in mildly (declare_start v label w mutations).
Proof. pose proof milds_save_backup. pose proof calms_device_id_now. unfold declare_start. steps. Qed.
Lemma milds_conclude w ref expected mutations uncertain final i readbacks :
  steps_in mildly (conclude float_repr parse_xml content_xml v precondition w ref expected mutations uncertain final i readbacks).
Proof.
  pose proof milds_check. pose proof calms_device_id_now. pose proof (fun A => @calms_lift A). pose proof (milds_record_action v (E := exn)).
  unfold conclude. steps.
Qed.
Lemma calms_content_for prepared b place : steps_in calmly (content_for str_of v effective_item prepared b place).
Proof.
  pose proof calms_device_id_now. pose proof (@calms_ask string). unfold content_for, at_most_one. steps.
Qed.
Lemma calms_expect_slots prepared expected : steps_in calmly (expect_slots str_of parse_xml content_xml expected_summary prepared expected : M _).
Proof.
  assert (forall b place, steps_in calmly (expect_slot str_of parse_xml content_xml expected_summary prepared b place : M _)) as H.
  { intros b place. pose proof (@calms_ask item). pose proof (fun A => @calms_lift A). unfold expect_slot. steps. }
  induction expected as [|[b place] expected IH]; cbn [expect_slots]; steps.
Qed.

(** *** What becomes durable *)
Lemma told_free_now {A} (m : M A) s : view s = None -> steps_in calmly m ->
  told log m s (fun l _ s' => forallb hushed l = true /\ view s' = None).
Proof. intros V Hm. eapply told_weaken; [by apply told_calms|]. intros l r s' (K & _ & Vn). auto. Qed.

Lemma told_save b s :
  told log (save_backup v b) s (fun l r s' => view s' = None /\ match r with
    | Ok _ => exists old new, l = [Committed old new] /\ b ∈ backups (tables new)
    | Err _ => True end).
Proof.
  assert (forall t, b ∈ backups (tables (add_backup b t))) as Hb by (intros t; apply elem_of_app; right; left).
  unfold save_backup. destruct (view s) as [[old t]|] eqn:V.
  - eapply told_bind; [by apply told_stage|by intros e l s' [_ ?]|]. intros [] l1 s1 (-> & t' & [= <-] & V1 & _).
    eapply told_weaken; [by eapply told_commit_rows|]. intros l r s' (V2 & _ & Hl). split; [done|]. destruct r; [|done]. by eexists _, _.
  - eapply told_bind; [by apply told_stage_free|by intros e l s' [_ ?]|]. intros [] l1 s1 (-> & t & t' & [= <-] & V1).
    eapply told_weaken; [by eapply told_commit_rows|]. intros l r s' (V2 & _ & Hl). split; [done|]. destruct r; [|done]. by eexists _, _.
Qed.

(** A transition of its own transaction is durable with the rows it found. *)
Definition moved (id target : string) (before after backup : option string) (div : option bool) (l : list event) : Prop :=
  exists m m' old new, Committed old new ∈ l /\ mutation_id m = id
    /\ Mutation.transition_preset_mutation m target before after backup None div = Ok m' /\ update_mutation m m' old = Ok new.

Lemma moved_lasting id target b a r d : lasting (moved id target b a r d).
Proof.
  intros l1 l l2 (m & m' & old & new & Hin & H). exists m, m', old, new. split; [|done].
  apply elem_of_app. right. apply elem_of_app. by left.
Qed.

Lemma told_attributes_free id s : view s = None ->
  told log (attributes v id : M PresetMutation) s (fun l r s' => l = [] /\ view s' = None
    /\ match r with Ok m => mutation_id m = id | Err _ => True end).
Proof.
  intros V. eapply told_bind_now; [reflexivity|]. fold (known id s). destruct (known id s) as [m|] eqn:Hk.
  - apply told_ret. split_and!; [done..|by eapply known_id].
  - by apply told_refresh_free.
Qed.

Lemma told_move id target before after backup div s : view s = None ->
  told log (transition_preset_mutation v id target before after backup None div true : M unit) s (fun l r s' => forallb mild l = true
    /\ match r with Ok _ => view s' = None /\ moved id target before after backup div l | Err _ => True end).
Proof.
  intros V. assert (tidy s) as T by (unfold tidy; by rewrite V).
  eapply told_weaken; [apply told_both; [apply told_milds; [apply milds_transition|exact T]|]|].
  2: { intros l r s' [[K _] H]. split; [exact K|exact H]. }
  eapply told_bind; [by apply told_attributes_free|done|]. intros m l1 s1 (-> & V1 & Hid).
  destruct (Mutation.transition_preset_mutation _ _ _ _ _ _ _) as [m'|e] eqn:Ht; [|by apply told_raise].
  eapply told_bind; [by apply told_alter_free|done|].
  intros [] l2 s2 (-> & t & t' & Hu & V2). eapply told_bind; [apply told_put|done|]. intros [] l3 s3 (-> & _ & V3 & _).
  eapply told_weaken; [apply (told_commit_rows v t t'); congruence|]. intros l r s' (V4 & _ & Hl). destruct r as [[]|]; [|done].
  subst l. split; [done|]. exists m, m', t, t'. split; [left|done].
Qed.

Lemma told_moves ids target before after backup div s : view s = None ->
  told log (for_each ids (fun id => transition_preset_mutation v id target before after backup None div true) : M unit) s
    (fun l r s' => forallb mild l = true
       /\ match r with Ok _ => view s' = None /\ forall id, id ∈ ids -> moved id target before after backup div l | Err _ => True end).
Proof.
  revert s. induction ids as [|id ids IH]; intros s V; cbn [for_each].
  { apply told_ret. split; [done|]. split; [done|]. by intros id ?%elem_of_nil. }
  eapply told_bind; [by apply told_move|by intros e l s' [K _]|]. intros [] l1 s1 (K1 & V1 & H1).
  eapply told_weaken; [by apply IH|]. intros l r s' [K H]. rewrite forallb_app, K1, K. split; [done|]. destruct r as [[]|]; [|done].
  destruct H as [V' H]. split; [done|]. intros x [->|Hx]%elem_of_cons; [exact (moved_lasting _ _ _ _ _ _ [] l1 l H1)|].
  pose proof (moved_lasting _ _ _ _ _ _ l1 l [] (H x Hx)) as H'. by rewrite app_nil_r in H'.
Qed.

(** START: what was read of the radio is saved under a path, and every mutation names it. *)
Definition saved (w : start) (label ref : string) (mutations : list string) (l : list event) : Prop :=
  (exists id, ref = start_path label id)
  /\ (exists old new who, Committed old new ∈ l
        /\ {| b_device := who; path := ref; content := Slots.raw (w_before w) |} ∈ backups (tables new))
  /\ forall id, id ∈ mutations -> moved id "RADIO_WRITE" (Some (Slots.raw (w_before w))) None (Some ref) None l.

Lemma told_declare_start label w mutations s : view s = None ->
  told log (declare_start v label w mutations) s (fun l r s' => forallb mild l = true
    /\ match r with Ok ref => view s' = None /\ saved w label ref mutations l | Err _ => True end).
Proof.
  intros V. assert (tidy s) as T by (unfold tidy; by rewrite V).
  eapply told_weaken; [apply told_both; [apply told_milds; [apply (milds_declare_start label w mutations)|exact T]|]|].
  2: { intros l r s' [[K _] H]. split; [exact K|exact H]. }
  unfold declare_start. eapply told_bind; [apply told_fresh|done|]. intros u l1 s1 (-> & V1). rewrite V in V1.
  eapply told_bind; [apply told_free_now; [exact V1|apply calms_device_id_now]|done|]. intros who l2 s2 [K2 V2].
  eapply told_bind; [apply told_save|done|]. intros [] l3 s3 (V3 & old & new & -> & Hb).
  eapply told_bind; [apply told_free_now; [exact V3|apply calms_read]|done|]. intros found l4 s4 [K4 V4].
  eapply told_bind; [apply told_unless|done|]. intros [] l5 s5 (-> & -> & _).
  eapply told_bind; [by apply told_moves|done|]. intros [] l6 s6 (K6 & V6 & Hm). apply told_ret. split; [done|].
  assert (forall l0 id, id ∈ mutations -> moved id "RADIO_WRITE" (Some (Slots.raw (w_before w))) None (Some (start_path label u)) None (l0 ++ l6)) as Hl.
  { intros l0 id Hid. pose proof (moved_lasting _ _ _ _ _ _ l0 l6 [] (Hm id Hid)) as H'. by rewrite app_nil_r in H'. }
  rewrite app_nil_r. split; [by exists u|]. split; [|intros id Hid; rewrite !app_assoc; auto].
  exists old, new, who. split; [|congruence]. repeat (rewrite elem_of_app || rewrite elem_of_cons). tauto.
Qed.

(** *** Readbacks *)
Lemma settled_verified i : settled i = is_verified i.
Proof.
  unfold settled, is_verified, Slots.overall_status. destruct (Slots.unexpected_changes i) as [|u l].
  - by destruct (Slots.target_verified i), (Slots.untouched_slots_verified i).
  - rewrite (bool_decide_false (_ :: _ = [])) by done. by rewrite andb_false_r.
Qed.

Lemma parse_of xml who o : parse xml who = Ok o -> Slots.raw o = xml.
Proof.
  unfold Slots.parse. intros (root & _ & (slots & _ & (rows & _ & [= <-])%bind_Ok)%bind_Ok)%bind_Ok. done.
Qed.

Section Seen.
Context (w : start) (ref : string) (expected : list (Z * string)) (items : list (Z * item)) (allowed : list string).

(** A document of the radio that the comparison finds as it should be. *)
Definition fine (xml : string) : Prop :=
  exists o i, parse xml (identity (w_access w)) = Ok o /\ compared w expected items allowed xml = Ok i /\ is_verified i = true.

Lemma told_checks s : told log (check w ref) s (fun l _ _ => sights l = []).
Proof. eapply told_weaken; [apply told_calms, calms_check_start|]. intros l r s' (K & _). by apply hushed_sights. Qed.

Lemma told_look_back s :
  told log (look_back w ref expected items allowed) s (fun l r _ => match r with
    | Ok (Some (xml, i)) => sights l = [Shown xml] /\ compared w expected items allowed xml = Ok i
                            /\ exists o, parse xml (identity (w_access w)) = Ok o
    | _ => True end).
Proof.
  unfold Writer.look_back. eapply (told_try _ _ _ _ (fun l r _ => match r with
    | Ok (Some (xml, i)) => sights l = [Shown xml] /\ compared w expected items allowed xml = Ok i
                            /\ exists o, parse xml (identity (w_access w)) = Ok o
    | _ => True end)); [|done|].
  - eapply told_bind; [apply told_checks|done|]. intros [] l1 s1 K1.
    eapply told_bind; [apply told_sight, guard_hushed|done|]. intros o l2 s2 (xml & K2 & Ho).
    pose proof (parse_of _ _ _ Ho) as Hr. rewrite Hr.
    eapply told_bind; [apply told_lift_result|done|]. intros rows l3 s3 (-> & _).
    eapply told_bind; [apply told_lift_result|done|]. intros i l4 s4 (-> & Hi). apply told_ret.
    rewrite !sights_app, K1, K2. split; [done|]. split; [done|]. by exists o.
  - intros e l s1 _. destruct e as [[]|]; try by apply told_raise. all: by apply told_ret.
Qed.

(** A readback that ends well ends with a document that is fine. *)
Lemma told_readbacks delays last report s : (forall i, report = Some i -> is_verified i = false) ->
  told log (read_back w ref expected items allowed delays last report) s (fun l r _ => match r with
    | Ok (xml, Some i) => is_verified i = true ->
        exists xs, sights l = xs ++ [Shown xml] /\ fine xml /\ compared w expected items allowed xml = Ok i
    | _ => True end).
Proof.
  revert last report s. induction delays as [|ms delays IH]; intros last report s Hr; cbn [Writer.read_back].
  { apply told_ret. destruct report as [i|]; [|done]. intros Hi. rewrite (Hr i eq_refl) in Hi. done. }
  eapply told_bind; [apply (told_asides quiet)|by intros e l s' _|]. { destruct (ms =? 0); [apply steps_in_ret, _|by apply asides_pause]. }
  intros [] l1 s1 _. eapply told_bind; [apply told_look_back|done|]. intros seen l2 s2 Hs.
  destruct seen as [[xml i]|].
  - destruct Hs as (K2 & Hi & o & Ho). destruct (settled i) eqn:Hv; rewrite settled_verified in Hv.
    + apply told_ret. intros _. exists (sights l1). rewrite !sights_app, K2, ?app_nil_r. split; [done|]. split; [by exists o, i|done].
    + eapply told_weaken; [apply IH; by intros j [= <-]|]. intros l r s' H. destruct r as [[xml' [j|]]|]; try done.
      intros Hj. destruct (H Hj) as (xs & Hx & H'). exists (sights l1 ++ [Shown xml] ++ xs). split; [|done].
      by rewrite !sights_app, K2, Hx, !app_assoc.
  - eapply told_weaken; [by apply IH|]. intros l r s' H. destruct r as [[xml' [j|]]|]; try done.
    intros Hj. destruct (H Hj) as (xs & Hx & H'). exists (sights l1 ++ sights l2 ++ xs). split; [|done].
    by rewrite !sights_app, Hx, !app_assoc.
Qed.

Lemma told_checked_look error report s :
  told log (or_refuse (check w ref;; observe (w_access w)) error report) s (fun l r _ => match r with
    | Ok o => exists xml, sights l = [Shown xml] /\ parse xml (identity (w_access w)) = Ok o
    | Err _ => True end).
Proof.
  unfold or_refuse. eapply (told_try _ _ _ _ (fun l r _ => match r with
    | Ok o => exists xml, sights l = [Shown xml] /\ parse xml (identity (w_access w)) = Ok o
    | Err _ => True end)); [|done|].
  - eapply told_bind; [apply told_checks|done|]. intros [] l2 s2 K2.
    eapply told_weaken; [apply told_sight, guard_hushed|]. intros l r s' H. destruct r as [o|]; [|done].
    destruct H as (xml & K & Ho). exists xml. by rewrite sights_app, K2, K.
  - intros e l s' _. by destruct (caught e); apply told_raise.
Qed.

(** A document after every delay. *)
Definition paced (delays : list Z) (xs : list string) : list sight :=
  List.concat (zip_with (fun ms x => [Waited ms; Shown x]) delays xs).

(** A stability window that ends well read a fine document after every delay. *)
Lemma told_stability delays final report acc s :
  told log (stability w ref expected items allowed delays final report acc) s (fun l r _ => match r with
    | Ok (xml, i, _) => is_verified i = true -> compared w expected items allowed final = Ok report ->
        compared w expected items allowed xml = Ok i
        /\ exists xs, sights l = paced delays xs /\ length xs = length delays /\ Forall fine xs /\ last_opt (final :: xs) = Some xml
    | Err _ => True end).
Proof.
  revert final report acc s. induction delays as [|ms delays IH]; intros final report acc s; cbn [Writer.stability].
  { apply told_ret. intros Hi Hc. split; [done|]. by exists []. }
  eapply told_bind; [apply told_pause|done|]. intros [] l1 s1 [_ ->].
  eapply told_bind; [apply told_checked_look|done|].
  intros o l2 s2 (xml & K2 & Ho). pose proof (parse_of _ _ _ Ho) as Hr. rewrite Hr.
  eapply told_bind; [apply told_lift_result|done|]. intros i l3 s3 (-> & Hi).
  destruct (is_verified i) eqn:Hv.
  - eapply told_weaken; [apply IH|]. intros l r s' H. destruct r as [[[xml' j] ?]|]; [|done]. intros Hj Hc.
    destruct (H Hj Hi) as (Hc' & xs & Hx & Hlen & Hall & Hlast). split; [done|]. exists (xml :: xs).
    rewrite !sights_app, K2, Hx. cbn. split; [done|]. split; [congruence|]. split; [|done].
    constructor; [by exists o, i|done].
  - apply told_ret. intros Hj. congruence.
Qed.
End Seen.

(** *** Stretches without a request *)
Definition mute (e : event) : bool := match e with Got _ _ | Posted _ _ _ | Slept _ => false | _ => true end.
Definition mutely (s s' : session W) : Prop := exists l, log s' = log s ++ l /\ forallb mute l = true.

#[local] Instance mutely_preorder : PreOrder mutely.
Proof.
  split.
  - intros s. exists []. by rewrite app_nil_r.
  - intros s1 s2 s3 (l1 & L1 & K1) (l2 & L2 & K2). exists (l1 ++ l2). by rewrite L2, L1, app_assoc, forallb_app, K1, K2.
Qed.
Lemma mute_sights l : forallb mute l = true -> sights l = [].
Proof. induction l as [|e l IH]; [done|]. cbn. intros [He Hl]%andb_true_iff. by destruct e; try discriminate; apply IH. Qed.
Lemma hushed_mute l : forallb hushed l = true -> forallb mute l = true.
Proof. rewrite !forallb_forall. intros H e He. specialize (H e He). by destruct e. Qed.
Lemma mutes_calms {A} (m : M A) : steps_in calmly m -> steps_in mutely m.
Proof. apply steps_in_weaken. intros s s' (_ & _ & l & L & K). exists l. split; [done|by apply hushed_mute]. Qed.
Lemma mutes_silent {A} (m : M A) : (forall s, log (m s).2 = log s) -> steps_in mutely m.
Proof. intros H s. exists []. by rewrite app_nil_r, H. Qed.
Lemma mutes_alter f : steps_in mutely (alter v f : M unit).
Proof.
  apply mutes_silent. intros s. unfold alter, reserve, rewrite_view, mbind, st_bind.
  destruct (statement v (world s)) as [[e|] w]; [done|]. destruct (view s) as [[old t]|] eqn:V; cbn.
  - rewrite V. by destruct (f t).
  - destruct (others v (disk s) w) as [t w']. cbn. by destruct (f t).
Qed.
Lemma mutes_stage f : steps_in mutely (stage v f : M unit).
Proof. apply steps_in_bind; [apply _|apply mutes_alter|intros _]. by apply mutes_silent. Qed.
Lemma mutes_commit : steps_in mutely (commit_db v : M unit).
Proof.
  intros s. unfold commit_db. destruct (view s) as [[old t]|]; [|exists []; by rewrite app_nil_r].
  destruct (commit_fault v (world s)) as [[[e []]|] w]; [by eexists [_]|exists []; by rewrite app_nil_r|by eexists [_]].
Qed.
Lemma mutes_transition id target b a r e d commit : steps_in mutely (transition_preset_mutation v id target b a r e d commit : M unit).
Proof.
  apply steps_in_bind; [apply _|apply mutes_calms, calms_attributes|intros m].
  destruct (Mutation.transition_preset_mutation _ _ _ _ _ _ _) as [m'|]; [|apply steps_in_raise, _].
  apply steps_in_bind; [apply _|apply mutes_alter|intros _].
  apply steps_in_bind; [apply _|apply mutes_calms, calms_put|intros _]. destruct commit; [apply mutes_commit|apply mutes_calms, calms_flush].
Qed.
Lemma mutes_save_readback label name xml : steps_in mutely (save_readback v label name xml).
Proof.
  apply steps_in_bind; [apply _|apply mutes_calms, calms_device_id_now|intros who].
  apply steps_in_bind; [apply _|apply mutes_stage|intros _; apply mutes_commit].
Qed.
Lemma mutes_conclude w ref expected mutations uncertain final i readbacks :
  steps_in mutely (conclude float_repr parse_xml content_xml v precondition w ref expected mutations uncertain final i readbacks).
Proof.
  assert (steps_in mutely (check w ref)) as Hc by apply mutes_calms, calms_check_start.
  pose proof mutes_commit. pose proof mutes_transition.
  assert (forall a, steps_in mutely (record_action v a : M unit)) as Hr.
  { intros a. apply steps_in_bind; [apply _|apply mutes_stage|intros _; apply mutes_calms, calms_flush]. }
  assert (steps_in mutely (device_id_now v)) as Hd by apply mutes_calms, calms_device_id_now.
  assert (forall id, steps_in mutely (attributes v id : M PresetMutation)) as Ha by (intros; apply mutes_calms, calms_attributes).
  assert (forall A (r : res fault A), steps_in mutely (lift r : M A)) as Hl by (intros; apply mutes_calms, calms_lift).
  unfold conclude. steps.
Qed.

(** A stretch of mild steps, and one that is mute besides. *)
Lemma told_mild {A} (m : M A) s : view s = None -> steps_in mildly m -> told log m s (fun l _ s' => forallb mild l = true /\ tidy s').
Proof. intros V Hm. apply told_milds; [done|]. unfold tidy. by rewrite V. Qed.
Lemma told_mute {A} (m : M A) s : steps_in mutely m -> told log m s (fun l _ _ => sights l = []).
Proof. intros Hm. destruct (Hm s) as (l & L & K). exists l. split; [done|]. by apply mute_sights. Qed.

(** *** The requests *)
Definition request_of (x : Z * string * res fault string) : string * string * res fault string :=
  ("/storePreset", Slots.preset_element x.1.1 x.1.2, x.2).
Definition prepared_text (prepared : list (Z * list (string * json))) (b : Z) : string :=
  text_or_empty str_of "content_item_xml" (prepared_of prepared b).

(** Each slot is asked for once at most, in the order of the plan, with the content that was
    prepared for it, and nothing is asked after a request without an answer. *)
Definition asked (prepared : list (Z * list (string * json))) (expected : list (Z * string)) (l : list event)
    (sent : list (Z * string * res fault string)) : Prop :=
  requests l = map request_of sent
  /\ sublist (map (fun x => x.1.1) sent) (map fst expected)
  /\ Forall (fun x => prepared_text prepared x.1.1 <> "" -> x.1.2 = prepared_text prepared x.1.1) sent
  /\ Forall (fun x => is_ok x.2 = true) (removelast sent).

Lemma told_send_slot b content slots s :
  told log (send_slot v b content slots) s (fun l r s' => rows_of s' = rows_of s
    /\ exists answer, l = [Posted "/storePreset" (Slots.preset_element b content) answer]
       /\ match r with Ok false => is_ok answer = true | Ok true => answer = Err Radio.TransportError | Err _ => True end).
Proof.
  unfold told, send_slot, try_except, post, call, mbind, st_bind. destruct (post_xml v _ _ (world s)) as [[a|x] w]; cbn.
  - eexists [_]. split; [done|]. split; [done|]. by eexists.
  - destruct x; cbn; eexists [_]; (split; [done|]); (split; [done|]); by eexists.
Qed.

Lemma told_content_for prepared b place s :
  told log (content_for str_of v effective_item prepared b place) s (fun l r _ =>
    match r with Ok c => prepared_text prepared b <> "" -> c = prepared_text prepared b | Err _ => True end).
Proof.
  unfold content_for.
  eapply told_bind; [apply (told_calms _ _ calms_device_id_now)|done|]. intros who l1 s1 _.
  eapply told_bind; [apply told_calms, calms_read|done|]. intros rows l2 s2 _.
  eapply told_bind; [apply told_calms; unfold at_most_one; steps|done|]. intros preset l3 s3 _.
  fold (prepared_text prepared b). destruct (empty_str (prepared_text prepared b)) eqn:He; cbn [negb].
  - assert (prepared_text prepared b = "") as Hc by (by destruct (prepared_text prepared b)). destruct preset as [p|]; [|by apply told_ret].
    eapply told_weaken; [apply told_calms, calms_ask|]. intros l r s' _. by destruct r.
  - by apply told_ret.
Qed.

Lemma asked_nothing prepared expected l : requests l = [] -> asked prepared expected l [].
Proof. intros H. split; [done|]. split; [apply sublist_nil_l|]. by split. Qed.

Lemma asked_skip prepared x expected l0 l sent : requests l0 = [] -> asked prepared expected l sent -> asked prepared (x :: expected) (l0 ++ l) sent.
Proof.
  intros H0 (H1 & H2 & H3 & H4). split; [by rewrite requests_app, H0|]. split; [|done]. by apply sublist_cons.
Qed.

Lemma asked_more prepared b place expected l0 c answer l sent :
  requests l0 = [] -> (prepared_text prepared b <> "" -> c = prepared_text prepared b) -> (sent = [] \/ is_ok answer = true) ->
  asked prepared expected l sent ->
  asked prepared ((b, place) :: expected) (l0 ++ Posted "/storePreset" (Slots.preset_element b c) answer :: l) ((b, c, answer) :: sent).
Proof.
  intros H0 Hc Ha (H1 & H2 & H3 & H4). split; [rewrite requests_app, H0; cbn [map app]; by rewrite <- H1|].
  split; [by apply sublist_skip|]. split; [by constructor|]. cbn. destruct sent as [|x sent]; [done|]. constructor; [|done].
  by destruct Ha.
Qed.

(** The outcome of the requests: all were answered, or the last one was not. *)
Definition outcome (sent : list (Z * string * res fault string)) (uncertain : option Z) : Prop :=
  match uncertain with
  | None => Forall (fun x => is_ok x.2 = true) sent
  | Some b => exists c, last_opt sent = Some (b, c, Err Radio.TransportError)
  end.

Lemma outcome_more x sent u : is_ok x.2 = true -> outcome sent u -> outcome (x :: sent) u.
Proof.
  intros Hx. destruct u as [b|]; cbn; [|by constructor]. intros [c H]. exists c. by destruct sent.
Qed.

Lemma hushed_requests l : forallb hushed l = true -> requests l = [].
Proof. intros H. by apply mild_requests, hushed_mild. Qed.

Lemma told_store_slots w ref prepared items before expected slots s :
  told log (store_slots float_repr str_of reprint urlparse v effective_item precondition w ref prepared items before expected slots) s
    (fun l r _ => forallb tame l = true /\ exists sent, asked prepared expected l sent
       /\ match r with Ok (_, uncertain) => outcome sent uncertain | Err _ => True end).
Proof.
  revert slots s. induction expected as [|[b place] expected IH]; intros slots s; cbn [store_slots].
  { apply told_ret. split; [done|]. exists []. split; [by apply asked_nothing|]. by constructor. }
  assert (forall l, forallb hushed l = true -> forallb tame l = true /\ exists sent, asked prepared ((b, place) :: expected) l sent /\ True) as Hq.
  { intros l K. split; [by apply mild_tame, hushed_mild|]. exists []. split; [|done]. by apply asked_nothing, hushed_requests. }
  eapply told_bind; [apply told_calms, calms_check_start|intros e l s' [K _]; auto|]. intros [] l1 s1 [K1 _].
  eapply told_bind; [apply told_both; [apply told_calms, calms_content_for|apply told_content_for]| |].
  { intros e l s' [[K _] _]. apply Hq. by rewrite forallb_app, K1. }
  intros c l2 s2 [[K2 _] Hc].
  assert (requests (l1 ++ l2) = []) as R12 by (by rewrite requests_app, !hushed_requests).
  assert (forallb tame (l1 ++ l2) = true) as T12 by (apply mild_tame, hushed_mild; by rewrite forallb_app, K1).
  assert (forall st, told log (store_slots float_repr str_of reprint urlparse v effective_item precondition w ref prepared items before expected st) s2
    (fun l r _ => forallb tame (l1 ++ l2 ++ l) = true /\ exists sent, asked prepared ((b, place) :: expected) (l1 ++ l2 ++ l) sent
       /\ match r with Ok (_, u) => outcome sent u | Err _ => True end)) as Hskip.
  { intros st. eapply told_weaken; [apply IH|]. intros l r s' [T (sent & Ha & Hr)]. rewrite app_assoc. split; [by rewrite forallb_app, T12|].
    exists sent. split; [by apply asked_skip|done]. }
  destruct (empty_str c); [apply Hskip|]. destruct (already_there _ _ _ _ _); [apply Hskip|].
  eapply told_bind; [apply told_send_slot| |].
  { intros e l s' [_ (answer & -> & _)]. rewrite app_assoc. split; [by rewrite forallb_app, T12|]. exists [(b, c, answer)]. split; [|done].
    apply asked_more; [done|done|by left|by apply asked_nothing]. }
  intros lost l3 s3 [_ (answer & -> & Ho)]. destruct lost.
  - apply told_ret. rewrite !app_assoc, app_nil_r. split; [by rewrite forallb_app, T12|]. exists [(b, c, answer)]. split.
    + apply asked_more; [done|done|by left|by apply asked_nothing].
    + exists c. cbn. by rewrite Ho.
  - eapply told_weaken; [apply IH|]. intros l r s' [T (sent & Ha & Hr)]. rewrite app_assoc. split; [by rewrite forallb_app, T12|].
    exists ((b, c, answer) :: sent). split; [apply asked_more; auto|]. destruct r as [[st u]|]; [|done]. by apply outcome_more.
Qed.

(** *** The whole write *)
#[local] Abbreviation summaries := (Slots.preset_summaries_from_xml parse_xml content_xml).
#[local] Abbreviation open_start := (open_start float_repr parse_xml fromstring content_xml v precondition).

(** An expected item is the prepared content, read as the radio's documents are. *)
Definition meant (prepared : list (Z * list (string * json))) (x : Z * string) (y : Z * item) : Prop :=
  y.1 = x.1 /\ (prepared_text prepared x.1 <> "" ->
    match summaries (Slots.document_of x.1 (prepared_text prepared x.1)) with
    | Ok (s :: _) => y.2 = Parsed s
    | Ok [] => exists src, y.2 = Sketch x.2 src
    | Err _ => False
    end).

Lemma told_expect_slots prepared expected s :
  told log (expect_slots str_of parse_xml content_xml expected_summary prepared expected : M _) s (fun l r _ =>
    match r with Ok items => Forall2 (meant prepared) expected items | Err _ => True end).
Proof.
  revert s. induction expected as [|[b place] expected IH]; intros s; cbn [expect_slots]; [by apply told_ret|].
  eapply told_bind.
  { instantiate (1 := fun l r _ => match r with Ok i => meant prepared (b, place) (b, i) | Err _ => True end).
    unfold expect_slot. fold (prepared_text prepared b). destruct (empty_str (prepared_text prepared b)) eqn:He.
    - assert (prepared_text prepared b = "") as Hc by (by destruct (prepared_text prepared b)).
      eapply told_weaken; [apply told_calms, calms_ask|]. intros l r s' _. destruct r as [i|]; [|done]. by split.
    - eapply told_bind; [apply told_lift_result|done|]. intros parsed l1 s1 (_ & Hp). apply told_ret. split; [done|]. intros _.
      cbn [fst snd]. rewrite Hp. destruct parsed; [by eexists|done]. }
  { done. }
  intros i l1 s1 Hi. eapply told_bind; [apply IH|done|]. intros rest l2 s2 Hr. apply told_ret. by constructor.
Qed.

Lemma told_open_start expected mutations before s : view s = None ->
  told log (open_start expected mutations before) s (fun l r s' => forallb mild l = true /\ match r with
    | Ok w => view s' = None /\ invalid_slots expected = false
              /\ exists xml, xml ∈ presets_seen l /\ parse xml (identity (w_access w)) = Ok (w_before w)
    | Err _ => True end).
Proof.
  intros V. assert (tidy s) as T by (unfold tidy; by rewrite V).
  eapply told_weaken; [apply told_both; [apply told_milds; [apply (milds_open_start expected mutations before)|exact T]|]|].
  2: { intros l r s' [[K _] H]. split; [exact K|exact H]. }
  unfold Writer.open_start.
  eapply told_bind; [apply told_free_now; [exact V|apply calms_asides, asides_open_access, guard_hushed]|done|]. intros a l1 s1 [_ V1].
  eapply told_bind; [apply told_free_now; [exact V1|apply calms_load_all]|done|]. intros owned l2 s2 [_ V2].
  eapply told_bind; [apply told_free_now; [exact V2|apply calms_device_id_now]|done|]. intros who l3 s3 [_ V3].
  eapply told_bind; [apply told_free_now; [exact V3|apply calms_local_version]|done|]. intros version l4 s4 [_ V4].
  eapply told_bind; [apply told_free_now; [exact V4|apply calms_ask]|done|]. intros [] l5 s5 [_ V5].
  eapply told_bind; [apply told_observation, guard_hushed|done|]. intros o l6 s6 [[_ [= _ V6 _ _]] (xml & K6 & Ho)]. rewrite V5 in V6.
  eapply told_bind; [apply told_unless|done|]. intros [] l7 s7 (-> & -> & _).
  eapply told_bind; [apply told_unless|done|]. intros [] l8 s8 (-> & -> & Hi). apply told_ret. split; [done|]. split; [done|].
  exists xml. split; [|done]. rewrite !presets_seen_app, K6. rewrite !elem_of_app. do 5 right. left. left.
Qed.

(** Before the first request: the radio was read, START is saved and named by every
    mutation, and the radio showed the same again. *)
Definition begun (w : start) (label ref : string) (mutations : list string) (l : list event) : Prop :=
  exists l1 l2 l3, l = l1 ++ l2 ++ l3
    /\ (exists xml, xml ∈ presets_seen l1 /\ parse xml (identity (w_access w)) = Ok (w_before w))
    /\ saved w label ref mutations l2
    /\ exists xml o, xml ∈ presets_seen l3 /\ parse xml (identity (w_access w)) = Ok o /\ Slots.slots o = Slots.slots (w_before w).

(** After the last request: three readbacks, the second half a second after the first and
    the third a second after that, all fine. *)
Definition confirmed (w : start) (prepared : list (Z * list (string * json))) (expected : list (Z * string))
    (sent : list (Z * string * res fault string)) (l : list event) (r : PresetSyncResult) : Prop :=
  exists items allowed i uncertain readbacks xs x1 x2 x3,
    Forall2 (meant prepared) expected items /\ allowed_origins urlparse expected = Ok allowed
    /\ sights l = xs ++ [Shown x1; Waited 500; Shown x2; Waited 1000; Shown x3]
    /\ Forall (fine w expected items allowed) [x1; x2; x3]
    /\ compared w expected items allowed x3 = Ok i /\ is_verified i = true /\ summaries x3 = Ok (radio_rows r)
    /\ integrity r = Verified uncertain readbacks i /\ outcome sent uncertain.

(** What one write tells. *)
Definition wrote (prepared : list (Z * list (string * json))) (expected : list (Z * string)) (label : string) (mutations : list string)
    (l : list event) (o : option PresetSyncResult) : Prop :=
  exists w ref l1 l2 l3 sent, l = l1 ++ l2 ++ l3 /\ forallb mild l1 = true /\ forallb tame l2 = true /\ forallb mild l3 = true
    /\ invalid_slots expected = false /\ begun w label ref mutations l1 /\ asked prepared expected l2 sent
    /\ match o with Some r => confirmed w prepared expected sent l3 r | None => True end.
Definition careful (prepared : list (Z * list (string * json))) (expected : list (Z * string)) (label : string) (mutations : list string)
    (l : list event) (o : option PresetSyncResult) : Prop :=
  (forallb mild l = true /\ o = None) \/ wrote prepared expected label mutations l o.

Definition result_of {E A} (r : res E A) : option A := match r with Ok a => Some a | Err _ => None end.

Lemma careful_between prepared expected label mutations l0 l l' (o : option PresetSyncResult) :
  forallb mild l0 = true -> forallb mild l' = true -> sights l' = [] \/ o = None ->
  careful prepared expected label mutations l o -> careful prepared expected label mutations (l0 ++ l ++ l') o.
Proof.
  intros K0 K' Hn [[K Ho]|(w & ref & l1 & l2 & l3 & sent & -> & K1 & K2 & K3 & Hi & (p1 & p2 & p3 & -> & (xml & Hx & Hp) & Hs & Ha) & Hask & Hc)].
  { left. by rewrite !forallb_app, K0, K, K'. }
  right. exists w, ref, (l0 ++ p1 ++ p2 ++ p3), l2, (l3 ++ l'), sent. rewrite <- !app_assoc. split; [done|].
  rewrite !forallb_app in *. rewrite K0, K', K3. split; [done|]. split; [done|]. split; [done|]. split; [done|]. split; [|split; [done|]].
  - exists (l0 ++ p1), p2, p3. rewrite <- app_assoc. split; [done|]. split; [|done]. exists xml. split; [|done].
    rewrite presets_seen_app. apply elem_of_app. by right.
  - destruct o as [r|]; [|done]. destruct Hn as [Hn|]; [|done]. destruct Hc as (items & allowed & i & u & rb & xs & x1 & x2 & x3 & H1 & H2 & H3 & H4).
    exists items, allowed, i, u, rb, xs, x1, x2, x3. split; [done|]. split; [done|]. split; [|done]. by rewrite sights_app, Hn, app_nil_r.
Qed.

#[local] Abbreviation conclude := (conclude float_repr parse_xml content_xml v precondition).
#[local] Abbreviation finish := (finish float_repr parse_xml fromstring content_xml reprint urlparse v precondition).

Lemma told_conclude w ref expected mutations uncertain final i readbacks s :
  told log (conclude w ref expected mutations uncertain final i readbacks) s (fun l r _ => sights l = [] /\ match r with
    | Ok r => is_verified i = true /\ summaries final = Ok (radio_rows r) /\ integrity r = Verified uncertain readbacks i
    | Err _ => True end).
Proof.
  apply told_both; [apply told_mute, mutes_conclude|]. unfold Writer.conclude.
  eapply told_bind; [apply told_checks|done|]. intros [] l1 s1 _.
  eapply told_bind; [apply told_lift_result|done|]. intros rows l2 s2 [_ Hs].
  eapply told_bind; [apply told_unless|done|]. intros [] l3 s3 (_ & _ & Hv%negb_false_iff).
  eapply told_bind; [apply told_mute, steps_in_for_each; [apply _|intros; apply mutes_transition]|done|]. intros [] l4 s4 _.
  eapply told_bind; [apply told_mute; destruct mutations; [apply steps_in_ret, _|]|done|].
  { apply steps_in_bind; [apply _|apply mutes_calms, calms_attributes|intros; apply steps_in_ret, _]. }
  intros job l5 s5 _. eapply told_bind; [apply told_mute, mutes_calms, calms_device_id_now|done|]. intros who l6 s6 _.
  eapply told_bind; [apply told_mute; apply steps_in_bind; [apply _|apply mutes_stage|intros; apply mutes_calms, calms_flush]|done|]. intros [] l7 s7 _.
  eapply told_bind; [apply told_mute, mutes_commit|done|]. intros [] l8 s8 _.
  eapply told_bind; [apply told_checks|done|]. intros [] l9 s9 _. by apply told_ret.
Qed.

Lemma milds_finish w ref label expected items allowed mutations uncertain :
  steps_in mildly (finish w ref label expected items allowed mutations uncertain).
Proof.
  pose proof milds_read_back. pose proof milds_save_readback. pose proof milds_stability. pose proof milds_conclude.
  unfold Writer.finish. steps.
Qed.

Lemma told_finish w ref label expected items allowed mutations uncertain s :
  told log (finish w ref label expected items allowed mutations uncertain) s (fun l r _ => match r with
    | Ok r => exists i readbacks xs x1 x2 x3, sights l = xs ++ [Shown x1; Waited 500; Shown x2; Waited 1000; Shown x3] /\ Forall (fine w expected items allowed) [x1; x2; x3]
        /\ compared w expected items allowed x3 = Ok i /\ is_verified i = true /\ summaries x3 = Ok (radio_rows r)
        /\ integrity r = Verified uncertain readbacks i
    | Err _ => True end).
Proof.
  unfold Writer.finish.
  eapply told_bind; [apply told_mute, steps_in_for_each; [apply _|intros; apply mutes_transition]|done|]. intros [] l1 s1 K1.
  eapply told_bind; [apply told_readbacks; by intros j|done|]. intros [last report] l2 s2 H2.
  eapply told_bind; [apply told_mute, mutes_save_readback|done|]. intros [] l3 s3 K3.
  destruct report as [i|]; [|by apply told_raise].
  eapply told_bind; [apply told_unless|done|]. intros [] l4 s4 (-> & -> & Hv%negb_false_iff). destruct (H2 Hv) as (xs & K2 & Hf & Hc).
  eapply told_bind; [apply told_stability|done|]. intros [[final j] readbacks] l5 s5 H5.
  eapply told_bind; [apply told_mute, mutes_save_readback|done|]. intros [] l6 s6 K6.
  eapply told_weaken; [apply told_conclude|]. intros l r s' [K7 H]. destruct r as [r|]; [|done]. destruct H as (Hj & Hs & Hr).
  destruct (H5 Hj Hc) as (Hc' & ys & K5 & Hlen & Hall & Hlast). destruct ys as [|x2 [|x3 []]]; try discriminate Hlen.
  injection Hlast as ->. exists j, readbacks, xs, last, x2, final. split; [|split; [by constructor|done]].
  rewrite !sights_app, K1, K2, K3, K5, K6, K7. cbn. by rewrite ?app_nil_r, <- ?app_assoc.
Qed.

(** A statement of mild steps, with what else is known of it. *)
Lemma told_mild_bind {A B} (m : M A) (f : A -> M B) s (Q : list event -> res exn A -> session W -> Prop) (P : list event -> res exn B -> session W -> Prop) :
  tidy s -> steps_in mildly m -> told log m s Q -> (forall e l s1, forallb mild l = true -> tidy s1 -> P l (Err e) s1) ->
  (forall a l1 s1, forallb mild l1 = true -> tidy s1 -> Q l1 (Ok a) s1 -> told log (f a) s1 (fun l2 r s2 => P (l1 ++ l2) r s2)) ->
  told log (m ≫= f) s P.
Proof.
  intros T Hm Hq He Hf. eapply told_bind; [apply told_both; [by apply (told_milds m)|exact Hq]|..].
  - intros e l s1 [[K T1] _]. auto.
  - intros a l1 s1 [[K T1] H]. auto.
Qed.

Lemma milds_or_refuse {A} (m : M A) error report : steps_in mildly m -> steps_in mildly (or_refuse m error report).
Proof. intros H. unfold or_refuse. steps. Qed.
Lemma told_or_refuse {A} (m : M A) error report s (Q : list event -> A -> session W -> Prop) :
  told log m s (fun l r s' => match r with Ok a => Q l a s' | Err _ => True end) ->
  told log (or_refuse m error report) s (fun l r s' => match r with Ok a => Q l a s' | Err _ => True end).
Proof. intros H. unfold or_refuse. eapply told_try; [exact H|done|]. intros e l s1 _. by destruct (caught e); apply told_raise. Qed.

#[local] Abbreviation write_body := (write_body float_repr str_of parse_xml fromstring content_xml reprint urlparse v expected_summary effective_item precondition).

Lemma told_observed_in a s :
  told log (observe a) s (fun l r _ => match r with
    | Ok o => exists xml, xml ∈ presets_seen l /\ parse xml (identity a) = Ok o | Err _ => True end).
Proof.
  eapply told_weaken; [apply told_observation, guard_hushed|]. intros l r s' [_ H]. destruct r as [o|]; [|done].
  destruct H as (xml & -> & Ho). exists xml. split; [left|done].
Qed.

Definition tidily (s s' : session W) : Prop := tidy s -> tidy s'.
#[local] Instance tidily_preorder : PreOrder tidily.
Proof. split; unfold tidily; [by intros s|]. intros s1 s2 s3. auto. Qed.
Lemma tidies_milds {A} (m : M A) : steps_in mildly m -> steps_in tidily m.
Proof. apply steps_in_weaken. intros s s' H T. by apply H. Qed.
Lemma tidies_store_slots w ref prepared items before expected slots :
  steps_in tidily (store_slots float_repr str_of reprint urlparse v effective_item precondition w ref prepared items before expected slots).
Proof.
  assert (steps_in tidily (check w ref)) as Hc by apply tidies_milds, milds_check.
  assert (forall b place, steps_in tidily (content_for str_of v effective_item prepared b place)) as Hp.
  { intros b place. apply tidies_milds, milds_calms, calms_content_for. }
  assert (forall b c st, steps_in tidily (send_slot v b c st)) as Hs.
  { intros b c st s T. destruct (told_send_slot b c st s) as (l & _ & [= _ V _ _] & _). unfold tidy in *. by rewrite V. }
  revert slots. induction expected as [|[b place] expected IH]; intros slots; cbn [store_slots]; steps.
Qed.

Lemma told_write_body expected label prepared mutations before s : view s = None ->
  told log (write_body expected label prepared mutations before) s
    (fun l r s' => careful prepared expected label mutations l (result_of r) /\ tidy s').
Proof.
  intros V. assert (tidy s) as T by (unfold tidy; by rewrite V). unfold Writer.write_body.
  eapply (told_mild_bind _ _ _ (fun l r s' => match r with Ok w => view s' = None /\ invalid_slots expected = false
              /\ exists xml, xml ∈ presets_seen l /\ parse xml (identity (w_access w)) = Ok (w_before w) | Err _ => True end)); [done|apply milds_or_refuse, milds_open_start| | |].
  { apply (told_or_refuse _ _ _ _ (fun l w s' => view s' = None /\ invalid_slots expected = false
              /\ exists xml, xml ∈ presets_seen l /\ parse xml (identity (w_access w)) = Ok (w_before w))).
    eapply told_weaken; [by apply told_open_start|]. intros l r s' [_ H]. exact H. }
  { intros e l s1 K T1. split; [by left|done]. }
  intros w l1 s1 K1 T1 (V1 & Hi & Hx).
  eapply told_mild_bind; [exact T1|apply milds_declare_start|by apply told_declare_start| |].
  { intros e l s2 K T2. split; [|done]. left. by rewrite forallb_app, K1. }
  intros ref l2 s2 K2 T2 (_ & V2 & Hs).
  eapply told_mild_bind; [exact T2|apply milds_check|apply told_checks| |].
  { intros e l s3 K T3. split; [|done]. left. by rewrite !forallb_app, K1, K2. }
  intros [] l3 s3 K3 T3 _.
  eapply told_mild_bind; [exact T3|apply milds_observation|apply told_observed_in| |].
  { intros e l s4 K T4. split; [|done]. left. by rewrite !forallb_app, K1, K2, K3. }
  intros now l4 s4 K4 T4 (xml & Hn & Hp).
  eapply told_bind; [apply told_unless| |].
  { intros e l s5 (-> & -> & _). split; [|done]. left. by rewrite !forallb_app, K1, K2, K3, K4. }
  intros [] l5 s5 (-> & -> & Hsame%negb_false_iff%bool_decide_eq_true).
  eapply told_mild_bind; [exact T4|apply milds_calms, calms_lift|apply told_lift_result| |].
  { intros e l s6 K T6. split; [|done]. left. by rewrite !forallb_app, K1, K2, K3, K4. }
  intros allowed l6 s6 K6 T6 [_ Hal].
  eapply told_mild_bind; [exact T6|apply milds_calms, calms_expect_slots|apply told_expect_slots| |].
  { intros e l s7 K T7. split; [|done]. left. by rewrite !forallb_app, K1, K2, K3, K4, K6. }
  intros items l7 s7 K7 T7 Hit.
  eapply told_mild_bind; [exact T7|apply milds_calms, calms_lift|apply told_lift_result| |].
  { intros e l s8 K T8. split; [|done]. left. by rewrite !forallb_app, K1, K2, K3, K4, K6, K7. }
  intros rows l8 s8 K8 T8 _.
  assert (begun w label ref mutations (l1 ++ l2 ++ l3 ++ l4 ++ l6 ++ l7 ++ l8)) as Hb.
  { exists l1, l2, (l3 ++ l4 ++ l6 ++ l7 ++ l8). split; [done|]. split; [done|]. split; [done|]. exists xml, now. split; [|done].
    rewrite !presets_seen_app, !elem_of_app. tauto. }
  assert (forallb mild (l1 ++ l2 ++ l3 ++ l4 ++ l6 ++ l7 ++ l8) = true) as K by (by rewrite !forallb_app, K1, K2, K3, K4, K6, K7, K8).
  pose proof (tidies_store_slots w ref prepared items (Slots.by_button reprint urlparse rows) expected (map (fun x => (x.1, Pending)) expected) s8 T8) as T9.
  destruct (told_store_slots w ref prepared items (Slots.by_button reprint urlparse rows) expected (map (fun x => (x.1, Pending)) expected) s8)
    as (l9 & L9 & K9 & sent & Hask & Ho).
  destruct (store_slots _ _ _ _ _ _ _ _ _ _ _ _ _ _ s8) as [[[slots uncertain]|e] s9] eqn:E9; cbn in L9, Ho, T9.
  - destruct (told_both _ _ _ _ _ (told_milds _ s9 (milds_finish w ref label expected items allowed mutations uncertain) T9)
      (told_finish w ref label expected items allowed mutations uncertain s9)) as (l10 & L10 & [K10 T10] & H10).
    unfold told, mbind, st_bind. rewrite E9. exists (l9 ++ l10). split; [by rewrite L10, L9, app_assoc|]. split; [|done]. right.
    exists w, ref, (l1 ++ l2 ++ l3 ++ l4 ++ l6 ++ l7 ++ l8), l9, l10, sent. split; [by rewrite <- !app_assoc|]. split_and!; try done.
    destruct (finish _ _ _ _ _ _ _ _ s9) as [[r|e] s10]; [|done]. cbn in *. destruct H10 as (i & rb & xs & x1 & x2 & x3 & H).
    exists items, allowed, i, uncertain, rb, xs, x1, x2, x3. split; [done|]. split; [done|]. tauto.
  - unfold told, mbind, st_bind. rewrite E9. exists l9. split; [done|]. split; [|done]. right.
    exists w, ref, (l1 ++ l2 ++ l3 ++ l4 ++ l6 ++ l7 ++ l8), l9, [], sent. split; [by rewrite <- !app_assoc, app_nil_r|]. by split_and!.
Qed.

#[local] Abbreviation write_presets := (write_presets float_repr str_of parse_xml fromstring content_xml reprint urlparse v expected_summary effective_item precondition).

Lemma told_write_presets expected label prepared mutations before s : view s = None ->
  told log (write_presets expected label prepared mutations before) s
    (fun l r s' => careful prepared expected label mutations l (result_of r) /\ tidy s').
Proof.
  intros V. unfold Writer.write_presets, device_transaction.
  eapply told_bind; [apply told_free_now; [exact V|apply calms_ask]|..].
  { intros e l s1 [K V1]. split; [left; split; [by apply hushed_mild|done]|]. unfold tidy. by rewrite V1. }
  intros [] l1 s1 [K1 V1]. eapply told_bind; [apply told_free_now; [exact V1|by apply calms_asides, asides_emit]|..].
  { intros e l s2 [K V2]. split; [left; split; [|done]|]; [by rewrite forallb_app, !hushed_mild|]. unfold tidy. by rewrite V2. }
  intros [] l2 s2 [K2 V2]. destruct (told_write_body expected label prepared mutations before s2 V2) as (l & L & H & T).
  unfold told, finally. destruct (write_body _ _ _ _ _ s2) as [r s3]. cbn in L, H, T |- *. exists (l ++ [Left]).
  split; [by rewrite L, app_assoc|]. split; [|exact T]. rewrite app_assoc. apply careful_between; try done; [|by left].
  by rewrite forallb_app, !hushed_mild.
Qed.

(** C17. Writing presets to a radio, whatever the radio, the database and the other sessions
    do: before the first request a backup of what the radio showed is durable, every
    mutation of the operation names it, and the radio showed the same again.  Then each slot
    is asked for once at most, in order, with its prepared content, and nothing more once a
    reply is lost.  No row of a preset changes.  The answer is a result only when the last
    three readbacks, the second half a second after the first and the third a second after
    that, were compared as verified, and it lists the rows of the last. *)
Theorem write_is_confirmed expected label prepared mutations before s : view s = None ->
  told log (write_presets expected label prepared mutations before) s
    (fun l r _ => careful prepared expected label mutations l (result_of r)).
Proof. intros V. eapply told_weaken; [by apply told_write_presets|]. by intros l r s' [H _]. Qed.

(** *** The intents *)
Lemma told_prepared_free who b op requested s : view s = None -> py_upper op = op ->
  told log (prepare_preset_mutation float_repr v who b op requested : M PresetMutation) s (fun l r s' => forallb mild l = true
    /\ match r with
       | Ok m => view s' = None /\ exists old new, Committed old new ∈ l /\ recorded float_repr who b op requested (mutation_id m) old new
       | Err _ => True end).
Proof.
  intros V Hop. assert (tidy s) as T by (unfold tidy; by rewrite V).
  eapply told_weaken; [apply told_both; [apply told_milds; [apply (milds_prepare float_repr v who b op requested)|exact T]|]|].
  2: { intros l r s' [[K _] H]. split; [exact K|exact H]. }
  unfold prepare_preset_mutation.
  eapply told_bind; [apply told_free_now; [exact V|apply calms_read]|done|]. intros previous l1 s1 [_ V1].
  eapply told_bind; [apply told_free_now; [exact V1|apply calms_read]|done|]. intros rows l2 s2 [_ V2].
  eapply told_bind; [apply told_fresh|done|]. intros u l3 s3 (-> & V3). rewrite V2 in V3.
  destruct (Mutation.prepare_preset_mutation _ _ _ _ _ _ _) as [[m rest]|] eqn:Hp; [|by apply told_raise].
  apply bind_Ok in Hp as (p & _ & [= <- _]). match goal with |- context [insert_mutation ?x] => set (m := x) end.
  eapply told_bind; [by apply told_stage_free|done|]. intros [] l4 s4 (-> & t & t1 & I1 & V4).
  eapply told_bind; [by apply told_stage|done|]. intros [] l5 s5 (-> & t2 & [= <-] & V5 & _).
  eapply told_bind; [by eapply told_commit_rows|done|]. intros [] l6 s6 (V6 & _ & ->).
  eapply told_weaken; [apply told_refresh_free; exact V6|]. intros l r s' (-> & V' & Ho). destruct r as [m'|e]; [|done].
  split; [done|]. eexists t, _. split; [repeat (rewrite elem_of_app || rewrite elem_of_cons); tauto|].
  rewrite Ho. destruct (insert_mutation_find _ _ _ I1) as [F1 F2]. change u with (mutation_id m). split; [done|]. exists m.
  split; [exact F2|]. split_and!; try done. cbn. apply elem_of_app. right. left.
Qed.

(** The intent of a slot is recorded by the mutation that stands for it. *)
Definition intended (operation : string) (x : Z * list (string * json)) (y : Z * string) (l : list event) : Prop :=
  y.1 = x.1 /\ exists who old new, Committed old new ∈ l /\ recorded float_repr who x.1 operation (JObj x.2) y.2 old new.

Lemma intended_lasting operation x y : lasting (intended operation x y).
Proof.
  intros l1 l l2 (H & who & old & new & Hin & Hr). split; [done|]. exists who, old, new. split; [|done].
  rewrite !elem_of_app. tauto.
Qed.

(** [at_]: an exception carries the mutations. *)
Lemma told_tagged {A B} ms (m : M A) (f : A -> ST (session W) trouble B) s
    (Q : list event -> res exn A -> session W -> Prop) (P : list event -> res trouble B -> session W -> Prop) :
  told log m s Q -> (forall e l s1, Q l (Err e) s1 -> P l (Err (e, ms)) s1) ->
  (forall a l1 s1, Q l1 (Ok a) s1 -> told log (f a) s1 (fun l2 r s2 => P (l1 ++ l2) r s2)) ->
  told log (at_ ms m ≫= f) s P.
Proof.
  intros Hm He Hf.
  apply (told_bind log _ _ s (fun l r s' => match r with Ok a => Q l (Ok a) s' | Err x => exists e, x = (e, ms) /\ Q l (Err e) s' end)).
  - eapply told_try; [exact Hm|done|]. intros e l s' Hq. apply told_raise. rewrite app_nil_r. by exists e.
  - intros x l s' (e & -> & Hq). by apply He.
  - exact Hf.
Qed.
Lemma told_at_end {A} ms (m : M A) s (P : list event -> res trouble A -> session W -> Prop) :
  told log m s (fun l r s' => match r with Ok a => P l (Ok a) s' | Err e => P l (Err (e, ms)) s' end) -> told log (at_ ms m) s P.
Proof. intros H. eapply told_try; [exact H|done|]. intros e l s' Hq. apply told_raise. by rewrite app_nil_r. Qed.

Lemma told_prepare_all operation prepared done s : view s = None -> py_upper operation = operation ->
  told log (prepare_all float_repr v operation prepared done) s (fun l r s' => forallb mild l = true /\ tidy s' /\ match r with
    | Ok ms => view s' = None /\ exists new, ms = done ++ new /\ Forall2 (fun x y => intended operation x y l) prepared new
    | Err _ => True end).
Proof.
  intros V Hop. revert done s V. induction prepared as [|[b intent] prepared IH]; intros done s V; cbn [prepare_all].
  { apply told_ret. split; [done|]. split; [unfold tidy; by rewrite V|]. split; [done|]. exists []. by rewrite app_nil_r. }
  assert (tidy s) as T by (unfold tidy; by rewrite V).
  eapply told_tagged.
  { apply told_both; [apply (told_milds (E := exn)); [|exact T]|].
    - apply steps_in_bind; [apply _|apply milds_calms, calms_device_id_now|intros who; apply milds_prepare].
    - instantiate (1 := fun l r s' => match r with Ok m => view s' = None /\ intended operation (b, intent) (b, mutation_id m) l | Err _ => True end).
      eapply told_bind; [apply told_free_now; [exact V|apply calms_device_id_now]|done|]. intros who l1 s1 [_ V1].
      eapply told_weaken; [by apply told_prepared_free|]. intros l r s' [_ H]. destruct r as [m|]; [|done].
      destruct H as (V' & old & new & Hin & Hr). split; [done|]. split; [done|]. exists who, old, new. split; [|done].
      apply elem_of_app. by right. }
  { intros e l s1 [[K T1] _]. done. }
  intros m l1 s1 [[K1 T1] [V1 H1]]. eapply told_weaken; [by apply IH|]. intros l r s' (K & T' & H).
  rewrite forallb_app, K1, K. split; [done|]. split; [done|]. destruct r as [ms|]; [|done]. destruct H as (V' & new & -> & H).
  split; [done|]. exists ((b, mutation_id m) :: new). split; [by rewrite <- app_assoc|]. constructor.
  - exact (intended_lasting _ _ _ [] l1 l H1).
  - eapply Forall2_impl; [|exact H]. intros x y Hxy. pose proof (intended_lasting _ _ _ l1 l [] Hxy) as H'. by rewrite app_nil_r in H'.
Qed.

(** *** The one transaction that changes local rows *)
Section Adopted.
Context (station_column : json -> res fault (option Z)) (who : string) (prepared : list (Z * list (string * json)))
  (mutations : list (Z * string)) (old : store).

(** The row of a slot is the one the radio shows, with the station of the intent, and the
    mutation of the slot is closed. *)
Definition taken (seen : list Slots.summary) (t : store) (b : Z) : Prop :=
  exists i intent st id m, i ∈ seen /\ Slots.button i = b /\ lookup_slot b prepared = Some intent
    /\ station_column (default JNull (Json.get "station_id" intent)) = Ok st
    /\ at_slot who (presets (tables t)) b = [projected who i st]
    /\ lookup_slot b mutations = Some id /\ find_mutation id t = Some m /\ state m = "LOCAL_COMMIT".

Definition adopting (seen : list Slots.summary) (t : store) : Prop :=
  elsewhere_rows who (presets (tables t)) = elsewhere_rows who (presets (tables old)) /\ backups (tables t) = backups (tables old)
  /\ (forall b, is_Some (lookup_slot b prepared) -> b ∈ map Slots.button seen -> taken seen t b)
  /\ (forall b, lookup_slot b prepared = None \/ b ∉ map Slots.button seen -> at_slot who (presets (tables t)) b = at_slot who (presets (tables old)) b).

Lemma adopting_skip seen i t : lookup_slot (Slots.button i) prepared = None -> adopting seen t -> adopting (seen ++ [i]) t.
Proof.
  intros Hn (H1 & H2 & H3 & H4). split; [done|]. split; [done|]. split; intros b; rewrite map_app, elem_of_app; cbn.
  - intros Hb [Hs|Hs%list_elem_of_singleton]; [|subst b; rewrite Hn in Hb; by destruct Hb].
    destruct (H3 b Hb Hs) as (j & intent & st & id & m & Hj & H). exists j, intent, st, id, m. split; [|done]. apply elem_of_app. by left.
  - intros [Hb|Hb]; apply H4; [by left|right]. tauto.
Qed.

Lemma adopting_step seen i intent st id m t t' : adopting seen t ->
  lookup_slot (Slots.button i) prepared = Some intent -> station_column (default JNull (Json.get "station_id" intent)) = Ok st ->
  lookup_slot (Slots.button i) mutations = Some id ->
  at_slot who (presets (tables t')) (Slots.button i) = [projected who i st] ->
  (forall b, b <> Slots.button i -> at_slot who (presets (tables t')) b = at_slot who (presets (tables t)) b) ->
  elsewhere_rows who (presets (tables t')) = elsewhere_rows who (presets (tables t)) -> backups (tables t') = backups (tables t) ->
  find_mutation id t' = Some m -> state m = "LOCAL_COMMIT" -> (forall x, x <> id -> find_mutation x t' = find_mutation x t) ->
  adopting (seen ++ [i]) t'.
Proof.
  intros (H1 & H2 & H3 & H4) Hp Hs Hm Ha Ho He Hb Hf Hc Hx. split; [congruence|]. split; [congruence|].
  split; intros b; rewrite map_app, elem_of_app; cbn; destruct (decide (b = Slots.button i)) as [->|Hn].
  - intros _ _. exists i, intent, st, id, m. split_and!; try done. apply elem_of_app. right. left.
  - intros Hb' [Hs'|Hs'%list_elem_of_singleton]; [|done].
    destruct (H3 b Hb' Hs') as (j & jt & jst & jid & jm & Hj & E1 & E2 & E3 & E4 & E5 & E6 & E7).
    destruct (decide (jid = id)) as [->|Hid].
    + exists j, jt, jst, id, m. split_and!; try done; [apply elem_of_app; by left|by rewrite Ho].
    + exists j, jt, jst, jid, jm. split_and!; try done; [apply elem_of_app; by left|by rewrite Ho|by rewrite Hx].
  - intros [Hb'|Hb']; [congruence|]. exfalso. apply Hb'. right. left.
  - intros [Hb'|Hb']; rewrite Ho by done; apply H4; [by left|right; tauto].
Qed.

Lemma told_at_most_one {A} (l : list A) s :
  told log (at_most_one l : M (option A)) s (fun ev r s' => ev = [] /\ s' = s /\ match r with
    | Ok (Some x) => l = [x] | Ok None => l = [] | Err _ => True end).
Proof. destruct l as [|x []]; [by apply told_ret|by apply told_ret|by apply told_raise]. Qed.

Lemma told_adopt i seen t s : view s = Some (old, t) -> fresh_objects s t -> adopting seen t ->
  told log (adopt v station_column who prepared mutations i) s (fun l r s' => l = [] /\ match r with
    | Ok _ => exists t', view s' = Some (old, t') /\ fresh_objects s' t' /\ adopting (seen ++ [i]) t'
    | Err _ => True end).
Proof.
  intros V F Had. unfold adopt. destruct (lookup_slot (Slots.button i) prepared) as [intent|] eqn:Hp.
  2: { apply told_ret. split; [done|]. exists t. split; [done|]. split; [done|]. by apply adopting_skip. }
  eapply told_bind; [by eapply told_read_rows|naive_solver|]. intros rows l1 s1 (-> & V1 & L1 & ->).
  eapply told_bind; [apply told_at_most_one|naive_solver|]. intros row l2 s2 (-> & -> & Hrow).
  eapply told_bind; [apply told_both; [apply (told_asides hushed), asides_lift|apply told_lift_result]|by intros e l s' [_ [-> _]]|].
  intros st l3 s3 [[_ [= _ V3 _ L3]] [-> Hst]].
  eapply told_bind; [by apply told_stage; rewrite V3|naive_solver|]. intros [] l4 s4 (-> & t1 & Hf & V4 & L4).
  destruct (row_put who (projected who i st) (is_some row) t t1) as (R1 & R2 & R3 & R4 & R5); [done| |done|].
  { intros Hs. destruct row as [q|]; [by exists q|done]. }
  destruct (lookup_slot (Slots.button i) mutations) as [id|] eqn:Hm; [|by apply told_raise].
  assert (forall x, find_mutation x t1 = find_mutation x t) as Hfm by (intros x; unfold find_mutation; by rewrite R4).
  eapply told_weaken; [eapply (told_transition_held v old); [exact V4|]|].
  { intros x m Hk. rewrite Hfm. apply F. unfold known in *. rewrite L4, L3, L1 in Hk. exact Hk. }
  intros l r s' (-> & H). split; [done|]. destruct r as [[]|]; [|done]. destruct H as (m & m' & t2 & Hm1 & Ht & Hu & V5 & F5 & Hf5).
  destruct (transition_intent _ _ _ _ _ _ _ _ Ht) as [_ Hstate]. exists t2. split; [done|]. split; [done|].
  assert (presets (tables t2) = presets (tables t1)) as Hpp by (by eapply update_mutation_presets).
  eapply (adopting_step seen i intent st id m' t); try done; try (rewrite Hpp); try done.
  - by rewrite (update_mutation_backups _ _ _ _ Hu).
  - intros x Hx. rewrite <- Hfm. eapply update_mutation_other; [|exact Hu]. by rewrite (find_mutation_id _ _ _ Hm1).
Qed.

Lemma told_adopts items seen t s : view s = Some (old, t) -> fresh_objects s t -> adopting seen t ->
  told log (for_each items (adopt v station_column who prepared mutations)) s (fun l r s' => l = [] /\ match r with
    | Ok _ => exists t', view s' = Some (old, t') /\ adopting (seen ++ items) t'
    | Err _ => True end).
Proof.
  revert seen t s. induction items as [|i items IH]; intros seen t s V F Had; cbn [for_each].
  { apply told_ret. split; [done|]. exists t. by rewrite app_nil_r. }
  eapply told_bind; [by eapply told_adopt|naive_solver|]. intros [] l1 s1 (-> & t1 & V1 & F1 & Had1).
  eapply told_weaken; [by eapply IH|]. intros l r s' H. by rewrite <- app_assoc in H.
Qed.
End Adopted.

(** [new] is [old], whose rows are those of the plan, with the slots of the operation as the
    radio shows them. *)
Definition adopts (station_column : json -> res fault (option Z)) (a : access) (previous : string) (prepared : list (Z * list (string * json)))
    (mutations : list (Z * string)) (rows : list Slots.summary) (old new : store) : Prop :=
  version_of float_repr (identity a) (map snd mutations) old = previous
  /\ exists who, adopting station_column who prepared mutations old rows new.

Lemma told_adopt_all station_column a previous prepared mutations result s :
  (forall t w, constrained (others v t w).1) ->
  told log (adopt_all float_repr v precondition station_column a previous prepared mutations result) s (fun l r _ =>
    (forallb hushed l = true /\ is_ok r = false)
    \/ exists l0 old new, l = l0 ++ [Committed old new] /\ forallb hushed l0 = true
         /\ adopts station_column a previous prepared mutations (radio_rows result) old new).
Proof.
  intros Hc. unfold adopt_all.
  eapply told_bind; [apply told_commit_window, guard_hushed|intros e l s' (K & _); by left|].
  intros [] l1 s1 (K1 & t & V1 & Hv & (t0 & w & Ht) & L1).
  assert (fresh_objects s1 t) as F1 by (eapply reloaded_fresh; [rewrite Ht; apply Hc|exact L1]).
  eapply told_bind; [apply (told_asides hushed), asides_ask|intros e l s' [K _]; left; by rewrite forallb_app, K1, K|].
  intros [] l2 s2 [K2 [= _ V2 _ L2]].
  eapply told_bind; [apply (told_asides hushed), asides_device_id_now|intros e l s' [K _]; left; by rewrite !forallb_app, K1, K2, K|].
  intros who l3 s3 [K3 [= _ V3 _ L3]].
  eapply told_bind; [apply (told_adopts station_column who prepared mutations t _ [] t)|intros e l s' [-> _]; left; by rewrite !forallb_app, K1, K2, K3|].
  { congruence. }
  { intros id m Hk. apply F1. unfold known in *. by rewrite L3, L2 in Hk. }
  { split; [done|]. split; [done|]. split; [by intros b _ ?%elem_of_nil|done]. }
  intros [] l4 s4 (-> & t1 & V4 & Had).
  eapply told_weaken; [by eapply told_commit_rows|]. intros l r s' (_ & _ & Hl).
  assert (forallb hushed (l1 ++ l2 ++ l3) = true) as K by (by rewrite !forallb_app, K1, K2, K3).
  assert (adopts station_column a previous prepared mutations (radio_rows result) t t1) as Hd by (split; [done|by exists who]).
  destruct r as [[]|e].
  - right. exists (l1 ++ l2 ++ l3), t, t1. subst l. by rewrite <- !app_assoc.
  - destruct Hl as [-> | ->]; [left; by rewrite ?app_nil_r|right]. exists (l1 ++ l2 ++ l3), t, t1. by rewrite <- !app_assoc.
Qed.

(** *** The whole operation *)
Section Applied.
Context (station_column : json -> res fault (option Z)).
#[local] Abbreviation plan := (plan parse_xml fromstring content_xml v precondition).
#[local] Abbreviation certify_unchanged := (certify_unchanged float_repr parse_xml fromstring content_xml v precondition).
#[local] Abbreviation adopt_all := (adopt_all float_repr v precondition station_column).
#[local] Abbreviation write_and_adopt := (write_and_adopt float_repr str_of parse_xml fromstring content_xml reprint urlparse v expected_summary
  effective_item precondition station_column).
#[local] Abbreviation apply_all := (apply_all float_repr str_of parse_xml fromstring content_xml reprint urlparse v expected_summary effective_item
  precondition station_column).
#[local] Abbreviation apply_prepared_presets := (apply_prepared_presets float_repr str_of parse_xml fromstring content_xml reprint urlparse v
  expected_summary effective_item precondition station_column).

Lemma calms_plan prepared operation previous expected_local : steps_in calmly (plan prepared operation previous expected_local).
Proof.
  assert (steps_in calmly (open_access parse_xml fromstring v (guard v) true)) as Ho.
  { apply calms_asides, asides_open_access, guard_hushed. }
  pose proof calms_device_id_now. pose proof (@calms_ask unit). pose proof (fun A => @calms_lift A). pose proof (calms_latest v (E := exn)).
  unfold Writer.plan, slot_is_free. steps.
Qed.
Lemma told_plan_facts prepared operation previous expected_local s :
  told log (plan prepared operation previous expected_local) s (fun _ r _ => match r with
    | Ok _ => operation ∈ OPERATIONS /\ forall e, expected_local = Some e -> previous = e
    | Err _ => True end).
Proof.
  unfold Writer.plan. eapply told_bind; [apply told_unless|done|]. intros [] l1 s1 (-> & -> & He).
  eapply told_bind; [apply told_unless|done|]. intros [] l2 s2 (-> & -> & Hop%negb_false_iff%bool_decide_eq_true).
  match goal with |- told _ ?m ?s _ => destruct (told_calms m s) as (l & L & _) end.
  { pose proof calms_device_id_now. pose proof (@calms_ask unit). pose proof (fun A => @calms_lift A). pose proof (calms_latest v (E := exn)).
    assert (steps_in calmly (open_access parse_xml fromstring v (guard v) true)) as Ho by apply calms_asides, asides_open_access, guard_hushed.
    unfold slot_is_free. steps. }
  exists l. split; [exact L|]. match goal with |- match ?r with _ => _ end => destruct r; [|done] end. split; [done|].
  intros e ->. by apply negb_false_iff, bool_decide_eq_true in He.
Qed.
Lemma told_plan_free prepared operation previous expected_local s : view s = None ->
  told log (plan prepared operation previous expected_local) s (fun l r s' => forallb hushed l = true /\ view s' = None /\ match r with
    | Ok _ => operation ∈ OPERATIONS /\ forall e, expected_local = Some e -> previous = e
    | Err _ => True end).
Proof.
  intros V. eapply told_weaken; [apply told_both; [apply told_free_now; [exact V|apply calms_plan]|apply told_plan_facts]|].
  intros l r s' [[K V'] H]. by split_and!.
Qed.

(** Nothing to write: the radio showed the expected presets twice, half a second apart. *)
Definition unchanged_twice (expected_before : option Slots.PresetObservation) (l : list event) (r : PresetSyncResult) : Prop :=
  integrity r = NoOp /\ exists o x1 x2 o1 o2 who, expected_before = Some o
    /\ sights l = [Shown x1; Waited 500; Shown x2; Waited 500]
    /\ parse x1 who = Ok o1 /\ parse x2 who = Ok o2 /\ Slots.slots o1 = Slots.slots o /\ Slots.slots o2 = Slots.slots o
    /\ radio_rows r = Slots.rows o2.

Lemma milds_certify a previous before : steps_in mildly (certify_unchanged a previous before).
Proof.
  pose proof milds_observation. pose proof milds_save_backup. pose proof calms_device_id_now. pose proof (@calms_ask unit).
  assert (forall n o actual, steps_in mildly (watch_unchanged parse_xml fromstring content_xml v n a o actual)) as Hw.
  { intros n o. induction n as [|n IH]; intros actual; cbn [watch_unchanged]; steps. }
  assert (forall e x, steps_in mildly (commit_window float_repr v (guard v) a e x)) as Hc by (intros; apply milds_commit_window, guard_hushed).
  unfold Writer.certify_unchanged. steps.
Qed.
Lemma told_watch n a o actual s :
  told log (watch_unchanged parse_xml fromstring content_xml v n a o actual) s (fun l r _ => match r with
    | Ok o' => exists xs, sights l = flat_map (fun x => [Shown x; Waited 500]) xs /\ length xs = n
        /\ Forall (fun x => exists y, parse x (identity a) = Ok y /\ Slots.slots y = Slots.slots o) xs
        /\ (n <> O -> exists x, last_opt xs = Some x /\ parse x (identity a) = Ok o')
    | Err _ => True end).
Proof.
  revert actual s. induction n as [|n IH]; intros actual s; cbn [watch_unchanged]; [apply told_ret; by exists []|].
  eapply told_bind; [apply told_sight, guard_hushed|done|]. intros o' l1 s1 (xml & K1 & Ho).
  eapply told_bind; [apply told_unless|done|]. intros [] l2 s2 (-> & -> & Hs%negb_false_iff%bool_decide_eq_true).
  eapply told_bind; [apply told_pause|done|]. intros [] l3 s3 [_ ->].
  destruct n as [|n].
  - cbn [watch_unchanged]. apply told_ret. exists [xml]. rewrite !sights_app, K1. split; [done|]. split; [done|].
    split; [constructor; [by exists o'|done]|]. intros _. by exists xml.
  - eapply told_weaken; [apply IH|]. intros l r s' H. destruct r as [o2|]; [|done]. destruct H as (xs & Hx & Hlen & Hall & Hlast).
    exists (xml :: xs). rewrite !sights_app, K1, Hx. split; [done|]. split; [cbn; congruence|].
    split; [constructor; [by exists o'|done]|]. intros _. destruct Hlast as (x & Hl & Hp); [done|]. exists x. split; [|done].
    rewrite last_opt_cons; [done|]. by destruct xs.
Qed.

Lemma told_certify a previous before s :
  told log (certify_unchanged a previous before) s (fun l r _ => match r with Ok r => unchanged_twice before l r | Err _ => True end).
Proof.
  unfold Writer.certify_unchanged. destruct before as [o|]; [|by apply told_raise].
  eapply told_bind; [apply told_watch|done|]. intros actual l1 s1 (xs & K1 & Hlen & Hall & Hlast).
  eapply told_bind; [apply told_commit_window, guard_hushed|done|]. intros [] l2 s2 [K2%hushed_sights _].
  eapply told_bind; [apply (told_asides hushed), asides_ask|done|]. intros [] l3 s3 [K3%hushed_sights _].
  eapply told_bind; [apply (told_asides hushed), asides_device_id_now|done|]. intros who l4 s4 [K4%hushed_sights _].
  eapply told_bind; [apply told_mute; apply steps_in_bind; [apply _|apply mutes_stage|intros; apply mutes_commit]|done|]. intros [] l5 s5 K5.
  apply told_ret. split; [done|]. destruct Hlast as (x & Hl & Hp); [done|].
  destruct xs as [|x1 [|x2 []]]; try discriminate Hlen. injection Hl as ->. inversion Hall as [|? ? (o1 & H1 & S1) Hall']; subst.
  inversion Hall' as [|? ? (o2 & H2 & S2) _]; subst. assert (o2 = actual) as -> by congruence.
  exists o, x1, x, o1, actual, (identity a). split_and!; try done. by rewrite !sights_app, K1, K2, K3, K4, K5.
Qed.

(** What applying prepared presets tells, once the version of the local rows is known. *)
Definition adopted (previous : string) (prepared : list (Z * list (string * json))) (label operation : string) (expected_local : option string)
    (l : list event) (o : option PresetSyncResult) : Prop :=
  exists a expected mutations l0 lw l2 ow, l = l0 ++ lw ++ l2 /\ forallb mild l0 = true
    /\ (forall e, expected_local = Some e -> previous = e)
    /\ Forall2 (fun x y => intended operation x y l0) prepared mutations
    /\ locations str_of prepared = Ok expected
    /\ careful prepared expected label (map snd mutations) lw ow
    /\ ((forallb mild l2 = true /\ o = None)
        \/ exists r l3 old new l4, ow = Some r /\ l2 = l3 ++ Committed old new :: l4 /\ forallb mild l3 = true /\ forallb mild l4 = true
             /\ adopts station_column a previous prepared mutations (radio_rows r) old new /\ (o = None \/ o = Some r)).
Definition applied_on (previous : string) (prepared : list (Z * list (string * json))) (label operation : string) (before : option Slots.PresetObservation)
    (expected_local : option string) (l : list event) (o : option PresetSyncResult) : Prop :=
  (forallb mild l = true /\ match o with Some r => prepared = [] /\ unchanged_twice before l r | None => True end)
  \/ adopted previous prepared label operation expected_local l o.

Lemma applied_on_around previous prepared label operation before expected_local l0 l l' o o' :
  forallb hushed l0 = true -> forallb mild l' = true -> (o' = o /\ sights l' = []) \/ o' = None ->
  applied_on previous prepared label operation before expected_local l o -> applied_on previous prepared label operation before expected_local (l0 ++ l ++ l') o'.
Proof.
  intros K0 K' Ho [[K H]|(a & expected & mutations & p0 & lw & l2 & ow & -> & K1 & He & Hi & Hl & Hc & H)].
  - left. split; [by rewrite !forallb_app, (hushed_mild _ K0), K, K'|]. destruct Ho as [[-> Hs]| ->]; [|done]. destruct o as [r|]; [|done].
    destruct H as (Hp & Hn & x & x1 & x2 & o1 & o2 & who & E1 & E2 & E3). split; [done|]. split; [done|].
    exists x, x1, x2, o1, o2, who. split; [done|]. split; [|done]. by rewrite !sights_app, (hushed_sights _ K0), E2, Hs.
  - right. exists a, expected, mutations, (l0 ++ p0), lw, (l2 ++ l'), ow. split; [by rewrite <- !app_assoc|].
    split; [by rewrite forallb_app, (hushed_mild _ K0)|]. split; [done|]. split.
    { eapply Forall2_impl; [|exact Hi]. intros x y Hxy. pose proof (intended_lasting _ _ _ l0 p0 [] Hxy) as H'. by rewrite app_nil_r in H'. }
    split; [done|]. split; [done|]. destruct H as [[K2 ->]|(r & l3 & old & new & l4 & E1 & -> & K3 & K4 & Ha & Hr)].
    + left. split; [by rewrite forallb_app, K2|]. by destruct Ho as [[-> _]| ->].
    + right. exists r, l3, old, new, (l4 ++ l'). split; [done|]. split; [by rewrite <- app_assoc|]. split; [done|].
      split; [by rewrite forallb_app, K4|]. split; [done|]. destruct Ho as [[-> _]| ->]; [done|by left].
Qed.

Lemma applied_on_nothing previous prepared label operation before expected_local l :
  forallb mild l = true -> applied_on previous prepared label operation before expected_local l None.
Proof. by left. Qed.

Lemma told_write_and_adopt a prepared label operation previous before mutations l0 expected_local s :
  (forall t w, constrained (others v t w).1) -> view s = None -> forallb mild l0 = true ->
  (forall e, expected_local = Some e -> previous = e) -> Forall2 (fun x y => intended operation x y l0) prepared mutations ->
  told log (write_and_adopt a prepared label previous before mutations) s (fun l r _ =>
    applied_on previous prepared label operation before expected_local (l0 ++ l) (result_of r)).
Proof.
  intros Hcon V K0 He Hi. unfold Writer.write_and_adopt.
  eapply told_bind; [apply told_free_now; [exact V|apply calms_load_all]|intros e l s1 [K _]; apply applied_on_nothing; by rewrite forallb_app, K0, hushed_mild|].
  intros owned l1 s1 [K1 V1].
  eapply told_bind; [apply told_free_now; [exact V1|apply calms_device_id_now]|
    intros e l s2 [K _]; apply applied_on_nothing; by rewrite !forallb_app, K0, !hushed_mild|].
  intros who l2 s2 [K2 V2].
  eapply told_bind; [apply told_free_now; [exact V2|apply calms_local_version]|
    intros e l s3 [K _]; apply applied_on_nothing; by rewrite !forallb_app, K0, !hushed_mild|].
  intros version l3 s3 [K3 V3].
  eapply told_bind; [apply told_unless|intros e l s4 (-> & _); apply applied_on_nothing; by rewrite !forallb_app, K0, !hushed_mild|].
  intros [] l4 s4 (-> & -> & _).
  eapply told_bind; [apply told_both; [apply (told_asides hushed), asides_lift|apply told_lift_result]|
    intros e l s5 [[K _] _]; apply applied_on_nothing; by rewrite !forallb_app, K0, !hushed_mild|].
  intros expected l5 s5 [[_ [= _ V5 _ _]] [-> Hl]]. rewrite V3 in V5.
  set (pre := l1 ++ l2 ++ l3). assert (forallb mild pre = true) as Kp by (unfold pre; by rewrite !forallb_app, !hushed_mild).
  assert (Forall2 (fun x y => intended operation x y (l0 ++ pre)) prepared mutations) as Hi'.
  { eapply Forall2_impl; [|exact Hi]. intros x y Hxy. exact (intended_lasting _ _ _ [] l0 pre Hxy). }
  assert (forall l o, careful prepared expected label (map snd mutations) l o -> applied_on previous prepared label operation before expected_local (l0 ++ l1 ++ l2 ++ l3 ++ l) None) as Hw.
  { intros l o Hc. right. exists a, expected, mutations, (l0 ++ pre), l, [], o. rewrite app_nil_r. unfold pre. rewrite <- !app_assoc.
    split; [done|]. split; [by rewrite forallb_app, K0|]. split; [done|]. split; [done|]. split; [done|]. split; [done|]. by left. }
  eapply told_bind; [by apply told_write_presets|intros e l s6 [Hc _]; exact (Hw l None Hc)|].
  intros r l6 s6 [Hc T6]. cbn [result_of] in Hc. cbn [app].
  assert (forall l3' old new, forallb hushed l3' = true -> adopts station_column a previous prepared mutations (radio_rows r) old new ->
    forall o, o = None \/ o = Some r -> applied_on previous prepared label operation before expected_local (l0 ++ l1 ++ l2 ++ l3 ++ l6 ++ l3' ++ [Committed old new]) o) as Hd.
  { intros l3' old new K Ha o Ho. right. exists a, expected, mutations, (l0 ++ pre), l6, (l3' ++ [Committed old new]), (Some r).
    unfold pre. rewrite <- !app_assoc. split; [done|]. split; [by rewrite forallb_app, K0|]. split; [done|]. split; [done|]. split; [done|]. split; [done|].
    right. exists r, l3', old, new, []. by rewrite (hushed_mild _ K). }
  eapply told_bind; [by apply told_adopt_all| |].
  - intros e l s7 [[K _]|(l3' & old & new & -> & K & Ha)].
    + right. exists a, expected, mutations, (l0 ++ pre), l6, l, (Some r). unfold pre. rewrite <- !app_assoc. split; [done|].
      split; [by rewrite forallb_app, K0|]. split; [done|]. split; [done|]. split; [done|]. split; [done|]. left. by rewrite (hushed_mild _ K).
    + apply Hd; [done|done|by left].
  - intros [] l7 s7 [[_ [=]]|(l3' & old & new & -> & K & Ha)]. apply told_ret. rewrite app_nil_r. apply Hd; [done|done|by right].
Qed.

Lemma told_apply_all prepared operation label previous before expected_local s :
  (forall t w, constrained (others v t w).1) -> view s = None ->
  told log (apply_all prepared operation label previous before expected_local) s (fun l r _ =>
    applied_on previous prepared label operation before expected_local l (result_of r)).
Proof.
  intros Hcon V. unfold Writer.apply_all.
  eapply told_tagged; [by apply told_plan_free|intros e l s1 [K _]; by apply applied_on_nothing, hushed_mild|]. intros a l1 s1 (K1 & V1 & Hop & He).
  assert (forallb mild l1 = true) as M1 by by apply hushed_mild.
  case_bool_decide as Hp.
  - apply told_at_end. assert (tidy s1) as T1 by (unfold tidy; by rewrite V1).
    eapply told_weaken; [apply told_both; [apply (told_milds _ s1 (milds_certify a previous before) T1)|apply told_certify]|].
    intros l r s' [[K _] H]. assert (forallb mild (l1 ++ l) = true) as K' by (by rewrite forallb_app, M1).
    destruct r as [r|e]; [|by apply applied_on_nothing]. left. split; [done|]. split; [done|].
    destruct H as (Hn & o & x1 & x2 & o1 & o2 & who & E1 & E2 & E3). split; [done|]. exists o, x1, x2, o1, o2, who.
    split; [done|]. split; [|done]. by rewrite sights_app, E2, (hushed_sights _ K1).
  - eapply told_bind; [apply told_prepare_all; [exact V1|]| |].
    { by repeat (apply elem_of_cons in Hop as [->|Hop]; [vm_compute|]); [| | |apply elem_of_nil in Hop]. }
    { intros [e ms] l s2 (K & _). apply applied_on_nothing. by rewrite forallb_app, M1. }
    intros ms l2 s2 (K2 & _ & V2 & new & -> & Hi). cbn [app]. apply told_at_end.
    eapply told_weaken; [apply (told_write_and_adopt a prepared label operation previous before new (l1 ++ l2) expected_local s2); try done|].
    + by rewrite forallb_app, M1.
    + eapply Forall2_impl; [|exact Hi]. intros x y Hxy. pose proof (intended_lasting _ _ _ l1 l2 [] Hxy) as H'. by rewrite app_nil_r in H'.
    + intros l r s' H. cbv beta in H. rewrite <- app_assoc in H. by destruct r.
Qed.

Lemma milds_mark_failed x : steps_in mildly (mark_failed v x).
Proof. unfold mark_failed. steps. Qed.

Lemma told_refusal e s :
  told log (not_confirmed v e) s (fun l r _ => forallb mild l = true /\ is_ok r = false).
Proof.
  unfold not_confirmed. eapply told_bind.
  { instantiate (1 := fun l _ s' => l = [] /\ tidy s'). exists []. by rewrite app_nil_r. }
  { by intros x l s' [-> _]. }
  intros [] l1 s1 [-> T]. eapply told_bind; [apply told_milds; [|exact T]|by intros x l s' [K _]|].
  { pose proof milds_mark_failed. steps. }
  intros [] l2 s2 [K2 _]. destruct (caught e.1); apply told_raise; by rewrite app_nil_r.
Qed.

(** What it tells in all: the rows are changed when they are still those that were looked
    at before anything was asked of the radio. *)
Definition applied (prepared : list (Z * list (string * json))) (label operation : string) (before : option Slots.PresetObservation)
    (expected_local : option string) (l : list event) (o : option PresetSyncResult) : Prop :=
  (forallb mild l = true /\ o = None)
  \/ exists previous, planned float_repr previous l /\ applied_on previous prepared label operation before expected_local l o.

Lemma applied_nothing prepared label operation before expected_local l :
  forallb mild l = true -> applied prepared label operation before expected_local l None.
Proof. by left. Qed.

Lemma applied_around prepared label operation before expected_local l0 l l' o o' :
  forallb hushed l0 = true -> forallb mild l' = true -> (o' = o /\ sights l' = []) \/ o' = None ->
  applied prepared label operation before expected_local l o -> applied prepared label operation before expected_local (l0 ++ l ++ l') o'.
Proof.
  intros K0 K' Ho [[K ->]|(previous & Hp & H)].
  - left. split; [by rewrite !forallb_app, (hushed_mild _ K0), K, K'|]. by destruct Ho as [[-> _]| ->].
  - right. exists previous. split; [by apply planned_around|by eapply applied_on_around].
Qed.

Lemma told_application prepared label operation before expected_local s :
  (forall t w, constrained (others v t w).1) -> view s = None ->
  told log (apply_prepared_presets prepared label operation before expected_local) s (fun l r _ =>
    applied prepared label operation before expected_local l (result_of r)).
Proof.
  intros Hcon V. unfold Writer.apply_prepared_presets, device_transaction.
  eapply told_bind; [apply told_free_now; [exact V|apply calms_ask]|intros e l s1 [K _]; by apply applied_nothing, hushed_mild|].
  intros [] l1 s1 [K1 V1].
  eapply told_bind; [apply told_free_now; [exact V1|by apply calms_asides, asides_emit]|
    intros e l s2 [K _]; apply applied_nothing; by rewrite forallb_app, !hushed_mild|].
  intros [] l2 s2 [K2 V2].
  match goal with |- told log (finally ?m _) _ _ =>
    assert (told log m s2 (fun l r _ => applied prepared label operation before expected_local l (result_of r))) as (l & L & H) end.
  - eapply told_bind; [apply told_free_now; [exact V2|apply calms_asides, guard_hushed]|intros e l s3 [K _]; by apply applied_nothing, hushed_mild|].
    intros [] l3 s3 [K3 V3]. eapply told_bind; [apply told_unless|intros e l s4 (-> & _); by apply applied_nothing; rewrite app_nil_r, hushed_mild|].
    intros [] l4 s4 (-> & -> & _).
    eapply told_bind; [apply told_free_now; [exact V3|apply calms_device_id_now]|
      intros e l s5 [K _]; apply applied_nothing; by rewrite !forallb_app, !hushed_mild|].
    intros who l5 s5 [K5 V5].
    eapply told_bind; [apply told_version|intros e l s6 (K & _); apply applied_nothing; by rewrite !forallb_app, !hushed_mild|].
    intros previous l6 s6 (K6 & V6 & G6%looked_planned). specialize (V6 V5). cbn [app].
    assert (forall l l' o o', forallb mild l' = true -> (o' = o /\ sights l' = []) \/ o' = None ->
      applied_on previous prepared label operation before expected_local l o ->
      applied prepared label operation before expected_local (l3 ++ l5 ++ l6 ++ l ++ l') o') as Hin.
    { intros l l' o o' K' Ho H. right. exists previous. split.
      - pose proof (planned_around float_repr previous (l3 ++ l5) l6 (l ++ l')) as Hg. rewrite <- !app_assoc in Hg. apply Hg; [|done].
        by rewrite forallb_app, K3, K5.
      - pose proof (applied_on_around previous prepared label operation before expected_local (l3 ++ l5 ++ l6) l l' o o') as Ha.
        rewrite <- !app_assoc in Ha. apply Ha; try done. by rewrite !forallb_app, K3, K5, K6. }
    eapply told_try; [by apply told_apply_all|..].
    + intros r l s7 H. pose proof (Hin l [] (Some r) (Some r) eq_refl) as H'. rewrite app_nil_r in H'. apply H'; [by left|exact H].
    + intros e l s7 H. eapply told_weaken; [apply told_refusal|]. intros l' r s8 [K' Hr]. destruct r; [done|].
      rewrite <- ?app_assoc. eapply Hin; [done|by right|exact H].
  - unfold told, finally. match goal with |- context [let '(_, _) := ?m in _] => destruct m as [r s3] end. cbn in L, H |- *. exists (l ++ [Left]).
    split; [by rewrite L, app_assoc|]. rewrite app_assoc. apply (applied_around _ _ _ _ _ (l1 ++ l2) l [Left] (result_of r)); [|done|by left|exact H].
    by rewrite forallb_app, K1, K2.
Qed.

End Applied.
End Facts.

(** ** Writing the second preset of the radio of Store: its reply is lost *)
Definition demo_writing : env bool := {|
  device := device demo_env; policy := policy demo_env; Store.write_guard := Store.write_guard demo_env; enter := enter demo_env;
  leave := leave demo_env; connect := connect demo_env;
  get_xml := fun path w => (Ok (if bool_decide (path = "/info") then "info" else if w : bool then "both" else "one"), w);
  post_xml := post_xml demo_env; sleep := sleep demo_env; uuid4 := uuid4 demo_env; refresh := refresh demo_env;
  statement := statement demo_env; others := fun t w => (if bool_decide (constrained t) then t else demo_store, w);
  commit_fault := commit_fault demo_env |}.
Definition demo_urls (_ : string) : option Slots.url :=
  Some {| Slots.scheme := ""; Slots.netloc := ""; Slots.url_path := ""; Slots.query := "" |}.
Definition demo_summary (_ : Z) (place : string) (w : bool) : res fault item * bool := (Ok (Sketch place None), w).
Definition demo_effective (p : Preset) (_ : string) (w : bool) : res fault string * bool := (Ok (content_item_xml p), w).
Definition demo_precondition (w : bool) : res fault unit * bool := (Ok tt, w).
Definition demo_intents : list (Z * list (string * json)) :=
  [(2, [("content_item_xml", JStr "b"); ("location", JStr "/b"); ("station_id", JNum (PInt 7))])].
Definition demo_station (j : json) : res fault (option Z) := match j with JNum (PInt n) => Ok (Some n) | _ => Ok None end.
Definition demo_rows : store :=
  {| tables := {| presets := [demo_row 1 "/a" "a"]; mutations := []; backups := [] |}; journal := [] |}.
Definition demo_start : session bool :=
  {| world := false; disk := demo_rows; view := None; unflushed := false; loaded := []; log := [] |}.

Definition demo_write : res exn PresetSyncResult * session bool :=
  write_presets demo_floats (fun _ => "") demo_parse demo_fromstring demo_text (fun _ => None) demo_urls demo_writing demo_summary demo_effective
    demo_precondition [(2, "/b")] "preset-sync" demo_intents [] None demo_start.
Definition demo_apply : res exn PresetSyncResult * session bool :=
  apply_prepared_presets demo_floats (fun _ => "") demo_parse demo_fromstring demo_text (fun _ => None) demo_urls demo_writing demo_summary demo_effective
    demo_precondition demo_station demo_intents "preset-sync" "WRITE" None None demo_start.

(** The requests of a run, and whether its result names a slot without an answer. *)
Definition demo_requests (r : res exn PresetSyncResult * session bool) : list string * option (option Z) :=
  (map (fun x => x.1.2) (requests (log r.2)),
   match r.1 with Ok x => match integrity x with Verified u _ _ => Some u | NoOp => None end | Err _ => None end).

Lemma write_is_confirmed_witness :
  demo_requests demo_write = ([Slots.preset_element 2 "b"], Some (Some 2)) /\ row_summary demo_write.2 = ([1], [])
  /\ told log (write_presets demo_floats (fun _ => "") demo_parse demo_fromstring demo_text (fun _ => None) demo_urls demo_writing demo_summary
       demo_effective demo_precondition [(2, "/b")] "preset-sync" demo_intents [] None) demo_start
       (fun l r _ => careful (fun _ => "") demo_parse demo_fromstring demo_text (fun _ => None) demo_urls demo_intents [(2, "/b")]
                       "preset-sync" [] l (result_of r)).
Proof.
  split; [vm_compute; reflexivity|]. split; [vm_compute; reflexivity|].
  apply (write_is_confirmed demo_floats (fun _ => "") demo_parse demo_fromstring demo_text (fun _ => None) demo_urls demo_writing demo_summary
    demo_effective demo_precondition [(2, "/b")] "preset-sync" demo_intents [] None demo_start). reflexivity.
Defined.


End Writer.
