(* ===== verification/Gate.v ===== *)
(** * The playback safety gate

    services/[playback_safety_gate.py]: a row of [RuntimeState] per radio, shared by the
    process that starts a playback and the provider that hands out the audio.  The functions
    load the row and write it in two statements, so a run is a list of such statements of any
    number of callers, with the wall clock set as it likes and the monotonic clock advancing
    between them.  The value of a row is the decoded object; writing a row is one step, with
    its commit. *)
From Stdlib Require Import Ascii String.
From S2P Require Import Prelude PyNum PyStr Json Presets Policy.
Import Policy.
#[local] Open Scope string_scope.
#[local] Open Scope list_scope.
#[local] Open Scope Z_scope.

Module Gate.

Definition GATE_TTL_SECONDS : Z := 30.
(** Milliseconds. *)
Definition PROVIDER_WAIT : Z := 10000.
Definition PROVIDER_POLL : Z := 50.

Definition value : Type := list (string * json).

Definition owner (device_id : string) : string := py_upper (py_strip device_id).
Definition _key (device_id : string) : string := ("device:" ++ owner device_id ++ ":playback_safety_gate")%string.

(** [type(x) is int and 0 <= x <= 5]. *)
Definition safe_int (j : option json) : option Z :=
  match j with Some (JNum (PInt n)) => if (0 <=? n) && (n <=? 5) then Some n else None | _ => None end.
Definition or_null (j : option json) : json := default JNull j.

(** A loaded gate: the value with its age. *)
Record gate := { fields : value; expired : bool }.

(** What [wait_for_provider_release] ends with. *)
Inductive verdict : Type :=
| NotArmed
| Released (volume : Z)
| Withheld (reason : string).

Section Gate.
Context (isoformat : datetime -> string) (fromisoformat : string -> option datetime) (str_of : json -> string).

(** ** Writing a row *)
Definition stamped (device_id : string) (now : Z) (payload : value) : value :=
  ("device_id", JStr (owner device_id)) :: ("updated_at", JStr (isoformat (utc now))) :: payload.

Definition armed (safe_volume station_id : Z) : value :=
  [("state", JStr "ARMED"); ("safe_volume", JNum (PInt safe_volume)); ("station_id", JNum (PInt station_id)); ("mute_required", JBool true);
   ("reason", JStr "waiting for post-select volume and mute readback")].
Definition verified (expected : Z) (station : json) (volume : Z) : value :=
  [("state", JStr "VERIFIED"); ("safe_volume", JNum (PInt expected)); ("station_id", station); ("mute_required", JBool true);
   ("volume_readback", JNum (PInt volume)); ("mute_readback", JBool true); ("reason", JStr "post-select safety readback verified")].
Definition failed (g : option gate) (reason : string) : value :=
  let old k := match g with Some g => or_null (Json.get k (fields g)) | None => JNull end in
  [("state", JStr "FAILED"); ("safe_volume", old "safe_volume"); ("station_id", old "station_id"); ("mute_required", JBool true);
   ("reason", JStr (Mutation.clip 500 (or_str reason "playback safety verification failed")))].

(** ** Loading a row *)
Definition age_of (v : value) (now : Z) : pynum :=
  match fromisoformat (replace_z (match Json.get "updated_at" v with Some j => str_of j | None => "None" end)) with
  | Some t => total_seconds (now - dt_us t)
  | None => PInt (GATE_TTL_SECONDS + 1)
  end.
Definition load (row : option value) (now : Z) : option gate :=
  v ← row; Some {| fields := v; expired := num_lt (PInt GATE_TTL_SECONDS) (age_of v now) |}.

(** What a matching readback lets [verify_playback_safety_gate] write. *)
Definition check_readback (g : option gate) (volume : Z) (muted : bool) : option value :=
  match g with
  | None => None
  | Some g =>
      match Json.get "state" (fields g), safe_int (Json.get "safe_volume" (fields g)) with
      | Some (JStr s), Some expected =>
          if negb (bool_decide (s = "ARMED")) || expired g || negb (volume =? expected) || negb muted then None
          else Some (verified expected (or_null (Json.get "station_id" (fields g))) volume)
      | _, _ => None
      end
  end.

(** [str(gate.get(k) or d)]. *)
Definition text_or (k d : string) (v : value) : string :=
  match Json.get k v with Some (JStr s) => or_str s d | Some j => if truthy j then str_of j else d | None => d end.

(** One look of the provider: [None] while it goes on waiting. *)
Definition look (g : option gate) (late : bool) : option verdict :=
  match g with
  | None => Some NotArmed
  | Some g =>
      if expired g then Some (Withheld "playback safety gate expired before provider release")
      else
        let state := py_upper (text_or "state" "" (fields g)) in
        if bool_decide (state = "VERIFIED")
        then match safe_int (Json.get "safe_volume" (fields g)), Json.get "volume_readback" (fields g), Json.get "mute_readback" (fields g) with
             | Some n, Some (JNum (PInt m)), Some (JBool true) => if m =? n then Some (Released m) else Some (Withheld "invalid playback safety readback")
             | _, _, _ => Some (Withheld "invalid playback safety readback")
             end
        else if bool_decide (state = "FAILED") then Some (Withheld (text_or "reason" "playback safety gate failed" (fields g)))
        else if late then Some (Withheld "timed out waiting for post-select volume and mute readback")
        else None
  end.

(** [wait_for_provider_release]: the times of its looks on the monotonic clock with what
    they see; [None] when the looks end before it does. *)
Fixpoint wait_from (deadline : Z) (views : list (Z * option gate)) : option verdict :=
  match views with
  | [] => None
  | (t, g) :: views => match look g (deadline <=? t) with Some v => Some v | None => wait_from deadline views end
  end.
Definition wait_for_provider_release (start : Z) (views : list (Z * option gate)) : option verdict := wait_from (start + PROVIDER_WAIT) views.

(** ** Runs *)
Inductive happening : Type :=
| Armed (key : string) (safe_volume station_id stamp : Z)
| Checked (key : string) (volume : Z) (muted : bool) (task : nat) (now : Z)   (* a readback matched the loaded gate *)
| Verified (key : string) (volume : Z) (task : nat) (stamp : Z)
| Failed (key : string) (stamp : Z)
| Cleared (key : string)
| Ended (key : string) (v : verdict) (now : Z).                   (* the provider has an answer *)

(** A caller between its load and its write. *)
Inductive halfway : Type :=
| Verifying (device_id : string) (volume : Z) (payload : value)
| Failing (device_id : string) (payload : value).

Record system := {
  rows : gmap string value; wall : Z; mono : Z;
  halves : gmap nat halfway; waiters : gmap nat (string * Z);     (* the key and the deadline *)
  history : list happening
}.

Inductive action : Type :=
| SetClock (t : Z)
| Pass (d : Z)
| Arm (device_id : string) (safe_volume : json) (station_id : Z)
| Verify (task : nat) (device_id : string) (volume : Z) (muted : bool)
| Fail_ (task : nat) (device_id reason : string)
| Write (task : nat)
| Clear (device_id : string)
| Wait (task : nat) (device_id : string)
| Look (task : nat).

Definition happen (h : happening) (s : system) : system :=
  {| rows := rows s; wall := wall s; mono := mono s; halves := halves s; waiters := waiters s; history := history s ++ [h] |}.
Definition set_row (key : string) (v : value) (s : system) : system :=
  {| rows := <[key := v]> (rows s); wall := wall s; mono := mono s; halves := halves s; waiters := waiters s; history := history s |}.
Definition set_half (task : nat) (h : option halfway) (s : system) : system :=
  {| rows := rows s; wall := wall s; mono := mono s; halves := match h with Some h => <[task := h]> (halves s) | None => delete task (halves s) end;
     waiters := waiters s; history := history s |}.
Definition set_waiter (task : nat) (w : option (string * Z)) (s : system) : system :=
  {| rows := rows s; wall := wall s; mono := mono s; halves := halves s;
     waiters := match w with Some w => <[task := w]> (waiters s) | None => delete task (waiters s) end; history := history s |}.

Definition arm_playback_safety_gate (device_id : string) (safe_volume : json) (station_id : Z) (s : system) : system :=
  match safe_int (Some safe_volume) with
  | None => s
  | Some n => happen (Armed (_key device_id) n station_id (wall s)) (set_row (_key device_id) (stamped device_id (wall s) (armed n station_id)) s)
  end.
Definition clear_playback_safety_gate (device_id : string) (s : system) : system :=
  match rows s !! _key device_id with
  | None => s
  | Some _ =>
      happen (Cleared (_key device_id))
        {| rows := delete (_key device_id) (rows s); wall := wall s; mono := mono s; halves := halves s; waiters := waiters s; history := history s |}
  end.
Definition load_playback_safety_gate (key : string) (s : system) : option gate := load (rows s !! key) (wall s).

(** Up to the write: [write_half] is the rest.  A call that raises changes nothing. *)
Definition verify_playback_safety_gate (task : nat) (device_id : string) (volume : Z) (muted : bool) (s : system) : system :=
  match check_readback (load_playback_safety_gate (_key device_id) s) volume muted with
  | None => s
  | Some payload => set_half task (Some (Verifying device_id volume payload)) (happen (Checked (_key device_id) volume muted task (wall s)) s)
  end.
Definition fail_playback_safety_gate (task : nat) (device_id reason : string) (s : system) : system :=
  set_half task (Some (Failing device_id (failed (load_playback_safety_gate (_key device_id) s) reason))) s.
(** [_write] of a caller that has loaded the gate. *)
Definition write_half (task : nat) (s : system) : system :=
  match halves s !! task with
  | None => s
  | Some (Verifying d volume payload) =>
      set_half task None (happen (Verified (_key d) volume task (wall s)) (set_row (_key d) (stamped d (wall s) payload) s))
  | Some (Failing d payload) => set_half task None (happen (Failed (_key d) (wall s)) (set_row (_key d) (stamped d (wall s) payload) s))
  end.
(** A look of the provider at the row; it sleeps when there is no answer yet. *)
Definition look_once (task : nat) (s : system) : system :=
  match waiters s !! task with
  | None => s
  | Some (key, deadline) =>
      match look (load_playback_safety_gate key s) (deadline <=? mono s) with
      | Some v => set_waiter task None (happen (Ended key v (wall s)) s)
      | None => s
      end
  end.

Definition act (a : action) (s : system) : system :=
  match a with
  | SetClock t => {| rows := rows s; wall := t; mono := mono s; halves := halves s; waiters := waiters s; history := history s |}
  | Pass d => {| rows := rows s; wall := wall s; mono := mono s + Z.max 0 d; halves := halves s; waiters := waiters s; history := history s |}
  | Arm d v st => arm_playback_safety_gate d v st s
  | Verify task d volume muted => match halves s !! task with None => verify_playback_safety_gate task d volume muted s | Some _ => s end
  | Fail_ task d reason => match halves s !! task with None => fail_playback_safety_gate task d reason s | Some _ => s end
  | Write task => write_half task s
  | Clear d => clear_playback_safety_gate d s
  | Wait task d => look_once task (set_waiter task (Some (_key d, mono s + PROVIDER_WAIT)) s)
  | Look task => look_once task s
  end.
Definition run (l : list action) (s : system) : system := fold_left (fun s a => act a s) l s.

Definition idle (wall mono : Z) : system :=
  {| rows := ∅; wall := wall; mono := mono; halves := ∅; waiters := ∅; history := [] |}.
End Gate.
(** ** The age of a row *)
(** A duration that is not reported above 30 s is at most 30 s: 30 s and a microsecond
    is rounded to a float above 30. *)
Lemma age_bound us : num_lt (PInt GATE_TTL_SECONDS) (total_seconds us) = false -> us <= GATE_TTL_SECONDS * SECOND.
Proof.
  intros H. destruct (Z.le_gt_cases us (GATE_TTL_SECONDS * SECOND)) as [Hle|Hgt]; [done|]. exfalso.
  pose proof UNIT_pos as HU. unfold GATE_TTL_SECONDS, SECOND in Hgt.
  unfold total_seconds, mk_float, rnd_ratio in H.
  replace (us * UNIT <? 0) with false in H by (symmetry; apply Z.ltb_ge; nia).
  assert ((30 * 2 ^ 40 + 1) * 2 ^ 1034 <= rnd_pos (us * UNIT) SECOND) as Hr.
  { apply rnd_pos_ge; [lia|lia|unfold SECOND; lia|]. rewrite UNIT_pow.
    replace (2 ^ 1074) with (2 ^ 40 * 2 ^ 1034) by (rewrite <- Z.pow_add_r; [f_equal|lia|lia]).
    pose proof (Z.pow_pos_nonneg 2 1034 ltac:(lia) ltac:(lia)). generalize dependent (2 ^ 1034). intros.
    unfold SECOND. nia. }
  assert (30 * UNIT < rnd_pos (us * UNIT) SECOND) as Hlt.
  { eapply Z.lt_le_trans; [|exact Hr]. rewrite UNIT_pow.
    replace (2 ^ 1074) with (2 ^ 40 * 2 ^ 1034) by (rewrite <- Z.pow_add_r; [f_equal|lia|lia]).
    pose proof (Z.pow_pos_nonneg 2 1034 ltac:(lia) ltac:(lia)). generalize dependent (2 ^ 1034). intros. nia. }
  destruct (FLOAT_LIMIT <=? Z.abs (rnd_pos (us * UNIT) SECOND)); cbn in H.
  - apply negb_false_iff, Z.ltb_lt in H. unfold SECOND in *. nia.
  - apply negb_false_iff, Z.leb_le in H. unfold GATE_TTL_SECONDS in H. lia.
Qed.

(** ** What a history says of a row *)
(** Does the entry tell of a write to the row. *)
Definition writes (key : string) (e : happening) : bool :=
  match e with
  | Armed k _ _ _ | Verified k _ _ _ | Failed k _ | Cleared k => bool_decide (k = key)
  | _ => false
  end.
Definition last_write (key : string) (h : list happening) : option happening :=
  fold_left (fun last e => if writes key e then Some e else last) h None.

Lemma last_write_snoc key h e : last_write key (h ++ [e]) = if writes key e then Some e else last_write key h.
Proof. unfold last_write. by rewrite fold_left_app. Qed.

Lemma last_write_split key h e : last_write key h = Some e ->
  exists A B, h = A ++ e :: B /\ Forall (fun e => writes key e = false) B.
Proof.
  induction h as [|x h IH] using rev_ind; [done|]. rewrite last_write_snoc. destruct (writes key x) eqn:E.
  - intros [= <-]. exists h, []. done.
  - intros H. destruct (IH H) as (A & B & -> & HB). exists A, (B ++ [x]). rewrite <- app_assoc. split; [done|].
    apply Forall_app. split; [done|]. by repeat constructor.
Qed.

Section Evidence.
Context (isoformat : datetime -> string) (fromisoformat : string -> option datetime) (str_of : json -> string).
Notation act := (act isoformat fromisoformat str_of).
Notation run := (run isoformat fromisoformat str_of).
Notation load := (load fromisoformat str_of).
Notation stamped := (stamped isoformat).
(** What the code relies on: [datetime.fromisoformat] reads back what [isoformat] wrote
    of an aware value, and [str] of a string is the string. *)
Context (Hiso : reads_back fromisoformat isoformat) (Hstr : forall s, str_of (JStr s) = s).

Lemma load_stamped d t payload now g :
  load (Some (stamped d t payload)) now = Some g ->
  fields g = stamped d t payload /\ (expired g = false -> now - t <= GATE_TTL_SECONDS * SECOND).
Proof.
  intros [= <-]. split; [done|]. cbn [expired]. intros H.
  destruct (Hiso (utc t) ltac:(done)) as (_ & t' & Ht & Hus & _).
  assert (age_of fromisoformat str_of (stamped d t payload) now = total_seconds (now - t)) as E.
  { unfold age_of. change (Json.get "updated_at" (stamped d t payload)) with (Some (JStr (isoformat (utc t)))).
    cbv iota beta. by rewrite Hstr, Ht, Hus. }
  rewrite E in H. by apply age_bound.
Qed.

(** The row is the one its last write left. *)
Definition row_of (key : string) (v : option value) (h : list happening) : Prop :=
  match last_write key h with
  | None | Some (Cleared _) => v = None
  | Some (Armed k n st t) => k = key /\ 0 <= n <= 5 /\ exists d, v = Some (stamped d t (armed n st))
  | Some (Verified k n _ t) => k = key /\ 0 <= n <= 5 /\ exists d st, v = Some (stamped d t (verified n st n))
  | Some (Failed k t) => exists d g r, v = Some (stamped d t (failed g r))
  | Some _ => False
  end.

(** What stands before an entry of the history. *)
Definition in_hand (task : nat) (key : string) (n : Z) (h : list happening) : Prop :=
  exists A B t, h = A ++ Checked key n true task t :: B /\
    Forall (fun e => match e with Verified _ _ task' _ | Checked _ _ _ task' _ => task' <> task | _ => True end) B.
Definition justified (h : list happening) (e : happening) : Prop :=
  match e with
  | Checked key n muted _ t => muted = true /\ 0 <= n <= 5 /\ exists st t0, last_write key h = Some (Armed key n st t0) /\ t - t0 <= GATE_TTL_SECONDS * SECOND
  | Verified key n task _ => in_hand task key n h
  | Ended key (Released n) t =>
      0 <= n <= 5 /\ exists task t2, last_write key h = Some (Verified key n task t2) /\ t - t2 <= GATE_TTL_SECONDS * SECOND
  | Ended key NotArmed _ => last_write key h = None \/ exists k, last_write key h = Some (Cleared k)
  | _ => True
  end.
Definition just (h : list happening) : Prop := forall A e B, h = A ++ e :: B -> justified A e.

Record sound (s : system) : Prop := {
  sound_rows : forall key, row_of key (rows s !! key) (history s);
  sound_halves : forall task d n payload, halves s !! task = Some (Verifying d n payload) ->
    in_hand task (_key d) n (history s) /\ 0 <= n <= 5 /\ exists st, payload = verified n st n;
  sound_failing : forall task d payload, halves s !! task = Some (Failing d payload) -> exists g r, payload = failed g r;
  sound_history : just (history s)
}.

Lemma just_snoc h e : just h -> justified h e -> just (h ++ [e]).
Proof.
  intros Hh He A x B E. destruct B as [|y B' _] using rev_ind.
  - apply app_inj_tail in E as [-> ->]. done.
  - rewrite app_comm_cons, app_assoc in E. apply app_inj_tail in E as [-> _]. by eapply Hh.
Qed.

Lemma in_hand_snoc task key n h e :
  (match e with Verified _ _ task' _ | Checked _ _ _ task' _ => task' <> task | _ => True end) ->
  in_hand task key n h -> in_hand task key n (h ++ [e]).
Proof.
  intros He (A & B & t & -> & HB). exists A, (B ++ [e]), t. rewrite <- app_assoc. split; [done|].
  apply Forall_app. split; [done|]. by repeat constructor.
Qed.

Lemma row_of_snoc key v h e : writes key e = false -> row_of key v h -> row_of key v (h ++ [e]).
Proof. intros He. unfold row_of. by rewrite last_write_snoc, He. Qed.

(** An entry that tells of no write and of no verification. *)
Lemma sound_told e s :
  (match e with Ended _ _ _ => True | _ => False end) -> justified (history s) e -> sound s -> sound (happen e s).
Proof.
  intros He Hj [Hr Hh Hf Hj']. split; [| |done|].
  - intros key. apply row_of_snoc; [by destruct e|]. apply Hr.
  - intros task d n payload H. destruct (Hh task d n payload H) as [? ?]. split; [|done].
    apply in_hand_snoc; [by destruct e|done].
  - by apply just_snoc.
Qed.

(** A write to a row with its entry. *)
Lemma sound_write key e v s rows' halves' :
  (forall key', writes key' e = bool_decide (key = key')) ->
  rows' = match v with Some v => <[key := v]> (rows s) | None => delete key (rows s) end ->
  (forall task h, halves' !! task = Some h -> halves s !! task = Some h /\ match e with Verified _ _ task' _ | Checked _ _ _ task' _ => task' <> task | _ => True end) ->
  (forall h, row_of key v (h ++ [e])) -> justified (history s) e -> sound s ->
  sound {| rows := rows'; wall := wall s; mono := mono s; halves := halves'; waiters := waiters s; history := history s ++ [e] |}.
Proof.
  intros Hw -> Hhv Hv Hj [Hr Hh Hf Hj']. split; cbn [rows halves history].
  - intros key'. destruct (decide (key = key')) as [<-|Hne].
    + assert (match v with Some v => <[key := v]> (rows s) | None => delete key (rows s) end !! key = v) as ->; [|apply Hv].
      destruct v; by simplify_map_eq.
    + apply row_of_snoc; [rewrite Hw; by apply bool_decide_eq_false|].
      assert (match v with Some v => <[key := v]> (rows s) | None => delete key (rows s) end !! key' = rows s !! key') as ->; [|apply Hr].
      destruct v; by simplify_map_eq.
  - intros task d n payload H. destruct (Hhv _ _ H) as [H' He]. destruct (Hh _ _ _ _ H') as [? ?]. split; [|done].
    by apply in_hand_snoc.
  - intros task d payload H. destruct (Hhv _ _ H) as [H' _]. by eapply Hf.
  - by apply just_snoc.
Qed.

Lemma sound_frame s s' :
  rows s' = rows s -> history s' = history s ->
  (forall task h, halves s' !! task = Some h ->
     halves s !! task = Some h \/ exists d g r, h = Failing d (failed g r)) ->
  sound s -> sound s'.
Proof.
  intros Er Eh Hh [H1 H2 H3 H4]. split; rewrite ?Eh, ?Er; [done| | |done].
  - intros task d n p H. destruct (Hh _ _ H) as [H'|(? & ? & ? & [=])]. by apply (H2 task).
  - intros task d p H. destruct (Hh _ _ H) as [H'|(? & ? & ? & [= -> ->])]; [|eauto]. by eapply H3.
Qed.

Lemma safe_int_some j n : safe_int j = Some n -> j = Some (JNum (PInt n)) /\ 0 <= n <= 5.
Proof.
  unfold safe_int. destruct j as [[| |[z|]| | |]|]; try done. destruct ((0 <=? z) && (z <=? 5)) eqn:E; [|done].
  intros [= <-]. split; [done|lia].
Qed.

(** ** The operations *)
Lemma sound_arm d v st s : sound s -> sound (arm_playback_safety_gate isoformat d v st s).
Proof.
  intros Hs. unfold arm_playback_safety_gate. destruct (safe_int (Some v)) as [n|] eqn:E; [|done].
  apply safe_int_some in E as [_ E]. apply (sound_write (_key d) _ (Some (stamped d (wall s) (armed n st))) s); [done..| |done|done].
  intros h. unfold row_of. rewrite last_write_snoc. cbn [writes]. rewrite bool_decide_eq_true_2 by done. eauto.
Qed.

Lemma sound_clear d s : sound s -> sound (clear_playback_safety_gate d s).
Proof.
  intros Hs. unfold clear_playback_safety_gate. destruct (rows s !! _key d) eqn:E; [|done].
  apply (sound_write (_key d) _ None s); [done..| |done|done].
  intros h. unfold row_of. rewrite last_write_snoc. cbn [writes]. by rewrite bool_decide_eq_true_2.
Qed.

Lemma sound_fail task d reason s : sound s -> sound (fail_playback_safety_gate fromisoformat str_of task d reason s).
Proof.
  apply sound_frame; [done..|]. intros task' h. cbn [fail_playback_safety_gate set_half halves].
  rewrite lookup_insert_Some. intros [[_ <-]|[_ H]]; eauto.
Qed.

(** A gate that is loaded is what the last write to its row left, and when it does not
    count as expired that write is at most 30 s old. *)
Lemma loaded key s g : sound s -> load (rows s !! key) (wall s) = Some g ->
  match last_write key (history s) with
  | Some (Armed k n st t) => k = key /\ 0 <= n <= 5 /\ exists d, fields g = stamped d t (armed n st) /\
                               (expired g = false -> wall s - t <= GATE_TTL_SECONDS * SECOND)
  | Some (Verified k n _ t) => k = key /\ 0 <= n <= 5 /\ exists d st, fields g = stamped d t (verified n st n) /\
                               (expired g = false -> wall s - t <= GATE_TTL_SECONDS * SECOND)
  | Some (Failed k t) => exists d g' r, fields g = stamped d t (failed g' r)
  | _ => False
  end.
Proof.
  intros [Hr _ _ _] Eg. specialize (Hr key). unfold row_of in Hr.
  destruct (last_write key (history s)) as [[k n st t|k n task t|k n task t|k t|k|k v t]|]; try done; try (by rewrite Hr in Eg).
  - destruct Hr as (-> & Hn & d & Er). rewrite Er in Eg. apply load_stamped in Eg. eauto.
  - destruct Hr as (-> & Hn & d & st & Er). rewrite Er in Eg. apply load_stamped in Eg. eauto.
  - destruct Hr as (d & g' & r & Er). rewrite Er in Eg. apply load_stamped in Eg as [Eg _]. eauto.
Qed.

(** A readback that matches proves the row to be armed, for that volume, and young. *)
Lemma check_readback_armed key s n muted payload :
  sound s -> check_readback (load (rows s !! key) (wall s)) n muted = Some payload ->
  muted = true /\ 0 <= n <= 5 /\ (exists st t0, last_write key (history s) = Some (Armed key n st t0) /\ wall s - t0 <= GATE_TTL_SECONDS * SECOND) /\
  exists st, payload = verified n st n.
Proof.
  intros Hs H. destruct (load (rows s !! key) (wall s)) as [g|] eqn:Eg; [|done]. pose proof (loaded _ _ _ Hs Eg) as L.
  unfold check_readback in H. destruct (Json.get "state" (fields g)) as [[| | |text| |]|] eqn:Es; try done.
  destruct (safe_int _) as [m|] eqn:Em; [|done].
  destruct (negb (bool_decide (text = "ARMED")) || expired g || negb (n =? m) || negb muted) eqn:E; [done|]. bdestr.
  assert (m = n) as -> by lia. assert (text = "ARMED") as -> by done. injection H as <-. split; [done|].
  destruct (last_write key (history s)) as [[k v st t|k v task t|k v task t|k t|k|k v t]|] eqn:El; try done.
  - destruct L as (-> & Hv & d & Ef & Hage). rewrite Ef in Em.
    apply safe_int_some in Em as [Em Hn]. injection Em as ->. eauto 10.
  - destruct L as (_ & _ & d & st & Ef & _). by rewrite Ef in Es.
  - destruct L as (d & g' & r & Ef). by rewrite Ef in Es.
Qed.

Lemma sound_verify task d n muted s :
  halves s !! task = None -> sound s -> sound (verify_playback_safety_gate fromisoformat str_of task d n muted s).
Proof.
  intros Hn Hs. unfold verify_playback_safety_gate.
  destruct (check_readback _ n muted) as [payload|] eqn:E; [|done].
  destruct (check_readback_armed _ s _ _ _ Hs E) as (-> & H5 & Harm & Hp). destruct Hs as [Hr Hh Hf Hj]. split.
  - intros key. apply row_of_snoc; [done|]. apply Hr.
  - intros task' d' n' p. cbn [set_half halves happen history]. rewrite lookup_insert_Some.
    intros [[-> [= -> -> ->]]|[Hne H]].
    + split; [|done]. exists (history s), [], (wall s). done.
    + destruct (Hh _ _ _ _ H) as [? ?]. split; [|done]. by apply in_hand_snoc.
  - intros task' d' p. cbn [set_half halves]. rewrite lookup_insert_Some. intros [[_ [=]]|[_ H]]. by eapply Hf.
  - apply just_snoc; [done|]. by split.
Qed.

(** A caller that writes leaves the row it had prepared, and is done. *)
Lemma sound_half task s : sound s -> sound (write_half isoformat task s).
Proof.
  intros Hs. unfold write_half. destruct (halves s !! task) as [[d n payload|d payload]|] eqn:E; [| |done].
  - destruct (sound_halves s Hs _ _ _ _ E) as (Hin & Hn & st & ->).
    apply (sound_write (_key d) _ (Some (stamped d (wall s) (verified n st n))) s); [done..| | |done|done].
    + intros task' h. rewrite lookup_delete_Some. naive_solver.
    + intros h. unfold row_of. rewrite last_write_snoc. cbn [writes]. rewrite bool_decide_eq_true_2 by done. eauto 6.
  - destruct (sound_failing s Hs _ _ _ E) as (g & r & ->).
    apply (sound_write (_key d) _ (Some (stamped d (wall s) (failed g r))) s); [done..| | |done|done].
    + intros task' h. rewrite lookup_delete_Some. naive_solver.
    + intros h. unfold row_of. rewrite last_write_snoc. cbn [writes]. rewrite bool_decide_eq_true_2 by done. eauto 6.
Qed.

(** What the provider is told, of a row in the state its last write left. *)
Lemma look_justified key s late v :
  sound s -> look str_of (load (rows s !! key) (wall s)) late = Some v -> justified (history s) (Ended key v (wall s)).
Proof.
  intros Hs H. destruct v as [|n|reason]; [| |done].
  { destruct (load (rows s !! key) (wall s)) as [g|] eqn:Eg; [unfold look in H; by repeat case_match|].
    pose proof (sound_rows s Hs key) as Hr. destruct (rows s !! key); [done|]. unfold row_of in Hr. cbn [justified].
    destruct (last_write key (history s)) as [[]|]; naive_solver. }
  destruct (load (rows s !! key) (wall s)) as [g|] eqn:Eg; [|done]. pose proof (loaded _ _ _ Hs Eg) as L.
  unfold look in H. destruct (expired g) eqn:Ex; [done|].
  destruct (bool_decide (py_upper (text_or str_of "state" "" (fields g)) = "VERIFIED")) eqn:Est; [|by repeat case_match].
  apply bool_decide_eq_true in Est. destruct (safe_int _) as [m|] eqn:Em; [|done].
  destruct (Json.get "volume_readback" (fields g)) as [[| |[m'|]| | |]|]; try done.
  destruct (Json.get "mute_readback" (fields g)) as [[|[]| | | |]|]; try done.
  destruct (m' =? m) eqn:E; [|done]. injection H as ->. bdestr. assert (n = m) as -> by lia.
  cbn [justified]. destruct (last_write key (history s)) as [[k w st t|k w task t|k w task t|k t|k|k w t]|] eqn:El; try done.
  - destruct L as (_ & _ & d & Ef & _). by rewrite Ef in Est.
  - destruct L as (-> & Hw & d & st & Ef & Hage). rewrite Ef in Em.
    apply safe_int_some in Em as [Em Hn]. injection Em as ->. eauto 10.
  - destruct L as (d & g' & r & Ef). by rewrite Ef in Est.
Qed.

Lemma sound_look task s : sound s -> sound (look_once fromisoformat str_of task s).
Proof.
  intros Hs. unfold look_once. destruct (waiters s !! task) as [[key deadline]|]; [|done].
  destruct (look str_of _ _) as [v|] eqn:E; [|done].
  apply (sound_frame (happen (Ended key v (wall s)) s)); [done|done|by left|].
  apply sound_told; [done| |done]. by eapply look_justified.
Qed.

Lemma sound_act a s : sound s -> sound (act a s).
Proof.
  intros Hs. destruct a; cbn [Gate.act].
  1,2: apply (sound_frame s); [done|done|by left|done].
  - by apply sound_arm.
  - case_match; [done|]. by apply sound_verify.
  - case_match; [done|]. by apply sound_fail.
  - by apply sound_half.
  - by apply sound_clear.
  - apply sound_look. apply (sound_frame s); [done|done|by left|done].
  - by apply sound_look.
Qed.

Lemma run_sound l w m : sound (run l (idle w m)).
Proof.
  unfold Gate.run. induction l as [|a l IH] using rev_ind; [|rewrite fold_left_app; by apply sound_act].
  split; [done|done|done|]. intros A e B E. by destruct A.
Qed.

(** C21. Audio is handed out under an armed gate only with the evidence: whatever the
    callers do, in whatever interleaving and whatever the clocks do, the answer to a
    provider that releases [n] has behind it, in this order, an arming of that radio's
    row with the safe volume [n], between 0 and 5; a muted readback of exactly [n],
    compared while that arming was still the last write to the row and at most 30 s
    old; the write of that comparison's verification, by the same caller; and the
    release, while that verification is the last write to the row and at most 30 s old.
    And a provider is told that nothing is armed only when the row was never written or
    was cleared last. *)
Theorem release_has_evidence l w m h v key t3 rest :
  history (run l (idle w m)) = h ++ Ended key v t3 :: rest ->
  match v with
  | Withheld _ => True
  | NotArmed => last_write key h = None \/ exists k, last_write key h = Some (Cleared k)
  | Released n =>
      0 <= n <= 5 /\
      exists A B C D st task t0 t1 t2,
        h = (A ++ Armed key n st t0 :: B) ++ Checked key n true task t1 :: C ++ Verified key n task t2 :: D /\
        Forall (fun e => writes key e = false) B /\ Forall (fun e => writes key e = false) D /\
        Forall (fun e => match e with Verified _ _ task' _ | Checked _ _ _ task' _ => task' <> task | _ => True end) C /\
        t1 - t0 <= GATE_TTL_SECONDS * SECOND /\ t3 - t2 <= GATE_TTL_SECONDS * SECOND
  end.
Proof.
  intros E. pose proof (sound_history _ (run_sound l w m)) as Hj. pose proof (Hj _ _ _ E) as J.
  destruct v as [|n|]; [exact J| |done]. destruct J as (Hn & task & t2 & Hl & Hage). split; [done|].
  apply last_write_split in Hl as (X & D & -> & HD).
  rewrite <- app_assoc in E. destruct (Hj _ _ _ E) as (Y & C & t1 & -> & HC).
  rewrite <- app_assoc in E. destruct (Hj _ _ _ E) as (_ & _ & st & t0 & Hl & Hage1).
  apply last_write_split in Hl as (A & B & -> & HB).
  exists A, B, C, D, st, task, t0, t1, t2. split; [|done]. by rewrite <- !app_assoc.
Qed.
End Evidence.

(** ** The wait of the provider *)
Section Waiting.
Context (str_of : json -> string).

Lemma wait_answers deadline views : (exists t g, (t, g) ∈ views /\ deadline <= t) -> exists v, wait_from str_of deadline views = Some v.
Proof.
  intros (t & g & Hin & Ht). induction views as [|[t' g'] views IH]; [by apply elem_of_nil in Hin|]. cbn [wait_from].
  destruct (look str_of g' (deadline <=? t')) as [v|] eqn:E; [eauto|].
  apply elem_of_cons in Hin as [[= <- <-]|Hin]; [|by apply IH].
  exfalso. replace (deadline <=? t) with true in E by (symmetry; by apply Z.leb_le). unfold look in E. by repeat case_match.
Qed.

(** A wait that goes on: every look so far saw an armed gate, or one of no known state. *)
Lemma wait_silent deadline views : wait_from str_of deadline views = None ->
  Forall (fun tg : Z * option gate => tg.1 < deadline /\ exists g, tg.2 = Some g /\ expired g = false /\
            py_upper (text_or str_of "state" "" (fields g)) <> "VERIFIED" /\ py_upper (text_or str_of "state" "" (fields g)) <> "FAILED") views.
Proof.
  induction views as [|[t g] views IH]; [done|]. cbn [wait_from].
  destruct (look str_of g (deadline <=? t)) eqn:E; [done|]. intros H. constructor; [|by apply IH]. cbn.
  unfold look in E. destruct g as [g|]; [|done]. destruct (expired g) eqn:Ex; [done|].
  destruct (bool_decide (_ = "VERIFIED")) eqn:E1; [by repeat case_match|].
  destruct (bool_decide (_ = "FAILED")) eqn:E2; [done|]. destruct (deadline <=? t) eqn:Et; [done|]. bdestr. eauto 10.
Qed.

(** The looks come no sooner than the sleep between them. *)
Fixpoint paced (t : Z) (views : list (Z * option gate)) : Prop :=
  match views with [] => True | (t', _) :: views => t <= t' /\ paced (t' + PROVIDER_POLL) views end.

Lemma paced_last views : forall t, paced t views -> views <> [] ->
  exists t' g, (t', g) ∈ views /\ t + PROVIDER_POLL * (Z.of_nat (length views) - 1) <= t'.
Proof.
  induction views as [|[t' g] views IH]; [done|]. intros t [Ht H] _. destruct views as [|w views].
  - exists t', g. split; [by constructor|]. cbn. lia.
  - destruct (IH _ H ltac:(done)) as (t2 & g2 & Hin & Hle). exists t2, g2. split; [by right|].
    cbn [length] in *. unfold PROVIDER_POLL in *. lia.
Qed.

(** The provider never waits for ever: with at least the 50 ms of its sleep between
    its looks it has an answer within 201 of them, whatever it sees; and it is kept
    waiting only while, before the deadline, every look finds a young gate that neither
    passed nor failed. *)
Theorem wait_ends start views :
  paced start views ->
  (201 <= Z.of_nat (length views) -> exists v, wait_for_provider_release str_of start views = Some v) /\
  (wait_for_provider_release str_of start views = None ->
     Z.of_nat (length views) <= 200 /\
     Forall (fun tg : Z * option gate => tg.1 < start + PROVIDER_WAIT /\ exists g, tg.2 = Some g /\ expired g = false /\
       py_upper (text_or str_of "state" "" (fields g)) <> "VERIFIED" /\ py_upper (text_or str_of "state" "" (fields g)) <> "FAILED") views).
Proof.
  intros Hp. assert (201 <= Z.of_nat (length views) -> exists v, wait_for_provider_release str_of start views = Some v) as Hw.
  { intros Hl. apply wait_answers. destruct (paced_last views start Hp) as (t & g & Hin & Ht); [by intros ->|].
    exists t, g. split; [done|]. unfold PROVIDER_WAIT, PROVIDER_POLL in *. lia. }
  split; [done|]. intros H. split; [|by apply wait_silent].
  destruct (Z.le_gt_cases (Z.of_nat (length views)) 200) as [Hle|Hgt]; [done|].
  destruct Hw as [v Hv]; [lia|]. by rewrite H in Hv.
Qed.
End Waiting.

(** ** Examples *)
(** A WebUI start: armed at volume 2, the provider waits, the muted readback of 2 is
    verified a second later and the provider is told so. *)
Definition started : list action :=
  [Arm "aa" (JNum (PInt 2)) 7; Wait 9 "AA"; SetClock 1000000; Verify 1 "aa" 2 true; Look 9; Write 1; Pass 50; Look 9].
Definition plain_run (l : list action) : system := run unary_iso unary_from plain_str l (idle 0 0).

Lemma release_has_evidence_witness :
  history (plain_run started)
    = [Armed (_key "AA") 2 7 0; Checked (_key "AA") 2 true 1 1000000; Verified (_key "AA") 2 1 1000000] ++ [Ended (_key "AA") (Released 2) 1000000] /\
  0 <= 2 <= 5.
Proof.
  assert (history (plain_run started)
    = [Armed (_key "AA") 2 7 0; Checked (_key "AA") 2 true 1 1000000; Verified (_key "AA") 2 1 1000000] ++ [Ended (_key "AA") (Released 2) 1000000]) as E.
  { vm_compute. reflexivity. }
  split; [exact E|].
  exact (proj1 (release_has_evidence unary_iso unary_from plain_str unary_reads_back (fun s => eq_refl) _ _ _ _ _ _ _ _ E)).
Defined.

Lemma wait_ends_witness :
  exists v, wait_for_provider_release plain_str 0 (map (fun i => (50 * Z.of_nat i, Some {| fields := [("state", JStr "ARMED")]; expired := false |})) (seq 0 201)) = Some v.
Proof.
  apply (wait_ends plain_str 0); [|vm_compute; discriminate]. vm_compute. repeat split; discriminate.
Defined.

(** A gate that nobody cleared is not forgotten: half a minute later, and ever after, the
    provider is refused, where without the row it would not be. *)
Example stale_gate_withholds :
  history (plain_run [Arm "aa" (JNum (PInt 2)) 7; SetClock (31 * SECOND); Wait 9 "AA"; SetClock (3600 * SECOND); Wait 9 "AA"; Clear "aa"; Wait 9 "AA"])
  = [Armed (_key "AA") 2 7 0;
     Ended (_key "AA") (Withheld "playback safety gate expired before provider release") (31 * SECOND);
     Ended (_key "AA") (Withheld "playback safety gate expired before provider release") (3600 * SECOND);
     Cleared (_key "AA"); Ended (_key "AA") NotArmed (3600 * SECOND)].
Proof. vm_compute. reflexivity. Qed.

(** A failure written between the comparison and the write of a verification is lost: the
    provider is let through. *)
Example failure_overwritten :
  history (plain_run [Arm "aa" (JNum (PInt 2)) 7; Verify 1 "aa" 2 true; Fail_ 2 "aa" "volume moved"; Write 2; Write 1; Wait 9 "AA"])
  = [Armed (_key "AA") 2 7 0; Checked (_key "AA") 2 true 1 0; Failed (_key "AA") 0; Verified (_key "AA") 2 1 0; Ended (_key "AA") (Released 2) 0].
Proof. vm_compute. reflexivity. Qed.

End Gate.
